(* ===== verification/_CoqProject ===== *)
-Q . S2P
Prelude.v
Checked.v
AKTime.v
Memory.v
Bitmap.v
BitmapSearch.v
Heap.v
ExpandableHeap.v
Containers.v
BinaryHeap.v
HashTable.v
Codecs.v
RedBlackTree.v
RedBlackFacts.v
RedBlackSpec.v
RangeAllocator.v
PhysicalRegion.v
PhysicalMemory.v
FramePool.v
MemoryMap.v
Region.v
Space.v
SpaceFacts.v
SpaceSpec.v
Purgeable.v
CopyOnWrite.v
CopyOnWriteFacts.v
CopyOnWriteSpec.v
CopyOnWriteFork.v
CopyOnWriteRun.v
Lock.v
Pipe.v
PipeSpec.v
Credentials.v
Mmap.v
MmapFacts.v
MmapSpec.v
MmapRun.v
Tcp.v
Paths.v
KBuffer.v
FileSystem.v
TmpFS.v
TmpFSLaws.v
Unveil.v
Vfs.v
VfsFacts.v
VfsAccess.v
VfsTree.v
VfsPaths.v
VfsVeil.v
VfsSpec.v
OpenFile.v
OpenFileSpec.v
OpenFileRun.v
