(* ===== verification/Prelude.v ===== *)
(** * Verification of the Prana OS kernel core

    Prana OS is a Unix-like kernel for i386 in C++ (src/Kernel) over a library of
    its own (src/AK), with graphical user programs (src/UserLand).  This library
    is a shallow embedding of the parts of the kernel and of AK whose
    correctness is a matter of data and protocol rather than of hardware:
    functions of the code are Rocq functions, machine integers are [Z] with the
    wrap-around written out, and code that may stop the kernel returns [res].

    ** Conventions

    [res] is the result of a computation: [Ok], or [Fault] with the reason.
    [VerifyFailed] is a failed VERIFY (AK/Assertions.h), [UndefinedBehaviour] an
    operation C++ leaves undefined (signed overflow through [exact], access to
    memory that is not accessible), [OutOfFuel] a loop that did not end within
    its fuel.  A theorem that says a run is [Ok] therefore says that no assertion
    fails, nothing undefined happens and every loop ends.  Widths are those of
    i386: size_t and FlatPtr have 32 bits.  Code outside the models (the routing of
    packets, random numbers, the clock, ELF files, reads of user memory) appears as arguments of the definitions that call it.

    ** Files, and what they model

    - [Prelude]: [res] with its notations, integer types, tactics, the hint
      database [machine].
    - [Checked] (AK/Checked.h): TypeBoundsChecker and the class Checked.
    - [AKTime] (AK/Time.h, AK/Time.cpp): modules [Calendar], [Time], [Timespec].
      A Time is its seconds and nanoseconds; [Time.total] is what it denotes.
    - [Memory]: byte memory with accessible addresses, memset, memcpy, words,
      bit counting (AK/StdLibExtras.h and compiler builtins).
    - [Bitmap], [BitmapSearch] (AK/BitmapView.h): the view is an address and a
      number of bits; its methods read and write [memory].
    - [Heap] (Kernel/Heap/Heap.h, class Heap): chunks, headers and bitmap are
      bytes of the same memory.
    - [ExpandableHeap] (class ExpandableHeap, Kernel/Heap/kmalloc.cpp): the chain
      of sub-heaps, and in [Kmalloc] the instance behind kmalloc.
    - [Containers] (AK/Vector.h, AK/BinarySearch.h): what RangeAllocator uses.
    - [BinaryHeap] (AK/BinaryHeap.h): the priority queue in an array.
    - [HashTable] (AK/HashFunctions.h, HashTable.h, HashMap.h): the array of
      buckets and its probing, over any hash function of the keys.
    - [Codecs] (AK/Base64.cpp, Hex.cpp, Utf8View.cpp, LEB128.h and the writing of
      code points in StringBuilder.cpp): encodings over lists of bytes.
    - [RedBlackTree], [RedBlackFacts], [RedBlackSpec] (AK/RedBlackTree.h and
      IntrusiveRedBlackTree.h): the pointer code over a store of nodes, its
      invariants, and its refinement of an ordered list.
    - [RangeAllocator] (Kernel/VM/Range, RangeAllocator): free address ranges.
    - [PhysicalRegion] (Kernel/VM/PhysicalRegion, Bitmap::grow of AK/Bitmap.h):
      frames of physical memory in a bitmap with a queue of returned ones.
    - [PhysicalMemory] (Kernel/VM/MemoryManager.cpp): the pools of user and
      supervisor pages with commitments and purging.
    - [MemoryMap] (the same file): the regions made from the boot loader's memory
      map, and the ranges a program may not map.
    - [Region] (Kernel/VM/Region, VMObject, AnonymousVMObject): a mapping with its
      access bits and the object it shows.
    - [Space] (Kernel/VM/Space.cpp and the mapping functions of Region.cpp): the
      regions of a process, the objects and page table entries.  The container
      of the regions is the class [OrderedMap] with its laws; [region_tree] is
      the red-black tree as its instance.  [SpaceFacts] holds the invariants,
      [SpaceSpec] what each operation does.
    - [Mmap] (Kernel/Syscalls/mmap.cpp and the checks it calls): mmap, mprotect,
      munmap, mremap, set_mmap_name and msyscall, each as a whole.  [MmapFacts]
      and [MmapSpec] say what each call does, [MmapRun] what sequences of calls
      keep.
    - [FramePool]: the class of what memory objects ask of the memory manager, with
      its laws; [manager_pool] and [manager_laws] are the instance.
    - [Purgeable] (Kernel/VM/PurgeablePageRanges and the part of AnonymousVMObject
      on volatile ranges).
    - [CopyOnWrite] (the faults and the cloning of Kernel/VM/Region.cpp and
      AnonymousVMObject.cpp, what Kernel/Syscalls/fork.cpp does with regions):
      the regions, objects, pools and page table entries of all processes over a
      [FramePool].  [CopyOnWriteFacts] holds the invariant, [CopyOnWriteSpec] what
      a fault does, [CopyOnWriteFork] what creating, cloning and destroying do,
      [CopyOnWriteRun] the refinement.
    - [Lock] (Kernel/Lock.cpp, Kernel/WaitQueue.cpp): the blocking lock, its wait
      queue, and [LockSystem], threads that interleave.
    - [Pipe] (Kernel/DoubleBuffer, Kernel/FileSystem/FIFO, the blocking of
      Kernel/FileSystem/FileDescription and ThreadBlockers.cpp, the read and write
      system calls): a pipe with its readers and writers; [PipeSpec] holds the
      invariant over all interleavings.
    - [Credentials] (Kernel/Syscalls/setuid.cpp, pledge.cpp, setpgid.cpp).
    - [Paths] (AK/StringView.cpp, AK/LexicalPath.cpp): views of strings that know
      where they lie, and paths in canonical form.
    - [KBuffer] (Kernel/KBuffer.h, KBufferBuilder.cpp): buffers of whole pages.
    - [FileSystem] (Kernel/FileSystem/Inode, InodeMetadata): the class [Inodes] of
      what the virtual file system asks of file systems and [InodeLaws], its laws,
      stated on a map of nodes.
    - [TmpFS] (Kernel/FileSystem/TmpFS.cpp): the file system in memory;
      [TmpFSLaws] shows that it keeps the laws.
    - [Unveil] (AK/Trie.h, Kernel/UnveilNode.h and the veil in
      VirtualFileSystem.cpp and Syscalls/unveil.cpp).
    - [Vfs] (Kernel/FileSystem/VirtualFileSystem.cpp, Custody.cpp): the resolution
      of paths and every operation, over any [Inodes].  [VfsFacts] has the
      induction over resolutions, [VfsAccess] access control and read-only mounts,
      [VfsTree] the directory trees, [VfsPaths] absolute paths, [VfsVeil] the veil,
      [VfsSpec] the theorems, with a TmpFS as the example.
    - [OpenFile] (Kernel/FileSystem/FileDescription, InodeFile and the calls on
      descriptors): files of TmpFS that are open; [OpenFileSpec] is the refinement
      of lists of bytes, [OpenFileRun] its witness.
    - [Tcp] (Kernel/Net/TCPSocket.cpp, the TCP part of NetworkTask.cpp and the
      calls of IPv4Socket.cpp that reach it): a store of sockets with the table
      by tuple, and the whole packet handler.

    The files build on each other as the code does: Heap calls the bitmap
    searches, ExpandableHeap calls Heap, RangeAllocator calls the vector and the
    binary search, PhysicalMemory calls PhysicalRegion and that the bitmaps, CopyOnWrite calls
    PhysicalMemory through FramePool, Space
    calls RangeAllocator and the tree, Mmap calls Space and Credentials, Time uses
    Checked, TCP uses Time, Vfs uses Paths, Unveil, Credentials and any [Inodes],
    TmpFS uses KBuffer, OpenFile calls TmpFS.

    ** What the theorems show

    - Arithmetic: the range check and the overflow flag are exact; Time addition,
      subtraction and conversion are exact arithmetic followed by one clamp.
    - Bitmaps: the byte- and word-wise routines equal their meaning on single
      bits; the searches find what exists, with the limits stated in each
      theorem.
    - Heap: an invariant relates the bytes to a map of live blocks; every
      operation keeps it, and over every sequence of requests by a client that
      frees what it owns, with sizes that do not wrap around, no fault happens
      and blocks never overlap.
    - Address space: in a space of at most 2 GiB, over every sequence of
      page-aligned requests the ranges handed out are disjoint and, with the free
      ones, make up the space; the one assertion that can fail is that of
      deallocate when nothing is available.  In larger spaces deallocate can
      misplace a range, which is a theorem.
    - Red-black tree: every operation gives the answers of an ordered list, never
      follows a bad pointer and keeps the tree balanced.
    - Heaps and hash tables: every sequence of calls gives the answers of a priority
      queue and of a finite map, the latter with up to 2^25 buckets and for keys
      whose probes come to every bucket; that probing can go on forever for other
      keys is a theorem.
    - Encodings: Base64, hexadecimal and UTF-8 read back what was written, and text
      that validates is read without a failed assertion.
    - Physical memory: over every sequence of requests no frame is handed out
      twice and a committed page is always found; every frame the boot code
      makes available lies in available memory outside the used ranges.
    - Memory system calls: over every sequence of calls with sound arguments (a
      power of two as alignment, an address inside the space, unmapping what is
      mapped) regions stay disjoint and taken from the allocator, page tables
      allow no more than regions, nothing is writable and executable, and each
      call has the effect its manual promises.  Arguments outside these reach
      assertions, which are theorems too.
    - Copy-on-write: every sequence of mappings, forks, reads, writes and
      unmappings gives the answers of a memory that copies at the fork; private
      regions are isolated and every frame comes back.  This is for anonymous
      memory without volatile ranges, regions that show whole objects, and page
      tables that can be allocated; a process that gets no memory ends the run.
      Private mappings of files are not isolated, which is a theorem.
    - Lock: over all interleavings of any number of threads no assertion fails,
      an exclusive holder is alone, and no wake-up is lost, while fewer than
      2^32 - 1 holds are outstanding (the counter has 32 bits).
    - Pipes: over all interleavings of readers and writers of a pipe the bytes read
      are, in order, the bytes written, nothing is lost or made up, and no
      assertion fails while writers are blocking; lost wake-ups are theorems.
    - Credentials: without a root id no identity is gained, promises given up
      stay given up while some are left, groups stay within one session.
    - TCP: for sockets bound only when opened no assertion fails whatever calls
      and packets come; checksums verify; port allocation is complete.
    - Virtual file system, for every file system that keeps the laws (TmpFS does):
      calls change only what the process may change; read-only mounts do not
      change; directories stay trees and every call with custodies that are still
      there is answered, except renaming a root or to the root; the absolute path
      of a custody leads back to it; what a veiled process opens or unlinks was
      unveiled for it.
    - Open files: on files of TmpFS the calls on descriptors answer what lists of
      bytes with shared offsets answer, for writes that leave no hole and sizes
      below 2 GiB.
    - Defects: theorems on concrete inputs show where the code departs from its
      intent (a search that does not end, sizes that wrap, an ordering that
      fails above 2 GiB, setreuid that never succeeds, and others).

    ** Bounds and fuel

    - [scan_bucket] has 33 turns: each turn but the last views at least one of 32
      bits.
    - [find_best_fit] takes its fuel as an argument; [Heap.find_chunks] passes one
      more than the number of chunks, enough for requests of 32 bits or more,
      and calls it only for larger ones.  For smaller requests no fuel is enough,
      which is a theorem.
    - [find_one_anywhere] takes its fuel as an argument; two turns are enough.
    - [binary_search] has one turn more than the vector has elements; the range
      shrinks in each.
    - The loops of the heap have one turn more than there are elements.
    - The probing of [HashTable] takes its fuel as an argument, and [hash_table_hangs]
      holds for every fuel; [rehash] calls itself at most once from inside itself.
    - The loops of [Codecs] have as many turns as the input has bytes.
    - The loops of the red-black tree have one turn more than there are nodes.
    - [PhysicalRegion.turns] is one more than the number of bits.
    - [MemoryMap.page_loop] takes its fuel as an argument; 2^20 + 1 turns cover
      every page of 32-bit addresses, and for an entry that reaches 4 GiB no fuel
      is enough, which is a theorem.
    - [remap_pages] has one turn more than the region has pages.
    - [CopyOnWrite.access] has three turns: a write may fault on the page the
      object starts with, then on the copy, and then succeeds.
    - [VolatilePageRanges.add] and [remove] take their fuel as an argument; that
      no fuel is enough to remove a part of a range is a theorem.
    - [port_loop] has 2^15 turns, more than there are ephemeral ports.
    - [VFS.resolve_path_without_veil] counts down the five levels of symbolic links
      the code allows; [read_loop] has one turn for each 4096 bytes and one more;
      [trim_trailing_slashes] as many as the path has characters; [write_loop] one
      more than there are bytes to write.
    - Loops counted by their data (memset, years, words) recurse on the count.

    ** Not modelled

    - Hardware and its drivers (processor, interrupts, storage, network adapters,
      devices): their effects are those of the devices.  The page tables are maps
      from addresses to what the processor would find; allocating a table always
      succeeds in [MmapRun].
    - The scheduler and the switching of threads: [LockSystem] and [PipeSystem] take
      all interleavings of their steps instead.  Creating, executing and reaping
      processes, futexes and timers need threads that are cancelled and are left
      out; the cloning of regions at a fork is modelled.
    - The file systems on disks and the synthetic ones: the theorems on [Vfs] hold
      for them as far as they keep [InodeLaws], which is shown for TmpFS only.
    - Terminals, local sockets, the network below TCP, and the system calls that
      only check arguments in front of modelled operations.
    - Of AK: formatting, JSON, URLs, reference counting, sorting, and the lists and
      queues that are lists in the models.
    - The user programs, which call libraries that are not in the repository. *)

From stdpp Require Export prelude gmap strings.
From Stdlib Require Export ZArith Lia ZifyBool.

Open Scope Z_scope.

(** ** Faults and the kernel's computation type

    [VERIFY] (AK/Assertions.h) stops the kernel when its condition is false,
    C++ leaves some operations undefined, and a loop whose bound is not visible
    in its syntax is run with fuel.  Each of the three ends a run. *)
Inductive fault :=
| VerifyFailed
| UndefinedBehaviour
| OutOfFuel.

Inductive res (A : Type) : Type :=
| Ok (a : A)
| Fault (f : fault).
Arguments Ok {A} a.
Arguments Fault {A} f.

Definition res_bind {A B} (c : res A) (k : A -> res B) : res B :=
  match c with
  | Ok a => k a
  | Fault f => Fault f
  end.

Definition verify (b : bool) : res unit := if b then Ok tt else Fault VerifyFailed.

Definition defined (b : bool) : res unit := if b then Ok tt else Fault UndefinedBehaviour.

Definition of_opt {A} (f : fault) (o : option A) : res A :=
  match o with
  | Some a => Ok a
  | None => Fault f
  end.

Declare Scope kernel_scope.
Delimit Scope kernel_scope with kernel.

Notation "'let*' x ':=' c 'in' k" := (res_bind c (fun x => k))
  (at level 10, x pattern, c at level 99, k at level 200) : kernel_scope.
Notation "'VERIFY' b ';;' k" := (res_bind (verify b) (fun _ => k))
  (at level 10, b at level 99, k at level 200) : kernel_scope.
Notation "'DEFINED' b ';;' k" := (res_bind (defined b) (fun _ => k))
  (at level 10, b at level 99, k at level 200) : kernel_scope.

Open Scope kernel_scope.

(** ** Machine integers

    A C++ integer type is its width and its signedness; a value of it is the
    [Z] it denotes. [wrap] is the conversion to the type (two's complement). *)
Record int_ty := IntTy { bits : Z; is_signed : bool }.

Definition tmin (t : int_ty) : Z := if is_signed t then - 2 ^ (bits t - 1) else 0.
Definition tmax (t : int_ty) : Z := if is_signed t then 2 ^ (bits t - 1) - 1 else 2 ^ bits t - 1.
Definition in_ty (t : int_ty) (z : Z) : bool := (tmin t <=? z) && (z <=? tmax t).
Definition wrap (t : int_ty) (z : Z) : Z := (z - tmin t) mod 2 ^ bits t + tmin t.

Definition U8 := IntTy 8 false.
Definition U16 := IntTy 16 false.
Definition U32 := IntTy 32 false.
Definition U64 := IntTy 64 false.
Definition I8 := IntTy 8 true.
Definition I16 := IntTy 16 true.
Definition I32 := IntTy 32 true.
Definition I64 := IntTy 64 true.

(** The i386 kernel: [size_t], [FlatPtr] and [unsigned] are 32 bits wide. *)
Abbreviation size_t := U32.
Abbreviation FlatPtr := U32.

(** Signed arithmetic of a type whose overflow C++ leaves undefined. *)
Definition exact (t : int_ty) (z : Z) : res Z :=
  if in_ty t z then Ok z else Fault UndefinedBehaviour.

(** ** Tactics *)

(** Inverts a successful computation into the successful steps it is made of. *)
Lemma res_bind_Ok {A B} (c : res A) (k : A -> res B) (b : B) :
  res_bind c k = Ok b <-> exists a, c = Ok a /\ k a = Ok b.
Proof.
  destruct c as [a|f]; simpl; split.
  - eauto.
  - by intros (a' & [= <-] & ?).
  - done.
  - by intros (a' & ? & ?).
Qed.

Lemma verify_Ok (b : bool) (u : unit) : verify b = Ok u <-> b = true.
Proof. by destruct b, u. Qed.

Lemma defined_Ok (b : bool) (u : unit) : defined b = Ok u <-> b = true.
Proof. by destruct b, u. Qed.

Lemma of_opt_Ok {A} f (o : option A) (a : A) : of_opt f o = Ok a <-> o = Some a.
Proof. destruct o; simpl; split; congruence. Qed.

Lemma exact_Ok t z v : exact t z = Ok v <-> in_ty t z = true /\ v = z.
Proof.
  unfold exact. destruct (in_ty t z); split; try done.
  - by intros [= <-].
  - by intros [_ ->].
  - by intros [? _].
Qed.

Ltac inv_res :=
  repeat match goal with
  | H : res_bind _ _ = Ok _ |- _ =>
      apply res_bind_Ok in H; destruct H as (? & ? & ?)
  | H : verify _ = Ok _ |- _ => apply verify_Ok in H
  | H : defined _ = Ok _ |- _ => apply defined_Ok in H
  | H : of_opt _ _ = Ok _ |- _ => apply of_opt_Ok in H
  | H : exact _ _ = Ok _ |- _ => apply exact_Ok in H; destruct H as [? ->]
  | H : Ok _ = Ok _ |- _ => injection H; clear H; intros; subst
  | H : Fault _ = Ok _ |- _ => discriminate H
  end.

(** Boolean tests of the code as propositions [lia] reads. *)
Ltac to_prop :=
  repeat match goal with
  | H : (_ && _) = true |- _ => apply andb_prop in H; destruct H
  | H : (_ && _) = false |- _ => apply andb_false_iff in H
  | H : (_ || _) = true |- _ => apply orb_true_iff in H
  | H : (_ || _) = false |- _ => apply orb_false_iff in H; destruct H
  | H : negb _ = true |- _ => apply negb_true_iff in H
  | H : negb _ = false |- _ => apply negb_false_iff in H
  | H : (_ <=? _) = true |- _ => apply Z.leb_le in H
  | H : (_ <=? _) = false |- _ => apply Z.leb_gt in H
  | H : (_ <? _) = true |- _ => apply Z.ltb_lt in H
  | H : (_ <? _) = false |- _ => apply Z.ltb_ge in H
  | H : (_ =? _) = true |- _ => apply Z.eqb_eq in H
  | H : (_ =? _) = false |- _ => apply Z.eqb_neq in H
  | H : bool_decide _ = true |- _ => apply bool_decide_eq_true in H
  | H : bool_decide _ = false |- _ => apply bool_decide_eq_false in H
  end.

(** Splits on the comparison of an [if] of the goal. *)
Ltac case_if :=
  match goal with
  | |- context [if ?b then _ else _] => let E := fresh "E" in destruct b eqn:E; to_prop
  end.

(** Unfolds the bounds of the concrete integer types. *)
Ltac unfold_ty :=
  unfold in_ty, wrap, exact in *;
  cbn [tmin tmax bits is_signed U8 U16 U32 U64 I8 I16 I32 I64] in *;
  change (2 ^ (8 - 1)) with 128 in *; change (2 ^ 8) with 256 in *;
  change (2 ^ (16 - 1)) with 32768 in *; change (2 ^ 16) with 65536 in *;
  change (2 ^ (32 - 1)) with 2147483648 in *; change (2 ^ 32) with 4294967296 in *;
  change (2 ^ (64 - 1)) with 9223372036854775808 in *;
  change (2 ^ 64) with 18446744073709551616 in *.

Create HintDb machine.

(** ** Lemmas on machine integers *)

Lemma in_ty_spec t z : in_ty t z = true <-> tmin t <= z <= tmax t.
Proof. unfold in_ty. rewrite andb_true_iff, !Z.leb_le. lia. Qed.

Lemma in_ty_false t z : in_ty t z = false <-> z < tmin t \/ tmax t < z.
Proof. unfold in_ty. rewrite andb_false_iff, !Z.leb_gt. lia. Qed.

Lemma tmax_tmin t : 0 < bits t -> tmax t = tmin t + 2 ^ bits t - 1.
Proof.
  intros. unfold tmax, tmin. destruct (is_signed t); [|lia].
  replace (2 ^ bits t) with (2 * 2 ^ (bits t - 1)); [lia|].
  rewrite <- Z.pow_succ_r by lia. f_equal; lia.
Qed.

Lemma wrap_in_ty t z : 0 < bits t -> in_ty t (wrap t z) = true.
Proof.
  intros Hb. apply in_ty_spec. rewrite tmax_tmin by done. unfold wrap.
  assert (0 < 2 ^ bits t) by (apply Z.pow_pos_nonneg; lia).
  pose proof (Z.mod_pos_bound (z - tmin t) (2 ^ bits t)). lia.
Qed.

Lemma wrap_id t z : 0 < bits t -> in_ty t z = true -> wrap t z = z.
Proof.
  intros Hb [H1 H2]%in_ty_spec. rewrite tmax_tmin in H2 by done.
  unfold wrap. rewrite Z.mod_small; lia.
Qed.

#[export] Hint Resolve wrap_in_ty wrap_id : machine.

(** ** Lemmas on lists *)

(** Distinct indices below a bound are no more than the bound. *)
Lemma distinct_bound (l : list Z) n :
  0 <= n -> NoDup l -> (forall i, i ∈ l -> 0 <= i < n) -> Z.of_nat (length l) <= n.
Proof.
  intros Hn Hd Hi. assert (l ⊆+ seqZ 0 n) as Hs.
  { apply NoDup_submseteq; [done|]. intros i ?%Hi. apply elem_of_seqZ. lia. }
  apply submseteq_length in Hs. rewrite length_seqZ in Hs. lia.
Qed.

(** Sums over the values of a map. *)
Definition sum_of {A} (f : A -> Z) (m : gmap positive A) : Z := map_fold (fun _ x n => f x + n) 0 m.

Lemma sum_of_empty {A} (f : A -> Z) : sum_of f ∅ = 0.
Proof. done. Qed.

Lemma sum_of_insert_new {A} (f : A -> Z) m i x :
  m !! i = None -> sum_of f (<[i := x]> m) = f x + sum_of f m.
Proof. intros Hi. unfold sum_of. rewrite map_fold_insert_L; [done|intros; lia|done]. Qed.

Lemma sum_of_delete {A} (f : A -> Z) m i x : m !! i = Some x -> sum_of f m = f x + sum_of f (delete i m).
Proof. intros Hi. unfold sum_of. rewrite (map_fold_delete_L _ _ i x m); [done|intros; lia|done]. Qed.

Lemma sum_of_insert {A} (f : A -> Z) m i x y :
  m !! i = Some x -> sum_of f (<[i := y]> m) = sum_of f m - f x + f y.
Proof.
  intros Hi. rewrite (sum_of_delete f (<[i := y]> m) i y), delete_insert_eq, (sum_of_delete f m i x);
    [lia|done|apply lookup_insert_eq].
Qed.

Lemma sum_of_nonneg {A} (f : A -> Z) m : (forall i x, m !! i = Some x -> 0 <= f x) -> 0 <= sum_of f m.
Proof.
  induction m as [|i x m Hi IH] using map_ind; intros H; [done|].
  rewrite sum_of_insert_new by done. assert (0 <= f x) by (apply (H i), lookup_insert_eq).
  assert (0 <= sum_of f m); [|lia]. apply IH. intros j y Hj. apply (H j). rewrite lookup_insert_ne by congruence. done.
Qed.

Lemma sum_of_le {A} (f : A -> Z) m i x :
  (forall i x, m !! i = Some x -> 0 <= f x) -> m !! i = Some x -> f x <= sum_of f m.
Proof.
  intros H Hi. rewrite (sum_of_delete f m i x Hi). assert (0 <= sum_of f (delete i m)); [|lia].
  apply sum_of_nonneg. intros j y [_ Hj]%lookup_delete_Some. by apply (H j).
Qed.

(** ** Slices of byte arrays

    Reading [n] bytes at an index, and writing bytes there. *)
Module Slice.

Definition peek (l : list Z) (at_ n : Z) : list Z := take (Z.to_nat n) (drop (Z.to_nat at_) l).
Definition poke (l : list Z) (at_ : Z) (bytes : list Z) : list Z :=
  take (Z.to_nat at_) l ++ bytes ++ drop (Z.to_nat at_ + length bytes) l.

Lemma peek_length l a n : 0 <= a -> 0 <= n -> a + n <= Z.of_nat (length l) -> Z.of_nat (length (peek l a n)) = n.
Proof. intros. unfold peek. rewrite length_take, length_drop. lia. Qed.

Lemma peek_split l a m n : 0 <= a -> 0 <= m <= n -> peek l a n = peek l a m ++ peek l (a + m) (n - m).
Proof.
  intros Ha Hm. unfold peek. rewrite <- (take_drop (Z.to_nat m) (take (Z.to_nat n) _)) at 1. f_equal.
  - rewrite take_take. f_equal. lia.
  - rewrite skipn_firstn_comm, drop_drop. f_equal; [lia|]. f_equal. lia.
Qed.

Lemma peek_nil l a n : n <= 0 -> peek l a n = [].
Proof. intros. unfold peek. by replace (Z.to_nat n) with 0%nat by lia. Qed.

(** What is written is there, and the rest stays. *)
Lemma peek_poke l a bytes :
  0 <= a -> a + Z.of_nat (length bytes) <= Z.of_nat (length l) ->
  peek (poke l a bytes) a (Z.of_nat (length bytes)) = bytes.
Proof.
  intros Ha Hl. unfold peek, poke. rewrite drop_app_length' by (rewrite length_take; lia).
  rewrite Nat2Z.id. by rewrite take_app_length.
Qed.

Lemma peek_poke_ne l a bytes c n :
  0 <= a -> 0 <= c -> a + Z.of_nat (length bytes) <= Z.of_nat (length l) ->
  c + n <= a \/ a + Z.of_nat (length bytes) <= c -> peek (poke l a bytes) c n = peek l c n.
Proof.
  intros Ha Hc Hl Hd. apply list_eq. intros i. unfold peek. destruct (decide (i < Z.to_nat n)%nat) as [Hi|Hi].
  2:{ rewrite !lookup_take_ge by lia. done. }
  rewrite !lookup_take_lt, !lookup_drop by lia. unfold poke. destruct Hd as [Hd|Hd].
  - rewrite lookup_app_l by (rewrite length_take; lia). by rewrite lookup_take_lt by lia.
  - rewrite lookup_app_r by (rewrite length_take; lia). rewrite length_take, lookup_app_r by lia.
    rewrite lookup_drop. f_equal. lia.
Qed.

Lemma poke_length l a bytes :
  0 <= a -> a + Z.of_nat (length bytes) <= Z.of_nat (length l) -> length (poke l a bytes) = length l.
Proof. intros. unfold poke. rewrite !length_app, length_take, length_drop. lia. Qed.

End Slice.
