(* ===== verification/Checked.v ===== *)
(** * AK/Checked.h: arithmetic with a sticky overflow flag

    [TypeBoundsChecker] models the eight specialisations that decide whether a
    value of one integer type fits another, [Checked] the class template of the
    same name.  The theorems relate both to exact arithmetic on [Z]. *)

From S2P Require Import Prelude.

Module TypeBoundsChecker.

(** [sizeof(Destination) >= sizeof(Source)] *)
Definition destination_is_wider (Destination Source : int_ty) : bool :=
  bits Source <=? bits Destination.

Definition make_unsigned (t : int_ty) : int_ty := IntTy (bits t) false.

(** One branch per specialisation, in the order of the header. *)
Definition is_within_range (Destination Source : int_ty) (value : Z) : bool :=
  match destination_is_wider Destination Source, is_signed Destination, is_signed Source with
  | false, false, false => value <=? tmax Destination
  | false, true, true => (value <=? tmax Destination) && (tmin Destination <=? value)
  | false, false, true => wrap (make_unsigned Source) value <=? tmax Destination
  | false, true, false => value <=? wrap Source (tmax Destination)
  | true, false, false => true
  | true, true, true => true
  | true, false, true => 0 <=? value
  | true, true, false =>
      if bits Source <? bits Destination then true
      else value <=? wrap Source (tmax Destination)
  end.

End TypeBoundsChecker.

Module Checked.

Record Checked := mkChecked { m_value : Z; m_overflow : bool }.

Section Checked.
Context (T : int_ty).

(** [Checked(T value)] *)
Definition of_value (v : Z) : Checked := mkChecked v false.

(** [Checked(U value)] *)
Definition of_other (U : int_ty) (v : Z) : Checked :=
  mkChecked (wrap T v) (negb (TypeBoundsChecker.is_within_range T U v)).

Definition has_overflow (c : Checked) : bool := m_overflow c.

(** [operator!] *)
Definition op_not (c : Checked) : res bool :=
  VERIFY negb (m_overflow c) ;; Ok (m_value c =? 0).

Definition value (c : Checked) : res Z :=
  VERIFY negb (m_overflow c) ;; Ok (m_value c).

(** [__builtin_add_overflow] and its siblings store the wrapped result and
    return whether the exact one was out of range. *)
Definition add (c : Checked) (other : Z) : Checked :=
  mkChecked (wrap T (m_value c + other)) (m_overflow c || negb (in_ty T (m_value c + other))).

Definition sub (c : Checked) (other : Z) : Checked :=
  mkChecked (wrap T (m_value c - other)) (m_overflow c || negb (in_ty T (m_value c - other))).

Definition mul (c : Checked) (other : Z) : Checked :=
  mkChecked (wrap T (m_value c * other)) (m_overflow c || negb (in_ty T (m_value c * other))).

(** The division is undefined for a zero divisor and, in the types that are not
    promoted to a wider [int], for [min / -1]. *)
Definition div (c : Checked) (other : Z) : res Checked :=
  let q := Z.quot (m_value c) other in
  DEFINED negb (other =? 0) && ((bits T <? 32) || in_ty T q) ;;
  Ok (mkChecked (wrap T q) (m_overflow c)).

(** [operator+=(const Checked&)] and its siblings. *)
Definition op_add_assign (c other : Checked) : res Checked :=
  let c := mkChecked (m_value c) (m_overflow c || m_overflow other) in
  let* v := value other in Ok (add c v).

Definition op_sub_assign (c other : Checked) : res Checked :=
  let c := mkChecked (m_value c) (m_overflow c || m_overflow other) in
  let* v := value other in Ok (sub c v).

Definition op_mul_assign (c other : Checked) : res Checked :=
  let c := mkChecked (m_value c) (m_overflow c || m_overflow other) in
  let* v := value other in Ok (mul c v).

Definition op_div_assign (c other : Checked) : res Checked :=
  let c := mkChecked (m_value c) (m_overflow c || m_overflow other) in
  let* v := value other in div c v.

(** [operator++()], [operator++(int)] and the decrements; the postfix forms
    return the old object and the new one. *)
Definition pre_increment (c : Checked) : Checked := add c 1.
Definition post_increment (c : Checked) : Checked * Checked := (c, add c 1).
Definition pre_decrement (c : Checked) : Checked := sub c 1.
Definition post_decrement (c : Checked) : Checked * Checked := (c, sub c 1).

(** [__builtin_add_overflow_p(u, v, (T)0)]: the exact sum does not fit [T]. *)
Definition addition_would_overflow (u v : Z) : bool := negb (in_ty T (u + v)).

Definition multiplication_would_overflow (u v : Z) : bool := negb (in_ty T (u * v)).

(** The three-operand form goes through a [Checked] object; [operator*=] takes
    a [T], to which the second and the third operand are converted. *)
Definition multiplication_would_overflow3 (U : int_ty) (u v x : Z) : bool :=
  let checked := of_other U u in
  let checked := mul checked (wrap T v) in
  let checked := mul checked (wrap T x) in
  has_overflow checked.

(** The free operators [+], [-], [*] and [/]. *)
Definition op_add (a b : Checked) : res Checked := let* v := value b in Ok (add a v).
Definition op_sub (a b : Checked) : res Checked := let* v := value b in Ok (sub a v).
Definition op_mul (a b : Checked) : res Checked := let* v := value b in Ok (mul a v).
Definition op_div (a b : Checked) : res Checked := let* v := value b in div a v.

(** The comparisons with a plain value read [value()] first. *)
Definition op_lt (a : Checked) (b : Z) : res bool := let* v := value a in Ok (v <? b).
Definition op_gt (a : Checked) (b : Z) : res bool := let* v := value a in Ok (b <? v).
Definition op_ge (a : Checked) (b : Z) : res bool := let* v := value a in Ok (b <=? v).
Definition op_le (a : Checked) (b : Z) : res bool := let* v := value a in Ok (v <=? b).
Definition op_eq (a : Checked) (b : Z) : res bool := let* v := value a in Ok (v =? b).
Definition op_ne (a : Checked) (b : Z) : res bool := let* v := value a in Ok (negb (v =? b)).

(** The uses of [Checked] in the kernel are straight lines of updates. *)
Inductive update :=
| Add (z : Z)
| Sub (z : Z)
| Mul (z : Z).

Definition apply_update (c : Checked) (u : update) : Checked :=
  match u with
  | Add z => add c z
  | Sub z => sub c z
  | Mul z => mul c z
  end.

Definition run (c : Checked) (us : list update) : Checked := foldl apply_update c us.

(** The same line of updates over the integers. *)
Definition exact_update (v : Z) (u : update) : Z :=
  match u with
  | Add z => v + z
  | Sub z => v - z
  | Mul z => v * z
  end.

Fixpoint exact_trace (v : Z) (us : list update) : list Z :=
  match us with
  | [] => []
  | u :: us => exact_update v u :: exact_trace (exact_update v u) us
  end.

Definition exact_run (v : Z) (us : list update) : Z := foldl exact_update v us.

End Checked.

(** ** Lemmas *)

Section Facts.
Context (T : int_ty) (HT : 0 < bits T).

(** Every update tracks the exact one until the first overflow ... *)
Lemma apply_update_exact (v : Z) (u : update) :
  apply_update T (of_value v) u =
  mkChecked (wrap T (exact_update v u)) (negb (in_ty T (exact_update v u))).
Proof. by destruct u. Qed.

(** ... and the flag is never cleared after it. *)
Lemma apply_update_sticky (c : Checked) (u : update) :
  m_overflow c = true -> m_overflow (apply_update T c u) = true.
Proof. intros H. destruct u; cbn; by rewrite H. Qed.

Lemma run_sticky (us : list update) (c : Checked) :
  m_overflow c = true -> m_overflow (run T c us) = true.
Proof.
  revert c. induction us as [|u us IH]; intros c H; [done|].
  apply IH, apply_update_sticky, H.
Qed.

(** A line of updates from an in-range value: the flag tells exactly whether
    some intermediate exact result left the type; while it is clear the value
    is the exact one. *)
Lemma run_exact (us : list update) (v : Z) :
  m_overflow (run T (of_value v) us) = negb (forallb (in_ty T) (exact_trace v us)) /\
  (m_overflow (run T (of_value v) us) = false ->
   run T (of_value v) us = of_value (exact_run v us)).
Proof.
  revert v. induction us as [|u us IH]; intros v; [done|].
  unfold run, exact_run. cbn [foldl exact_trace forallb].
  rewrite apply_update_exact.
  destruct (in_ty T (exact_update v u)) eqn:E.
  - rewrite (wrap_id T _ HT E). apply (IH (exact_update v u)).
  - cbn [negb andb].
    assert (m_overflow (run T (mkChecked (wrap T (exact_update v u)) true) us) = true) as Hs
      by by apply run_sticky.
    unfold run in Hs. rewrite Hs. done.
Qed.

End Facts.

(** Powers of two of the widths the comparison of [sizeof]s relates. *)
Lemma pow2_half (n : Z) : 0 < n -> 2 ^ n = 2 * 2 ^ (n - 1) /\ 0 < 2 ^ (n - 1).
Proof.
  intros. split; [|apply Z.pow_pos_nonneg; lia].
  rewrite <- Z.pow_succ_r by lia. f_equal; lia.
Qed.

Lemma narrower_pow2 (D S : int_ty) :
  0 < bits D -> bits D < bits S -> 2 ^ bits D <= 2 ^ (bits S - 1).
Proof. intros. apply Z.pow_le_mono_r; lia. Qed.

Lemma wider_pow2 (D S : int_ty) :
  0 < bits S -> bits S <= bits D ->
  2 ^ bits S <= 2 ^ bits D /\ 2 ^ (bits S - 1) <= 2 ^ (bits D - 1).
Proof. intros. split; apply Z.pow_le_mono_r; lia. Qed.

(** [MakeUnsigned] sends a negative value above every narrower type. *)
Lemma wrap_make_unsigned (S : int_ty) (v : Z) :
  0 < bits S -> is_signed S = true -> in_ty S v = true ->
  wrap (TypeBoundsChecker.make_unsigned S) v = if v <? 0 then v + 2 ^ bits S else v.
Proof.
  intros HS Hs [H1 H2]%in_ty_spec. unfold tmin, tmax in *. rewrite Hs in *.
  destruct (pow2_half _ HS) as [E ?].
  unfold wrap, TypeBoundsChecker.make_unsigned. cbn [bits tmin is_signed].
  rewrite Z.sub_0_r, Z.add_0_r. destruct (Z.ltb_spec v 0).
  - rewrite <- (Z.mod_add v 1) by lia. rewrite Z.mod_small; lia.
  - rewrite Z.mod_small; lia.
Qed.

(** The dispatch agrees with membership in the destination type. *)
Lemma within_range_in_ty (D S : int_ty) (v : Z) :
  0 < bits D -> 0 < bits S -> in_ty S v = true ->
  TypeBoundsChecker.is_within_range D S v = in_ty D v.
Proof.
  intros HD HS Hv. pose proof Hv as [H1 H2]%in_ty_spec.
  destruct (pow2_half _ HD) as [ED ?], (pow2_half _ HS) as [ES ?].
  pose proof (wrap_make_unsigned S v HS) as Hu.
  pose proof (narrower_pow2 D S HD) as Hn. pose proof (wider_pow2 D S HS) as Hw.
  assert (is_signed D = true -> is_signed S = false -> bits D <= bits S ->
          wrap S (tmax D) = tmax D) as Hm.
  { intros HsD HsS Hle. apply wrap_id; [done|]. apply in_ty_spec.
    unfold tmin, tmax. rewrite HsD, HsS.
    pose proof (Z.pow_le_mono_r 2 (bits D) (bits S)). lia. }
  unfold TypeBoundsChecker.is_within_range, TypeBoundsChecker.destination_is_wider.
  unfold in_ty, tmin, tmax in *. clear Hv.
  destruct (Z.leb_spec (bits S) (bits D)), (is_signed D), (is_signed S);
    rewrite ?Hu by (done || lia); repeat case_if; rewrite ?Hm by (done || lia);
    apply Bool.eq_iff_eq_true; rewrite ?andb_true_iff, ?Z.leb_le; try lia.
  pose proof (narrower_pow2 S D HS E). lia.
Qed.

(** ** Properties *)

(** The template dispatch of [is_within_range] decides exactly whether a
    value of the source type is a value of the destination type, for all
    widths and signednesses. *)
Theorem is_within_range_correct (D S : int_ty) (v : Z) :
  0 < bits D -> 0 < bits S -> in_ty S v = true ->
  TypeBoundsChecker.is_within_range D S v = in_ty D v.
Proof. apply within_range_in_ty. Qed.

Lemma is_within_range_correct_witness :
  TypeBoundsChecker.is_within_range U8 I32 (-1) = in_ty U8 (-1).
Proof. apply (is_within_range_correct U8 I32 (-1)); reflexivity. Defined.

(** A straight line of checked additions, subtractions and multiplications
    raises the overflow flag exactly when some intermediate exact result leaves
    the type; while it is clear the object holds the exact result, which
    [value] returns, and once it is raised [value] stops on its assertion. *)
Theorem run_flag_exact (T : int_ty) (v : Z) (us : list update) :
  0 < bits T ->
  has_overflow (run T (of_value v) us) = negb (forallb (in_ty T) (exact_trace v us)) /\
  value (run T (of_value v) us) =
    if forallb (in_ty T) (exact_trace v us) then Ok (exact_run v us) else Fault VerifyFailed.
Proof.
  intros HT. destruct (run_exact T HT us v) as [Hf Hv].
  split; [exact Hf|]. unfold value. rewrite Hf in *.
  destruct (forallb _ _); [|done]. by rewrite Hv.
Qed.

Lemma run_flag_exact_witness :
  value (run U8 (of_value 200) [Sub 100; Mul 2; Add 55]) = Ok 255 /\
  value (run U8 (of_value 200) [Add 100; Sub 100]) = Fault VerifyFailed.
Proof.
  split.
  - apply (run_flag_exact U8 200 [Sub 100; Mul 2; Add 55]). reflexivity.
  - apply (run_flag_exact U8 200 [Add 100; Sub 100]). reflexivity.
Defined.

(** The three-operand [multiplication_would_overflow] answers false exactly
    when the first operand and both exact partial products fit the type, for
    second and third operands that are values of it. *)
Theorem multiplication_would_overflow3_correct (T U : int_ty) (u v x : Z) :
  0 < bits T -> 0 < bits U ->
  in_ty U u = true -> in_ty T v = true -> in_ty T x = true ->
  multiplication_would_overflow3 T U u v x =
  negb (in_ty T u && in_ty T (u * v) && in_ty T (u * v * x)).
Proof.
  intros HT HU Hu Hv Hx. unfold multiplication_would_overflow3.
  rewrite (wrap_id T v), (wrap_id T x) by done.
  unfold of_other. rewrite within_range_in_ty by done.
  destruct (in_ty T u) eqn:E; cbn; [|done].
  rewrite (wrap_id T u) by done.
  destruct (in_ty T (u * v)) eqn:E'; cbn; [|done].
  by rewrite (wrap_id T (u * v)) by done.
Qed.

Lemma multiplication_would_overflow3_correct_witness :
  multiplication_would_overflow3 U32 I32 4096 1024 1024 = true.
Proof. apply (multiplication_would_overflow3_correct U32 I32 4096 1024 1024); reflexivity. Defined.

End Checked.
