(* ===== verification/AKTime.v ===== *)
(** * AK/Time.h and AK/Time.cpp: saturating time amounts and calendar helpers

    [Calendar] models the free functions on dates, [Time] the class of the same
    name with every conversion and operator, [Timespec] the templates on the C
    structures.  [Time.total] is the amount in nanoseconds a [Time] denotes; the
    theorems state every operation as exact arithmetic on it followed by one
    clamp, as the comment of the class promises. *)

From S2P Require Import Prelude Checked.

(** C's [int] arithmetic: truncating division and remainder. *)
Module Calendar.

Definition is_leap_year (year : Z) : bool :=
  (Z.rem year 4 =? 0) && (negb (Z.rem year 100 =? 0) || (Z.rem year 400 =? 0)).

Definition days_in_year (year : Z) : Z := 365 + Z.b2z (is_leap_year year).

(** [days += days_in_year(y)] adds an [unsigned] and converts back to [int]. *)
Definition add_days (sign days year : Z) : Z :=
  wrap I32 (wrap U32 (days + sign * days_in_year year)).

(** [count] turns of a loop whose [current_year] starts at [year]. *)
Fixpoint years_loop (count : nat) (sign year days : Z) : Z :=
  match count with
  | O => days
  | S count => years_loop count sign (year + 1) (add_days sign days year)
  end.

(** The first loop runs for the years from 1970 to [year], the second for those
    from [year] to 1970; one of the two ranges is empty. *)
Definition years_to_days_since_epoch (year : Z) : Z :=
  let days := years_loop (Z.to_nat (year - 1970)) 1 1970 0 in
  years_loop (Z.to_nat (1970 - year)) (-1) year days.

Definition valid_month (month : Z) : bool := (1 <=? month) && (month <=? 12).

Definition day_of_year_table : list Z := [0; 31; 59; 90; 120; 151; 181; 212; 243; 273; 304; 334].

Definition day_of_year (year month day : Z) : res Z :=
  VERIFY valid_month month ;;
  let* entry := of_opt UndefinedBehaviour (day_of_year_table !! Z.to_nat (month - 1)) in
  let* d := exact I32 (entry + day) in
  let* d := exact I32 (d - 1) in
  if is_leap_year year && (3 <=? month) then exact I32 (d + 1) else Ok d.

Definition days_in_month (year month : Z) : res Z :=
  VERIFY valid_month month ;;
  if month =? 2 then Ok (if is_leap_year year then 29 else 28)
  else
    let is_long_month := (month =? 1) || (month =? 3) || (month =? 5) || (month =? 7)
                         || (month =? 8) || (month =? 10) || (month =? 12) in
    Ok (if is_long_month then 31 else 30).

Definition day_of_week_table : list Z := [0; 3; 2; 5; 0; 3; 5; 1; 4; 6; 2; 4].

(** The result of [%] is an [int], returned as an [unsigned]. *)
Definition day_of_week (year month day : Z) : res Z :=
  VERIFY valid_month month ;;
  let* year := if month <? 3 then exact I32 (year - 1) else Ok year in
  let* s := exact I32 (year + Z.quot year 4) in
  let* s := exact I32 (s - Z.quot year 100) in
  let* s := exact I32 (s + Z.quot year 400) in
  let* entry := of_opt UndefinedBehaviour (day_of_week_table !! Z.to_nat (month - 1)) in
  let* s := exact I32 (s + entry) in
  let* s := exact I32 (s + day) in
  Ok (wrap U32 (Z.rem s 7)).

(** Reference: the days from 1 January 1970 to 1 January of [year] in the
    proleptic Gregorian calendar, in closed form. *)
Definition leap_years_before (year : Z) : Z :=
  (year - 1) / 4 - (year - 1) / 100 + (year - 1) / 400.

Definition epoch_days (year : Z) : Z :=
  365 * (year - 1970) + leap_years_before year - leap_years_before 1970.

End Calendar.

(** The structures of Kernel/UnixTypes.h: [time_t] is 64 bits wide,
    [suseconds_t] and [long] are 32 bits wide. *)
Record timespec := mkTimespec { tv_sec : Z; tv_nsec : Z }.
Record timeval := mkTimeval { tv_sec' : Z; tv_usec : Z }.

Module Time.

Record Time := mkTime { m_seconds : Z; m_nanoseconds : Z }.

(** [Time(i64, u32)] converts its arguments. *)
Definition make (seconds nanoseconds : Z) : Time := mkTime (wrap I64 seconds) (wrap U32 nanoseconds).

Definition NS : Z := 1000000000.

(** [sane_mod(i64&, i64)]: the quotient and the updated numerator. *)
Definition sane_mod (numerator denominator : Z) : res (Z * Z) :=
  VERIFY (2 <=? denominator) && (denominator <=? NS) ;;
  let dividend := Z.quot numerator denominator in
  let numerator := Z.rem numerator denominator in
  if numerator <? 0 then
    let* numerator := exact I64 (numerator + denominator) in
    let* dividend := exact I64 (dividend - 1) in
    Ok (dividend, numerator)
  else Ok (dividend, numerator).

(** [sane_mod(i32&, i32)] *)
Definition sane_mod32 (numerator denominator : Z) : res (Z * Z) :=
  let* (dividend, numerator_64) := sane_mod numerator denominator in
  Ok (wrap I32 dividend, wrap I32 numerator_64).

Definition from_seconds (seconds : Z) : Time := make seconds 0.

Definition from_nanoseconds (nanoseconds : Z) : res Time :=
  let* (seconds, nanoseconds) := sane_mod nanoseconds 1000000000 in
  Ok (make seconds nanoseconds).

Definition from_microseconds (microseconds : Z) : res Time :=
  let* (seconds, microseconds) := sane_mod microseconds 1000000 in
  let* ns := exact I64 (microseconds * 1000) in
  Ok (make seconds ns).

Definition from_milliseconds (milliseconds : Z) : res Time :=
  let* (seconds, milliseconds) := sane_mod milliseconds 1000 in
  let* ns := exact I64 (milliseconds * 1000000) in
  Ok (make seconds ns).

Definition min : Time := make (- 0x8000000000000000) 0.
Definition zero : Time := make 0 0.
Definition max : Time := make 0x7fffffffffffffff 999999999.

Definition from_half_sanitized (seconds extra_seconds nanoseconds : Z) : res Time :=
  VERIFY nanoseconds <? NS ;;
  let* (seconds, extra_seconds) :=
    if ((seconds <=? 0) && (0 <? extra_seconds)) || ((0 <=? seconds) && (extra_seconds <? 0)) then
      let* seconds := exact I64 (seconds + extra_seconds) in Ok (seconds, 0)
    else Ok (seconds, extra_seconds) in
  if Checked.addition_would_overflow I64 seconds extra_seconds then
    Ok (if seconds <? 0 then min else max)
  else
    let* s := exact I64 (seconds + extra_seconds) in
    Ok (make s nanoseconds).

Definition from_timespec (ts : timespec) : res Time :=
  let* (extra_secs, nsecs) := sane_mod32 (tv_nsec ts) 1000000000 in
  from_half_sanitized (tv_sec ts) extra_secs (wrap U32 nsecs).

Definition from_timeval (tv : timeval) : res Time :=
  let* (extra_secs, usecs) := sane_mod32 (tv_usec tv) 1000000 in
  VERIFY (0 <=? usecs) && (usecs <? 1000000) ;;
  let* ns := exact I32 (usecs * 1000) in
  from_half_sanitized (tv_sec' tv) extra_secs (wrap U32 ns).

Definition to_truncated_seconds (t : Time) : res Z :=
  VERIFY m_nanoseconds t <? NS ;;
  if (m_seconds t <? 0) && negb (m_nanoseconds t =? 0) then exact I64 (m_seconds t + 1)
  else Ok (m_seconds t).

(** [(m_seconds < 0) ? m_seconds + 1 : m_seconds] *)
Definition dropped_second (t : Time) : res Z :=
  if m_seconds t <? 0 then exact I64 (m_seconds t + 1) else Ok (m_seconds t).

(** The last three lines of the conversions: the value or the saturated bound. *)
Definition saturate (t : Time) (c : Checked.Checked) : res Z :=
  if negb (Checked.has_overflow c) then Checked.value c
  else Ok (if m_seconds t <? 0 then - 0x8000000000000000 else 0x7fffffffffffffff).

Definition to_truncated_milliseconds (t : Time) : res Z :=
  VERIFY m_nanoseconds t <? NS ;;
  let* s := dropped_second t in
  let milliseconds := Checked.of_value s in
  let milliseconds := Checked.mul I64 milliseconds 1000 in
  let milliseconds := Checked.add I64 milliseconds (m_nanoseconds t / 1000000) in
  let milliseconds :=
    if m_seconds t <? 0 then
      let milliseconds :=
        if negb (m_nanoseconds t mod 1000000 =? 0) then (Checked.post_increment I64 milliseconds).2
        else milliseconds in
      Checked.sub I64 milliseconds 1000
    else milliseconds in
  saturate t milliseconds.

Definition to_truncated_microseconds (t : Time) : res Z :=
  VERIFY m_nanoseconds t <? NS ;;
  let* s := dropped_second t in
  let microseconds := Checked.of_value s in
  let microseconds := Checked.mul I64 microseconds 1000000 in
  let microseconds := Checked.add I64 microseconds (m_nanoseconds t / 1000) in
  let microseconds :=
    if m_seconds t <? 0 then
      let microseconds :=
        if negb (m_nanoseconds t mod 1000 =? 0) then (Checked.post_increment I64 microseconds).2
        else microseconds in
      Checked.sub I64 microseconds 1000000
    else microseconds in
  saturate t microseconds.

Definition to_seconds (t : Time) : res Z :=
  VERIFY m_nanoseconds t <? NS ;;
  if (0 <=? m_seconds t) && negb (m_nanoseconds t =? 0) then
    let seconds := (Checked.post_increment I64 (Checked.of_value (m_seconds t))).2 in
    if Checked.has_overflow seconds then Ok 0x7fffffffffffffff else Checked.value seconds
  else Ok (m_seconds t).

Definition to_milliseconds (t : Time) : res Z :=
  VERIFY m_nanoseconds t <? NS ;;
  let* s := dropped_second t in
  let milliseconds := Checked.of_value s in
  let milliseconds := Checked.mul I64 milliseconds 1000 in
  let milliseconds := Checked.add I64 milliseconds (m_nanoseconds t / 1000000) in
  let milliseconds :=
    if (0 <=? m_seconds t) && negb (m_nanoseconds t mod 1000000 =? 0)
    then (Checked.post_increment I64 milliseconds).2 else milliseconds in
  let milliseconds :=
    if m_seconds t <? 0 then Checked.sub I64 milliseconds 1000 else milliseconds in
  saturate t milliseconds.

Definition to_microseconds (t : Time) : res Z :=
  VERIFY m_nanoseconds t <? NS ;;
  let* s := dropped_second t in
  let microseconds := Checked.of_value s in
  let microseconds := Checked.mul I64 microseconds 1000000 in
  let microseconds := Checked.add I64 microseconds (m_nanoseconds t / 1000) in
  let microseconds :=
    if (0 <=? m_seconds t) && negb (m_nanoseconds t mod 1000 =? 0)
    then (Checked.post_increment I64 microseconds).2 else microseconds in
  let microseconds :=
    if m_seconds t <? 0 then Checked.sub I64 microseconds 1000000 else microseconds in
  saturate t microseconds.

Definition to_nanoseconds (t : Time) : res Z :=
  VERIFY m_nanoseconds t <? NS ;;
  let* s := dropped_second t in
  let nanoseconds := Checked.of_value s in
  let nanoseconds := Checked.mul I64 nanoseconds 1000000000 in
  let nanoseconds := Checked.add I64 nanoseconds (m_nanoseconds t) in
  let nanoseconds :=
    if m_seconds t <? 0 then Checked.sub I64 nanoseconds 1000000000 else nanoseconds in
  saturate t nanoseconds.

Definition to_timespec (t : Time) : res timespec :=
  VERIFY m_nanoseconds t <? NS ;;
  Ok (mkTimespec (m_seconds t) (wrap I32 (m_nanoseconds t))).

Definition to_timeval (t : Time) : res timeval :=
  VERIFY m_nanoseconds t <? NS ;;
  Ok (mkTimeval (m_seconds t) (Z.quot (wrap I32 (m_nanoseconds t)) 1000)).

Definition is_zero (t : Time) : bool := (m_seconds t =? 0) && (m_nanoseconds t =? 0).

Definition op_eq (a b : Time) : bool :=
  (m_seconds a =? m_seconds b) && (m_nanoseconds a =? m_nanoseconds b).
Definition op_ne (a b : Time) : bool := negb (op_eq a b).
Definition op_lt (a b : Time) : bool :=
  (m_seconds a <? m_seconds b) || ((m_seconds a =? m_seconds b) && (m_nanoseconds a <? m_nanoseconds b)).
Definition op_le (a b : Time) : bool :=
  (m_seconds a <? m_seconds b) || ((m_seconds a =? m_seconds b) && (m_nanoseconds a <=? m_nanoseconds b)).
Definition op_gt (a b : Time) : bool :=
  (m_seconds b <? m_seconds a) || ((m_seconds a =? m_seconds b) && (m_nanoseconds b <? m_nanoseconds a)).
Definition op_ge (a b : Time) : bool :=
  (m_seconds b <? m_seconds a) || ((m_seconds a =? m_seconds b) && (m_nanoseconds b <=? m_nanoseconds a)).

(** [operator+] from the sum of the seconds on. *)
Definition add_seconds (this_secs other_secs new_nsecs : Z) : res Time :=
  let new_secs := Checked.add I64 (Checked.of_value this_secs) other_secs in
  if Checked.has_overflow new_secs then Ok (if 0 <? other_secs then max else min)
  else
    let* s := Checked.value new_secs in
    Ok (make s new_nsecs).

Definition op_add (t other : Time) : res Time :=
  VERIFY m_nanoseconds t <? NS ;;
  VERIFY m_nanoseconds other <? NS ;;
  let new_nsecs := wrap U32 (m_nanoseconds t + m_nanoseconds other) in
  let extra_secs := new_nsecs / NS in
  let new_nsecs := new_nsecs mod NS in
  let this_secs := m_seconds t in
  let other_secs := m_seconds other in
  if negb (extra_secs =? 0) then
    VERIFY extra_secs =? 1 ;;
    if negb (this_secs =? 0x7fffffffffffffff) then
      let* this_secs := exact I64 (this_secs + 1) in
      add_seconds this_secs other_secs new_nsecs
    else if negb (other_secs =? 0x7fffffffffffffff) then
      let* other_secs := exact I64 (other_secs + 1) in
      add_seconds this_secs other_secs new_nsecs
    else Ok max
  else add_seconds this_secs other_secs new_nsecs.

Definition op_sub (t other : Time) : res Time :=
  VERIFY m_nanoseconds t <? NS ;;
  VERIFY m_nanoseconds other <? NS ;;
  if negb (m_nanoseconds other =? 0) then
    op_add t (make (wrap U64 (Z.lnot (wrap U64 (m_seconds other)))) (NS - m_nanoseconds other))
  else if negb (m_seconds other =? - 0x8000000000000000) then
    let* s := exact I64 (- m_seconds other) in
    op_add t (make s 0)
  else if 0 <=? m_seconds t then Ok max
  else
    let* s := exact I64 (m_seconds t + 0x4000000000000000) in
    let* s := exact I64 (s + 0x4000000000000000) in
    Ok (make s (m_nanoseconds t)).

(** The nanoseconds a [Time] denotes and its normal form. *)
Definition total (t : Time) : Z := m_seconds t * NS + m_nanoseconds t.

Definition wf (t : Time) : bool :=
  in_ty I64 (m_seconds t) && (0 <=? m_nanoseconds t) && (m_nanoseconds t <? NS).

(** The closest amount a [Time], or an [i64], can hold. *)
Definition clamp (lo hi z : Z) : Z := Z.max lo (Z.min hi z).
Definition clamp_time (z : Z) : Z := clamp (total min) (total max) z.
Definition clamp_i64 (z : Z) : Z := clamp (tmin I64) (tmax I64) z.

(** [is_clamp r z]: the computation gives the normal [Time] closest to [z]. *)
Definition is_clamp (r : res Time) (z : Z) : Prop :=
  exists c, r = Ok c /\ wf c = true /\ total c = clamp_time z.

(** Division rounding away from zero. *)
Definition quot_away (a b : Z) : Z := Z.sgn a * ((Z.abs a + b - 1) / b).

End Time.

(** The templates on structures, for the kernel's [timespec] and [timeval]. *)
Module Timespec.

Definition timeval_sub (a b : timeval) : res timeval :=
  let* s := exact I64 (tv_sec' a - tv_sec' b) in
  let* u := exact I32 (tv_usec a - tv_usec b) in
  if u <? 0 then
    let* s := exact I64 (s - 1) in
    let* u := exact I32 (u + 1000000) in
    Ok (mkTimeval s u)
  else Ok (mkTimeval s u).

Definition timeval_add (a b : timeval) : res timeval :=
  let* s := exact I64 (tv_sec' a + tv_sec' b) in
  let* u := exact I32 (tv_usec a + tv_usec b) in
  if 1000000 <=? u then
    let* s := exact I64 (s + 1) in
    let* u := exact I32 (u - 1000000) in
    Ok (mkTimeval s u)
  else Ok (mkTimeval s u).

Definition timespec_sub (a b : timespec) : res timespec :=
  let* s := exact I64 (tv_sec a - tv_sec b) in
  let* n := exact I32 (tv_nsec a - tv_nsec b) in
  if n <? 0 then
    let* s := exact I64 (s - 1) in
    let* n := exact I32 (n + 1000000000) in
    Ok (mkTimespec s n)
  else Ok (mkTimespec s n).

Definition timespec_add (a b : timespec) : res timespec :=
  let* s := exact I64 (tv_sec a + tv_sec b) in
  let* n := exact I32 (tv_nsec a + tv_nsec b) in
  if 1000000000 <=? n then
    let* s := exact I64 (s + 1) in
    let* n := exact I32 (n - 1000000000) in
    Ok (mkTimespec s n)
  else Ok (mkTimespec s n).

Definition timespec_add_timeval (a : timespec) (b : timeval) : res timespec :=
  let* s := exact I64 (tv_sec a + tv_sec' b) in
  let* u := exact I32 (tv_usec b * 1000) in
  let* n := exact I32 (tv_nsec a + u) in
  if 1000000000 <=? n then
    let* s := exact I64 (s + 1) in
    let* n := exact I32 (n - 1000000000) in
    Ok (mkTimespec s n)
  else Ok (mkTimespec s n).

Definition timeval_to_timespec (tv : timeval) : res timespec :=
  let* n := exact I32 (tv_usec tv * 1000) in
  Ok (mkTimespec (tv_sec' tv) n).

Definition timespec_to_timeval (ts : timespec) : timeval :=
  mkTimeval (tv_sec ts) (Z.quot (tv_nsec ts) 1000).

Definition ts_ge (a b : timespec) : bool :=
  (tv_sec b <? tv_sec a) || ((tv_sec a =? tv_sec b) && (tv_nsec b <=? tv_nsec a)).
Definition ts_gt (a b : timespec) : bool :=
  (tv_sec b <? tv_sec a) || ((tv_sec a =? tv_sec b) && (tv_nsec b <? tv_nsec a)).
Definition ts_lt (a b : timespec) : bool :=
  (tv_sec a <? tv_sec b) || ((tv_sec a =? tv_sec b) && (tv_nsec a <? tv_nsec b)).
Definition ts_le (a b : timespec) : bool :=
  (tv_sec a <? tv_sec b) || ((tv_sec a =? tv_sec b) && (tv_nsec a <=? tv_nsec b)).
Definition ts_eq (a b : timespec) : bool := (tv_sec a =? tv_sec b) && (tv_nsec a =? tv_nsec b).
Definition ts_ne (a b : timespec) : bool := negb (tv_sec a =? tv_sec b) || negb (tv_nsec a =? tv_nsec b).

Definition ts_total (ts : timespec) : Z := tv_sec ts * 1000000000 + tv_nsec ts.
Definition tv_total (tv : timeval) : Z := tv_sec' tv * 1000000 + tv_usec tv.

Definition ts_normal (ts : timespec) : bool :=
  in_ty I64 (tv_sec ts) && (0 <=? tv_nsec ts) && (tv_nsec ts <? 1000000000).
Definition tv_normal (tv : timeval) : bool :=
  in_ty I64 (tv_sec' tv) && (0 <=? tv_usec tv) && (tv_usec tv <? 1000000).

End Timespec.

(** ** Lemmas *)

Module CalendarFacts.
Import Calendar.

Lemma rem_zero y d : d <> 0 -> (Z.rem y d =? 0) = (y mod d =? 0).
Proof.
  intros Hd. apply Bool.eq_iff_eq_true. rewrite !Z.eqb_eq.
  by rewrite Z.rem_divide, Z.mod_divide.
Qed.

(** One more year advances the closed form by its number of days. *)
Lemma epoch_days_succ y : epoch_days (y + 1) = epoch_days y + days_in_year y.
Proof.
  unfold epoch_days, leap_years_before, days_in_year, is_leap_year.
  rewrite !rem_zero by lia. replace (y + 1 - 1) with y by lia.
  destruct (Z.eqb_spec (y mod 4) 0), (Z.eqb_spec (y mod 100) 0), (Z.eqb_spec (y mod 400) 0);
    cbn [andb orb negb Z.b2z]; Z.to_euclidean_division_equations; lia.
Qed.

Lemma days_in_year_bounds y : 365 <= days_in_year y <= 366.
Proof. unfold days_in_year. destruct (is_leap_year y); cbn; lia. Qed.

Lemma wrap_I32_U32 z : - 2147483648 <= z <= 2147483647 -> wrap I32 (wrap U32 z) = z.
Proof.
  intros. unfold wrap. cbn [tmin bits is_signed I32 U32].
  change (2 ^ 32) with 4294967296. change (2 ^ (32 - 1)) with 2147483648.
  Z.to_euclidean_division_equations. lia.
Qed.

(** The loops: as long as the sum stays in an [int] they add the difference of
    the closed form. *)
Lemma years_loop_up n y days :
  0 <= days -> days + 366 * Z.of_nat n <= 2147483647 ->
  years_loop n 1 y days = days + epoch_days (y + Z.of_nat n) - epoch_days y.
Proof.
  revert y days. induction n as [|n IH]; intros y days H1 H2.
  - cbn [years_loop]. rewrite Z.add_0_r. lia.
  - cbn [years_loop]. pose proof (days_in_year_bounds y). unfold add_days.
    rewrite wrap_I32_U32, IH by lia.
    replace (y + Z.of_nat (S n)) with (y + 1 + Z.of_nat n) by lia.
    pose proof (epoch_days_succ y). lia.
Qed.

Lemma years_loop_down n y days :
  days <= 0 -> - 2147483648 <= days - 366 * Z.of_nat n ->
  years_loop n (-1) y days = days - (epoch_days (y + Z.of_nat n) - epoch_days y).
Proof.
  revert y days. induction n as [|n IH]; intros y days H1 H2.
  - cbn [years_loop]. rewrite Z.add_0_r. lia.
  - cbn [years_loop]. pose proof (days_in_year_bounds y). unfold add_days.
    rewrite wrap_I32_U32, IH by lia.
    replace (y + Z.of_nat (S n)) with (y + 1 + Z.of_nat n) by lia.
    pose proof (epoch_days_succ y). lia.
Qed.

Lemma years_to_days_closed year :
  - 5000000 <= year <= 5000000 -> years_to_days_since_epoch year = epoch_days year.
Proof.
  intros H. unfold years_to_days_since_epoch.
  assert (epoch_days 1970 = 0) as E0 by reflexivity.
  destruct (Z.le_gt_cases 1970 year).
  - replace (Z.to_nat (1970 - year)) with O by lia. cbn [years_loop].
    rewrite years_loop_up by lia. rewrite Z2Nat.id by lia.
    replace (1970 + (year - 1970)) with year by lia. lia.
  - replace (Z.to_nat (year - 1970)) with O by lia. cbn [years_loop].
    rewrite years_loop_down by lia. rewrite Z2Nat.id by lia.
    replace (year + (1970 - year)) with 1970 by lia. lia.
Qed.

Lemma exact_I32 z : - 2147483648 <= z <= 2147483647 -> exact I32 z = Ok z.
Proof. intros. unfold exact. by rewrite (proj2 (in_ty_spec I32 z)). Qed.

Lemma month_cases month :
  1 <= month <= 12 -> month ∈ [1; 2; 3; 4; 5; 6; 7; 8; 9; 10; 11; 12].
Proof. intros. rewrite !list_elem_of_In. cbn. lia. Qed.

(** The sum [day_of_week] forms, for a year already moved to March. *)
Definition weekday_sum (year entry day : Z) : Z :=
  year + year / 4 - year / 100 + year / 400 + entry + day.

Lemma day_of_week_value year month day entry :
  1 <= year <= 5000000 -> 1 <= month <= 12 -> 0 <= day <= 1000000 ->
  day_of_week_table !! Z.to_nat (month - 1) = Some entry -> 0 <= entry <= 6 ->
  day_of_week year month day =
  Ok (weekday_sum (if month <? 3 then year - 1 else year) entry day mod 7).
Proof.
  intros Hy Hm Hd He Hb. unfold day_of_week, valid_month.
  rewrite !(proj2 (Z.leb_le _ _)) by lia. cbn [verify res_bind andb].
  replace (if month <? 3 then exact I32 (year - 1) else Ok year)
    with (Ok (if month <? 3 then year - 1 else year))
    by (case_if; [rewrite exact_I32 by lia|]; done).
  cbn [res_bind]. set (y := if month <? 3 then year - 1 else year).
  assert (0 <= y <= 5000000) by (unfold y; case_if; lia).
  rewrite !Z.quot_div_nonneg by lia. rewrite He. cbn [of_opt].
  assert (0 <= y / 4 <= 5000000 /\ 0 <= y / 100 <= 5000000 /\ 0 <= y / 400 <= 5000000)
    by (Z.to_euclidean_division_equations; lia).
  assert (y / 100 <= y / 4) by (Z.to_euclidean_division_equations; lia).
  do 5 (rewrite exact_I32 by lia; cbn [res_bind]).
  fold (weekday_sum y entry day).
  assert (0 <= weekday_sum y entry day) by (unfold weekday_sum; lia).
  rewrite Z.rem_mod_nonneg by lia.
  rewrite wrap_id; [done|done|]. apply in_ty_spec.
  pose proof (Z.mod_pos_bound (weekday_sum y entry day) 7). cbn. lia.
Qed.

Lemma day_of_year_value year month day entry :
  1 <= month <= 12 -> 0 <= day <= 1000000 ->
  day_of_year_table !! Z.to_nat (month - 1) = Some entry -> 0 <= entry <= 334 ->
  day_of_year year month day =
  Ok (entry + day - 1 + Z.b2z (is_leap_year year && (3 <=? month))).
Proof.
  intros Hm Hd He Hb. unfold day_of_year, valid_month.
  rewrite !(proj2 (Z.leb_le _ month)), !(proj2 (Z.leb_le month _)) by lia.
  cbn [verify res_bind andb]. rewrite He. cbn [of_opt res_bind].
  do 2 (rewrite exact_I32 by lia; cbn [res_bind]).
  case_if; cbn [Z.b2z]; [rewrite exact_I32 by lia|]; f_equal; lia.
Qed.

(** The weekday of the reference: 1 January 1970 was a Thursday. *)
Lemma weekday_sum_epoch year e d :
  weekday_sum year e d mod 7 = (epoch_days (year + 1) + e + d + 3) mod 7.
Proof.
  unfold weekday_sum, epoch_days, leap_years_before.
  replace (year + 1 - 1) with year by lia.
  change ((1970 - 1) / 4) with 492. change ((1970 - 1) / 100) with 19.
  change ((1970 - 1) / 400) with 4.
  generalize (year / 4) (year / 100) (year / 400). intros a b c.
  rewrite <- (Z.mod_add (year + a - b + c + e + d) (52 * year - 102737)) by lia.
  f_equal. lia.
Qed.

(** Month by month, the two tables differ by the days of the year modulo 7. *)
Lemma tables_agree month :
  1 <= month <= 12 -> exists e f,
    day_of_week_table !! Z.to_nat (month - 1) = Some e /\ 0 <= e <= 6 /\
    day_of_year_table !! Z.to_nat (month - 1) = Some f /\ 0 <= f <= 334 /\
    (e + (if month <? 3 then 0 else 365) - f) mod 7 = 0.
Proof.
  intros Hm%month_cases. rewrite !elem_of_cons in Hm.
  destruct_or! Hm; try (by apply elem_of_nil in Hm); subst month;
    do 2 eexists; repeat split; reflexivity || lia || done.
Qed.

Lemma weekday_agrees year month day :
  1 <= year <= 5000000 -> 1 <= month <= 12 -> 0 <= day <= 1000000 ->
  day_of_week year month day =
  res_bind (day_of_year year month day)
    (fun doy => Ok ((epoch_days year + doy + 4) mod 7)).
Proof.
  intros Hy Hm Hd. pose proof (epoch_days_succ year) as Es. unfold days_in_year in Es.
  destruct (tables_agree month Hm) as (e & f & He & Hbe & Hf & Hbf & Hk).
  rewrite (day_of_week_value _ _ _ e), (day_of_year_value _ _ _ f) by done.
  cbn [res_bind]. rewrite weekday_sum_epoch. f_equal.
  destruct (Z.ltb_spec month 3).
  - rewrite andb_false_intro2 by lia. cbn [Z.b2z].
    replace (year - 1 + 1) with year by lia. Z.to_euclidean_division_equations. lia.
  - rewrite (proj2 (Z.leb_le 3 month)), andb_true_r by lia.
    rewrite Es. Z.to_euclidean_division_equations. lia.
Qed.

End CalendarFacts.

Module TimeFacts.
Import Time.

Lemma wf_spec t :
  wf t = true <-> in_ty I64 (m_seconds t) = true /\ 0 <= m_nanoseconds t < NS.
Proof. unfold wf. rewrite !andb_true_iff, Z.leb_le, Z.ltb_lt. tauto. Qed.

Lemma in_I64 z : in_ty I64 z = true <-> - 9223372036854775808 <= z <= 9223372036854775807.
Proof. apply in_ty_spec. Qed.

Lemma make_id s n : in_ty I64 s = true -> 0 <= n < NS -> make s n = mkTime s n.
Proof.
  intros Hs Hn. unfold make. rewrite (wrap_id I64), (wrap_id U32); try done.
  apply in_ty_spec. unfold NS in *. cbn. lia.
Qed.

Lemma make_wf s n : in_ty I64 s = true -> 0 <= n < NS -> wf (make s n) = true.
Proof. intros Hs Hn. rewrite make_id by done. by apply wf_spec. Qed.

(** The total determines the normal form. *)
Lemma total_inj a b : wf a = true -> wf b = true -> total a = total b -> a = b.
Proof.
  rewrite !wf_spec. destruct a as [sa na], b as [sb nb]. unfold total, NS. cbn.
  intros. f_equal; lia.
Qed.

Lemma exact_I64 z : in_ty I64 z = true -> exact I64 z = Ok z.
Proof. intros H. unfold exact. by rewrite H. Qed.

(** [sane_mod] is the flooring division. *)
Lemma sane_mod_spec n d :
  2 <= d <= NS -> in_ty I64 n = true -> sane_mod n d = Ok (n / d, n mod d).
Proof.
  intros Hd Hn. unfold sane_mod.
  replace ((2 <=? d) && (d <=? NS)) with true by (symmetry; rewrite andb_true_iff, !Z.leb_le; lia).
  cbn [verify res_bind]. rewrite in_I64 in Hn. unfold NS in *.
  pose proof (Z.quot_rem' n d) as E.
  destruct (Z.ltb_spec (Z.rem n d) 0) as [Hr|Hr].
  - assert (n < 0) by (pose proof (Z.rem_nonneg n d); lia).
    pose proof (Z.rem_bound_abs n d).
    rewrite <- (Z.div_unique n d (Z.quot n d - 1) (Z.rem n d + d)) by lia.
    rewrite <- (Z.mod_unique n d (Z.quot n d - 1) (Z.rem n d + d)) by lia.
    assert (Z.quot n d <= 0) by (apply Z.quot_le_upper_bound; lia).
    rewrite !exact_I64; cbn [res_bind]; rewrite ?in_I64; [done|nia|lia].
  - assert (Z.rem n d < d) by (pose proof (Z.rem_bound_abs n d); lia).
    rewrite <- (Z.div_unique n d (Z.quot n d) (Z.rem n d)) by lia.
    by rewrite <- (Z.mod_unique n d (Z.quot n d) (Z.rem n d)) by lia.
Qed.

Lemma sane_mod32_spec n d :
  2 <= d <= NS -> in_ty I32 n = true -> sane_mod32 n d = Ok (n / d, n mod d).
Proof.
  intros Hd Hn. unfold sane_mod32.
  assert (- 2147483648 <= n <= 2147483647) by (by apply in_ty_spec in Hn).
  unfold NS in *. rewrite sane_mod_spec by (unfold NS; rewrite ?in_I64; lia).
  pose proof (Z.mod_pos_bound n d). pose proof (Z.div_mod n d).
  cbn [res_bind]. rewrite !(wrap_id I32); try done; apply in_ty_spec; cbn; nia.
Qed.

(** A checked computation that ends in [saturate]. *)
Lemma saturate_run t s us :
  saturate t (Checked.run I64 (Checked.of_value s) us) =
  Ok (if forallb (in_ty I64) (Checked.exact_trace s us) then Checked.exact_run s us
      else if m_seconds t <? 0 then - 0x8000000000000000 else 0x7fffffffffffffff).
Proof.
  destruct (Checked.run_exact I64 eq_refl us s) as [Hf Hv].
  unfold saturate, Checked.has_overflow, Checked.value. rewrite Hf in *.
  destruct (forallb _ _); cbn [negb]; [|done]. by rewrite Hv.
Qed.

Lemma dropped_second_spec t :
  in_ty I64 (m_seconds t) = true ->
  dropped_second t = Ok (if m_seconds t <? 0 then m_seconds t + 1 else m_seconds t).
Proof.
  intros H%in_I64. unfold dropped_second. case_if; [|done].
  apply exact_I64, in_I64. lia.
Qed.

(** Truncating and away-from-zero division of the total by a unit of [b]
    nanoseconds, [k] of which make a second. *)
Lemma quot_total s n b k :
  0 < b -> NS = b * k -> 0 <= n < NS ->
  Z.quot (s * NS + n) b =
  if s <? 0 then s * k + n / b + (if n mod b =? 0 then 0 else 1) else s * k + n / b.
Proof.
  intros Hb HN Hn. pose proof (Z.div_mod n b ltac:(lia)) as E.
  pose proof (Z.mod_pos_bound n b Hb). rewrite HN.
  assert (0 < k) by (unfold NS in HN; nia).
  destruct (Z.ltb_spec s 0).
  - rewrite <- (Z.opp_involutive (s * (b * k) + n)), Z.quot_opp_l by lia.
    rewrite Z.quot_div_nonneg by nia.
    destruct (Z.eqb_spec (n mod b) 0).
    + rewrite <- (Z.div_unique _ b (- (s * k + n / b)) 0); nia.
    + rewrite <- (Z.div_unique _ b (- (s * k + n / b + 1)) (b - n mod b)); nia.
  - rewrite Z.quot_div_nonneg by nia.
    symmetry. apply Z.div_unique with (n mod b); nia.
Qed.

Lemma quot_away_total s n b k :
  0 < b -> NS = b * k -> 0 <= n < NS ->
  quot_away (s * NS + n) b =
  if s <? 0 then s * k + n / b else s * k + n / b + (if n mod b =? 0 then 0 else 1).
Proof.
  intros Hb HN Hn. pose proof (Z.div_mod n b ltac:(lia)) as E.
  pose proof (Z.mod_pos_bound n b Hb). rewrite HN. unfold quot_away.
  assert (0 < k) by (unfold NS in HN; nia).
  destruct (Z.ltb_spec s 0).
  - assert (s * (b * k) + n < 0) by nia.
    rewrite Z.sgn_neg, Z.abs_neq by lia.
    assert ((- (s * (b * k) + n) + b - 1) / b = - (s * k + n / b)) as ->; [|lia].
    symmetry. apply Z.div_unique with (b - 1 - n mod b); nia.
  - destruct (Z.eq_dec (s * (b * k) + n) 0) as [E0|].
    + assert (0 < b * k) by nia. assert (s = 0) by nia. assert (n = 0) by nia. subst.
      by rewrite Z.div_0_l, Z.mod_0_l by lia.
    + rewrite Z.sgn_pos, Z.abs_eq by nia. rewrite Z.mul_1_l.
      symmetry. destruct (Z.eqb_spec (n mod b) 0).
      * apply Z.div_unique with (b - 1); nia.
      * apply Z.div_unique with (n mod b - 1); nia.
Qed.

(** Reads a nest of checked operations back as the line of updates it is. *)
Ltac reify c acc :=
  match c with
  | Checked.mul I64 ?c ?z => reify c constr:(Checked.Mul z :: acc)
  | Checked.add I64 ?c ?z => reify c constr:(Checked.Add z :: acc)
  | Checked.sub I64 ?c ?z => reify c constr:(Checked.Sub z :: acc)
  | (Checked.post_increment I64 ?c).2 => reify c constr:(Checked.Add 1 :: acc)
  | Checked.of_value ?s => constr:(Checked.run I64 (Checked.of_value s) acc)
  end.

Ltac saturate_lia :=
  match goal with
  | |- saturate ?t ?c = _ =>
      let r := reify c (@nil Checked.update) in change c with r; rewrite saturate_run
  end;
  cbn [Checked.exact_trace Checked.exact_update Checked.exact_run foldl forallb];
  unfold clamp_i64, clamp; cbn [tmin tmax I64 bits is_signed Z.sub];
  change (- 2 ^ (64 - 1)) with (- 9223372036854775808);
  change (2 ^ (64 - 1) - 1) with 9223372036854775807;
  repeat match goal with
  | |- context [in_ty I64 ?z] =>
      let E := fresh "E" in destruct (in_ty I64 z) eqn:E; [rewrite in_I64 in E|apply in_ty_false in E];
      cbn [andb]
  end;
  cbn [tmin tmax I64 bits is_signed] in *;
  f_equal; repeat case_if; lia.

Ltac start_conversion t Hs Hn :=
  intros [Hs Hn]%wf_spec; rewrite ?(proj2 (Z.ltb_lt (m_nanoseconds t) NS)) by lia;
  cbn [verify res_bind]; rewrite ?dropped_second_spec by done; cbn [res_bind]; unfold total.

Lemma sub_second_bound n b k : 0 < b -> NS = b * k -> 0 <= n < NS -> 0 <= n / b < k.
Proof.
  intros Hb HN Hn. split; [apply Z.div_pos; lia|].
  apply Z.div_lt_upper_bound; lia.
Qed.

Ltac finish_conversion t b Hs :=
  rewrite in_I64 in Hs; rewrite ?Z.leb_antisym;
  destruct (m_seconds t <? 0) eqn:?, (m_nanoseconds t mod b =? 0) eqn:?;
  cbn [negb andb]; saturate_lia.

Lemma to_truncated_milliseconds_spec t :
  wf t = true -> to_truncated_milliseconds t = Ok (clamp_i64 (Z.quot (total t) 1000000)).
Proof.
  unfold to_truncated_milliseconds. start_conversion t Hs Hn.
  rewrite (quot_total _ _ 1000000 1000) by done.
  pose proof (sub_second_bound (m_nanoseconds t) 1000000 1000 eq_refl eq_refl Hn).
  finish_conversion t 1000000 Hs.
Qed.

Lemma to_truncated_microseconds_spec t :
  wf t = true -> to_truncated_microseconds t = Ok (clamp_i64 (Z.quot (total t) 1000)).
Proof.
  unfold to_truncated_microseconds. start_conversion t Hs Hn.
  rewrite (quot_total _ _ 1000 1000000) by done.
  pose proof (sub_second_bound (m_nanoseconds t) 1000 1000000 eq_refl eq_refl Hn).
  finish_conversion t 1000 Hs.
Qed.

Lemma to_milliseconds_spec t :
  wf t = true -> to_milliseconds t = Ok (clamp_i64 (quot_away (total t) 1000000)).
Proof.
  unfold to_milliseconds. start_conversion t Hs Hn.
  rewrite (quot_away_total _ _ 1000000 1000) by done.
  pose proof (sub_second_bound (m_nanoseconds t) 1000000 1000 eq_refl eq_refl Hn).
  finish_conversion t 1000000 Hs.
Qed.

Lemma to_microseconds_spec t :
  wf t = true -> to_microseconds t = Ok (clamp_i64 (quot_away (total t) 1000)).
Proof.
  unfold to_microseconds. start_conversion t Hs Hn.
  rewrite (quot_away_total _ _ 1000 1000000) by done.
  pose proof (sub_second_bound (m_nanoseconds t) 1000 1000000 eq_refl eq_refl Hn).
  finish_conversion t 1000 Hs.
Qed.

Lemma to_nanoseconds_spec t :
  wf t = true -> to_nanoseconds t = Ok (clamp_i64 (total t)).
Proof.
  unfold to_nanoseconds. start_conversion t Hs Hn. unfold NS in *.
  rewrite in_I64 in Hs. destruct (m_seconds t <? 0) eqn:?; saturate_lia.
Qed.

Lemma to_truncated_seconds_spec t :
  wf t = true -> to_truncated_seconds t = Ok (clamp_i64 (Z.quot (total t) NS)).
Proof.
  unfold to_truncated_seconds. start_conversion t Hs Hn.
  rewrite (quot_total _ _ NS 1), Z.div_small, Z.mod_small by (done || lia).
  rewrite in_I64 in Hs. unfold clamp_i64, clamp.
  destruct (Z.ltb_spec (m_seconds t) 0), (m_nanoseconds t =? 0); cbn [andb negb];
    rewrite ?exact_I64 by (apply in_I64; lia); f_equal; cbn; lia.
Qed.

Lemma to_seconds_spec t :
  wf t = true -> to_seconds t = Ok (clamp_i64 (quot_away (total t) NS)).
Proof.
  unfold to_seconds. start_conversion t Hs Hn.
  rewrite (quot_away_total _ _ NS 1), Z.div_small, Z.mod_small by (done || lia).
  rewrite in_I64 in Hs. unfold clamp_i64, clamp. rewrite Z.leb_antisym.
  destruct (Z.ltb_spec (m_seconds t) 0), (m_nanoseconds t =? 0); cbn [andb negb];
    try (f_equal; cbn; lia).
  unfold Checked.value, Checked.has_overflow. cbn [snd Checked.post_increment].
  unfold Checked.add, Checked.of_value. cbn [Checked.m_value Checked.m_overflow orb].
  destruct (in_ty I64 (m_seconds t + 1)) eqn:E; cbn [negb verify res_bind].
  - rewrite wrap_id by done. rewrite in_I64 in E. f_equal; cbn; lia.
  - apply in_ty_false in E. cbn in E. f_equal; cbn; lia.
Qed.

Lemma clamp_time_eq z :
  clamp_time z = Z.max (- 9223372036854775808000000000) (Z.min 9223372036854775807999999999 z).
Proof. reflexivity. Qed.

Lemma is_clamp_make s n :
  in_ty I64 s = true -> 0 <= n < NS -> is_clamp (Ok (make s n)) (s * NS + n).
Proof.
  intros Hs Hn. exists (make s n). split; [done|]. split; [by apply make_wf|].
  rewrite make_id, clamp_time_eq by done. rewrite in_I64 in Hs. unfold total, NS in *.
  cbn [m_seconds m_nanoseconds]. lia.
Qed.

Lemma is_clamp_max z : 9223372036854775807999999999 <= z -> is_clamp (Ok max) z.
Proof.
  exists max. split; [done|]. split; [done|]. rewrite clamp_time_eq.
  change (total max) with 9223372036854775807999999999. lia.
Qed.

Lemma is_clamp_min z : z <= - 9223372036854775808000000000 -> is_clamp (Ok min) z.
Proof.
  exists min. split; [done|]. split; [done|]. rewrite clamp_time_eq.
  change (total min) with (- 9223372036854775808000000000). lia.
Qed.

Lemma add_seconds_spec a b n :
  in_ty I64 a = true -> in_ty I64 b = true -> 0 <= n < NS ->
  is_clamp (add_seconds a b n) ((a + b) * NS + n).
Proof.
  intros Ha%in_I64 Hb%in_I64 Hn. unfold add_seconds, Checked.value, Checked.has_overflow.
  unfold Checked.add, Checked.of_value. cbn [Checked.m_value Checked.m_overflow orb].
  destruct (in_ty I64 (a + b)) eqn:E; cbn [negb verify res_bind].
  - rewrite wrap_id by done. by apply is_clamp_make.
  - apply in_ty_false in E. cbn in E. unfold NS in *.
    case_if; [apply is_clamp_max|apply is_clamp_min]; lia.
Qed.

Lemma op_add_clamp a b :
  wf a = true -> wf b = true -> is_clamp (op_add a b) (total a + total b).
Proof.
  intros [Ha Hna]%wf_spec [Hb Hnb]%wf_spec. unfold op_add.
  rewrite !(proj2 (Z.ltb_lt _ NS)) by lia. cbn [verify res_bind].
  rewrite wrap_id by (try apply in_ty_spec; unfold NS in *; cbn; lia).
  pose proof Ha as Ha'%in_I64. pose proof Hb as Hb'%in_I64.
  set (n := m_nanoseconds a + m_nanoseconds b).
  pose proof (Z.mod_pos_bound n NS eq_refl) as Hm.
  pose proof (Z.div_mod n NS ltac:(done)) as E.
  replace (total a + total b) with
    ((m_seconds a + m_seconds b + n / NS) * NS + n mod NS) by (unfold total, n in *; lia).
  assert (n / NS = 0 \/ n / NS = 1) as [D|D] by (unfold n, NS in *; lia); rewrite D; cbn [negb Z.eqb].
  - rewrite Z.add_0_r. by apply add_seconds_spec.
  - cbn [verify res_bind Z.eqb Pos.eqb].
    destruct (Z.eqb_spec (m_seconds a) 9223372036854775807); cbn [negb];
      [destruct (Z.eqb_spec (m_seconds b) 9223372036854775807)|]; cbn [negb].
    + apply is_clamp_max. unfold NS in *. lia.
    + rewrite exact_I64 by (apply in_I64; lia). cbn [res_bind].
      rewrite <- Z.add_assoc. apply add_seconds_spec; rewrite ?in_I64; lia.
    + rewrite exact_I64 by (apply in_I64; lia). cbn [res_bind].
      replace (m_seconds a + m_seconds b + 1) with (m_seconds a + 1 + m_seconds b) by lia.
      apply add_seconds_spec; rewrite ?in_I64; lia.
Qed.

(** [(i64) ~(u64)s] is [-s - 1]. *)
Lemma lnot_seconds s :
  in_ty I64 s = true -> wrap I64 (wrap U64 (Z.lnot (wrap U64 s))) = - s - 1.
Proof.
  intros H%in_I64. unfold Z.lnot, wrap. cbn [tmin bits is_signed U64 I64].
  change (2 ^ 64) with 18446744073709551616. change (2 ^ (64 - 1)) with 9223372036854775808.
  Z.to_euclidean_division_equations. lia.
Qed.

Lemma op_sub_clamp a b :
  wf a = true -> wf b = true -> is_clamp (op_sub a b) (total a - total b).
Proof.
  intros Wa [Hb Hnb]%wf_spec. pose proof Wa as [Ha Hna]%wf_spec. unfold op_sub.
  rewrite !(proj2 (Z.ltb_lt _ NS)) by lia. cbn [verify res_bind].
  pose proof Ha as Ha'%in_I64. pose proof Hb as Hb'%in_I64.
  destruct (Z.eqb_spec (m_nanoseconds b) 0) as [Hz|Hz]; cbn [negb].
  - destruct (Z.eqb_spec (m_seconds b) (- 0x8000000000000000)) as [Hm|Hm]; cbn [negb].
    + destruct (Z.leb_spec 0 (m_seconds a)).
      * apply is_clamp_max. unfold total, NS in *. rewrite Hm, Hz. lia.
      * do 2 (rewrite exact_I64 by (apply in_I64; lia); cbn [res_bind]).
        unfold total at 2. rewrite Hm, Hz.
        replace (total a - _) with
          ((m_seconds a + 4611686018427387904 + 4611686018427387904) * NS + m_nanoseconds a)
          by (unfold total, NS; lia).
        apply is_clamp_make; rewrite ?in_I64; lia.
    + rewrite exact_I64 by (apply in_I64; lia). cbn [res_bind].
      replace (total a - total b) with (total a + total (make (- m_seconds b) 0)).
      * apply op_add_clamp; [done|]. apply make_wf; rewrite ?in_I64; unfold NS; lia.
      * rewrite make_id by (rewrite ?in_I64; unfold NS; lia). unfold total. cbn. lia.
  - unfold make. rewrite lnot_seconds, wrap_id by (done || (apply in_ty_spec; unfold NS in *; cbn; lia)).
    replace (total a - total b) with
      (total a + total (mkTime (- m_seconds b - 1) (NS - m_nanoseconds b)))
      by (unfold total; cbn; lia).
    apply op_add_clamp; [done|]. apply wf_spec. cbn. rewrite in_I64. lia.
Qed.

Lemma from_half_sanitized_clamp s e n :
  in_ty I64 s = true -> in_ty I32 e = true -> 0 <= n < NS ->
  is_clamp (from_half_sanitized s e n) ((s + e) * NS + n).
Proof.
  intros Hs%in_I64 He%in_ty_spec Hn. cbn in He. unfold from_half_sanitized.
  rewrite (proj2 (Z.ltb_lt _ NS)) by lia. cbn [verify res_bind].
  destruct (((s <=? 0) && (0 <? e)) || ((0 <=? s) && (e <? 0))) eqn:E.
  - rewrite exact_I64 by (apply in_I64; to_prop; lia). cbn [res_bind].
    unfold Checked.addition_would_overflow. rewrite Z.add_0_r.
    rewrite (proj2 (in_I64 (s + e))) by (to_prop; lia). cbn [negb].
    rewrite exact_I64 by (apply in_I64; to_prop; lia). cbn [res_bind].
    apply is_clamp_make; [|done]. apply in_I64. to_prop; lia.
  - cbn [res_bind]. unfold Checked.addition_would_overflow.
    destruct (in_ty I64 (s + e)) eqn:E'; cbn [negb].
    + rewrite exact_I64 by done. by apply is_clamp_make.
    + apply in_ty_false in E'. cbn in E'. unfold NS in *.
      case_if; [apply is_clamp_min|apply is_clamp_max]; to_prop; lia.
Qed.

(** The units: [u] of them make a second, one is [NS / u] nanoseconds. *)
Lemma from_units_spec z u v :
  2 <= u <= NS -> NS = u * v -> in_ty I64 z = true ->
  in_ty I64 (z mod u * v) = true /\
  wf (make (z / u) (z mod u * v)) = true /\
  total (make (z / u) (z mod u * v)) = z * v.
Proof.
  intros Hu Hv Hz%in_I64. pose proof (Z.mod_pos_bound z u). pose proof (Z.div_mod z u).
  assert (0 <= z mod u * v < NS) by nia.
  assert (in_ty I64 (z / u) = true)
    by (apply in_I64; split; [apply Z.div_le_lower_bound|apply Z.div_le_upper_bound]; lia).
  split; [apply in_I64; unfold NS in *; lia|]. split; [by apply make_wf|].
  rewrite make_id by done. unfold total. cbn [m_seconds m_nanoseconds]. rewrite Hv. nia.
Qed.

Lemma from_timespec_clamp ts :
  in_ty I64 (tv_sec ts) = true -> in_ty I32 (tv_nsec ts) = true ->
  is_clamp (from_timespec ts) (Timespec.ts_total ts).
Proof.
  intros Hs Hn. unfold from_timespec. rewrite sane_mod32_spec by done. cbn [res_bind].
  pose proof Hn as Hn'%in_ty_spec. cbn in Hn'.
  rewrite wrap_id by (done || (apply in_ty_spec; cbn; Z.to_euclidean_division_equations; lia)).
  replace (Timespec.ts_total ts) with
    ((tv_sec ts + tv_nsec ts / 1000000000) * NS + tv_nsec ts mod 1000000000)
    by (unfold Timespec.ts_total, NS; Z.to_euclidean_division_equations; lia).
  apply from_half_sanitized_clamp; [done| |by apply Z.mod_pos_bound].
  apply in_ty_spec. cbn. Z.to_euclidean_division_equations. lia.
Qed.

Lemma from_timeval_clamp tv :
  in_ty I64 (tv_sec' tv) = true -> in_ty I32 (tv_usec tv) = true ->
  is_clamp (from_timeval tv) (Timespec.tv_total tv * 1000).
Proof.
  intros Hs Hn. unfold from_timeval. rewrite sane_mod32_spec by done. cbn [res_bind].
  pose proof Hn as Hn'%in_ty_spec. cbn in Hn'.
  pose proof (Z.mod_pos_bound (tv_usec tv) 1000000 eq_refl) as Hm.
  rewrite (proj2 (Z.leb_le _ _)), (proj2 (Z.ltb_lt _ _)) by lia. cbn [andb verify res_bind].
  rewrite CalendarFacts.exact_I32 by lia. cbn [res_bind].
  rewrite wrap_id by (done || (apply in_ty_spec; cbn; lia)).
  replace (Timespec.tv_total tv * 1000) with
    ((tv_sec' tv + tv_usec tv / 1000000) * NS + tv_usec tv mod 1000000 * 1000)
    by (unfold Timespec.tv_total, NS; Z.to_euclidean_division_equations; lia).
  apply from_half_sanitized_clamp; [done| |unfold NS; lia].
  apply in_ty_spec. cbn. Z.to_euclidean_division_equations. lia.
Qed.

Lemma total_in_range t : wf t = true -> clamp_time (total t) = total t.
Proof.
  intros [Hs%in_I64 Hn]%wf_spec. rewrite clamp_time_eq. unfold total, NS in *. lia.
Qed.

Lemma to_timespec_inverse t :
  wf t = true -> res_bind (to_timespec t) from_timespec = Ok t.
Proof.
  intros Ht. pose proof Ht as [Hs Hn]%wf_spec. unfold to_timespec.
  rewrite (proj2 (Z.ltb_lt _ NS)) by lia. cbn [verify res_bind].
  assert (in_ty I32 (m_nanoseconds t) = true) by (apply in_ty_spec; unfold NS in *; cbn; lia).
  rewrite wrap_id by done.
  destruct (from_timespec_clamp (mkTimespec (m_seconds t) (m_nanoseconds t)))
    as (c & -> & Hc & E); [done..|].
  f_equal. apply total_inj; [done..|]. rewrite E. by apply total_in_range.
Qed.

End TimeFacts.

Module TimespecFacts.
Import Timespec.

Lemma ts_normal_spec t :
  ts_normal t = true <->
  - 9223372036854775808 <= tv_sec t <= 9223372036854775807 /\ 0 <= tv_nsec t < 1000000000.
Proof.
  unfold ts_normal. rewrite !andb_true_iff, TimeFacts.in_I64, Z.leb_le, Z.ltb_lt. tauto.
Qed.

Lemma tv_normal_spec t :
  tv_normal t = true <->
  - 9223372036854775808 <= tv_sec' t <= 9223372036854775807 /\ 0 <= tv_usec t < 1000000.
Proof.
  unfold tv_normal. rewrite !andb_true_iff, TimeFacts.in_I64, Z.leb_le, Z.ltb_lt. tauto.
Qed.

(** Runs a straight line of exact operations that all stay in range. *)
Ltac run_exact :=
  repeat (first [rewrite TimeFacts.exact_I64 by (apply TimeFacts.in_I64; lia)
                |rewrite CalendarFacts.exact_I32 by lia
                |case_if]; cbn [res_bind]);
  eexists; (split; [reflexivity|]); rewrite ?ts_normal_spec, ?tv_normal_spec;
  unfold ts_total, tv_total; cbn [tv_sec tv_nsec tv_sec' tv_usec]; lia.

End TimespecFacts.

(** ** Properties *)

(** [operator+] and [operator-] on normal operands never stop and never
    overflow: the result is the normal [Time] closest to the exact sum and
    difference, so the sum of times is saturating in both directions. *)
Theorem time_add_sub_saturate (a b : Time.Time) :
  Time.wf a = true -> Time.wf b = true ->
  Time.is_clamp (Time.op_add a b) (Time.total a + Time.total b) /\
  Time.is_clamp (Time.op_sub a b) (Time.total a - Time.total b).
Proof. split; [by apply TimeFacts.op_add_clamp|by apply TimeFacts.op_sub_clamp]. Qed.

Lemma time_add_sub_saturate_witness :
  Time.is_clamp (Time.op_sub Time.zero (Time.make 5 600000000)) (- 5600000000).
Proof. apply (time_add_sub_saturate Time.zero (Time.make 5 600000000)); reflexivity. Defined.

(** Every conversion of a normal [Time] to an integer number of units is
    the exact total in the unit, rounded towards zero ([to_truncated_*]) or away
    from zero ([to_*]), clamped to [i64]; none of them overflows on the way. *)
Theorem time_conversions_clamp (t : Time.Time) :
  Time.wf t = true ->
  Time.to_truncated_seconds t = Ok (Time.clamp_i64 (Z.quot (Time.total t) 1000000000)) /\
  Time.to_truncated_milliseconds t = Ok (Time.clamp_i64 (Z.quot (Time.total t) 1000000)) /\
  Time.to_truncated_microseconds t = Ok (Time.clamp_i64 (Z.quot (Time.total t) 1000)) /\
  Time.to_seconds t = Ok (Time.clamp_i64 (Time.quot_away (Time.total t) 1000000000)) /\
  Time.to_milliseconds t = Ok (Time.clamp_i64 (Time.quot_away (Time.total t) 1000000)) /\
  Time.to_microseconds t = Ok (Time.clamp_i64 (Time.quot_away (Time.total t) 1000)) /\
  Time.to_nanoseconds t = Ok (Time.clamp_i64 (Time.total t)).
Proof.
  intros Ht.
  repeat split; by (apply TimeFacts.to_truncated_seconds_spec
    || apply TimeFacts.to_truncated_milliseconds_spec
    || apply TimeFacts.to_truncated_microseconds_spec || apply TimeFacts.to_seconds_spec
    || apply TimeFacts.to_milliseconds_spec || apply TimeFacts.to_microseconds_spec
    || apply TimeFacts.to_nanoseconds_spec).
Qed.

Lemma time_conversions_clamp_witness :
  Time.to_seconds (Time.make (-3) 700000000) = Ok (-3) /\
  Time.to_truncated_seconds (Time.make (-3) 700000000) = Ok (-2).
Proof.
  split; [apply (time_conversions_clamp (Time.make (-3) 700000000) eq_refl)|].
  apply (time_conversions_clamp (Time.make (-3) 700000000) eq_refl).
Defined.

(** For years 1 to 5,000,000 and days of a month that are not negative,
    [day_of_week] agrees with counting days: it is the number of days since
    1 January 1970 ([years_to_days_since_epoch] plus [day_of_year]) shifted by
    the weekday of that date, modulo 7. *)
Theorem day_of_week_counts_days (year month day : Z) :
  1 <= year <= 5000000 -> 1 <= month <= 12 -> 0 <= day <= 1000000 ->
  exists doy, Calendar.day_of_year year month day = Ok doy /\
    Calendar.day_of_week year month day =
      Ok ((Calendar.years_to_days_since_epoch year + doy + 4) mod 7).
Proof.
  intros Hy Hm Hd. rewrite CalendarFacts.years_to_days_closed by lia.
  rewrite CalendarFacts.weekday_agrees by done.
  destruct (CalendarFacts.tables_agree month Hm) as (e & f & _ & _ & Hf & Hbf & _).
  rewrite (CalendarFacts.day_of_year_value _ _ _ f) by done. by eexists.
Qed.

Lemma day_of_week_counts_days_witness :
  exists doy, Calendar.day_of_year 2021 4 18 = Ok doy /\
    Calendar.day_of_week 2021 4 18 =
      Ok ((Calendar.years_to_days_since_epoch 2021 + doy + 4) mod 7).
Proof. apply (day_of_week_counts_days 2021 4 18); lia. Defined.

(** The constructors from other representations are exact or saturating:
    [from_nanoseconds], [from_microseconds] and [from_milliseconds] denote their
    argument, [from_timespec] and [from_timeval] the closest [Time] to a
    structure in any form, and [from_timespec] inverts [to_timespec]. *)
Theorem time_from_exact (z : Z) (ts : timespec) (tv : timeval) (t : Time.Time) :
  in_ty I64 z = true ->
  in_ty I64 (tv_sec ts) = true -> in_ty I32 (tv_nsec ts) = true ->
  in_ty I64 (tv_sec' tv) = true -> in_ty I32 (tv_usec tv) = true ->
  Time.wf t = true ->
  (exists r, Time.from_nanoseconds z = Ok r /\ Time.wf r = true /\ Time.total r = z) /\
  (exists r, Time.from_microseconds z = Ok r /\ Time.wf r = true /\ Time.total r = z * 1000) /\
  (exists r, Time.from_milliseconds z = Ok r /\ Time.wf r = true /\ Time.total r = z * 1000000) /\
  Time.is_clamp (Time.from_timespec ts) (Timespec.ts_total ts) /\
  Time.is_clamp (Time.from_timeval tv) (Timespec.tv_total tv * 1000) /\
  res_bind (Time.to_timespec t) Time.from_timespec = Ok t.
Proof.
  intros Hz H1 H2 H3 H4 Ht. split_and!.
  - destruct (TimeFacts.from_units_spec z Time.NS 1) as (_ & W & T); try done.
    unfold Time.from_nanoseconds. rewrite TimeFacts.sane_mod_spec by done.
    rewrite !Z.mul_1_r in *. eauto.
  - destruct (TimeFacts.from_units_spec z 1000000 1000) as (E & W & T); try done.
    unfold Time.from_microseconds. rewrite TimeFacts.sane_mod_spec by done.
    cbn [res_bind]. rewrite TimeFacts.exact_I64 by done. eauto.
  - destruct (TimeFacts.from_units_spec z 1000 1000000) as (E & W & T); try done.
    unfold Time.from_milliseconds. rewrite TimeFacts.sane_mod_spec by done.
    cbn [res_bind]. rewrite TimeFacts.exact_I64 by done. eauto.
  - by apply TimeFacts.from_timespec_clamp.
  - by apply TimeFacts.from_timeval_clamp.
  - by apply TimeFacts.to_timespec_inverse.
Qed.

Lemma time_from_exact_witness :
  Time.is_clamp (Time.from_timespec (mkTimespec 1 (-2))) 999999998.
Proof.
  apply (time_from_exact 0 (mkTimespec 1 (-2)) (mkTimeval 1 2012345) Time.zero); reflexivity.
Defined.

(** On normal times the six comparisons are those of the totals. *)
Theorem time_comparisons_total (a b : Time.Time) :
  Time.wf a = true -> Time.wf b = true ->
  Time.op_eq a b = (Time.total a =? Time.total b) /\
  Time.op_ne a b = negb (Time.total a =? Time.total b) /\
  Time.op_lt a b = (Time.total a <? Time.total b) /\
  Time.op_le a b = (Time.total a <=? Time.total b) /\
  Time.op_gt a b = (Time.total b <? Time.total a) /\
  Time.op_ge a b = (Time.total b <=? Time.total a).
Proof.
  rewrite !TimeFacts.wf_spec. intros [_ Ha] [_ Hb].
  unfold Time.op_ne, Time.op_eq, Time.op_lt, Time.op_le, Time.op_gt, Time.op_ge,
    Time.total, Time.NS in *.
  split_and!; try f_equal; apply Bool.eq_iff_eq_true;
    rewrite ?orb_true_iff, ?andb_true_iff, ?Z.eqb_eq, ?Z.ltb_lt, ?Z.leb_le; lia.
Qed.

Lemma time_comparisons_total_witness :
  Time.op_lt (Time.make (-1) 999999999) Time.zero = true.
Proof. apply (time_comparisons_total (Time.make (-1) 999999999) Time.zero); reflexivity. Defined.

(** On structures in normal form whose seconds do not overflow, the
    [timespec] and [timeval] templates compute the exact sum or difference in
    normal form and execute no undefined operation. *)
Theorem timespec_arithmetic_exact (a b : timespec) (c d : timeval) :
  Timespec.ts_normal a = true -> Timespec.ts_normal b = true ->
  Timespec.tv_normal c = true -> Timespec.tv_normal d = true ->
  Z.abs (tv_sec a) < 2 ^ 61 -> Z.abs (tv_sec b) < 2 ^ 61 ->
  Z.abs (tv_sec' c) < 2 ^ 61 -> Z.abs (tv_sec' d) < 2 ^ 61 ->
  (exists r, Timespec.timespec_add a b = Ok r /\ Timespec.ts_normal r = true /\
     Timespec.ts_total r = Timespec.ts_total a + Timespec.ts_total b) /\
  (exists r, Timespec.timespec_sub a b = Ok r /\ Timespec.ts_normal r = true /\
     Timespec.ts_total r = Timespec.ts_total a - Timespec.ts_total b) /\
  (exists r, Timespec.timeval_add c d = Ok r /\ Timespec.tv_normal r = true /\
     Timespec.tv_total r = Timespec.tv_total c + Timespec.tv_total d) /\
  (exists r, Timespec.timeval_sub c d = Ok r /\ Timespec.tv_normal r = true /\
     Timespec.tv_total r = Timespec.tv_total c - Timespec.tv_total d) /\
  (exists r, Timespec.timespec_add_timeval a c = Ok r /\ Timespec.ts_normal r = true /\
     Timespec.ts_total r = Timespec.ts_total a + Timespec.tv_total c * 1000).
Proof.
  rewrite !TimespecFacts.ts_normal_spec, !TimespecFacts.tv_normal_spec.
  change (2 ^ 61) with 2305843009213693952. intros.
  split_and!; [unfold Timespec.timespec_add|unfold Timespec.timespec_sub
    |unfold Timespec.timeval_add|unfold Timespec.timeval_sub
    |unfold Timespec.timespec_add_timeval]; TimespecFacts.run_exact.
Qed.

Lemma timespec_arithmetic_exact_witness :
  exists r, Timespec.timespec_sub (mkTimespec 3 5) (mkTimespec 1 6) = Ok r /\
    Timespec.ts_normal r = true /\ Timespec.ts_total r = 1999999999.
Proof.
  apply (timespec_arithmetic_exact (mkTimespec 3 5) (mkTimespec 1 6)
           (mkTimeval 0 0) (mkTimeval 0 0)); reflexivity.
Defined.
