(* ===== verification/Memory.v ===== *)
(** * Kernel memory, machine bit counting and the helpers of AK/StdLibExtras.h

    Addresses are [Z]; a memory gives the byte at every address and whether the
    address may be accessed.  Access outside the accessible addresses is
    undefined behaviour.  A pointer of the code is an address, so two objects
    that overlap in memory alias in the model as well. *)

From S2P Require Import Prelude.

Record memory := mkMemory { m_bytes : Z -> Z; m_valid : Z -> bool }.

Definition load8 (m : memory) (a : Z) : res Z := DEFINED m_valid m a ;; Ok (m_bytes m a).

Definition poke (m : memory) (a x : Z) : memory :=
  mkMemory (fun b => if b =? a then x else m_bytes m b) (m_valid m).

Definition store8 (m : memory) (a x : Z) : res memory :=
  DEFINED m_valid m a ;; Ok (poke m a (x mod 256)).

(** i386 is little endian. *)
Definition word_at (m : memory) (a : Z) : Z :=
  m_bytes m a + 2 ^ 8 * (m_bytes m (a + 1) + 2 ^ 8 * (m_bytes m (a + 2) + 2 ^ 8 * m_bytes m (a + 3))).

Definition valid32 (m : memory) (a : Z) : bool :=
  m_valid m a && m_valid m (a + 1) && m_valid m (a + 2) && m_valid m (a + 3).

Definition load32 (m : memory) (a : Z) : res Z := DEFINED valid32 m a ;; Ok (word_at m a).

Definition poke32 (m : memory) (a x : Z) : memory :=
  poke (poke (poke (poke m a (x mod 256)) (a + 1) (x / 2 ^ 8 mod 256))
    (a + 2) (x / 2 ^ 16 mod 256)) (a + 3) (x / 2 ^ 24 mod 256).

Definition store32 (m : memory) (a x : Z) : res memory :=
  DEFINED valid32 m a ;; Ok (poke32 m a x).

(** [__builtin_memset] *)
Fixpoint memset_loop (n : nat) (m : memory) (a x : Z) : res memory :=
  match n with
  | O => Ok m
  | S n => let* m := store8 m a x in memset_loop n m (a + 1) x
  end.

Definition memset (m : memory) (a x n : Z) : res memory := memset_loop (Z.to_nat n) m a x.

(** [__builtin_memcpy], in the direction of increasing addresses. *)
Fixpoint memcpy_loop (n : nat) (m : memory) (dst src : Z) : res memory :=
  match n with
  | O => Ok m
  | S n =>
      let* x := load8 m src in
      let* m := store8 m dst x in
      memcpy_loop n m (dst + 1) (src + 1)
  end.

Definition memcpy (m : memory) (dst src n : Z) : res memory := memcpy_loop (Z.to_nat n) m dst src.

(** ** Bit counting builtins *)

Fixpoint popcount (n : nat) (x : Z) : Z :=
  match n with
  | O => 0
  | S n => Z.b2z (Z.odd x) + popcount n (Z.div2 x)
  end.

(** The index of the lowest set bit, below [n]. *)
Fixpoint lowest_bit (n : nat) (x : Z) : Z :=
  match n with
  | O => 0
  | S n => if Z.odd x then 0 else 1 + lowest_bit n (Z.div2 x)
  end.

(** [__builtin_ctz] is undefined at zero; [__builtin_ffs] counts from one. *)
Definition count_trailing_zeroes_32 (x : Z) : res Z :=
  DEFINED negb (x =? 0) ;; Ok (lowest_bit 32 x).

Definition count_trailing_zeroes_32_safe (x : Z) : res Z :=
  if x =? 0 then Ok 32 else count_trailing_zeroes_32 x.

Definition ffs (x : Z) : Z := if x =? 0 then 0 else lowest_bit 32 x + 1.

(** ** AK/StdLibExtras.h *)

Definition min (a b : Z) : Z := if b <? a then b else a.
Definition max (a b : Z) : Z := if a <? b then b else a.

Definition clamp (value min max : Z) : res Z :=
  VERIFY min <=? max ;;
  Ok (if max <? value then max else if value <? min then min else value).

Definition ceil_div (a b : Z) : res Z :=
  DEFINED negb (b =? 0) ;; Ok (a / b + (if negb (a mod b =? 0) then 1 else 0)).

Definition round_up_to_power_of_two (value power_of_two : Z) : Z :=
  wrap U32 (Z.land (wrap U32 (value - 1)) (wrap U32 (Z.lnot (power_of_two - 1))) + power_of_two).

(** ** Page arithmetic of Kernel/VM/MemoryManager.h *)

Definition PAGE_SIZE : Z := 4096.

Definition page_round_up_would_wrap (x : Z) : bool := 0xfffff000 <? x.

Definition page_round_up (x : Z) : res Z :=
  let rounded := Z.land (wrap FlatPtr (x + PAGE_SIZE - 1)) (wrap FlatPtr (Z.lnot (PAGE_SIZE - 1))) in
  VERIFY (x =? 0) || negb (rounded =? 0) ;;
  Ok rounded.

Definition page_round_down (x : Z) : Z := Z.land x (wrap FlatPtr (Z.lnot (PAGE_SIZE - 1))).

(** ** Lemmas *)

Definition bytes_wf (m : memory) : Prop := forall a, 0 <= m_bytes m a < 256.

Lemma min_spec a b : min a b = Z.min a b.
Proof. unfold min. case_if; lia. Qed.

Lemma max_spec a b : max a b = Z.max a b.
Proof. unfold max. case_if; lia. Qed.

Lemma load8_ok m a : m_valid m a = true -> load8 m a = Ok (m_bytes m a).
Proof. intros H. unfold load8. by rewrite H. Qed.

Lemma store8_ok m a x :
  m_valid m a = true -> 0 <= x < 256 -> store8 m a x = Ok (poke m a x).
Proof. intros H Hx. unfold store8. rewrite H, Z.mod_small by lia. done. Qed.

Lemma poke_wf m a x : bytes_wf m -> 0 <= x < 256 -> bytes_wf (poke m a x).
Proof. intros Hm Hx b. cbn. case_if; [done|apply Hm]. Qed.

Lemma poke_bytes m a x b : m_bytes (poke m a x) b = if b =? a then x else m_bytes m b.
Proof. done. Qed.

Lemma memset_loop_ok x k m a :
  0 <= x < 256 -> (forall b, a <= b < a + Z.of_nat k -> m_valid m b = true) ->
  exists m', memset_loop k m a x = Ok m' /\ m_valid m' = m_valid m /\
    forall b, m_bytes m' b = if (a <=? b) && (b <? a + Z.of_nat k) then x else m_bytes m b.
Proof.
  intros Hx. revert m a. induction k as [|k IH]; intros m a Hv; cbn [memset_loop].
  - exists m. split; [done|]. split; [done|]. intros b. case_if; [lia|done].
  - rewrite store8_ok by (done || (apply Hv; lia)). cbn [res_bind].
    destruct (IH (poke m a x) (a + 1)) as (m' & -> & Hv' & Hb).
    { intros b ?. apply Hv. lia. }
    exists m'. split; [done|]. split; [done|]. intros b. rewrite Hb, poke_bytes.
    repeat case_if; lia || done.
Qed.

Lemma memset_ok m a x n :
  0 <= n -> 0 <= x < 256 -> (forall b, a <= b < a + n -> m_valid m b = true) ->
  exists m', memset m a x n = Ok m' /\ m_valid m' = m_valid m /\
    forall b, m_bytes m' b = if (a <=? b) && (b <? a + n) then x else m_bytes m b.
Proof.
  intros Hn Hx Hv. destruct (memset_loop_ok x (Z.to_nat n) m a) as (m' & E & E' & Hb).
  { done. } { rewrite Z2Nat.id by done. done. }
  rewrite Z2Nat.id in Hb by done. eauto.
Qed.

(** Copying between areas that do not overlap. *)
Lemma memcpy_loop_ok k m dst src :
  bytes_wf m ->
  dst + Z.of_nat k <= src \/ src + Z.of_nat k <= dst ->
  (forall i, 0 <= i < Z.of_nat k -> m_valid m (dst + i) = true /\ m_valid m (src + i) = true) ->
  exists m', memcpy_loop k m dst src = Ok m' /\ m_valid m' = m_valid m /\ bytes_wf m' /\
    forall b, m_bytes m' b =
      if (dst <=? b) && (b <? dst + Z.of_nat k) then m_bytes m (src + (b - dst)) else m_bytes m b.
Proof.
  revert m dst src. induction k as [|k IH]; intros m dst src Hw Hd Hv; cbn [memcpy_loop].
  - exists m. split; [done|]. split; [done|]. split; [done|]. intros b. case_if; [lia|done].
  - destruct (Hv 0) as [V1 V2]; [lia|]. rewrite Z.add_0_r in V1, V2.
    rewrite load8_ok by done. cbn [res_bind].
    rewrite store8_ok by (done || apply Hw). cbn [res_bind].
    destruct (IH (poke m dst (m_bytes m src)) (dst + 1) (src + 1)) as (m' & -> & Hv' & Hw' & Hb).
    { apply poke_wf; [done|apply Hw]. } { lia. }
    { intros i Hi. rewrite <- !Z.add_assoc. apply Hv. lia. }
    exists m'. split; [done|]. split; [done|]. split; [done|]. intros b.
    rewrite Hb, !poke_bytes. repeat case_if; try lia; try done.
    + f_equal. lia.
    + f_equal. lia.
Qed.

Lemma memcpy_ok m dst src n :
  bytes_wf m -> 0 <= n -> dst + n <= src \/ src + n <= dst ->
  (forall i, 0 <= i < n -> m_valid m (dst + i) = true /\ m_valid m (src + i) = true) ->
  exists m', memcpy m dst src n = Ok m' /\ m_valid m' = m_valid m /\ bytes_wf m' /\
    forall b, m_bytes m' b =
      if (dst <=? b) && (b <? dst + n) then m_bytes m (src + (b - dst)) else m_bytes m b.
Proof.
  intros Hw Hn Hd Hv. destruct (memcpy_loop_ok (Z.to_nat n) m dst src) as (m' & E);
    rewrite ?Z2Nat.id in * by done; [done..|]. exists m'. done.
Qed.

(** Storing and loading words. *)
Lemma load32_ok m a :
  (forall i, 0 <= i < 4 -> m_valid m (a + i) = true) -> load32 m a = Ok (word_at m a).
Proof.
  intros Hv. unfold load32, valid32. rewrite <- (Z.add_0_r a) at 1.
  by rewrite !Hv by lia.
Qed.

Lemma store32_ok m a x :
  bytes_wf m -> 0 <= x < 2 ^ 32 -> (forall i, 0 <= i < 4 -> m_valid m (a + i) = true) ->
  exists m', store32 m a x = Ok m' /\ m_valid m' = m_valid m /\ bytes_wf m' /\
    word_at m' a = x /\ forall b, b < a \/ a + 4 <= b -> m_bytes m' b = m_bytes m b.
Proof.
  intros Hw Hx Hv. exists (poke32 m a x). unfold store32, valid32.
  rewrite <- (Z.add_0_r a) at 1. rewrite !Hv by lia. split; [done|]. split; [done|].
  split; [|split].
  - unfold poke32. repeat apply poke_wf; try done; apply Z.mod_pos_bound; lia.
  - unfold word_at, poke32. rewrite !poke_bytes. repeat case_if; try lia.
    change (2 ^ 8) with 256. change (2 ^ 16) with 65536. change (2 ^ 24) with 16777216.
    change (2 ^ 32) with 4294967296 in *. Z.to_euclidean_division_equations. lia.
  - intros b Hb. unfold poke32. rewrite !poke_bytes. repeat case_if; lia.
Qed.

Lemma word_at_ext m m' a :
  (forall i, 0 <= i < 4 -> m_bytes m' (a + i) = m_bytes m (a + i)) -> word_at m' a = word_at m a.
Proof. intros H. unfold word_at. rewrite <- (Z.add_0_r a) at 1 5. by rewrite !H by lia. Qed.

(** The bits of a number put together from a low part of [n] bits and a high one. *)
Lemma testbit_concat n lo hi i :
  0 <= n -> 0 <= lo < 2 ^ n -> 0 <= i ->
  Z.testbit (lo + 2 ^ n * hi) i = if i <? n then Z.testbit lo i else Z.testbit hi (i - n).
Proof.
  intros Hn Hlo Hi. rewrite Z.mul_comm.
  destruct (Z.ltb_spec i n).
  - rewrite <- (Z.mod_pow2_bits_low (lo + _) n) by lia.
    rewrite Z.mod_add, Z.mod_small by lia. done.
  - replace i with (i - n + n) at 1 by lia. rewrite <- Z.div_pow2_bits by lia.
    rewrite Z.div_add, (Z.div_small lo) by lia. done.
Qed.

Lemma testbit_byte lo hi i :
  0 <= lo < 256 -> 0 <= i ->
  Z.testbit (lo + 2 ^ 8 * hi) i = if i <? 8 then Z.testbit lo i else Z.testbit hi (i - 8).
Proof. intros. by apply testbit_concat. Qed.

Lemma word_at_bits m a i :
  bytes_wf m -> 0 <= i < 32 ->
  Z.testbit (word_at m a) i = Z.testbit (m_bytes m (a + i / 8)) (i mod 8).
Proof.
  intros Hm Hi. unfold word_at.
  rewrite testbit_byte by (apply Hm || lia). case_if.
  { rewrite (Z.div_small i), (Z.mod_small i) by lia. by rewrite Z.add_0_r. }
  rewrite testbit_byte by (apply Hm || lia). case_if.
  { rewrite <- (Z.div_unique i 8 1 (i - 8)), <- (Z.mod_unique i 8 1 (i - 8)) by lia. done. }
  rewrite testbit_byte by (apply Hm || lia). case_if.
  { rewrite <- (Z.div_unique i 8 2 (i - 8 - 8)), <- (Z.mod_unique i 8 2 (i - 8 - 8)) by lia. done. }
  rewrite <- (Z.div_unique i 8 3 (i - 8 - 8 - 8)), <- (Z.mod_unique i 8 3 (i - 8 - 8 - 8)) by lia.
  done.
Qed.

Lemma word_at_bounds m a : bytes_wf m -> 0 <= word_at m a < 2 ^ 32.
Proof.
  intros Hm. unfold word_at. pose proof (Hm a). pose proof (Hm (a + 1)).
  pose proof (Hm (a + 2)). pose proof (Hm (a + 3)). lia.
Qed.

(** [lowest_bit] finds the lowest set bit of a non-zero number of [n] bits. *)
Lemma div2_bit x i : 0 <= i -> Z.testbit (Z.div2 x) i = Z.testbit x (i + 1).
Proof. intros. rewrite Z.div2_spec, Z.shiftr_spec by done. done. Qed.

Lemma odd_bit x : Z.odd x = Z.testbit x 0.
Proof. by rewrite Z.bit0_odd. Qed.

Lemma lowest_bit_spec (n : nat) (x : Z) :
  (exists i, 0 <= i < Z.of_nat n /\ Z.testbit x i = true) ->
  0 <= lowest_bit n x < Z.of_nat n /\ Z.testbit x (lowest_bit n x) = true /\
  forall i, 0 <= i < lowest_bit n x -> Z.testbit x i = false.
Proof.
  revert x. induction n as [|n IH]; intros x (i & Hi & Hb); [lia|].
  cbn [lowest_bit]. rewrite odd_bit. destruct (Z.testbit x 0) eqn:E0.
  - split; [lia|]. split; [done|]. intros; lia.
  - assert (i <> 0) by congruence.
    destruct (IH (Z.div2 x)) as (H1 & H2 & H3).
    { exists (i - 1). split; [lia|]. rewrite div2_bit by lia. by replace (i - 1 + 1) with i by lia. }
    rewrite div2_bit in H2 by lia. split; [lia|].
    split; [by rewrite Z.add_comm|]. intros j Hj.
    destruct (Z.eq_dec j 0) as [->|]; [done|].
    specialize (H3 (j - 1) ltac:(lia)). rewrite div2_bit in H3 by lia.
    by replace (j - 1 + 1) with j in H3 by lia.
Qed.

(** A number below [2 ^ n] that is not zero has a set bit below [n]. *)
Lemma nonzero_bit n x :
  0 <= n -> 0 <= x < 2 ^ n -> x <> 0 -> exists i, 0 <= i < n /\ Z.testbit x i = true.
Proof.
  intros Hn Hx Hz. exists (Z.log2 x). split.
  - split; [apply Z.log2_nonneg|]. apply Z.log2_lt_pow2; lia.
  - apply Z.bit_log2. lia.
Qed.

(** The number of indices below [n] whose bit is set. *)
Fixpoint count_below (n : nat) (f : Z -> bool) : Z :=
  match n with
  | O => 0
  | S n => count_below n f + Z.b2z (f (Z.of_nat n))
  end.

Lemma count_below_ext n f g :
  (forall i, 0 <= i < Z.of_nat n -> f i = g i) -> count_below n f = count_below n g.
Proof.
  induction n as [|n IH]; intros H; [done|]. cbn [count_below].
  rewrite IH by (intros; apply H; lia). by rewrite H by lia.
Qed.

Lemma count_below_app (a b : nat) f :
  count_below (a + b) f = count_below a f + count_below b (fun i => f (Z.of_nat a + i)).
Proof.
  induction b as [|b IH]; [rewrite Nat.add_0_r; cbn; lia|].
  rewrite Nat.add_succ_r. cbn [count_below]. rewrite IH, Nat2Z.inj_add. lia.
Qed.

Lemma count_below_shift (n : nat) f :
  count_below (S n) f = Z.b2z (f 0) + count_below n (fun i => f (i + 1)).
Proof.
  change (S n) with (1 + n)%nat. rewrite count_below_app. cbn [count_below].
  change (Z.of_nat 0) with 0.
  rewrite (count_below_ext n _ (fun i => f (i + 1))); [lia|].
  intros. f_equal. lia.
Qed.

Lemma count_below_bounds n f : 0 <= count_below n f <= Z.of_nat n.
Proof. induction n as [|n IH]; cbn [count_below]; [lia|]. destruct (f _); cbn; lia. Qed.

Lemma popcount_count (n : nat) (x : Z) : popcount n x = count_below n (Z.testbit x).
Proof.
  revert x. induction n as [|n IH]; intros x; [done|].
  rewrite count_below_shift. cbn [popcount]. rewrite IH, odd_bit. f_equal.
  apply count_below_ext. intros. apply div2_bit. lia.
Qed.

(** Masking the low [k] bits of a 32-bit number. *)
Lemma land_high_mask x k :
  0 <= k <= 32 -> 0 <= x < 2 ^ 32 -> Z.land x (2 ^ 32 - 2 ^ k) = 2 ^ k * (x / 2 ^ k).
Proof.
  intros Hk Hx. replace (2 ^ 32 - 2 ^ k) with (Z.shiftl (Z.ones (32 - k)) k).
  2: { rewrite Z.shiftl_mul_pow2, Z.ones_equiv by lia.
       replace (2 ^ 32) with (2 ^ (32 - k) * 2 ^ k); [lia|].
       rewrite <- Z.pow_add_r by lia. f_equal. lia. }
  rewrite Z.mul_comm, <- Z.shiftr_div_pow2, <- Z.shiftl_mul_pow2 by lia.
  apply Z.bits_inj'. intros i Hi. rewrite Z.land_spec, !Z.shiftl_spec by done.
  destruct (Z.lt_ge_cases i k).
  - rewrite !(Z.testbit_neg_r _ (i - k)) by lia. apply andb_false_r.
  - rewrite Z.shiftr_spec by lia. replace (i - k + k) with i by lia.
    rewrite Z.testbit_ones_nonneg by lia.
    destruct (Z.ltb_spec (i - k) (32 - k)); [apply andb_true_r|].
    rewrite andb_false_r. symmetry.
    destruct (Z.eq_dec x 0) as [->|]; [apply Z.testbit_0_l|].
    apply Z.bits_above_log2; [lia|].
    assert (Z.log2 x < 32) by (apply Z.log2_lt_pow2; lia). lia.
Qed.

Lemma wrap_lnot_mask k :
  0 <= k <= 32 -> wrap U32 (Z.lnot (2 ^ k - 1)) = (2 ^ 32 - 2 ^ k) mod 2 ^ 32.
Proof.
  intros Hk. unfold wrap. cbn [tmin U32 bits is_signed]. rewrite Z.sub_0_r, Z.add_0_r.
  unfold Z.lnot. replace (Z.pred (- (2 ^ k - 1))) with (2 ^ 32 - 2 ^ k + (-1) * 2 ^ 32) by lia.
  apply Z.mod_add. lia.
Qed.

(** [round_up_to_power_of_two] of a number that stays below [2 ^ 32]. *)
Lemma round_up_pow2 v k :
  0 <= k < 32 -> 1 <= v -> v <= 2 ^ 32 - 2 ^ k ->
  round_up_to_power_of_two v (2 ^ k) = 2 ^ k * ((v + 2 ^ k - 1) / 2 ^ k).
Proof.
  intros Hk H1 H2. unfold round_up_to_power_of_two.
  assert (0 < 2 ^ k < 2 ^ 32) by (split; [apply Z.pow_pos_nonneg|apply Z.pow_lt_mono_r]; lia).
  rewrite wrap_lnot_mask, (Z.mod_small (2 ^ 32 - 2 ^ k)) by lia.
  rewrite (wrap_id U32 (v - 1)) by (done || (apply in_ty_spec; cbn; lia)).
  rewrite land_high_mask by lia.
  replace (v + 2 ^ k - 1) with (v - 1 + 1 * 2 ^ k) by lia. rewrite Z.div_add by lia.
  pose proof (Z.mul_div_le (v - 1) (2 ^ k) ltac:(lia)).
  assert (0 <= (v - 1) / 2 ^ k) by (apply Z.div_pos; lia).
  rewrite wrap_id; [lia|done|]. apply in_ty_spec. cbn. nia.
Qed.

(** The result is always a multiple of the power, even when it wraps around. *)
Lemma round_up_pow2_multiple v k :
  0 <= k < 32 -> round_up_to_power_of_two v (2 ^ k) mod 2 ^ k = 0 /\
  0 <= round_up_to_power_of_two v (2 ^ k) < 2 ^ 32.
Proof.
  intros Hk. unfold round_up_to_power_of_two.
  assert (0 < 2 ^ k < 2 ^ 32) by (split; [apply Z.pow_pos_nonneg|apply Z.pow_lt_mono_r]; lia).
  rewrite wrap_lnot_mask, (Z.mod_small (2 ^ 32 - 2 ^ k)) by lia.
  pose proof (wrap_in_ty U32 (v - 1) eq_refl) as [W1 W2]%in_ty_spec. cbn in W1, W2.
  rewrite land_high_mask by lia. set (q := wrap U32 (v - 1) / 2 ^ k).
  unfold wrap. cbn [tmin U32 bits is_signed]. rewrite Z.sub_0_r, Z.add_0_r.
  split; [|apply Z.mod_pos_bound; lia].
  replace (2 ^ 32) with (2 ^ (32 - k) * 2 ^ k) by (rewrite <- Z.pow_add_r by lia; f_equal; lia).
  replace (2 ^ k * q + 2 ^ k) with ((q + 1) * 2 ^ k) by lia.
  rewrite Z.mul_mod_distr_r by (apply Z.pow_nonzero || lia; lia).
  apply Z.mod_mul. lia.
Qed.

(** ** Rounding to pages *)

Lemma land_page_mask x : 0 <= x < 2 ^ 32 -> Z.land x 0xfffff000 = x - x mod PAGE_SIZE.
Proof.
  intros Hx. unfold PAGE_SIZE. replace (x - x mod 4096) with (2 ^ 12 * (x / 2 ^ 12))
    by (change (2 ^ 12) with 4096; Z.to_euclidean_division_equations; lia).
  rewrite <- Z.shiftr_div_pow2, Z.mul_comm, <- Z.shiftl_mul_pow2 by lia.
  apply Z.bits_inj'. intros n Hn. rewrite Z.land_spec, Z.shiftl_spec by done.
  replace 0xfffff000 with (Z.shiftl (Z.ones 20) 12) by reflexivity. rewrite Z.shiftl_spec by done.
  destruct (Z.lt_ge_cases n 12) as [H|H].
  - rewrite !(Z.testbit_neg_r _ (n - 12)) by lia. apply andb_false_r.
  - rewrite Z.shiftr_spec by lia. replace (n - 12 + 12) with n by lia.
    destruct (Z.lt_ge_cases n 32) as [H'|H'].
    + rewrite Z.ones_spec_low by lia. apply andb_true_r.
    + replace (Z.testbit x n) with false; [done|]. symmetry.
      destruct (Z.eq_dec x 0) as [->|]; [apply Z.testbit_0_l|].
      apply Z.bits_above_log2; [lia|]. assert (Z.log2 x < 32) by (apply Z.log2_lt_pow2; lia). lia.
Qed.

Lemma page_round_up_ok x :
  0 <= x <= 0xfffff000 -> page_round_up x = Ok (PAGE_SIZE * ((x + PAGE_SIZE - 1) / PAGE_SIZE)).
Proof.
  intros Hx. unfold page_round_up. change (wrap FlatPtr (Z.lnot (PAGE_SIZE - 1))) with 0xfffff000.
  rewrite wrap_id by (reflexivity || (apply in_ty_spec; unfold PAGE_SIZE; cbn; lia)).
  rewrite land_page_mask by (unfold PAGE_SIZE; lia).
  replace (x + PAGE_SIZE - 1 - (x + PAGE_SIZE - 1) mod PAGE_SIZE)
    with (PAGE_SIZE * ((x + PAGE_SIZE - 1) / PAGE_SIZE))
    by (unfold PAGE_SIZE; Z.to_euclidean_division_equations; lia).
  replace (_ || _) with true; [done|]. unfold PAGE_SIZE. Z.to_euclidean_division_equations. lia.
Qed.

Lemma page_round_up_aligned x : 0 <= x <= 0xfffff000 -> x mod PAGE_SIZE = 0 -> page_round_up x = Ok x.
Proof.
  intros Hx Ha. rewrite page_round_up_ok by done. f_equal.
  unfold PAGE_SIZE in *. Z.to_euclidean_division_equations. lia.
Qed.
