(* ===== verification/Bitmap.v ===== *)
(** * AK/BitmapView.h and AK/Bitmap.h: bitmaps over kernel memory

    A [BitmapView] is the address of its first byte and its number of bits; its
    methods read and write the memory.  This file holds everything but the
    searches for ranges of unset bits, which are in BitmapSearch.  [bit] is the
    abstract content: the theorems state each byte- and word-wise routine as an
    effect on, or a count of, single bits. *)

From S2P Require Import Prelude Memory.

Module BitmapView.

Record BitmapView := mkBitmapView { m_data : Z; m_size : Z }.

Definition size (v : BitmapView) : Z := m_size v.
Definition size_in_bytes (v : BitmapView) : res Z := ceil_div (m_size v) 8.

Definition get (m : memory) (v : BitmapView) (index : Z) : res bool :=
  VERIFY index <? m_size v ;;
  let* byte := load8 m (m_data v + index / 8) in
  Ok (negb (Z.land byte (Z.shiftl 1 (index mod 8)) =? 0)).

Definition set (m : memory) (v : BitmapView) (index : Z) (value : bool) : res memory :=
  VERIFY index <? m_size v ;;
  let* byte := load8 m (m_data v + index / 8) in
  let mask := Z.shiftl 1 (index mod 8) in
  store8 m (m_data v + index / 8)
    (if value then Z.lor byte mask else Z.land byte (wrap U8 (Z.lnot mask))).

Definition bitmask_first_byte : list Z := [0xFF; 0xFE; 0xFC; 0xF8; 0xF0; 0xE0; 0xC0; 0x80].
Definition bitmask_last_byte : list Z := [0x0; 0x1; 0x3; 0x7; 0xF; 0x1F; 0x3F; 0x7F].

(** The tables are indexed with a remainder modulo 8. *)
Definition mask_at (table : list Z) (i : Z) : Z := default 0 (table !! Z.to_nat i).

(** The loops that add [__builtin_popcount] of [n] bytes from [first] on. *)
Fixpoint count_bytes (n : nat) (m : memory) (first count : Z) : res Z :=
  match n with
  | O => Ok count
  | S n =>
      let* byte := load8 m first in
      count_bytes n m (first + 1) (count + popcount 32 byte)
  end.

(** The same over aligned words. *)
Fixpoint count_words (n : nat) (m : memory) (ptr32 count : Z) : res Z :=
  match n with
  | O => Ok count
  | S n =>
      let* word := load32 m ptr32 in
      count_words n m (ptr32 + 4) (count + popcount 32 word)
  end.

(** [(FlatPtr)p & ~(sizeof(u32) - 1)] *)
Definition align_down (p : Z) : Z := Z.land p 0xfffffffc.
Definition align_up (p : Z) : Z := Z.land (wrap FlatPtr (p + 4 - 1)) 0xfffffffc.

(** The bytes strictly between the first and the last one. *)
Definition count_middle (m : memory) (first last count : Z) : res Z :=
  let ptr32 := align_up first in
  let ptr32 := if last <? ptr32 then last else ptr32 in
  let* count := count_bytes (Z.to_nat (ptr32 - first)) m first count in
  let last32 := align_down last in
  let n := Z.to_nat ((last32 - ptr32) / 4) in
  let* count := count_words n m ptr32 count in
  let first := ptr32 + 4 * Z.of_nat n in
  count_bytes (Z.to_nat (last - first)) m first count.

Definition count_in_range (m : memory) (v : BitmapView) (start len : Z) (value : bool) : res Z :=
  VERIFY start <? m_size v ;;
  let end_bit := wrap size_t (start + len) in
  VERIFY end_bit <=? m_size v ;;
  if len =? 0 then Ok 0 else
  let first := m_data v + start / 8 in
  let last := m_data v + end_bit / 8 in
  let* byte := load8 m first in
  let byte := Z.land byte (mask_at bitmask_first_byte (start mod 8)) in
  let* count :=
    if first =? last then
      Ok (popcount 32 (Z.land byte (mask_at bitmask_last_byte (end_bit mod 8))))
    else
      let count := popcount 32 byte in
      let* byte := load8 m last in
      let byte := Z.land byte (mask_at bitmask_last_byte (end_bit mod 8)) in
      let count := count + popcount 32 byte in
      let first := first + 1 in
      if first <? last then count_middle m first last count else Ok count in
  Ok (if negb value then len - count else count).

Definition count_slow (m : memory) (v : BitmapView) (value : bool) : res Z :=
  count_in_range m v 0 (m_size v) value.

(** [set_range<VALUE, verify_that_all_bits_flip>]: the assertion on one byte and
    the update of one byte. *)
Definition check_mask (VALUE verify_that_all_bits_flip : bool) (byte byte_mask : Z) : bool :=
  if verify_that_all_bits_flip then
    if VALUE then Z.land byte byte_mask =? 0 else Z.land byte byte_mask =? byte_mask
  else true.

Definition apply_mask (VALUE : bool) (byte byte_mask : Z) : Z :=
  if VALUE then Z.lor byte byte_mask else Z.land byte (Z.lnot byte_mask).

Definition mask_byte (VALUE flip : bool) (m : memory) (p byte_mask : Z) : res memory :=
  let* byte := load8 m p in
  VERIFY check_mask VALUE flip byte byte_mask ;;
  store8 m p (apply_mask VALUE byte byte_mask).

Definition set_range (VALUE flip : bool) (m : memory) (v : BitmapView) (start len : Z) : res memory :=
  VERIFY start <? m_size v ;;
  let end_bit := wrap size_t (start + len) in
  VERIFY end_bit <=? m_size v ;;
  if len =? 0 then Ok m else
  let first := m_data v + start / 8 in
  let last := m_data v + end_bit / 8 in
  let byte_mask := mask_at bitmask_first_byte (start mod 8) in
  if first =? last then
    let byte_mask := Z.land byte_mask (mask_at bitmask_last_byte (end_bit mod 8)) in
    mask_byte VALUE flip m first byte_mask
  else
    let* m := mask_byte VALUE flip m first byte_mask in
    let byte_mask := mask_at bitmask_last_byte (end_bit mod 8) in
    let* m := mask_byte VALUE flip m last byte_mask in
    let first := first + 1 in
    if first <? last then memset m first (if VALUE then 0xFF else 0x0) (last - first) else Ok m.

Definition set_range_value (m : memory) (v : BitmapView) (start len : Z) (value : bool) : res memory :=
  if value then set_range true false m v start len else set_range false false m v start len.

Definition set_range_and_verify_that_all_bits_flip
    (m : memory) (v : BitmapView) (start len : Z) (value : bool) : res memory :=
  if value then set_range true true m v start len else set_range false true m v start len.

Definition fill (m : memory) (v : BitmapView) (value : bool) : res memory :=
  let* n := size_in_bytes v in
  memset m (m_data v) (if value then 0xff else 0x00) n.

(** [while (i < byte_count && m_data[i] == byte) i++;] with [n] turns left *)
Fixpoint skip_bytes (n : nat) (m : memory) (v : BitmapView) (i byte : Z) : res Z :=
  match n with
  | O => Ok i
  | S n =>
      let* b := load8 m (m_data v + i) in
      if b =? byte then skip_bytes n m v (i + 1) byte else Ok i
  end.

Fixpoint skip_words (n : nat) (m : memory) (ptr32 val32 : Z) : res Z :=
  match n with
  | O => Ok ptr32
  | S n =>
      let* w := load32 m ptr32 in
      if w =? val32 then skip_words n m (ptr32 + 4) val32 else Ok ptr32
  end.

(** The bit found in byte [i]; [~byte] is truncated to a [u8]. *)
Definition bit_of_byte (VALUE : bool) (m : memory) (v : BitmapView) (i : Z) : res Z :=
  let* byte := load8 m (m_data v + i) in
  let byte := if VALUE then byte else wrap U8 (Z.lnot byte) in
  VERIFY negb (byte =? 0) ;;
  Ok (i * 8 + ffs byte - 1).

Definition find_first (VALUE : bool) (m : memory) (v : BitmapView) : res (option Z) :=
  let byte_count := m_size v / 8 in
  let* i := skip_bytes (Z.to_nat byte_count) m v 0 (if VALUE then 0x00 else 0xff) in
  if i =? byte_count then Ok None
  else let* r := bit_of_byte VALUE m v i in Ok (Some r).

Definition find_first_set (m : memory) (v : BitmapView) := find_first true m v.
Definition find_first_unset (m : memory) (v : BitmapView) := find_first false m v.

(** One turn of the [for (;;)] of [find_one_anywhere], from the scan over words
    on: the result, or nothing when the loop continues from the start. *)
Definition scan_words (VALUE : bool) (m : memory) (v : BitmapView) (hint ptr32 end_ : Z)
    : res (option (option Z)) :=
  let val32 := if VALUE then 0x0 else 0xffffffff in
  let end32 := align_down end_ in
  let* ptr32 := skip_words (Z.to_nat ((end32 - ptr32) / 4)) m ptr32 val32 in
  if ptr32 =? end32 then
    let i := ptr32 - m_data v in
    let byte_count := m_size v / 8 in
    VERIFY i <=? byte_count ;;
    let* i := skip_bytes (Z.to_nat (byte_count - i)) m v i (if VALUE then 0x00 else 0xff) in
    if i =? byte_count then
      if hint <=? 8 then Ok (Some None) else Ok None
    else let* r := bit_of_byte VALUE m v i in Ok (Some (Some r))
  else
    let* val32 := load32 m ptr32 in
    let val32 := if VALUE then val32 else wrap U32 (Z.lnot val32) in
    VERIFY negb (val32 =? 0) ;;
    Ok (Some (Some ((ptr32 - m_data v) * 8 + ffs val32 - 1))).

(** The [for (;;)] with [fuel] turns. *)
Fixpoint find_one_loop (fuel : nat) (VALUE : bool) (m : memory) (v : BitmapView) (hint end_ : Z)
    : res (option Z) :=
  match fuel with
  | O => Fault OutOfFuel
  | S fuel =>
      let ptr32 := align_down (m_data v + hint / 8) in
      let* found :=
        if ptr32 <? m_data v then
          let ptr32 := ptr32 + 4 in
          let start_ptr32 := ptr32 - m_data v in
          let* i := skip_bytes (Z.to_nat start_ptr32) m v 0 (if VALUE then 0x00 else 0xff) in
          if i <? start_ptr32 then let* r := bit_of_byte VALUE m v i in Ok (Some (Some r))
          else scan_words VALUE m v hint ptr32 end_
        else scan_words VALUE m v hint ptr32 end_ in
      match found with
      | Some r => Ok r
      | None => find_one_loop fuel VALUE m v 0 (align_down (m_data v + hint / 8))
      end
  end.

Definition find_one_anywhere (fuel : nat) (VALUE : bool) (m : memory) (v : BitmapView) (hint : Z)
    : res (option Z) :=
  VERIFY hint <? m_size v ;;
  find_one_loop fuel VALUE m v hint (m_data v + m_size v / 8).

(** ** Abstract content *)

Definition bit (m : memory) (v : BitmapView) (i : Z) : bool :=
  Z.testbit (m_bytes m (m_data v + i / 8)) (i mod 8).

(** The number of bits of a range that have a value. *)
Definition count_spec (m : memory) (v : BitmapView) (start len : Z) (value : bool) : Z :=
  count_below (Z.to_nat len) (fun i => Bool.eqb (bit m v (start + i)) value).

(** Every access of the view's routines is defined: the [slack] is 1 for the
    routines that touch the byte of the bit after the last one. *)
Record view_ok (slack : Z) (m : memory) (v : BitmapView) : Prop := {
  ok_bytes : bytes_wf m;
  ok_size : 0 <= m_size v < 2 ^ 32;
  ok_data : 0 <= m_data v;
  ok_top : m_data v + m_size v / 8 + 8 < 2 ^ 32;
  ok_valid : forall i, 0 <= i < (m_size v + 7) / 8 + slack -> m_valid m (m_data v + i) = true;
}.

End BitmapView.

(** ** Lemmas *)

Module BitmapFacts.
Import BitmapView.

Lemma mod8_cases k :
  0 <= k < 8 -> k = 0 \/ k = 1 \/ k = 2 \/ k = 3 \/ k = 4 \/ k = 5 \/ k = 6 \/ k = 7.
Proof. lia. Qed.

(** The bits of a byte and of nothing above it. *)
Lemma byte_high x i : 0 <= x < 256 -> 8 <= i -> Z.testbit x i = false.
Proof.
  intros Hx Hi. destruct (Z.eq_dec x 0) as [->|]; [apply Z.testbit_0_l|].
  apply Z.bits_above_log2; [lia|].
  assert (Z.log2 x < 8) by (apply Z.log2_lt_pow2; lia). lia.
Qed.

Lemma byte_range x :
  (forall i, 8 <= i -> Z.testbit x i = false) -> 0 <= x -> 0 <= x < 256.
Proof.
  intros H Hx. split; [done|]. destruct (Z.eq_dec x 0); [lia|].
  change 256 with (2 ^ 8). apply Z.log2_lt_pow2; [lia|].
  destruct (Z.lt_ge_cases (Z.log2 x) 8) as [|Hl]; [done|].
  specialize (H _ Hl). rewrite Z.bit_log2 in H by lia. done.
Qed.

Lemma mask_first_range k : 0 <= k < 8 -> 0 <= mask_at bitmask_first_byte k < 256.
Proof. intros Hk%mod8_cases. destruct_or! Hk; subst k; split; vm_compute; done. Qed.

Lemma mask_last_range k : 0 <= k < 8 -> 0 <= mask_at bitmask_last_byte k < 256.
Proof. intros Hk%mod8_cases. destruct_or! Hk; subst k; split; vm_compute; done. Qed.

Lemma mask_first_bits k i :
  0 <= k < 8 -> 0 <= i < 8 -> Z.testbit (mask_at bitmask_first_byte k) i = (k <=? i).
Proof.
  intros Hk%mod8_cases Hi%mod8_cases.
  destruct_or! Hk; subst k; destruct_or! Hi; subst i; reflexivity.
Qed.

Lemma mask_last_bits k i :
  0 <= k < 8 -> 0 <= i < 8 -> Z.testbit (mask_at bitmask_last_byte k) i = (i <? k).
Proof.
  intros Hk%mod8_cases Hi%mod8_cases.
  destruct_or! Hk; subst k; destruct_or! Hi; subst i; reflexivity.
Qed.

Lemma land_range a b : 0 <= a < 256 -> 0 <= b -> 0 <= Z.land a b < 256.
Proof.
  intros Ha Hb. apply byte_range; [|apply Z.land_nonneg; lia].
  intros i Hi. by rewrite Z.land_spec, byte_high.
Qed.

Lemma apply_mask_bits V b mask i :
  0 <= i -> Z.testbit (apply_mask V b mask) i = if Z.testbit mask i then V else Z.testbit b i.
Proof.
  intros Hi. unfold apply_mask. destruct V.
  - rewrite Z.lor_spec. by destruct (Z.testbit b i), (Z.testbit mask i).
  - rewrite Z.land_spec, Z.lnot_spec by done. by destruct (Z.testbit b i), (Z.testbit mask i).
Qed.

Lemma apply_mask_range V b mask :
  0 <= b < 256 -> 0 <= mask < 256 -> 0 <= apply_mask V b mask < 256.
Proof.
  intros Hb Hm. apply byte_range.
  - intros i Hi. by rewrite apply_mask_bits, !byte_high by lia.
  - unfold apply_mask. destruct V; [apply Z.lor_nonneg; lia|apply Z.land_nonneg; lia].
Qed.

(** The assertion on a byte: every bit of the mask has the opposite value. *)
Lemma check_mask_spec V b mask :
  0 <= mask < 256 ->
  check_mask V true b mask = true <->
  forall i, 0 <= i < 8 -> Z.testbit mask i = true -> Z.testbit b i = negb V.
Proof.
  intros Hm. unfold check_mask. destruct V; rewrite Z.eqb_eq; split.
  - intros H i Hi Hb. apply (f_equal (fun x => Z.testbit x i)) in H.
    rewrite Z.land_spec, Hb, Z.testbit_0_l, andb_true_r in H. done.
  - intros H. apply Z.bits_inj'. intros i Hi. rewrite Z.land_spec, Z.testbit_0_l.
    destruct (Z.testbit mask i) eqn:E; [|apply andb_false_r].
    rewrite H; [done| |done]. destruct (Z.lt_ge_cases i 8); [lia|].
    by rewrite byte_high in E.
  - intros H i Hi Hb. apply (f_equal (fun x => Z.testbit x i)) in H.
    rewrite Z.land_spec, Hb, andb_true_r in H. done.
  - intros H. apply Z.bits_inj'. intros i Hi. rewrite Z.land_spec.
    destruct (Z.testbit mask i) eqn:E; [|apply andb_false_r].
    rewrite H; [done| |done]. destruct (Z.lt_ge_cases i 8); [lia|].
    by rewrite byte_high in E.
Qed.

Lemma mask_byte_ok V flip m p mask :
  bytes_wf m -> m_valid m p = true -> 0 <= mask < 256 ->
  mask_byte V flip m p mask =
  if check_mask V flip (m_bytes m p) mask
  then Ok (poke m p (apply_mask V (m_bytes m p) mask)) else Fault VerifyFailed.
Proof.
  intros Hw Hv Hm. unfold mask_byte. rewrite load8_ok by done. cbn [res_bind].
  destruct (check_mask _ _ _ _); [|done]. cbn [verify res_bind].
  apply store8_ok; [done|]. by apply apply_mask_range.
Qed.

(** The bits [P] selects get the value [V], the others stay. *)
Definition sets_bits (V : bool) (P : Z -> bool) (m : memory) (v : BitmapView) (m' : memory) : Prop :=
  m_valid m' = m_valid m /\ bytes_wf m' /\
  (forall i, 0 <= i -> bit m' v i = if P i then V else bit m v i).

(** One masked byte, as a step on bits. *)
Lemma mask_byte_bits V flip m v q mask (P : Z -> bool) :
  bytes_wf m -> 0 <= q -> m_valid m (m_data v + q) = true -> 0 <= mask < 256 ->
  (forall r, 0 <= r < 8 -> Z.testbit mask r = P r) ->
  (flip = true -> forall i, i / 8 = q -> P (i mod 8) = true -> bit m v i = negb V) ->
  exists m', mask_byte V flip m (m_data v + q) mask = Ok m' /\
    sets_bits V (fun i => (i / 8 =? q) && P (i mod 8)) m v m' /\
    (forall a, a <> m_data v + q -> m_bytes m' a = m_bytes m a).
Proof.
  intros Hw Hq Hv Hm HP Hf. rewrite mask_byte_ok by done.
  replace (check_mask _ _ _ _) with true.
  - eexists. split; [done|]. split; [split; [done|split]|].
    + apply poke_wf; [done|]. by apply apply_mask_range.
    + intros i Hi. unfold bit. rewrite poke_bytes. pose proof (Z.mod_pos_bound i 8 eq_refl).
      destruct (Z.eqb_spec (i / 8) q) as [<-|].
      * rewrite Z.eqb_refl, apply_mask_bits, HP by lia. done.
      * rewrite (proj2 (Z.eqb_neq _ _)) by lia. done.
    + intros a Ha. rewrite poke_bytes, (proj2 (Z.eqb_neq _ _)) by lia. done.
  - symmetry. destruct flip; [|done]. apply check_mask_spec; [done|].
    intros r Hr Hb. specialize (Hf eq_refl (q * 8 + r)). unfold bit in Hf.
    rewrite Z.div_add_l, (Z.div_small r), Z.add_0_r in Hf by lia.
    rewrite Z.add_comm, Z.mod_add, Z.mod_small in Hf by lia. apply Hf; [done|].
    by rewrite <- HP.
Qed.

(** The same byte when some selected bit already has the value. *)
Lemma mask_byte_fault V m v i mask :
  bytes_wf m -> 0 <= i -> m_valid m (m_data v + i / 8) = true -> 0 <= mask < 256 ->
  Z.testbit mask (i mod 8) = true -> bit m v i = V ->
  mask_byte V true m (m_data v + i / 8) mask = Fault VerifyFailed.
Proof.
  intros Hw Hi Hv Hm HP Hb. rewrite mask_byte_ok by done.
  destruct (check_mask _ _ _ _) eqn:E; [|done].
  pose proof (Z.mod_pos_bound i 8 eq_refl).
  pose proof (proj1 (check_mask_spec V _ mask Hm) E (i mod 8) ltac:(lia) HP) as E'.
  unfold bit in Hb. destruct V; cbn in E'; congruence.
Qed.

(** [memset] of whole bytes, as a step on bits. *)
Lemma memset_bits (V : bool) m v q n :
  bytes_wf m -> 0 <= q -> 0 <= n ->
  (forall a, m_data v + q <= a < m_data v + q + n -> m_valid m a = true) ->
  exists m', memset m (m_data v + q) (if V then 0xFF else 0x0) n = Ok m' /\
    sets_bits V (fun i => (q <=? i / 8) && (i / 8 <? q + n)) m v m' /\
    (forall a, a < m_data v + q \/ m_data v + q + n <= a -> m_bytes m' a = m_bytes m a).
Proof.
  intros Hw Hq Hn Hv.
  assert (0 <= (if V then 0xFF else 0x0) < 256) as HV by (destruct V; lia).
  destruct (memset_ok m (m_data v + q) _ n Hn HV Hv) as (m' & E & E' & Hb).
  exists m'. split; [done|]. split; [split; [done|split]|].
  - intros a. rewrite Hb. case_if; [done|apply Hw].
  - intros i Hi. unfold bit. rewrite Hb. pose proof (Z.mod_pos_bound i 8 eq_refl) as Hr.
    replace ((m_data v + q <=? m_data v + i / 8) && _)
      with ((q <=? i / 8) && (i / 8 <? q + n)) by lia.
    case_if; [|done]. destruct V; [|apply Z.testbit_0_l].
    apply mod8_cases in Hr. destruct_or! Hr; rewrite Hr; done.
  - intros a Ha. rewrite Hb. case_if; [lia|done].
Qed.

(** Steps compose by union. *)
Lemma sets_bits_trans V P Q m v m' m'' :
  sets_bits V P m v m' -> sets_bits V Q m' v m'' ->
  sets_bits V (fun i => P i || Q i) m v m''.
Proof.
  intros (E1 & W1 & B1) (E2 & W2 & B2). split; [congruence|]. split; [done|].
  intros i Hi. rewrite B2, B1 by done. by destruct (P i), (Q i).
Qed.

Lemma sets_bits_ext V P Q m v m' :
  (forall i, 0 <= i -> P i = Q i) -> sets_bits V P m v m' -> sets_bits V Q m v m'.
Proof.
  intros H (E & W & B). split; [done|]. split; [done|]. intros i Hi. by rewrite B, H.
Qed.

Definition in_range (start len i : Z) : bool := (start <=? i) && (i <? start + len).

(** The bits of a range the flip check looks at: those of its two end bytes. *)
Definition checked_bit (start len i : Z) : bool :=
  in_range start len i && ((i / 8 =? start / 8) || (i / 8 =? (start + len) / 8)).

Lemma wrap_end slack m v start len :
  view_ok slack m v -> 0 <= start -> 0 <= len -> start + len <= m_size v ->
  wrap size_t (start + len) = start + len.
Proof.
  intros Ok ? ? ?. apply wrap_id; [done|]. apply in_ty_spec. destruct Ok. cbn. lia.
Qed.

Lemma set_range_one V flip m v start len :
  view_ok 1 m v -> 0 <= start < m_size v -> 0 < len -> start + len <= m_size v ->
  start / 8 = (start + len) / 8 ->
  (flip = true -> forall i, checked_bit start len i = true -> bit m v i = negb V) ->
  exists m', mask_byte V flip m (m_data v + start / 8)
      (Z.land (mask_at bitmask_first_byte (start mod 8))
              (mask_at bitmask_last_byte ((start + len) mod 8))) = Ok m' /\
    sets_bits V (in_range start len) m v m' /\
    (forall a, a <> m_data v + start / 8 -> m_bytes m' a = m_bytes m a).
Proof.
  intros Ok Hs Hl He Hq Hf. destruct Ok as [Hw Hsz Hd Ht Hv].
  pose proof (Z.mod_pos_bound start 8 eq_refl). pose proof (Z.mod_pos_bound (start + len) 8 eq_refl).
  assert (forall i, (i / 8 =? start / 8) && ((start mod 8 <=? i mod 8) && (i mod 8 <? (start + len) mod 8))
                    = in_range start len i) as HP.
  { intros i. unfold in_range. Z.to_euclidean_division_equations. lia. }
  destruct (mask_byte_bits V flip m v (start / 8) (Z.land (mask_at bitmask_first_byte (start mod 8))
              (mask_at bitmask_last_byte ((start + len) mod 8)))
              (fun r => (start mod 8 <=? r) && (r <? (start + len) mod 8))) as (m' & E & S & F).
  - done.
  - apply Z.div_pos; lia.
  - apply Hv. Z.to_euclidean_division_equations. lia.
  - apply land_range; [by apply mask_first_range|]. by apply (mask_last_range ((start + len) mod 8)).
  - intros r Hr. by rewrite Z.land_spec, mask_first_bits, mask_last_bits.
  - intros Hflip i Hi Hp. apply Hf; [done|]. unfold checked_bit.
    rewrite <- HP, Hi, Hp, Z.eqb_refl. done.
  - exists m'. split; [done|]. split; [|done].
    eapply sets_bits_ext; [|exact S]. intros i _. apply HP.
Qed.

Lemma set_range_many V flip m v start len :
  view_ok 1 m v -> 0 <= start < m_size v -> 0 < len -> start + len <= m_size v ->
  start / 8 <> (start + len) / 8 ->
  (flip = true -> forall i, checked_bit start len i = true -> bit m v i = negb V) ->
  exists m1 m2,
    mask_byte V flip m (m_data v + start / 8) (mask_at bitmask_first_byte (start mod 8)) = Ok m1 /\
    mask_byte V flip m1 (m_data v + (start + len) / 8)
      (mask_at bitmask_last_byte ((start + len) mod 8)) = Ok m2 /\
    sets_bits V (checked_bit start len) m v m2 /\
    (forall a, a <> m_data v + start / 8 -> a <> m_data v + (start + len) / 8 ->
       m_bytes m2 a = m_bytes m a).
Proof.
  intros Ok Hs Hl He Hq Hf. destruct Ok as [Hw Hsz Hd Ht Hv].
  pose proof (Z.mod_pos_bound start 8 eq_refl). pose proof (Z.mod_pos_bound (start + len) 8 eq_refl).
  destruct (mask_byte_bits V flip m v (start / 8) (mask_at bitmask_first_byte (start mod 8))
              (fun r => start mod 8 <=? r)) as (m1 & E1 & S1 & F1).
  - done.
  - apply Z.div_pos; lia.
  - apply Hv. Z.to_euclidean_division_equations. lia.
  - by apply mask_first_range.
  - intros r Hr. by apply mask_first_bits.
  - intros Hflip i Hi Hp. apply Hf; [done|]. unfold checked_bit, in_range.
    Z.to_euclidean_division_equations. lia.
  - pose proof S1 as (V1 & W1 & B1).
    destruct (mask_byte_bits V flip m1 v ((start + len) / 8) (mask_at bitmask_last_byte ((start + len) mod 8))
                (fun r => r <? (start + len) mod 8)) as (m2 & E2 & S2 & F2).
    + done.
    + apply Z.div_pos; lia.
    + rewrite V1. apply Hv. Z.to_euclidean_division_equations. lia.
    + by apply mask_last_range.
    + intros r Hr. by apply mask_last_bits.
    + intros Hflip i Hi Hp. rewrite B1 by (Z.to_euclidean_division_equations; lia).
      rewrite (proj2 (Z.eqb_neq _ _)) by lia. apply Hf; [done|]. unfold checked_bit, in_range.
      Z.to_euclidean_division_equations. lia.
    + exists m1, m2. split; [done|]. split; [done|]. split.
      * eapply sets_bits_ext; [|by eapply sets_bits_trans]. intros i Hi. cbn.
        unfold checked_bit, in_range. Z.to_euclidean_division_equations. lia.
      * intros a Ha1 Ha2. by rewrite F2, F1.
Qed.

Lemma set_range_spec V flip m v start len :
  view_ok 1 m v -> 0 <= start < m_size v -> 0 < len -> start + len <= m_size v ->
  (flip = true -> forall i, checked_bit start len i = true -> bit m v i = negb V) ->
  exists m', set_range V flip m v start len = Ok m' /\
    sets_bits V (in_range start len) m v m' /\
    (forall a, a < m_data v + start / 8 \/ m_data v + (start + len) / 8 < a ->
       m_bytes m' a = m_bytes m a).
Proof.
  intros Ok Hs Hl He Hf. unfold set_range.
  rewrite (proj2 (Z.ltb_lt start _)) by lia. cbn [verify res_bind].
  rewrite (wrap_end 1 m v) by (done || lia).
  rewrite (proj2 (Z.leb_le (start + len) _)) by lia. cbn [verify res_bind].
  rewrite (proj2 (Z.eqb_neq len 0)) by lia.
  destruct (Z.eqb_spec (m_data v + start / 8) (m_data v + (start + len) / 8)) as [Hq|Hq].
  - destruct (set_range_one V flip m v start len) as (m' & E & S & F); try done; [lia|].
    exists m'. split; [done|]. split; [done|]. intros a Ha. apply F. lia.
  - destruct (set_range_many V flip m v start len) as (m1 & m2 & -> & E2 & S2 & F2); try done; [lia|].
    cbn [res_bind]. rewrite E2. cbn [res_bind].
    assert (start / 8 <= (start + len) / 8) by (apply Z.div_le_mono; lia).
    destruct (Z.ltb_spec (m_data v + start / 8 + 1) (m_data v + (start + len) / 8)).
    + destruct S2 as (V2 & W2 & B2). pose proof (Z.div_pos start 8).
      destruct (memset_bits V m2 v (start / 8 + 1) ((start + len) / 8 - (start / 8 + 1)))
        as (m3 & E3 & S3 & F3); [done|lia|lia| |].
      { intros a Ha. rewrite V2. destruct Ok as [_ _ _ _ Hv].
        replace a with (m_data v + (a - m_data v)) by lia. apply Hv.
        split; [lia|]. Z.to_euclidean_division_equations. lia. }
      exists m3. split.
      { rewrite <- E3. f_equal; lia. }
      split; [|intros a Ha; rewrite F3, F2 by lia; done].
      eapply sets_bits_ext; [|by eapply sets_bits_trans]. intros i Hi. cbn.
      unfold checked_bit, in_range. Z.to_euclidean_division_equations. lia.
    + exists m2. split; [done|]. split; [|intros a Ha; apply F2; lia].
      eapply sets_bits_ext; [|done]. intros i Hi. cbn.
      unfold checked_bit, in_range. Z.to_euclidean_division_equations. lia.
Qed.

(** *** Counting *)

(** Set bits with an index from [lo] up to [hi]. *)
Definition rng (m : memory) (v : BitmapView) (lo hi : Z) : Z :=
  count_below (Z.to_nat (hi - lo)) (fun i => bit m v (lo + i)).

Lemma rng_empty m v lo : rng m v lo lo = 0.
Proof. unfold rng. by rewrite Z.sub_diag. Qed.

Lemma rng_split m v lo mid hi :
  lo <= mid <= hi -> rng m v lo hi = rng m v lo mid + rng m v mid hi.
Proof.
  intros H. unfold rng.
  replace (Z.to_nat (hi - lo)) with (Z.to_nat (mid - lo) + Z.to_nat (hi - mid))%nat by lia.
  rewrite count_below_app. f_equal. apply count_below_ext.
  intros i Hi. f_equal. lia.
Qed.

Lemma count_below_false (n : nat) f :
  (forall i, 0 <= i < Z.of_nat n -> f i = false) -> count_below n f = 0.
Proof.
  induction n as [|n IH]; intros H; [done|]. cbn [count_below].
  rewrite IH, H by (intros; apply H || lia; lia). done.
Qed.

(** Counting below [n] what only holds in a window. *)
Lemma count_below_window (n k l : Z) f :
  0 <= k <= l -> l <= n -> (forall i, 0 <= i < k -> f i = false) ->
  (forall i, l <= i < n -> f i = false) ->
  count_below (Z.to_nat n) f = count_below (Z.to_nat (l - k)) (fun i => f (k + i)).
Proof.
  intros Hk Hl H1 H2.
  replace (Z.to_nat n) with (Z.to_nat k + (Z.to_nat (l - k) + Z.to_nat (n - l)))%nat by lia.
  rewrite !count_below_app. rewrite (count_below_false (Z.to_nat k)) by (intros; apply H1; lia).
  rewrite (count_below_false (Z.to_nat (n - l))) by (intros; apply H2; lia).
  rewrite Z2Nat.id by lia. lia.
Qed.

Lemma bit_at m v q r : 0 <= r < 8 -> bit m v (8 * q + r) = Z.testbit (m_bytes m (m_data v + q)) r.
Proof.
  intros Hr. unfold bit. rewrite Z.mul_comm, Z.div_add_l, (Z.div_small r), Z.add_0_r by lia.
  by rewrite (Z.add_comm (q * 8)), Z.mod_add, Z.mod_small by lia.
Qed.

Lemma popcount_masked m v q mask k l :
  bytes_wf m -> 0 <= mask < 256 -> 0 <= k <= l -> l <= 8 ->
  (forall r, 0 <= r < 8 -> Z.testbit mask r = (k <=? r) && (r <? l)) ->
  popcount 32 (Z.land (m_bytes m (m_data v + q)) mask) = rng m v (8 * q + k) (8 * q + l).
Proof.
  intros Hw Hm Hk Hl HP. rewrite popcount_count. change 32%nat with (Z.to_nat 32).
  unfold rng. replace (8 * q + l - (8 * q + k)) with (l - k) by lia.
  rewrite (count_below_window 32 k l).
  - apply count_below_ext. intros i Hi. rewrite <- Z.add_assoc, bit_at by lia.
    rewrite Z.land_spec, HP by lia.
    replace ((k <=? k + i) && (k + i <? l)) with true by lia. apply andb_true_r.
  - done.
  - lia.
  - intros i Hi. rewrite Z.land_spec, HP by lia.
    replace ((k <=? i) && (i <? l)) with false by lia. apply andb_false_r.
  - intros i Hi. rewrite Z.land_spec. destruct (Z.lt_ge_cases i 8).
    + rewrite HP by lia. replace ((k <=? i) && (i <? l)) with false by lia. apply andb_false_r.
    + rewrite (byte_high mask) by lia. apply andb_false_r.
Qed.

Lemma popcount_byte m v q :
  bytes_wf m -> popcount 32 (m_bytes m (m_data v + q)) = rng m v (8 * q) (8 * q + 8).
Proof.
  intros Hw. rewrite <- (Z.add_0_r (8 * q)) at 1.
  rewrite <- (popcount_masked m v q 255 0 8); try done.
  - f_equal. apply Z.bits_inj'. intros i Hi. rewrite Z.land_spec.
    destruct (Z.lt_ge_cases i 8).
    + assert (0 <= i < 8) as Hr%mod8_cases by lia.
      destruct_or! Hr; subst i; cbn; by rewrite andb_true_r.
    + by rewrite !byte_high by (done || apply Hw).
  - intros r Hr%mod8_cases. destruct_or! Hr; subst r; done.
Qed.

Lemma popcount_word m v q :
  bytes_wf m -> popcount 32 (word_at m (m_data v + q)) = rng m v (8 * q) (8 * q + 32).
Proof.
  intros Hw. rewrite popcount_count. unfold rng.
  replace (Z.to_nat (8 * q + 32 - 8 * q)) with 32%nat by lia.
  apply count_below_ext. intros i Hi. rewrite word_at_bits by (done || lia).
  unfold bit. rewrite Z.mul_comm, Z.div_add_l by lia.
  rewrite (Z.add_comm _ i), Z.mod_add by lia. by rewrite Z.add_assoc.
Qed.

Lemma count_bytes_spec n m v q c :
  bytes_wf m -> (forall i, q <= i < q + Z.of_nat n -> m_valid m (m_data v + i) = true) ->
  count_bytes n m (m_data v + q) c = Ok (c + rng m v (8 * q) (8 * (q + Z.of_nat n))).
Proof.
  intros Hw. revert q c. induction n as [|n IH]; intros q c Hv; cbn [count_bytes].
  - replace (8 * (q + Z.of_nat 0)) with (8 * q) by lia. rewrite rng_empty. f_equal. lia.
  - rewrite load8_ok by (apply Hv; lia). cbn [res_bind].
    rewrite <- Z.add_assoc, IH by (intros; apply Hv; lia).
    rewrite popcount_byte by done.
    rewrite (rng_split m v (8 * q) (8 * q + 8) (8 * (q + Z.of_nat (S n)))) by lia.
    replace (8 * (q + 1)) with (8 * q + 8) by lia. f_equal.
    replace (q + 1 + Z.of_nat n) with (q + Z.of_nat (S n)) by lia. lia.
Qed.

Lemma count_words_spec n m v q c :
  bytes_wf m -> (forall i, q <= i < q + 4 * Z.of_nat n -> m_valid m (m_data v + i) = true) ->
  count_words n m (m_data v + q) c = Ok (c + rng m v (8 * q) (8 * (q + 4 * Z.of_nat n))).
Proof.
  intros Hw. revert q c. induction n as [|n IH]; intros q c Hv; cbn [count_words].
  - replace (8 * (q + 4 * Z.of_nat 0)) with (8 * q) by lia. rewrite rng_empty. f_equal. lia.
  - unfold load32, valid32. rewrite <- !Z.add_assoc, !Hv by lia. cbn [andb defined res_bind].
    rewrite IH by (intros; apply Hv; lia).
    rewrite popcount_word by done.
    rewrite (rng_split m v (8 * q) (8 * q + 32) (8 * (q + 4 * Z.of_nat (S n)))) by lia.
    replace (8 * (q + 4)) with (8 * q + 32) by lia. f_equal.
    replace (q + 4 + 4 * Z.of_nat n) with (q + 4 * Z.of_nat (S n)) by lia. lia.
Qed.

Lemma align_down_spec p : 0 <= p < 2 ^ 32 -> align_down p = 4 * (p / 4).
Proof.
  intros Hp. unfold align_down. change 0xfffffffc with (Z.shiftl (Z.ones 30) 2).
  rewrite Z.mul_comm. change 4 with (2 ^ 2). rewrite <- Z.shiftr_div_pow2, <- Z.shiftl_mul_pow2 by lia.
  apply Z.bits_inj'. intros i Hi.
  rewrite Z.land_spec, !Z.shiftl_spec by done.
  destruct (Z.lt_ge_cases i 2).
  - rewrite !(Z.testbit_neg_r _ (i - 2)) by lia. apply andb_false_r.
  - rewrite Z.shiftr_spec by lia. replace (i - 2 + 2) with i by lia.
    rewrite Z.testbit_ones_nonneg by lia.
    destruct (Z.ltb_spec (i - 2) 30); [apply andb_true_r|].
    rewrite andb_false_r. symmetry.
    destruct (Z.eq_dec p 0) as [->|]; [apply Z.testbit_0_l|].
    apply Z.bits_above_log2; [lia|].
    assert (Z.log2 p < 32) by (apply Z.log2_lt_pow2; lia). lia.
Qed.

Lemma align_up_spec p : 0 <= p -> p + 3 < 2 ^ 32 -> align_up p = 4 * ((p + 3) / 4).
Proof.
  intros Hp Hb. unfold align_up. rewrite wrap_id.
  - replace (p + 4 - 1) with (p + 3) by lia. apply align_down_spec. lia.
  - done.
  - apply in_ty_spec. cbn. lia.
Qed.

Lemma count_middle_spec m v q0 q1 c :
  view_ok 1 m v -> 0 <= q0 <= q1 -> q1 <= m_size v / 8 ->
  count_middle m (m_data v + q0) (m_data v + q1) c = Ok (c + rng m v (8 * q0) (8 * q1)).
Proof.
  intros [Hw Hsz Hd Ht Hv] Hq Hq1. unfold count_middle.
  rewrite align_up_spec, align_down_spec by lia.
  assert (forall i, q0 <= i < q1 -> m_valid m (m_data v + i) = true) as Hv'.
  { intros i Hi. apply Hv. Z.to_euclidean_division_equations. lia. }
  set (up := 4 * ((m_data v + q0 + 3) / 4)).
  set (p := if m_data v + q1 <? up then m_data v + q1 else up).
  set (dn := 4 * ((m_data v + q1) / 4)).
  assert (m_data v + q0 <= p <= m_data v + q1) as Hp.
  { unfold p, up. case_if; Z.to_euclidean_division_equations; lia. }
  set (n := Z.to_nat ((dn - p) / 4)).
  assert (0 <= p - m_data v + 4 * Z.of_nat n <= q1) as Hn.
  { unfold n. unfold p, up, dn in *. case_if; Z.to_euclidean_division_equations; lia. }
  clearbody n. clearbody p. assert (exists p', p = m_data v + p') as [p' ->]
    by (exists (p - m_data v); lia).
  rewrite count_bytes_spec by (intros; (done || (apply Hv'; lia))). cbn [res_bind].
  replace (q0 + Z.of_nat (Z.to_nat (m_data v + p' - (m_data v + q0)))) with p' by lia.
  rewrite count_words_spec by (intros; (done || (apply Hv'; lia))). cbn [res_bind].
  rewrite <- (Z.add_assoc (m_data v) p').
  rewrite count_bytes_spec by (intros; (done || (apply Hv'; lia))).
  replace (p' + 4 * Z.of_nat n + Z.of_nat (Z.to_nat (m_data v + q1 - (m_data v + (p' + 4 * Z.of_nat n)))))
    with q1 by lia.
  rewrite (rng_split m v (8 * q0) (8 * p') (8 * q1)) by lia.
  rewrite (rng_split m v (8 * p') (8 * (p' + 4 * Z.of_nat n)) (8 * q1)) by lia.
  f_equal. lia.
Qed.

(** Set bits of a range in terms of the bytes it touches. *)
Lemma count_set_spec m v start len :
  0 <= len -> count_spec m v start len true = rng m v start (start + len).
Proof.
  intros. unfold count_spec, rng. replace (start + len - start) with len by lia.
  apply count_below_ext. intros i _. by destruct (bit m v (start + i)).
Qed.

Lemma count_unset_spec m v start len :
  0 <= len -> count_spec m v start len false = len - rng m v start (start + len).
Proof.
  intros H. unfold count_spec, rng. replace (start + len - start) with len by lia.
  rewrite <- (Z2Nat.id len) at 2 by done.
  induction (Z.to_nat len) as [|n IH]; [done|]. cbn [count_below]. rewrite IH, Nat2Z.inj_succ.
  destruct (bit m v _); cbn; lia.
Qed.

Lemma count_in_range_spec m v start len value :
  view_ok 1 m v -> 0 <= start < m_size v -> 0 <= len -> start + len <= m_size v ->
  count_in_range m v start len value = Ok (count_spec m v start len value).
Proof.
  intros Hok Hs Hl He. unfold count_in_range.
  rewrite (proj2 (Z.ltb_lt start _)) by lia. cbn [verify res_bind].
  rewrite (wrap_end 1 m v) by (done || lia).
  rewrite (proj2 (Z.leb_le (start + len) _)) by lia. cbn [verify res_bind].
  destruct (Z.eqb_spec len 0) as [->|Hl0]; [by destruct value|].
  assert (forall c, c = Ok (rng m v start (start + len)) ->
    (let* count := c in Ok (if negb value then len - count else count))
    = Ok (count_spec m v start len value)) as Hfin.
  { intros c ->. cbn [res_bind]. by destruct value;
      rewrite ?count_set_spec, ?count_unset_spec by done. }
  pose proof Hok as [Hw Hsz Hd Ht Hv].
  pose proof (Z.mod_pos_bound start 8 eq_refl). pose proof (Z.mod_pos_bound (start + len) 8 eq_refl).
  rewrite !load8_ok by (apply Hv; Z.to_euclidean_division_equations; lia).
  cbn [res_bind]. apply Hfin. clear Hfin.
  pose proof (Z.div_mod start 8 ltac:(lia)) as Es.
  pose proof (Z.div_mod (start + len) 8 ltac:(lia)) as Ee.
  assert (start / 8 <= (start + len) / 8) by (apply Z.div_le_mono; lia).
  assert ((start + len) / 8 <= m_size v / 8) by (apply Z.div_le_mono; lia).
  assert (0 <= start / 8) by (apply Z.div_pos; lia).
  pose proof (mask_first_range (start mod 8)). pose proof (mask_last_range ((start + len) mod 8)).
  destruct (Z.eqb_spec (m_data v + start / 8) (m_data v + (start + len) / 8)) as [Hq|Hq].
  - f_equal. rewrite <- Z.land_assoc.
    rewrite (popcount_masked m v _ _ (start mod 8) ((start + len) mod 8)); try lia; try done.
    + f_equal; lia.
    + apply land_range; lia.
    + intros r Hr. by rewrite Z.land_spec, mask_first_bits, mask_last_bits by lia.
  - rewrite (popcount_masked m v _ _ (start mod 8) 8); try lia; try done.
    2: { intros r Hr. rewrite mask_first_bits by lia. lia. }
    rewrite (popcount_masked m v _ _ 0 ((start + len) mod 8)); try lia; try done.
    2: { intros r Hr. rewrite mask_last_bits by lia. lia. }
    replace (8 * ((start + len) / 8) + 0) with (8 * ((start + len) / 8)) by lia.
    rewrite <- Es, <- Ee.
    rewrite (rng_split m v start (8 * (start / 8) + 8) (start + len)) by lia.
    rewrite (rng_split m v (8 * (start / 8) + 8) (8 * ((start + len) / 8)) (start + len)) by lia.
    case_if.
    + rewrite <- Z.add_assoc, (count_middle_spec m v (start / 8 + 1)) by (done || lia).
      replace (8 * (start / 8 + 1)) with (8 * (start / 8) + 8) by lia. f_equal. lia.
    + replace (8 * ((start + len) / 8)) with (8 * (start / 8) + 8) by lia.
      rewrite rng_empty. done.
Qed.

(** *** Single bits *)

Lemma test_mask b r : 0 <= r -> negb (Z.land b (Z.shiftl 1 r) =? 0) = Z.testbit b r.
Proof.
  intros Hr. rewrite Z.shiftl_1_l. destruct (Z.testbit b r) eqn:E.
  - apply negb_true_iff, Z.eqb_neq. intros H0. apply (f_equal (fun x => Z.testbit x r)) in H0.
    rewrite Z.land_spec, E, Z.pow2_bits_true, Z.testbit_0_l in H0 by done. done.
  - apply negb_false_iff, Z.eqb_eq. apply Z.bits_inj'. intros i Hi.
    rewrite Z.land_spec, Z.pow2_bits_eqb, Z.testbit_0_l by done.
    destruct (Z.eqb_spec r i) as [->|]; [by rewrite E|apply andb_false_r].
Qed.

Lemma byte_index slack m v i :
  view_ok slack m v -> 0 <= slack -> 0 <= i < m_size v -> m_valid m (m_data v + i / 8) = true.
Proof. intros [_ _ _ _ Hv] Hs Hi. apply Hv. Z.to_euclidean_division_equations. lia. Qed.

Lemma get_spec slack m v i :
  view_ok slack m v -> 0 <= slack -> 0 <= i < m_size v -> get m v i = Ok (bit m v i).
Proof.
  intros Hok Hs Hi. unfold get. rewrite (proj2 (Z.ltb_lt _ _)) by lia.
  cbn [verify res_bind]. rewrite load8_ok by (by eapply byte_index). cbn [res_bind].
  rewrite test_mask by (apply Z.mod_pos_bound; lia). done.
Qed.

Lemma set_spec slack m v i value :
  view_ok slack m v -> 0 <= slack -> 0 <= i < m_size v ->
  exists m', set m v i value = Ok m' /\ sets_bits value (fun j => j =? i) m v m' /\
    (forall a, a <> m_data v + i / 8 -> m_bytes m' a = m_bytes m a).
Proof.
  intros Hok Hs Hi. unfold set. rewrite (proj2 (Z.ltb_lt _ _)) by lia.
  cbn [verify res_bind]. rewrite load8_ok by (by eapply byte_index). cbn [res_bind].
  pose proof (Z.mod_pos_bound i 8 eq_refl) as Hr. destruct Hok as [Hw Hsz Hd Ht Hv].
  assert (0 <= Z.shiftl 1 (i mod 8) < 256) as Hm.
  { apply mod8_cases in Hr. destruct_or! Hr; rewrite Hr; split; vm_compute; done. }
  assert ((if value then Z.lor (m_bytes m (m_data v + i / 8)) (Z.shiftl 1 (i mod 8))
           else Z.land (m_bytes m (m_data v + i / 8)) (wrap U8 (Z.lnot (Z.shiftl 1 (i mod 8)))))
    = apply_mask value (m_bytes m (m_data v + i / 8)) (Z.shiftl 1 (i mod 8))) as ->.
  { destruct value; [done|]. unfold apply_mask.
    apply Z.bits_inj'. intros j Hj. rewrite !Z.land_spec. unfold wrap. cbn [tmin U8 is_signed bits].
    rewrite Z.sub_0_r, Z.add_0_r. destruct (Z.lt_ge_cases j 8).
    - by rewrite Z.mod_pow2_bits_low by lia.
    - by rewrite byte_high by (apply Hw || lia). }
  destruct (mask_byte_bits value false m v (i / 8) (Z.shiftl 1 (i mod 8)) (fun r => r =? i mod 8))
    as (m' & E & S & F); try done.
  - apply Z.div_pos; lia.
  - apply Hv. Z.to_euclidean_division_equations. lia.
  - intros r Hr'. rewrite Z.shiftl_1_l, Z.pow2_bits_eqb by lia. lia.
  - exists m'. split; [|split; [|done]].
    + rewrite <- E. unfold mask_byte. rewrite load8_ok; [done|].
      apply Hv. Z.to_euclidean_division_equations. lia.
    + eapply sets_bits_ext; [|done]. intros j Hj. cbn.
      Z.to_euclidean_division_equations. lia.
Qed.

(** *** Searches for one bit *)

Lemma skip_bytes_spec n m v i byte :
  (forall k, i <= k < i + Z.of_nat n -> m_valid m (m_data v + k) = true) ->
  exists j, skip_bytes n m v i byte = Ok j /\ i <= j <= i + Z.of_nat n /\
    (forall k, i <= k < j -> m_bytes m (m_data v + k) = byte) /\
    (j < i + Z.of_nat n -> m_bytes m (m_data v + j) <> byte).
Proof.
  revert i. induction n as [|n IH]; intros i Hv; cbn [skip_bytes].
  - exists i. split; [done|]. split; [lia|]. split; intros; lia.
  - rewrite load8_ok by (apply Hv; lia). cbn [res_bind].
    destruct (Z.eqb_spec (m_bytes m (m_data v + i)) byte) as [E|E].
    + destruct (IH (i + 1)) as (j & -> & Hj & H1 & H2); [intros; apply Hv; lia|].
      exists j. split; [done|]. split; [lia|]. split; [|intros; apply H2; lia].
      intros k Hk. destruct (Z.eq_dec k i) as [->|]; [done|]. apply H1. lia.
    + exists i. split; [done|]. split; [lia|]. split; [intros; lia|done].
Qed.

Lemma skip_words_spec n m p val32 :
  (forall k, p <= k < p + 4 * Z.of_nat n -> m_valid m k = true) ->
  exists j : nat, skip_words n m p val32 = Ok (p + 4 * Z.of_nat j) /\ (j <= n)%nat /\
    (forall k, 0 <= k < Z.of_nat j -> word_at m (p + 4 * k) = val32) /\
    ((j < n)%nat -> word_at m (p + 4 * Z.of_nat j) <> val32).
Proof.
  revert p. induction n as [|n IH]; intros p Hv; cbn [skip_words].
  - exists O. split; [f_equal; lia|]. split; [lia|]. split; intros; lia.
  - unfold load32, valid32. rewrite !Hv by lia. cbn [andb defined res_bind].
    destruct (Z.eqb_spec (word_at m p) val32) as [E|E].
    + destruct (IH (p + 4)) as (j & -> & Hj & H1 & H2); [intros; apply Hv; lia|].
      exists (S j). split; [f_equal; lia|]. split; [lia|]. split.
      * intros k Hk. destruct (Z.eq_dec k 0) as [->|]; [by rewrite Z.mul_0_r, Z.add_0_r|].
        replace (p + 4 * k) with (p + 4 + 4 * (k - 1)) by lia. apply H1. lia.
      * intros Hlt. replace (p + 4 * Z.of_nat (S j)) with (p + 4 + 4 * Z.of_nat j) by lia.
        apply H2. lia.
    + exists O. split; [f_equal; lia|]. split; [lia|]. split; [intros; lia|].
      intros _. by rewrite Z.mul_0_r, Z.add_0_r.
Qed.

(** [x] or its complement within [n] bits: the bits that have the value [V]. *)
Definition selected (n : Z) (V : bool) (x : Z) : Z := if V then x else (Z.lnot x) mod 2 ^ n.

Lemma selected_bits n V x i :
  0 <= i < n -> Z.testbit (selected n V x) i = Bool.eqb (Z.testbit x i) V.
Proof.
  intros Hi. unfold selected. destruct V.
  - by destruct (Z.testbit x i).
  - rewrite Z.mod_pow2_bits_low, Z.lnot_spec by lia. by destruct (Z.testbit x i).
Qed.

Lemma selected_range n V x : 0 <= n -> 0 <= x < 2 ^ n -> 0 <= selected n V x < 2 ^ n.
Proof. intros Hn Hx. unfold selected. destruct V; [done|]. apply Z.mod_pos_bound. lia. Qed.

Lemma selected_zero n (V : bool) x :
  0 <= n -> 0 <= x < 2 ^ n -> x <> (if V then 0 else 2 ^ n - 1) -> selected n V x <> 0.
Proof.
  intros Hn Hx H. unfold selected. destruct V; [done|].
  unfold Z.lnot. replace (Z.pred (- x)) with (2 ^ n - 1 - x + (-1) * 2 ^ n) by lia.
  rewrite Z.mod_add, Z.mod_small by lia. lia.
Qed.

(** [ffs] of the selected bits. *)
Lemma ffs_selected (n : Z) (V : bool) x :
  0 <= n <= 32 -> 0 <= x < 2 ^ n -> x <> (if V then 0 else 2 ^ n - 1) ->
  exists r, 0 <= r < n /\ ffs (selected n V x) = r + 1 /\ Z.testbit x r = V /\
    forall i, 0 <= i < r -> Z.testbit x i = negb V.
Proof.
  intros Hn Hx Hne. pose proof (selected_zero n V x ltac:(lia) Hx Hne) as Hz.
  pose proof (selected_range n V x ltac:(lia) Hx) as Hr.
  destruct (nonzero_bit n _ ltac:(lia) Hr Hz) as (k & Hk & Hb).
  destruct (lowest_bit_spec 32 (selected n V x)) as (H1 & H2 & H3).
  { exists k. split; [lia|done]. }
  assert (lowest_bit 32 (selected n V x) <= k).
  { destruct (Z.le_gt_cases (lowest_bit 32 (selected n V x)) k); [done|].
    rewrite H3 in Hb by lia. done. }
  exists (lowest_bit 32 (selected n V x)). split; [lia|]. split.
  { unfold ffs. by rewrite (proj2 (Z.eqb_neq _ _) Hz). }
  rewrite selected_bits in H2 by lia. split; [by apply eqb_prop|].
  intros i Hi. specialize (H3 i Hi). rewrite selected_bits in H3 by lia.
  by destruct V, (Z.testbit x i).
Qed.

Lemma bit_of_byte_spec (V : bool) m v i :
  bytes_wf m -> m_valid m (m_data v + i) = true ->
  m_bytes m (m_data v + i) <> (if V then 0x00 else 0xff) ->
  exists r, 0 <= r < 8 /\ bit_of_byte V m v i = Ok (8 * i + r) /\ bit m v (8 * i + r) = V /\
    forall k, 0 <= k < r -> bit m v (8 * i + k) = negb V.
Proof.
  intros Hw Hv Hne. pose proof (Hw (m_data v + i)) as Hx. unfold bit_of_byte.
  rewrite load8_ok by done. cbn [res_bind].
  replace (if V then m_bytes m (m_data v + i) else wrap U8 (Z.lnot (m_bytes m (m_data v + i))))
    with (selected 8 V (m_bytes m (m_data v + i))).
  2: { destruct V; [done|]. unfold wrap. cbn [tmin U8 is_signed bits].
       by rewrite Z.sub_0_r, Z.add_0_r. }
  destruct (ffs_selected 8 V (m_bytes m (m_data v + i))) as (r & Hr & Hf & Hb & Hmin); try done.
  rewrite (proj2 (Z.eqb_neq _ _)) by (by apply selected_zero). cbn [negb verify res_bind].
  exists r. split; [done|]. split; [f_equal; lia|]. split; [by rewrite bit_at|].
  intros k Hk. rewrite bit_at by lia. by apply Hmin.
Qed.

(** A byte, or a word, whose bits all have the other value. *)
Lemma uniform_byte (V : bool) m v i :
  m_bytes m (m_data v + i / 8) = (if V then 0x00 else 0xff) -> bit m v i = negb V.
Proof.
  intros H. unfold bit. rewrite H. destruct V; [apply Z.testbit_0_l|].
  pose proof (Z.mod_pos_bound i 8 eq_refl) as Hr%mod8_cases. destruct_or! Hr; by rewrite Hr.
Qed.

Lemma bit_word m v k i :
  bytes_wf m -> 0 <= i < 32 -> bit m v (32 * k + i) = Z.testbit (word_at m (m_data v + 4 * k)) i.
Proof.
  intros Hw Hi. rewrite word_at_bits by done. unfold bit.
  replace (32 * k + i) with (i + (4 * k) * 8) by lia.
  rewrite Z.mod_add, Z.div_add by lia. f_equal. f_equal. lia.
Qed.

Lemma uniform_word (V : bool) m v k i :
  bytes_wf m -> word_at m (m_data v + 4 * k) = (if V then 0x0 else 0xffffffff) ->
  32 * k <= i < 32 * k + 32 -> bit m v i = negb V.
Proof.
  intros Hw H Hi. replace i with (32 * k + (i - 32 * k)) by lia.
  rewrite bit_word, H by (done || lia). destruct V; [apply Z.testbit_0_l|].
  change 0xffffffff with (Z.ones 32). apply Z.ones_spec_low. lia.
Qed.

Lemma find_first_spec V m v :
  view_ok 0 m v ->
  exists o, find_first V m v = Ok o /\
    match o with
    | Some r => 0 <= r < 8 * (m_size v / 8) /\ bit m v r = V /\
                forall i, 0 <= i < r -> bit m v i = negb V
    | None => forall i, 0 <= i < 8 * (m_size v / 8) -> bit m v i = negb V
    end.
Proof.
  intros [Hw Hsz Hd Ht Hv]. unfold find_first.
  assert (0 <= m_size v / 8) by (apply Z.div_pos; lia).
  assert (forall k, 0 <= k < m_size v / 8 -> m_valid m (m_data v + k) = true) as Hv'.
  { intros k Hk. apply Hv. Z.to_euclidean_division_equations. lia. }
  destruct (skip_bytes_spec (Z.to_nat (m_size v / 8)) m v 0 (if V then 0x00 else 0xff))
    as (j & -> & Hj & H1 & H2); [intros; apply Hv'; lia|].
  rewrite Z2Nat.id in * by lia. cbn [res_bind].
  assert (forall i, 0 <= i < 8 * j -> bit m v i = negb V) as Hpre.
  { intros i Hi. apply uniform_byte, H1. Z.to_euclidean_division_equations. lia. }
  case_if; [exists None; split; [done|]; subst j; done|].
  destruct (bit_of_byte_spec V m v j Hw) as (r & Hr & -> & Hb & Hmin);
    [apply Hv'; lia|apply H2; lia|].
  exists (Some (8 * j + r)). split; [done|]. split; [lia|]. split; [done|].
  intros i Hi. destruct (Z.lt_ge_cases i (8 * j)); [apply Hpre; lia|].
  replace i with (8 * j + (i - 8 * j)) by lia. apply Hmin. lia.
Qed.

(** One turn of the search from the aligned byte [4 * k0]. *)
Lemma scan_words_spec V m v hint k0 e :
  view_ok 0 m v -> m_data v mod 4 = 0 -> 0 <= k0 -> 4 * k0 <= e <= m_size v / 8 ->
  exists o, scan_words V m v hint (m_data v + 4 * k0) (m_data v + e) = Ok o /\
    match o with
    | Some (Some r) => 0 <= r < 8 * (m_size v / 8) /\ bit m v r = V
    | Some None => hint <= 8 /\ forall i, 32 * k0 <= i < 8 * (m_size v / 8) -> bit m v i = negb V
    | None => 8 < hint
    end.
Proof.
  intros [Hw Hsz Hd Ht Hv] Ha Hk0 He. unfold scan_words.
  assert (forall k, 0 <= k < m_size v / 8 -> m_valid m (m_data v + k) = true) as Hv'.
  { intros k Hk. apply Hv. Z.to_euclidean_division_equations. lia. }
  rewrite align_down_spec by lia.
  replace (4 * ((m_data v + e) / 4)) with (m_data v + 4 * (e / 4))
    by (Z.to_euclidean_division_equations; lia).
  replace ((m_data v + 4 * (e / 4) - (m_data v + 4 * k0)) / 4) with (e / 4 - k0)
    by (Z.to_euclidean_division_equations; lia).
  assert (k0 <= e / 4) by (apply Z.div_le_lower_bound; lia).
  destruct (skip_words_spec (Z.to_nat (e / 4 - k0)) m (m_data v + 4 * k0)
              (if V then 0x0 else 0xffffffff)) as (j & -> & Hj & H1 & H2).
  { intros k Hk. replace k with (m_data v + (k - m_data v)) by lia. apply Hv'.
    Z.to_euclidean_division_equations. lia. }
  cbn [res_bind].
  assert (forall i, 32 * k0 <= i < 32 * (k0 + Z.of_nat j) -> bit m v i = negb V) as Hpre.
  { intros i Hi. apply (uniform_word V m v (i / 32)); [done| |Z.to_euclidean_division_equations; lia].
    rewrite <- (H1 (i / 32 - k0)) by (Z.to_euclidean_division_equations; lia). f_equal. lia. }
  destruct (Z.eqb_spec (m_data v + 4 * k0 + 4 * Z.of_nat j) (m_data v + 4 * (e / 4))) as [Ej|Ej].
  - assert (4 * (e / 4) <= m_size v / 8) by (Z.to_euclidean_division_equations; lia).
    replace (m_data v + 4 * k0 + 4 * Z.of_nat j - m_data v) with (4 * (e / 4)) by lia.
    rewrite (proj2 (Z.leb_le _ _)) by lia. cbn [verify res_bind].
    destruct (skip_bytes_spec (Z.to_nat (m_size v / 8 - 4 * (e / 4))) m v (4 * (e / 4))
                (if V then 0x00 else 0xff)) as (b & -> & Hb & H3 & H4); [intros; apply Hv'; lia|].
    rewrite Z2Nat.id in * by lia. cbn [res_bind]. case_if.
    + case_if; (eexists; split; [done|]; cbn beta iota); [|lia]. split; [done|].
      intros i Hi. destruct (Z.lt_ge_cases i (32 * (e / 4))); [apply Hpre; lia|].
      apply uniform_byte, H3. Z.to_euclidean_division_equations. lia.
    + destruct (bit_of_byte_spec V m v b Hw) as (r & Hr & -> & Hbit & _);
        [apply Hv'; lia|apply H4; lia|].
      eexists. split; [done|]. cbn beta iota. split; [lia|done].
  - assert (j < Z.to_nat (e / 4 - k0))%nat as Hlt by lia. specialize (H2 Hlt).
    unfold load32, valid32. rewrite <- !Z.add_assoc, !Hv' by (Z.to_euclidean_division_equations; lia).
    cbn [andb defined res_bind].
    set (w := word_at m (m_data v + (4 * k0 + 4 * Z.of_nat j))).
    assert (0 <= w < 2 ^ 32) as Hwr by (apply word_at_bounds; done).
    replace (if V then w else wrap U32 (Z.lnot w)) with (selected 32 V w).
    2: { destruct V; [done|]. unfold wrap. cbn [tmin U32 is_signed bits].
         by rewrite Z.sub_0_r, Z.add_0_r. }
    assert (w <> (if V then 0 else 2 ^ 32 - 1)) as Hne.
    { unfold w. rewrite Z.add_assoc. by destruct V. }
    destruct (ffs_selected 32 V w) as (r & Hr & Hf & Hbit & _); [lia|done|done|].
    rewrite (proj2 (Z.eqb_neq _ _)) by (by apply selected_zero). cbn [negb verify res_bind].
    eexists. split; [done|]. cbn beta iota. rewrite Hf.
    replace ((m_data v + (4 * k0 + 4 * Z.of_nat j) - m_data v) * 8 + (r + 1) - 1)
      with (32 * (k0 + Z.of_nat j) + r) by lia.
    split; [Z.to_euclidean_division_equations; lia|].
    rewrite bit_word by done. rewrite <- Hbit. unfold w. f_equal. f_equal. lia.
Qed.

Lemma find_one_anywhere_spec V m v hint :
  view_ok 0 m v -> m_data v mod 4 = 0 -> 0 <= hint < m_size v ->
  exists o, find_one_anywhere 2 V m v hint = Ok o /\
    match o with
    | Some r => 0 <= r < 8 * (m_size v / 8) /\ bit m v r = V
    | None => forall i, 0 <= i < 8 * (m_size v / 8) -> bit m v i = negb V
    end.
Proof.
  intros Hok Ha Hh. pose proof Hok as [Hw Hsz Hd Ht Hv]. unfold find_one_anywhere.
  rewrite (proj2 (Z.ltb_lt _ _)) by lia. cbn [verify res_bind].
  assert (align_down (m_data v + hint / 8) = m_data v + 4 * (hint / 32)) as E1.
  { rewrite align_down_spec; Z.to_euclidean_division_equations; lia. }
  assert (align_down (m_data v + 0 / 8) = m_data v + 4 * 0) as E2.
  { rewrite align_down_spec; Z.to_euclidean_division_equations; lia. }
  assert (0 <= hint / 32) by (apply Z.div_pos; lia).
  unfold find_one_loop. rewrite E1, E2.
  rewrite !(proj2 (Z.ltb_ge _ (m_data v))) by lia.
  destruct (scan_words_spec V m v hint (hint / 32) (m_size v / 8))
    as (o & -> & Ho); [done..|Z.to_euclidean_division_equations; lia|].
  cbn [res_bind]. destruct o as [[r|]|].
  - eexists. split; [done|]. done.
  - eexists. split; [done|]. destruct Ho as [Hs Hn]. intros i Hi. apply Hn.
    rewrite Z.div_small by lia. lia.
  - destruct (scan_words_spec V m v 0 0 (4 * (hint / 32)))
      as (o & -> & Ho'); [done..|Z.to_euclidean_division_equations; lia|].
    cbn [res_bind]. destruct o as [[r|]|]; cbn beta iota in Ho'; [| |lia]; (eexists; split; [done|]); [done|].
    intros i Hi. apply Ho'. lia.
Qed.

(** *** The flip check *)

Lemma res_bind_fault {A B} (c : res A) (k : A -> res B) f :
  c = Fault f -> res_bind c k = Fault f.
Proof. by intros ->. Qed.

(** A checked bit that already has the value stops [set_range]. *)
Lemma set_range_fault V m v start len i :
  view_ok 1 m v -> 0 <= start < m_size v -> 0 < len -> start + len <= m_size v ->
  checked_bit start len i = true -> bit m v i = V ->
  set_range V true m v start len = Fault VerifyFailed.
Proof.
  intros Hok Hs Hl He Hc Hb. pose proof Hok as [Hw Hsz Hd Ht Hv]. unfold set_range.
  rewrite (proj2 (Z.ltb_lt start _)) by lia. cbn [verify res_bind].
  rewrite (wrap_end 1 m v) by (done || lia).
  rewrite (proj2 (Z.leb_le (start + len) _)) by lia. cbn [verify res_bind].
  rewrite (proj2 (Z.eqb_neq len 0)) by lia. unfold checked_bit, in_range in Hc.
  pose proof (Z.mod_pos_bound start 8 eq_refl). pose proof (Z.mod_pos_bound (start + len) 8 eq_refl).
  pose proof (Z.mod_pos_bound i 8 eq_refl).
  pose proof (mask_first_range (start mod 8)). pose proof (mask_last_range ((start + len) mod 8)).
  assert (forall q, 0 <= q <= m_size v / 8 -> m_valid m (m_data v + q) = true) as Hv'.
  { intros q Hq. apply Hv. Z.to_euclidean_division_equations. lia. }
  destruct (Z.eqb_spec (m_data v + start / 8) (m_data v + (start + len) / 8)) as [Hq|Hq].
  - replace (start / 8) with (i / 8) by lia. apply mask_byte_fault; try lia; try done.
    + apply Hv'. Z.to_euclidean_division_equations. lia.
    + apply land_range; lia.
    + rewrite Z.land_spec, mask_first_bits, mask_last_bits by lia.
      Z.to_euclidean_division_equations. lia.
  - destruct (Z.eq_dec (i / 8) (start / 8)) as [Ei|Ei].
    + apply res_bind_fault. rewrite <- Ei. apply mask_byte_fault; try lia; try done.
      * apply Hv'. Z.to_euclidean_division_equations. lia.
      * rewrite mask_first_bits by lia. Z.to_euclidean_division_equations. lia.
    + rewrite mask_byte_ok; [|done|apply Hv'; Z.to_euclidean_division_equations; lia|lia].
      destruct (check_mask _ _ _ _); [|done]. cbn [res_bind]. apply res_bind_fault.
      replace ((start + len) / 8) with (i / 8) by lia. apply mask_byte_fault; try lia.
      * apply poke_wf; [done|]. apply apply_mask_range; [apply Hw|lia].
      * apply Hv'. Z.to_euclidean_division_equations. lia.
      * rewrite mask_last_bits by lia. Z.to_euclidean_division_equations. lia.
      * rewrite <- Hb. unfold bit. rewrite poke_bytes, (proj2 (Z.eqb_neq _ _)) by lia. done.
Qed.

End BitmapFacts.

(** ** Properties *)

Import BitmapView BitmapFacts.

(** C28: [set_range] on a range inside the bitmap writes exactly that range: every
    bit of it gets the value, every other bit of the bitmap and every byte
    before the first or after the last byte of the range is unchanged, although
    the code works byte-wise with masks and [memset].  The flip variant does the
    same when the bits of the two end bytes all have the opposite value and stops
    on its assertion otherwise; it does not look at the bytes in between. *)
Theorem set_range_correct (V flip : bool) (m : memory) (v : BitmapView) (start len : Z) :
  view_ok 1 m v -> 0 <= start < m_size v -> 0 < len -> start + len <= m_size v ->
  ((flip = true -> forall i, checked_bit start len i = true -> bit m v i = negb V) ->
   exists m', set_range V flip m v start len = Ok m' /\
     sets_bits V (in_range start len) m v m' /\
     (forall a, a < m_data v + start / 8 \/ m_data v + (start + len) / 8 < a ->
        m_bytes m' a = m_bytes m a)) /\
  (forall i, flip = true -> checked_bit start len i = true -> bit m v i = V ->
   set_range V flip m v start len = Fault VerifyFailed).
Proof.
  intros Hok Hs Hl He. split; [by apply set_range_spec|].
  intros i -> Hc Hb. by eapply set_range_fault.
Qed.

(** A memory of zero bytes below 64 for the witnesses. *)
Definition zeroes : memory := mkMemory (fun _ => 0) (fun a => (0 <=? a) && (a <? 64)).

Lemma zeroes_ok slack size : 0 <= slack <= 1 -> 0 <= size <= 256 -> view_ok slack zeroes (mkBitmapView 0 size).
Proof.
  intros. split; cbn; try lia; [intros a; cbn; lia|Z.to_euclidean_division_equations; lia|].
  intros i Hi. Z.to_euclidean_division_equations. lia.
Qed.

Lemma set_range_correct_witness :
  exists m', set_range true true zeroes (mkBitmapView 0 40) 3 30 = Ok m' /\
    bit m' (mkBitmapView 0 40) 32 = true /\ bit m' (mkBitmapView 0 40) 33 = false.
Proof.
  destruct (set_range_correct true true zeroes (mkBitmapView 0 40) 3 30
              (zeroes_ok 1 40 ltac:(lia) ltac:(lia)) ltac:(cbn; lia) ltac:(lia) ltac:(cbn; lia))
    as [(m' & E & (_ & _ & B) & _) _].
  - intros _ i _. unfold bit. cbn. apply Z.testbit_0_l.
  - exists m'. split; [exact E|]. split; [apply (B 32); lia|apply (B 33); lia].
Defined.

(** C31: [count_in_range], which masks the end bytes and counts the rest by
    aligned words, returns the number of bits of the range with the value. *)
Theorem count_in_range_correct (m : memory) (v : BitmapView) (start len : Z) (value : bool) :
  view_ok 1 m v -> 0 <= start < m_size v -> 0 <= len -> start + len <= m_size v ->
  count_in_range m v start len value = Ok (count_spec m v start len value).
Proof. apply count_in_range_spec. Qed.

Lemma count_in_range_correct_witness :
  count_in_range zeroes (mkBitmapView 0 100) 3 77 false = Ok 77.
Proof.
  apply (count_in_range_correct zeroes (mkBitmapView 0 100) 3 77 false);
    [apply zeroes_ok|..]; cbn; lia.
Defined.

(** [find_first] returns the lowest bit with the value, and
    [find_one_anywhere] some bit with the value, within the whole bytes of the
    bitmap whenever there is one; the latter needs at most two turns of its
    endless loop from any hint when the data is aligned. *)
Theorem find_one_bit_correct (V : bool) (m : memory) (v : BitmapView) (hint : Z) :
  view_ok 0 m v -> m_data v mod 4 = 0 -> 0 <= hint < m_size v ->
  (exists o, find_first V m v = Ok o /\
    match o with
    | Some r => 0 <= r < 8 * (m_size v / 8) /\ bit m v r = V /\
                forall i, 0 <= i < r -> bit m v i = negb V
    | None => forall i, 0 <= i < 8 * (m_size v / 8) -> bit m v i = negb V
    end) /\
  (exists o, find_one_anywhere 2 V m v hint = Ok o /\
    match o with
    | Some r => 0 <= r < 8 * (m_size v / 8) /\ bit m v r = V
    | None => forall i, 0 <= i < 8 * (m_size v / 8) -> bit m v i = negb V
    end).
Proof. intros Hok Ha Hh. split; [by apply find_first_spec|by apply find_one_anywhere_spec]. Qed.

Lemma find_one_bit_correct_witness :
  exists o, find_one_anywhere 2 true zeroes (mkBitmapView 0 100) 70 = Ok o /\
    match o with
    | Some r => 0 <= r < 96 /\ bit zeroes (mkBitmapView 0 100) r = true
    | None => forall i, 0 <= i < 96 -> bit zeroes (mkBitmapView 0 100) i = false
    end.
Proof.
  apply (find_one_bit_correct true zeroes (mkBitmapView 0 100) 70);
    [apply zeroes_ok; lia|reflexivity|cbn; lia].
Defined.

(** A range that ends with the bitmap at a byte boundary makes [set_range]
    access the byte after the bitmap; where that byte may not be accessed the
    call is undefined. *)
Theorem set_range_touches_next_byte (V : bool) (m : memory) (v : BitmapView) (start len : Z) :
  view_ok 0 m v -> 0 <= start -> 0 < len -> start + len = m_size v -> m_size v mod 8 = 0 ->
  m_valid m (m_data v + m_size v / 8) = false ->
  set_range V false m v start len = Fault UndefinedBehaviour.
Proof.
  intros Hok Hs Hl He Hm Hv'. pose proof Hok as [Hw Hsz Hd Ht Hv]. unfold set_range.
  rewrite (proj2 (Z.ltb_lt start _)) by lia. cbn [verify res_bind].
  rewrite (wrap_end 0 m v) by (done || lia).
  rewrite (proj2 (Z.leb_le (start + len) _)) by lia. cbn [verify res_bind].
  rewrite (proj2 (Z.eqb_neq len 0)) by lia.
  rewrite (proj2 (Z.eqb_neq _ _)) by (Z.to_euclidean_division_equations; lia).
  rewrite mask_byte_ok; [|done|apply Hv; Z.to_euclidean_division_equations; lia
                         |apply mask_first_range, Z.mod_pos_bound; lia].
  cbn [check_mask res_bind]. rewrite He. unfold mask_byte, load8. cbn [m_valid poke].
  by rewrite Hv'.
Qed.

Lemma set_range_touches_next_byte_witness :
  set_range true false zeroes (mkBitmapView 32 256) 250 6 = Fault UndefinedBehaviour.
Proof.
  apply (set_range_touches_next_byte true zeroes (mkBitmapView 32 256) 250 6); try reflexivity; try lia.
  split; cbn; try lia; [intros a; cbn; lia|reflexivity|].
  intros i Hi. change ((256 + 7) / 8 + 0) with 32 in Hi. lia.
Defined.
