(* ===== verification/BitmapSearch.v ===== *)
(** * AK/BitmapView.h: searches for ranges of unset bits

    [find_next_range_of_unset_bits] scans whole 32-bit buckets, then the bits
    after the last bucket; [find_first_fit], [find_best_fit] and
    [find_longest_range_of_unset_bits] are loops around it.  The lemmas reduce
    the scan to one invariant on a position and the run of unset bits that ends
    there, which both kinds of scan extend by zeroes and by ones. *)

From S2P Require Import Prelude Memory Bitmap.
Import BitmapView BitmapFacts.

Module BitmapSearch.

Definition max_size : Z := 0xffffffff.

(** The scans either return a length or go on with the length of the current
    run; both carry the variable [from] that [start_of_free_chunks] points to. *)
Inductive scan :=
| Return (len from : Z)
| Continue (free_chunks from : Z).

Section FindNextRange.
Context (m : memory) (v : BitmapView) (min_length max_length : Z).

(** The [while (viewed_bits < 32)] loop over one bucket. *)
Fixpoint scan_bucket (fuel : nat) (bucket_index bucket viewed_bits free_chunks from : Z) : res scan :=
  match fuel with
  | O => Fault OutOfFuel
  | S fuel =>
      if viewed_bits <? 32 then
        let from := if free_chunks =? 0 then bucket_index * 32 + viewed_bits else from in
        if bucket =? 0 then
          scan_bucket fuel bucket_index bucket 32 (free_chunks + (32 - viewed_bits)) from
        else
          let* trailing_zeroes := count_trailing_zeroes_32 bucket in
          let bucket := Z.shiftr bucket trailing_zeroes in
          let free_chunks := free_chunks + trailing_zeroes in
          let viewed_bits := viewed_bits + trailing_zeroes in
          if min_length <=? free_chunks then Ok (Return (min free_chunks max_length) from)
          else
            let* trailing_ones := count_trailing_zeroes_32 (wrap U32 (Z.lnot bucket)) in
            scan_bucket fuel bucket_index (Z.shiftr bucket trailing_ones)
              (viewed_bits + trailing_ones) 0 from
      else Ok (Continue free_chunks from)
  end.

(** One turn of the [for] loop over the buckets. *)
Definition scan_word (bucket_index start_bucket_bit free_chunks from : Z) : res scan :=
  let* word := load32 m (m_data v + 4 * bucket_index) in
  if word =? 0xffffffff then
    if min_length <=? free_chunks then Ok (Return (min free_chunks max_length) from)
    else Ok (Continue 0 from)
  else if word =? 0x0 then
    let from := if free_chunks =? 0 then bucket_index * 32 else from in
    let free_chunks := free_chunks + 32 in
    if max_length <=? free_chunks then Ok (Return max_length from)
    else Ok (Continue free_chunks from)
  else
    scan_bucket 33 bucket_index (Z.shiftr word start_bucket_bit) start_bucket_bit free_chunks from.

(** The [for] loop, with [n] buckets left; [start_bucket_bit] is zero after the
    first turn. *)
Fixpoint scan_buckets (n : nat) (bucket_index start_bucket_bit free_chunks from : Z) : res scan :=
  match n with
  | O => Ok (Continue free_chunks from)
  | S n =>
      let* s := scan_word bucket_index start_bucket_bit free_chunks from in
      match s with
      | Return len from => Ok (Return len from)
      | Continue free_chunks from => scan_buckets n (bucket_index + 1) 0 free_chunks from
      end
  end.

(** The loop over the bits after the last bucket, [n] of which are left. *)
Fixpoint scan_trailing (n : nat) (i free_chunks from : Z) : res (option Z * Z) :=
  match n with
  | O => Ok (None, from)
  | S n =>
      let* b := get m v i in
      if negb b then
        let from := if free_chunks =? 0 then i else from in
        let free_chunks := free_chunks + 1 in
        if min_length <=? free_chunks then Ok (Some (min free_chunks max_length), from)
        else scan_trailing n (i + 1) free_chunks from
      else scan_trailing n (i + 1) 0 from
  end.

(** The length found, and the new value of the reference argument [from]. *)
Definition find_next_range_of_unset_bits (from : Z) : res (option Z * Z) :=
  if max_length <? min_length then Ok (None, from)
  else
    let start_bucket_index := from / 32 in
    let start_bucket_bit := from mod 32 in
    let n := Z.to_nat (m_size v / 32 - start_bucket_index) in
    let* s := scan_buckets n start_bucket_index start_bucket_bit 0 from in
    match s with
    | Return len from => Ok (Some len, from)
    | Continue free_chunks from =>
        if free_chunks <? min_length then
          let first_trailing_bit := m_size v / 32 * 32 in
          let trailing_bits := m_size v mod 32 in
          scan_trailing (Z.to_nat trailing_bits) first_trailing_bit free_chunks from
        else Ok (Some (min free_chunks max_length), from)
    end.

End FindNextRange.

(** The [while (true)] of [find_longest_range_of_unset_bits]; the result is the
    start of the range, if any, and [found_range_size]. *)
Fixpoint find_longest_loop (fuel : nat) (m : memory) (v : BitmapView)
    (max_length start max_region_start max_region_size : Z) : res (option Z * Z) :=
  match fuel with
  | O => Fault OutOfFuel
  | S fuel =>
      let* (found, start) :=
        find_next_range_of_unset_bits m v (wrap size_t (max_region_size + 1)) max_length start in
      match found with
      | Some len => find_longest_loop fuel m v max_length (wrap size_t (start + len)) start len
      | None =>
          Ok (if negb (max_region_size =? 0) then Some max_region_start else None, max_region_size)
      end
  end.

Definition find_longest_range_of_unset_bits (fuel : nat) (m : memory) (v : BitmapView)
    (max_length : Z) : res (option Z * Z) :=
  find_longest_loop fuel m v max_length 0 0 0.

Definition find_first_fit (m : memory) (v : BitmapView) (minimum_length : Z) : res (option Z) :=
  let* (found, start) := find_next_range_of_unset_bits m v minimum_length minimum_length 0 in
  Ok (match found with Some _ => Some start | None => None end).

(** The [while (true)] of [find_best_fit]. *)
Fixpoint find_best_loop (fuel : nat) (m : memory) (v : BitmapView)
    (minimum_length start best_region_start best_region_size : Z) (found : bool) : res (option Z) :=
  match fuel with
  | O => Fault OutOfFuel
  | S fuel =>
      let* (length_of_found_range, start) :=
        find_next_range_of_unset_bits m v minimum_length best_region_size start in
      match length_of_found_range with
      | Some len =>
          let start' := wrap size_t (start + len) in
          if (len <? best_region_size) || negb found
          then find_best_loop fuel m v minimum_length start' start len true
          else find_best_loop fuel m v minimum_length start' best_region_start best_region_size found
      | None => Ok (if found then Some best_region_start else None)
      end
  end.

Definition find_best_fit (fuel : nat) (m : memory) (v : BitmapView) (minimum_length : Z)
    : res (option Z) :=
  find_best_loop fuel m v minimum_length 0 0 max_size false.

(** ** Abstract content *)

(** All bits of a range are unset; some bit of it is set. *)
Definition unset (m : memory) (v : BitmapView) (s len : Z) : Prop :=
  forall i, s <= i < s + len -> bit m v i = false.

Definition blocked (m : memory) (v : BitmapView) (s len : Z) : Prop :=
  exists i, s <= i < s + len /\ bit m v i = true.

(** Where the search from [from] really starts: a bucket of zeroes is taken as
    a whole, and so are the bits after the last bucket. *)
Definition search_start (m : memory) (v : BitmapView) (from : Z) : Z :=
  if m_size v / 32 <=? from / 32 then m_size v / 32 * 32
  else if word_at m (m_data v + 4 * (from / 32)) =? 0 then from / 32 * 32
  else from.

(** [st] is the first place from [lo] on where [min_length] bits are unset, and
    [len] unset bits follow it. *)
Record found_range (m : memory) (v : BitmapView) (min_length max_length lo st len : Z) : Prop := {
  fr_start : lo <= st;
  fr_len : min_length <= len <= max_length;
  fr_end : st + len <= m_size v;
  fr_unset : unset m v st len;
  fr_first : forall s, lo <= s < st -> blocked m v s min_length;
}.

Definition no_range (m : memory) (v : BitmapView) (min_length lo : Z) : Prop :=
  forall s, lo <= s -> s + min_length <= m_size v -> blocked m v s min_length.

End BitmapSearch.

Module SearchFacts.
Import BitmapSearch.

Section Scan.
Context (m : memory) (v : BitmapView) (min_length max_length lo : Z).
Context (Hok : view_ok 0 m v) (Hmin : 1 <= min_length <= max_length).

(** The invariant of the scan at position [p]: the last [free] bits before [p]
    are unset, the run is maximal from [lo] on, [from] is its start, and no range
    of [min_length] unset bits lies before it. *)
Record inv (p free from : Z) : Prop := {
  inv_free : 0 <= free;
  inv_lo : lo <= p - free;
  inv_from : 0 < free -> from = p - free;
  inv_unset : unset m v (p - free) free;
  inv_maximal : p - free = lo \/ bit m v (p - free - 1) = true;
  inv_none : forall s, lo <= s -> s + min_length <= p - free -> blocked m v s min_length;
}.

Lemma inv_start from : inv lo 0 from.
Proof.
  split; try lia. intros i Hi. lia.
Qed.

Lemma inv_zeroes p k free from :
  inv p free from -> 0 <= k -> unset m v p k ->
  inv (p + k) (free + k) (if free =? 0 then p else from).
Proof.
  intros [H1 H2 H3 H4 H5 H6] Hk Hu. split; try lia.
  - case_if; lia.
  - intros i Hi. destruct (Z.lt_ge_cases i p); [apply H4|apply Hu]; lia.
  - by replace (p + k - (free + k)) with (p - free) by lia.
  - intros s Hs1 Hs2. apply H6; lia.
Qed.

Lemma inv_ones p k free from from' :
  inv p free from -> free < min_length -> 1 <= k ->
  (forall i, p <= i < p + k -> bit m v i = true) -> inv (p + k) 0 from'.
Proof.
  intros [H1 H2 H3 H4 H5 H6] Hlt Hk Hs. split; try lia.
  - intros i Hi. lia.
  - right. apply Hs. lia.
  - intros s Hs1 Hs2. destruct (Z.le_gt_cases (s + min_length) (p - free)); [apply H6; lia|].
    destruct (Z.le_gt_cases (s + min_length) p).
    + destruct H5 as [H5|H5]; [lia|]. exists (p - free - 1). split; [lia|done].
    + exists (Z.max s p). split; [lia|]. apply Hs. lia.
Qed.

Lemma inv_found p free from :
  inv p free from -> min_length <= free -> p <= m_size v ->
  found_range m v min_length max_length lo from (Memory.min free max_length).
Proof.
  intros [H1 H2 H3 H4 H5 H6] Hf Hp. rewrite min_spec. rewrite H3 by lia.
  split; try lia.
  - intros i Hi. apply H4. lia.
  - intros s Hs. destruct (Z.le_gt_cases (s + min_length) (p - free)); [apply H6; lia|].
    destruct H5 as [H5|H5]; [lia|]. exists (p - free - 1). split; [lia|done].
Qed.

Lemma inv_end free from :
  inv (m_size v) free from -> free < min_length -> no_range m v min_length lo.
Proof.
  intros [H1 H2 H3 H4 H5 H6] Hf s Hs1 Hs2.
  destruct (Z.le_gt_cases (s + min_length) (m_size v - free)); [apply H6; lia|].
  destruct H5 as [H5|H5]; [lia|]. exists (m_size v - free - 1). split; [lia|done].
Qed.

(** What a scan up to position [p] leaves. *)
Definition scan_ok (p : Z) (s : scan) : Prop :=
  match s with
  | Return len from => found_range m v min_length max_length lo from len
  | Continue free from => inv p free from
  end.

(** The number of ones at the bottom of a bucket that is not all ones. *)
Lemma trailing_ones_spec b :
  0 <= b < 2 ^ 32 - 1 ->
  exists k, count_trailing_zeroes_32 (wrap U32 (Z.lnot b)) = Ok k /\ 0 <= k < 32 /\
    Z.testbit b k = false /\ forall i, 0 <= i < k -> Z.testbit b i = true.
Proof.
  intros Hb. replace (wrap U32 (Z.lnot b)) with (selected 32 false b).
  2: { unfold wrap. cbn [tmin U32 is_signed bits]. by rewrite Z.sub_0_r, Z.add_0_r. }
  destruct (ffs_selected 32 false b) as (k & Hk & Hf & Hbit & Hpre); [lia|lia|lia|].
  pose proof (selected_zero 32 false b ltac:(lia) ltac:(lia) ltac:(cbn; lia)) as Hz.
  unfold count_trailing_zeroes_32, ffs in *. rewrite (proj2 (Z.eqb_neq _ _) Hz) in *.
  cbn [negb defined res_bind]. exists k. split; [f_equal; lia|]. done.
Qed.

Lemma trailing_zeroes_spec b :
  0 < b < 2 ^ 32 ->
  exists k, count_trailing_zeroes_32 b = Ok k /\ 0 <= k < 32 /\
    Z.testbit b k = true /\ forall i, 0 <= i < k -> Z.testbit b i = false.
Proof.
  intros Hb. destruct (ffs_selected 32 true b) as (k & Hk & Hf & Hbit & Hpre); [lia|lia|lia|].
  unfold count_trailing_zeroes_32, ffs, selected in *.
  rewrite (proj2 (Z.eqb_neq b 0)) in * by lia.
  cbn [negb defined res_bind]. exists k. split; [f_equal; lia|]. done.
Qed.

(** [b] holds the bits of the bitmap from [p] to [q]. *)
Definition holds (p q b : Z) : Prop :=
  0 <= b < 2 ^ (q - p) /\ forall i, 0 <= i < q - p -> Z.testbit b i = bit m v (p + i).

Lemma holds_shift p q b k : 0 <= k <= q - p -> holds p q b -> holds (p + k) q (Z.shiftr b k).
Proof.
  intros Hk [Hb Hi]. split.
  - rewrite Z.shiftr_div_pow2 by lia. split; [apply Z.div_pos; lia|].
    apply Z.div_lt_upper_bound; [lia|]. rewrite <- Z.pow_add_r by lia.
    replace (k + (q - (p + k))) with (q - p) by lia. lia.
  - intros i Hi'. rewrite Z.shiftr_spec by lia.
    rewrite Hi by lia. f_equal. lia.
Qed.

Lemma holds_high p q b i : holds p q b -> q - p <= i -> p <= q -> Z.testbit b i = false.
Proof.
  intros [Hb _] Hi Hpq. destruct (Z.eq_dec b 0) as [->|]; [apply Z.testbit_0_l|].
  apply Z.bits_above_log2; [lia|].
  assert (Z.log2 b < q - p) by (apply Z.log2_lt_pow2; lia). lia.
Qed.

Lemma shiftr_le b k : 0 <= k -> 0 <= b -> 0 <= Z.shiftr b k <= b.
Proof.
  intros Hk Hb. rewrite Z.shiftr_div_pow2 by done.
  assert (0 < 2 ^ k) by (apply Z.pow_pos_nonneg; lia).
  split; [apply Z.div_pos; lia|]. apply Z.div_le_upper_bound; [lia|nia].
Qed.

(** The zeroes and the ones at the bottom of a bucket that is not zero. *)
Lemma bucket_runs p q b :
  p < q <= p + 32 -> holds p q b -> b <> 0 -> b < 2 ^ 32 - 1 ->
  exists z o, count_trailing_zeroes_32 b = Ok z /\
    count_trailing_zeroes_32 (wrap U32 (Z.lnot (Z.shiftr b z))) = Ok o /\
    0 <= z /\ 1 <= o /\ z + o <= q - p /\ unset m v p z /\
    (forall i, p + z <= i < p + z + o -> bit m v i = true).
Proof.
  intros Hpq Hh Hz Hb. pose proof Hh as [Hr Hbits].
  destruct (trailing_zeroes_spec b) as (z & Ez & Hzr & Hz1 & Hz0); [lia|].
  assert (z < q - p) as Hzq.
  { destruct (Z.lt_ge_cases z (q - p)); [done|]. rewrite (holds_high p q) in Hz1 by (done || lia). done. }
  pose proof (shiftr_le b z ltac:(lia) ltac:(lia)).
  destruct (trailing_ones_spec (Z.shiftr b z)) as (o & Eo & Hor & Ho0 & Ho1); [lia|].
  assert (holds (p + z) q (Z.shiftr b z)) as Hh' by (apply holds_shift; [lia|done]).
  assert (o <> 0).
  { intros ->. rewrite Z.shiftr_spec, Z.add_0_l, Hz1 in Ho0 by lia. done. }
  assert (z + o <= q - p).
  { destruct (Z.le_gt_cases (z + o) (q - p)); [done|].
    specialize (Ho1 (q - (p + z)) ltac:(lia)).
    rewrite (holds_high (p + z) q) in Ho1 by (done || lia). done. }
  exists z, o. split; [done|]. split; [done|]. do 3 (split; [lia|]). split.
  - intros i Hi. rewrite <- (Hz0 (i - p)), Hbits by lia. f_equal. lia.
  - intros i Hi. rewrite <- (Ho1 (i - (p + z))) by lia. rewrite (proj2 Hh') by lia. f_equal. lia.
Qed.

Lemma scan_bucket_spec fuel bi b viewed free from :
  bi * 32 + 32 <= m_size v -> 0 <= viewed <= 32 -> 33 - viewed <= Z.of_nat fuel ->
  inv (bi * 32 + viewed) free from -> holds (bi * 32 + viewed) (bi * 32 + 32) b -> b < 2 ^ 32 - 1 ->
  exists s, scan_bucket min_length max_length fuel bi b viewed free from = Ok s /\
    scan_ok (bi * 32 + 32) s.
Proof.
  intros Hsz. revert b viewed free from.
  induction fuel as [|fuel IH]; intros b viewed free from Hv Hf Hi Hh Hb; [lia|].
  cbn [scan_bucket]. destruct (Z.ltb_spec viewed 32) as [Hlt|Hge].
  2: { eexists. split; [done|]. by replace viewed with 32 in Hi by lia. }
  destruct (Z.eqb_spec b 0) as [->|Hz].
  - apply IH; try lia.
    + replace (bi * 32 + 32) with (bi * 32 + viewed + (32 - viewed)) by lia.
      apply inv_zeroes; [done|lia|]. intros i Hi'. destruct Hh as [_ Hh].
      replace i with (bi * 32 + viewed + (i - (bi * 32 + viewed))) by lia.
      rewrite <- Hh by lia. apply Z.testbit_0_l.
    + split; [|intros; lia]. replace (bi * 32 + 32 - (bi * 32 + 32)) with 0 by lia. lia.
  - destruct (bucket_runs (bi * 32 + viewed) (bi * 32 + 32) b)
      as (z & o & -> & Eo & Hz0 & Ho1 & Hzo & Huz & Hso); [lia|done|done|done|].
    cbn [res_bind]. pose proof (inv_zeroes _ z _ _ Hi Hz0 Huz) as Hi'.
    destruct (Z.leb_spec min_length (free + z)) as [Hm|Hm].
    + eexists. split; [done|]. eapply inv_found; [done|done|lia].
    + rewrite Eo. cbn [res_bind]. apply IH; try lia.
      * replace (bi * 32 + (viewed + z + o)) with (bi * 32 + viewed + z + o) by lia.
        eapply inv_ones; [done|lia|lia|done].
      * replace (bi * 32 + (viewed + z + o)) with (bi * 32 + viewed + z + o) by lia.
        apply holds_shift; [lia|]. apply holds_shift; [lia|done].
      * pose proof (shiftr_le b z ltac:(lia) ltac:(destruct Hh; lia)).
        pose proof (shiftr_le (Z.shiftr b z) o). lia.
Qed.

(** The position a turn of the [for] loop starts from. *)
Definition entry (bi sbb : Z) : Z :=
  if word_at m (m_data v + 4 * bi) =? 0 then bi * 32 else bi * 32 + sbb.

Lemma load_bucket bi :
  0 <= bi -> bi * 32 + 32 <= m_size v ->
  load32 m (m_data v + 4 * bi) = Ok (word_at m (m_data v + 4 * bi)).
Proof.
  intros Hbi Hsz. destruct Hok as [_ _ _ _ Hv]. unfold load32, valid32.
  by rewrite <- !Z.add_assoc, !Hv by (Z.to_euclidean_division_equations; lia).
Qed.

Lemma scan_word_spec bi sbb free from :
  0 <= bi -> bi * 32 + 32 <= m_size v -> 0 <= sbb < 32 -> inv (entry bi sbb) free from ->
  exists s, scan_word m v min_length max_length bi sbb free from = Ok s /\
    scan_ok (bi * 32 + 32) s.
Proof.
  intros Hbi Hsz Hs Hi. pose proof Hok as [Hw _ _ _ _]. unfold scan_word, entry in *.
  rewrite load_bucket by done. cbn [res_bind].
  pose proof (word_at_bounds m (m_data v + 4 * bi) Hw) as Hr.
  destruct (Z.eqb_spec (word_at m (m_data v + 4 * bi)) 0xffffffff) as [Ef|Ef].
  { rewrite Ef in Hi. cbn [Z.eqb] in Hi.
    destruct (Z.leb_spec min_length free) as [Hm|Hm]; (eexists; split; [done|]).
    - eapply inv_found; [done|done|lia].
    - cbn [scan_ok]. replace (bi * 32 + 32) with (bi * 32 + sbb + (32 - sbb)) by lia.
      eapply inv_ones; [done|lia|lia|]. intros i Hi'.
      apply (uniform_word false m v bi); [done|done|lia]. }
  destruct (Z.eqb_spec (word_at m (m_data v + 4 * bi)) 0) as [Ez|Ez].
  - pose proof (inv_zeroes _ 32 _ _ Hi ltac:(lia)) as Hi'.
    assert (unset m v (bi * 32) 32) as Hu.
    { intros i Hi''. apply (uniform_word true m v bi); [done|done|lia]. }
    specialize (Hi' Hu). destruct (Z.leb_spec max_length (free + 32)) as [Hm|Hm];
      (eexists; split; [done|]); [|done].
    pose proof (inv_found _ _ _ Hi' ltac:(lia) ltac:(lia)) as Hfound.
    rewrite min_spec, Z.min_r in Hfound by lia. done.
  - apply scan_bucket_spec; try lia; try done.
    + apply holds_shift; [lia|]. split.
      * by replace (bi * 32 + 32 - bi * 32) with 32 by lia.
      * intros i Hi'. rewrite <- bit_word by (done || lia). f_equal. lia.
    + pose proof (shiftr_le (word_at m (m_data v + 4 * bi)) sbb). lia.
Qed.

Lemma scan_buckets_spec n bi sbb free from :
  0 <= bi -> (bi + Z.of_nat n) * 32 <= m_size v -> 0 <= sbb < 32 ->
  (n = O -> sbb = 0) -> inv (entry bi sbb) free from ->
  exists s, scan_buckets m v min_length max_length n bi sbb free from = Ok s /\
    scan_ok ((bi + Z.of_nat n) * 32) s.
Proof.
  revert bi sbb free from. induction n as [|n IH]; intros bi sbb free from Hbi Hsz Hs H0 Hi;
    cbn [scan_buckets].
  - eexists. split; [done|]. cbn [scan_ok]. rewrite Z.add_0_r. unfold entry in Hi.
    rewrite H0 in Hi by done. rewrite Z.add_0_r in Hi. by destruct (_ =? _) in Hi.
  - destruct (scan_word_spec bi sbb free from) as (s & -> & Hs'); [lia|lia|lia|done|].
    cbn [res_bind]. destruct s as [len from'|free' from']; [by eexists|].
    replace (bi + Z.of_nat (S n)) with (bi + 1 + Z.of_nat n) by lia.
    apply IH; try lia. unfold entry. rewrite Z.add_0_r. cbn [scan_ok] in Hs'.
    replace ((bi + 1) * 32) with (bi * 32 + 32) by lia. by destruct (_ =? _).
Qed.

(** The result of the whole search. *)
Definition result_ok (r : option Z * Z) : Prop :=
  match r.1 with
  | Some len => found_range m v min_length max_length lo r.2 len
  | None => no_range m v min_length lo
  end.

Lemma scan_trailing_spec n i free from :
  0 <= i -> i + Z.of_nat n = m_size v -> inv i free from -> free < min_length ->
  exists r, scan_trailing m v min_length max_length n i free from = Ok r /\ result_ok r.
Proof.
  revert i free from. induction n as [|n IH]; intros i free from H0 Hn Hi Hf; cbn [scan_trailing].
  - eexists. split; [done|]. unfold result_ok. cbn [fst snd].
    eapply (inv_end free from); [|done]. by replace (m_size v) with i by lia.
  - rewrite (get_spec 0) by (done || lia). cbn [res_bind].
    destruct (bit m v i) eqn:Eb; cbn [negb].
    + apply IH; try lia. eapply inv_ones; [done|done|lia|].
      intros j Hj. by replace j with i by lia.
    + assert (inv (i + 1) (free + 1) (if free =? 0 then i else from)) as Hi'.
      { apply inv_zeroes; [done|lia|]. intros j Hj. by replace j with i by lia. }
      destruct (Z.leb_spec min_length (free + 1)) as [Hm|Hm].
      * eexists. split; [done|]. unfold result_ok. cbn [fst snd].
        eapply inv_found; [done|done|lia].
      * apply IH; [lia|lia|done|lia].
Qed.

End Scan.

Lemma find_next_spec m v min_length max_length from :
  view_ok 0 m v -> 1 <= min_length <= max_length -> 0 <= from ->
  exists r, find_next_range_of_unset_bits m v min_length max_length from = Ok r /\
    result_ok m v min_length max_length (search_start m v from) r.
Proof.
  intros Hok Hm Hf. unfold find_next_range_of_unset_bits, search_start.
  rewrite (proj2 (Z.ltb_ge _ _)) by lia. pose proof Hok as [_ Hsz _ _ _].
  assert (0 <= from / 32) by (apply Z.div_pos; lia).
  pose proof (Z.div_mod (m_size v) 32 ltac:(lia)). pose proof (Z.mod_pos_bound (m_size v) 32 eq_refl).
  pose proof (Z.mod_pos_bound from 32 eq_refl). pose proof (Z.div_mod from 32 ltac:(lia)).
  set (lo := if m_size v / 32 <=? from / 32 then _ else _).
  assert (exists s, scan_buckets m v min_length max_length (Z.to_nat (m_size v / 32 - from / 32))
    (from / 32) (from mod 32) 0 from = Ok s /\ scan_ok m v min_length max_length lo (m_size v / 32 * 32) s)
    as (s & -> & Hs).
  { unfold lo. destruct (Z.leb_spec (m_size v / 32) (from / 32)) as [Hle|Hlt].
    - replace (Z.to_nat _) with O by lia. eexists. split; [done|]. by eapply inv_start.
    - destruct (scan_buckets_spec m v min_length max_length lo Hok Hm
        (Z.to_nat (m_size v / 32 - from / 32)) (from / 32) (from mod 32) 0 from) as (s & Es & Hs);
        try lia.
      + unfold entry, lo.
        replace (from / 32 * 32 + from mod 32) with from by lia. by eapply inv_start.
      + exists s. split; [done|]. unfold lo in Hs.
        by replace (m_size v / 32 * 32) with ((from / 32 + Z.of_nat (Z.to_nat (m_size v / 32 - from / 32))) * 32) by lia. }
  cbn [res_bind]. destruct s as [len from'|free from']; [by eexists|].
  destruct (Z.ltb_spec free min_length).
  - apply scan_trailing_spec; try done; lia.
  - eexists. split; [done|]. unfold result_ok. cbn [fst snd].
    eapply inv_found; [done|done|done|lia].
Qed.

Lemma search_start_0 m v : 0 <= m_size v -> search_start m v 0 = 0.
Proof.
  intros Hs. unfold search_start. change (0 / 32) with 0.
  destruct (Z.leb_spec (m_size v / 32) 0); [|by destruct (_ =? _)].
  assert (0 <= m_size v / 32) by (apply Z.div_pos; lia). lia.
Qed.

(** After a range of at least a bucket the search starts behind its start. *)
Lemma search_start_progress m v st len :
  0 <= st -> 32 <= len -> st + len <= m_size v -> st < search_start m v (st + len).
Proof.
  intros Hst Hl He. unfold search_start.
  repeat case_if; Z.to_euclidean_division_equations; lia.
Qed.

Lemma search_start_nonneg m v from : 0 <= from -> 0 <= m_size v -> 0 <= search_start m v from.
Proof.
  intros. unfold search_start. assert (0 <= from / 32) by (apply Z.div_pos; lia).
  assert (0 <= m_size v / 32) by (apply Z.div_pos; lia). repeat case_if; lia.
Qed.

Lemma wrap_index m v z : view_ok 0 m v -> 0 <= z <= m_size v -> wrap size_t z = z.
Proof. intros [_ Hs _ _ _] Hz. apply wrap_id; [done|]. apply in_ty_spec. cbn. lia. Qed.

(** What [find_best_fit] promises, and its loop. *)
Definition fits (m : memory) (v : BitmapView) (n s : Z) : Prop :=
  0 <= s /\ s + n <= m_size v /\ unset m v s n.

Lemma found_fits m v n max lo st len :
  0 <= lo -> 0 <= n -> found_range m v n max lo st len -> fits m v n st.
Proof.
  intros Hlo Hn [H1 H2 H3 H4 H5]. split; [lia|]. split; [lia|].
  intros i Hi. apply H4. lia.
Qed.

Lemma find_best_loop_spec fuel m v n start best size found :
  view_ok 0 m v -> 32 <= n <= size -> 0 <= start ->
  Z.max 0 (m_size v - search_start m v start) < Z.of_nat fuel ->
  (found = true -> fits m v n best) ->
  exists o, find_best_loop fuel m v n start best size found = Ok o /\
    match o with
    | Some s => fits m v n s
    | None => found = false /\ no_range m v n (search_start m v start)
    end.
Proof.
  intros Hok Hn. revert start best size found Hn.
  induction fuel as [|fuel IH]; intros start best size found Hn Hs Hf Hb; [lia|].
  pose proof (ok_size _ _ _ Hok) as Hsz.
  pose proof (search_start_nonneg m v start Hs ltac:(lia)) as Hlo.
  cbn [find_best_loop]. destruct (find_next_spec m v n size start) as ([o st] & -> & Hr); [done|lia|done|].
  unfold result_ok in Hr. cbn [res_bind fst snd] in *. destruct o as [len|].
  - pose proof (found_fits m v n size _ st len Hlo ltac:(lia) Hr) as Hfit.
    destruct Hr as [R1 R2 R3 R4 R5]. rewrite (wrap_index m v) by (done || lia).
    pose proof (search_start_progress m v st len ltac:(lia) ltac:(lia) R3).
    case_if.
    + destruct (IH (st + len) st len true) as (o & -> & Ho); [lia..|done|].
      exists o. split; [done|]. by destruct o; [|destruct Ho].
    + destruct (IH (st + len) best size found) as (o & -> & Ho); [lia..|done|].
      exists o. split; [done|]. destruct o; [done|]. destruct Ho as [-> _].
      cbn in *. lia.
  - eexists. split; [done|]. destruct found; [by apply Hb|done].
Qed.

(** [find_longest_range_of_unset_bits]: every turn finds a longer range. *)
Lemma find_longest_loop_spec fuel m v max start rs size :
  view_ok 0 m v -> 1 <= max < 2 ^ 32 - 1 -> 0 <= start -> 0 <= size <= m_size v ->
  m_size v - size < Z.of_nat fuel ->
  (0 < size -> size <= max /\ fits m v size rs) ->
  exists o found, find_longest_loop fuel m v max start rs size = Ok (o, found) /\
    match o with
    | Some s => 1 <= found <= max /\ size <= found /\ fits m v found s
    | None => size = 0 /\ found = 0 /\ no_range m v 1 (search_start m v start)
    end.
Proof.
  intros Hok Hmax. revert start rs size.
  induction fuel as [|fuel IH]; intros start rs size Hs Hsz Hf Hb; [lia|].
  pose proof (ok_size _ _ _ Hok) as Hm. cbn [find_longest_loop].
  assert (wrap size_t (size + 1) = size + 1) as ->.
  { apply wrap_id; [done|]. apply in_ty_spec. cbn.
    destruct (Z.eq_dec size 0); [lia|]. destruct Hb; lia. }
  pose proof (search_start_nonneg m v start Hs ltac:(lia)) as Hlo.
  assert (exists r, find_next_range_of_unset_bits m v (size + 1) max start = Ok r /\
    match r.1 with
    | Some len => found_range m v (size + 1) max (search_start m v start) r.2 len
    | None => size = 0 -> no_range m v 1 (search_start m v start)
    end) as ([o st] & -> & Hr).
  { destruct (Z.le_gt_cases (size + 1) max).
    - destruct (find_next_spec m v (size + 1) max start) as (r & -> & Hr); [done|lia|done|].
      exists r. split; [done|]. unfold result_ok in Hr. destruct (r.1); [done|].
      intros ->. done.
    - eexists. split; [unfold find_next_range_of_unset_bits; rewrite (proj2 (Z.ltb_lt _ _)) by lia; done|].
      cbn. lia. }
  cbn [res_bind fst snd] in *. destruct o as [len|].
  - pose proof (found_fits m v (size + 1) max _ st len Hlo ltac:(lia) Hr) as Hfit.
    destruct Hr as [R1 R2 R3 R4 R5]. rewrite (wrap_index m v) by (done || lia).
    destruct (IH (st + len) st len) as (o & found & -> & Ho); [lia..| |].
    { intros _. split; [lia|]. split; [lia|]. split; [lia|done]. }
    exists o, found. split; [done|]. destruct o; [|lia]. destruct_and! Ho. split; [done|].
    split; [lia|done].
  - destruct (Z.eqb_spec size 0) as [->|]; cbn [negb]; (do 2 eexists; split; [done|]).
    + split; [done|]. split; [done|]. by apply Hr.
    + destruct Hb as [? ?]; [lia|]. split; [lia|]. split; [lia|done].
Qed.

End SearchFacts.

(** ** Properties *)

Import BitmapSearch SearchFacts.

(** C30: [find_next_range_of_unset_bits] terminates without a fault and finds the
    first place, from the point where its search really starts, with
    [min_length] unset bits, and an unset range there of a length between the
    two bounds; it returns nothing only when there is no such place. *)
Theorem find_next_range_correct (m : memory) (v : BitmapView) (min_length max_length from : Z) :
  view_ok 0 m v -> 1 <= min_length <= max_length -> 0 <= from ->
  exists o st, find_next_range_of_unset_bits m v min_length max_length from = Ok (o, st) /\
    match o with
    | Some len => found_range m v min_length max_length (search_start m v from) st len
    | None => no_range m v min_length (search_start m v from)
    end.
Proof.
  intros Hok Hm Hf. destruct (find_next_spec m v min_length max_length from Hok Hm Hf)
    as ([o st] & E & Hr). by exists o, st.
Qed.

Lemma find_next_range_correct_witness :
  exists o st, find_next_range_of_unset_bits zeroes (mkBitmapView 0 100) 5 80 40 = Ok (o, st) /\
    match o with
    | Some len => found_range zeroes (mkBitmapView 0 100) 5 80
                    (search_start zeroes (mkBitmapView 0 100) 40) st len
    | None => no_range zeroes (mkBitmapView 0 100) 5 (search_start zeroes (mkBitmapView 0 100) 40)
    end.
Proof.
  apply (find_next_range_correct zeroes (mkBitmapView 0 100) 5 80 40);
    [apply zeroes_ok; lia|lia|lia].
Defined.

(** [find_first_fit] returns the lowest index at which the requested number
    of unset bits follow each other, and nothing exactly when no range of that
    length is unset. *)
Theorem find_first_fit_correct (m : memory) (v : BitmapView) (n : Z) :
  view_ok 0 m v -> 1 <= n ->
  exists o, find_first_fit m v n = Ok o /\
    match o with
    | Some s => fits m v n s /\ forall s', 0 <= s' < s -> ~ fits m v n s'
    | None => forall s, ~ fits m v n s
    end.
Proof.
  intros Hok Hn. pose proof (ok_size _ _ _ Hok) as Hsz. unfold find_first_fit.
  destruct (find_next_spec m v n n 0) as ([o st] & -> & Hr); [done|lia|lia|].
  unfold result_ok in Hr. cbn [res_bind fst snd] in *. rewrite search_start_0 in Hr by lia.
  eexists. split; [done|]. destruct o as [len|].
  - split; [apply (found_fits m v n n 0 st len); [lia|lia|done]|].
    intros s' Hs' (_ & _ & Hu). destruct (fr_first _ _ _ _ _ _ _ Hr s' Hs') as (i & Hi & Hb).
    rewrite Hu in Hb by done. done.
  - intros s (H0 & He & Hu). destruct (Hr s H0 He) as (i & Hi & Hb).
    rewrite Hu in Hb by done. done.
Qed.

Lemma find_first_fit_correct_witness :
  exists o, find_first_fit zeroes (mkBitmapView 0 100) 70 = Ok o /\
    match o with
    | Some s => fits zeroes (mkBitmapView 0 100) 70 s /\
                forall s', 0 <= s' < s -> ~ fits zeroes (mkBitmapView 0 100) 70 s'
    | None => forall s, ~ fits zeroes (mkBitmapView 0 100) 70 s
    end.
Proof.
  apply (find_first_fit_correct zeroes (mkBitmapView 0 100) 70); [apply zeroes_ok; lia|lia].
Defined.

(** C35: for requests of at least one bucket (32 bits) the endless loop of
    [find_best_fit] ends after at most [m_size + 1] turns, and it finds a fitting
    range exactly when there is one. *)
Theorem find_best_fit_correct (m : memory) (v : BitmapView) (n : Z) (fuel : nat) :
  view_ok 0 m v -> 32 <= n <= max_size -> m_size v < Z.of_nat fuel ->
  exists o, find_best_fit fuel m v n = Ok o /\
    match o with
    | Some s => fits m v n s
    | None => forall s, ~ fits m v n s
    end.
Proof.
  intros Hok Hn Hf. pose proof (ok_size _ _ _ Hok) as Hsz. unfold find_best_fit.
  destruct (find_best_loop_spec fuel m v n 0 0 max_size false) as (o & -> & Ho);
    [done|done|lia|rewrite search_start_0; lia|done|].
  exists o. split; [done|]. destruct o as [s|]; [done|]. destruct Ho as [_ Hr].
  rewrite search_start_0 in Hr by lia. intros s (H0 & He & Hu).
  destruct (Hr s H0 He) as (i & Hi & Hb). rewrite Hu in Hb by done. done.
Qed.

Lemma find_best_fit_correct_witness :
  exists o, find_best_fit 101 zeroes (mkBitmapView 0 100) 64 = Ok o /\
    match o with
    | Some s => fits zeroes (mkBitmapView 0 100) 64 s
    | None => forall s, ~ fits zeroes (mkBitmapView 0 100) 64 s
    end.
Proof.
  apply (find_best_fit_correct zeroes (mkBitmapView 0 100) 64 101); [apply zeroes_ok|..];
    cbn; unfold max_size; lia.
Defined.

(** For smaller requests [find_best_fit] can loop forever: on sixteen unset
    bits a request of four bits finds the same range again and again. *)
Theorem find_best_fit_diverges (fuel : nat) :
  find_best_fit fuel zeroes (mkBitmapView 0 16) 4 = Fault OutOfFuel.
Proof.
  assert (forall fuel, find_best_loop fuel zeroes (mkBitmapView 0 16) 4 4 0 4 true
                       = Fault OutOfFuel) as Hl.
  { clear fuel. intros fuel. induction fuel as [|fuel IH]; [done|].
    cbn [find_best_loop].
    replace (find_next_range_of_unset_bits zeroes (mkBitmapView 0 16) 4 4 4)
      with (@Ok (option Z * Z) (Some 4, 0)) by reflexivity.
    exact IH. }
  destruct fuel as [|fuel]; [done|]. unfold find_best_fit. cbn [find_best_loop].
  replace (find_next_range_of_unset_bits zeroes (mkBitmapView 0 16) 4 max_size 0)
    with (@Ok (option Z * Z) (Some 4, 0)) by reflexivity.
  apply Hl.
Qed.

(** [find_longest_range_of_unset_bits] terminates after at most
    [m_size + 1] turns, returns a non-empty unset range of the size it reports,
    and reports nothing only when every bit is set. *)
Theorem find_longest_range_sound (m : memory) (v : BitmapView) (max_length : Z) (fuel : nat) :
  view_ok 0 m v -> 1 <= max_length < 2 ^ 32 - 1 -> m_size v < Z.of_nat fuel ->
  exists o found, find_longest_range_of_unset_bits fuel m v max_length = Ok (o, found) /\
    match o with
    | Some s => 1 <= found <= max_length /\ fits m v found s
    | None => found = 0 /\ forall i, 0 <= i < m_size v -> bit m v i = true
    end.
Proof.
  intros Hok Hm Hf. pose proof (ok_size _ _ _ Hok) as Hsz.
  destruct (find_longest_loop_spec fuel m v max_length 0 0 0) as (o & found & E & Ho);
    [done|done|lia|lia|lia|lia|].
  exists o, found. split; [done|]. destruct o as [s|].
  - destruct_and! Ho. done.
  - destruct Ho as (_ & -> & Hr). split; [done|]. rewrite search_start_0 in Hr by lia.
    intros i Hi. destruct (Hr i ltac:(lia) ltac:(lia)) as (j & Hj & Hb).
    by replace i with j by lia.
Qed.

Lemma find_longest_range_sound_witness :
  exists o found, find_longest_range_of_unset_bits 41 zeroes (mkBitmapView 0 40) 100 = Ok (o, found) /\
    match o with
    | Some s => 1 <= found <= 100 /\ fits zeroes (mkBitmapView 0 40) found s
    | None => found = 0 /\ forall i, 0 <= i < 40 -> bit zeroes (mkBitmapView 0 40) i = true
    end.
Proof.
  apply (find_longest_range_sound zeroes (mkBitmapView 0 40) 100 41); [apply zeroes_ok|..];
    cbn; lia.
Defined.

(** The range it returns need not be the longest: here bits 28 to 39 are unset,
    the search reports the 8 bits after the last bucket. *)
Definition split_run : memory :=
  mkMemory (fun a => if a =? 0 then 0xf0 else if a =? 1 then 0xff else if a =? 2 then 0xff
                     else if a =? 3 then 0x0f else 0) (fun a => (0 <=? a) && (a <? 64)).

Lemma find_longest_range_not_longest :
  find_longest_range_of_unset_bits 41 split_run (mkBitmapView 0 40) 100 = Ok (Some 32, 8) /\
  forallb (fun i => negb (bit split_run (mkBitmapView 0 40) i))
    [28; 29; 30; 31; 32; 33; 34; 35; 36; 37; 38; 39] = true.
Proof. split; reflexivity. Qed.
