(* ===== verification/Heap.v ===== *)
(** * Kernel/Heap/Heap.h: the chunk allocator behind kmalloc

    [Heap] models the class template of the same name over the shared memory:
    the chunks, the header of every allocation and the bitmap behind the chunks
    are bytes of that memory.  The invariant [heap_inv] relates them to an
    abstract map from the first chunk of every live allocation to its number of
    chunks.  [ExpandableHeap] models the list of sub-heaps; the callbacks that
    obtain and return memory are parameters. *)

From S2P Require Import Prelude Memory Bitmap BitmapSearch.
Import BitmapView BitmapFacts BitmapSearch SearchFacts.

Module Heap.

Record Heap := mkHeap {
  m_total_chunks : Z;
  m_allocated_chunks : Z;
  m_chunks : Z;
  m_bitmap : BitmapView;
}.

Definition with_allocated (h : Heap) (n : Z) : Heap :=
  mkHeap (m_total_chunks h) n (m_chunks h) (m_bitmap h).

(** [sizeof(AllocationHeader)]: one [size_t] and an empty array. *)
Definition header_size : Z := 4.
Definition nullptr : Z := 0.

Section Heap.
Context (CHUNK_SIZE HEAP_SCRUB_BYTE_ALLOC HEAP_SCRUB_BYTE_FREE : Z).

Definition calculate_chunks (memory_size : Z) : Z := memory_size / (CHUNK_SIZE + 1).

(** The constructor *)
Definition make (memory memory_size : Z) : res Heap :=
  let total := calculate_chunks memory_size in
  VERIFY total * CHUNK_SIZE + (total + 7) / 8 <=? memory_size ;;
  Ok (mkHeap total 0 memory (mkBitmapView (memory + total * CHUNK_SIZE) total)).

Definition calculate_memory_for_bytes (bytes : Z) : Z :=
  let needed_chunks := wrap size_t (wrap size_t (header_size + bytes) + CHUNK_SIZE - 1) / CHUNK_SIZE in
  wrap size_t (needed_chunks * CHUNK_SIZE + (needed_chunks + 7) / 8).

Definition total_chunks (h : Heap) : Z := m_total_chunks h.
Definition total_bytes (h : Heap) : Z := wrap size_t (m_total_chunks h * CHUNK_SIZE).
Definition free_chunks (h : Heap) : Z := wrap size_t (m_total_chunks h - m_allocated_chunks h).
Definition free_bytes (h : Heap) : Z := wrap size_t (free_chunks h * CHUNK_SIZE).
Definition allocated_chunks (h : Heap) : Z := m_allocated_chunks h.
Definition allocated_bytes (h : Heap) : Z := wrap size_t (m_allocated_chunks h * CHUNK_SIZE).

(** The end of the chunks, [m_chunks + m_total_chunks * CHUNK_SIZE]. *)
Definition chunks_end (h : Heap) : Z := m_chunks h + m_total_chunks h * CHUNK_SIZE.

Definition contains (h : Heap) (ptr : Z) : bool :=
  let a := ptr - header_size in
  if a <? m_chunks h then false
  else if chunks_end h <=? ptr then false
  else true.

Definition best_fit_threshold : Z := 128.

(** The number of chunks for a request, in [size_t] arithmetic. *)
Definition chunks_needed_for (size : Z) : Z :=
  let real_size := wrap size_t (size + header_size) in
  wrap size_t (real_size + CHUNK_SIZE - 1) / CHUNK_SIZE.

(** [find_best_fit] is run with one turn more than there are chunks. *)
Definition find_chunks (m : memory) (h : Heap) (chunks_needed : Z) : res (option Z) :=
  if chunks_needed <? best_fit_threshold then find_first_fit m (m_bitmap h) chunks_needed
  else find_best_fit (S (Z.to_nat (m_total_chunks h))) m (m_bitmap h) chunks_needed.

Definition allocate (m : memory) (h : Heap) (size : Z) : res (memory * Heap * Z) :=
  let chunks_needed := chunks_needed_for size in
  if free_chunks h <? chunks_needed then Ok (m, h, nullptr)
  else
    let* first_chunk := find_chunks m h chunks_needed in
    match first_chunk with
    | None => Ok (m, h, nullptr)
    | Some first_chunk =>
        let a := m_chunks h + first_chunk * CHUNK_SIZE in
        let ptr := a + header_size in
        let* m := store32 m a chunks_needed in
        let* m := set_range_and_verify_that_all_bits_flip m (m_bitmap h) first_chunk chunks_needed true in
        let h := with_allocated h (wrap size_t (m_allocated_chunks h + chunks_needed)) in
        let* m :=
          if negb (HEAP_SCRUB_BYTE_ALLOC =? 0)
          then memset m ptr HEAP_SCRUB_BYTE_ALLOC (chunks_needed * CHUNK_SIZE - header_size)
          else Ok m in
        Ok (m, h, ptr)
    end.

Definition deallocate (m : memory) (h : Heap) (ptr : Z) : res (memory * Heap) :=
  if ptr =? nullptr then Ok (m, h)
  else
    let a := ptr - header_size in
    VERIFY (m_chunks h <=? a) && (ptr <? chunks_end h) ;;
    let start := (a - m_chunks h) / CHUNK_SIZE in
    let* used := get m (m_bitmap h) start in
    VERIFY used ;;
    let* n := load32 m a in
    VERIFY a + wrap size_t (n * CHUNK_SIZE) <=? chunks_end h ;;
    let* m := set_range_and_verify_that_all_bits_flip m (m_bitmap h) start n false in
    let* n := load32 m a in
    VERIFY n <=? m_allocated_chunks h ;;
    let h := with_allocated h (m_allocated_chunks h - n) in
    let* m :=
      if negb (HEAP_SCRUB_BYTE_FREE =? 0)
      then memset m a HEAP_SCRUB_BYTE_FREE (wrap size_t (n * CHUNK_SIZE))
      else Ok m in
    Ok (m, h).

(** [reallocate(ptr, new_size)], with the heap itself as the main heap. *)
Definition reallocate (m : memory) (h : Heap) (ptr new_size : Z) : res (memory * Heap * Z) :=
  if ptr =? nullptr then allocate m h new_size
  else
    let a := ptr - header_size in
    VERIFY (m_chunks h <=? a) && (ptr <? chunks_end h) ;;
    let* n := load32 m a in
    VERIFY a + wrap size_t (n * CHUNK_SIZE) <=? chunks_end h ;;
    let old_size := wrap size_t (n * CHUNK_SIZE) in
    if old_size =? new_size then Ok (m, h, ptr)
    else
      let* (m, h, new_ptr) := allocate m h new_size in
      let* m :=
        if negb (new_ptr =? nullptr) then memcpy m new_ptr ptr (Memory.min old_size new_size)
        else Ok m in
      let* (m, h) := deallocate m h ptr in
      Ok (m, h, new_ptr).

(** ** Invariant *)

(** Address of chunk [s], and the addresses of [n] chunks from [s] on. *)
Definition chunk_addr (h : Heap) (s : Z) : Z := m_chunks h + s * CHUNK_SIZE.
Definition in_block (h : Heap) (s n a : Z) : Prop := chunk_addr h s <= a < chunk_addr h (s + n).

(** Geometry of a heap in memory: chunks, then the bitmap. *)
Record heap_ok (m : memory) (h : Heap) : Prop := {
  ho_view : view_ok 1 m (m_bitmap h);
  ho_size : m_size (m_bitmap h) = m_total_chunks h;
  ho_data : m_data (m_bitmap h) = chunks_end h;
  ho_base : 0 <= m_chunks h;
  ho_valid : forall a, m_chunks h <= a < chunks_end h -> m_valid m a = true;
}.

(** The live allocations: the first chunk of each with its number of chunks. *)
Record heap_inv (m : memory) (h : Heap) (live : gmap Z Z) : Prop := {
  hi_ok : heap_ok m h;
  hi_live : forall s n, live !! s = Some n ->
    0 <= s /\ 1 <= n /\ s + n <= m_total_chunks h /\ word_at m (chunk_addr h s) = n;
  hi_disjoint : forall s n s' n', live !! s = Some n -> live !! s' = Some n' -> s <> s' ->
    s + n <= s' \/ s' + n' <= s;
  hi_bits : forall i, 0 <= i < m_total_chunks h ->
    bit m (m_bitmap h) i = true <-> exists s n, live !! s = Some n /\ s <= i < s + n;
  hi_count : m_allocated_chunks h = rng m (m_bitmap h) 0 (m_total_chunks h);
}.

(** Everything but the block of [n] chunks at [s] and the bitmap is kept. *)
Definition keeps (h : Heap) (s n : Z) (m m' : memory) : Prop :=
  forall a, ~ in_block h s n a ->
    a < m_data (m_bitmap h) \/ m_data (m_bitmap h) + m_total_chunks h / 8 < a ->
    m_bytes m' a = m_bytes m a.

End Heap.
End Heap.

(** ** Lemmas *)

Module HeapFacts.
Import Heap.

Lemma rng_const m v lo hi (b : bool) :
  lo <= hi -> (forall i, lo <= i < hi -> bit m v i = b) ->
  rng m v lo hi = if b then hi - lo else 0.
Proof.
  intros Hl Hb. unfold rng. rewrite (count_below_ext _ _ (fun _ => b)) by (intros; apply Hb; lia).
  rewrite <- (Z2Nat.id (hi - lo)) at 2 by lia.
  induction (Z.to_nat (hi - lo)) as [|n IH]; [by destruct b|].
  cbn [count_below]. rewrite IH. destruct b; cbn; lia.
Qed.

Lemma rng_ext m m' v lo hi :
  (forall i, lo <= i < hi -> bit m' v i = bit m v i) -> rng m' v lo hi = rng m v lo hi.
Proof. intros H. unfold rng. apply count_below_ext. intros i Hi. apply H. lia. Qed.

Lemma rng_bounds m v lo hi : lo <= hi -> 0 <= rng m v lo hi <= hi - lo.
Proof. intros. unfold rng. pose proof (count_below_bounds (Z.to_nat (hi - lo)) (fun i => bit m v (lo + i))). lia. Qed.

Lemma view_ok_ext slack m m' v :
  view_ok slack m v -> bytes_wf m' -> m_valid m' = m_valid m -> view_ok slack m' v.
Proof. intros [H1 H2 H3 H4 H5] Hw Hv. split; try done. by rewrite Hv. Qed.

Lemma view_ok_weaken slack m v : view_ok slack m v -> 0 <= slack -> view_ok 0 m v.
Proof. intros [H1 H2 H3 H4 H5] Hs. split; try done. intros i Hi. apply H5. lia. Qed.

Lemma bit_same m m' v i :
  (forall a, m_data v <= a < m_data v + (m_size v + 7) / 8 -> m_bytes m' a = m_bytes m a) ->
  0 <= i < m_size v -> bit m' v i = bit m v i.
Proof.
  intros H Hi. unfold bit. rewrite H; [done|]. Z.to_euclidean_division_equations. lia.
Qed.

Section Facts.
Context (K : Z) (HK : 8 <= K).

Lemma chunk_addr_mono h s t : s <= t -> chunk_addr K h s <= chunk_addr K h t.
Proof. unfold chunk_addr. nia. Qed.

Lemma chunk_addr_add h s n : chunk_addr K h (s + n) = chunk_addr K h s + n * K.
Proof. unfold chunk_addr. lia. Qed.

Lemma chunks_end_addr h : chunks_end K h = chunk_addr K h (m_total_chunks h).
Proof. done. Qed.

Lemma heap_ok_ext m m' h :
  heap_ok K m h -> bytes_wf m' -> m_valid m' = m_valid m -> heap_ok K m' h.
Proof.
  intros [H1 H2 H3 H4 H5] Hw Hv. split; try done; [by eapply view_ok_ext|].
  by rewrite Hv.
Qed.

Lemma heap_ok_allocated m h n : heap_ok K m h -> heap_ok K m (with_allocated h n).
Proof. intros [H1 H2 H3 H4 H5]. by split. Qed.

Lemma block_valid m h s n a :
  heap_ok K m h -> 0 <= s -> s + n <= m_total_chunks h -> in_block K h s n a -> m_valid m a = true.
Proof.
  intros Hok Hs Hn Ha. apply (ho_valid _ _ _ Hok). rewrite chunks_end_addr.
  pose proof (chunk_addr_mono h 0 s Hs). pose proof (chunk_addr_mono h _ _ Hn).
  unfold in_block in Ha. unfold chunk_addr in *. lia.
Qed.

(** A request whose size does not wrap around gets enough whole chunks. *)
Lemma chunks_needed_spec size :
  0 <= size -> size + 4 + K <= 2 ^ 32 ->
  chunks_needed_for K size = (size + 4 + K - 1) / K /\
  1 <= chunks_needed_for K size < 2 ^ 32 /\ size + 4 <= chunks_needed_for K size * K.
Proof.
  intros Hs Hb. unfold chunks_needed_for, header_size.
  rewrite !(wrap_id U32) by (try done; rewrite ?wrap_id by (try done; apply in_ty_spec; cbn; lia);
                             apply in_ty_spec; cbn; lia).
  split; [done|]. pose proof (Z.div_mod (size + 4 + K - 1) K ltac:(lia)).
  pose proof (Z.mod_pos_bound (size + 4 + K - 1) K ltac:(lia)).
  assert ((size + 4 + K - 1) / K < 2 ^ 32) by (apply Z.div_lt_upper_bound; nia).
  split; [|nia]. split; [|lia]. apply Z.div_le_lower_bound; lia.
Qed.

(** The bitmap search of [allocate] is total, sound and complete. *)
Lemma find_chunks_spec m h n :
  heap_ok K m h -> 1 <= n < 2 ^ 32 ->
  exists o, find_chunks m h n = Ok o /\
    match o with
    | Some s => fits m (m_bitmap h) n s
    | None => forall s, ~ fits m (m_bitmap h) n s
    end.
Proof.
  intros Hok Hn. pose proof (view_ok_weaken 1 _ _ (ho_view _ _ _ Hok) ltac:(lia)) as Hv.
  pose proof (ok_size _ _ _ Hv) as Hsz. unfold find_chunks. case_if.
  - unfold find_first_fit.
    destruct (find_next_spec m (m_bitmap h) n n 0) as ([o st] & -> & Hr); [done|lia|lia|].
    unfold result_ok in Hr. cbn [res_bind fst snd] in *. rewrite search_start_0 in Hr by lia.
    eexists. split; [done|]. destruct o as [len|].
    + apply (found_fits m (m_bitmap h) n n 0 st len); [lia|lia|done].
    + intros s (H0 & He & Hu). destruct (Hr s H0 He) as (i & Hi & Hb).
      rewrite Hu in Hb by done. done.
  - unfold find_best_fit. pose proof (ho_size _ _ _ Hok) as Hsz'.
    unfold best_fit_threshold, max_size in *.
    destruct (find_best_loop_spec (S (Z.to_nat (m_total_chunks h))) m (m_bitmap h) n 0 0 0xffffffff false)
      as (o & -> & Ho); [done|lia|lia|rewrite search_start_0; lia|done|].
    exists o. split; [done|]. destruct o as [s|]; [done|]. destruct Ho as [_ Hr].
    rewrite search_start_0 in Hr by lia. intros s (H0 & He & Hu).
    destruct (Hr s H0 He) as (i & Hi & Hb). rewrite Hu in Hb by done. done.
Qed.

(** Bytes of the chunks are no bytes of the bitmap. *)
Lemma bits_of_chunk_write m m' h lo hi :
  heap_ok K m h -> hi <= m_total_chunks h ->
  (forall a, a < chunk_addr K h lo \/ chunk_addr K h hi <= a -> m_bytes m' a = m_bytes m a) ->
  forall i, 0 <= i < m_total_chunks h -> bit m' (m_bitmap h) i = bit m (m_bitmap h) i.
Proof.
  intros Hok Hhi Hb i Hi. apply bit_same; [|rewrite (ho_size _ _ _ Hok); lia].
  intros a Ha. apply Hb. right. rewrite (ho_data _ _ _ Hok), chunks_end_addr in Ha.
  pose proof (chunk_addr_mono h _ _ Hhi). lia.
Qed.

(** Scrubbing part of a block, if the heap scrubs at all. *)
Lemma scrub_block m h s n byte a len :
  heap_ok K m h -> 0 <= s -> s + n <= m_total_chunks h -> 0 <= byte < 256 -> 0 <= len ->
  chunk_addr K h s <= a -> a + len <= chunk_addr K h (s + n) ->
  exists m', (if negb (byte =? 0) then memset m a byte len else Ok m) = Ok m' /\
    m_valid m' = m_valid m /\ bytes_wf m' /\
    (forall b, b < a \/ a + len <= b -> m_bytes m' b = m_bytes m b).
Proof.
  intros Hok Hs Hn Hb Hl Ha He. pose proof (ok_bytes _ _ _ (ho_view _ _ _ Hok)) as Hw.
  case_if; [|by exists m]. destruct (memset_ok m a byte len) as (m' & Em & V & B); [done|done| |].
  { intros b Hb'. eapply (block_valid m h s n); [done..|]. unfold in_block. lia. }
  exists m'. split; [done|]. split; [done|]. split.
  - intros b. rewrite B. case_if; [lia|apply Hw].
  - intros b Hb'. rewrite B. case_if; [lia|done].
Qed.

Context (SA SF : Z) (HSA : 0 <= SA < 256) (HSF : 0 <= SF < 256).

(** The writes of [allocate] for a fitting range: header, bits, scrubbing. *)
Lemma mark_block m h s n :
  heap_ok K m h -> 1 <= n < 2 ^ 32 -> fits m (m_bitmap h) n s ->
  exists m1 m2 m3,
    store32 m (chunk_addr K h s) n = Ok m1 /\
    set_range true true m1 (m_bitmap h) s n = Ok m2 /\
    (if negb (SA =? 0) then memset m2 (chunk_addr K h s + header_size) SA (n * K - header_size)
     else Ok m2) = Ok m3 /\
    m_valid m3 = m_valid m /\ bytes_wf m3 /\ word_at m3 (chunk_addr K h s) = n /\
    keeps K h s n m m3 /\
    (forall i, 0 <= i < m_total_chunks h ->
       bit m3 (m_bitmap h) i = if in_range s n i then true else bit m (m_bitmap h) i).
Proof using HK HSA.
  clear HSF.
  intros Hok Hn (Hs & He & Hu). pose proof (ho_size _ _ _ Hok) as Hsz. rewrite Hsz in He.
  pose proof (ok_bytes _ _ _ (ho_view _ _ _ Hok)) as Hw. unfold header_size.
  pose proof (chunk_addr_add h s n) as Hadd. pose proof (chunk_addr_mono h _ _ He) as Hend.
  destruct (store32_ok m (chunk_addr K h s) n) as (m1 & E1 & V1 & W1 & H1 & B1); [done|lia| |].
  { intros i Hi. eapply (block_valid m h s n); [done..|]. unfold in_block. nia. }
  pose proof (heap_ok_ext m m1 h Hok W1 V1) as Hok1.
  assert (forall i, 0 <= i < m_total_chunks h -> bit m1 (m_bitmap h) i = bit m (m_bitmap h) i) as Hb1.
  { apply (bits_of_chunk_write m m1 h s (s + n)); [done..|]. intros a Ha. apply B1. nia. }
  destruct (set_range_spec true true m1 (m_bitmap h) s n) as (m2 & E2 & (V2 & W2 & B2) & F2).
  { apply Hok1. } { lia. } { lia. } { lia. }
  { intros _ i Hi. unfold checked_bit, in_range in Hi. rewrite Hb1 by lia. apply Hu. lia. }
  pose proof (heap_ok_ext m1 m2 h Hok1 W2 V2) as Hok2.
  destruct (scrub_block m2 h s n SA (chunk_addr K h s + 4) (n * K - 4)) as (m3 & E3 & V3 & W3 & B3);
    [done|done|done|done|nia|lia|lia|].
  exists m1, m2, m3. split; [done|]. split; [done|]. split; [done|].
  split; [congruence|]. split; [done|]. pose proof (ho_data _ _ _ Hok) as Hd.
  rewrite chunks_end_addr in Hd. rewrite Hd in F2. split; [|split].
  - rewrite (word_at_ext m1 m3); [done|]. intros i Hi. rewrite B3 by lia.
    apply F2. left. assert (0 <= s / 8) by (apply Z.div_pos; lia). nia.
  - intros a Ha1 Ha2. unfold in_block in Ha1. rewrite B3 by lia. rewrite F2.
    + apply B1. nia.
    + rewrite Hd in Ha2. assert (0 <= s / 8) by (apply Z.div_pos; lia).
      assert ((s + n) / 8 <= m_total_chunks h / 8) by (apply Z.div_le_mono; lia). lia.
  - intros i Hi. rewrite (bits_of_chunk_write m2 m3 h s (s + n) Hok2 He) by (done || (intros; apply B3; lia)).
    rewrite B2 by lia. case_if; [done|]. by apply Hb1.
Qed.

Lemma fits_fresh m h live s n :
  heap_inv K m h live -> 1 <= n -> fits m (m_bitmap h) n s ->
  forall s' n', live !! s' = Some n' -> s' + n' <= s \/ s + n <= s'.
Proof using HK.
  clear HSA HSF.
  intros Hi Hn (Hs & He & Hu) s' n' Hl.
  destruct (hi_live _ _ _ _ Hi s' n' Hl) as (L1 & L2 & L3 & _).
  destruct (Z.le_gt_cases (s' + n') s); [by left|].
  destruct (Z.le_gt_cases (s + n) s'); [by right|]. exfalso.
  assert (bit m (m_bitmap h) (Z.max s s') = true) as Hb.
  { apply (hi_bits _ _ _ _ Hi); [lia|]. exists s', n'. split; [done|lia]. }
  rewrite Hu in Hb by lia. done.
Qed.

Lemma fits_room m h live s n :
  heap_inv K m h live -> 1 <= n -> fits m (m_bitmap h) n s -> m_allocated_chunks h + n <= m_total_chunks h.
Proof using HK.
  clear HSA HSF.
  intros Hi Hn (Hs & He & Hu). rewrite (hi_count _ _ _ _ Hi).
  rewrite (ho_size _ _ _ (hi_ok _ _ _ _ Hi)) in He.
  rewrite (rng_split _ _ 0 s), (rng_split _ _ s (s + n)) by lia.
  rewrite (rng_const _ _ s (s + n) false) by (done || lia).
  pose proof (rng_bounds m (m_bitmap h) 0 s Hs).
  pose proof (rng_bounds m (m_bitmap h) (s + n) (m_total_chunks h) He). lia.
Qed.

Lemma allocated_bounds m h live :
  heap_inv K m h live -> 0 <= m_allocated_chunks h <= m_total_chunks h /\ m_total_chunks h < 2 ^ 32.
Proof using HK.
  clear HSA HSF.
  intros Hi. pose proof (ok_size _ _ _ (ho_view _ _ _ (hi_ok _ _ _ _ Hi))) as Hsz.
  rewrite (ho_size _ _ _ (hi_ok _ _ _ _ Hi)) in Hsz. rewrite (hi_count _ _ _ _ Hi).
  pose proof (rng_bounds m (m_bitmap h) 0 (m_total_chunks h)). lia.
Qed.

Lemma wrap_small z : 0 <= z < 2 ^ 32 -> wrap size_t z = z.
Proof. intros. apply wrap_id; [done|]. apply in_ty_spec. cbn. lia. Qed.

(** Blocks that do not share a chunk do not share a byte, and no chunk is in
    the bitmap. *)
Lemma keeps_block m m' h s n s' n' a :
  keeps K h s n m m' -> heap_ok K m h -> s' + n' <= m_total_chunks h ->
  s' + n' <= s \/ s + n <= s' -> in_block K h s' n' a -> m_bytes m' a = m_bytes m a.
Proof using HK.
  clear HSA HSF.
  intros Hk Hok Hn Hd Ha. apply Hk.
  - unfold in_block in *. intros Hb. destruct Hd as [Hd|Hd];
      apply (chunk_addr_mono h) in Hd; lia.
  - left. rewrite (ho_data _ _ _ Hok), chunks_end_addr.
    apply (chunk_addr_mono h) in Hn. unfold in_block in Ha. lia.
Qed.

Lemma inv_insert m m' h live s n :
  heap_inv K m h live -> 1 <= n -> fits m (m_bitmap h) n s ->
  m_valid m' = m_valid m -> bytes_wf m' -> word_at m' (chunk_addr K h s) = n ->
  keeps K h s n m m' ->
  (forall i, 0 <= i < m_total_chunks h ->
     bit m' (m_bitmap h) i = if in_range s n i then true else bit m (m_bitmap h) i) ->
  heap_inv K m' (with_allocated h (m_allocated_chunks h + n)) (<[s := n]> live).
Proof using HK.
  clear HSA HSF.
  intros Hi Hn Hf V W H K' B. pose proof (fits_fresh _ _ _ _ _ Hi Hn Hf) as Hfresh.
  pose proof (hi_ok _ _ _ _ Hi) as Hok. pose proof Hf as (Hs & He & Hu).
  rewrite (ho_size _ _ _ Hok) in He. split; cbn [with_allocated m_total_chunks m_bitmap m_allocated_chunks].
  - apply heap_ok_allocated. by eapply heap_ok_ext.
  - intros s' n' [[<- <-]|[Hne Hl]]%lookup_insert_Some; [done|].
    destruct (hi_live _ _ _ _ Hi s' n' Hl) as (L1 & L2 & L3 & L4). do 3 (split; [done|]).
    rewrite <- L4. apply word_at_ext. intros i Hi'. unfold chunk_addr in *. cbn.
    eapply (keeps_block m m' h s n s' n'); [done|done|done|by apply Hfresh|].
    unfold in_block, chunk_addr. nia.
  - intros s1 n1 s2 n2 [[<- <-]|[Hn1 H1]]%lookup_insert_Some [[<- <-]|[Hn2 H2]]%lookup_insert_Some Hne.
    + done.
    + destruct (Hfresh _ _ H2); lia.
    + destruct (Hfresh _ _ H1); lia.
    + by eapply (hi_disjoint _ _ _ _ Hi).
  - intros i Hi'. rewrite B by done. unfold in_range. destruct (decide (s <= i < s + n)).
    + replace ((s <=? i) && (i <? s + n)) with true by lia. split; [|done].
      intros _. exists s, n. by rewrite lookup_insert_eq.
    + replace ((s <=? i) && (i <? s + n)) with false by lia. rewrite (hi_bits _ _ _ _ Hi) by done.
      split; intros (s' & n' & Hl & Hr); exists s', n'; (split; [|done]).
      * apply lookup_insert_Some. right. split; [|done]. intros <-.
        destruct (Hfresh _ _ Hl); lia.
      * apply lookup_insert_Some in Hl as [[<- <-]|[_ Hl]]; [lia|done].
  - rewrite (hi_count _ _ _ _ Hi).
    rewrite !(rng_split _ _ 0 s (m_total_chunks h)), !(rng_split _ _ s (s + n) (m_total_chunks h)) by lia.
    rewrite (rng_const m _ s (s + n) false), (rng_const m' _ s (s + n) true); try lia; try done.
    + rewrite (rng_ext m m' _ 0 s), (rng_ext m m' _ (s + n) (m_total_chunks h)); [lia|..];
        intros i Hi'; rewrite B by lia; unfold in_range; case_if; [lia|done|lia|done].
    + intros i Hi'. rewrite B by lia. unfold in_range. case_if; [done|lia].
Qed.

Lemma allocate_spec m h live size :
  heap_inv K m h live -> 0 <= size -> size + 4 + K <= 2 ^ 32 ->
  exists m' h' p, allocate K SA m h size = Ok (m', h', p) /\
    ((p = nullptr /\ m' = m /\ h' = h /\ forall s, ~ fits m (m_bitmap h) (chunks_needed_for K size) s) \/
     exists s, p = chunk_addr K h s + header_size /\ fits m (m_bitmap h) (chunks_needed_for K size) s /\
       h' = with_allocated h (m_allocated_chunks h + chunks_needed_for K size) /\
       heap_inv K m' h' (<[s := chunks_needed_for K size]> live) /\
       m_valid m' = m_valid m /\ keeps K h s (chunks_needed_for K size) m m').
Proof using HK HSA.
  clear HSF.
  intros Hi Hs Hb. destruct (chunks_needed_spec size Hs Hb) as (_ & Hn & _).
  unfold allocate. set (n := chunks_needed_for K size) in *.
  pose proof (hi_ok _ _ _ _ Hi) as Hok. pose proof (allocated_bounds _ _ _ Hi) as Ha.
  unfold free_chunks. rewrite wrap_small by lia.
  case_if.
  { do 3 eexists. split; [done|]. left. do 3 (split; [done|]). intros s Hf.
    pose proof (fits_room m h live s n Hi ltac:(lia) Hf). lia. }
  destruct (find_chunks_spec m h n Hok Hn) as (o & -> & Ho). cbn [res_bind].
  destruct o as [s|].
  - destruct (mark_block m h s n Hok Hn Ho) as (m1 & m2 & m3 & E1 & E2 & E3 & V & W & H & Kp & B).
    pose proof (fits_room m h live s n Hi ltac:(lia) Ho).
    unfold chunk_addr in E1, E3. rewrite E1. cbn [res_bind].
    unfold set_range_and_verify_that_all_bits_flip. rewrite E2. cbn [res_bind]. rewrite E3. cbn [res_bind].
    rewrite wrap_small by lia. do 3 eexists. split; [done|]. right. exists s.
    do 3 (split; [done|]). split; [|done]. eapply inv_insert; try done. lia.
  - do 3 eexists. split; [done|]. by left.
Qed.

Lemma live_bits m h live s n i :
  heap_inv K m h live -> live !! s = Some n -> s <= i < s + n -> bit m (m_bitmap h) i = true.
Proof using HK.
  clear HSA HSF.
  intros Hi Hl Hr. destruct (hi_live _ _ _ _ Hi s n Hl) as (L1 & L2 & L3 & _).
  apply (hi_bits _ _ _ _ Hi); [lia|]. by exists s, n.
Qed.

Lemma live_count m h live s n :
  heap_inv K m h live -> live !! s = Some n -> n <= m_allocated_chunks h.
Proof using HK.
  clear HSA HSF.
  intros Hi Hl. destruct (hi_live _ _ _ _ Hi s n Hl) as (L1 & L2 & L3 & _).
  rewrite (hi_count _ _ _ _ Hi).
  rewrite (rng_split _ _ 0 s), (rng_split _ _ s (s + n)) by lia.
  rewrite (rng_const _ _ s (s + n) true) by (lia || (intros; by eapply live_bits)).
  pose proof (rng_bounds m (m_bitmap h) 0 s L1).
  pose proof (rng_bounds m (m_bitmap h) (s + n) (m_total_chunks h) L3). lia.
Qed.

Lemma inv_delete m m' h live s n :
  heap_inv K m h live -> live !! s = Some n ->
  m_valid m' = m_valid m -> bytes_wf m' -> keeps K h s n m m' ->
  (forall i, 0 <= i < m_total_chunks h ->
     bit m' (m_bitmap h) i = if in_range s n i then false else bit m (m_bitmap h) i) ->
  heap_inv K m' (with_allocated h (m_allocated_chunks h - n)) (delete s live).
Proof using HK.
  clear HSA HSF.
  intros Hi Hl V W K' B. pose proof (hi_ok _ _ _ _ Hi) as Hok.
  destruct (hi_live _ _ _ _ Hi s n Hl) as (L1 & L2 & L3 & L4).
  split; cbn [with_allocated m_total_chunks m_bitmap m_allocated_chunks].
  - apply heap_ok_allocated. by eapply heap_ok_ext.
  - intros s' n' [Hne Hl']%lookup_delete_Some.
    destruct (hi_live _ _ _ _ Hi s' n' Hl') as (M1 & M2 & M3 & M4). do 3 (split; [done|]).
    rewrite <- M4. apply word_at_ext. intros i Hi'. unfold chunk_addr in *. cbn.
    eapply (keeps_block m m' h s n s' n'); [done|done|done| |].
    + destruct (hi_disjoint _ _ _ _ Hi _ _ _ _ Hl' Hl); auto.
    + unfold in_block, chunk_addr. nia.
  - intros s1 n1 s2 n2 [Hn1 H1]%lookup_delete_Some [Hn2 H2]%lookup_delete_Some Hne.
    by eapply (hi_disjoint _ _ _ _ Hi).
  - intros i Hi'. rewrite B by done. unfold in_range. destruct (decide (s <= i < s + n)).
    + replace ((s <=? i) && (i <? s + n)) with true by lia. split; [done|].
      intros (s' & n' & [Hne Hl']%lookup_delete_Some & Hr).
      destruct (hi_disjoint _ _ _ _ Hi _ _ _ _ Hl Hl' Hne); lia.
    + replace ((s <=? i) && (i <? s + n)) with false by lia. rewrite (hi_bits _ _ _ _ Hi) by done.
      split; intros (s' & n' & Hl' & Hr); exists s', n'; (split; [|done]).
      * apply lookup_delete_Some. split; [|done]. intros <-. rewrite Hl in Hl'.
        injection Hl' as <-. done.
      * by apply lookup_delete_Some in Hl' as [_ Hl'].
  - rewrite (hi_count _ _ _ _ Hi).
    rewrite !(rng_split _ _ 0 s (m_total_chunks h)), !(rng_split _ _ s (s + n) (m_total_chunks h)) by lia.
    rewrite (rng_const m' _ s (s + n) false), (rng_const m _ s (s + n) true); try lia.
    + rewrite (rng_ext m m' _ 0 s), (rng_ext m m' _ (s + n) (m_total_chunks h)); [lia|..];
        intros i Hi'; rewrite B by lia; unfold in_range; case_if; [lia|done|lia|done].
    + intros i Hi'. by eapply live_bits.
    + intros i Hi'. rewrite B by lia. unfold in_range. case_if; [done|lia].
Qed.

Lemma start_of_ptr h s : (chunk_addr K h s + header_size - header_size - m_chunks h) / K = s.
Proof using HK.
  clear HSA HSF.
  unfold chunk_addr. replace (m_chunks h + s * K + header_size - header_size - m_chunks h) with (s * K) by lia.
  apply Z.div_mul. lia.
Qed.

(** The range check of [deallocate] and [reallocate] on a live pointer. *)
Lemma ptr_in_chunks h s :
  0 <= s < m_total_chunks h ->
  (m_chunks h <=? chunk_addr K h s + header_size - header_size) &&
  (chunk_addr K h s + header_size <? chunks_end K h) = true.
Proof using HK.
  clear HSA HSF.
  intros Hs. unfold chunk_addr, chunks_end, header_size. nia. Qed.

Lemma block_size_wrap m h s n :
  heap_ok K m h -> 0 <= s -> 1 <= n -> s + n <= m_total_chunks h ->
  wrap size_t (n * K) = n * K /\ chunk_addr K h s + n * K <= chunks_end K h.
Proof using HK.
  clear HSA HSF.
  intros Hok Hs Hn He. pose proof (ok_top _ _ _ (ho_view _ _ _ Hok)) as Ht.
  rewrite (ho_data _ _ _ Hok), (ho_size _ _ _ Hok) in Ht. pose proof (ho_base _ _ _ Hok).
  assert (0 <= m_total_chunks h / 8) by (apply Z.div_pos; lia).
  unfold chunks_end, chunk_addr in *. split; [apply wrap_small|]; nia.
Qed.

Lemma deallocate_spec m h live s n :
  heap_inv K m h live -> live !! s = Some n ->
  exists m' h', deallocate K SF m h (chunk_addr K h s + header_size) = Ok (m', h') /\
    h' = with_allocated h (m_allocated_chunks h - n) /\
    heap_inv K m' h' (delete s live) /\ m_valid m' = m_valid m /\ keeps K h s n m m'.
Proof using HK HSF.
  clear HSA.
  intros Hi Hl. pose proof (hi_ok _ _ _ _ Hi) as Hok. pose proof (ho_view _ _ _ Hok) as Hv.
  destruct (hi_live _ _ _ _ Hi s n Hl) as (L1 & L2 & L3 & L4).
  pose proof (ho_size _ _ _ Hok) as Hsz. pose proof (ho_data _ _ _ Hok) as Hd.
  destruct (block_size_wrap m h s n Hok L1 L2 L3) as [Hw1 Hw2].
  pose proof (ok_size _ _ _ Hv) as Hb. pose proof (live_count _ _ _ _ _ Hi Hl) as Hc.
  unfold deallocate, nullptr.
  rewrite (proj2 (Z.eqb_neq _ 0)) by (unfold chunk_addr, header_size; pose proof (ho_base _ _ _ Hok); nia).
  rewrite ptr_in_chunks, start_of_ptr by lia. cbn [verify res_bind].
  replace (chunk_addr K h s + header_size - header_size) with (chunk_addr K h s) by lia.
  rewrite (get_spec 1), (live_bits _ _ _ _ _ s Hi Hl) by (done || lia). cbn [verify res_bind].
  assert (forall i, 0 <= i < 4 -> m_valid m (chunk_addr K h s + i) = true) as Hhv.
  { intros i Hi'. eapply (block_valid m h s n); [done..|].
    unfold in_block. rewrite chunk_addr_add. nia. }
  rewrite load32_ok, L4 by done. cbn [res_bind]. rewrite Hw1.
  rewrite (proj2 (Z.leb_le _ _)) by lia. cbn [verify res_bind].
  unfold set_range_and_verify_that_all_bits_flip.
  destruct (set_range_spec false true m (m_bitmap h) s n) as (m1 & -> & (V1 & W1 & B1) & F1);
    [done|lia|lia|lia| |].
  { intros _ i Hi'. unfold checked_bit, in_range in Hi'. eapply live_bits; [done..|lia]. }
  cbn [res_bind]. assert (0 <= s / 8) by (apply Z.div_pos; lia).
  rewrite Hd in F1.
  rewrite load32_ok by (by rewrite V1). rewrite (word_at_ext m m1), L4.
  2: { intros i Hi'. apply F1. left. nia. }
  cbn [res_bind]. rewrite (proj2 (Z.leb_le _ _)) by lia. cbn [verify res_bind]. rewrite Hw1.
  pose proof (heap_ok_ext m m1 h Hok W1 V1) as Hok1.
  destruct (scrub_block m1 h s n SF (chunk_addr K h s) (n * K)) as (m2 & -> & V2 & W2 & B2);
    [done|done|done|done|nia|lia|rewrite chunk_addr_add; lia|].
  cbn [res_bind]. assert (keeps K h s n m m2) as Kp.
  { intros a Ha1 Ha2. unfold in_block in Ha1. rewrite chunk_addr_add in Ha1.
    rewrite B2, F1; [done|rewrite Hd in Ha2|lia].
    assert ((s + n) / 8 <= m_total_chunks h / 8) by (apply Z.div_le_mono; lia). lia. }
  do 2 eexists. split; [done|]. split; [done|]. split; [|split; [congruence|done]].
  eapply inv_delete; [done|done|congruence|done|done|].
  intros i Hi'. rewrite (bits_of_chunk_write m1 m2 h s (s + n) Hok1 L3); [|intros; apply B2|lia].
  - by rewrite B1 by lia.
  - rewrite chunk_addr_add in *. lia.
Qed.

(** Freeing a chunk that is not allocated stops on the first assertion. *)
Lemma deallocate_unallocated m h s :
  heap_ok K m h -> 0 <= s < m_total_chunks h -> bit m (m_bitmap h) s = false ->
  deallocate K SF m h (chunk_addr K h s + header_size) = Fault VerifyFailed.
Proof using HK.
  clear HSA HSF.
  intros Hok Hs Hb. pose proof (ho_view _ _ _ Hok) as Hv. pose proof (ho_size _ _ _ Hok) as Hsz.
  unfold deallocate, nullptr.
  rewrite (proj2 (Z.eqb_neq _ 0)) by (unfold chunk_addr, header_size; pose proof (ho_base _ _ _ Hok); nia).
  rewrite ptr_in_chunks, start_of_ptr by lia. cbn [verify res_bind].
  by rewrite (get_spec 1), Hb by (done || lia).
Qed.

(** A heap made in zeroed memory has no allocation. *)
Lemma make_inv m memory memory_size :
  bytes_wf m -> 0 <= memory -> memory + memory_size + 8 < 2 ^ 32 -> 2 * (K + 1) <= memory_size ->
  (forall a, memory <= a < memory + memory_size -> m_valid m a = true /\ m_bytes m a = 0) ->
  exists h, make K memory memory_size = Ok h /\ m_chunks h = memory /\ heap_inv K m h ∅.
Proof using HK.
  clear HSA HSF.
  intros Hw Hm Ht Hsz Hz. unfold make, calculate_chunks.
  set (t := memory_size / (K + 1)).
  assert (2 <= t) by (apply Z.div_le_lower_bound; lia).
  assert (t * (K + 1) <= memory_size) by (pose proof (Z.mul_div_le memory_size (K + 1)); lia).
  assert ((t + 7) / 8 + 1 <= t) by (Z.to_euclidean_division_equations; lia).
  assert (0 <= t / 8 < t) by (Z.to_euclidean_division_equations; lia).
  rewrite (proj2 (Z.leb_le _ _)) by lia. cbn [verify res_bind].
  eexists. split; [done|]. split; [done|].
  assert (forall i, 0 <= i < t -> bit m (mkBitmapView (memory + t * K) t) i = false) as Hbit.
  { intros i Hi. unfold bit. cbn. destruct (Hz (memory + t * K + i / 8)) as [_ ->];
      [|apply Z.testbit_0_l]. assert (0 <= i / 8 <= t / 8); [|lia].
    split; [apply Z.div_pos; lia|apply Z.div_le_mono; lia]. }
  split; cbn [m_total_chunks m_bitmap m_allocated_chunks].
  - split; cbn; try done; try lia.
    + split; cbn; try done; try nia. intros i Hi. apply Hz. nia.
    + unfold chunks_end. cbn. intros a Ha. apply Hz. nia.
  - intros s n Hl. by rewrite lookup_empty in Hl.
  - intros s n s' n' Hl. by rewrite lookup_empty in Hl.
  - intros i Hi. rewrite Hbit by done. split; [done|]. intros (s & n & Hl & _).
    by rewrite lookup_empty in Hl.
  - rewrite (rng_const _ _ 0 t false) by (done || lia). done.
Qed.

(** Writing the data of a live block keeps the invariant. *)
Lemma inv_write m m' h live s n :
  heap_inv K m h live -> live !! s = Some n -> m_valid m' = m_valid m -> bytes_wf m' ->
  (forall a, a < chunk_addr K h s + header_size \/ chunk_addr K h (s + n) <= a ->
     m_bytes m' a = m_bytes m a) ->
  heap_inv K m' h live.
Proof using HK.
  clear HSA HSF.
  intros Hi Hl V W F. pose proof (hi_ok _ _ _ _ Hi) as Hok. unfold header_size in F.
  destruct (hi_live _ _ _ _ Hi s n Hl) as (L1 & L2 & L3 & L4).
  assert (forall i, 0 <= i < m_total_chunks h -> bit m' (m_bitmap h) i = bit m (m_bitmap h) i) as Hb.
  { apply (bits_of_chunk_write m m' h s (s + n)); [done|done|]. intros a Ha. apply F. lia. }
  split.
  - by eapply heap_ok_ext.
  - intros s' n' Hl'. destruct (hi_live _ _ _ _ Hi s' n' Hl') as (M1 & M2 & M3 & M4).
    do 3 (split; [done|]). rewrite <- M4. apply word_at_ext. intros i Hi'. apply F.
    destruct (decide (s' = s)) as [->|Hne]; [lia|].
    destruct (hi_disjoint _ _ _ _ Hi _ _ _ _ Hl Hl') as [Hd|Hd]; [done| |].
    + right. apply (chunk_addr_mono h) in Hd. lia.
    + left. apply (chunk_addr_mono h) in Hd. rewrite chunk_addr_add in Hd. nia.
  - apply Hi.
  - intros i Hi'. rewrite Hb by done. by apply Hi.
  - rewrite (hi_count _ _ _ _ Hi). symmetry. apply rng_ext. intros i Hi'. by apply Hb.
Qed.

End Facts.

(** *** Runs of a heap *)

(** Requests of a client: an allocation, or giving back the [k]-th of the
    blocks it owns. *)
Inductive request :=
| Alloc (size : Z)
| Free (k : nat).

Record run := mkRun { r_mem : memory; r_heap : Heap; r_owned : list (Z * Z) }.

Definition serve (K SA SF : Z) (r : run) (q : request) : res run :=
  match q with
  | Alloc size =>
      let* (m, h, p) := allocate K SA (r_mem r) (r_heap r) size in
      Ok (mkRun m h (if p =? nullptr then r_owned r else r_owned r ++ [(p, size)]))
  | Free k =>
      match r_owned r !! k with
      | None => Ok r
      | Some (p, _) =>
          let* (m, h) := deallocate K SF (r_mem r) (r_heap r) p in
          Ok (mkRun m h (delete k (r_owned r)))
      end
  end.

Fixpoint serve_all (K SA SF : Z) (r : run) (qs : list request) : res run :=
  match qs with
  | [] => Ok r
  | q :: qs => let* r := serve K SA SF r q in serve_all K SA SF r qs
  end.

(** A request that does not wrap around. *)
Definition sensible (K : Z) (q : request) : Prop :=
  match q with
  | Alloc size => 0 <= size /\ size + 4 + K <= 2 ^ 32
  | Free _ => True
  end.

(** Every owned block is backed by a live allocation of its own. *)
Record run_inv (K : Z) (r : run) (live : gmap Z Z) : Prop := {
  ri_heap : heap_inv K (r_mem r) (r_heap r) live;
  ri_owned : forall i p size, r_owned r !! i = Some (p, size) -> 0 <= size /\
    exists s n, live !! s = Some n /\ p = chunk_addr K (r_heap r) s + header_size /\ size + 4 <= n * K;
  ri_distinct : forall i j p q, r_owned r !! i = Some p -> r_owned r !! j = Some q -> i <> j -> p.1 <> q.1;
}.

Section Runs.
Context (K SA SF : Z) (HK : 8 <= K) (HSA : 0 <= SA < 256) (HSF : 0 <= SF < 256).

Lemma chunk_addr_inj h s t : chunk_addr K h s = chunk_addr K h t -> s = t.
Proof using HK.
  clear HSA HSF. unfold chunk_addr. nia. Qed.

Lemma serve_alloc_ok r live size :
  run_inv K r live -> 0 <= size -> size + 4 + K <= 2 ^ 32 ->
  exists r' live', serve K SA SF r (Alloc size) = Ok r' /\ run_inv K r' live'.
Proof.
  intros [Hi Ho Hd] Hs Hb. cbn [serve].
  destruct (allocate_spec K HK SA HSA _ _ _ size Hi Hs Hb) as (m' & h' & p & -> & [Hn|Ha]);
    cbn [res_bind].
  - destruct Hn as (-> & -> & -> & _). eexists _, live. split; [done|]. cbn. by split.
  - destruct Ha as (s & -> & Hf & -> & Hi' & _ & _).
    destruct (chunks_needed_spec K HK size Hs Hb) as (_ & Hn & Hroom).
    pose proof (fits_fresh K HK _ _ _ s (chunks_needed_for K size) Hi ltac:(lia) Hf) as Hfresh.
    rewrite (proj2 (Z.eqb_neq _ nullptr)).
    2: { unfold chunk_addr, header_size, nullptr. destruct Hf.
         pose proof (ho_base _ _ _ (hi_ok _ _ _ _ Hi)). nia. }
    eexists _, _. split; [done|]. split; cbn [r_mem r_heap r_owned]; [done|..].
    + intros i p sz [Hl|[_ Hl]]%lookup_app_Some.
      * destruct (Ho i p sz Hl) as (Hsz & s' & n' & Hl' & -> & Hr). split; [done|].
        exists s', n'. split; [|done]. rewrite lookup_insert_ne; [done|]. intros <-.
        destruct (hi_live _ _ _ _ Hi _ _ Hl'). destruct (Hfresh _ _ Hl'); lia.
      * apply list_lookup_singleton_Some in Hl as [_ [= <- <-]]. split; [done|].
        exists s, (chunks_needed_for K size). by rewrite lookup_insert_eq.
    + assert (forall i q, r_owned r !! i = Some q -> q.1 <> chunk_addr K (r_heap r) s + header_size) as Hne.
      { intros i [p sz] Hl E. cbn in E. destruct (Ho i p sz Hl) as (_ & s' & n' & Hl' & Ep & _).
        subst p. assert (s' = s) as -> by (apply (chunk_addr_inj (r_heap r)); lia).
        destruct (hi_live _ _ _ _ Hi _ _ Hl'). destruct (Hfresh _ _ Hl'); lia. }
      intros i j p q [Hp|[Hgp Hp]]%lookup_app_Some [Hq|[Hgq Hq]]%lookup_app_Some Hij.
      * by eapply Hd.
      * apply list_lookup_singleton_Some in Hq as [_ <-]. by eapply Hne.
      * apply list_lookup_singleton_Some in Hp as [_ <-]. apply not_eq_sym. by eapply Hne.
      * apply list_lookup_singleton_Some in Hp as [? _].
        apply list_lookup_singleton_Some in Hq as [? _]. lia.
Qed.

Lemma delete_lookup {A} (l : list A) k i x :
  delete k l !! i = Some x -> exists j, l !! j = Some x /\ j <> k /\ j = (if decide (i < k)%nat then i else S i).
Proof.
  intros H. destruct (decide (i < k)%nat) as [Hlt|Hge].
  - rewrite list_lookup_delete_lt in H by done. exists i. split; [done|]. split; [lia|done].
  - rewrite list_lookup_delete_ge in H by lia. exists (S i). split; [done|]. split; [lia|done].
Qed.

Lemma serve_free_ok r live k :
  run_inv K r live -> exists r' live', serve K SA SF r (Free k) = Ok r' /\ run_inv K r' live'.
Proof.
  intros [Hi Ho Hd]. cbn [serve]. destruct (r_owned r !! k) as [[p sz]|] eqn:Hk.
  2: { exists r, live. by split. }
  destruct (Ho k p sz Hk) as (_ & s & n & Hl & -> & _).
  destruct (deallocate_spec K HK SF HSF _ _ _ s n Hi Hl) as (m' & h' & -> & -> & Hi' & _ & _).
  cbn [res_bind]. eexists _, _. split; [done|]. split; cbn [r_mem r_heap r_owned]; [done|..].
  - intros i p' sz' (j & Hj & Hjk & _)%delete_lookup.
    destruct (Ho j p' sz' Hj) as (Hsz & s' & n' & Hl' & -> & Hr). split; [done|].
    exists s', n'. split; [|done]. rewrite lookup_delete_ne; [done|]. intros <-.
    by apply (Hd _ _ _ _ Hk Hj).
  - intros i j p' q (i' & Hi1 & _ & Ei)%delete_lookup (j' & Hj1 & _ & Ej)%delete_lookup Hij.
    eapply Hd; [done|done|]. subst i' j'. repeat case_decide; lia.
Qed.

Lemma serve_all_ok qs r live :
  run_inv K r live -> Forall (sensible K) qs ->
  exists r' live', serve_all K SA SF r qs = Ok r' /\ run_inv K r' live'.
Proof.
  revert r live. induction qs as [|q qs IH]; intros r live Hr Hq; cbn [serve_all].
  - by exists r, live.
  - apply Forall_cons in Hq as [Hq Hqs].
    assert (exists r' live', serve K SA SF r q = Ok r' /\ run_inv K r' live') as (r' & live' & -> & Hr').
    { destruct q; [destruct Hq; by eapply serve_alloc_ok|by eapply serve_free_ok]. }
    cbn [res_bind]. by eapply IH.
Qed.

(** Owned blocks are inside the chunks and do not overlap. *)
Lemma run_inv_disjoint r live i j p sp q sq :
  run_inv K r live -> r_owned r !! i = Some (p, sp) -> r_owned r !! j = Some (q, sq) -> i <> j ->
  p + sp <= q \/ q + sq <= p.
Proof using HK.
  clear HSA HSF.
  intros [Hi Ho Hd] Hp Hq Hij.
  destruct (Ho i p sp Hp) as (Hs1 & s & n & Hl & Ep & Hr).
  destruct (Ho j q sq Hq) as (Hs2 & s' & n' & Hl' & Eq & Hr').
  assert (s <> s') by (intros <-; apply (Hd _ _ _ _ Hp Hq Hij); cbn; lia).
  unfold header_size, chunk_addr in *.
  destruct (hi_disjoint _ _ _ _ Hi _ _ _ _ Hl Hl' ltac:(done)); [left|right]; nia.
Qed.

Lemma run_inv_inside r live i p sp :
  run_inv K r live -> r_owned r !! i = Some (p, sp) ->
  m_chunks (r_heap r) + header_size <= p /\ p + sp <= chunks_end K (r_heap r).
Proof using HK.
  clear HSA HSF.
  intros [Hi Ho Hd] Hp. destruct (Ho i p sp Hp) as (Hs1 & s & n & Hl & Ep & Hr).
  destruct (hi_live _ _ _ _ Hi _ _ Hl) as (L1 & L2 & L3 & _).
  unfold header_size, chunks_end, chunk_addr in *. nia.
Qed.

(** The pointer tests of [reallocate] on a live block. *)
Lemma reallocate_live m h live s n new_size :
  heap_inv K m h live -> live !! s = Some n ->
  reallocate K SA SF m h (chunk_addr K h s + header_size) new_size =
  if n * K =? new_size then Ok (m, h, chunk_addr K h s + header_size)
  else
    let* (m, h', new_ptr) := allocate K SA m h new_size in
    let* m :=
      if negb (new_ptr =? nullptr)
      then memcpy m new_ptr (chunk_addr K h s + header_size) (Memory.min (n * K) new_size)
      else Ok m in
    let* (m, h') := deallocate K SF m h' (chunk_addr K h s + header_size) in
    Ok (m, h', new_ptr).
Proof using HK.
  clear HSA HSF.
  intros Hi Hl. pose proof (hi_ok _ _ _ _ Hi) as Hok.
  destruct (hi_live _ _ _ _ Hi s n Hl) as (L1 & L2 & L3 & L4).
  destruct (block_size_wrap K HK m h s n Hok L1 L2 L3) as [Hw1 Hw2].
  unfold reallocate, nullptr.
  rewrite (proj2 (Z.eqb_neq _ 0)) by (unfold chunk_addr, header_size; pose proof (ho_base _ _ _ Hok); nia).
  rewrite (ptr_in_chunks K HK) by lia. cbn [verify res_bind].
  replace (chunk_addr K h s + header_size - header_size) with (chunk_addr K h s) by lia.
  rewrite load32_ok, L4.
  2: { intros i Hi'. eapply (block_valid K HK m h s n); [done..|].
       unfold in_block. rewrite chunk_addr_add. nia. }
  cbn [res_bind]. rewrite Hw1. by rewrite (proj2 (Z.leb_le _ _)) by lia.
Qed.

(** Moving a block: the copy stays inside the new block. *)
Lemma move_block m h live s n s2 n2 len :
  heap_inv K m h live -> live !! s = Some n -> live !! s2 = Some n2 -> s <> s2 ->
  0 <= len -> len + 4 <= n2 * K -> len <= n * K ->
  (forall a, chunks_end K h <= a < chunks_end K h + 4 -> m_valid m a = true) ->
  exists m', memcpy m (chunk_addr K h s2 + header_size) (chunk_addr K h s + header_size) len = Ok m' /\
    heap_inv K m' h live /\ m_valid m' = m_valid m /\
    (forall i, 0 <= i < len -> m_bytes m' (chunk_addr K h s2 + header_size + i)
                             = m_bytes m (chunk_addr K h s + header_size + i)) /\
    (forall a, ~ in_block K h s2 n2 a -> m_bytes m' a = m_bytes m a).
Proof using HK.
  clear HSA HSF.
  intros Hi Hl Hl2 Hne H0 Hn2 Hn Hv. unfold header_size.
  destruct (hi_live _ _ _ _ Hi s n Hl) as (L1 & L2 & L3 & _).
  destruct (hi_live _ _ _ _ Hi s2 n2 Hl2) as (M1 & M2 & M3 & _).
  pose proof (hi_ok _ _ _ _ Hi) as Hok.
  assert (forall a, m_chunks h <= a < chunks_end K h + 4 -> m_valid m a = true) as Hv'.
  { intros a Ha. destruct (Z.lt_ge_cases a (chunks_end K h)); [apply (ho_valid _ _ _ Hok)|apply Hv]; lia. }
  destruct (memcpy_ok m (chunk_addr K h s2 + 4) (chunk_addr K h s + 4) len) as (m' & E & V & W & B).
  - apply (ok_bytes _ _ _ (ho_view _ _ _ Hok)).
  - done.
  - unfold chunk_addr. destruct (hi_disjoint _ _ _ _ Hi _ _ _ _ Hl Hl2 Hne); nia.
  - intros i Hi'. split; apply Hv'; unfold chunk_addr, chunks_end in *; nia.
  - exists m'. split; [done|]. split; [|split; [done|split]].
    + eapply (inv_write K HK m m' h live s2 n2); [done..|]. unfold header_size.
      intros a Ha. rewrite B. rewrite chunk_addr_add in Ha. case_if; [lia|done].
    + intros i Hi'. rewrite B. replace (_ && _) with true by lia. f_equal. lia.
    + intros a Ha. rewrite B. unfold in_block in Ha. rewrite chunk_addr_add in Ha. case_if; [lia|done].
Qed.

End Runs.
End HeapFacts.

(** ** Properties *)

Import Heap HeapFacts.

(** C1: a heap made in zeroed memory serves any sequence of allocations (of sizes
    that do not wrap around) and of releases of owned blocks without a fault,
    and the blocks a client owns lie inside the chunks and never overlap. *)
Theorem heap_run_safe (K SA SF : Z) (m : memory) (memory memory_size : Z) (qs : list request) :
  8 <= K -> 0 <= SA < 256 -> 0 <= SF < 256 ->
  bytes_wf m -> 0 <= memory -> memory + memory_size + 8 < 2 ^ 32 -> 2 * (K + 1) <= memory_size ->
  (forall a, memory <= a < memory + memory_size -> m_valid m a = true /\ m_bytes m a = 0) ->
  Forall (sensible K) qs ->
  exists h r, make K memory memory_size = Ok h /\
    serve_all K SA SF (mkRun m h []) qs = Ok r /\
    (forall i p sp, r_owned r !! i = Some (p, sp) ->
       m_chunks (r_heap r) + header_size <= p /\ p + sp <= chunks_end K (r_heap r)) /\
    (forall i j p sp q sq, r_owned r !! i = Some (p, sp) -> r_owned r !! j = Some (q, sq) ->
       i <> j -> p + sp <= q \/ q + sq <= p).
Proof.
  intros HK HA HF Hw Hm Ht Hs Hz Hq.
  destruct (make_inv K HK m memory memory_size Hw Hm Ht Hs Hz) as (h & E & _ & Hi).
  destruct (serve_all_ok K SA SF HK HA HF qs (mkRun m h []) ∅) as (r & live & E' & Hr); [|done|].
  { split; cbn; [done|..]; intros i; by rewrite lookup_nil. }
  exists h, r. split; [done|]. split; [done|]. split; intros.
  - by eapply (run_inv_inside K HK).
  - by eapply (run_inv_disjoint K HK).
Qed.

(** Zeroed memory from 4096 on for the witnesses. *)
Definition arena : memory := mkMemory (fun _ => 0) (fun a => (4096 <=? a) && (a <? 4096 + 660)).

Lemma arena_zero a : 4096 <= a < 4096 + 660 -> m_valid arena a = true /\ m_bytes arena a = 0.
Proof. intros. cbn. split; [lia|done]. Qed.

Lemma heap_run_safe_witness :
  exists h r, make 32 4096 660 = Ok h /\
    serve_all 32 0xbb 0xaa (mkRun arena h []) [Alloc 10; Alloc 100; Free 0; Alloc 7] = Ok r /\
    (forall i p sp, r_owned r !! i = Some (p, sp) ->
       m_chunks (r_heap r) + header_size <= p /\ p + sp <= chunks_end 32 (r_heap r)) /\
    (forall i j p sp q sq, r_owned r !! i = Some (p, sp) -> r_owned r !! j = Some (q, sq) ->
       i <> j -> p + sp <= q \/ q + sq <= p).
Proof.
  apply (heap_run_safe 32 0xbb 0xaa arena 4096 660); try lia.
  - intros a. cbn. lia.
  - apply arena_zero.
  - repeat constructor; cbn; lia.
Defined.



(** C3: [deallocate] of the pointer of a live allocation succeeds, removes exactly
    that allocation from the invariant and writes only to its block and the
    bitmap; giving the same pointer back a second time fails the assertion. *)
Theorem heap_deallocate_correct (K SF : Z) (m : memory) (h : Heap) (live : gmap Z Z) (s n : Z) :
  8 <= K -> 0 <= SF < 256 -> heap_inv K m h live -> live !! s = Some n ->
  exists m' h', deallocate K SF m h (chunk_addr K h s + header_size) = Ok (m', h') /\
    heap_inv K m' h' (delete s live) /\ keeps K h s n m m' /\
    deallocate K SF m' h' (chunk_addr K h s + header_size) = Fault VerifyFailed.
Proof.
  intros HK HF Hi Hl.
  destruct (deallocate_spec K HK SF HF m h live s n Hi Hl) as (m' & h' & E & Eh & Hi' & _ & Hk).
  exists m', h'. split; [done|]. split; [done|]. split; [done|].
  destruct (hi_live _ _ _ _ Hi s n Hl) as (L1 & L2 & L3 & _). subst h'.
  apply (deallocate_unallocated K HK SF m' (with_allocated h (m_allocated_chunks h - n)) s);
    [apply Hi'|cbn; lia|].
  destruct (bit m' _ s) eqn:Eb; [|done]. apply (hi_bits _ _ _ _ Hi') in Eb; [|cbn; lia].
  destruct Eb as (s' & n' & [Hne Hl']%lookup_delete_Some & Hr).
  destruct (hi_disjoint _ _ _ _ Hi _ _ _ _ Hl Hl' Hne); lia.
Qed.

Lemma heap_deallocate_correct_witness :
  exists m h p m' h', allocate 32 0 m h 50 = Ok (m', h', p) /\
    exists m'' h'', deallocate 32 0 m' h' p = Ok (m'', h'') /\
      deallocate 32 0 m'' h'' p = Fault VerifyFailed.
Proof.
  destruct (make_inv 32 ltac:(lia) arena 4096 660) as (h & E & _ & Hi);
    [intros a; cbn; lia|lia|lia|lia|apply arena_zero|].
  injection E as <-.
  destruct (allocate_spec 32 ltac:(lia) 0 ltac:(lia) _ _ _ 50 Hi) as (m' & h' & p & E & [H|H]);
    [lia|lia| |].
  - exfalso. destruct H as (_ & _ & _ & H). apply (H 0). split; [lia|]. split; [vm_compute; done|].
    intros i Hi'. unfold bit. cbn. apply Z.testbit_0_l.
  - destruct H as (s & -> & _ & -> & Hi' & _ & _).
    destruct (heap_deallocate_correct 32 0 m' _ _ s (chunks_needed_for 32 50) ltac:(lia) ltac:(lia) Hi')
      as (m'' & h'' & E1 & _ & _ & E2).
    { apply lookup_insert_eq. }
    eexists _, _, _, _, _. split; [exact E|]. exists m'', h''. split; [exact E1|exact E2].
Defined.

(** [reallocate] of a live block to a size other than its chunks' size: when
    the heap has room the result is a new block that starts with the bytes of
    the old one and the old block is released; when it has none the result is
    null and the old block is released all the same. *)
Theorem heap_reallocate_correct (K SA SF : Z) (m : memory) (h : Heap) (live : gmap Z Z)
    (s n new_size : Z) :
  8 <= K -> 0 <= SA < 256 -> 0 <= SF < 256 -> heap_inv K m h live -> live !! s = Some n ->
  (forall a, chunks_end K h <= a < chunks_end K h + 4 -> m_valid m a = true) ->
  0 <= new_size -> new_size + 4 + K <= 2 ^ 32 -> new_size <> n * K ->
  let n2 := chunks_needed_for K new_size in
  exists m' h' p, reallocate K SA SF m h (chunk_addr K h s + header_size) new_size = Ok (m', h', p) /\
    ((p = nullptr /\ heap_inv K m' h' (delete s live)) \/
     exists s2, p = chunk_addr K h s2 + header_size /\ live !! s2 = None /\
       heap_inv K m' h' (delete s (<[s2 := n2]> live)) /\
       forall i, 0 <= i < Z.min (n * K - header_size) new_size ->
         m_bytes m' (p + i) = m_bytes m (chunk_addr K h s + header_size + i)).
Proof.
  intros HK HA HF Hi Hl Hv Hs Hb Hne n2.
  rewrite (reallocate_live K SA SF HK m h live s n) by done.
  rewrite (proj2 (Z.eqb_neq _ _)) by lia.
  destruct (chunks_needed_spec K HK new_size Hs Hb) as (_ & Hn2 & Hroom).
  destruct (hi_live _ _ _ _ Hi s n Hl) as (L1 & L2 & L3 & _).
  destruct (allocate_spec K HK SA HA m h live new_size Hi Hs Hb) as (m1 & h1 & p & -> & [H|H]);
    cbn [res_bind].
  { destruct H as (-> & -> & -> & _). cbn [negb nullptr Z.eqb res_bind].
    destruct (deallocate_spec K HK SF HF m h live s n Hi Hl) as (m' & h' & -> & _ & Hi' & _).
    cbn [res_bind]. do 3 eexists. split; [done|]. by left. }
  destruct H as (s2 & -> & Hf & -> & Hi1 & V1 & Kp1). fold n2 in Hf, Hi1, Kp1, Hn2, Hroom.
  pose proof (fits_fresh K HK m h live s2 n2 Hi ltac:(lia) Hf) as Hfresh.
  assert (s <> s2) by (intros <-; destruct (Hfresh _ _ Hl); lia).
  set (h1 := with_allocated h _) in *.
  assert (<[s2:=n2]> live !! s = Some n) as Hl1 by (by rewrite lookup_insert_ne).
  assert (<[s2:=n2]> live !! s2 = Some n2) as Hl2 by apply lookup_insert_eq.
  rewrite (proj2 (Z.eqb_neq _ nullptr)).
  2: { unfold chunk_addr, header_size, nullptr. destruct Hf.
       pose proof (ho_base _ _ _ (hi_ok _ _ _ _ Hi)). nia. }
  cbn [negb]. rewrite min_spec.
  destruct (move_block K HK m1 h1 (<[s2:=n2]> live) s n s2 n2 (Z.min (n * K) new_size))
    as (m2 & E2 & Hi2 & V2 & C2 & F2); [done|done|done|done|nia|lia|nia| |].
  { intros a Ha. rewrite V1. by apply Hv. }
  change (chunk_addr K h1) with (chunk_addr K h) in E2, C2.
  rewrite E2. cbn [res_bind].
  destruct (deallocate_spec K HK SF HF m2 h1 _ s n Hi2 Hl1) as (m3 & h3 & E3 & _ & Hi3 & _ & Kp3).
  change (chunk_addr K h1) with (chunk_addr K h) in E3. rewrite E3. cbn [res_bind].
  do 3 eexists. split; [done|]. right. exists s2. split; [done|].
  split; [apply eq_None_not_Some; intros [n' Hl']; destruct (hi_live _ _ _ _ Hi _ _ Hl');
          destruct (Hfresh _ _ Hl'); lia|].
  split; [done|]. intros i Hi'. unfold header_size in *.
  destruct (hi_live _ _ _ _ Hi2 s2 n2 Hl2) as (M1 & M2 & M3 & _).
  rewrite (keeps_block K HK m2 m3 h1 s n s2 n2 _ Kp3 (hi_ok _ _ _ _ Hi2) M3).
  - rewrite C2 by lia. apply (keeps_block K HK m m1 h s2 n2 s n _ Kp1 (hi_ok _ _ _ _ Hi) L3).
    + destruct (Hfresh _ _ Hl); lia.
    + unfold in_block. rewrite chunk_addr_add. lia.
  - destruct (Hfresh _ _ Hl); lia.
  - unfold in_block. rewrite chunk_addr_add. unfold chunk_addr. cbn. nia.
Qed.

Lemma heap_reallocate_correct_witness :
  exists m h p m' h', allocate 32 0 m h 50 = Ok (m', h', p) /\
    exists m'' h'' p', reallocate 32 0 0 m' h' p 7 = Ok (m'', h'', p').
Proof.
  destruct (make_inv 32 ltac:(lia) arena 4096 660) as (h & E & _ & Hi);
    [intros a; cbn; lia|lia|lia|lia|apply arena_zero|].
  injection E as <-.
  destruct (allocate_spec 32 ltac:(lia) 0 ltac:(lia) _ _ _ 50 Hi) as (m' & h' & p & E & [H|H]);
    [lia|lia| |].
  - exfalso. destruct H as (_ & _ & _ & H). apply (H 0). split; [lia|]. split; [vm_compute; done|].
    intros i Hi'. unfold bit. cbn. apply Z.testbit_0_l.
  - destruct H as (s & -> & _ & -> & Hi' & V & _).
    destruct (heap_reallocate_correct 32 0 0 m' _ _ s (chunks_needed_for 32 50) 7
      ltac:(lia) ltac:(lia) ltac:(lia) Hi') as (m'' & h'' & p' & E' & _).
    + apply lookup_insert_eq.
    + intros a Ha. rewrite V.
      match type of Ha with ?x <= _ < _ => change x with 4736 in Ha end. cbn. lia.
    + lia.
    + lia.
    + vm_compute. done.
    + eexists _, _, _, _, _. split; [exact E|]. exists m'', h'', p'. exact E'.
Defined.

(** [reallocate] to exactly the size of the chunks of a block returns the same
    block, although its header takes four of these bytes: the last four bytes
    of the size the caller asked for lie behind the block. *)
Theorem heap_reallocate_same_size_short (K SA SF : Z) (m : memory) (h : Heap) (live : gmap Z Z) (s n : Z) :
  8 <= K -> heap_inv K m h live -> live !! s = Some n ->
  reallocate K SA SF m h (chunk_addr K h s + header_size) (n * K)
    = Ok (m, h, chunk_addr K h s + header_size) /\
  chunk_addr K h s + header_size + n * K = chunk_addr K h (s + n) + 4.
Proof.
  intros HK Hi Hl. rewrite (reallocate_live K SA SF HK m h live s n) by done.
  rewrite Z.eqb_refl. split; [done|]. rewrite chunk_addr_add. unfold header_size. lia.
Qed.

Lemma heap_reallocate_same_size_short_witness :
  exists m h p m' h', allocate 32 0 m h 10 = Ok (m', h', p) /\
    reallocate 32 0 0 m' h' p 32 = Ok (m', h', p).
Proof.
  destruct (make_inv 32 ltac:(lia) arena 4096 660) as (h & E & _ & Hi);
    [intros a; cbn; lia|lia|lia|lia|apply arena_zero|].
  injection E as <-.
  destruct (allocate_spec 32 ltac:(lia) 0 ltac:(lia) _ _ _ 10 Hi) as (m' & h' & p & E & [H|H]);
    [lia|lia| |].
  - exfalso. destruct H as (_ & _ & _ & H). apply (H 0). split; [lia|]. split; [vm_compute; done|].
    intros i Hi'. unfold bit. cbn. apply Z.testbit_0_l.
  - destruct H as (s & -> & _ & -> & Hi' & V & _).
    eexists _, _, _, _, _. split; [exact E|].
    apply (heap_reallocate_same_size_short 32 0 0 m' _ _ s 1 ltac:(lia) Hi').
    apply lookup_insert_eq.
Defined.

(** A request within the last four bytes of [size_t] wraps around: it is taken
    for a request of at most one chunk. *)
Theorem heap_allocate_size_wraps (K size : Z) :
  8 <= K < 2 ^ 31 -> 2 ^ 32 - 4 <= size < 2 ^ 32 -> chunks_needed_for K size <= 1.
Proof.
  intros HK Hs. unfold chunks_needed_for, header_size.
  assert (wrap size_t (size + 4) = size + 4 - 2 ^ 32) as ->.
  { unfold wrap. cbn [tmin U32 bits is_signed]. rewrite Z.sub_0_r, Z.add_0_r.
    symmetry. apply Z.mod_unique with 1; lia. }
  rewrite wrap_small by lia. apply Z.lt_succ_r, Z.div_lt_upper_bound; lia.
Qed.

Lemma heap_allocate_size_wraps_witness : chunks_needed_for 32 0xffffffff <= 1.
Proof. apply (heap_allocate_size_wraps 32 0xffffffff); lia. Defined.
