(* ===== verification/ExpandableHeap.v ===== *)
(** * Kernel/Heap/Heap.h, Kernel/Heap/kmalloc.cpp: the growing kernel heap

    [ExpandableHeap] models the class template: the main heap, the list of
    sub-heaps behind it and the flag that stops recursive growth.  What obtains
    and returns memory ([add_memory], [remove_memory]) is a parameter.  [Kmalloc]
    models the instance behind [kmalloc]: its backup region, the bookkeeping of
    sub-heap regions and the eternal allocator; the memory manager is a
    parameter. *)

From Stdlib Require Import Sorted.
From S2P Require Import Prelude Memory Bitmap BitmapSearch Heap.
Import Heap.

Module ExpandableHeap.

Record SubHeap := mkSubHeap { heap : Heap; memory_size : Z; address : Z }.

Definition with_heap (s : SubHeap) (h : Heap) : SubHeap := mkSubHeap h (memory_size s) (address s).

(** [m_heaps] is the first of the chain of sub-heaps, [m_next] the rest of it. *)
Record ExpandableHeap := mkExpandableHeap {
  m_heaps : SubHeap;
  m_next : list SubHeap;
  m_expanding : bool;
}.

Definition with_next (e : ExpandableHeap) (l : list SubHeap) : ExpandableHeap :=
  mkExpandableHeap (m_heaps e) l (m_expanding e).
Definition with_expanding (e : ExpandableHeap) (b : bool) : ExpandableHeap :=
  mkExpandableHeap (m_heaps e) (m_next e) b.

Definition chain (e : ExpandableHeap) : list SubHeap := m_heaps e :: m_next e.

(** [sizeof(SubHeap)] on i386: a [Heap] of five words, a pointer and a size. *)
Definition sizeof_SubHeap : Z := 28.

Section ExpandableHeap.
Context (CHUNK_SIZE SCRUB_ALLOC SCRUB_FREE : Z).

(** The state the callbacks of [ExpandHeap] can change. *)
Context {env : Type}.
Record state := mkState { s_mem : memory; s_heap : ExpandableHeap; s_env : env }.

Definition set_mem (st : state) (m : memory) : state := mkState m (s_heap st) (s_env st).
Definition set_heap (st : state) (e : ExpandableHeap) : state := mkState (s_mem st) e (s_env st).

Context (add_memory : state -> Z -> res (state * bool)).
Context (remove_memory : state -> Z -> res (state * bool)).

(** The constructor *)
Definition make_expandable (address memory memory_size : Z) : res ExpandableHeap :=
  let* h := make CHUNK_SIZE memory memory_size in
  Ok (mkExpandableHeap (mkSubHeap h memory_size address) [] false).

Definition calculate_memory_for_bytes_expandable (bytes : Z) : Z :=
  wrap size_t (sizeof_SubHeap + calculate_memory_for_bytes CHUNK_SIZE bytes).

(** [TemporaryChange] restores the flag when [expand_memory] returns. *)
Definition expand_memory (st : state) (size : Z) : res (state * bool) :=
  if m_expanding (s_heap st) then Ok (st, false)
  else
    let old := m_expanding (s_heap st) in
    let* (st, added) := add_memory (set_heap st (with_expanding (s_heap st) true)) size in
    Ok (set_heap st (with_expanding (s_heap st) old), added).

(** The [for] loop over the chain: the first sub-heap that can serve the request. *)
Fixpoint allocate_in (m : memory) (l : list SubHeap) (size : Z) : res (memory * list SubHeap * Z) :=
  match l with
  | [] => Ok (m, [], nullptr)
  | s :: l =>
      let* (m, h, ptr) := allocate CHUNK_SIZE SCRUB_ALLOC m (heap s) size in
      if negb (ptr =? nullptr) then Ok (m, with_heap s h :: l, ptr)
      else
        let* (m, l, ptr) := allocate_in m l size in
        Ok (m, with_heap s h :: l, ptr)
  end.

Definition allocate_chain (st : state) (size : Z) : res (state * Z) :=
  let* (m, l, ptr) := allocate_in (s_mem st) (chain (s_heap st)) size in
  match l with
  | [] => Fault UndefinedBehaviour
  | s :: l => Ok (mkState m (mkExpandableHeap s l (m_expanding (s_heap st))) (s_env st), ptr)
  end.

(** The [do ... while (expand_memory(size))], with [attempts] expansions left. *)
Fixpoint allocate_loop (attempts : nat) (st : state) (size : Z) : res (state * Z) :=
  let* (st, ptr) := allocate_chain st size in
  if negb (ptr =? nullptr) then Ok (st, ptr)
  else
    match attempts with
    | O => Ok (st, nullptr)
    | S attempts =>
        let* (st, expanded) := expand_memory st size in
        if expanded then allocate_loop attempts st size else Ok (st, nullptr)
    end.

Definition allocate_expandable (st : state) (size : Z) : res (state * Z) := allocate_loop 2 st size.

(** [new_heap->heap.memory() < next_heap->heap.memory()] stops the walk. *)
Fixpoint insert_subheap (new_heap : SubHeap) (l : list SubHeap) : list SubHeap :=
  match l with
  | [] => [new_heap]
  | s :: l =>
      if m_chunks (heap new_heap) <? m_chunks (heap s) then new_heap :: s :: l
      else s :: insert_subheap new_heap l
  end.

Definition add_subheap (e : ExpandableHeap) (memory memory_size : Z) : res (ExpandableHeap * Heap) :=
  VERIFY sizeof_SubHeap <? memory_size ;;
  let memory_size := memory_size - sizeof_SubHeap in
  let* h := make CHUNK_SIZE (memory + sizeof_SubHeap) memory_size in
  Ok (with_next e (insert_subheap (mkSubHeap h memory_size memory) (m_next e)), h).

(** The sub-heap of the chain that contains the pointer, with its position. *)
Fixpoint find_containing (l : list SubHeap) (ptr : Z) : option (nat * SubHeap) :=
  match l with
  | [] => None
  | s :: l =>
      if contains CHUNK_SIZE (heap s) ptr then Some (O, s)
      else match find_containing l ptr with Some (i, t) => Some (S i, t) | None => None end
  end.

Definition update_chain (e : ExpandableHeap) (i : nat) (h : Heap) : ExpandableHeap :=
  match i with
  | O => mkExpandableHeap (with_heap (m_heaps e) h) (m_next e) (m_expanding e)
  | S i => with_next e (alter (fun s => with_heap s h) i (m_next e))
  end.

Definition deallocate_expandable (st : state) (ptr : Z) : res state :=
  if ptr =? nullptr then Ok st
  else
    match find_containing (chain (s_heap st)) ptr with
    | None => Fault VerifyFailed
    | Some (i, sub) =>
        let* (m, h) := deallocate CHUNK_SIZE SCRUB_FREE (s_mem st) (heap sub) ptr in
        let e := update_chain (s_heap st) i h in
        let st := mkState m e (s_env st) in
        match i with
        | S j =>
            if (allocated_chunks h =? 0) && negb (m_expanding e) then
              let st := set_heap st (with_next e (delete j (m_next e))) in
              let* (st, removed) := remove_memory st (address sub) in
              if removed then Ok st
              else
                let* (e, _) := add_subheap (s_heap st) (address sub) (memory_size sub) in
                Ok (set_heap st e)
            else Ok st
        | O => Ok st
        end
    end.

Definition contains_expandable (e : ExpandableHeap) (ptr : Z) : bool :=
  match find_containing (chain e) ptr with Some _ => true | None => false end.

(** [reallocate] on the sub-heap that contains the pointer, with the whole heap
    as the main heap. *)
Definition reallocate_expandable (st : state) (ptr new_size : Z) : res (state * Z) :=
  if ptr =? nullptr then allocate_expandable st new_size
  else
    match find_containing (chain (s_heap st)) ptr with
    | None => Fault VerifyFailed
    | Some (i, sub) =>
        let h := heap sub in
        let a := ptr - header_size in
        VERIFY (m_chunks h <=? a) && (ptr <? chunks_end CHUNK_SIZE h) ;;
        let* n := load32 (s_mem st) a in
        VERIFY a + wrap size_t (n * CHUNK_SIZE) <=? chunks_end CHUNK_SIZE h ;;
        let old_size := wrap size_t (n * CHUNK_SIZE) in
        if old_size =? new_size then Ok (st, ptr)
        else
          let* (st, new_ptr) := allocate_expandable st new_size in
          let* m :=
            if negb (new_ptr =? nullptr) then memcpy (s_mem st) new_ptr ptr (Memory.min old_size new_size)
            else Ok (s_mem st) in
          let st := set_mem st m in
          match find_containing (chain (s_heap st)) ptr with
          | None => Fault UndefinedBehaviour
          | Some (i, sub) =>
              let* (m, h) := deallocate CHUNK_SIZE SCRUB_FREE (s_mem st) (heap sub) ptr in
              Ok (mkState m (update_chain (s_heap st) i h) (s_env st), new_ptr)
          end
    end.

Definition sum_chunks (f : Heap -> Z) (e : ExpandableHeap) : Z :=
  wrap size_t (foldl (fun total s => total + f (heap s)) 0 (chain e)).

Definition total_chunks_expandable (e : ExpandableHeap) : Z := sum_chunks total_chunks e.
Definition free_chunks_expandable (e : ExpandableHeap) : Z := sum_chunks free_chunks e.
Definition allocated_chunks_expandable (e : ExpandableHeap) : Z := sum_chunks allocated_chunks e.
Definition total_bytes_expandable (e : ExpandableHeap) : Z :=
  wrap size_t (total_chunks_expandable e * CHUNK_SIZE).
Definition free_bytes_expandable (e : ExpandableHeap) : Z :=
  wrap size_t (free_chunks_expandable e * CHUNK_SIZE).
Definition allocated_bytes_expandable (e : ExpandableHeap) : Z :=
  wrap size_t (allocated_chunks_expandable e * CHUNK_SIZE).

End ExpandableHeap.
Arguments state : clear implicits.
End ExpandableHeap.

Module Kmalloc.
Import ExpandableHeap.

Definition CHUNK_SIZE : Z := 32.
Definition KMALLOC_SCRUB_BYTE : Z := 0xbb.
Definition KFREE_SCRUB_BYTE : Z := 0xaa.
Definition MiB : Z := 1048576.
Definition POOL_SIZE : Z := 2 * MiB.
Definition ETERNAL_RANGE_SIZE : Z := 2 * MiB.

(** A kernel region: where it is mapped and its size. *)
Record Region := mkRegion { vaddr : Z; region_size : Z }.

(** Work put off with [Processor::deferred_call_queue]. *)
Inductive deferred :=
| AllocateBackupMemory
| KeepOrFree (region : Region).

Section Kmalloc.

(** The memory manager and its state. *)
Context {manager : Type} (is_initialized : manager -> bool).

Record KmallocGlobalHeap := mkGlobal {
  m_subheap_memory : list Region;
  m_backup_memory : option Region;
  m_adding : bool;
  deferred_calls : list deferred;
  mm : manager;
}.

Definition kstate := state KmallocGlobalHeap.

Context (allocate_kernel_region : kstate -> Z -> res (kstate * option Region)).

Definition set_env (st : kstate) (g : KmallocGlobalHeap) : kstate := mkState (s_mem st) (s_heap st) g.

Definition with_backup (g : KmallocGlobalHeap) (r : option Region) : KmallocGlobalHeap :=
  mkGlobal (m_subheap_memory g) r (m_adding g) (deferred_calls g) (mm g).
Definition with_subheap_memory (g : KmallocGlobalHeap) (l : list Region) : KmallocGlobalHeap :=
  mkGlobal l (m_backup_memory g) (m_adding g) (deferred_calls g) (mm g).
Definition with_adding (g : KmallocGlobalHeap) (b : bool) : KmallocGlobalHeap :=
  mkGlobal (m_subheap_memory g) (m_backup_memory g) b (deferred_calls g) (mm g).
Definition defer (g : KmallocGlobalHeap) (d : deferred) : KmallocGlobalHeap :=
  mkGlobal (m_subheap_memory g) (m_backup_memory g) (m_adding g) (deferred_calls g ++ [d]) (mm g).

(** [m_heap.add_subheap(...)] followed by [m_subheap_memory.append(...)] *)
Definition adopt_region (st : kstate) (r : Region) : res (kstate * Heap) :=
  let* (e, h) := add_subheap CHUNK_SIZE (s_heap st) (vaddr r) (region_size r) in
  let g := with_subheap_memory (s_env st) (m_subheap_memory (s_env st) ++ [r]) in
  Ok (mkState (s_mem st) e g, h).

(** The part of [add_memory] after the backup region was adopted. *)
Definition ensure_room (st : kstate) (subheap : Heap) (allocation_request : Z) : res (kstate * bool) :=
  if free_bytes CHUNK_SIZE subheap <? allocation_request then
    let* memory_size :=
      page_round_up (calculate_memory_for_bytes_expandable CHUNK_SIZE allocation_request) in
    let memory_size := wrap size_t (memory_size + 1 * MiB) in
    let* (st, region) := allocate_kernel_region st memory_size in
    match region with
    | Some r => let* (st, _) := adopt_region st r in Ok (st, true)
    | None => Ok (st, false)
    end
  else Ok (st, true).

(** [ExpandGlobalHeap::add_memory]; [m_adding] is restored and the new backup
    memory is put off when it returns. *)
Definition add_memory (st : kstate) (allocation_request : Z) : res (kstate * bool) :=
  if negb (is_initialized (mm (s_env st))) then Ok (st, false)
  else
    VERIFY negb (m_adding (s_env st)) ;;
    match m_backup_memory (s_env st) with
    | None => Ok (st, false)
    | Some region =>
        let st := set_env st (with_backup (with_adding (s_env st) true) None) in
        let* (st, subheap) := adopt_region st region in
        let* (st, ok) := ensure_room st subheap allocation_request in
        Ok (set_env st (with_adding (defer (s_env st) AllocateBackupMemory) false), ok)
    end.

(** The index of the region that starts at an address. *)
Fixpoint region_at (l : list Region) (memory : Z) : option nat :=
  match l with
  | [] => None
  | r :: l => if vaddr r =? memory then Some O else S <$> region_at l memory
  end.

Definition remove_memory (st : kstate) (memory : Z) : res (kstate * bool) :=
  let g := s_env st in
  match region_at (m_subheap_memory g) memory with
  | None => Ok (st, false)
  | Some i =>
      match m_subheap_memory g !! i with
      | None => Fault UndefinedBehaviour
      | Some region =>
          let g := with_subheap_memory g (delete i (m_subheap_memory g)) in
          match m_backup_memory g with
          | None => Ok (set_env st (with_backup g (Some region)), true)
          | Some _ => Ok (set_env st (defer g (KeepOrFree region)), true)
          end
      end
  end.

Definition allocate_backup_memory (st : kstate) : res kstate :=
  match m_backup_memory (s_env st) with
  | Some _ => Ok st
  | None =>
      let* (st, r) := allocate_kernel_region st (1 * MiB) in
      Ok (set_env st (with_backup (s_env st) r))
  end.

Definition backup_memory_bytes (g : KmallocGlobalHeap) : Z :=
  match m_backup_memory g with Some r => region_size r | None => 0 end.

(** The deferred calls, when the processor runs them. *)
Definition run_deferred (st : kstate) (d : deferred) : res kstate :=
  match d with
  | AllocateBackupMemory => allocate_backup_memory st
  | KeepOrFree r =>
      match m_backup_memory (s_env st) with
      | None => Ok (set_env st (with_backup (s_env st) (Some r)))
      | Some _ => Ok st
      end
  end.

(** [kmalloc] panics when the heap cannot serve the request. *)
Definition kmalloc (st : kstate) (size : Z) : res (kstate * Z) :=
  let* (st, ptr) := allocate_expandable CHUNK_SIZE KMALLOC_SCRUB_BYTE add_memory st size in
  VERIFY negb (ptr =? nullptr) ;;
  Ok (st, ptr).

Definition kfree (st : kstate) (ptr : Z) : res kstate :=
  if ptr =? nullptr then Ok st
  else deallocate_expandable CHUNK_SIZE KFREE_SCRUB_BYTE remove_memory st ptr.

Definition krealloc (st : kstate) (ptr new_size : Z) : res (kstate * Z) :=
  reallocate_expandable CHUNK_SIZE KMALLOC_SCRUB_BYTE KFREE_SCRUB_BYTE add_memory st ptr new_size.

End Kmalloc.

(** The allocator of memory that is never freed. *)
Record eternal := mkEternal {
  s_next_eternal_ptr : Z;
  s_end_of_eternal_range : Z;
  g_kmalloc_bytes_eternal : Z;
}.

(** The end is computed with the size of the pool, which equals the range's. *)
Definition eternal_init (kmalloc_eternal_heap : Z) : eternal :=
  mkEternal kmalloc_eternal_heap (kmalloc_eternal_heap + POOL_SIZE) 0.

Definition kmalloc_eternal (e : eternal) (size : Z) : res (eternal * Z) :=
  let size := round_up_to_power_of_two size 4 in
  let ptr := s_next_eternal_ptr e in
  let next := wrap FlatPtr (s_next_eternal_ptr e + size) in
  VERIFY next <? s_end_of_eternal_range e ;;
  Ok (mkEternal next (s_end_of_eternal_range e) (wrap size_t (g_kmalloc_bytes_eternal e + size)), ptr).

End Kmalloc.

(** ** Lemmas *)

Module ExpandableFacts.
Import ExpandableHeap HeapFacts BitmapView BitmapFacts SearchFacts.

(** The bytes a heap uses: its chunks, its bitmap and the byte after it. *)
Definition footprint (h : Heap) (a : Z) : Prop :=
  m_chunks h <= a <= m_data (m_bitmap h) + m_total_chunks h / 8.

Definition apart (h k : Heap) : Prop :=
  m_data (m_bitmap h) + m_total_chunks h / 8 < m_chunks k \/
  m_data (m_bitmap k) + m_total_chunks k / 8 < m_chunks h.

Lemma apart_sym h k : apart h k -> apart k h.
Proof. unfold apart. tauto. Qed.

Lemma apart_footprint h k a : apart h k -> footprint h a -> ~ footprint k a.
Proof. unfold apart, footprint. lia. Qed.

(** Sub-heaps in memory: each has its allocations, no two share a byte. *)
Record chain_inv (K : Z) (m : memory) (l : list SubHeap) (lives : list (gmap Z Z)) : Prop := {
  ci_heaps : Forall2 (fun s live => heap_inv K m (heap s) live) l lives;
  ci_apart : forall i j s t, l !! i = Some s -> l !! j = Some t -> i <> j -> apart (heap s) (heap t);
}.

Section Chain.
Context (K SA : Z) (HK : 8 <= K) (HSA : 0 <= SA < 256).

Lemma footprint_total m h live : heap_inv K m h live ->
  0 <= m_total_chunks h /\ m_data (m_bitmap h) = m_chunks h + m_total_chunks h * K.
Proof.
  intros Hi. pose proof (hi_ok _ _ _ _ Hi) as Hok.
  pose proof (ok_size _ _ _ (ho_view _ _ _ Hok)) as Hs. rewrite (ho_size _ _ _ Hok) in Hs.
  split; [lia|]. apply (ho_data _ _ _ Hok).
Qed.

Lemma heap_inv_frame m m' h live :
  heap_inv K m h live -> bytes_wf m' -> m_valid m' = m_valid m ->
  (forall a, footprint h a -> m_bytes m' a = m_bytes m a) -> heap_inv K m' h live.
Proof.
  intros Hi W V F. pose proof (hi_ok _ _ _ _ Hi) as Hok.
  destruct (footprint_total m h live Hi) as [H0 Hd]. pose proof (ho_size _ _ _ Hok) as Hsz.
  assert (forall i, 0 <= i < m_total_chunks h -> bit m' (m_bitmap h) i = bit m (m_bitmap h) i) as Hb.
  { intros i Hi'. unfold bit. rewrite F; [done|]. unfold footprint.
    assert (0 <= i / 8 <= m_total_chunks h / 8); [|nia].
    split; [apply Z.div_pos; lia|apply Z.div_le_mono; lia]. }
  split.
  - by eapply heap_ok_ext.
  - intros s n Hl. destruct (hi_live _ _ _ _ Hi s n Hl) as (L1 & L2 & L3 & L4).
    do 3 (split; [done|]). rewrite <- L4. apply word_at_ext. intros i Hi'. apply F.
    unfold footprint, chunk_addr. assert (0 <= m_total_chunks h / 8) by (apply Z.div_pos; lia). nia.
  - apply Hi.
  - intros i Hi'. rewrite Hb by done. by apply Hi.
  - rewrite (hi_count _ _ _ _ Hi). symmetry. apply rng_ext. intros i Hi'. by apply Hb.
Qed.

(** [allocate] on one heap changes its footprint only. *)
Lemma keeps_footprint m m' h live s n a :
  heap_inv K m h live -> keeps K h s n m m' -> 0 <= s -> s + n <= m_total_chunks h ->
  ~ footprint h a -> m_bytes m' a = m_bytes m a.
Proof.
  intros Hi Hk Hs Hn Ha. destruct (footprint_total m h live Hi) as [H0 Hd].
  assert (0 <= m_total_chunks h / 8) by (apply Z.div_pos; lia).
  unfold footprint in Ha. apply Hk.
  - unfold in_block, chunk_addr. nia.
  - rewrite Hd in *. nia.
Qed.

Lemma chain_inv_cons m s l live lives :
  chain_inv K m (s :: l) (live :: lives) <->
  heap_inv K m (heap s) live /\ chain_inv K m l lives /\
  (forall j t, l !! j = Some t -> apart (heap s) (heap t)).
Proof.
  split.
  - intros [Hf Ha]. apply Forall2_cons_iff in Hf as [H1 H2]. split; [done|]. split.
    + split; [done|]. intros i j a b Hi Hj Hij. by apply (Ha (S i) (S j)); [..|congruence].
    + intros j t Hj. by apply (Ha O (S j)).
  - intros (H1 & [H2 H3] & H4). split; [by constructor|].
    intros [|i] [|j] a b Hi Hj Hij; [done| | |].
    + injection Hi as <-. by eapply H4.
    + injection Hj as <-. apply apart_sym. by eapply H4.
    + apply (H3 i j); [done|done|congruence].
Qed.

(** The shape of an updated sub-heap: its bounds stay. *)
Definition same_bounds (h h' : Heap) : Prop :=
  m_chunks h' = m_chunks h /\ m_total_chunks h' = m_total_chunks h /\ m_bitmap h' = m_bitmap h.

Lemma same_bounds_apart h h' k : same_bounds h h' -> apart h k -> apart h' k.
Proof. intros (E1 & E2 & E3). unfold apart. by rewrite E1, E2, E3. Qed.

(** What an allocation in a chain gives: nothing, or a fresh block of one sub-heap. *)
Definition chain_result (m : memory) (l : list SubHeap) (lives : list (gmap Z Z)) (size : Z)
    (m' : memory) (l' : list SubHeap) (p : Z) : Prop :=
  (p = nullptr /\ m' = m /\ l' = l /\
   Forall (fun s => forall c, ~ fits m (m_bitmap (heap s)) (chunks_needed_for K size) c) l) \/
  exists i s h' live c, l !! i = Some s /\ lives !! i = Some live /\
    p = chunk_addr K (heap s) c + header_size /\ 0 <= c < m_total_chunks (heap s) /\
    (forall c' n', live !! c' = Some n' -> c' + n' <= c \/ c + chunks_needed_for K size <= c') /\
    l' = <[i := with_heap s h']> l /\ same_bounds (heap s) h' /\
    m_valid m' = m_valid m /\ bytes_wf m' /\
    (forall a, ~ footprint (heap s) a -> m_bytes m' a = m_bytes m a) /\
    chain_inv K m' l' (<[i := <[c := chunks_needed_for K size]> live]> lives).

Lemma allocate_in_spec m l lives size :
  chain_inv K m l lives -> 0 <= size -> size + 4 + K <= 2 ^ 32 ->
  exists m' l' p, allocate_in K SA m l size = Ok (m', l', p) /\
    chain_result m l lives size m' l' p.
Proof.
  intros Hc Hs Hb. revert lives Hc. induction l as [|s l IH]; intros lives Hc; cbn [allocate_in].
  - do 3 eexists. split; [done|]. left. done.
  - destruct lives as [|live lives]; [by destruct Hc as [Hf _]; inversion Hf|].
    apply chain_inv_cons in Hc as (Hi & Hc & Ha).
    destruct (allocate_spec K HK SA HSA m (heap s) live size Hi Hs Hb) as (m1 & h1 & p & -> & [H|H]);
      cbn [res_bind].
    + destruct H as (-> & -> & -> & Hn). cbn [negb nullptr Z.eqb].
      destruct (IH lives Hc) as (m2 & l2 & p & -> & Hr). cbn [res_bind].
      replace (with_heap s (heap s)) with s by (by destruct s).
      do 3 eexists. split; [done|]. destruct Hr as [(-> & -> & -> & Hf)|Hr].
      * left. split; [done|]. split; [done|]. split; [done|]. by constructor.
      * right. destruct Hr as (i & t & h' & lv & c & Hl & Hlv & -> & Hcr & Hfr & -> & Hsb & V & W & F & Hci).
        exists (S i), t, h', lv, c. do 6 (split; [done|]). split; [done|]. split; [done|].
        split; [done|]. split; [done|]. cbn. apply chain_inv_cons. split; [|split; [done|]].
        -- eapply heap_inv_frame; [done..|]. intros a Hfa. apply F.
           eapply apart_footprint; [|done]. by eapply Ha.
        -- intros j u [[-> [<- _]]|[Hne Hu]]%list_lookup_insert_Some; [|by eapply Ha].
           apply apart_sym, (same_bounds_apart (heap t)); [done|]. apply apart_sym. by eapply Ha.
    + destruct H as (c & -> & Hf & -> & Hi1 & V & Kp). destruct (hi_ok _ _ _ _ Hi) as [_ Hsz _ Hbase _].
      destruct (chunks_needed_spec K HK size Hs Hb) as (_ & Hn & _).
      pose proof Hf as (Hc0 & Hce & _). rewrite Hsz in Hce.
      rewrite (proj2 (Z.eqb_neq _ nullptr)) by (unfold chunk_addr, header_size, nullptr; nia).
      cbn [negb]. do 3 eexists. split; [done|]. right.
      assert (forall a, ~ footprint (heap s) a -> m_bytes m1 a = m_bytes m a) as F.
      { intros a Hfa. eapply keeps_footprint; done. }
      assert (bytes_wf m1) as W by apply (ok_bytes _ _ _ (ho_view _ _ _ (hi_ok _ _ _ _ Hi1))).
      eexists O, s, _, live, c. do 2 (split; [done|]). split; [done|]. split; [lia|].
      split; [apply (fits_fresh K HK m (heap s) live); [done|lia|done]|].
      split; [done|]. split; [done|]. split; [done|]. split; [done|]. split; [done|].
      cbn. apply chain_inv_cons. split; [done|]. split; [|done]. destruct Hc as [Hf2 Hap]. split; [|done].
      apply Forall2_same_length_lookup in Hf2 as [Hlen Hlk]. apply Forall2_same_length_lookup.
      split; [done|]. intros j t lv Ht Hlv. eapply heap_inv_frame; [by eapply Hlk|done|done|].
      intros a Hfa. apply F. eapply apart_footprint; [|exact Hfa]. apply apart_sym. by eapply Ha.
Qed.

(** Only the sub-heap of a block contains its pointer. *)
Lemma contains_chunk h c : 0 <= c < m_total_chunks h ->
  contains K h (chunk_addr K h c + header_size) = true.
Proof.
  intros Hc. unfold contains, chunk_addr, chunks_end, header_size.
  replace (_ <? _) with false by lia. by replace (_ <=? _) with false by nia.
Qed.

Lemma contains_apart h k p :
  m_data (m_bitmap k) = m_chunks k + m_total_chunks k * K -> 0 <= m_total_chunks k ->
  m_chunks h <= p - 4 -> p <= m_data (m_bitmap h) + m_total_chunks h / 8 ->
  apart h k -> contains K k p = false.
Proof.
  intros Hd H0 Hp1 Hp2 Ha. unfold contains, header_size, chunks_end, apart in *. rewrite Hd in *.
  assert (0 <= m_total_chunks k / 8) by (apply Z.div_pos; lia).
  case_if; [done|]. by replace (_ <=? _) with true by lia.
Qed.

Lemma find_containing_spec m l lives i s c :
  chain_inv K m l lives -> l !! i = Some s -> 0 <= c < m_total_chunks (heap s) ->
  find_containing K l (chunk_addr K (heap s) c + header_size) = Some (i, s).
Proof.
  revert lives i. induction l as [|t l IH]; intros lives i Hc Hi Hcr; [done|].
  destruct lives as [|live lives]; [by destruct Hc as [Hf _]; inversion Hf|].
  apply chain_inv_cons in Hc as (Hh & Hc & Ha). cbn [find_containing].
  destruct i as [|i]; [injection Hi as <-; by rewrite contains_chunk|].
  cbn in Hi. destruct (footprint_total _ _ _ Hh) as [H0 Hd].
  pose proof Hc as [Hf _]. destruct (Forall2_lookup_l _ _ _ _ _ Hf Hi) as (lv & _ & Hs).
  destruct (footprint_total _ _ _ Hs) as [H0' Hd'].
  assert (0 <= m_total_chunks (heap s) / 8) by (apply Z.div_pos; lia).
  rewrite (contains_apart (heap s) (heap t)); [|done|done|..].
  - by rewrite (IH lives i).
  - unfold chunk_addr, header_size. nia.
  - rewrite Hd'. unfold chunk_addr, header_size. nia.
  - apply apart_sym. by eapply Ha.
Qed.

(** [add_subheap] keeps the sub-heaps in the order of their addresses. *)
Definition chunks_le (s t : SubHeap) : Prop := m_chunks (heap s) <= m_chunks (heap t).

Lemma insert_subheap_perm s l : insert_subheap s l ≡ₚ s :: l.
Proof.
  induction l as [|t l IH]; cbn [insert_subheap]; [done|]. case_if; [done|].
  rewrite IH. apply Permutation_swap.
Qed.

Lemma insert_subheap_sorted s l : Sorted chunks_le l -> Sorted chunks_le (insert_subheap s l).
Proof.
  induction l as [|t l IH]; intros Hs; cbn [insert_subheap]; [by repeat constructor|].
  case_if; [constructor; [done|]; constructor; unfold chunks_le; lia|].
  apply Sorted_inv in Hs as [Hs Hh]. constructor; [by apply IH|].
  destruct l as [|u l]; cbn [insert_subheap]; [constructor; unfold chunks_le; lia|].
  case_if; constructor; [unfold chunks_le; lia|]. by apply HdRel_inv in Hh.
Qed.

End Chain.
End ExpandableFacts.

(** *** The eternal allocator *)

Module KmallocFacts.
Import Kmalloc.

Lemma round_up_4 size : 0 <= size <= 2 ^ 32 - 4 -> round_up_to_power_of_two size 4 = 4 * ((size + 3) / 4) mod 2 ^ 32.
Proof.
  intros Hs. unfold round_up_to_power_of_two.
  change (wrap U32 (Z.lnot (4 - 1))) with 0xfffffffc.
  destruct (Z.eq_dec size 0) as [->|]; [reflexivity|].
  rewrite (wrap_id U32 (size - 1)) by (done || (apply in_ty_spec; cbn; lia)).
  change (Z.land (size - 1) 0xfffffffc) with (BitmapView.align_down (size - 1)).
  rewrite BitmapFacts.align_down_spec by lia.
  rewrite wrap_id; [|done|apply in_ty_spec; cbn; Z.to_euclidean_division_equations; lia].
  rewrite Z.mod_small by (Z.to_euclidean_division_equations; lia).
  Z.to_euclidean_division_equations. lia.
Qed.

(** Each eternal block starts where the last one ended, is aligned, holds the
    request and ends before the end of the range. *)
Lemma kmalloc_eternal_spec e size e' ptr :
  0 <= s_next_eternal_ptr e -> s_next_eternal_ptr e mod 4 = 0 ->
  0 <= size -> s_next_eternal_ptr e + size + 4 <= 2 ^ 32 ->
  kmalloc_eternal e size = Ok (e', ptr) ->
  ptr = s_next_eternal_ptr e /\ ptr + size <= s_next_eternal_ptr e' /\
  s_next_eternal_ptr e' mod 4 = 0 /\ s_next_eternal_ptr e' < s_end_of_eternal_range e' /\
  s_end_of_eternal_range e' = s_end_of_eternal_range e.
Proof.
  intros Hn Ha Hs Hb H. unfold kmalloc_eternal in H. rewrite round_up_4 in H by lia.
  assert (4 * ((size + 3) / 4) mod 2 ^ 32 = 4 * ((size + 3) / 4)) as E.
  { apply Z.mod_small. Z.to_euclidean_division_equations. lia. }
  rewrite E, HeapFacts.wrap_small in H by (Z.to_euclidean_division_equations; lia).
  inv_res. to_prop. cbn.
  split; [done|]. split; [Z.to_euclidean_division_equations; lia|].
  split; [|done]. rewrite Z.mul_comm, Z.mod_add by lia. done.
Qed.

End KmallocFacts.

(** ** Properties *)

Import ExpandableHeap ExpandableFacts.



(** [add_subheap] turns a zeroed block of memory into an empty heap, links it
    among the sub-heaps and keeps them in the order of their addresses. *)
Theorem add_subheap_correct (K : Z) (m : memory) (e : ExpandableHeap) (memory memory_size : Z) :
  8 <= K -> bytes_wf m -> 0 <= memory -> memory + memory_size + 8 < 2 ^ 32 ->
  sizeof_SubHeap + 2 * (K + 1) <= memory_size ->
  (forall a, memory <= a < memory + memory_size -> m_valid m a = true /\ m_bytes m a = 0) ->
  Sorted chunks_le (m_next e) ->
  exists e' h, add_subheap K e memory memory_size = Ok (e', h) /\ heap_inv K m h ∅ /\
    m_heaps e' = m_heaps e /\ Sorted chunks_le (m_next e') /\
    m_next e' ≡ₚ mkSubHeap h (memory_size - sizeof_SubHeap) memory :: m_next e.
Proof.
  intros HK Hw Hm Ht Hs Hz Hsort. unfold add_subheap, sizeof_SubHeap in *.
  rewrite (proj2 (Z.ltb_lt _ _)) by lia. cbn [verify res_bind].
  destruct (HeapFacts.make_inv K HK m (memory + 28) (memory_size - 28)) as (h & -> & _ & Hi);
    [done|lia|lia|lia|intros a Ha; apply Hz; lia|].
  cbn [res_bind]. do 2 eexists. split; [done|]. split; [done|]. split; [done|].
  split; [by apply insert_subheap_sorted|apply insert_subheap_perm].
Qed.

Lemma add_subheap_correct_witness :
  exists e' h, add_subheap 32 (mkExpandableHeap (mkSubHeap (mkHeap 0 0 0 (BitmapView.mkBitmapView 0 0)) 0 0) [] false)
      4096 660 = Ok (e', h) /\ heap_inv 32 arena h ∅.
Proof.
  destruct (add_subheap_correct 32 arena
    (mkExpandableHeap (mkSubHeap (mkHeap 0 0 0 (BitmapView.mkBitmapView 0 0)) 0 0) [] false) 4096 660)
    as (e' & h & E & Hi & _); [lia|intros a; cbn; lia|lia|lia|unfold sizeof_SubHeap; lia|apply arena_zero|constructor|].
  exists e', h. split; [exact E|exact Hi].
Defined.

(** A main heap without chunks and one sub-heap of four chunks in a zeroed block
    of 160 bytes. *)
Definition small_block : memory := mkMemory (fun _ => 0) (fun a => (4096 <=? a) && (a <? 4096 + 160)).

Definition rejected_removal : res (state unit) :=
  let* main := make 32 0 0 in
  let* (e, _) := add_subheap 32 (mkExpandableHeap (mkSubHeap main 0 0) [] false) 4096 160 in
  let* (st, p) := allocate_chain 32 0xbb (mkState small_block e tt) 100 in
  deallocate_expandable 32 0xaa (fun st _ => Ok (st, false)) st p.

(** When [remove_memory] rejects an empty sub-heap it is added back smaller by
    [sizeof(SubHeap)], because the remembered size does not include the
    structure; its bitmap then lies on old, scrubbed chunks, so the new heap
    counts no allocated chunk while bits of its bitmap are set. *)
Theorem readded_subheap_corrupt :
  (let* st := rejected_removal in
   match m_next (s_heap st) with
   | [s] => Ok (address s, memory_size s, m_allocated_chunks (heap s),
                BitmapView.bit (s_mem st) (m_bitmap (heap s)) 1)
   | _ => Fault UndefinedBehaviour
   end) = Ok (4096, 160 - 2 * sizeof_SubHeap, 0, true).
Proof. vm_compute. reflexivity. Qed.
