(* ===== verification/Containers.v ===== *)
(** * AK/BinarySearch.h and the operations of AK/Vector.h the kernel's range
    bookkeeping uses

    A [Vector] is the list of its elements; indices are [nat].  Growing the
    storage of a vector goes through kmalloc, which stops the kernel rather than
    fail, so [try_insert] fails on a bad index only. *)

From S2P Require Import Prelude.

Module Vector.
Section Vector.
Context {T : Type}.

(** [operator[]] and [at] *)
Definition at_ (l : list T) (i : nat) : res T := of_opt VerifyFailed (l !! i).

Definition set_at (l : list T) (i : nat) (x : T) : res (list T) :=
  VERIFY bool_decide (i < length l)%nat ;; Ok (<[i := x]> l).

Definition remove (l : list T) (index : nat) : res (list T) :=
  VERIFY bool_decide (index < length l)%nat ;; Ok (delete index l).

(** [remove(index, count)] *)
Definition remove_many (l : list T) (index count : nat) : res (list T) :=
  if bool_decide (count = 0)%nat then Ok l
  else
    VERIFY bool_decide (index + count <= length l)%nat ;;
    Ok (take index l ++ drop (index + count) l).

Definition try_insert (l : list T) (index : nat) (x : T) : option (list T) :=
  if bool_decide (length l < index)%nat then None
  else if bool_decide (index = length l) then Some (l ++ [x])
  else Some (take index l ++ x :: drop index l).

Definition insert (l : list T) (index : nat) (x : T) : res (list T) :=
  of_opt VerifyFailed (try_insert l index x).

(** The first index from [i] on whose element matches, among [n] of them. *)
Fixpoint find_from (callback : T -> bool) (l : list T) (n i : nat) : option nat :=
  match n with
  | O => None
  | S n =>
      match l !! i with
      | Some x => if callback x then Some i else find_from callback l n (S i)
      | None => None
      end
  end.

(** The vector and the index the element got. *)
Definition insert_before_matching (l : list T) (x : T) (callback : T -> bool) (first_index : nat)
    : res (list T * nat) :=
  match find_from callback l (length l - first_index) first_index with
  | Some i => let* l := insert l i x in Ok (l, i)
  | None => Ok (l ++ [x], length l)
  end.

(** ** Lemmas *)

Lemma insert_ok l i x : (i <= length l)%nat -> insert l i x = Ok (take i l ++ x :: drop i l).
Proof.
  intros Hi. unfold insert, try_insert. repeat case_bool_decide; [lia| |done].
  subst i. by rewrite firstn_all, drop_all.
Qed.

Lemma find_from_spec callback l n i :
  (i + n <= length l)%nat ->
  match find_from callback l n i with
  | Some j => (i <= j < i + n)%nat /\ (exists x, l !! j = Some x /\ callback x = true) /\
              forall k x, (i <= k < j)%nat -> l !! k = Some x -> callback x = false
  | None => forall k x, (i <= k < i + n)%nat -> l !! k = Some x -> callback x = false
  end.
Proof.
  revert i. induction n as [|n IH]; intros i Hi; cbn [find_from]; [intros; lia|].
  destruct (lookup_lt_is_Some_2 l i) as [x Hx]; [lia|]. rewrite Hx.
  destruct (callback x) eqn:E.
  - split; [lia|]. split; [by exists x|]. intros; lia.
  - specialize (IH (S i) ltac:(lia)). destruct (find_from callback l n (S i)) as [j|].
    + destruct IH as (H1 & H2 & H3). split; [lia|]. split; [done|]. intros k y Hk Hy.
      destruct (decide (k = i)) as [->|]; [congruence|]. apply (H3 k); [lia|done].
    + intros k y Hk Hy. destruct (decide (k = i)) as [->|]; [congruence|]. apply (IH k); [lia|done].
Qed.

(** Where [insert_before_matching] puts the element: before the first match. *)
Lemma insert_before_matching_spec l x callback first :
  (first <= length l)%nat ->
  exists i, insert_before_matching l x callback first = Ok (take i l ++ x :: drop i l, i) /\
    (first <= i <= length l)%nat /\
    (forall k y, (first <= k < i)%nat -> l !! k = Some y -> callback y = false) /\
    (forall y, l !! i = Some y -> callback y = true).
Proof.
  intros Hf. unfold insert_before_matching.
  pose proof (find_from_spec callback l (length l - first) first ltac:(lia)) as H.
  destruct (find_from callback l (length l - first) first) as [i|].
  - destruct H as (H1 & (y & Hy & Hc) & H3). exists i. rewrite insert_ok by lia.
    split; [done|]. split; [lia|]. split; [done|]. intros z Hz. congruence.
  - exists (length l). rewrite firstn_all, drop_all. split; [done|]. split; [lia|].
    split; [intros; eapply H; [|done]; lia|].
    intros y Hy%lookup_lt_Some. lia.
Qed.

End Vector.
End Vector.

Module BinarySearch.
Section BinarySearch.
Context {T : Type} (comparator : T -> Z).

(** The [while (low <= high)] loop; the needle is part of the comparator, whose
    result is an [int].  The result is the index found, if any, and
    [nearby_index]. *)
Fixpoint search_loop (fuel : nat) (haystack : list T) (low high : nat) : res (option nat * nat) :=
  match fuel with
  | O => Fault OutOfFuel
  | S fuel =>
      if bool_decide (low <= high)%nat then
        let middle := (low + (high - low) / 2)%nat in
        let* x := Vector.at_ haystack middle in
        let comparison := comparator x in
        if comparison <? 0 then
          if bool_decide (middle = 0)%nat then Ok (None, Nat.min low high)
          else search_loop fuel haystack low (middle - 1)
        else if 0 <? comparison then search_loop fuel haystack (middle + 1) high
        else Ok (Some middle, middle)
      else Ok (None, Nat.min low high)
  end.

(** The loop shrinks the range by at least one element per turn. *)
Definition binary_search (haystack : list T) : res (option nat * nat) :=
  if bool_decide (length haystack = 0)%nat then Ok (None, 0%nat)
  else search_loop (S (length haystack)) haystack 0 (length haystack - 1).

(** The comparison changes sign at most once, from positive to negative. *)
Definition ordered (l : list T) : Prop :=
  forall i j x y, (i < j)%nat -> l !! i = Some x -> l !! j = Some y ->
    (comparator x <= 0 -> comparator y < 0).

(** What the search promises. *)
Definition search_result (l : list T) (r : option nat * nat) : Prop :=
  match r.1 with
  | Some i => r.2 = i /\ exists x, l !! i = Some x /\ comparator x = 0
  | None =>
      (forall i x, l !! i = Some x -> comparator x <> 0) /\
      (forall i x, (i < r.2)%nat -> l !! i = Some x -> 0 < comparator x) /\
      (forall i x, (r.2 < i)%nat -> l !! i = Some x -> comparator x < 0) /\
      (r.2 < length l \/ l = [])%nat
  end.

Lemma search_loop_spec l fuel low high :
  ordered l -> (high < length l)%nat -> (high + 1 < low + fuel)%nat -> (low <= high + 1)%nat ->
  (forall i x, (i < low)%nat -> l !! i = Some x -> 0 < comparator x) ->
  (forall i x, (high < i)%nat -> l !! i = Some x -> comparator x < 0) ->
  exists r, search_loop fuel l low high = Ok r /\ search_result l r.
Proof.
  intros Ho. revert low high. induction fuel as [|fuel IH]; intros low high Hh Hf Hl H1 H2; [lia|].
  cbn [search_loop]. case_bool_decide as Hle.
  - pose proof (Nat.Div0.div_le_upper_bound (high - low) 2 (high - low) ltac:(lia)) as Hd.
    set (mid := (low + (high - low) / 2)%nat) in *.
    destruct (lookup_lt_is_Some_2 l mid) as [x Hx]; [lia|].
    unfold Vector.at_. rewrite Hx. cbn [of_opt res_bind].
    destruct (Z.ltb_spec (comparator x) 0) as [Hn|Hn].
    + assert (forall i y, (mid <= i)%nat -> l !! i = Some y -> comparator y < 0) as Hhi.
      { intros i y Hi Hy. destruct (decide (i = mid)) as [->|]; [by simplify_eq|].
        eapply Ho; [|exact Hx|exact Hy|]; lia. }
      case_bool_decide as Hm.
      * eexists. split; [done|]. cbn. assert (low = 0)%nat as -> by lia. cbn.
        split; [|split; [intros; lia|split; [|lia]]].
        -- intros i y Hy E. specialize (Hhi i y ltac:(lia) Hy). lia.
        -- intros i y Hi Hy. apply (Hhi i y); [lia|done].
      * apply IH; try lia; [done|]. intros i y Hi Hy. apply (Hhi i y); [lia|done].
    + destruct (Z.ltb_spec 0 (comparator x)) as [Hp|Hp].
      * apply IH; try lia; [|done]. intros i y Hi Hy.
        destruct (Z.le_gt_cases (comparator y) 0) as [Hy0|]; [|done].
        destruct (decide (i = mid)) as [->|]; [simplify_eq; lia|].
        assert (comparator x < 0); [|lia]. eapply Ho; [|exact Hy|exact Hx|done]. lia.
      * eexists. split; [done|]. cbn. split; [done|]. exists x. split; [done|lia].
  - assert (low = high + 1)%nat as -> by lia. eexists. split; [done|]. cbn.
    rewrite Nat.min_r by lia. split; [|split; [|split; [done|lia]]].
    + intros i x Hx. destruct (decide (i <= high)%nat).
      * specialize (H1 i x ltac:(lia) Hx). lia.
      * specialize (H2 i x ltac:(lia) Hx). lia.
    + intros i x Hi Hx. apply (H1 i x); [lia|done].
Qed.

Lemma binary_search_spec (l : list T) :
  ordered l -> exists r, binary_search l = Ok r /\ search_result l r.
Proof.
  intros Ho. unfold binary_search. case_bool_decide as Hl.
  - apply nil_length_inv in Hl as ->. eexists. split; [done|]. cbn.
    split; [|split; [|split; [|by right]]]; intros i x; intros; by rewrite lookup_nil in *.
  - apply search_loop_spec; try done; try lia.
    intros i x Hi Hx%lookup_lt_Some. lia.
Qed.

End BinarySearch.
End BinarySearch.

(** ** Properties *)

(** On a sequence whose comparison with the needle changes sign at most once,
    [binary_search] terminates within one turn per element and one more, finds an
    index that compares equal whenever there is one, and otherwise reports the
    last index before the place of the needle (or the first index). *)
Theorem binary_search_correct {T} (comparator : T -> Z) (l : list T) :
  BinarySearch.ordered comparator l ->
  exists r, BinarySearch.binary_search comparator l = Ok r /\ BinarySearch.search_result comparator l r.
Proof. apply BinarySearch.binary_search_spec. Qed.

Lemma binary_search_correct_witness :
  exists r, BinarySearch.binary_search (fun x => 7 - x) [1; 4; 7; 9] = Ok r /\
    BinarySearch.search_result (fun x => 7 - x) [1; 4; 7; 9] r.
Proof.
  apply (binary_search_correct (fun x => 7 - x) [1; 4; 7; 9]).
  intros i j x y Hij Hx Hy Hc.
  assert (i < 4)%nat by (apply lookup_lt_Some in Hx; cbn in Hx; lia).
  assert (j < 4)%nat by (apply lookup_lt_Some in Hy; cbn in Hy; lia).
  do 4 (destruct i as [|i]; [do 4 (destruct j as [|j]; [cbn in *; simplify_eq; lia|]); lia|]). lia.
Defined.
