(* ===== verification/BinaryHeap.v ===== *)
(** * Binary heaps

    AK/BinaryHeap.h: a priority queue in an array.  The elements are the whole array;
    the ones after [m_size] are left from before.  [heap_run_refines]: every run gives
    the answers of a multiset from which the least key is taken. *)
From S2P Require Import Prelude.

(** ** Arrays *)
Module Arrays.

Section Arrays.
Context {A : Type}.
Implicit Types l : list A.

(** An element of an array, and the exchange of two. *)
Definition get l (i : nat) : res A := of_opt UndefinedBehaviour (l !! i).
Definition set l (i : nat) (x : A) : res (list A) := DEFINED (i <? length l)%nat ;; Ok (<[i := x]> l).
Definition swap l (i j : nat) : res (list A) :=
  let* x := get l i in
  let* y := get l j in
  let* l := set l i y in
  set l j x.

(** What is there after an exchange. *)
Definition swapped l (i j : nat) : list A :=
  match l !! i, l !! j with
  | Some x, Some y => <[j := x]> (<[i := y]> l)
  | _, _ => l
  end.

Lemma get_ok l i : (i < length l)%nat -> exists x, l !! i = Some x /\ get l i = Ok x.
Proof using Type. intros H. destruct (lookup_lt_is_Some_2 l i H) as [x E]. exists x. unfold get. by rewrite E. Qed.

Lemma swap_ok l i j : (i < length l)%nat -> (j < length l)%nat -> swap l i j = Ok (swapped l i j).
Proof using Type.
  intros Hi Hj. destruct (get_ok l i Hi) as (x & Ex & Gx), (get_ok l j Hj) as (y & Ey & Gy). unfold swap, swapped. rewrite Gx, Gy, Ex, Ey. cbn [res_bind].
  unfold set. rewrite (proj2 (Nat.ltb_lt i _)) by done. cbn [defined res_bind]. rewrite length_insert. by rewrite (proj2 (Nat.ltb_lt j _)) by done.
Qed.

Lemma swapped_length l i j : length (swapped l i j) = length l.
Proof using Type. unfold swapped. destruct (l !! i), (l !! j); by rewrite ?length_insert. Qed.

Lemma swapped_lookup l i j k : (i < length l)%nat -> (j < length l)%nat ->
  swapped l i j !! k = l !! (if decide (k = i) then j else if decide (k = j) then i else k).
Proof using Type.
  intros Hi Hj. destruct (lookup_lt_is_Some_2 l i Hi) as [x Ex], (lookup_lt_is_Some_2 l j Hj) as [y Ey]. unfold swapped. rewrite Ex, Ey.
  destruct (decide (k = j)) as [->|Hkj].
  - rewrite list_lookup_insert_eq by (by rewrite length_insert). destruct (decide (j = i)) as [->|]; congruence.
  - rewrite list_lookup_insert_ne by done. destruct (decide (k = i)) as [->|Hki]; [by rewrite list_lookup_insert_eq|by rewrite list_lookup_insert_ne].
Qed.

Lemma swapped_perm l i j : swapped l i j ≡ₚ l.
Proof using Type.
  unfold swapped. destruct (l !! i) as [x|] eqn:Ei, (l !! j) as [y|] eqn:Ej; try done. by apply Permutation_insert_swap.
Qed.

(** Arrays that are equal from [n] on are permutations of each other before it. *)
Lemma perm_prefix l l' n : l ≡ₚ l' -> drop n l = drop n l' -> take n l ≡ₚ take n l'.
Proof using Type. intros Hp Hd. rewrite <- (take_drop n l), <- (take_drop n l'), Hd in Hp. by apply Permutation_app_inv_r in Hp. Qed.

Lemma swapped_drop l i j n : (i < n)%nat -> (j < n)%nat -> drop n (swapped l i j) = drop n l.
Proof using Type.
  intros Hi Hj. unfold swapped. destruct (l !! i), (l !! j); try done. by rewrite !drop_insert_lt by lia.
Qed.
End Arrays.

End Arrays.

(** ** The heap *)
Module BinaryHeap.
Import Arrays.

Section BinaryHeap.
Context {V : Type} (Capacity : nat).

(** Keys are integers; the elements are pairs of a key and a value. *)
Record BinaryHeap := mkHeap { m_elements : list (Z * V); m_size : nat }.
Implicit Types (l : list (Z * V)) (h : BinaryHeap).

(** The loops; each goes one level down or up, so the size bounds their turns. *)
Fixpoint heapify_down (turns : nat) l (size index : nat) : res (list (Z * V)) :=
  match turns with
  | O => Fault OutOfFuel
  | S turns =>
      if (index * 2 + 1 <? size)%nat then
        let left_child := (index * 2 + 1)%nat in
        let right_child := (index * 2 + 2)%nat in
        let* min_child :=
          if (right_child <? size)%nat then
            let* r := get l right_child in
            let* m := get l left_child in
            Ok (if fst r <? fst m then right_child else left_child)
          else Ok left_child in
        let* e := get l index in
        let* m := get l min_child in
        if fst e <=? fst m then Ok l
        else let* l := swap l index min_child in heapify_down turns l size min_child
      else Ok l
  end.

Fixpoint heapify_up (turns : nat) l (index : nat) : res (list (Z * V)) :=
  match turns with
  | O => Fault OutOfFuel
  | S turns =>
      if (index =? 0)%nat then Ok l
      else
        let parent := ((index - 1) / 2)%nat in
        let* e := get l index in
        let* q := get l parent in
        if fst q <=? fst e then Ok l
        else let* l := swap l index parent in heapify_up turns l parent
  end.

(** The loop of the constructor that takes arrays, from [index] down to 0. *)
Fixpoint build_loop (l : list (Z * V)) (size index : nat) : res (list (Z * V)) :=
  let* l := heapify_down (S size) l size index in
  match index with
  | O => Ok l
  | S index => build_loop l size index
  end.

(** [storage] is what the array of the new object holds. *)
Definition from_arrays (storage elements : list (Z * V)) : res BinaryHeap :=
  let size := length elements in
  VERIFY (size <=? Capacity)%nat ;;
  let* l := build_loop (elements ++ drop size storage) size (size / 2) in
  Ok (mkHeap l size).

Definition is_empty h : bool := (m_size h =? 0)%nat.

Definition insert h (key : Z) (value : V) : res BinaryHeap :=
  VERIFY (m_size h <? Capacity)%nat ;;
  let index := m_size h in
  let* l := set (m_elements h) index (key, value) in
  let* l := heapify_up (S index) l index in
  Ok (mkHeap l (S index)).

Definition pop_min h : res (BinaryHeap * V) :=
  VERIFY negb (is_empty h) ;;
  let index := (m_size h - 1)%nat in
  let* l := swap (m_elements h) 0 index in
  let* l := heapify_down (S index) l index 0 in
  let* e := get l index in
  Ok (mkHeap l index, snd e).

Definition peek_min h : res V :=
  VERIFY negb (is_empty h) ;;
  let* e := get (m_elements h) 0 in Ok (snd e).

Definition peek_min_key h : res Z :=
  VERIFY negb (is_empty h) ;;
  let* e := get (m_elements h) 0 in Ok (fst e).

Definition clear h : BinaryHeap := mkHeap (m_elements h) 0.
End BinaryHeap.

End BinaryHeap.

(** ** Facts *)
Module HeapFacts.
Import Arrays BinaryHeap.

Section Facts.
Context {V : Type} `{Inhabited V} (Capacity : nat).
Implicit Types (l : list (Z * V)) (h : BinaryHeap (V := V)).

Definition key l (i : nat) : Z := fst (l !!! i).
Definition child (i c : nat) : Prop := c = (i * 2 + 1)%nat \/ c = (i * 2 + 2)%nat.

(** The keys of children are not smaller, from the index [lo] on. *)
Definition heap l (n lo : nat) : Prop := forall i c, (lo <= i)%nat -> child i c -> (c < n)%nat -> key l i <= key l c.

(** The same but below [k], where a key may be too large. *)
Definition almost_down l (n lo k : nat) : Prop :=
  (forall i c, (lo <= i)%nat -> child i c -> (c < n)%nat -> i <> k -> key l i <= key l c) /\
  (forall i d, (lo <= i)%nat -> child i k -> child k d -> (d < n)%nat -> key l i <= key l d).

(** The same but above [k], where a key may be too small. *)
Definition almost_up l (n k : nat) : Prop :=
  (forall i c, child i c -> (c < n)%nat -> c <> k -> key l i <= key l c) /\
  (forall i d, child i k -> child k d -> (d < n)%nat -> key l i <= key l d).

Lemma get_key l i : (i < length l)%nat -> get l i = Ok (l !!! i).
Proof using Type. intros Hi. unfold get. by rewrite list_lookup_lookup_total_lt. Qed.

Lemma key_swapped l i j k : (i < length l)%nat -> (j < length l)%nat ->
  key (swapped l i j) k = key l (if decide (k = i) then j else if decide (k = j) then i else k).
Proof using Type. intros Hi Hj. unfold key. rewrite !list_lookup_total_alt. by rewrite swapped_lookup. Qed.

(** Compares keys after an exchange. *)
Ltac keys := rewrite ?key_swapped by lia; repeat (case_decide; try lia); subst; try lia.

Lemma heapify_down_ok turns l n lo k : (n <= length l)%nat -> (lo <= k)%nat -> (n - k < turns)%nat -> almost_down l n lo k ->
  exists l', heapify_down turns l n k = Ok l' /\ heap l' n lo /\ l' ≡ₚ l /\ drop n l' = drop n l /\ length l' = length l.
Proof using Type.
  revert l k. induction turns as [|turns IH]; intros l k Hn Hk Ht [H1 H2]; [lia|]. cbn [heapify_down].
  destruct (Nat.ltb_spec (k * 2 + 1) n) as [Hlt|Hge].
  2:{ exists l. split; [done|]. split; [|done]. intros i c Hi Hc Hcn. apply H1; try done. intros ->. unfold child in Hc. lia. }
  set (mc := if (k * 2 + 2 <? n)%nat && (key l (k * 2 + 2) <? key l (k * 2 + 1)) then (k * 2 + 2)%nat else (k * 2 + 1)%nat).
  assert ((if (k * 2 + 2 <? n)%nat then let* r := get l (k * 2 + 2) in let* m := get l (k * 2 + 1) in
    Ok (if fst r <? fst m then (k * 2 + 2)%nat else (k * 2 + 1)%nat) else Ok (k * 2 + 1)%nat) = Ok mc) as ->.
  { subst mc. destruct (Nat.ltb_spec (k * 2 + 2) n); [|done]. by rewrite !get_key by lia. }
  assert (child k mc /\ (mc < n)%nat /\ forall c, child k c -> (c < n)%nat -> key l mc <= key l c) as (Hmc & Hmn & Hmin).
  { subst mc. unfold child. destruct (Nat.ltb_spec (k * 2 + 2) n); cbn [andb]; [destruct (Z.ltb_spec (key l (k * 2 + 2)) (key l (k * 2 + 1)))|];
      (split; [auto|]); (split; [lia|]); intros c [->| ->] Hc; lia. }
  cbn [res_bind]. rewrite !get_key by lia. cbn [res_bind]. fold (key l k) (key l mc). destruct (Z.leb_spec (key l k) (key l mc)) as [Hle|Hgt].
  { exists l. split; [done|]. split; [|done]. intros i c Hi Hc Hcn. destruct (decide (i = k)) as [->|]; [|by apply H1]. specialize (Hmin c Hc Hcn). lia. }
  assert (k < mc)%nat as Hkm by (unfold child in Hmc; lia). rewrite swap_ok by lia. cbn [res_bind].
  destruct (IH (swapped l k mc) mc) as (l' & E & Hh & Hp & Hd & Hl); [rewrite swapped_length; lia|lia|lia| |].
  - split.
    + intros i c Hi Hc Hcn Hne. assert (c <> mc \/ i = k) as Hcase by (unfold child in *; lia).
      assert (i < c)%nat as Hic by (unfold child in Hc; lia).
      destruct (decide (i = k)) as [->|Hik]; [destruct (decide (c = mc)) as [->|Hcm]; [keys|specialize (Hmin c Hc Hcn); keys]|].
      destruct Hcase as [Hcase|]; [|done]. destruct (decide (c = k)) as [->|Hck].
      * specialize (H2 i mc Hi Hc Hmc Hmn). keys.
      * specialize (H1 i c Hi Hc Hcn Hik). keys.
    + intros i d Hi Hci Hd Hdn. assert (i = k) as -> by (unfold child in *; lia). assert (mc < d)%nat by (unfold child in Hd; lia).
      specialize (H1 mc d ltac:(lia) Hd Hdn ltac:(lia)). keys.
  - exists l'. rewrite E. split; [done|]. split; [done|]. rewrite Hd, swapped_drop, Hl, swapped_length by lia. split; [|done]. rewrite Hp. apply swapped_perm; lia.
Qed.

Lemma heapify_up_ok turns l n k : (n <= length l)%nat -> (k < n)%nat -> (k < turns)%nat -> almost_up l n k ->
  exists l', heapify_up turns l k = Ok l' /\ heap l' n 0 /\ l' ≡ₚ l /\ drop n l' = drop n l /\ length l' = length l.
Proof using Type.
  revert l k. induction turns as [|turns IH]; intros l k Hn Hk Ht [H1 H2]; [lia|]. cbn [heapify_up].
  destruct (Nat.eqb_spec k 0) as [->|Hk0].
  { exists l. split; [done|]. split; [|done]. intros i c _ Hc Hcn. apply H1; try done. unfold child in Hc. lia. }
  set (q := ((k - 1) / 2)%nat). assert (child q k) as Hq.
  { subst q. unfold child. pose proof (Nat.div_mod_eq (k - 1) 2). pose proof (Nat.mod_upper_bound (k - 1) 2). lia. }
  assert (q < k)%nat as Hqk by (unfold child in Hq; lia). rewrite !get_key by lia. cbn [res_bind]. fold (key l q) (key l k).
  destruct (Z.leb_spec (key l q) (key l k)) as [Hle|Hgt].
  { exists l. split; [done|]. split; [|done]. intros i c _ Hc Hcn. destruct (decide (c = k)) as [->|]; [|by apply H1].
    assert (i = q) as -> by (unfold child in *; lia). done. }
  rewrite swap_ok by lia. cbn [res_bind]. destruct (IH (swapped l k q) q) as (l' & E & Hh & Hp & Hd & Hl); [rewrite swapped_length; lia|lia|lia| |].
  - split.
    + intros i c Hc Hcn Hne. assert (i < c)%nat as Hic by (unfold child in Hc; lia). destruct (decide (c = k)) as [->|Hck].
      * assert (i = q) as -> by (unfold child in *; lia). keys.
      * destruct (decide (i = q)) as [->|Hiq]; [specialize (H1 q c Hc Hcn Hck); keys|].
        destruct (decide (i = k)) as [->|Hik]; [specialize (H2 q c Hq Hc Hcn); keys|]. specialize (H1 i c Hc Hcn Hck). keys.
    + intros i d Hi Hd Hdn. assert (i < q)%nat as Hiq by (unfold child in Hi; lia). pose proof (H1 i q Hi ltac:(lia) ltac:(lia)) as Hiq'.
      assert (q < d)%nat by (unfold child in Hd; lia). destruct (decide (d = k)) as [->|Hdk]; [keys|]. specialize (H1 q d Hd Hdn Hdk). keys.
  - exists l'. rewrite E. split; [done|]. split; [done|]. rewrite Hd, swapped_drop, Hl, swapped_length by lia. split; [|done]. rewrite Hp. apply swapped_perm; lia.
Qed.

(** ** Refinement *)

Definition contents h : list (Z * V) := take (m_size h) (m_elements h).
Definition wf h : Prop := length (m_elements h) = Capacity /\ (m_size h <= Capacity)%nat /\ heap (m_elements h) (m_size h) 0.

(** [e] has a least key of [M]. *)
Definition least (e : Z * V) (M : list (Z * V)) : Prop := e ∈ M /\ Forall (fun e' => fst e <= fst e') M.

Lemma root_least h : wf h -> (0 < m_size h)%nat -> least (m_elements h !!! 0%nat) (contents h).
Proof using Type.
  intros (Hl & Hn & Hh) H0. assert (forall i, (i < m_size h)%nat -> key (m_elements h) 0 <= key (m_elements h) i) as Hle.
  { induction i as [i IH] using lt_wf_ind. intros Hi. destruct (decide (i = 0%nat)) as [->|]; [lia|].
    assert (child ((i - 1) / 2) i) as Hc.
    { unfold child. pose proof (Nat.div_mod_eq (i - 1) 2). pose proof (Nat.mod_upper_bound (i - 1) 2). lia. }
    assert ((i - 1) / 2 < i)%nat by (unfold child in Hc; lia). specialize (Hh _ i ltac:(lia) Hc Hi). specialize (IH ((i - 1) / 2)%nat ltac:(lia) ltac:(lia)). lia. }
  assert (m_elements h !! 0%nat = Some (m_elements h !!! 0%nat)) as E by (apply list_lookup_lookup_total_lt; lia).
  split.
  - apply (list_elem_of_lookup_2 _ 0). unfold contents. by rewrite lookup_take_lt by lia.
  - apply Forall_lookup_2. intros i e' He. unfold contents in He. apply lookup_take_Some in He as [He Hi].
    specialize (Hle i Hi). unfold key in Hle. by rewrite (list_lookup_total_correct _ _ _ He) in Hle.
Qed.

Lemma contents_perm l n x : (n < length l)%nat -> l !! n = Some x -> take (S n) l ≡ₚ x :: take n l.
Proof using Type. intros Hn Hx. rewrite (take_S_r _ _ _ Hx). by rewrite Permutation_app_comm. Qed.

Lemma heap_insert_ok h k v : wf h ->
  if (m_size h <? Capacity)%nat then exists h', insert Capacity h k v = Ok h' /\ wf h' /\ contents h' ≡ₚ (k, v) :: contents h
  else insert Capacity h k v = Fault VerifyFailed.
Proof using Type.
  intros (Hl & Hn & Hh). unfold insert. destruct (Nat.ltb_spec (m_size h) Capacity) as [Hlt|]; [|done]. cbn [verify].
  unfold set. rewrite (proj2 (Nat.ltb_lt _ _)) by lia. cbn [defined res_bind]. set (n := m_size h) in *. set (l1 := <[n := (k, v)]> (m_elements h)).
  assert (length l1 = Capacity) as Hl1 by (subst l1; by rewrite length_insert).
  assert (forall i, (i < n)%nat -> key l1 i = key (m_elements h) i) as Hk.
  { intros i Hi. unfold key, l1. rewrite !list_lookup_total_alt. by rewrite list_lookup_insert_ne by lia. }
  destruct (heapify_up_ok (S n) l1 (S n) n) as (l' & E & Hh' & Hp & Hd & Hll); [lia|lia|lia| |].
  { split; intros i c Hi Hc; [intros Hne|intros ?; unfold child in *; lia]. assert (i < c)%nat by (unfold child in Hi; lia).
    rewrite !Hk by lia. apply Hh; [lia|done|lia]. }
  rewrite E. cbn [res_bind]. eexists. split; [done|]. split; [split; [cbn; lia|]; split; [cbn; lia|done]|].
  unfold contents. cbn [m_elements m_size]. rewrite (perm_prefix _ _ _ Hp Hd), (contents_perm l1 n (k, v)); [|lia|by apply list_lookup_insert_eq; lia].
  subst l1. rewrite take_insert_ge by lia. done.
Qed.

Lemma pop_min_ok h : wf h ->
  if is_empty h then pop_min h = Fault VerifyFailed
  else exists h' e, pop_min h = Ok (h', snd e) /\ wf h' /\ e = m_elements h !!! 0%nat /\ contents h ≡ₚ e :: contents h'.
Proof using Type.
  intros (Hl & Hn & Hh). unfold pop_min. destruct (is_empty h) eqn:E; [done|]. unfold is_empty in E. apply Nat.eqb_neq in E. cbn [negb verify].
  set (n := (m_size h - 1)%nat). rewrite swap_ok by lia. cbn [res_bind]. set (l1 := swapped (m_elements h) 0 n).
  assert (length l1 = Capacity) as Hl1 by (subst l1; by rewrite swapped_length).
  destruct (heapify_down_ok (S n) l1 n 0 0) as (l' & Ed & Hh' & Hp & Hd & Hll); [lia|lia|lia| |].
  { split; intros i c Hi Hc; [|unfold child in Hc; lia]. intros Hcn Hne. assert (i < c)%nat by (unfold child in Hc; lia).
    subst l1. rewrite !key_swapped by lia. repeat (case_decide; try lia). apply Hh; [lia|done|lia]. }
  rewrite Ed. cbn [res_bind]. rewrite get_key by lia. cbn [res_bind]. set (e := l' !!! n).
  assert (l1 !! n = Some (m_elements h !!! 0%nat)) as Hl1n.
  { subst l1. rewrite swapped_lookup by lia. repeat case_decide; try lia; subst; rewrite ?H0; apply list_lookup_lookup_total_lt; lia. }
  assert (l' !! n = Some (m_elements h !!! 0%nat)) as Hl'n.
  { rewrite <- Hl1n, <- (Nat.add_0_r n), <- !lookup_drop. by rewrite Hd. }
  assert (e = m_elements h !!! 0%nat) as He by (subst e; by apply list_lookup_total_correct).
  eexists _, e. split; [done|]. split; [split; [cbn; lia|]; split; [cbn; lia|done]|]. split; [done|]. unfold contents. cbn [m_elements m_size].
  rewrite (perm_prefix _ _ _ Hp Hd), He, <- (contents_perm l1 n) by (done || lia). replace (S n) with (m_size h) by lia.
  apply perm_prefix; [symmetry; apply swapped_perm|]. subst l1. by rewrite swapped_drop by lia.
Qed.

Lemma build_loop_ok l n k : (n <= length l)%nat -> heap l n (S k) ->
  exists l', build_loop l n k = Ok l' /\ heap l' n 0 /\ l' ≡ₚ l /\ drop n l' = drop n l /\ length l' = length l.
Proof using Type.
  revert l. induction k as [|k IH]; intros l Hn Hh; cbn [build_loop];
    (match goal with |- context [heapify_down _ l n ?k] => destruct (heapify_down_ok (S n) l n k k) as (l1 & E & H1 & Hp & Hd & Hl); [lia|lia|lia| |] end;
      [split; [intros i c Hi Hc Hcn Hne; apply Hh; [lia|done|done]|intros i d Hi Hc; unfold child in Hc; lia]|rewrite E; cbn [res_bind]]).
  - exists l1. done.
  - destruct (IH l1 ltac:(lia) H1) as (l2 & E2 & H2 & Hp2 & Hd2 & Hl2). exists l2. rewrite E2, Hd2, Hd, Hl2, Hl. split; [done|]. split; [done|].
    split; [by rewrite Hp2|done].
Qed.

Lemma from_arrays_ok storage elements : length storage = Capacity -> (length elements <= Capacity)%nat ->
  exists h, from_arrays Capacity storage elements = Ok h /\ wf h /\ contents h ≡ₚ elements.
Proof using Type.
  intros Hs He. unfold from_arrays. rewrite (proj2 (Nat.leb_le _ _)) by done. cbn [verify]. set (n := length elements) in *.
  assert (length (elements ++ drop n storage) = Capacity) as Hlen by (rewrite length_app, length_drop; lia).
  destruct (build_loop_ok (elements ++ drop n storage) n (n / 2)) as (l & E & Hh & Hp & Hd & Hl); [lia| |].
  { intros i c Hi Hc Hcn. pose proof (Nat.div_mod_eq n 2). pose proof (Nat.mod_upper_bound n 2). unfold child in Hc. lia. }
  rewrite E. cbn [res_bind]. eexists. split; [done|]. split; [split; [cbn; lia|]; split; [cbn; lia|done]|]. unfold contents. cbn [m_elements m_size].
  rewrite (perm_prefix _ _ _ Hp Hd). subst n. by rewrite take_app_length.
Qed.

(** The calls of the heap and their answers. *)
Inductive call := Insert (k : Z) (v : V) | PopMin | PeekMin | PeekMinKey | Clear | Size.
Inductive answer := Done | Value (v : V) | Key (k : Z) | Count (n : nat).

Definition step h (c : call) : res (BinaryHeap (V := V) * answer) :=
  match c with
  | Insert k v => let* h := insert Capacity h k v in Ok (h, Done)
  | PopMin => let* (h, v) := pop_min h in Ok (h, Value v)
  | PeekMin => let* v := peek_min h in Ok (h, Value v)
  | PeekMinKey => let* k := peek_min_key h in Ok (h, Key k)
  | Clear => Ok (clear h, Done)
  | Size => Ok (h, Count (m_size h))
  end.

Fixpoint run h (cs : list call) : res (BinaryHeap (V := V) * list answer) :=
  match cs with
  | [] => Ok (h, [])
  | c :: cs =>
      let* (h, a) := step h c in
      let* (h, l) := run h cs in
      Ok (h, a :: l)
  end.

(** What a priority queue of at most [Capacity] elements answers: [None] is the failed assertion. *)
Inductive queue_step (M : list (Z * V)) : call -> option (list (Z * V) * answer) -> Prop :=
  | QInsert k v : (length M < Capacity)%nat -> queue_step M (Insert k v) (Some ((k, v) :: M, Done))
  | QFull k v : length M = Capacity -> queue_step M (Insert k v) None
  | QPop e M' : least e M -> M ≡ₚ e :: M' -> queue_step M PopMin (Some (M', Value (snd e)))
  | QPeek e : least e M -> queue_step M PeekMin (Some (M, Value (snd e)))
  | QPeekKey e : least e M -> queue_step M PeekMinKey (Some (M, Key (fst e)))
  | QEmpty c : M = [] -> c ∈ [PopMin; PeekMin; PeekMinKey] -> queue_step M c None
  | QClear : queue_step M Clear (Some ([], Done))
  | QSize : queue_step M Size (Some (M, Count (length M))).

Inductive queue_run : list (Z * V) -> list call -> option (list (Z * V) * list answer) -> Prop :=
  | QNil M : queue_run M [] (Some (M, []))
  | QStop M c cs : queue_step M c None -> queue_run M (c :: cs) None
  | QFail M c cs M' a : queue_step M c (Some (M', a)) -> queue_run M' cs None -> queue_run M (c :: cs) None
  | QCons M c cs M' a M'' (l : list answer) : queue_step M c (Some (M', a)) -> queue_run M' cs (Some (M'', l)) -> queue_run M (c :: cs) (Some (M'', a :: l)).

(** What the heap answers, as the queue says it. *)
Definition answered {B} (r : res (BinaryHeap (V := V) * B)) (q : option (list (Z * V) * B)) : Prop :=
  match r, q with
  | Ok (h, b), Some (M, b') => wf h /\ contents h ≡ₚ M /\ b = b'
  | Fault f, None => f = VerifyFailed
  | _, _ => False
  end.

Lemma heap_contents_length h : wf h -> length (contents h) = m_size h.
Proof using Type. intros (Hl & Hn & _). unfold contents. rewrite length_take. lia. Qed.

Lemma empty_contents h M : wf h -> contents h ≡ₚ M -> is_empty h = true -> M = [].
Proof using Type. intros Hw HM Hi. apply Nat.eqb_eq in Hi. apply Permutation_length in HM. rewrite heap_contents_length, Hi in HM by done. by destruct M. Qed.

Lemma peek_least h M : wf h -> contents h ≡ₚ M -> is_empty h = false -> get (m_elements h) 0 = Ok (m_elements h !!! 0%nat) /\ least (m_elements h !!! 0%nat) M.
Proof using Type.
  intros Hw HM Hi. apply Nat.eqb_neq in Hi. destruct (root_least h Hw ltac:(lia)) as [H1 H2]. destruct Hw as (Hl & Hn & _). rewrite get_key by lia.
  split; [done|]. split; by rewrite <- HM.
Qed.

Lemma step_refines h M c : wf h -> contents h ≡ₚ M -> exists q, queue_step M c q /\ answered (step h c) q.
Proof using Type.
  intros Hw HM. pose proof (Permutation_length HM) as Hlen. rewrite heap_contents_length in Hlen by done. destruct c as [k v| | | | |]; cbn [step].
  - pose proof (heap_insert_ok h k v Hw) as Hi. destruct (Nat.ltb_spec (m_size h) Capacity).
    + destruct Hi as (h' & -> & Hw' & Hp). eexists. split; [apply QInsert; lia|]. split; [done|]. split; [by rewrite Hp, HM|done].
    + rewrite Hi. exists None. split; [|done]. apply QFull. destruct Hw. lia.
  - pose proof (pop_min_ok h Hw) as Hi. destruct (is_empty h) eqn:E.
    + rewrite Hi. exists None. split; [|done]. apply QEmpty; [by eapply empty_contents|set_solver].
    + destruct Hi as (h' & e & -> & Hw' & He & Hp). destruct (peek_least h M Hw HM E) as [_ Hle]. rewrite <- He in Hle. exists (Some (contents h', Value (snd e))).
      split; [apply (QPop M e); [done|by rewrite <- HM]|done].
  - unfold peek_min. destruct (is_empty h) eqn:E; [exists None; split; [apply QEmpty; [by eapply empty_contents|set_solver]|done]|].
    destruct (peek_least h M Hw HM E) as [-> Hle]. eexists. split; [by apply QPeek|done].
  - unfold peek_min_key. destruct (is_empty h) eqn:E; [exists None; split; [apply QEmpty; [by eapply empty_contents|set_solver]|done]|].
    destruct (peek_least h M Hw HM E) as [-> Hle]. eexists. split; [by apply QPeekKey|done].
  - eexists. split; [apply QClear|]. destruct Hw as (Hl & Hn & _). split; [|done]. split; [done|]. split; [cbn; lia|]. intros i c' _ _ Hc. cbn in Hc. lia.
  - eexists. split; [apply QSize|]. split; [done|]. split; [done|by rewrite Hlen].
Qed.

Lemma run_refines h M cs : wf h -> contents h ≡ₚ M -> exists q, queue_run M cs q /\ answered (run h cs) q.
Proof using Type.
  revert h M. induction cs as [|c cs IH]; intros h M Hw HM; cbn [run]; [eexists; split; [apply QNil|done]|].
  destruct (step_refines h M c Hw HM) as ([[M1 a]|] & Hq & Ha); destruct (step h c) as [[h1 a1]|f]; try done.
  2:{ exists None. split; [by apply QStop|done]. }
  destruct Ha as (Hw1 & HM1 & ->). cbn [res_bind]. destruct (IH h1 M1 Hw1 HM1) as ([[M2 l]|] & Hq2 & Ha2); destruct (run h1 cs) as [[h2 l2]|f]; try done.
  - destruct Ha2 as (Hw2 & HM2 & ->). eexists. split; [by eapply QCons|done].
  - exists None. split; [by eapply QFail|done].
Qed.

(** C33: A heap made from at most [Capacity] elements, over an array that holds anything,
    answers every sequence of calls as a priority queue of these elements: every answer
    is one of the queue, the assertions fail only where the queue is full or empty, no
    index leaves the array and every loop ends. *)
Theorem heap_run_refines storage elements cs : length storage = Capacity -> (length elements <= Capacity)%nat ->
  exists h q, from_arrays Capacity storage elements = Ok h /\ queue_run elements cs q /\ answered (run h cs) q.
Proof using Type.
  intros Hs He. destruct (from_arrays_ok storage elements Hs He) as (h & E & Hw & HM).
  destruct (run_refines h elements cs Hw HM) as (q & Hq & Ha). by exists h, q.
Qed.
End Facts.

(** Three elements in an array of four, two more put in, the second of which fails. *)
Lemma heap_run_refines_witness :
  let storage := replicate 4 (0, 0) in
  let elements := [(5, 50); (3, 30); (4, 40)] in
  let calls := [PeekMinKey; Insert 1 10; PopMin; PopMin; Size; PopMin; Insert 3 31; PopMin] in
  exists h q, from_arrays 4 storage elements = Ok h /\ queue_run 4 elements calls q /\ answered 4 (run 4 h calls) q /\
    (let* (_, l) := run 4 h calls in Ok l) = Ok [Key 3; Done; Value 10; Value 30; Count 2; Value 40; Done; Value 31] /\
    run 4 h [Insert 1 10; Insert 2 20] = Fault VerifyFailed.
Proof.
  intros storage elements calls. destruct (heap_run_refines 4 storage elements calls eq_refl ltac:(cbn; lia)) as (h & q & E & Hq & Ha).
  exists h, q. assert (from_arrays 4 storage elements = Ok (mkHeap [(3, 30); (5, 50); (4, 40); (0, 0)] 3)) as E' by (vm_compute; reflexivity).
  rewrite E' in E. injection E as <-. split; [exact E'|]. split; [done|]. split; [done|]. split; vm_compute; reflexivity.
Defined.
End HeapFacts.
