(* ===== verification/HashTable.v ===== *)
(** * Hash tables

    AK/HashFunctions.h, AK/HashTable.h and AK/HashMap.h.  The table is an array of
    buckets that is probed along [hash], [double_hash hash], ...; a removed entry leaves
    a mark, and the table grows when more than 60 percent of it is used or marked.
    The hash function of the keys is a parameter (KeyTraits::hash); keys that are
    equal for the traits are equal.  The allocation of buckets succeeds.
    [HashFacts] proves that the operations give the answers of a finite map or probe
    forever, and [HashSpec] when they do not: [hash_map_refines], and when they do:
    [hash_table_hangs]. *)
From S2P Require Import Prelude.

(** ** AK/HashFunctions.h *)
Module HashFunctions.

Definition shl (key n : Z) : Z := wrap U32 (Z.shiftl key n).
Definition inverted (key : Z) : Z := wrap U32 (Z.lnot key).

Definition int_hash (key : Z) : Z :=
  let key := wrap U32 (key + inverted (shl key 15)) in
  let key := Z.lxor key (Z.shiftr key 10) in
  let key := wrap U32 (key + shl key 3) in
  let key := Z.lxor key (Z.shiftr key 6) in
  let key := wrap U32 (key + inverted (shl key 11)) in
  let key := Z.lxor key (Z.shiftr key 16) in
  key.

Definition double_hash (key : Z) : Z :=
  let key := wrap U32 (inverted key + Z.shiftr key 23) in
  let key := Z.lxor key (shl key 12) in
  let key := Z.lxor key (Z.shiftr key 7) in
  let key := Z.lxor key (shl key 2) in
  let key := Z.lxor key (Z.shiftr key 20) in
  key.

Definition pair_int_hash (key1 key2 : Z) : Z :=
  int_hash (Z.lxor (wrap U32 (int_hash key1 * 209)) (int_hash (wrap U32 (key2 * 413)))).

Definition u64_hash (key : Z) : Z :=
  let first := wrap U32 (Z.land key 0xFFFFFFFF) in
  let last := wrap U32 (Z.shiftr key 32) in
  pair_int_hash first last.

(** On a 32-bit machine. *)
Definition ptr_hash (ptr : Z) : Z := int_hash ptr.
End HashFunctions.

(** ** AK/HashTable.h *)
Module HashTable.
Import HashFunctions.

Inductive HashSetResult := InsertedNewEntry | ReplacedExistingEntry.

(** A bucket whose slot holds no object has [slot] [None]. *)
Record Bucket {T : Type} := mkBucket { used : bool; deleted : bool; is_end : bool; slot : option T }.
Arguments Bucket T : clear implicits.
Arguments mkBucket {T}.

Record HashTable {T : Type} := mkTable { m_buckets : option (list (Bucket T)); m_size : Z; m_capacity : Z; m_deleted_count : Z }.
Arguments HashTable T : clear implicits.
Arguments mkTable {T}.

Section HashTable.
(** [probes] bounds the turns of the loops that probe. *)
Context {K T : Type} `{EqDecision K} (key_of : T -> K) (hash : K -> Z) (probes : nat).
Implicit Types (t : HashTable T) (bs : list (Bucket T)).

Definition empty_table : HashTable T := mkTable None 0 0 0.

Definition is_empty t : bool := m_size t =? 0.
Definition load_factor_in_percent : Z := 60.
Definition used_bucket_count t : Z := wrap size_t (m_size t + m_deleted_count t).
Definition should_grow t : bool :=
  wrap size_t (wrap size_t (used_bucket_count t + 1) * 100) >=? wrap size_t (m_capacity t * load_factor_in_percent).

(** [m_buckets[hash % m_capacity]] *)
Definition bucket_index t (hash : Z) : nat := Z.to_nat (hash mod m_capacity t).
Definition bucket_at t (i : nat) : res (Bucket T) :=
  let* bs := of_opt UndefinedBehaviour (m_buckets t) in
  of_opt UndefinedBehaviour (bs !! i).
Definition probed t (hash : Z) : res (nat * Bucket T) :=
  DEFINED negb (m_capacity t =? 0) ;;
  let* b := bucket_at t (bucket_index t hash) in
  Ok (bucket_index t hash, b).
(** A reference to an object in the slot. *)
Definition object (b : Bucket T) : res T := of_opt UndefinedBehaviour (slot b).
Definition put_bucket t (i : nat) (b : Bucket T) : HashTable T :=
  mkTable ((fun bs => <[i := b]> bs) <$> m_buckets t) (m_size t) (m_capacity t) (m_deleted_count t).

(** Does the bucket hold an entry the finder accepts? *)
Definition holds (b : Bucket T) (finder : T -> bool) : res bool :=
  if used b then let* e := object b in Ok (finder e) else Ok false.

Fixpoint lookup_loop (turns : nat) t (h : Z) (finder : T -> bool) : res (option nat) :=
  match turns with
  | O => Fault OutOfFuel
  | S turns =>
      let* (i, bucket) := probed t h in
      let* found := holds bucket finder in
      if found then Ok (Some i)
      else if negb (used bucket) && negb (deleted bucket) then Ok None
      else lookup_loop turns t (double_hash h) finder
  end.

Definition lookup_with_hash t (h : Z) (finder : T -> bool) : res (option nat) :=
  if is_empty t then Ok None else lookup_loop probes t h finder.

Definition equals (k : K) (e : T) : bool := bool_decide (key_of e = k).

(** [find]; the bucket of an iterator, [None] for [end()]. *)
Definition find t (k : K) : res (option nat) := lookup_with_hash t (hash k) (equals k).
Definition contains t (k : K) : res bool := let* it := find t k in Ok (bool_decide (it <> None)).

Fixpoint writing_loop (turns : nat) t (h : Z) (finder : T -> bool) (first_empty_bucket : option nat) : res nat :=
  match turns with
  | O => Fault OutOfFuel
  | S turns =>
      let* (i, bucket) := probed t h in
      let* found := holds bucket finder in
      if found then Ok i
      else if used bucket then writing_loop turns t (double_hash h) finder first_empty_bucket
      else
        let first := default i first_empty_bucket in
        if negb (deleted bucket) then Ok first
        else writing_loop turns t (double_hash h) finder (Some first)
  end.

(** The functions that grow the table call each other: the calls take [rehash]. *)
Definition lookup_for_writing (rehash : HashTable T -> Z -> res (HashTable T)) t (value : T) : res (HashTable T * nat) :=
  let* t := if should_grow t then rehash t (wrap size_t (m_capacity t * 2)) else Ok t in
  let* i := writing_loop probes t (hash (key_of value)) (equals (key_of value)) None in
  Ok (t, i).

Definition insert_during_rehash (rehash : HashTable T -> Z -> res (HashTable T)) t (value : T) : res (HashTable T) :=
  let* (t, i) := lookup_for_writing rehash t value in
  let* bucket := bucket_at t i in
  Ok (put_bucket t i (mkBucket true (deleted bucket) (is_end bucket) (Some value))).

Fixpoint move_entries (rehash : HashTable T -> Z -> res (HashTable T)) (old_buckets : list (Bucket T)) t : res (HashTable T) :=
  match old_buckets with
  | [] => Ok t
  | old_bucket :: old_buckets =>
      if used old_bucket then
        let* e := object old_bucket in
        let* t := insert_during_rehash rehash t e in
        move_entries rehash old_buckets t
      else move_entries rehash old_buckets t
  end.

Definition fresh_buckets (capacity : Z) : list (Bucket T) :=
  replicate (Z.to_nat capacity) (mkBucket false false false None) ++ [mkBucket false false true None].

(** The calls of [rehash] from inside itself are [depth] deep at most. *)
Fixpoint rehash (depth : nat) t (new_capacity : Z) : res (HashTable T) :=
  match depth with
  | O => Fault OutOfFuel
  | S depth =>
      let new_capacity := Z.max new_capacity 4 in
      let t' := mkTable (Some (fresh_buckets new_capacity)) (m_size t) new_capacity 0 in
      match m_buckets t with
      | None => Ok t'
      | Some old_buckets =>
          DEFINED (Z.to_nat (m_capacity t) <=? length old_buckets)%nat ;;
          move_entries (rehash depth) (take (Z.to_nat (m_capacity t)) old_buckets) t'
      end
  end.

(** Deep enough for every call, as the theorems show. *)
Definition rehash_depth : nat := 2.

Definition ensure_capacity t (capacity : Z) : res (HashTable T) :=
  VERIFY (m_size t <=? capacity) ;;
  rehash rehash_depth t (wrap size_t (capacity * 2)).

Definition set t (value : T) : res (HashTable T * HashSetResult) :=
  let* (t, i) := lookup_for_writing (rehash rehash_depth) t value in
  let* bucket := bucket_at t i in
  if used bucket then
    Ok (put_bucket t i (mkBucket true (deleted bucket) (is_end bucket) (Some value)), ReplacedExistingEntry)
  else
    let t' := put_bucket t i (mkBucket true false (is_end bucket) (Some value)) in
    Ok (mkTable (m_buckets t') (wrap size_t (m_size t + 1)) (m_capacity t)
          (if deleted bucket then wrap size_t (m_deleted_count t - 1) else m_deleted_count t), InsertedNewEntry).

(** [remove(Iterator)] *)
Definition remove_at t (it : option nat) : res (HashTable T) :=
  VERIFY bool_decide (it <> None) ;;
  let* i := of_opt UndefinedBehaviour it in
  let* bucket := bucket_at t i in
  VERIFY used bucket ;;
  VERIFY negb (is_end bucket) ;;
  VERIFY negb (deleted bucket) ;;
  let t' := put_bucket t i (mkBucket false true (is_end bucket) None) in
  Ok (mkTable (m_buckets t') (wrap size_t (m_size t - 1)) (m_capacity t) (wrap size_t (m_deleted_count t + 1))).

(** [remove(const T&)], and [remove] of HashMap. *)
Definition remove t (k : K) : res (HashTable T * bool) :=
  let* it := find t k in
  if bool_decide (it <> None) then let* t := remove_at t it in Ok (t, true) else Ok (t, false).

(** [*this = HashTable()]; the temporary takes the old buckets with it. *)
Definition clear t : HashTable T := empty_table.

(** [begin()] *)
Fixpoint begin_loop bs (i n : nat) : res (option nat) :=
  match n with
  | O => Ok None
  | S n => let* b := of_opt UndefinedBehaviour (bs !! i) in if used b then Ok (Some i) else begin_loop bs (S i) n
  end.
Definition begin t : res (option nat) :=
  if m_capacity t =? 0 then Ok None
  else let* bs := of_opt UndefinedBehaviour (m_buckets t) in begin_loop bs 0 (Z.to_nat (m_capacity t)).

(** [skip_to_next] on the buckets from [i] on. *)
Fixpoint skip_to_next (turns : nat) bs (i : nat) : res (option nat) :=
  match turns with
  | O => Fault OutOfFuel
  | S turns =>
      let* b := of_opt UndefinedBehaviour (bs !! S i) in
      if used b then Ok (Some (S i))
      else if negb (is_end b) then skip_to_next turns bs (S i)
      else Ok None
  end.

(** The loop over the entries. *)
Fixpoint entries_from (turns : nat) bs (it : option nat) : res (list T) :=
  match turns, it with
  | _, None => Ok []
  | O, _ => Fault OutOfFuel
  | S turns, Some i =>
      let* b := of_opt UndefinedBehaviour (bs !! i) in
      let* e := object b in
      let* next := skip_to_next (length bs) bs i in
      let* l := entries_from turns bs next in
      Ok (e :: l)
  end.
Definition entries t : res (list T) :=
  let* it := begin t in
  entries_from (length (default [] (m_buckets t))) (default [] (m_buckets t)) it.

(** The constructor that copies. *)
Fixpoint set_all t (l : list T) : res (HashTable T) :=
  match l with
  | [] => Ok t
  | e :: l => let* (t, _) := set t e in set_all t l
  end.
Definition copy (other : HashTable T) : res (HashTable T) :=
  let* t := rehash rehash_depth empty_table (m_capacity other) in
  let* l := entries other in
  set_all t l.
End HashTable.
End HashTable.

(** ** AK/HashMap.h *)
Module HashMap.
Export HashTable.

Section HashMap.
Context {K V : Type} `{EqDecision K} (hash : K -> Z) (default_value : V) (probes : nat).
Implicit Types t : HashTable (K * V).

Definition set t (key : K) (value : V) : res (HashTable (K * V) * HashSetResult) := HashTable.set fst hash probes t (key, value).
Definition remove t (key : K) : res (HashTable (K * V) * bool) := HashTable.remove fst hash probes t key.
Definition remove_one_randomly t : res (HashTable (K * V)) := let* it := begin t in remove_at t it.
Definition find t (key : K) : res (option nat) := HashTable.find fst hash probes t key.
Definition contains t (key : K) : res bool := HashTable.contains fst hash probes t key.

Definition get t (key : K) : res (option V) :=
  let* it := find t key in
  match it with
  | None => Ok None
  | Some i => let* b := bucket_at t i in let* e := object b in Ok (Some (snd e))
  end.

(** The reference that is returned is read at once. *)
Definition ensure t (key : K) : res (HashTable (K * V) * V) :=
  let* it := find t key in
  let* t := if bool_decide (it = None) then let* (t, _) := set t key default_value in Ok t else Ok t in
  let* it := find t key in
  let* i := of_opt UndefinedBehaviour it in
  let* b := bucket_at t i in
  let* e := object b in
  Ok (t, snd e).

Definition keys t : res (list K) := let* l := entries t in Ok (fst <$> l).
Definition ensure_capacity t (capacity : Z) : res (HashTable (K * V)) := HashTable.ensure_capacity fst hash probes t capacity.
Definition clear t : HashTable (K * V) := HashTable.clear t.
End HashMap.
End HashMap.

(** ** Facts *)
Module HashFacts.
Import HashFunctions HashTable.

Section Facts.
Context {K T : Type} `{Countable K} (key_of : T -> K) (hash : K -> Z) (probes : nat).
Implicit Types (t : HashTable T) (bs : list (Bucket T)) (b : Bucket T).

(** *** The buckets *)

(** The hashes that are probed, and their buckets. *)
Fixpoint probe (h : Z) (n : nat) : Z :=
  match n with
  | O => h
  | S n => double_hash (probe h n)
  end.
#[local] Opaque double_hash.
Definition place (c h : Z) (n : nat) : nat := Z.to_nat (probe h n mod c).

Definition entry b : option T := if used b then slot b else None.
Definition mark b : option unit := if deleted b then Some tt else None.
Definition content bs : list T := omap entry bs.
Definition marks bs : nat := length (omap mark bs).
Definition vacant b : bool := negb (used b) && negb (deleted b).
Definition absent bs (k : K) : Prop := k ∉ key_of <$> content bs.

(** The probes from [h] come to [i] over buckets that are not vacant. *)
Definition occupied bs (i : nat) : Prop := exists b, bs !! i = Some b /\ vacant b = false.
Definition reach bs (c h : Z) (i : nat) : Prop := exists n, place c h n = i /\ forall m, (m < n)%nat -> occupied bs (place c h m).

Record table bs (c : Z) : Prop := {
  t_cap : 4 <= c;
  t_len : length bs = S (Z.to_nat c);
  t_end : forall i b, bs !! i = Some b -> is_end b = bool_decide (i = Z.to_nat c);
  t_last : forall b, bs !! Z.to_nat c = Some b -> vacant b = true;
  t_slot : forall i b, bs !! i = Some b -> used b = true -> is_Some (slot b) /\ deleted b = false;
  t_nodup : NoDup (key_of <$> content bs);
  t_reach : forall i b e, bs !! i = Some b -> entry b = Some e -> reach bs c (hash (key_of e)) i
}.

Lemma omap_split {A B} (f : A -> option B) (l : list A) i x : l !! i = Some x ->
  omap f l ≡ₚ option_list (f x) ++ omap f (take i l ++ drop (S i) l).
Proof using Type.
  intros Hi. rewrite <- (take_drop_middle l i x Hi) at 1. rewrite !omap_app. cbn. destruct (f x); cbn; [|done]. by rewrite Permutation_middle.
Qed.

Lemma omap_update {A B} (f : A -> option B) (l : list A) i x y : l !! i = Some x ->
  omap f (<[i := y]> l) ≡ₚ option_list (f y) ++ omap f (take i l ++ drop (S i) l).
Proof using Type.
  intros Hi. rewrite (omap_split f (<[i := y]> l) i y) by (apply list_lookup_insert_eq; by eapply lookup_lt_Some).
  by rewrite take_insert_ge, drop_insert_lt by lia.
Qed.

Lemma content_elem bs i b e : bs !! i = Some b -> entry b = Some e -> e ∈ content bs.
Proof using Type. intros Hi He. apply list_elem_of_omap. exists b. split; [by eapply list_elem_of_lookup_2|done]. Qed.

Lemma content_bucket bs e : e ∈ content bs -> exists i b, bs !! i = Some b /\ entry b = Some e.
Proof using Type. intros He. apply list_elem_of_omap in He as (b & Hb & E). apply list_elem_of_lookup in Hb as [i Hi]. by exists i, b. Qed.

Lemma occupied_update bs i j b : vacant b = false -> occupied bs j -> occupied (<[i := b]> bs) j.
Proof using Type.
  intros Hv (b' & Hj & Hv'). destruct (decide (i = j)) as [->|]; [exists b; split; [|done]; apply list_lookup_insert_eq; by eapply lookup_lt_Some|].
  exists b'. by rewrite list_lookup_insert_ne.
Qed.

Lemma reach_update bs c h i j b : vacant b = false -> reach bs c h j -> reach (<[i := b]> bs) c h j.
Proof using Type. intros Hv (n & Hn & Hm). exists n. split; [done|]. intros m Hlt. by apply occupied_update, Hm. Qed.

Lemma place_lt c h n : 0 < c -> (place c h n < Z.to_nat c)%nat.
Proof using Type. intros Hc. unfold place. pose proof (Z.mod_pos_bound (probe h n) c Hc). lia. Qed.

(** A bucket that is filled or marked. *)
Lemma table_update bs c i b b' : table bs c -> bs !! i = Some b -> (i < Z.to_nat c)%nat -> vacant b' = false -> is_end b' = is_end b ->
  (used b' = true -> is_Some (slot b') /\ deleted b' = false) -> NoDup (key_of <$> content (<[i := b']> bs)) ->
  (forall e, entry b' = Some e -> reach bs c (hash (key_of e)) i) -> table (<[i := b']> bs) c.
Proof using Type.
  intros [Hc Hl He Hla Hs Hn Hr] Hi Hlt Hv Hend Hslot Hnd Hre. split; [done|by rewrite length_insert| | | |done|].
  - intros j b2 Hj. apply list_lookup_insert_Some in Hj as [(<- & <- & _)|(_ & Hj)]; [|by apply He]. rewrite Hend. by apply He.
  - intros b2 Hj. rewrite list_lookup_insert_ne in Hj by lia. by apply Hla.
  - intros j b2 Hj. apply list_lookup_insert_Some in Hj as [(<- & <- & _)|(_ & Hj)]; [done|by eapply Hs].
  - intros j b2 e Hj Hen. apply reach_update; [done|]. apply list_lookup_insert_Some in Hj as [(<- & <- & _)|(_ & Hj)]; [by apply Hre|by eapply Hr].
Qed.

(** *** Probing *)

(** The first [n] probes have met neither [k] nor a vacant bucket. *)
Definition passed bs (c h : Z) (k : K) (n : nat) : Prop := forall m, (m < n)%nat ->
  exists b, bs !! place c h m = Some b /\ vacant b = false /\ forall e, entry b = Some e -> key_of e <> k.

Lemma passed_S bs c h k n b : passed bs c h k n -> bs !! place c h n = Some b -> vacant b = false -> (forall e, entry b = Some e -> key_of e <> k) ->
  passed bs c h k (S n).
Proof using Type. intros Hp Hb Hv Hk m Hm. destruct (decide (m = n)) as [->|]; [by exists b|]. apply Hp. lia. Qed.

Lemma passed_reach bs c h k n m : passed bs c h k n -> (m <= n)%nat -> reach bs c h (place c h m).
Proof using Type. intros Hp Hm. exists m. split; [done|]. intros j Hj. destruct (Hp j ltac:(lia)) as (b & Hb & Hv & _). by exists b. Qed.

Lemma passed_absent bs c k n b : table bs c -> passed bs c (hash k) k n -> bs !! place c (hash k) n = Some b -> vacant b = true -> absent bs k.
Proof using Type.
  intros Ht Hp Hb Hv Hk. apply list_elem_of_fmap in Hk as (e & -> & He). apply content_bucket in He as (i & b' & Hi & Hen).
  destruct (t_reach _ _ Ht i b' e Hi Hen) as (n' & <- & Hocc). destruct (lt_eq_lt_dec n n') as [[Hlt| ->]|Hgt].
  - destruct (Hocc n Hlt) as (b2 & Hb2 & Hv2). congruence.
  - unfold vacant, entry in *. rewrite Hb in Hi. injection Hi as ->. by destruct (used b').
  - destruct (Hp n' Hgt) as (b2 & Hb2 & _ & Hne). rewrite Hi in Hb2. injection Hb2 as <-. by apply (Hne e).
Qed.

(** The bucket of [k]. *)
Definition found bs (k : K) (i : nat) : Prop := exists b e, bs !! i = Some b /\ entry b = Some e /\ key_of e = k.
(** A bucket where [k] may be put. *)
Definition writable bs (c : Z) (k : K) (i : nat) : Prop :=
  absent bs k /\ (i < Z.to_nat c)%nat /\ reach bs c (hash k) i /\ exists b, bs !! i = Some b /\ used b = false.
Definition never_vacant bs (c h : Z) (n : nat) : Prop := forall m, (m < n)%nat -> occupied bs (place c h m).

Lemma passed_never bs c h k n : passed bs c h k n -> never_vacant bs c h n.
Proof using Type. intros Hp m Hm. destruct (Hp m Hm) as (b & Hb & Hv & _). by exists b. Qed.

Lemma probed_ok t bs n h : m_buckets t = Some bs -> table bs (m_capacity t) ->
  exists b, bs !! place (m_capacity t) h n = Some b /\ probed t (probe h n) = Ok (place (m_capacity t) h n, b).
Proof using Type.
  intros Hb Ht. pose proof (t_cap _ _ Ht). pose proof (place_lt (m_capacity t) h n ltac:(lia)) as Hlt.
  destruct (lookup_lt_is_Some_2 bs (place (m_capacity t) h n)) as [b E]; [rewrite (t_len _ _ Ht); lia|]. exists b. split; [done|]. unfold probed, bucket_at, bucket_index.
  fold (place (m_capacity t) h n). rewrite Hb. destruct (Z.eqb_spec (m_capacity t) 0); [lia|]. cbn [negb defined res_bind of_opt]. by rewrite E.
Qed.

Lemma holds_ok bs c i b k : table bs c -> bs !! i = Some b ->
  (exists e, holds b (equals key_of k) = Ok true /\ entry b = Some e /\ key_of e = k) \/
  (holds b (equals key_of k) = Ok false /\ forall e, entry b = Some e -> key_of e <> k).
Proof using Type.
  intros Ht Hi. unfold holds, entry, object. destruct (used b) eqn:Hu; [|by right]. destruct (t_slot _ _ Ht i b Hi Hu) as [[e He] _]. rewrite He. cbn [of_opt res_bind].
  unfold equals. case_bool_decide as Hk; [left; by exists e|right]. split; [done|]. by intros e' [= <-].
Qed.

Lemma lookup_loop_ok t bs k turns n : m_buckets t = Some bs -> table bs (m_capacity t) -> passed bs (m_capacity t) (hash k) k n ->
  match lookup_loop turns t (probe (hash k) n) (equals key_of k) with
  | Ok (Some i) => found bs k i
  | Ok None => absent bs k
  | Fault f => f = OutOfFuel /\ never_vacant bs (m_capacity t) (hash k) (n + turns)
  end.
Proof using Type.
  intros Hb Ht. revert n. induction turns as [|turns IH]; intros n Hp; cbn [lookup_loop].
  { rewrite Nat.add_0_r. split; [done|]. by eapply passed_never. }
  destruct (probed_ok t bs n (hash k) Hb Ht) as (b & Hi & ->). cbn [res_bind].
  destruct (holds_ok bs _ _ b k Ht Hi) as [(e & -> & He & Hk)|(-> & Hne)]; cbn [res_bind]; [by exists b, e|].
  fold (vacant b). destruct (vacant b) eqn:Hv; [by eapply passed_absent|]. rewrite <- Nat.add_succ_comm. apply (IH (S n)). by eapply passed_S.
Qed.

Lemma writing_loop_ok t bs k turns n first : m_buckets t = Some bs -> table bs (m_capacity t) -> passed bs (m_capacity t) (hash k) k n ->
  (forall i, first = Some i -> exists m b, (m < n)%nat /\ place (m_capacity t) (hash k) m = i /\ bs !! i = Some b /\ used b = false) ->
  match writing_loop turns t (probe (hash k) n) (equals key_of k) first with
  | Ok i => found bs k i \/ writable bs (m_capacity t) k i
  | Fault f => f = OutOfFuel /\ never_vacant bs (m_capacity t) (hash k) (n + turns)
  end.
Proof using Type.
  intros Hb Ht. revert n first. induction turns as [|turns IH]; intros n first Hp Hf; cbn [writing_loop].
  { rewrite Nat.add_0_r. split; [done|]. by eapply passed_never. }
  destruct (probed_ok t bs n (hash k) Hb Ht) as (b & Hi & ->). cbn [res_bind].
  destruct (holds_ok bs _ _ b k Ht Hi) as [(e & -> & He & Hk)|(-> & Hne)]; cbn [res_bind]; [left; by exists b, e|]. rewrite <- Nat.add_succ_comm.
  destruct (used b) eqn:Hu.
  { apply (IH (S n)); [eapply passed_S; try done; unfold vacant; by rewrite Hu|]. intros i Hi'. destruct (Hf i Hi') as (m & b' & ? & ?). exists m, b'. split; [lia|done]. }
  assert (exists m b', (m < S n)%nat /\ place (m_capacity t) (hash k) m = default (place (m_capacity t) (hash k) n) first /\
    bs !! default (place (m_capacity t) (hash k) n) first = Some b' /\ used b' = false) as (m & b' & Hm & Hpl & Hb' & Hu').
  { destruct first as [i|]; cbn; [destruct (Hf i eq_refl) as (m & b' & ? & ?); exists m, b'; split; [lia|done]|]. exists n, b. split; [lia|done]. }
  destruct (deleted b) eqn:Hd; cbn [negb].
  - apply (IH (S n)); [eapply passed_S; try done; unfold vacant; by rewrite Hu, Hd|]. intros i [= <-]. by exists m, b'.
  - right. pose proof (t_cap _ _ Ht). split; [eapply passed_absent; try done; unfold vacant; by rewrite Hu, Hd|]. rewrite <- Hpl.
    split; [apply place_lt; lia|]. split; [eapply passed_reach; [done|lia]|]. rewrite Hpl. by exists b'.
Qed.

(** *** Endless probing *)

(** Capacities are at most [L]; [ks] are the keys that occur. *)
Context (L : Z) (ks : list K).
Hypothesis L_bound : 4 <= L <= 2 ^ 25.

(** The probes of a hash come to every bucket. *)
Definition meets (c h : Z) : Prop := forall i, (i < Z.to_nat c)%nat -> exists n, (n < probes)%nat /\ place c h n = i.

(** There is a key whose probes miss a bucket. *)
Definition unlucky : Prop := exists k c, k ∈ ks /\ 4 <= c <= L /\ ~ meets c (hash k).

(** The computation ends with [P], or probes forever for such a key. *)
Definition ends {A} (r : res A) (P : A -> Prop) : Prop :=
  match r with
  | Ok x => P x
  | Fault f => f = OutOfFuel /\ unlucky
  end.

Lemma ends_bind {A B} (r : res A) (g : A -> res B) P Q : ends r P -> (forall x, P x -> ends (g x) Q) -> ends (let* x := r in g x) Q.
Proof using Type. intros Hr Hg. destruct r; [by apply Hg|done]. Qed.

Lemma ends_mono {A} (r : res A) (P Q : A -> Prop) : ends r P -> (forall x, P x -> Q x) -> ends r Q.
Proof using Type. intros Hr Hg. destruct r; [by apply Hg|done]. Qed.

Lemma full_count (l : list (Bucket T)) : (forall b, b ∈ l -> vacant b = false /\ (used b = true -> is_Some (slot b))) -> (length l <= length (content l) + marks l)%nat.
Proof using Type.
  unfold content, marks. induction l as [|b l IH]; intros Hl; [done|]. destruct (Hl b ltac:(left)) as [Hv Hs]. specialize (IH (fun b' Hb' => Hl b' ltac:(by right))).
  cbn. unfold vacant, entry, mark in *. destruct (used b); [destruct (Hs eq_refl) as [e ->]|destruct (deleted b); [|done]]; destruct (deleted b); cbn; lia.
Qed.

(** With a vacant bucket left, only an unlucky key never comes to it. *)
Lemma never_unlucky bs c k : table bs c -> c <= L -> k ∈ ks -> Z.of_nat (length (content bs) + marks bs) < c -> never_vacant bs c (hash k) probes -> unlucky.
Proof using Type.
  intros Ht Hc Hk Hn Hv. pose proof (t_cap _ _ Ht) as H4. exists k, c. split; [done|]. split; [lia|]. intros Hm.
  assert (length (take (Z.to_nat c) bs) <= length (content (take (Z.to_nat c) bs)) + marks (take (Z.to_nat c) bs))%nat as Hf.
  { apply full_count. intros b Hb. apply list_elem_of_lookup in Hb as [i Hi]. apply lookup_take_Some in Hi as [Hi Hlt].
    split; [|intros Hu; by apply (t_slot _ _ Ht i b)]. destruct (Hm i Hlt) as (n & Hn' & <-). destruct (Hv n Hn') as (b' & Hb' & Hv'). congruence. }
  rewrite length_take, (t_len _ _ Ht) in Hf. rewrite <- (take_drop (Z.to_nat c) bs) in Hn. unfold content, marks in *. rewrite !omap_app, !length_app in Hn. lia.
Qed.

(** *** Growing *)

(** A table with buckets. *)
Record tab t bs : Prop := {
  tab_bs : m_buckets t = Some bs;
  tab_table : table bs (m_capacity t);
  tab_marks : m_deleted_count t = Z.of_nat (marks bs);
  tab_size : Z.of_nat (length (content bs)) <= m_size t;
  tab_room : m_size t + m_deleted_count t <= L;
  tab_cap : m_capacity t <= L
}.

Lemma should_grow_spec t : 0 <= m_size t -> 0 <= m_deleted_count t -> m_size t + m_deleted_count t <= L -> 0 <= m_capacity t <= L ->
  should_grow t = (m_capacity t * 60 <=? (m_size t + m_deleted_count t + 1) * 100).
Proof using L_bound.
  intros H1 H2 H3 H4. unfold should_grow, used_bucket_count, load_factor_in_percent. change (2 ^ 25) with 33554432 in L_bound.
  assert (wrap size_t (m_size t + m_deleted_count t) = m_size t + m_deleted_count t) as -> by (apply wrap_id; [done|apply in_ty_spec; cbn; lia]).
  assert (wrap size_t (m_size t + m_deleted_count t + 1) = m_size t + m_deleted_count t + 1) as -> by (apply wrap_id; [done|apply in_ty_spec; cbn; lia]).
  assert (wrap size_t ((m_size t + m_deleted_count t + 1) * 100) = (m_size t + m_deleted_count t + 1) * 100) as -> by (apply wrap_id; [done|apply in_ty_spec; cbn; lia]).
  assert (wrap size_t (m_capacity t * 60) = m_capacity t * 60) as -> by (apply wrap_id; [done|apply in_ty_spec; cbn; lia]).
  rewrite Z.geb_leb. done.
Qed.

Lemma tab_grow t bs : tab t bs -> should_grow t = (m_capacity t * 60 <=? (m_size t + m_deleted_count t + 1) * 100).
Proof using L_bound. intros [_ Ht Hm Hs Hr Hc]. pose proof (t_cap _ _ Ht). apply should_grow_spec; lia. Qed.

(** What [rehash] gives: the same entries, and room. *)
Definition grown t bs t' : Prop :=
  exists bs', tab t' bs' /\ content bs' ≡ₚ content bs /\ m_size t' = m_size t /\ m_deleted_count t' = 0 /\ should_grow t' = false.
(** A call of [rehash] where the table has to grow. *)
Definition grows_with (rh : HashTable T -> Z -> res (HashTable T)) t bs : Prop :=
  should_grow t = true -> ends (rh t (wrap size_t (m_capacity t * 2))) (grown t bs).

Lemma writing_ok t bs k : tab t bs -> should_grow t = false -> k ∈ ks ->
  ends (writing_loop probes t (hash k) (equals key_of k) None) (fun i => found bs k i \/ writable bs (m_capacity t) k i).
Proof using L_bound.
  intros Ht Hg Hk. rewrite (tab_grow t bs Ht) in Hg. apply Z.leb_gt in Hg. destruct Ht as [Hb Ht Hm Hs Hr Hc].
  pose proof (writing_loop_ok t bs k probes 0 None Hb Ht ltac:(intros ? ?; lia) ltac:(done)) as Hw. change (probe (hash k) 0) with (hash k) in Hw.
  destruct (writing_loop _ _ _ _ _) as [i|f]; [done|]. destruct Hw as [-> Hv]. split; [done|]. eapply never_unlucky; try done. lia.
Qed.

Lemma lookup_for_writing_ok rh t bs v : tab t bs -> grows_with rh t bs -> key_of v ∈ ks ->
  ends (lookup_for_writing key_of hash probes rh t v) (fun '(t', i) => exists bs', tab t' bs' /\ content bs' ≡ₚ content bs /\
    m_size t' = m_size t /\ m_deleted_count t' <= m_deleted_count t /\ should_grow t' = false /\
    (found bs' (key_of v) i \/ writable bs' (m_capacity t') (key_of v) i)).
Proof using L_bound.
  intros Ht Hrh Hk. unfold lookup_for_writing. eapply (ends_bind _ _ (fun t' => exists bs', tab t' bs' /\ content bs' ≡ₚ content bs /\
    m_size t' = m_size t /\ m_deleted_count t' <= m_deleted_count t /\ should_grow t' = false)).
  - unfold grows_with in Hrh. destruct (should_grow t) eqn:Hg; [|exists bs; done]. eapply ends_mono; [by apply Hrh|].
    intros t' (bs' & Ht' & Hp & Hs & Hd & Hg'). exists bs'. rewrite Hd. destruct Ht. split; [done|]. split; [done|]. split; [done|]. split; [lia|done].
  - intros t' (bs' & Ht' & Hp & Hs & Hd & Hg'). eapply ends_bind; [by apply writing_ok|]. intros i Hi. exists bs'. done.
Qed.

Lemma marks_update bs i b b' : bs !! i = Some b ->
  (marks (<[i := b']> bs) + (if deleted b then 1 else 0) = marks bs + (if deleted b' then 1 else 0))%nat.
Proof using Type.
  intros Hi. unfold marks. rewrite (omap_update mark bs i b b' Hi), (omap_split mark bs i b Hi). rewrite !length_app. unfold mark. destruct (deleted b), (deleted b'); cbn; lia.
Qed.

(** An entry is put where it may be. *)
Lemma table_put bs c i b v : table bs c -> writable bs c (key_of v) i -> bs !! i = Some b ->
  table (<[i := mkBucket true false (is_end b) (Some v)]> bs) c /\ content (<[i := mkBucket true false (is_end b) (Some v)]> bs) ≡ₚ v :: content bs.
Proof using Type.
  intros Ht (Ha & Hlt & Hr & b0 & Hb0 & Hu) Hi. rewrite Hi in Hb0. injection Hb0 as <-.
  assert (content (<[i := mkBucket true false (is_end b) (Some v)]> bs) ≡ₚ v :: content bs) as Hp.
  { unfold content. rewrite (omap_update entry bs i b), (omap_split entry bs i b) by done. unfold entry. by rewrite Hu. }
  split; [|done]. eapply table_update; try done; cbn; [|by intros e [= <-]]. rewrite Hp. apply NoDup_cons. split; [done|apply Ht].
Qed.

Lemma found_lt bs c k i : table bs c -> found bs k i -> (i < Z.to_nat c)%nat.
Proof using Type.
  intros Ht (b & e & Hi & He & _). pose proof (lookup_lt_Some _ _ _ Hi) as Hlt. rewrite (t_len _ _ Ht) in Hlt.
  destruct (decide (i = Z.to_nat c)) as [->|]; [|lia]. pose proof (t_last _ _ Ht b Hi) as Hv. unfold vacant, entry in *. by destruct (used b).
Qed.

Lemma found_absent bs k i : found bs k i -> ~ absent bs k.
Proof using Type. intros (b & e & Hi & He & <-) Ha. apply Ha, list_elem_of_fmap. exists e. split; [done|by eapply content_elem]. Qed.

(** The table after a bucket is written. *)
Lemma tab_put t bs i b : tab t bs -> table (<[i := b]> bs) (m_capacity t) -> marks (<[i := b]> bs) = marks bs -> Z.of_nat (length (content (<[i := b]> bs))) <= m_size t ->
  tab (put_bucket t i b) (<[i := b]> bs).
Proof using Type. intros [Hb Ht Hm Hs Hr Hc] Ht' Hm' Hs'. split; cbn; try done; [by rewrite Hb|]. by rewrite Hm'. Qed.

Lemma insert_during_rehash_ok rh t bs v : tab t bs -> grows_with rh t bs -> key_of v ∈ ks -> m_deleted_count t = 0 -> absent bs (key_of v) ->
  Z.of_nat (length (content bs)) < m_size t ->
  ends (insert_during_rehash key_of hash probes rh t v) (fun t' => exists bs', tab t' bs' /\ content bs' ≡ₚ v :: content bs /\ m_size t' = m_size t /\
    m_deleted_count t' = 0 /\ should_grow t' = false).
Proof using L_bound.
  intros Ht Hrh Hk Hd Ha Hs. unfold insert_during_rehash. eapply ends_bind; [by apply lookup_for_writing_ok|]. intros [t' i] (bs' & Ht' & Hp & Hs' & Hd' & Hg & Hw).
  assert (absent bs' (key_of v)) as Ha' by (unfold absent; by rewrite Hp). destruct Hw as [Hf|Hw]; [by destruct (found_absent _ _ _ Hf)|].
  pose proof Hw as (_ & _ & _ & b & Hb & Hu). unfold bucket_at. rewrite (tab_bs _ _ Ht'). cbn [of_opt res_bind]. rewrite Hb. cbn [of_opt res_bind ends].
  destruct (table_put bs' _ i b v (tab_table _ _ Ht') Hw Hb) as [Hn Hc].
  pose proof (marks_update bs' i b (mkBucket true false (is_end b) (Some v)) Hb) as Hm. pose proof (tab_marks _ _ Ht'). cbn in Hm.
  assert (deleted b = false) as Hdb by (destruct (deleted b); [lia|done]). rewrite Hdb in *.
  eexists. split; [apply tab_put; [done|done|lia|]; rewrite Hc; cbn; rewrite Hp; lia|]. split; [by rewrite Hc, Hp|]. cbn. split; [done|]. split; [lia|done].
Qed.

Lemma move_entries_ok rh old t bs : tab t bs -> grows_with rh t bs -> m_deleted_count t = 0 -> (forall b, b ∈ old -> used b = true -> is_Some (slot b)) ->
  NoDup (key_of <$> content bs ++ content old) -> (forall e, e ∈ content old -> key_of e ∈ ks) -> Z.of_nat (length (content bs) + length (content old)) <= m_size t ->
  ends (move_entries key_of hash probes rh old t) (fun t' => exists bs', tab t' bs' /\ content bs' ≡ₚ content bs ++ content old /\ m_size t' = m_size t /\
    m_deleted_count t' = 0 /\ (should_grow t = true -> content old = [] \/ should_grow t' = false) /\ (should_grow t = false -> should_grow t' = false)).
Proof using L_bound.
  revert t bs. induction old as [|b old IH]; intros t bs Ht Hrh Hd Hsl Hnd Hks Hn; cbn [move_entries].
  { exists bs. rewrite app_nil_r. split; [done|]. split; [done|]. split; [done|]. split; [done|]. split; [by left|done]. }
  assert (forall b', b' ∈ old -> used b' = true -> is_Some (slot b')) as Hsl' by (intros; apply Hsl; [by right|done]).
  destruct (used b) eqn:Hu.
  2:{ unfold content in *. cbn [omap list_omap] in *. unfold entry in *. rewrite Hu in *. by apply IH. }
  destruct (Hsl b ltac:(left) Hu) as [e He]. unfold object. rewrite He. cbn [of_opt res_bind].
  assert (content (b :: old) = e :: content old) as Hco by (unfold content; cbn; unfold entry at 1; by rewrite Hu, He). rewrite Hco in *.
  rewrite <- Permutation_middle in Hnd. cbn in Hnd. apply NoDup_cons in Hnd as [Hne Hnd]. rewrite fmap_app, elem_of_app in Hne. cbn in Hn.
  eapply ends_bind; [eapply (insert_during_rehash_ok rh t bs e); try done; [apply Hks; left|intros Ha; apply Hne; by left|lia]|].
  intros t1 (bs1 & Ht1 & Hp1 & Hs1 & Hd1 & Hg1).
  eapply ends_mono; [apply (IH t1 bs1); try done; [by intros Hg; rewrite Hg1 in Hg| |intros; apply Hks; by right|rewrite Hp1; cbn; lia]|].
  { rewrite Hp1. cbn. apply NoDup_cons. split; [by rewrite fmap_app, elem_of_app|done]. }
  intros t2 (bs2 & Ht2 & Hp2 & Hs2 & Hd2 & _ & Hg2). exists bs2. split; [done|]. split; [rewrite Hp2, Hp1; cbn; by rewrite Permutation_middle|].
  split; [congruence|]. split; [done|]. split; [right|]; auto.
Qed.

(** A new array of buckets. *)
Lemma fresh_table c : 4 <= c -> table (fresh_buckets c) c /\ content (fresh_buckets c) = [] /\ marks (fresh_buckets c) = 0%nat.
Proof using Type.
  intros Hc. unfold fresh_buckets. assert (forall i b, (replicate (Z.to_nat c) (mkBucket (T := T) false false false None) ++ [mkBucket false false true None]) !! i = Some b ->
    used b = false /\ is_end b = bool_decide (i = Z.to_nat c) /\ vacant b = true) as Hb.
  { intros i b Hi. apply lookup_app_Some in Hi as [Hi|[Hle Hi]].
    - apply lookup_replicate in Hi as [-> Hi]. by rewrite bool_decide_false by lia.
    - rewrite length_replicate in *. pose proof (lookup_lt_Some _ _ _ Hi) as Hlt. cbn in Hlt. replace (i - Z.to_nat c)%nat with 0%nat in Hi by lia. injection Hi as <-.
      by rewrite bool_decide_true by lia. }
  assert (content (replicate (Z.to_nat c) (mkBucket (T := T) false false false None) ++ [mkBucket false false true None]) = []) as Hcon.
  { unfold content. rewrite omap_app. cbn. rewrite app_nil_r. generalize (Z.to_nat c) as n. clear. induction n; cbn; auto. }
  split; [|split; [done|]].
  - split; [done|rewrite length_app, length_replicate; cbn; lia|by intros; eapply Hb|by intros; eapply Hb| | |].
    + intros i b Hi Hu. destruct (Hb i b Hi). congruence.
    + rewrite Hcon. constructor.
    + intros i b e Hi He. destruct (Hb i b Hi) as [Hu _]. unfold entry in He. by rewrite Hu in He.
  - unfold marks. rewrite omap_app, length_app. cbn. rewrite Nat.add_0_r. generalize (Z.to_nat c) as n. clear. induction n; cbn; auto.
Qed.

Lemma content_take bs c : table bs c -> content (take (Z.to_nat c) bs) = content bs.
Proof using Type.
  intros Ht. rewrite <- (take_drop (Z.to_nat c) bs) at 2. unfold content. rewrite omap_app. destruct (lookup_lt_is_Some_2 bs (Z.to_nat c)) as [b Hb]; [rewrite (t_len _ _ Ht); lia|].
  rewrite (drop_S _ _ _ Hb), drop_ge by (rewrite (t_len _ _ Ht); lia). cbn. pose proof (t_last _ _ Ht b Hb) as Hv. unfold vacant, entry in *. destruct (used b); [done|].
  by rewrite app_nil_r.
Qed.

(** [rehash] of a table [t] to [c] buckets, at most, where the entries have room or where one more turn makes it. *)
Lemma rehash_ok rh t bs c : tab t bs -> (forall e, e ∈ content bs -> key_of e ∈ ks) -> 4 <= c <= L ->
  grows_with rh (mkTable (Some (fresh_buckets c)) (m_size t) c 0) (fresh_buckets c) ->
  ends (DEFINED (Z.to_nat (m_capacity t) <=? length bs)%nat ;;
        move_entries key_of hash probes rh (take (Z.to_nat (m_capacity t)) bs) (mkTable (Some (fresh_buckets c)) (m_size t) c 0))
    (fun t' => exists bs', tab t' bs' /\ content bs' ≡ₚ content bs /\ m_size t' = m_size t /\ m_deleted_count t' = 0 /\
      (content bs = [] \/ should_grow t' = false) /\ ((m_size t + 1) * 100 < c * 60 -> should_grow t' = false)).
Proof using L_bound.
  intros Ht Hks Hc Hrh. pose proof (tab_table _ _ Ht) as Htt. destruct (fresh_table c ltac:(lia)) as (Hf & Hfc & Hfm).
  rewrite (proj2 (Nat.leb_le _ _)) by (rewrite (t_len _ _ Htt); lia). cbn [defined res_bind]. set (t1 := mkTable _ _ _ _) in *.
  assert (tab t1 (fresh_buckets c)) as Ht1.
  { destruct Ht as [_ _ Hm Hs Hr _]. split; subst t1; cbn [m_buckets m_capacity m_deleted_count m_size]; rewrite ?Hfc, ?Hfm; cbn; try done; lia. }
  eapply ends_mono; [apply (move_entries_ok rh _ t1 (fresh_buckets c)); try done|].
  - intros b Hb Hu. apply list_elem_of_lookup in Hb as [i Hi]. apply lookup_take_Some in Hi as [Hi _]. by apply (t_slot _ _ Htt i b).
  - rewrite Hfc, content_take by done. apply Htt.
  - by rewrite content_take.
  - rewrite Hfc, content_take by done. apply Ht.
  - rewrite Hfc, content_take by done. cbn [app]. intros t' (bs' & Ht' & Hp & Hs & Hd & Hg1 & Hg2). exists bs'. split; [done|]. split; [done|]. split; [done|]. split; [done|].
    split; [destruct (should_grow t1); [by apply Hg1|right; by apply Hg2]|]. intros Hlt. apply Hg2. rewrite (tab_grow _ _ Ht1). subst t1. cbn. lia.
Qed.

Lemma rehash_flat d t bs n : tab t bs -> (forall e, e ∈ content bs -> key_of e ∈ ks) -> Z.max n 4 <= L -> (m_size t + 1) * 100 < Z.max n 4 * 60 ->
  ends (rehash key_of hash probes (S d) t n) (grown t bs).
Proof using L_bound.
  intros Ht Hks Hn Hlt. cbn [rehash]. rewrite (tab_bs _ _ Ht). eapply ends_mono; [apply (rehash_ok _ t bs (Z.max n 4)); try done; [lia|]|].
  - intros Hg. destruct Ht as [_ _ Hm Hs Hr _]. rewrite should_grow_spec in Hg by (cbn; lia). apply Z.leb_le in Hg. cbn in Hg. lia.
  - intros t' (bs' & Ht' & Hp & Hs & Hd & _ & Hg). exists bs'. split; [done|]. split; [done|]. split; [done|]. split; [done|]. by apply Hg.
Qed.

Lemma rehash_deep d t bs n : tab t bs -> (forall e, e ∈ content bs -> key_of e ∈ ks) -> Z.max n 4 <= L ->
  (m_size t + 1) * 100 < Z.max n 4 * 120 -> (Z.max n 4 * 60 <= (m_size t + 1) * 100 -> Z.max n 4 * 2 <= L) ->
  ends (rehash key_of hash probes (S (S d)) t n) (fun t' => exists bs', tab t' bs' /\ content bs' ≡ₚ content bs /\ m_size t' = m_size t /\
    m_deleted_count t' = 0 /\ (content bs = [] \/ should_grow t' = false)).
Proof using L_bound.
  intros Ht Hks Hn Hlt Hdeep. remember (S d) as d1 eqn:Ed. cbn [rehash]. rewrite (tab_bs _ _ Ht). set (c := Z.max n 4) in *. assert (4 <= c) as H4 by lia.
  destruct (fresh_table c H4) as (Hf & Hfc & Hfm). eapply ends_mono; [apply (rehash_ok _ t bs c); try done|].
  - intros Hg. destruct Ht as [_ _ Hm Hs Hr _]. assert (tab (mkTable (Some (fresh_buckets c)) (m_size t) c 0) (fresh_buckets c)) as Ht1.
    { split; cbn [m_buckets m_capacity m_deleted_count m_size]; rewrite ?Hfc, ?Hfm; cbn; try done; lia. }
    rewrite (tab_grow _ _ Ht1) in Hg. apply Z.leb_le in Hg. cbn in Hg. specialize (Hdeep ltac:(lia)). subst d1. cbn [m_capacity].
    assert (wrap size_t (c * 2) = c * 2) as -> by (apply wrap_id; [done|apply in_ty_spec; cbn; lia]). apply rehash_flat; [done|by rewrite Hfc; intros e He%not_elem_of_nil|lia|cbn; lia].
  - intros t' (bs' & Ht' & Hp & Hs & Hd & Hg & _). exists bs'. done.
Qed.

(** *** The operations *)

Definition contents t : list T := default [] (content <$> m_buckets t).
Definition loaded t bs : Prop := tab t bs /\ m_size t = Z.of_nat (length (content bs)) /\ (m_size t + m_deleted_count t) * 100 < m_capacity t * 60.
Definition wf t : Prop := (t = empty_table \/ exists bs, loaded t bs) /\ forall e, e ∈ contents t -> key_of e ∈ ks.

Lemma loaded_contents t bs : loaded t bs -> contents t = content bs.
Proof using Type. intros [[Hb _ _ _ _ _] _]. unfold contents. by rewrite Hb. Qed.

Lemma wf_loaded t bs : loaded t bs -> (forall e, e ∈ content bs -> key_of e ∈ ks) -> wf t.
Proof using Type. intros Hl Hk. split; [right; by exists bs|]. by rewrite (loaded_contents t bs). Qed.

Lemma wf_nodup t : wf t -> NoDup (key_of <$> contents t).
Proof using Type. intros [[->|[bs Hl]] _]; [constructor|]. rewrite (loaded_contents t bs Hl). destruct Hl as [[_ Ht _ _ _ _] _]. apply Ht. Qed.

Lemma table_find_ok t k : wf t -> k ∈ ks -> ends (find key_of hash probes t k) (fun it =>
  match it with
  | Some i => exists bs, loaded t bs /\ found bs k i
  | None => k ∉ key_of <$> contents t
  end).
Proof using Type.
  intros [[->|[bs Hl]] _] Hk; unfold find, lookup_with_hash; [cbn; apply not_elem_of_nil|]. rewrite (loaded_contents t bs Hl).
  pose proof Hl as [[Hb Ht Hm Hs Hr Hc] [Hn Hld]]. unfold is_empty. destruct (Z.eqb_spec (m_size t) 0) as [E|E].
  - cbn. destruct (content bs); [apply not_elem_of_nil|cbn in Hn; lia].
  - pose proof (lookup_loop_ok t bs k probes 0 Hb Ht ltac:(intros ? ?; lia)) as Hw. change (probe (hash k) 0) with (hash k) in Hw.
    destruct (lookup_loop _ _ _ _) as [[i|]|f]; [by exists bs|done|]. destruct Hw as [-> Hv]. split; [done|]. pose proof (t_cap _ _ Ht). eapply never_unlucky; try done. lia.
Qed.

(** What is there after [set]. *)
Definition is_set t (v : T) t' (r : HashSetResult) : Prop :=
  if decide (key_of v ∈ key_of <$> contents t)
  then r = ReplacedExistingEntry /\ exists e R, key_of e = key_of v /\ contents t ≡ₚ e :: R /\ contents t' ≡ₚ v :: R
  else r = InsertedNewEntry /\ contents t' ≡ₚ v :: contents t.

Lemma found_bucket bs c k i : table bs c -> found bs k i -> exists b e, bs !! i = Some b /\ slot b = Some e /\ key_of e = k /\ used b = true /\ deleted b = false /\
  is_end b = false /\ reach bs c (hash k) i /\ content bs ≡ₚ e :: omap entry (take i bs ++ drop (S i) bs).
Proof using Type.
  intros Ht Hf. pose proof (found_lt _ _ _ _ Ht Hf) as Hlt. destruct Hf as (b & e & Hi & He & Hk). exists b, e. assert (used b = true) as Hu by (unfold entry in He; by destruct (used b)).
  destruct (t_slot _ _ Ht i b Hi Hu) as [_ Hd]. split; [done|]. split; [unfold entry in He; by rewrite Hu in He|]. split; [done|]. split; [done|]. split; [done|].
  split; [rewrite (t_end _ _ Ht i b Hi); apply bool_decide_false; lia|]. split; [subst k; by eapply (t_reach _ _ Ht)|].
  unfold content. rewrite (omap_split entry bs i b Hi). by rewrite He.
Qed.

(** A bucket with the same key is overwritten. *)
Lemma replaced_ok t bs v i : tab t bs -> found bs (key_of v) i -> exists b, bs !! i = Some b /\ used b = true /\
  let t' := put_bucket t i (mkBucket true (deleted b) (is_end b) (Some v)) in
  exists e R bs', tab t' bs' /\ key_of e = key_of v /\ content bs ≡ₚ e :: R /\ content bs' ≡ₚ v :: R.
Proof using Type.
  intros Ht Hf. pose proof (tab_table _ _ Ht) as Htt. pose proof (found_lt _ _ _ _ Htt Hf) as Hlt.
  destruct (found_bucket bs _ _ i Htt Hf) as (b & e & Hi & Hs & Hk & Hu & Hd & He & Hr & Hc). exists b. split; [done|]. split; [done|]. cbn zeta. rewrite Hd.
  set (b' := mkBucket true false (is_end b) (Some v)). exists e, (omap entry (take i bs ++ drop (S i) bs)), (<[i := b']> bs).
  assert (content (<[i := b']> bs) ≡ₚ v :: omap entry (take i bs ++ drop (S i) bs)) as Hc' by (unfold content; by rewrite (omap_update entry bs i b b' Hi)).
  split; [|done]. apply tab_put; [done| | |].
  - apply (table_update bs _ i b b'); try done; [|by intros e' [= <-]]. rewrite Hc'. pose proof (t_nodup _ _ Htt) as Hn. rewrite Hc in Hn. cbn in *. by rewrite <- Hk.
  - pose proof (marks_update bs i b b' Hi) as Hm. rewrite Hd in Hm. cbn in Hm. lia.
  - rewrite Hc'. pose proof (tab_size _ _ Ht) as Hsz. rewrite Hc in Hsz. done.
Qed.

Lemma set_full t bs v : loaded t bs -> (forall e, e ∈ content bs -> key_of e ∈ ks) -> key_of v ∈ ks -> (should_grow t = true -> m_capacity t * 2 <= L) ->
  m_size t + m_deleted_count t < L ->
  ends (set key_of hash probes t v) (fun '(t', r) => wf t' /\ is_set t v t' r /\ m_size t' + m_deleted_count t' <= m_size t + m_deleted_count t + 1).
Proof using L_bound.
  intros Hl Hks Hk Hcap Hroom. unfold set. pose proof Hl as [Ht [Hn Hld]]. pose proof (t_cap _ _ (tab_table _ _ Ht)) as H4. pose proof (tab_marks _ _ Ht) as Hmk.
  eapply ends_bind; [apply (lookup_for_writing_ok _ t bs v Ht); [|done]|].
  - intros Hg. specialize (Hcap Hg). assert (wrap size_t (m_capacity t * 2) = m_capacity t * 2) as -> by (apply wrap_id; [done|apply in_ty_spec; cbn; lia]).
    apply rehash_flat; [done|done|lia|]. lia.
  - intros [t1 i] (bs1 & Ht1 & Hp1 & Hs1 & Hd1 & Hg1 & Hw). rewrite (tab_grow _ _ Ht1) in Hg1. apply Z.leb_gt in Hg1. pose proof (tab_marks _ _ Ht1) as Hmk1.
    unfold bucket_at. rewrite (tab_bs _ _ Ht1). cbn [of_opt res_bind]. unfold is_set. rewrite (loaded_contents t bs Hl). destruct Hw as [Hf|Hw].
    + assert (key_of v ∈ key_of <$> content bs) as Hin by (rewrite <- Hp1; destruct Hf as (b & e & Hi & He & <-); apply list_elem_of_fmap_2; by eapply content_elem).
      destruct (replaced_ok t1 bs1 v i Ht1 Hf) as (b & -> & Hu & e & R & bs2 & Ht2 & Hke & Hce & Hcv). cbn [of_opt res_bind]. rewrite Hu. cbn [ends].
      rewrite Hp1 in Hce. assert (length (content bs2) = length (content bs)) as Hlen by (by rewrite Hcv, Hce).
      assert (loaded (put_bucket t1 i (mkBucket true (deleted b) (is_end b) (Some v))) bs2) as Hl2 by (split; [done|]; cbn; lia).
      split; [apply (wf_loaded _ bs2 Hl2)|].
      * intros e' He'. rewrite Hcv in He'. apply elem_of_cons in He' as [->|He']; [done|]. apply Hks. rewrite Hce. by right.
      * rewrite decide_True by done. rewrite (loaded_contents _ _ Hl2). split; [|cbn; lia]. split; [done|]. by exists e, R.
    + pose proof Hw as (Ha & _ & _ & b & Hb & Hu). rewrite Hb. cbn [of_opt res_bind]. rewrite Hu. cbn [ends].
      destruct (table_put bs1 _ i b v (tab_table _ _ Ht1) Hw Hb) as [Hn1 Hc1].
      pose proof (marks_update bs1 i b (mkBucket true false (is_end b) (Some v)) Hb) as Hm. cbn in Hm. set (bs2 := <[i := _]> bs1) in *.
      assert (wrap size_t (m_size t1 + 1) = m_size t1 + 1) as -> by (apply wrap_id; [done|apply in_ty_spec; cbn; lia]).
      assert ((if deleted b then wrap size_t (m_deleted_count t1 - 1) else m_deleted_count t1) = Z.of_nat (marks bs2)) as ->.
      { destruct (deleted b); [|lia]. transitivity (m_deleted_count t1 - 1); [apply wrap_id; [done|apply in_ty_spec; cbn; lia]|lia]. }
      pose proof (tab_cap _ _ Ht1). set (t2 := mkTable _ _ _ _). assert (length (content bs2) = S (length (content bs))) as Hlen by (by rewrite Hc1, Hp1).
      assert (loaded t2 bs2) as Hl2.
      { destruct (deleted b); (split; [split; subst t2; cbn; try done; [by rewrite (tab_bs _ _ Ht1)|lia|lia]|]; subst t2; cbn; lia). }
      split; [apply (wf_loaded _ bs2 Hl2)|].
      * intros e' He'. rewrite Hc1, Hp1 in He'. apply elem_of_cons in He' as [->|He']; [done|by apply Hks].
      * rewrite decide_False by (rewrite <- Hp1; exact Ha). rewrite (loaded_contents _ _ Hl2). split; [split; [done|by rewrite Hc1, Hp1]|]. subst t2. cbn. destruct (deleted b); lia.
Qed.

(** A table without buckets gets four of them. *)
Lemma set_empty v : set key_of hash probes empty_table v = set key_of hash probes (mkTable (Some (fresh_buckets 4)) 0 4 0) v.
Proof using Type. reflexivity. Qed.

Lemma set_ok t v : wf t -> key_of v ∈ ks -> 4 * (m_size t + m_deleted_count t + 1) <= L ->
  ends (set key_of hash probes t v) (fun '(t', r) => wf t' /\ is_set t v t' r /\ m_size t' + m_deleted_count t' <= m_size t + m_deleted_count t + 1).
Proof using L_bound.
  intros [[->|[bs Hl]] Hks] Hk Hroom.
  - rewrite set_empty. destruct (fresh_table 4 ltac:(lia)) as (Hf & Hfc & Hfm).
    assert (loaded (mkTable (Some (fresh_buckets 4)) 0 4 0) (fresh_buckets 4)) as Hl.
    { split; [split|]; cbn [m_buckets m_capacity m_deleted_count m_size]; rewrite ?Hfc, ?Hfm; cbn; try done; lia. }
    eapply ends_mono; [apply (set_full _ _ v Hl); try done; cbn; lia|]. intros [t' r] (Hw & Hs & Hn). split; [done|]. split; [|done].
    unfold is_set in *. rewrite (loaded_contents _ _ Hl), Hfc in Hs. done.
  - rewrite (loaded_contents t bs Hl) in Hks. pose proof Hl as [Ht [Hn Hld]]. pose proof (tab_marks _ _ Ht). apply (set_full t bs v Hl Hks Hk); [|lia].
    intros Hg. rewrite (tab_grow _ _ Ht) in Hg. apply Z.leb_le in Hg. lia.
Qed.

Lemma remove_at_ok t bs k i : loaded t bs -> (forall e, e ∈ content bs -> key_of e ∈ ks) -> found bs k i ->
  exists t' e, remove_at t (Some i) = Ok t' /\ wf t' /\ key_of e = k /\ contents t ≡ₚ e :: contents t' /\ m_size t' + m_deleted_count t' = m_size t + m_deleted_count t.
Proof using L_bound.
  intros Hl Hks Hf. pose proof Hl as [Ht [Hn Hld]]. pose proof (tab_table _ _ Ht) as Htt. pose proof (found_lt _ _ _ _ Htt Hf) as Hlt.
  destruct (found_bucket bs _ _ i Htt Hf) as (b & e & Hi & Hs & Hk & Hu & Hd & He & Hr & Hc). unfold remove_at. rewrite bool_decide_true by done. cbn [verify of_opt res_bind].
  unfold bucket_at. rewrite (tab_bs _ _ Ht). cbn [of_opt res_bind]. rewrite Hi. cbn [of_opt res_bind]. rewrite Hu, He, Hd. cbn [negb verify res_bind].
  set (b' := mkBucket false true false None). set (bs' := <[i := b']> bs).
  assert (content bs ≡ₚ e :: content bs') as Hc' by (rewrite Hc; unfold bs', content; by rewrite (omap_update entry bs i b b' Hi)).
  pose proof (Permutation_length Hc') as Hlen. cbn in Hlen. pose proof (tab_marks _ _ Ht) as Hmk. pose proof (tab_room _ _ Ht) as Hrm.
  assert (wrap size_t (m_size t - 1) = m_size t - 1) as -> by (apply wrap_id; [done|apply in_ty_spec; cbn; lia]).
  assert (wrap size_t (m_deleted_count t + 1) = m_deleted_count t + 1) as -> by (apply wrap_id; [done|apply in_ty_spec; cbn; lia]).
  set (t' := mkTable _ _ _ _). assert (loaded t' bs') as Hl'.
  { pose proof (marks_update bs i b b' Hi) as Hm. rewrite Hd in Hm. cbn in Hm. fold bs' in Hm. pose proof (t_nodup _ _ Htt) as Hnd. rewrite Hc' in Hnd. cbn in Hnd.
    split; [|subst t'; cbn; lia]. split; subst t'; cbn; try lia; [by rewrite (tab_bs _ _ Ht)| |apply Ht].
    apply (table_update bs _ i b b'); try done. apply NoDup_cons in Hnd. apply Hnd. }
  exists t', e. split; [done|]. split; [apply (wf_loaded _ _ Hl'); intros e' He'; apply Hks; rewrite Hc'; by right|]. split; [done|].
  rewrite (loaded_contents _ _ Hl), (loaded_contents _ _ Hl'). split; [done|]. subst t'. cbn. lia.
Qed.

Definition is_removed t (k : K) t' (r : bool) : Prop :=
  if decide (k ∈ key_of <$> contents t) then r = true /\ exists e, key_of e = k /\ contents t ≡ₚ e :: contents t' else r = false /\ t' = t.

Lemma table_remove_ok t k : wf t -> k ∈ ks ->
  ends (remove key_of hash probes t k) (fun '(t', r) => wf t' /\ is_removed t k t' r /\ m_size t' + m_deleted_count t' <= m_size t + m_deleted_count t).
Proof using L_bound.
  intros Hw Hk. unfold remove. eapply ends_bind; [by apply table_find_ok|]. intros [i|] Hi; unfold is_removed.
  - destruct Hi as (bs & Hl & Hf). rewrite bool_decide_true by done. destruct Hw as [_ Hks]. rewrite (loaded_contents _ _ Hl) in Hks.
    destruct (remove_at_ok t bs k i Hl Hks Hf) as (t' & e & -> & Hw' & He & Hc & Hn). cbn [res_bind ends]. split; [done|].
    rewrite decide_True by (rewrite Hc, <- He; left). split; [|lia]. split; [done|]. by exists e.
  - rewrite bool_decide_false by auto. cbn. by rewrite decide_False.
Qed.

Lemma ensure_capacity_ok t n : wf t -> 0 <= n -> 2 * n <= L -> 4 * (m_size t + 1) <= L ->
  if m_size t <=? n then ends (ensure_capacity key_of hash probes t n) (fun t' => wf t' /\ contents t' ≡ₚ contents t /\ m_size t' = m_size t /\ m_deleted_count t' = 0)
  else ensure_capacity key_of hash probes t n = Fault VerifyFailed.
Proof using L_bound.
  intros Hw Hn HL Hsz. unfold ensure_capacity. destruct (Z.leb_spec (m_size t) n) as [Hle|]; [|done]. cbn [verify res_bind]. unfold rehash_depth.
  assert (wrap size_t (n * 2) = n * 2) as -> by (apply wrap_id; [done|apply in_ty_spec; cbn; lia]). destruct Hw as [[->|[bs Hl]] Hks].
  - cbn [rehash m_buckets empty_table m_size]. set (c := Z.max (n * 2) 4). destruct (fresh_table c ltac:(lia)) as (Hf & Hfc & Hfm).
    assert (loaded (mkTable (Some (fresh_buckets c)) 0 c 0) (fresh_buckets c)) as Hl.
    { split; [split|]; cbn [m_buckets m_capacity m_deleted_count m_size]; rewrite ?Hfc, ?Hfm; cbn; try done; lia. }
    split; [apply (wf_loaded _ _ Hl); by rewrite Hfc; intros e He%not_elem_of_nil|]. by rewrite (loaded_contents _ _ Hl), Hfc.
  - rewrite (loaded_contents _ _ Hl) in *. pose proof Hl as [Ht [Hn' Hld]]. eapply ends_mono; [apply (rehash_deep 0 t bs); try done; lia|].
    intros t' (bs' & Ht' & Hp & Hs & Hd & Hg). pose proof (t_cap _ _ (tab_table _ _ Ht')). assert (loaded t' bs') as Hl'.
    { split; [done|]. rewrite Hs, Hp, Hd. split; [done|]. destruct Hg as [Hg|Hg]; [rewrite Hg in Hn'; cbn in Hn'; lia|].
      rewrite (tab_grow _ _ Ht') in Hg. apply Z.leb_gt in Hg. lia. }
    split; [apply (wf_loaded _ _ Hl'); intros e; rewrite Hp; apply Hks|]. by rewrite (loaded_contents _ _ Hl').
Qed.

(** *** Iteration *)

(** The entries after [i], the first of which is at [it]. *)
Definition next_is bs (c : Z) (l : list T) (it : option nat) : Prop :=
  match it with
  | None => l = []
  | Some j => (j < Z.to_nat c)%nat /\ exists b e, bs !! j = Some b /\ used b = true /\ slot b = Some e /\ l = e :: content (drop (S j) bs)
  end.

Lemma content_step bs c i b : table bs c -> bs !! i = Some b ->
  if used b then (i < Z.to_nat c)%nat /\ exists e, slot b = Some e /\ content (drop i bs) = e :: content (drop (S i) bs) else content (drop i bs) = content (drop (S i) bs).
Proof using Type.
  intros Ht Hi. rewrite (drop_S _ _ _ Hi). change (content (b :: drop (S i) bs)) with (match entry b with Some e => e :: content (drop (S i) bs) | None => content (drop (S i) bs) end).
  unfold entry. destruct (used b) eqn:Hu; [|done].
  destruct (t_slot _ _ Ht i b Hi Hu) as [[e He] _]. rewrite He. split; [|by exists e]. apply (found_lt bs c (key_of e)); [done|]. exists b, e. split; [done|].
  unfold entry. by rewrite Hu.
Qed.

Lemma skip_to_next_ok bs c turns i : table bs c -> (i < Z.to_nat c)%nat -> (Z.to_nat c - i <= turns)%nat ->
  exists it, skip_to_next turns bs i = Ok it /\ next_is bs c (content (drop (S i) bs)) it /\ (forall j, it = Some j -> (i < j)%nat).
Proof using Type.
  intros Ht. revert i. induction turns as [|turns IH]; intros i Hi Hn; [lia|]. cbn [skip_to_next].
  destruct (lookup_lt_is_Some_2 bs (S i)) as [b Hb]; [rewrite (t_len _ _ Ht); lia|]. rewrite Hb. cbn [of_opt res_bind]. pose proof (content_step bs c (S i) b Ht Hb) as Hc.
  rewrite (t_end _ _ Ht _ _ Hb). destruct (used b) eqn:Hu.
  - destruct Hc as (Hlt & e & He & Hc). eexists. split; [done|]. split; [split; [done|]; by exists b, e|]. intros j [= <-]. lia.
  - rewrite Hc. case_bool_decide as He; cbn [negb].
    + eexists. split; [done|]. split; [|done]. cbn. rewrite drop_ge by (rewrite (t_len _ _ Ht); lia). done.
    + destruct (IH (S i) ltac:(lia) ltac:(lia)) as (it & E & Hx & Hj). exists it. split; [done|]. split; [done|]. intros j Hj'. specialize (Hj j Hj'). lia.
Qed.

Lemma begin_loop_ok bs c i n : table bs c -> (i + n = Z.to_nat c)%nat -> exists it, begin_loop bs i n = Ok it /\ next_is bs c (content (drop i bs)) it.
Proof using Type.
  intros Ht. revert i. induction n as [|n IH]; intros i Hn; cbn [begin_loop]; (destruct (lookup_lt_is_Some_2 bs i) as [b Hb]; [rewrite (t_len _ _ Ht); lia|]);
    pose proof (content_step bs c i b Ht Hb) as Hc.
  - eexists. split; [done|]. cbn. destruct (used b); [lia|]. rewrite Hc, drop_ge by (rewrite (t_len _ _ Ht); lia). done.
  - rewrite Hb. cbn [of_opt res_bind]. destruct (used b) eqn:Hu; [|rewrite Hc; apply IH; lia]. destruct Hc as (Hlt & e & He & Hc).
    eexists. split; [done|]. split; [done|]. by exists b, e.
Qed.

Lemma entries_from_ok bs c turns it l : table bs c -> next_is bs c l it -> (forall j, it = Some j -> (Z.to_nat c - j < turns)%nat) -> entries_from turns bs it = Ok l.
Proof using Type.
  intros Ht. revert it l. induction turns as [|turns IH]; intros [j|] l Hn Hj; cbn in Hn; subst; try done; [specialize (Hj j eq_refl); lia|]. cbn [entries_from].
  destruct Hn as (Hlt & b & e & Hb & Hu & He & ->). rewrite Hb. cbn [of_opt res_bind]. unfold object. rewrite He. cbn [of_opt res_bind].
  destruct (skip_to_next_ok bs c (length bs) j Ht Hlt) as (it & -> & Hx & Hgt); [rewrite (t_len _ _ Ht); lia|]. cbn [res_bind].
  rewrite (IH it _ Hx); [done|]. intros j' Hj'. specialize (Hj j eq_refl). specialize (Hgt j' Hj'). lia.
Qed.

Lemma begin_ok t : wf t -> exists it, begin t = Ok it /\ (contents t = [] -> it = None) /\
  (forall bs, loaded t bs -> next_is bs (m_capacity t) (content bs) it).
Proof using Type.
  intros [[->|[bs Hl]] _]; [exists None; split; [done|]; split; [done|]; intros bs [Ht _]; by pose proof (tab_bs _ _ Ht)|].
  pose proof Hl as [Ht _]. pose proof (t_cap _ _ (tab_table _ _ Ht)). unfold begin. rewrite (proj2 (Z.eqb_neq _ _)) by lia. rewrite (tab_bs _ _ Ht). cbn [of_opt res_bind].
  destruct (begin_loop_ok bs (m_capacity t) 0 (Z.to_nat (m_capacity t)) (tab_table _ _ Ht) eq_refl) as (it & E & Hn). rewrite drop_0 in Hn.
  exists it. split; [done|]. rewrite (loaded_contents _ _ Hl). split.
  - intros Hc. rewrite Hc in Hn. destruct it; [|done]. by destruct Hn as (_ & b & e & _ & _ & _ & ?).
  - intros bs' [Ht' _]. pose proof (tab_bs _ _ Ht') as Hb. rewrite (tab_bs _ _ Ht) in Hb. by injection Hb as <-.
Qed.

Lemma entries_ok t : wf t -> entries t = Ok (contents t).
Proof using Type.
  intros Hw. unfold entries. destruct (begin_ok t Hw) as (it & -> & Hnone & Hn). cbn [res_bind]. destruct Hw as [[->|[bs Hl]] _]; [by rewrite Hnone|].
  rewrite (loaded_contents _ _ Hl). pose proof Hl as [Ht _]. rewrite (tab_bs _ _ Ht). cbn [default]. apply (entries_from_ok bs (m_capacity t)); [apply Ht|by apply Hn|].
  intros j _. change (id bs) with bs. rewrite (t_len _ _ (tab_table _ _ Ht)). lia.
Qed.

(** *** Copies *)

Lemma set_all_ok l t : wf t -> NoDup (key_of <$> contents t ++ l) -> (forall e, e ∈ l -> key_of e ∈ ks) ->
  4 * (m_size t + m_deleted_count t + Z.of_nat (length l)) <= L ->
  ends (set_all key_of hash probes t l) (fun t' => wf t' /\ contents t' ≡ₚ contents t ++ l /\
    m_size t' + m_deleted_count t' <= m_size t + m_deleted_count t + Z.of_nat (length l)).
Proof using L_bound.
  revert t. induction l as [|e l IH]; intros t Hw Hnd Hks Hn; cbn [set_all]; [rewrite app_nil_r; cbn; split; [done|]; split; [done|lia]|].
  cbn [length] in Hn. rewrite <- Permutation_middle in Hnd. cbn in Hnd. apply NoDup_cons in Hnd as [Hne Hnd]. rewrite fmap_app, elem_of_app in Hne.
  eapply ends_bind; [apply set_ok; [done|apply Hks; left|lia]|]. intros [t1 r] (Hw1 & Hs & Hn1). unfold is_set in Hs. rewrite decide_False in Hs by auto.
  destruct Hs as [_ Hp]. eapply ends_mono; [apply (IH t1 Hw1); [|intros; apply Hks; by right|lia]|].
  - rewrite Hp. cbn. apply NoDup_cons. split; [by rewrite fmap_app, elem_of_app|done].
  - intros t2 (Hw2 & Hp2 & Hn2). split; [done|]. split; [rewrite Hp2, Hp; cbn; by rewrite Permutation_middle|]. cbn [length]. lia.
Qed.

Lemma wf_counts t : wf t -> m_size t = Z.of_nat (length (contents t)) /\ 0 <= m_deleted_count t /\ m_capacity t <= L.
Proof using L_bound.
  intros [[->|[bs Hl]] _]; [cbn; lia|]. rewrite (loaded_contents _ _ Hl). destruct Hl as [Ht [Hn _]]. split; [done|]. destruct Ht. lia.
Qed.

Lemma copy_ok t : wf t -> 4 * m_size t <= L ->
  ends (copy key_of hash probes t) (fun t' => wf t' /\ contents t' ≡ₚ contents t /\ m_size t' + m_deleted_count t' <= m_size t).
Proof using L_bound.
  intros Hw Hn. destruct (wf_counts t Hw) as (Hs & _ & Hcap). unfold copy, rehash_depth. cbn [rehash empty_table m_buckets m_size res_bind]. rewrite (entries_ok t Hw). cbn [res_bind].
  set (c := Z.max (m_capacity t) 4). destruct (fresh_table c ltac:(lia)) as (Hf & Hfc & Hfm). set (t1 := mkTable _ _ _ _).
  assert (loaded t1 (fresh_buckets c)) as Hl.
  { split; [split|]; subst t1; cbn [m_buckets m_capacity m_deleted_count m_size]; rewrite ?Hfc, ?Hfm; cbn; try done; lia. }
  assert (contents t1 = []) as Hc1 by (by rewrite (loaded_contents _ _ Hl)).
  eapply ends_mono; [apply (set_all_ok (contents t) t1); [split; [right; by exists (fresh_buckets c)|by rewrite Hc1; intros e He%not_elem_of_nil]|..]|].
  - rewrite Hc1. by apply wf_nodup.
  - apply Hw.
  - subst t1. cbn. lia.
  - rewrite Hc1. intros t' (Hw' & Hp & Hn'). split; [done|]. split; [done|]. subst t1. cbn in Hn'. lia.
Qed.
End Facts.
End HashFacts.

(** ** Refinement of finite maps *)
Module HashSpec.
Import HashFunctions HashMap HashFacts.

Section HashSpec.
Context {K V : Type} `{Countable K} (hash : K -> Z) (default_value : V) (probes : nat).
Implicit Types (t : HashTable (K * V)) (M : gmap K V).

(** The calls of HashMap, the copy of a table, and their answers. *)
Inductive call := Set_ (k : K) (v : V) | Get (k : K) | Remove (k : K) | Contains (k : K) | Ensure (k : K) | RemoveOne | EnsureCapacity (n : Z) | Clear | Copy | Keys | Size.
Inductive answer := Result (r : HashSetResult) | Found (o : option V) | Bool (b : bool) | Value (v : V) | KeyList (l : list K) | Count (n : Z) | Done.

Definition step t (c : call) : res (HashTable (K * V) * answer) :=
  match c with
  | Set_ k v => let* (t, r) := set hash probes t k v in Ok (t, Result r)
  | Get k => let* o := get hash probes t k in Ok (t, Found o)
  | Remove k => let* (t, b) := remove hash probes t k in Ok (t, Bool b)
  | Contains k => let* b := contains hash probes t k in Ok (t, Bool b)
  | Ensure k => let* (t, v) := ensure hash default_value probes t k in Ok (t, Value v)
  | RemoveOne => let* t := remove_one_randomly t in Ok (t, Done)
  | EnsureCapacity n => let* t := ensure_capacity hash probes t n in Ok (t, Done)
  | Clear => Ok (clear t, Done)
  | Copy => let* t := copy fst hash probes t in Ok (t, Done)
  | Keys => let* l := keys t in Ok (t, KeyList l)
  | Size => Ok (t, Count (m_size t))
  end.

Fixpoint run t (cs : list call) : res (HashTable (K * V) * list answer) :=
  match cs with
  | [] => Ok (t, [])
  | c :: cs =>
      let* (t, a) := step t c in
      let* (t, l) := run t cs in
      Ok (t, a :: l)
  end.

(** What a finite map answers: [None] is the failed assertion. *)
Inductive map_step M : call -> option (gmap K V * answer) -> Prop :=
  | MSet k v : map_step M (Set_ k v) (Some (<[k := v]> M, Result (if decide (is_Some (M !! k)) then ReplacedExistingEntry else InsertedNewEntry)))
  | MGet k : map_step M (Get k) (Some (M, Found (M !! k)))
  | MRemove k : map_step M (Remove k) (Some (delete k M, Bool (bool_decide (is_Some (M !! k)))))
  | MContains k : map_step M (Contains k) (Some (M, Bool (bool_decide (is_Some (M !! k)))))
  | MEnsure k : map_step M (Ensure k) (Some (<[k := default default_value (M !! k)]> M, Value (default default_value (M !! k))))
  | MRemoveOne k v : M !! k = Some v -> map_step M RemoveOne (Some (delete k M, Done))
  | MNothing : M = ∅ -> map_step M RemoveOne None
  | MEnsureCapacity n : Z.of_nat (size M) <= n -> map_step M (EnsureCapacity n) (Some (M, Done))
  | MTooSmall n : n < Z.of_nat (size M) -> map_step M (EnsureCapacity n) None
  | MClear : map_step M Clear (Some (∅, Done))
  | MCopy : map_step M Copy (Some (M, Done))
  | MKeys l : l ≡ₚ (map_to_list M).*1 -> map_step M Keys (Some (M, KeyList l))
  | MSize : map_step M Size (Some (M, Count (Z.of_nat (size M)))).

Inductive map_run : gmap K V -> list call -> option (gmap K V * list answer) -> Prop :=
  | MNil M : map_run M [] (Some (M, []))
  | MStop M c cs : map_step M c None -> map_run M (c :: cs) None
  | MFail M c cs M' a : map_step M c (Some (M', a)) -> map_run M' cs None -> map_run M (c :: cs) None
  | MCons M c cs M' a M'' (l : list answer) : map_step M c (Some (M', a)) -> map_run M' cs (Some (M'', l)) -> map_run M (c :: cs) (Some (M'', a :: l)).

(** The keys a call names, and the sizes a call may ask for. *)
Definition call_keys (c : call) : list K :=
  match c with
  | Set_ k _ | Get k | Remove k | Contains k | Ensure k => [k]
  | _ => []
  end.
Definition size_ok (L : Z) (c : call) : Prop :=
  match c with
  | EnsureCapacity n => 0 <= n /\ 2 * n <= L
  | _ => True
  end.

Section Run.
Context (L : Z) (ks : list K).
Hypothesis L_bound : 4 <= L <= 2 ^ 25.

(** The map a table stands for. *)
Definition map_of t : gmap K V := list_to_map (contents t).
Definition used_count t : Z := m_size t + m_deleted_count t.

(** The table behaves as the map; [None] is the failed assertion. *)
Definition answered {B} (n : Z) (r : res (HashTable (K * V) * B)) (q : option (gmap K V * B)) : Prop :=
  match r, q with
  | Ok (t, b), Some (M, b') => wf fst hash L ks t /\ map_of t = M /\ b = b' /\ used_count t <= n
  | Fault f, None => f = VerifyFailed
  | _, _ => False
  end.
Definition hangs {B} (r : res B) : Prop := r = Fault OutOfFuel /\ unlucky hash probes L ks.

Abbreviation wft := (wf fst hash L ks).
Abbreviation endst := (ends hash probes L ks).

Lemma map_of_lookup t k v : wft t -> map_of t !! k = Some v <-> (k, v) ∈ contents t.
Proof using Type. intros Hw. symmetry. apply elem_of_list_to_map. exact (wf_nodup _ _ _ _ t Hw). Qed.

Lemma map_of_is_Some t k : wft t -> is_Some (map_of t !! k) <-> k ∈ (contents t).*1.
Proof using Type.
  intros Hw. split.
  - intros [v Hv]. apply map_of_lookup in Hv; [|done]. apply list_elem_of_fmap. by exists (k, v).
  - intros Hk. apply list_elem_of_fmap in Hk as ([k' v] & -> & Hv). exists v. by apply map_of_lookup.
Qed.

Lemma map_of_perm t l : wft t -> contents t ≡ₚ l -> map_of t = list_to_map l.
Proof using Type. intros Hw Hp. apply list_to_map_proper; [exact (wf_nodup _ _ _ _ t Hw)|done]. Qed.

Lemma map_of_size t : wft t -> m_size t = Z.of_nat (size (map_of t)).
Proof using L_bound.
  intros Hw. destruct (wf_counts fst hash L ks L_bound t Hw) as [-> _]. f_equal. unfold map_of. by rewrite map_size_list_to_map by exact (wf_nodup _ _ _ _ t Hw).
Qed.

Lemma map_of_set t v t' r : wft t -> wft t' -> is_set fst t v t' r ->
  map_of t' = <[v.1 := v.2]> (map_of t) /\ r = if decide (is_Some (map_of t !! v.1)) then ReplacedExistingEntry else InsertedNewEntry.
Proof using Type.
  intros Hw Hw' Hs. unfold is_set in Hs. destruct v as [k v]. cbn [fst snd] in *. case_decide as Hk.
  - destruct Hs as (-> & [k' v'] & R & Hke & Hp & Hp'). cbn in Hke. subst k'. rewrite decide_True by (by apply map_of_is_Some). split; [|done].
    rewrite (map_of_perm t' _ Hw' Hp'), (map_of_perm t _ Hw Hp). cbn. by rewrite insert_insert_eq.
  - destruct Hs as (-> & Hp'). rewrite decide_False by (by rewrite map_of_is_Some). split; [|done]. by rewrite (map_of_perm t' _ Hw' Hp').
Qed.

(** One entry less. *)
Lemma map_of_removed t t' k v : wft t -> wft t' -> contents t ≡ₚ (k, v) :: contents t' -> map_of t !! k = Some v /\ map_of t' = delete k (map_of t).
Proof using Type.
  intros Hw Hw' Hp. split; [apply map_of_lookup; [done|]; rewrite Hp; left|]. rewrite (map_of_perm t _ Hw Hp). cbn. fold (map_of t').
  pose proof (wf_nodup _ _ _ _ t Hw) as Hn. rewrite Hp in Hn. cbn in Hn. apply NoDup_cons in Hn as [Hn _]. symmetry. apply delete_insert_id.
  destruct (map_of t' !! k) as [v'|] eqn:E; [|done]. destruct Hn. apply map_of_is_Some; [done|by eexists].
Qed.

(** [find] and the read of the entry it finds. *)
Lemma find_entry t k : wft t -> k ∈ ks -> endst (find hash probes t k) (fun it =>
  match it with
  | Some i => exists b v, bucket_at t i = Ok b /\ object b = Ok (k, v) /\ map_of t !! k = Some v
  | None => map_of t !! k = None
  end).
Proof using Type.
  intros Hw Hk. eapply ends_mono; [exact (table_find_ok fst hash probes L ks t k Hw Hk)|]. intros [i|] Hi.
  - destruct Hi as (bs & Hl & Hf). pose proof Hl as [Ht _]. destruct (found_bucket fst hash bs _ _ _ (tab_table _ _ _ _ _ Ht) Hf) as (b & [k' v] & Hi & Hs & Hke & _ & _ & _ & _ & Hc).
    cbn in Hke. subst k'. exists b, v. unfold bucket_at, object. rewrite (tab_bs _ _ _ _ _ Ht), Hs. cbn [of_opt res_bind]. rewrite Hi. split; [done|]. split; [done|].
    apply map_of_lookup; [done|]. rewrite (loaded_contents _ _ _ _ _ Hl), Hc. left.
  - destruct (map_of t !! k) eqn:E; [|done]. destruct Hi. apply map_of_is_Some; [done|by eexists].
Qed.

(** One call, as the map does it, or probing forever. *)
Definition step_ok t (c : call) : Prop :=
  (exists q, map_step (map_of t) c q /\ answered (used_count t + 1) (step t c) q) \/ hangs (step t c).

Definition good_step t (c : call) (x : HashTable (K * V) * answer) : Prop :=
  map_step (map_of t) c (Some (map_of x.1, x.2)) /\ wft x.1 /\ used_count x.1 <= used_count t + 1.

Lemma ends_step t c : endst (step t c) (good_step t c) -> step_ok t c.
Proof using Type.
  intros He. unfold step_ok, hangs. destruct (step t c) as [[t' a]|f]; [|right; by destruct He as [-> ?]]. left. destruct He as (Hm & Hw & Hn).
  exists (Some (map_of t', a)). done.
Qed.

Lemma set_step t k v : wft t -> k ∈ ks -> 4 * (used_count t + 1) <= L ->
  endst (set hash probes t k v) (fun '(t', r) => wft t' /\ map_of t' = <[k := v]> (map_of t) /\
    r = (if decide (is_Some (map_of t !! k)) then ReplacedExistingEntry else InsertedNewEntry) /\ used_count t' <= used_count t + 1).
Proof using L_bound.
  intros Hw Hk Hn. eapply ends_mono; [exact (set_ok fst hash probes L ks L_bound t (k, v) Hw Hk Hn)|]. intros [t' r] (Hw' & Hs & Hn').
  destruct (map_of_set t (k, v) t' r Hw Hw' Hs) as [Hm Hr]. done.
Qed.

Lemma ensure_step t k : wft t -> k ∈ ks -> 4 * (used_count t + 1) <= L ->
  endst (ensure hash default_value probes t k) (fun '(t', v) => wft t' /\ v = default default_value (map_of t !! k) /\
    map_of t' = <[k := v]> (map_of t) /\ used_count t' <= used_count t + 1).
Proof using L_bound.
  intros Hw Hk Hn. unfold ensure. eapply ends_bind; [by apply find_entry|]. intros it Hit.
  eapply (ends_bind _ _ _ _ _ _ (fun t' => wft t' /\ map_of t' = <[k := default default_value (map_of t !! k)]> (map_of t) /\ used_count t' <= used_count t + 1)).
  - destruct it as [i|].
    + destruct Hit as (b & v & _ & _ & Hv). rewrite bool_decide_false by done. rewrite Hv. cbn. rewrite insert_id by done. split; [done|]. split; [done|lia].
    + rewrite bool_decide_true by done. rewrite Hit. cbn [default]. eapply ends_bind; [by apply set_step|]. intros [t' r] (Hw' & Hm & _ & Hn'). done.
  - intros t' (Hw' & Hm & Hn'). eapply ends_bind; [by apply find_entry|]. intros [i|] Hi.
    + destruct Hi as (b & v & Hb & Ho & Hv). cbn [of_opt res_bind]. rewrite Hb. cbn [res_bind]. rewrite Ho. cbn [res_bind snd]. rewrite Hm in Hv.
      rewrite lookup_insert_eq in Hv. injection Hv as <-. done.
    + rewrite Hm in Hi. by rewrite lookup_insert_eq in Hi.
Qed.

Lemma remove_one_step t : wft t -> 4 * (used_count t + 1) <= L ->
  if decide (map_of t = ∅) then remove_one_randomly t = Fault VerifyFailed
  else exists t' k v, remove_one_randomly t = Ok t' /\ map_of t !! k = Some v /\ wft t' /\ map_of t' = delete k (map_of t) /\ used_count t' = used_count t.
Proof using L_bound.
  intros Hw Hn. unfold remove_one_randomly. destruct (begin_ok fst hash L ks t Hw) as (it & -> & Hnone & Hnext). cbn [res_bind]. case_decide as Hm.
  - rewrite Hnone; [done|]. destruct (contents t) as [|[k v] l] eqn:E; [done|]. assert (map_of t !! k = Some v) as Hk by (apply map_of_lookup; [done|rewrite E; left]). by rewrite Hm in Hk.
  - pose proof Hw as [[->|[bs Hl]] Hks]; [done|]. specialize (Hnext bs Hl). rewrite (loaded_contents _ _ _ _ _ Hl) in *. unfold map_of in Hm. rewrite (loaded_contents _ _ _ _ _ Hl) in Hm.
    destruct it as [i|]; [|cbn in Hnext; by rewrite Hnext in Hm]. destruct Hnext as (_ & b & [k v] & Hb & Hu & Hs & Hc).
    destruct (remove_at_ok fst hash L ks L_bound t bs k i Hl Hks) as (t' & [k' v'] & -> & Hw' & Hke & Hp & Hn').
    { exists b, (k, v). split; [done|]. split; [|done]. unfold entry. by rewrite Hu. }
    cbn in Hke. subst k'. destruct (map_of_removed t t' k v' Hw Hw' Hp) as [H1 H2]. exists t', k, v'. done.
Qed.

Lemma get_step t k : wft t -> k ∈ ks -> endst (get hash probes t k) (fun o => o = map_of t !! k).
Proof using Type.
  intros Hw Hk. unfold get. eapply ends_bind; [by apply find_entry|]. intros [i|] Hi; [|done]. destruct Hi as (b & v & -> & Ho & Hv). cbn [res_bind]. by rewrite Ho, Hv.
Qed.

Lemma contains_step t k : wft t -> k ∈ ks -> endst (contains hash probes t k) (fun b => b = bool_decide (is_Some (map_of t !! k))).
Proof using Type.
  intros Hw Hk. unfold contains, HashTable.contains. eapply ends_bind; [by apply find_entry|]. intros [i|] Hi; cbn [ends].
  - destruct Hi as (b & v & _ & _ & ->). by rewrite !bool_decide_true by (done || by eexists).
  - rewrite Hi. by rewrite !bool_decide_false by (auto || by intros [? ?]).
Qed.

Lemma remove_step t k : wft t -> k ∈ ks -> endst (remove hash probes t k) (fun '(t', b) =>
  wft t' /\ map_of t' = delete k (map_of t) /\ b = bool_decide (is_Some (map_of t !! k)) /\ used_count t' <= used_count t).
Proof using L_bound.
  intros Hw Hk. eapply ends_mono; [exact (table_remove_ok fst hash probes L ks L_bound t k Hw Hk)|]. intros [t' b] (Hw' & Hr & Hn). unfold is_removed in Hr. split; [done|].
  case_decide as Hin.
  - destruct Hr as (-> & [k' v] & Hke & Hp). cbn in Hke. subst k'. destruct (map_of_removed t t' k v Hw Hw' Hp) as [Hv ->]. rewrite Hv. by rewrite bool_decide_true by (by eexists).
  - destruct Hr as (-> & ->). rewrite <- map_of_is_Some in Hin by done. rewrite bool_decide_false by done. split; [|done]. symmetry. apply delete_id. by apply eq_None_not_Some.
Qed.

Lemma keys_step t : wft t -> exists l, keys t = Ok l /\ l ≡ₚ (map_to_list (map_of t)).*1.
Proof using Type.
  intros Hw. unfold keys. rewrite (entries_ok fst hash L ks t Hw). cbn [res_bind]. eexists. split; [done|]. unfold map_of.
  by rewrite map_to_list_to_map by exact (wf_nodup _ _ _ _ t Hw).
Qed.

Lemma map_calls_ok t c : wft t -> (forall k, k ∈ call_keys c -> k ∈ ks) -> size_ok L c -> 4 * (used_count t + 1) <= L -> step_ok t c.
Proof using L_bound.
  intros Hw Hks Hsz Hn. destruct (wf_counts fst hash L ks L_bound t Hw) as (_ & Hdel & _). destruct c as [k v|k|k|k|k| |n| | | |]; cbn [call_keys size_ok] in *;
    try (assert (k ∈ ks) as Hk by (apply Hks; left)).
  - apply ends_step. cbn [step]. eapply ends_bind; [by apply set_step|]. intros [t' r] (Hw' & Hm & -> & Hn'). split; [|done]. cbn. rewrite Hm. constructor.
  - apply ends_step. cbn [step]. eapply ends_bind; [by apply get_step|]. intros o ->. split; [constructor|]. split; [done|cbn; lia].
  - apply ends_step. cbn [step]. eapply ends_bind; [by apply remove_step|]. intros [t' b] (Hw' & Hm & -> & Hn'). split; [|split; [done|cbn; lia]]. cbn. rewrite Hm. constructor.
  - apply ends_step. cbn [step]. eapply ends_bind; [by apply contains_step|]. intros b ->. split; [constructor|]. split; [done|cbn; lia].
  - apply ends_step. cbn [step]. eapply ends_bind; [by apply ensure_step|]. intros [t' v] (Hw' & -> & Hm & Hn'). split; [|done]. cbn. rewrite Hm. constructor.
  - pose proof (remove_one_step t Hw Hn) as Hr. case_decide as Hm.
    + left. exists None. split; [by constructor|]. cbn [step]. by rewrite Hr.
    + apply ends_step. cbn [step]. destruct Hr as (t' & k & v & -> & Hv & Hw' & Hm' & Hn'). split; [|split; [done|cbn; lia]]. cbn. rewrite Hm'. by econstructor.
  - pose proof (ensure_capacity_ok fst hash probes L ks L_bound t n Hw ltac:(lia) ltac:(lia)) as He. unfold used_count in Hn. specialize (He ltac:(lia)).
    rewrite map_of_size in He by done. destruct (Z.leb_spec (Z.of_nat (size (map_of t))) n) as [Hle|Hlt].
    + apply ends_step. cbn [step]. eapply ends_bind; [exact He|]. intros t' (Hw' & Hp & Hs & Hd). rewrite <- map_of_size in Hs by done.
      split; [|split; [done|unfold used_count; cbn; lia]]. cbn. assert (map_of t' = map_of t) as -> by (by apply map_of_perm). by constructor.
    + left. exists None. split; [by constructor|]. cbn [step]. unfold ensure_capacity. by rewrite He.
  - apply ends_step. cbn [step]. split; [constructor|]. split; [split; [by left|by intros e He%not_elem_of_nil]|]. pose proof (map_of_size t Hw). unfold used_count. cbn. lia.
  - apply ends_step. cbn [step]. eapply ends_bind; [apply (copy_ok fst hash probes L ks L_bound t Hw); unfold used_count in Hn; lia|]. intros t' (Hw' & Hp & Hn').
    split; [|split; [done|unfold used_count; cbn; lia]]. cbn. assert (map_of t' = map_of t) as -> by (by apply map_of_perm). by constructor.
  - apply ends_step. cbn [step]. destruct (keys_step t Hw) as (l & -> & Hl). split; [by constructor|]. split; [done|cbn; lia].
  - apply ends_step. cbn [step]. split; [|split; [done|cbn; lia]]. cbn. rewrite map_of_size by done. constructor.
Qed.

Lemma map_run_ok cs t : wft t -> (forall c k, c ∈ cs -> k ∈ call_keys c -> k ∈ ks) -> Forall (size_ok L) cs -> 4 * (used_count t + Z.of_nat (length cs) + 1) <= L ->
  (exists q, map_run (map_of t) cs q /\ answered (used_count t + Z.of_nat (length cs)) (run t cs) q) \/ hangs (run t cs).
Proof using L_bound.
  revert t. induction cs as [|c cs IH]; intros t Hw Hks Hsz Hn; cbn [run].
  { left. exists (Some (map_of t, [])). split; [constructor|]. split; [done|]. split; [done|]. split; [done|cbn; lia]. }
  apply Forall_cons in Hsz as [Hc Hsz]. cbn [length] in *.
  destruct (map_calls_ok t c Hw ltac:(intros; eapply Hks; [left|done]) Hc ltac:(lia)) as [(q & Hq & Ha)|[-> Hu]]; [|by right].
  destruct (step t c) as [[t1 a]|f], q as [[M1 a1]|]; try done; [|left; exists None; split; [by apply MStop|done]].
  destruct Ha as (Hw1 & <- & <- & Hn1). cbn [res_bind].
  destruct (IH t1 Hw1 ltac:(intros; eapply Hks; [by right|done]) Hsz ltac:(lia)) as [(q2 & Hq2 & Ha2)|[-> Hu]]; [|by right].
  left. destruct (run t1 cs) as [[t2 l]|f], q2 as [[M2 l2]|]; try done; [|exists None; split; [by eapply MFail|done]].
  destruct Ha2 as (Hw2 & <- & <- & Hn2). exists (Some (map_of t2, a :: l)). split; [by eapply MCons|]. split; [done|]. split; [done|]. split; [done|lia].
Qed.
End Run.

(** The keys of a sequence of calls. *)
Definition run_keys (cs : list call) : list K := cs ≫= call_keys.

(** A new table, without a word on the hash function: the answers of the map, or
    probing forever for a key whose probes miss a bucket. *)
Lemma run_right_or_hangs L cs : 4 * (Z.of_nat (length cs) + 1) <= L <= 2 ^ 25 -> Forall (size_ok L) cs ->
  (exists q, map_run ∅ cs q /\ answered L (run_keys cs) (Z.of_nat (length cs)) (run empty_table cs) q) \/ hangs L (run_keys cs) (run empty_table cs).
Proof using Type.
  intros HL Hsz. apply (map_run_ok L (run_keys cs) ltac:(lia) cs empty_table); [split; [by left|by intros e He%not_elem_of_nil]| |done|change (used_count empty_table) with 0; lia].
  intros c k Hc Hk. apply list_elem_of_bind. by exists c.
Qed.

End HashSpec.

(** A test for [meets], from the list of probes. *)
Fixpoint iterates {A} (f : A -> A) (x : A) (n : nat) : list A :=
  match n with
  | O => []
  | S n => x :: iterates f (f x) n
  end.
Definition probe_list (h : Z) (n : nat) : list Z := iterates double_hash h n.
Definition meets_all (l : list Z) (c : Z) : bool := forallb (fun i => existsb (fun h => h mod c =? i) l) (seqZ 0 c).

Lemma probe_shift h n : probe (double_hash h) n = double_hash (probe h n).
Proof. induction n as [|n IH]; [done|]. cbn [probe]. by rewrite IH. Qed.

Lemma probe_list_lookup h n m x : probe_list h n !! m = Some x -> (m < n)%nat /\ x = probe h m.
Proof.
  revert h m. induction n as [|n IH]; intros h [|m] Hx; unfold probe_list in Hx; cbn [iterates lookup list_lookup] in Hx; try done; [injection Hx as <-; split; [lia|done]|].
  destruct (IH _ _ Hx) as [Hlt ->]. split; [lia|]. apply probe_shift.
Qed.

Lemma meets_all_ok probes c h : 0 < c -> meets_all (probe_list h probes) c = true -> meets probes c h.
Proof.
  intros Hc Hm i Hi. unfold meets_all in Hm. rewrite forallb_forall in Hm. specialize (Hm (Z.of_nat i)). rewrite <- list_elem_of_In, elem_of_seqZ in Hm. specialize (Hm ltac:(lia)).
  apply existsb_exists in Hm as (x & Hx & E). apply list_elem_of_In, list_elem_of_lookup in Hx as [n Hn]. apply probe_list_lookup in Hn as [Hlt ->].
  apply Z.eqb_eq in E. exists n. split; [done|]. unfold place. lia.
Qed.


(** C36: [double_hash] has fixed points: 2389024350 is the hash of 1374990529.  In a table
    that holds just 6, which is in the bucket of that hash, looking up 1374990529 and
    putting it in probe the same bucket forever, whatever number of turns is allowed. *)
Theorem hash_table_hangs probes :
  double_hash 2389024350 = 2389024350 /\ int_hash 1374990529 = 2389024350 /\
  exists t, HashTable.set id int_hash (S probes) empty_table 6 = Ok (t, InsertedNewEntry) /\
    HashTable.contains id int_hash (S probes) t 1374990529 = Fault OutOfFuel /\
    HashTable.set id int_hash (S probes) t 1374990529 = Fault OutOfFuel.
Proof.
  assert (double_hash 2389024350 = 2389024350) as Hfix by (vm_compute; reflexivity). assert (int_hash 1374990529 = 2389024350) as Hh by (vm_compute; reflexivity).
  split; [done|]. split; [done|].
  set (b := mkBucket (T := Z) false false false None). set (t := mkTable (Some [b; b; mkBucket true false false (Some 6); b; mkBucket false false true None]) 1 4 0).
  exists t. split; [|split].
  - unfold HashTable.set, lookup_for_writing. cbn [writing_loop]. vm_compute. reflexivity.
  - unfold HashTable.contains, HashTable.find, lookup_with_hash. rewrite Hh. change (is_empty t) with false. cbn iota.
    assert (forall n, lookup_loop n t 2389024350 (equals id 1374990529) = Fault OutOfFuel) as ->; [|done].
    induction n as [|n IH]; [done|]. cbn [lookup_loop]. change (probed t 2389024350) with (Ok (2%nat, mkBucket true false false (Some 6))). cbn [res_bind].
    change (holds _ _) with (Ok false). cbn [res_bind used deleted negb andb]. by rewrite Hfix.
  - unfold HashTable.set, lookup_for_writing. change (should_grow t) with false. cbn iota. cbn [res_bind]. change (id 1374990529) with 1374990529. rewrite Hh.
    assert (forall n, writing_loop n t 2389024350 (equals id 1374990529) None = Fault OutOfFuel) as ->; [|done].
    induction n as [|n IH]; [done|]. cbn [writing_loop]. change (probed t 2389024350) with (Ok (2%nat, mkBucket true false false (Some 6))). cbn [res_bind].
    change (holds _ _) with (Ok false). cbn [res_bind used]. by rewrite Hfix.
Qed.
End HashSpec.

Module HashTests.
Import HashFunctions HashTable.
(** The values AK/Tests/TestHashFunctions.cpp expects. *)
Lemma hash_function_values :
  int_hash 42 = 3564735745 /\ int_hash 0 = 1177991625 /\ double_hash 42 = 524450 /\ double_hash 0 = 12384 /\
  pair_int_hash 42 17 = 339337046 /\ pair_int_hash 0 0 = 954888656 /\ u64_hash 42 = 2824066580 /\ u64_hash 0 = 954888656.
Proof. by vm_compute. Qed.
End HashTests.
