(* ===== verification/Codecs.v ===== *)
(** * Text encodings of bytes and code points

    Base64 (AK/Base64.cpp), hexadecimal digits (AK/Hex.cpp, Hex.h), UTF-8
    (AK/Utf8View.cpp and StringBuilder::append_code_point) and LEB128 (AK/LEB128.h).
    Strings and buffers are lists of bytes, [Z] from 0 to 255. *)
From S2P Require Import Prelude.

#[local] Open Scope Z_scope.

Definition byte (x : Z) : Prop := 0 <= x < 256.

(** ** Base64 *)
Module Base64.

Definition make_alphabet : list Z :=
  [65; 66; 67; 68; 69; 70; 71; 72; 73; 74; 75; 76; 77; 78; 79; 80; 81; 82; 83; 84; 85; 86; 87; 88; 89; 90;
   97; 98; 99; 100; 101; 102; 103; 104; 105; 106; 107; 108; 109; 110; 111; 112; 113; 114; 115; 116; 117; 118; 119; 120; 121; 122;
   48; 49; 50; 51; 52; 53; 54; 55; 56; 57; 43; 47].

(** [table[alphabet[i]] = i], over a table of zeroes. *)
Definition make_lookup_table : list Z :=
  foldl (fun table i => match make_alphabet !! i with Some c => <[Z.to_nat c := Z.of_nat i]> table | None => table end)
    (replicate 256 0) (seq 0 (length make_alphabet)).

Definition calculate_base64_decoded_length (length : Z) : Z := wrap size_t (length * 3) / 4.
Definition calculate_base64_encoded_length (size : Z) : Z :=
  Z.land (wrap size_t (wrap size_t (4 * size) / 3 + 3)) (wrap size_t (Z.lnot 3)).

(** Array::operator[] *)
Definition at_ (table : list Z) (index : Z) : res Z :=
  VERIFY (0 <=? index) && (index <? Z.of_nat (length table)) ;;
  of_opt VerifyFailed (table !! Z.to_nat index).

(** The lambda of decode_base64: the value, and whether it is padding.  [rest] is the
    input from the group on.  A character is signed; as an index it is converted to
    size_t. *)
Definition get_character (rest : list Z) (offset : nat) : res (Z * bool) :=
  match rest !! offset with
  | None => Ok (0, false)
  | Some c =>
      if c =? 61 then Ok (0, true)
      else let* v := at_ make_lookup_table (wrap size_t (wrap I8 c)) in Ok (v, false)
  end.

Definition decode_group (rest : list Z) : res (list Z) :=
  let* (in0, _) := get_character rest 0 in
  let* (in1, _) := get_character rest 1 in
  let* (in2, in2_is_padding) := get_character rest 2 in
  let* (in3, in3_is_padding) := get_character rest 3 in
  let out0 := wrap U8 (Z.lor (Z.shiftl in0 2) (Z.land (Z.shiftr in1 4) 3)) in
  let out1 := wrap U8 (Z.lor (Z.shiftl (Z.land in1 0xf) 4) (Z.land (Z.shiftr in2 2) 0xf)) in
  let out2 := wrap U8 (Z.lor (Z.shiftl (Z.land in2 0x3) 6) in3) in
  Ok (out0 :: (if in2_is_padding : bool then [] else [out1]) ++ (if in3_is_padding : bool then [] else [out2])).

(** The loop; the length of the input bounds its turns. *)
Fixpoint decode_loop (turns : nat) (rest : list Z) : res (list Z) :=
  match turns, rest with
  | _, [] => Ok []
  | O, _ => Fault OutOfFuel
  | S turns, _ =>
      let* group := decode_group rest in
      let* output := decode_loop turns (drop 4 rest) in
      Ok (group ++ output)
  end.

Definition decode_base64 (input : list Z) : res (list Z) := decode_loop (length input) input.

(** The lambda of encode_base64. *)
Definition get_byte (rest : list Z) (offset : nat) : Z * bool :=
  match rest !! offset with None => (0, true) | Some x => (x, false) end.

Definition encode_group (rest : list Z) : res (list Z) :=
  let in0 := fst (get_byte rest 0) in
  let '(in1, is_16bit) := get_byte rest 1 in
  let '(in2, is_8bit) := get_byte rest 2 in
  let index0 := Z.land (Z.shiftr in0 2) 0x3f in
  let index1 := Z.land (Z.lor (Z.shiftl in0 4) (Z.shiftr in1 4)) 0x3f in
  let index2 := Z.land (Z.lor (Z.shiftl in1 2) (Z.shiftr in2 6)) 0x3f in
  let index3 := Z.land in2 0x3f in
  let* out0 := at_ make_alphabet index0 in
  let* out1 := at_ make_alphabet index1 in
  let* out2 := if is_16bit : bool then Ok 61 else at_ make_alphabet index2 in
  let* out3 := if is_8bit : bool then Ok 61 else at_ make_alphabet index3 in
  Ok [out0; out1; out2; out3].

Fixpoint encode_loop (turns : nat) (rest : list Z) : res (list Z) :=
  match turns, rest with
  | _, [] => Ok []
  | O, _ => Fault OutOfFuel
  | S turns, _ =>
      let* group := encode_group rest in
      let* output := encode_loop turns (drop 3 rest) in
      Ok (group ++ output)
  end.

Definition encode_base64 (input : list Z) : res (list Z) := encode_loop (length input) input.

End Base64.

(** ** Hexadecimal digits *)
Module Hex.

Definition decode_hex_digit (digit : Z) : Z :=
  if (48 <=? digit) && (digit <=? 57) then digit - 48
  else if (97 <=? digit) && (digit <=? 102) then 10 + (digit - 97)
  else if (65 <=? digit) && (digit <=? 70) then 10 + (digit - 65)
  else 255.

Fixpoint decode_digits (input : list Z) : option (list Z) :=
  match input with
  | d1 :: d2 :: rest =>
      let c1 := decode_hex_digit d1 in
      if 16 <=? c1 then None
      else
        let c2 := decode_hex_digit d2 in
        if 16 <=? c2 then None else (wrap U8 (Z.shiftl c1 4 + c2) ::.) <$> decode_digits rest
  | _ => Some []
  end.

Definition decode_hex (input : list Z) : option (list Z) :=
  if negb (Z.of_nat (length input) mod 2 =? 0) then None else decode_digits input.

(** A digit and a byte as the format {:02x} writes them. *)
Definition hex_digit (v : Z) : Z := if v <? 10 then 48 + v else 97 + (v - 10).
Definition format_02x (ch : Z) : list Z := [hex_digit (ch / 16); hex_digit (ch mod 16)].

Definition encode_hex (input : list Z) : list Z := concat (map format_02x input).

End Hex.

(** ** UTF-8 *)
Module Utf8.

(** StringBuilder::append_code_point: the bytes it appends. *)
Definition append_code_point (code_point : Z) : list Z :=
  let bits shift mask mark := wrap U8 (Z.lor (Z.land (Z.shiftr code_point shift) mask) mark) in
  if code_point <=? 0x7f then [wrap U8 code_point]
  else if code_point <=? 0x07ff then [bits 6 0x1f 0xc0; bits 0 0x3f 0x80]
  else if code_point <=? 0xffff then [bits 12 0x0f 0xe0; bits 6 0x3f 0x80; bits 0 0x3f 0x80]
  else if code_point <=? 0x10ffff then [bits 18 0x07 0xf0; bits 12 0x3f 0x80; bits 6 0x3f 0x80; bits 0 0x3f 0x80]
  else [0xef; 0xbf; 0xbd].

(** The length and the bits of the value, when the first byte makes sense. *)
Definition decode_first_byte (b : Z) : option (nat * Z) :=
  if Z.land b 128 =? 0 then Some (1%nat, b)
  else if Z.land b 64 =? 0 then None
  else if Z.land b 32 =? 0 then Some (2%nat, Z.land b 31)
  else if Z.land b 16 =? 0 then Some (3%nat, Z.land b 15)
  else if Z.land b 8 =? 0 then Some (4%nat, Z.land b 7)
  else None.

(** The inner loop of validate: [n] more bytes. *)
Fixpoint continuation (n : nat) (rest : list Z) : option (list Z) :=
  match n with
  | O => Some rest
  | S n =>
      match rest with
      | [] => None
      | b :: rest => if negb (Z.shiftr b 6 =? 2) then None else continuation n rest
      end
  end.

(** Utf8View::validate, with the count of valid bytes; the length bounds the turns. *)
Fixpoint validate_loop (turns : nat) (rest : list Z) (valid_bytes : nat) : res (bool * nat) :=
  match turns, rest with
  | _, [] => Ok (true, valid_bytes)
  | O, _ => Fault OutOfFuel
  | S turns, b :: rest =>
      match decode_first_byte b with
      | None => Ok (false, valid_bytes)
      | Some (n, _) =>
          match continuation (n - 1) rest with
          | None => Ok (false, valid_bytes)
          | Some rest => validate_loop turns rest (valid_bytes + n)
          end
      end
  end.

Definition validate (s : list Z) : res (bool * nat) := validate_loop (length s) s 0.

(** Utf8CodepointIterator; the iterator is what is left of the string. *)
Definition next (s : list Z) : res (list Z) :=
  match s with
  | [] => Fault VerifyFailed
  | b :: _ =>
      let* (n, _) := of_opt VerifyFailed (decode_first_byte b) in
      VERIFY (n <=? length s)%nat ;;
      Ok (drop n s)
  end.

Fixpoint continue_value (n : nat) (value : Z) (rest : list Z) : res Z :=
  match n with
  | O => Ok value
  | S n =>
      match rest with
      | [] => Fault UndefinedBehaviour
      | b :: rest =>
          VERIFY Z.shiftr b 6 =? 2 ;;
          continue_value n (Z.lor (wrap U32 (Z.shiftl value 6)) (Z.land b 63)) rest
      end
  end.

Definition deref (s : list Z) : res Z :=
  match s with
  | [] => Fault VerifyFailed
  | b :: rest =>
      let* (n, value) := of_opt VerifyFailed (decode_first_byte b) in
      VERIFY (n <=? length s)%nat ;;
      continue_value (n - 1) value rest
  end.

(** The loop over the code points of a view. *)
Fixpoint code_points (turns : nat) (s : list Z) : res (list Z) :=
  match turns, s with
  | _, [] => Ok []
  | O, _ => Fault OutOfFuel
  | S turns, _ =>
      let* c := deref s in
      let* s := next s in
      let* l := code_points turns s in
      Ok (c :: l)
  end.

Definition calculate_length (s : list Z) : res Z :=
  let* l := code_points (length s) s in Ok (Z.of_nat (length l)).

End Utf8.

(** ** LEB128 *)
Module Leb128.

Section Width.
Context (T : int_ty).

Definition unsigned : int_ty := IntTy (bits T) false.

(** [T] has at least 32 bits; a shift by the width or more is undefined. *)
Definition shifted (byte num_bytes : Z) : res Z :=
  DEFINED num_bytes * 7 <? bits T ;;
  Ok (wrap unsigned (Z.shiftl (Z.land byte 0x7f) (num_bytes * 7))).

(** read_unsigned from the bytes left of a stream: the value and what remains, or [None]
    at the end of the stream. *)
Fixpoint read_unsigned_loop (stream : list Z) (result num_bytes : Z) : res (option (Z * list Z)) :=
  match stream with
  | [] => Ok None
  | byte :: stream =>
      let* v := shifted byte num_bytes in
      let result := Z.lor result v in
      if Z.land byte 0x80 =? 0 then Ok (Some (result, stream)) else read_unsigned_loop stream result (num_bytes + 1)
  end.

Definition read_unsigned (stream : list Z) : res (option (Z * list Z)) := read_unsigned_loop stream 0 0.

(** read_signed; the sign is extended after the last byte. *)
Fixpoint read_signed_loop (stream : list Z) (result num_bytes : Z) : res (option (Z * list Z)) :=
  match stream with
  | [] => Ok None
  | byte :: stream =>
      let* v := shifted byte num_bytes in
      let result := wrap T (Z.lor (wrap unsigned result) v) in
      let num_bytes := num_bytes + 1 in
      if Z.land byte 0x80 =? 0 then
        Ok (Some (if (num_bytes * 7 <? bits T / 8 * 4) && negb (Z.land byte 0x40 =? 0)
                  then wrap T (Z.lor (wrap unsigned result) (wrap unsigned (Z.shiftl (wrap unsigned (-1)) (num_bytes * 7))))
                  else result, stream))
      else read_signed_loop stream result num_bytes
  end.

Definition read_signed (stream : list Z) : res (option (Z * list Z)) := read_signed_loop stream 0 0.
End Width.

End Leb128.

(** ** Facts *)
Module CodecFacts.

(** Statements about bytes that are checked for each. *)
Definition all_bytes : list Z := Z.of_nat <$> seq 0 256.

Lemma all_bytes_spec x : byte x -> In x all_bytes.
Proof.
  intros Hx. unfold byte in Hx. apply list_elem_of_In. apply list_elem_of_fmap. exists (Z.to_nat x). split; [lia|]. apply elem_of_seq. lia.
Qed.

Lemma for_bytes (P : Z -> bool) : forallb P all_bytes = true -> forall x, byte x -> P x = true.
Proof. intros H x Hx. rewrite forallb_forall in H. by apply H, all_bytes_spec. Qed.

Lemma for_bytes2 (P : Z -> Z -> bool) : forallb (fun x => forallb (P x) all_bytes) all_bytes = true ->
  forall x y, byte x -> byte y -> P x y = true.
Proof. intros H x y Hx Hy. apply (for_bytes (P x)); [|done]. by apply (for_bytes _ H). Qed.

Section Base64.
Import Base64.

(** The characters for six bits, and back. *)
Lemma alphabet_character i : 0 <= i < 64 -> exists c, at_ make_alphabet i = Ok c /\ byte c /\
  forall rest offset, rest !! offset = Some c -> get_character rest offset = Ok (i, false).
Proof.
  intros Hi. assert (match at_ make_alphabet i with
    | Ok c => (0 <=? c) && (c <? 256) && negb (c =? 61) &&
        match at_ make_lookup_table (wrap size_t (wrap I8 c)) with Ok v => v =? i | Fault _ => false end
    | Fault _ => false end = true) as H.
  { destruct (Z.ltb_spec i 64); [|lia].
    pose proof (for_bytes (fun i => if i <? 64 then match at_ make_alphabet i with
      | Ok c => (0 <=? c) && (c <? 256) && negb (c =? 61) && match at_ make_lookup_table (wrap size_t (wrap I8 c)) with Ok v => v =? i | Fault _ => false end
      | Fault _ => false end else true) ltac:(vm_compute; reflexivity) i ltac:(unfold byte; lia)) as Hc.
    cbn beta in Hc. rewrite (proj2 (Z.ltb_lt i 64)) in Hc by lia. done. }
  destruct (at_ make_alphabet i) as [c|]; [|done]. to_prop. exists c. unfold byte. split_and!; [done|lia|lia|].
  intros rest offset Hr. unfold get_character. rewrite Hr.
  destruct (Z.eqb_spec c 61) as [->|_]; [vm_compute in *; lia|].
  destruct (at_ make_lookup_table _) as [v|]; [|done]. cbn. to_prop. by subst v.
Qed.

Definition index0 (a : Z) : Z := Z.land (Z.shiftr a 2) 0x3f.
Definition index1 (a b : Z) : Z := Z.land (Z.lor (Z.shiftl a 4) (Z.shiftr b 4)) 0x3f.
Definition index2 (b c : Z) : Z := Z.land (Z.lor (Z.shiftl b 2) (Z.shiftr c 6)) 0x3f.
Definition index3 (c : Z) : Z := Z.land c 0x3f.

Lemma sextet x : 0 <= Z.land x 0x3f < 64.
Proof. change 0x3f with (Z.ones 6). rewrite Z.land_ones by lia. apply Z.mod_pos_bound. lia. Qed.

(** The three bytes from the four groups of six bits. *)
Lemma out0_ok a b : byte a -> byte b -> wrap U8 (Z.lor (Z.shiftl (index0 a) 2) (Z.land (Z.shiftr (index1 a b) 4) 3)) = a.
Proof.
  intros Ha Hb. apply Z.eqb_eq.
  apply (for_bytes2 (fun a b => wrap U8 (Z.lor (Z.shiftl (index0 a) 2) (Z.land (Z.shiftr (index1 a b) 4) 3)) =? a) ltac:(vm_compute; reflexivity)); done.
Qed.

Lemma out1_ok a b c : byte a -> byte b -> byte c ->
  wrap U8 (Z.lor (Z.shiftl (Z.land (index1 a b) 0xf) 4) (Z.land (Z.shiftr (index2 b c) 2) 0xf)) = b.
Proof.
  intros Ha Hb Hc. assert (Z.land (index1 a b) 0xf = Z.shiftr b 4) as ->.
  { apply Z.eqb_eq. by apply (for_bytes2 (fun a b => Z.land (index1 a b) 0xf =? Z.shiftr b 4) ltac:(vm_compute; reflexivity)). }
  assert (Z.land (Z.shiftr (index2 b c) 2) 0xf = Z.land b 0xf) as ->.
  { apply Z.eqb_eq. by apply (for_bytes2 (fun b c => Z.land (Z.shiftr (index2 b c) 2) 0xf =? Z.land b 0xf) ltac:(vm_compute; reflexivity)). }
  apply Z.eqb_eq. by apply (for_bytes (fun b => wrap U8 (Z.lor (Z.shiftl (Z.shiftr b 4) 4) (Z.land b 0xf)) =? b) ltac:(vm_compute; reflexivity)).
Qed.

Lemma out2_ok b c : byte b -> byte c -> wrap U8 (Z.lor (Z.shiftl (Z.land (index2 b c) 0x3) 6) (index3 c)) = c.
Proof.
  intros Hb Hc. apply Z.eqb_eq.
  by apply (for_bytes2 (fun b c => wrap U8 (Z.lor (Z.shiftl (Z.land (index2 b c) 0x3) 6) (index3 c)) =? c) ltac:(vm_compute; reflexivity)).
Qed.

Lemma get_padding (rest : list Z) offset : rest !! offset = Some 61 -> get_character rest offset = Ok (0, true).
Proof. intros H. unfold get_character. by rewrite H. Qed.

(** A group of up to three bytes becomes four characters, which become the group. *)
Lemma group_ok rest : rest <> [] -> Forall byte rest ->
  exists c0 c1 c2 c3, encode_group rest = Ok [c0; c1; c2; c3] /\ Forall byte [c0; c1; c2; c3] /\
    forall more, decode_group (c0 :: c1 :: c2 :: c3 :: more) = Ok (take 3 rest).
Proof.
  intros Hne Hb. destruct rest as [|a rest]; [done|]. apply Forall_cons in Hb as [Ha Hb]. unfold encode_group. cbn [get_byte lookup list_lookup fst].
  assert (byte 0) as H0 by (unfold byte; lia). assert (byte 61) as H61 by (unfold byte; lia).
  assert (forall b c, exists c0 c1 c2 c3, at_ make_alphabet (index0 a) = Ok c0 /\ at_ make_alphabet (index1 a b) = Ok c1 /\
    at_ make_alphabet (index2 b c) = Ok c2 /\ at_ make_alphabet (index3 c) = Ok c3 /\ Forall byte [c0; c1; c2; c3] /\
    forall rest, (rest !! 0%nat = Some c0 -> get_character rest 0 = Ok (index0 a, false)) /\
      (rest !! 1%nat = Some c1 -> get_character rest 1 = Ok (index1 a b, false)) /\
      (rest !! 2%nat = Some c2 -> get_character rest 2 = Ok (index2 b c, false)) /\
      (rest !! 3%nat = Some c3 -> get_character rest 3 = Ok (index3 c, false))) as Hall.
  { intros b c. destruct (alphabet_character (index0 a) (sextet _)) as (c0 & E0 & B0 & G0), (alphabet_character (index1 a b) (sextet _)) as (c1 & E1 & B1 & G1),
      (alphabet_character (index2 b c) (sextet _)) as (c2 & E2 & B2 & G2), (alphabet_character (index3 c) (sextet _)) as (c3 & E3 & B3 & G3).
    exists c0, c1, c2, c3. split_and!; try done; [by repeat apply Forall_cons_2|]. intros rest'. split_and!; auto. }
  destruct rest as [|b rest]; [|apply Forall_cons in Hb as [Hbb Hb]; destruct rest as [|c rest]; [|apply Forall_cons in Hb as [Hcc _]]].
  - destruct (Hall 0 0) as (c0 & c1 & c2 & c3 & E0 & E1 & _ & _ & HB & Hg). unfold get_byte. cbn [lookup list_lookup].
    fold (index0 a) (index1 a 0). rewrite E0, E1. cbn [res_bind]. exists c0, c1, 61, 61. split; [done|].
    split; [inversion HB as [|? ? ? HB1]; inversion HB1; by repeat apply Forall_cons_2|].
    intros more. destruct (Hg (c0 :: c1 :: 61 :: 61 :: more)) as (G0 & G1 & _ & _). unfold decode_group.
    rewrite G0, G1, !get_padding by done. cbn [res_bind app]. by rewrite out0_ok.
  - destruct (Hall b 0) as (c0 & c1 & c2 & c3 & E0 & E1 & E2 & _ & HB & Hg). unfold get_byte. cbn [lookup list_lookup].
    fold (index0 a) (index1 a b) (index2 b 0). rewrite E0, E1, E2. cbn [res_bind]. exists c0, c1, c2, 61. split; [done|].
    split; [inversion HB as [|? ? ? HB1]; inversion HB1 as [|? ? ? HB2]; inversion HB2; by repeat apply Forall_cons_2|].
    intros more. destruct (Hg (c0 :: c1 :: c2 :: 61 :: more)) as (G0 & G1 & G2 & _). unfold decode_group.
    rewrite G0, G1, G2, get_padding by done. cbn [res_bind app]. by rewrite out0_ok, out1_ok.
  - destruct (Hall b c) as (c0 & c1 & c2 & c3 & E0 & E1 & E2 & E3 & HB & Hg). unfold get_byte. cbn [lookup list_lookup].
    fold (index0 a) (index1 a b) (index2 b c) (index3 c). rewrite E0, E1, E2, E3. cbn [res_bind]. exists c0, c1, c2, c3. split; [done|]. split; [done|].
    intros more. destruct (Hg (c0 :: c1 :: c2 :: c3 :: more)) as (G0 & G1 & G2 & G3). unfold decode_group.
    rewrite G0, G1, G2, G3 by done. cbn [res_bind app]. by rewrite out0_ok, out1_ok, out2_ok.
Qed.

Lemma loops_ok n l : (length l <= n)%nat -> Forall byte l ->
  exists e, encode_loop n l = Ok e /\ Forall byte e /\ Z.of_nat (length e) = 4 * ((Z.of_nat (length l) + 2) / 3) /\
    forall m, (length e <= m)%nat -> decode_loop m e = Ok l.
Proof.
  revert l. induction n as [|n IH]; intros l Hn Hb.
  - destruct l; [|cbn in Hn; lia]. exists []. split_and!; [done|constructor|done|]. by intros [|m].
  - destruct l as [|a l]; [exists []; split_and!; [done|constructor|done|]; by intros [|m]|]. cbn [encode_loop].
    destruct (group_ok (a :: l) ltac:(done) Hb) as (c0 & c1 & c2 & c3 & -> & Hc & Hd). cbn [res_bind].
    destruct (IH (drop 3 (a :: l))) as (e & -> & He & Hlen & Hdec); [rewrite length_drop; cbn in *; lia|by apply Forall_drop|].
    cbn [res_bind app]. exists (c0 :: c1 :: c2 :: c3 :: e). split; [done|].
    split; [inversion Hc as [|? ? ? Hc1]; inversion Hc1 as [|? ? ? Hc2]; inversion Hc2 as [|? ? ? Hc3]; inversion Hc3; by repeat apply Forall_cons_2|]. split.
    + rewrite length_drop in Hlen. cbn [length] in *. destruct (decide (3 <= S (length l))%nat) as [H3|H3]; [|].
      * replace (Z.of_nat (S (length l)) + 2) with ((Z.of_nat (S (length l) - 3) + 2) + 1 * 3) by lia. rewrite Z.div_add by lia. lia.
      * replace (S (length l) - 3)%nat with 0%nat in Hlen by lia. change ((Z.of_nat 0 + 2) / 3) with 0 in Hlen.
        assert (Z.of_nat (S (length l)) = 1 \/ Z.of_nat (S (length l)) = 2) as [-> | ->] by lia; [change ((1 + 2) / 3) with 1|change ((2 + 2) / 3) with 1]; lia.
    + intros m Hm. destruct m as [|m]; [cbn in Hm; lia|]. cbn [decode_loop]. rewrite Hd. cbn [res_bind drop].
      rewrite Hdec by (cbn in Hm; lia). cbn [res_bind]. f_equal. apply (take_drop 3 (a :: l)).
Qed.

(** C34: decoding what encoding bytes gives, gives the bytes; and the length is the one that
    calculate_base64_encoded_length says. *)
Theorem base64_roundtrip l : Forall byte l -> Z.of_nat (length l) < 2 ^ 30 ->
  exists e, encode_base64 l = Ok e /\ decode_base64 e = Ok l /\
    Z.of_nat (length e) = calculate_base64_encoded_length (Z.of_nat (length l)).
Proof.
  intros Hb Hl. destruct (loops_ok (length l) l ltac:(done) Hb) as (e & He & _ & Hlen & Hd). exists e. split_and!; [done|by apply Hd|].
  rewrite Hlen. unfold calculate_base64_encoded_length. set (n := Z.of_nat (length l)) in *. assert (0 <= n) by lia.
  assert (wrap size_t (4 * n) = 4 * n) as -> by (apply wrap_id; [done|apply in_ty_spec; cbn; lia]).
  assert (0 <= 4 * n / 3 <= 4 * n) by (split; [apply Z.div_pos; lia|apply Z.div_le_upper_bound; lia]).
  assert (wrap size_t (4 * n / 3 + 3) = 4 * n / 3 + 3) as -> by (apply wrap_id; [done|apply in_ty_spec; cbn; lia]).
  change (wrap size_t (Z.lnot 3)) with (2 ^ 32 - 4).
  assert (forall x, 0 <= x < 2 ^ 32 -> Z.land x (2 ^ 32 - 4) = 4 * (x / 4)) as Hland.
  { intros x Hx. replace (2 ^ 32 - 4) with (Z.ldiff (Z.ones 32) (Z.ones 2)) by reflexivity.
    rewrite Z.ldiff_land, Z.land_assoc, Z.land_ones, Z.mod_small, <- Z.ldiff_land by lia. rewrite Z.ldiff_ones_r by lia. rewrite Z.shiftl_mul_pow2, Z.shiftr_div_pow2 by lia.
    change (2 ^ 2) with 4. lia. }
  rewrite Hland by lia. f_equal. clear -H. assert (exists k r, n = 3 * k + r /\ (r = 0 \/ r = 1 \/ r = 2)) as (k & r & -> & Hr).
  { exists (n / 3), (n mod 3). pose proof (Z.mod_pos_bound n 3 ltac:(lia)). split; [apply Z.div_mod; lia|lia]. }
  destruct Hr as [-> |[-> | ->]].
  - replace (3 * k + 0 + 2) with (2 + k * 3) by lia. replace (4 * (3 * k + 0)) with (0 + 4 * k * 3) by lia. rewrite !Z.div_add by lia.
    change (0 / 3) with 0. change (2 / 3) with 0. replace (0 + 4 * k + 3) with (3 + k * 4) by lia. rewrite Z.div_add by lia. change (3 / 4) with 0. lia.
  - replace (3 * k + 1 + 2) with (3 + k * 3) by lia. replace (4 * (3 * k + 1)) with (4 + 4 * k * 3) by lia. rewrite !Z.div_add by lia.
    change (4 / 3) with 1. change (3 / 3) with 1. replace (1 + 4 * k + 3) with (4 + k * 4) by lia. rewrite Z.div_add by lia. change (4 / 4) with 1. lia.
  - replace (3 * k + 2 + 2) with (4 + k * 3) by lia. replace (4 * (3 * k + 2)) with (8 + 4 * k * 3) by lia. rewrite !Z.div_add by lia.
    change (8 / 3) with 2. change (4 / 3) with 1. replace (2 + 4 * k + 3) with (5 + k * 4) by lia. rewrite Z.div_add by lia. change (5 / 4) with 1. lia.
Qed.

Lemma base64_roundtrip_witness : exists e, encode_base64 [102; 111; 111; 98] = Ok e /\ decode_base64 e = Ok [102; 111; 111; 98] /\ length e = 8%nat.
Proof.
  destruct (base64_roundtrip [102; 111; 111; 98]) as (e & E & D & L); [repeat apply Forall_cons_2; try apply Forall_nil_2; unfold byte; lia|done|].
  exists e. split; [exact E|]. split; [exact D|]. change (calculate_base64_encoded_length _) with 8 in L. lia.
Defined.
End Base64.

(** ** Hexadecimal digits *)
Section Hex.
Import Hex.

Lemma digits_ok x : byte x -> let c1 := decode_hex_digit (hex_digit (x / 16)) in let c2 := decode_hex_digit (hex_digit (x mod 16)) in
  c1 < 16 /\ c2 < 16 /\ wrap U8 (Z.shiftl c1 4 + c2) = x.
Proof.
  intros Hx. cbn zeta. pose proof (for_bytes (fun x => let c1 := decode_hex_digit (hex_digit (x / 16)) in let c2 := decode_hex_digit (hex_digit (x mod 16)) in
    (c1 <? 16) && (c2 <? 16) && (wrap U8 (Z.shiftl c1 4 + c2) =? x)) ltac:(vm_compute; reflexivity) x Hx) as H. cbn beta zeta in H. to_prop. done.
Qed.

Lemma encode_hex_cons x l : encode_hex (x :: l) = hex_digit (x / 16) :: hex_digit (x mod 16) :: encode_hex l.
Proof. done. Qed.

Lemma encode_hex_length l : length (encode_hex l) = (2 * length l)%nat.
Proof. induction l as [|x l IH]; [done|]. rewrite encode_hex_cons. cbn [length]. rewrite IH. lia. Qed.

Lemma decode_digits_encode l : Forall byte l -> decode_digits (encode_hex l) = Some l.
Proof.
  induction 1 as [|x l Hx _ IH]; [done|]. rewrite encode_hex_cons. cbn [decode_digits]. destruct (digits_ok x Hx) as (H1 & H2 & H3).
  rewrite (proj2 (Z.leb_gt 16 _)), (proj2 (Z.leb_gt 16 _)) by done. rewrite IH. cbn. by rewrite H3.
Qed.

Definition is_hex_digit (c : Z) : bool :=
  ((48 <=? c) && (c <=? 57)) || ((97 <=? c) && (c <=? 102)) || ((65 <=? c) && (c <=? 70)).

Lemma hex_digit_value c : (16 <=? decode_hex_digit c) = negb (is_hex_digit c).
Proof.
  unfold decode_hex_digit, is_hex_digit. destruct ((48 <=? c) && (c <=? 57)) eqn:E1; [to_prop; apply Z.leb_gt; lia|].
  destruct ((97 <=? c) && (c <=? 102)) eqn:E2; [to_prop; apply Z.leb_gt; lia|]. by destruct ((65 <=? c) && (c <=? 70)) eqn:E3; [to_prop; apply Z.leb_gt; lia|].
Qed.

Lemma decode_digits_total n s : (length s <= n)%nat -> Nat.even (length s) = true ->
  is_Some (decode_digits s) <-> forallb is_hex_digit s = true.
Proof.
  revert s. induction n as [|n IH]; intros s Hn He.
  - destruct s; [|cbn in Hn; lia]. cbn. split; [done|by eexists].
  - destruct s as [|d1 [|d2 s]]; [split; [done|by eexists]|done|]. cbn [decode_digits forallb]. rewrite !hex_digit_value.
    destruct (is_hex_digit d1); cbn; [|split; [by intros [? ?]|done]]. destruct (is_hex_digit d2); cbn; [|split; [by intros [? ?]|done]].
    rewrite fmap_is_Some. apply IH; [cbn in Hn; lia|done].
Qed.

(** Decoding what encoding gives, gives the bytes; and decoding fails exactly when the
    length is odd or a character is no digit. *)
Theorem hex_correct : (forall l, Forall byte l -> decode_hex (encode_hex l) = Some l) /\
  (forall s, decode_hex s = None <-> Nat.even (length s) = false \/ forallb is_hex_digit s = false).
Proof.
  assert (forall s : list Z, (Z.of_nat (length s) mod 2 =? 0) = Nat.even (length s)) as Heven.
  { intros s. rewrite <- Zeven_mod. destruct (Nat.even (length s)) eqn:E.
    - apply Nat.even_spec in E as [k ->]. rewrite Nat2Z.inj_mul. by rewrite Z.even_mul.
    - rewrite <- Nat.negb_odd, negb_false_iff in E. apply Nat.odd_spec in E as [k ->]. rewrite Nat2Z.inj_add, Nat2Z.inj_mul. rewrite Z.even_add, Z.even_mul. done. }
  split.
  - intros l Hl. unfold decode_hex. rewrite Heven, encode_hex_length. rewrite Nat.even_mul. cbn. by apply decode_digits_encode.
  - intros s. unfold decode_hex. rewrite Heven. destruct (Nat.even (length s)) eqn:E; cbn [negb]; [|split; [by left|done]].
    pose proof (decode_digits_total (length s) s ltac:(done) E) as H. destruct (decode_digits s) as [l|].
    + rewrite (proj1 H) by (by eexists). split; [done|]. by intros [?|?].
    + split; [|done]. intros _. right. destruct (forallb is_hex_digit s); [|done]. destruct (proj2 H eq_refl). done.
Qed.
End Hex.

(** Bits below others. *)
Lemma lor_low v k x : 0 <= k -> 0 <= x < 2 ^ k -> Z.lor (v * 2 ^ k) x = v * 2 ^ k + x.
Proof.
  intros Hk Hx. rewrite <- Z.add_lor_land. assert (Z.land (v * 2 ^ k) x = 0) as ->; [|lia].
  rewrite <- (Z.mod_small x (2 ^ k)) by done. rewrite <- Z.land_ones by lia. rewrite (Z.land_comm x), Z.land_assoc, Z.land_ones by lia.
  rewrite Z.mod_mul by lia. apply Z.land_0_l.
Qed.

(** ** UTF-8 *)
Section Utf8.
Import Utf8.

(** What the bytes of a code point say, for the bits [x] in them. *)
Lemma first_bytes x : byte x ->
  (x < 128 -> decode_first_byte x = Some (1%nat, x)) /\
  (x < 32 -> decode_first_byte (wrap U8 (Z.lor x 0xc0)) = Some (2%nat, x)) /\
  (x < 16 -> decode_first_byte (wrap U8 (Z.lor x 0xe0)) = Some (3%nat, x)) /\
  (x < 8 -> decode_first_byte (wrap U8 (Z.lor x 0xf0)) = Some (4%nat, x)) /\
  (x < 64 -> Z.shiftr (wrap U8 (Z.lor x 0x80)) 6 = 2 /\ Z.land (wrap U8 (Z.lor x 0x80)) 63 = x).
Proof.
  intros Hx. pose proof (for_bytes (fun x =>
    let says b n := match decode_first_byte b with Some (m, v) => (m =? n)%nat && (v =? x) | None => false end in
    (negb (x <? 128) || says x 1%nat) && (negb (x <? 32) || says (wrap U8 (Z.lor x 0xc0)) 2%nat) && (negb (x <? 16) || says (wrap U8 (Z.lor x 0xe0)) 3%nat) &&
    (negb (x <? 8) || says (wrap U8 (Z.lor x 0xf0)) 4%nat) &&
    (negb (x <? 64) || ((Z.shiftr (wrap U8 (Z.lor x 0x80)) 6 =? 2) && (Z.land (wrap U8 (Z.lor x 0x80)) 63 =? x)))) ltac:(vm_compute; reflexivity) x Hx) as H.
  cbn beta zeta in H. rewrite !andb_true_iff, !orb_true_iff, !negb_true_iff, !Z.ltb_ge in H. destruct H as ((((H1 & H2) & H3) & H4) & H5).
  assert (forall b n, match decode_first_byte b with Some (m, v) => (m =? n)%nat && (v =? x) | None => false end = true ->
    decode_first_byte b = Some (n, x)) as His.
  { intros b n. destruct (decode_first_byte b) as [[m v]|]; [|done]. intros [->%Nat.eqb_eq ->%Z.eqb_eq]%andb_true_iff. done. }
  split_and!; intros Hlt; [destruct H1|destruct H2|destruct H3|destruct H4|destruct H5 as [H5|H5]]; try lia; try (by apply His); to_prop; done.
Qed.

Lemma mask_range v k : 0 <= k -> 0 <= v -> Z.land v (Z.ones k) = v mod 2 ^ k /\ 0 <= v mod 2 ^ k < 2 ^ k.
Proof. intros Hk Hv. split; [by apply Z.land_ones|]. apply Z.mod_pos_bound. lia. Qed.

(** Six more bits. *)
Lemma six_more v x : 0 <= v < 2 ^ 26 -> 0 <= x < 64 -> Z.lor (wrap U32 (Z.shiftl v 6)) x = v * 64 + x.
Proof.
  intros Hv Hx. rewrite Z.shiftl_mul_pow2 by lia. assert (wrap U32 (v * 2 ^ 6) = v * 2 ^ 6) as -> by (apply wrap_id; [done|apply in_ty_spec; cbn; lia]).
  by rewrite lor_low by (cbn; lia).
Qed.

(** A byte of a code point: [k] bits of it with a mark. *)
Lemma marked code_point shift k mark : 0 <= code_point -> 0 <= shift -> 0 <= k ->
  wrap U8 (Z.lor (Z.land (Z.shiftr code_point shift) (Z.ones k)) mark) = wrap U8 (Z.lor (code_point / 2 ^ shift mod 2 ^ k) mark).
Proof. intros Hc Hs Hk. rewrite Z.shiftr_div_pow2 by lia. by rewrite Z.land_ones by lia. Qed.

Lemma mod_byte v k : 0 <= v -> 0 <= k <= 7 -> byte (v mod 2 ^ k) /\ v mod 2 ^ k < 2 ^ k.
Proof.
  intros Hv Hk. pose proof (Z.mod_pos_bound v (2 ^ k) ltac:(lia)). assert (2 ^ k <= 2 ^ 7) by (apply Z.pow_le_mono_r; lia).
  unfold byte. change (2 ^ 7) with 128 in *. lia.
Qed.

(** A continuation byte with the bits [x]. *)
Lemma continue_step n value x rest : 0 <= value < 2 ^ 26 -> byte x -> x < 64 ->
  continue_value (S n) value (wrap U8 (Z.lor x 0x80) :: rest) = continue_value n (value * 64 + x) rest /\
  continuation (S n) (wrap U8 (Z.lor x 0x80) :: rest) = continuation n rest.
Proof.
  intros Hv Hx H. destruct (first_bytes x Hx) as (_ & _ & _ & _ & H5). destruct (H5 H) as [E1 E2]. cbn [continue_value continuation].
  rewrite E1, E2, Z.eqb_refl. cbn [negb verify res_bind]. split; [|done]. f_equal. apply six_more; [done|]. unfold byte in Hx. lia.
Qed.

(** The bytes of a code point: the first says how many there are, and they give the
    code point back. *)
Lemma code_point_ok c : 0 <= c <= 0x10ffff ->
  exists b more value, append_code_point c = b :: more /\ decode_first_byte b = Some (S (length more), value) /\
    forall rest, continue_value (length more) value (more ++ rest) = Ok c /\ continuation (length more) (more ++ rest) = Some rest.
Proof.
  intros Hc. unfold append_code_point. destruct (Z.leb_spec c 0x7f).
  { assert (wrap U8 c = c) as -> by (apply wrap_id; [done|apply in_ty_spec; cbn; lia]). exists c, [], c. split; [done|]. split; [|done].
    destruct (first_bytes c) as [H1 _]; [unfold byte; lia|]. apply H1. lia. }
  change 0x3f with (Z.ones 6). change 0x1f with (Z.ones 5). change 0x0f with (Z.ones 4). change 0x07 with (Z.ones 3).
  rewrite !marked by lia. change (2 ^ 0) with 1. rewrite !Z.div_1_r. change (2 ^ 6) with 64. change (2 ^ 12) with 4096. change (2 ^ 18) with 262144.
  change (2 ^ 5) with 32. change (2 ^ 4) with 16. change (2 ^ 3) with 8.
  assert (forall v m, 0 <= v -> (m = 64 \/ m = 32 \/ m = 16 \/ m = 8) -> byte (v mod m) /\ v mod m < m) as Hm.
  { intros v m Hv Hm. pose proof (Z.mod_pos_bound v m ltac:(lia)). unfold byte. lia. }
  assert (0 <= c / 64) by (apply Z.div_pos; lia). assert (0 <= c / 4096) by (apply Z.div_pos; lia). assert (0 <= c / 262144) by (apply Z.div_pos; lia).
  destruct (Hm c 64) as [B0 L0]; [lia|lia|]. destruct (Hm (c / 64) 64) as [B1 L1]; [lia|lia|]. destruct (Hm (c / 4096) 64) as [B2 L2]; [lia|lia|].
  assert (c / 64 / 64 = c / 4096) as D1 by (rewrite Z.div_div by lia; done). assert (c / 4096 / 64 = c / 262144) as D2 by (rewrite Z.div_div by lia; done).
  pose proof (Z.div_mod c 64 ltac:(lia)) as M0. pose proof (Z.div_mod (c / 64) 64 ltac:(lia)) as M1. pose proof (Z.div_mod (c / 4096) 64 ltac:(lia)) as M2.
  rewrite D1 in M1. rewrite D2 in M2. unfold byte in *.
  destruct (Z.leb_spec c 0x7ff); [|destruct (Z.leb_spec c 0xffff); [|rewrite (proj2 (Z.leb_le c 0x10ffff)) by lia]]; do 3 eexists; (split; [done|]).
  - destruct (first_bytes (c / 64 mod 32)) as (_ & F2 & _); [unfold byte; destruct (Hm (c / 64) 32); lia|].
    split; [apply F2; apply Hm; lia|]. rewrite (Z.mod_small (c / 64) 32) by (split; [lia|apply Z.div_lt_upper_bound; lia]).
    intros rest. cbn [length app]. destruct (continue_step 0 (c / 64) (c mod 64) rest) as [-> ->]; [split; [lia|apply Z.div_lt_upper_bound; lia]|done|done|].
    cbn. split; [f_equal; lia|done].
  - destruct (first_bytes (c / 4096 mod 16)) as (_ & _ & F3 & _); [unfold byte; destruct (Hm (c / 4096) 16); lia|].
    split; [apply F3; apply Hm; lia|]. rewrite (Z.mod_small (c / 4096) 16) by (split; [lia|apply Z.div_lt_upper_bound; lia]).
    intros rest. cbn [length app]. destruct (continue_step 1 (c / 4096) (c / 64 mod 64) (wrap U8 (Z.lor (c mod 64) 0x80) :: rest)) as [-> ->]; [lia|done|done|].
    destruct (continue_step 0 (c / 4096 * 64 + c / 64 mod 64) (c mod 64) rest) as [-> ->]; [lia|done|done|]. cbn. split; [f_equal; lia|done].
  - destruct (first_bytes (c / 262144 mod 8)) as (_ & _ & _ & F4 & _); [unfold byte; destruct (Hm (c / 262144) 8); lia|].
    split; [apply F4; apply Hm; lia|]. rewrite (Z.mod_small (c / 262144) 8) by (split; [lia|apply Z.div_lt_upper_bound; lia]).
    intros rest. cbn [length app].
    destruct (continue_step 2 (c / 262144) (c / 4096 mod 64) (wrap U8 (Z.lor (c / 64 mod 64) 0x80) :: wrap U8 (Z.lor (c mod 64) 0x80) :: rest)) as [-> ->]; [lia|done|done|].
    destruct (continue_step 1 (c / 262144 * 64 + c / 4096 mod 64) (c / 64 mod 64) (wrap U8 (Z.lor (c mod 64) 0x80) :: rest)) as [-> ->]; [lia|done|done|].
    destruct (continue_step 0 ((c / 262144 * 64 + c / 4096 mod 64) * 64 + c / 64 mod 64) (c mod 64) rest) as [-> ->]; [lia|done|done|]. cbn. split; [f_equal; lia|done].
Qed.

(** What validate accepts can be read. *)
Lemma continuation_ok n rest rest' : continuation n rest = Some rest' ->
  rest' = drop n rest /\ (n <= length rest)%nat /\ forall value, exists v, continue_value n value rest = Ok v.
Proof.
  revert rest. induction n as [|n IH]; intros rest; cbn; [intros [= <-]; split_and!; [done|lia|by eexists]|].
  destruct rest as [|b rest]; [done|]. destruct (Z.shiftr b 6 =? 2) eqn:E; cbn [negb]; [|done].
  intros (-> & Hl & Hv)%IH. split_and!; [done|cbn; lia|]. intros value. cbn. apply Hv.
Qed.

Lemma first_length b n v : decode_first_byte b = Some (n, v) -> (1 <= n)%nat.
Proof. unfold decode_first_byte. repeat case_if; intros [= <- _]; lia. Qed.

Lemma validate_loop_ok turns s valid : (length s <= turns)%nat ->
  exists ok n, validate_loop turns s valid = Ok (ok, n) /\
    (ok = true -> n = (valid + length s)%nat /\ forall m, (length s <= m)%nat -> exists l, code_points m s = Ok l).
Proof.
  revert s valid. induction turns as [|turns IH]; intros s valid Hl.
  { destruct s; [|cbn in Hl; lia]. exists true, valid. split; [done|]. intros _. split; [cbn; lia|]. intros [|m] _; by eexists. }
  destruct s as [|b s]. { exists true, valid. split; [done|]. intros _. split; [cbn; lia|]. intros [|m] _; by eexists. }
  cbn [validate_loop]. destruct (decode_first_byte b) as [[n v]|] eqn:Eb; [|by eexists _, _].
  pose proof (first_length _ _ _ Eb) as Hn. destruct (continuation (n - 1) s) as [rest|] eqn:Ec; [|by eexists _, _].
  apply continuation_ok in Ec as (-> & Hs & Hv). destruct (IH (drop (n - 1) s) (valid + n)%nat) as (ok & k & E & Hok).
  { rewrite length_drop. cbn in Hl. lia. }
  exists ok, k. split; [done|]. intros H. destruct (Hok H) as [-> Hm]. rewrite length_drop. cbn [length]. split; [lia|].
  intros m Hlm. destruct m as [|m]; [lia|]. cbn [code_points deref next]. rewrite Eb. cbn [of_opt res_bind].
  assert ((n <=? length (b :: s)) = true)%nat as -> by (apply Nat.leb_le; cbn; lia). cbn [verify res_bind].
  destruct (Hv v) as [c ->]. cbn [res_bind]. replace (drop n (b :: s)) with (drop (n - 1) s) by (destruct n; [lia|cbn; f_equal; lia]).
  destruct (Hm m) as [l ->]; [rewrite length_drop; lia|]. cbn. by eexists.
Qed.

(** Validate always answers, and the code points of what it accepts are read without a
    failed assertion. *)
Theorem utf8_validated_readable s : exists ok n, validate s = Ok (ok, n) /\
  (ok = true -> n = length s /\ exists l, code_points (length s) s = Ok l /\ calculate_length s = Ok (Z.of_nat (length l))).
Proof.
  destruct (validate_loop_ok (length s) s 0 ltac:(done)) as (ok & n & E & H). exists ok, n. split; [done|]. intros Hok.
  destruct (H Hok) as [-> Hm]. split; [done|]. destruct (Hm (length s) ltac:(done)) as [l El]. exists l. split; [done|].
  unfold calculate_length. by rewrite El.
Qed.

Definition text (l : list Z) : list Z := concat (map append_code_point l).

Lemma text_loops l turns m valid : Forall (fun c => 0 <= c <= 0x10ffff) l -> (length (text l) <= turns)%nat -> (length (text l) <= m)%nat ->
  code_points turns (text l) = Ok l /\ validate_loop m (text l) valid = Ok (true, (valid + length (text l))%nat).
Proof.
  intros Hl. revert turns m valid. induction Hl as [|c l Hc _ IH]; intros turns m valid Ht Hm.
  { split; [by destruct turns|]. destruct m; cbn; by rewrite Nat.add_0_r. }
  change (text (c :: l)) with (append_code_point c ++ text l) in *. destruct (code_point_ok c Hc) as (b & more & v & E & Eb & Hrest).
  rewrite E in *. destruct (Hrest (text l)) as [Hv Hcont]. rewrite length_app in Ht, Hm. cbn [length] in Ht, Hm.
  destruct turns as [|turns]; [lia|]. destruct m as [|m]; [lia|]. destruct (IH turns m (valid + S (length more))%nat ltac:(lia) ltac:(lia)) as [E1 E2].
  split.
  - cbn [app code_points deref next]. rewrite Eb. cbn [of_opt res_bind].
    assert ((S (length more) <=? length (b :: more ++ text l)) = true)%nat as -> by (apply Nat.leb_le; cbn; rewrite length_app; lia).
    cbn [verify res_bind drop]. replace (S (length more) - 1)%nat with (length more) by lia. rewrite Hv. cbn [res_bind]. rewrite drop_app_length, E1. done.
  - cbn [app validate_loop]. rewrite Eb. replace (S (length more) - 1)%nat with (length more) by lia. rewrite Hcont, E2.
    do 2 f_equal. cbn [length]. rewrite length_app. lia.
Qed.

(** Reading the code points of a text that was built from code points gives them back,
    and the text is valid. *)
Theorem utf8_roundtrip l : Forall (fun c => 0 <= c <= 0x10ffff) l ->
  code_points (length (text l)) (text l) = Ok l /\ validate (text l) = Ok (true, length (text l)).
Proof. intros Hl. by apply (text_loops l _ _ 0). Qed.

Lemma utf8_roundtrip_witness : text [0x41; 0xe9; 0x20ac; 0x1f600] = [0x41; 0xc3; 0xa9; 0xe2; 0x82; 0xac; 0xf0; 0x9f; 0x98; 0x80] /\
  code_points 10 (text [0x41; 0xe9; 0x20ac; 0x1f600]) = Ok [0x41; 0xe9; 0x20ac; 0x1f600].
Proof.
  split; [vm_compute; reflexivity|]. apply (utf8_roundtrip [0x41; 0xe9; 0x20ac; 0x1f600]). repeat apply Forall_cons_2; try apply Forall_nil_2; lia.
Defined.

(** Longer forms than needed, surrogates and values above the last code point are
    accepted. *)
Theorem utf8_accepts_too_much :
  validate [0xc0; 0x80] = Ok (true, 2%nat) /\ code_points 2 [0xc0; 0x80] = Ok [0] /\
  validate [0xed; 0xa0; 0x80] = Ok (true, 3%nat) /\ code_points 3 [0xed; 0xa0; 0x80] = Ok [0xd800] /\
  validate [0xf7; 0xbf; 0xbf; 0xbf] = Ok (true, 4%nat) /\ code_points 4 [0xf7; 0xbf; 0xbf; 0xbf] = Ok [0x1fffff].
Proof. vm_compute. done. Qed.
End Utf8.

(** ** LEB128 *)
Section Leb128.
Import Leb128.

(** What the bytes of a number say. *)
Fixpoint leb_value (l : list Z) : Z :=
  match l with
  | [] => 0
  | b :: l => Z.land b 0x7f + 128 * leb_value l
  end.

(** All bytes but the last have the mark that more follow. *)
Definition leb_bytes (l : list Z) (last : Z) : Prop := Forall (fun b => byte b /\ Z.land b 0x80 <> 0) l /\ byte last /\ Z.land last 0x80 = 0.

Lemma byte_low_bits b : byte b -> 0 <= Z.land b 0x7f < 128.
Proof. intros _. change 0x7f with (Z.ones 7). rewrite Z.land_ones by lia. by apply Z.mod_pos_bound. Qed.

Lemma shifted_in result x n : 0 <= n -> 7 * n < 32 -> 0 <= result < 2 ^ (7 * n) -> 0 <= x ->
  Z.lor result (wrap U32 (Z.shiftl x (n * 7))) = wrap U32 (result + x * 2 ^ (7 * n)).
Proof.
  intros Hn Hn' Hr Hx. rewrite Z.shiftl_mul_pow2 by lia. rewrite (Z.mul_comm n 7). set (a := 7 * n) in *.
  assert (wrap U32 (x * 2 ^ a) = x mod 2 ^ (32 - a) * 2 ^ a) as E.
  { unfold wrap. cbn [bits tmin is_signed U32]. rewrite Z.sub_0_r, Z.add_0_r. replace (2 ^ 32) with (2 ^ (32 - a) * 2 ^ a) by (rewrite <- Z.pow_add_r by lia; f_equal; lia).
    apply Z.mul_mod_distr_r; lia. }
  rewrite E, Z.lor_comm, lor_low by lia. unfold wrap. cbn [bits tmin is_signed U32]. rewrite Z.sub_0_r, Z.add_0_r.
  pose proof (Z.mod_pos_bound x (2 ^ (32 - a)) ltac:(lia)) as Hm.
  assert (2 ^ 32 = 2 ^ (32 - a) * 2 ^ a) as E32 by (rewrite <- Z.pow_add_r by lia; f_equal; lia).
  apply Z.mod_unique with (q := x / 2 ^ (32 - a)).
  - left. rewrite E32. nia.
  - rewrite E32. rewrite (Z.div_mod x (2 ^ (32 - a))) at 1 by lia. nia.
Qed.

Lemma read_unsigned_loop_ok l last rest result n : leb_bytes l last -> 0 <= n -> (n + Z.of_nat (length l)) * 7 < 32 -> 0 <= result < 2 ^ (7 * n) ->
  read_unsigned_loop U32 (l ++ last :: rest) result n = Ok (Some (wrap U32 (result + leb_value (l ++ [last]) * 2 ^ (7 * n)), rest)).
Proof.
  intros (Hl & Hlast & Hend). revert result n. induction Hl as [|b l [Hb Hmark] Hl IH]; intros result n Hn Hlen Hr; cbn [app read_unsigned_loop leb_value].
  - unfold shifted. rewrite (proj2 (Z.ltb_lt _ (bits U32))) by (cbn in *; lia). cbn [defined res_bind]. rewrite Hend, Z.eqb_refl.
    change (unsigned U32) with U32. rewrite shifted_in by (cbn in *; lia || apply byte_low_bits, Hlast). do 4 f_equal. lia.
  - cbn [length] in Hlen. unfold shifted. rewrite (proj2 (Z.ltb_lt _ (bits U32))) by (cbn in *; lia). cbn [defined res_bind].
    rewrite (proj2 (Z.eqb_neq _ 0) Hmark). change (unsigned U32) with U32. pose proof (byte_low_bits b Hb) as Hlow.
    rewrite shifted_in by (cbn in *; lia). set (x := Z.land b 127) in *.
    assert (2 ^ (7 * (n + 1)) = 128 * 2 ^ (7 * n)) as Hp by (replace (7 * (n + 1)) with (7 + 7 * n) by lia; rewrite Z.pow_add_r by lia; done).
    assert (2 ^ (7 * (n + 1)) <= 2 ^ 28) as Hp2 by (apply Z.pow_le_mono_r; lia).
    assert (0 <= result + x * 2 ^ (7 * n) < 2 ^ (7 * (n + 1))) as Hnew by nia.
    rewrite (wrap_id U32 (result + x * 2 ^ (7 * n))) by (done || (apply in_ty_spec; cbn; lia)). rewrite IH by lia. do 4 f_equal. rewrite Hp. ring.
Qed.

(** A number of at most five bytes is read with its value modulo 2^32, and the stream
    is left after it; a stream that ends before the number does is an error. *)
Theorem leb128_read_unsigned l last rest : leb_bytes l last -> (length l <= 4)%nat ->
  read_unsigned U32 (l ++ last :: rest) = Ok (Some (wrap U32 (leb_value (l ++ [last])), rest)) /\ read_unsigned U32 l = Ok None.
Proof.
  intros Hl Hlen. unfold read_unsigned. split; [rewrite read_unsigned_loop_ok by (done || lia); do 4 f_equal; lia|].
  destruct Hl as [Hl _]. assert (forall n result, 0 <= n -> (n + Z.of_nat (length l) - 1) * 7 < 32 -> read_unsigned_loop U32 l result n = Ok None) as H; [|apply H; lia].
  clear Hlen. induction Hl as [|b l [Hb Hmark] _ IH]; intros n result Hn Hlen; [done|]. cbn [read_unsigned_loop length] in *. unfold shifted.
  rewrite (proj2 (Z.ltb_lt _ (bits U32))) by (cbn in *; lia). cbn [defined res_bind]. rewrite (proj2 (Z.eqb_neq _ 0) Hmark). apply IH; lia.
Qed.

(** Six bytes are shifted by more than the width, which is undefined; and negative
    numbers of more than two bytes are read as positive ones: -20000 as 2077152. *)
Theorem leb128_defects :
  read_unsigned U32 [0x80; 0x80; 0x80; 0x80; 0x80; 0x00] = Fault UndefinedBehaviour /\
  read_signed I32 [0xff; 0x7e] = Ok (Some (-129, [])) /\ read_signed I32 [0xe0; 0xe3; 0x7e] = Ok (Some (2077152, [])).
Proof. vm_compute. done. Qed.

Lemma leb128_read_unsigned_witness : leb_bytes [0xe5; 0x8e] 0x26 /\ read_unsigned U32 [0xe5; 0x8e; 0x26; 7] = Ok (Some (624485, [7])).
Proof.
  assert (leb_bytes [0xe5; 0x8e] 0x26) as H by (split; [repeat apply Forall_cons_2; [..|apply Forall_nil_2]; (split; [unfold byte; lia|done])|split; [unfold byte; lia|done]]).
  split; [exact H|]. destruct (leb128_read_unsigned [0xe5; 0x8e] 0x26 [7] H ltac:(cbn; lia)) as [E _]. exact E.
Defined.
End Leb128.
End CodecFacts.
