(* ===== verification/RedBlackTree.v ===== *)
(** * AK/RedBlackTree.h: red-black trees with parent pointers

    The nodes live in a store, a pointer is the address of a node or null, and
    every assignment of the code is one update of the store.  Following a null
    or dangling pointer is undefined behaviour.  The code contains each
    rebalancing step twice, once for the left and once for the right; both copies
    are the same code with the children exchanged, and the model has one
    definition with a [side], instantiated for each copy.

    [RedBlackTree] holds the operations.  The lemmas about them are in
    RedBlackFacts. *)

From stdpp Require Import gmap.
From S2P Require Import Prelude.

Module RedBlackTree.

Definition ptr := positive.

Inductive Color := Red | Black.

#[global] Instance Color_eq_dec : EqDecision Color.
Proof. solve_decision. Defined.

Inductive side := L | R.

Definition opp (s : side) : side := match s with L => R | R => L end.

Section RedBlackTree.
Context {V : Type}.

(** [BaseRedBlackTree::Node] with the value [RedBlackTree::Node] adds to it. *)
Record Node := mkNode {
  left_child : option ptr;
  right_child : option ptr;
  parent : option ptr;
  color : Color;
  key : Z;
  value : V;
}.

Definition new_node (k : Z) (v : V) : Node := mkNode None None None Red k v.

Record RedBlackTree := mkRedBlackTree {
  store : gmap ptr Node;
  m_root : option ptr;
  m_size : Z;
  m_minimum : option ptr;
}.

Definition empty_tree : RedBlackTree := mkRedBlackTree ∅ None 0 None.

Definition is_empty (t : RedBlackTree) : bool := m_size t =? 0.

(** The fields of a node and of the tree, read and assigned. *)

Definition child (s : side) (n : Node) : option ptr :=
  match s with L => left_child n | R => right_child n end.

Definition with_child (s : side) (c : option ptr) (n : Node) : Node :=
  match s with
  | L => mkNode c (right_child n) (parent n) (color n) (key n) (value n)
  | R => mkNode (left_child n) c (parent n) (color n) (key n) (value n)
  end.

Definition with_parent (p : option ptr) (n : Node) : Node :=
  mkNode (left_child n) (right_child n) p (color n) (key n) (value n).

Definition with_color (c : Color) (n : Node) : Node :=
  mkNode (left_child n) (right_child n) (parent n) c (key n) (value n).

Definition with_store (t : RedBlackTree) (st : gmap ptr Node) : RedBlackTree :=
  mkRedBlackTree st (m_root t) (m_size t) (m_minimum t).
Definition with_root (t : RedBlackTree) (p : option ptr) : RedBlackTree :=
  mkRedBlackTree (store t) p (m_size t) (m_minimum t).
Definition with_size (t : RedBlackTree) (n : Z) : RedBlackTree :=
  mkRedBlackTree (store t) (m_root t) n (m_minimum t).
Definition with_minimum (t : RedBlackTree) (p : option ptr) : RedBlackTree :=
  mkRedBlackTree (store t) (m_root t) (m_size t) p.

Definition deref (t : RedBlackTree) (p : option ptr) : res Node :=
  of_opt UndefinedBehaviour (a ← p; store t !! a).

Definition modify (t : RedBlackTree) (p : option ptr) (f : Node -> Node) : res RedBlackTree :=
  let* a := of_opt UndefinedBehaviour p in
  let* n := deref t p in
  Ok (with_store t (<[a := f n]> (store t))).

(** [p && p->color == Red], and its negation as the code writes it. *)
Definition is_red (t : RedBlackTree) (p : option ptr) : res bool :=
  match p with
  | None => Ok false
  | Some _ => let* n := deref t p in Ok (bool_decide (color n = Red))
  end.

Definition is_black (t : RedBlackTree) (p : option ptr) : res bool :=
  let* b := is_red t p in Ok (negb b).

(** Loops run with more turns than there are nodes. *)
Definition turns (t : RedBlackTree) : nat := S (S (size (store t))).

(** ** Rotations *)

(** Stage 3 of a rotation, and the same code elsewhere: whoever pointed at [old]
    as the child of [p], or as the root, points at [new] now. *)
Definition replace_child (t : RedBlackTree) (p old new : option ptr) : res RedBlackTree :=
  match p with
  | None => Ok (with_root t new)
  | Some _ =>
      let* n := deref t p in
      if bool_decide (left_child n = old) then modify t p (with_child L new)
      else modify t p (with_child R new)
  end.

(** [rotate L] is [rotate_left], [rotate R] is [rotate_right]. *)
Definition rotate (s : side) (t : RedBlackTree) (subtree_root : option ptr) : res RedBlackTree :=
  VERIFY bool_decide (subtree_root <> None) ;;
  let* n := deref t subtree_root in
  let pivot := child (opp s) n in
  VERIFY bool_decide (pivot <> None) ;;
  let parent_ := parent n in
  let* pn := deref t pivot in
  let* t := modify t subtree_root (with_child (opp s) (child s pn)) in
  let* n := deref t subtree_root in
  let* t := match child (opp s) n with
            | Some _ => modify t (child (opp s) n) (with_parent subtree_root)
            | None => Ok t
            end in
  let* t := modify t pivot (with_child s subtree_root) in
  let* t := modify t subtree_root (with_parent pivot) in
  let* t := modify t pivot (with_parent parent_) in
  replace_child t parent_ subtree_root pivot.

Definition rotate_left := rotate L.
Definition rotate_right := rotate R.

(** ** Searches *)

Fixpoint find_loop (fuel : nat) (t : RedBlackTree) (node : option ptr) (k : Z) : res (option ptr) :=
  match fuel with
  | O => Fault OutOfFuel
  | S fuel =>
      match node with
      | None => Ok None
      | Some _ =>
          let* n := deref t node in
          if key n =? k then Ok node
          else if k <? key n then find_loop fuel t (left_child n) k
          else find_loop fuel t (right_child n) k
      end
  end.

Definition find_node (t : RedBlackTree) (node : option ptr) (k : Z) : res (option ptr) :=
  find_loop (turns t) t node k.

Fixpoint not_above_loop (fuel : nat) (t : RedBlackTree) (node candidate : option ptr) (k : Z) : res (option ptr) :=
  match fuel with
  | O => Fault OutOfFuel
  | S fuel =>
      match node with
      | None => Ok candidate
      | Some _ =>
          let* n := deref t node in
          if k =? key n then Ok node
          else if k <? key n then not_above_loop fuel t (left_child n) candidate k
          else not_above_loop fuel t (right_child n) node k
      end
  end.

Definition find_node_not_above (t : RedBlackTree) (node : option ptr) (k : Z) : res (option ptr) :=
  not_above_loop (turns t) t node None k.

(** The two loops of [successor] ([L]: down to the left, up from the right) and of
    [predecessor] ([R]). *)
Fixpoint descend (s : side) (fuel : nat) (t : RedBlackTree) (node : option ptr) : res (option ptr) :=
  match fuel with
  | O => Fault OutOfFuel
  | S fuel =>
      let* n := deref t node in
      match child s n with
      | Some _ => descend s fuel t (child s n)
      | None => Ok node
      end
  end.

Fixpoint ascend (s : side) (fuel : nat) (t : RedBlackTree) (node temp : option ptr) : res (option ptr) :=
  match fuel with
  | O => Fault OutOfFuel
  | S fuel =>
      match temp with
      | None => Ok None
      | Some _ =>
          let* n := deref t temp in
          if bool_decide (node = child (opp s) n) then ascend s fuel t temp (parent n)
          else Ok temp
      end
  end.

Definition neighbour (s : side) (t : RedBlackTree) (node : option ptr) : res (option ptr) :=
  VERIFY bool_decide (node <> None) ;;
  let* n := deref t node in
  match child (opp s) n with
  | Some _ => descend s (turns t) t (child (opp s) n)
  | None => ascend s (turns t) t node (parent n)
  end.

Definition successor := neighbour L.
Definition predecessor := neighbour R.

(** ** Insertion *)

(** One turn of the loop of [insert_fixups] whose parent is red; [s] is the side
    of the grandparent the parent is on.  The result is the next [node]. *)
Definition insert_fixup (s : side) (t : RedBlackTree) (node parent_ grand_parent : option ptr)
    : res (RedBlackTree * option ptr) :=
  let* g := deref t grand_parent in
  let uncle := child (opp s) g in
  let* uncle_red := is_red t uncle in
  if (uncle_red : bool) then
    let* t := modify t parent_ (with_color Black) in
    let* t := modify t uncle (with_color Black) in
    let* t := modify t grand_parent (with_color Red) in
    Ok (t, grand_parent)
  else
    let* p := deref t parent_ in
    let* (t, node) :=
      if bool_decide (child (opp s) p = node) then
        let* t := rotate s t parent_ in Ok (t, parent_)
      else Ok (t, node) in
    let* n := deref t node in
    let* t := modify t (parent n) (with_color Black) in
    let* t := modify t grand_parent (with_color Red) in
    let* t := rotate (opp s) t grand_parent in
    Ok (t, node).

Fixpoint insert_fixups_loop (fuel : nat) (t : RedBlackTree) (node : option ptr) : res RedBlackTree :=
  match fuel with
  | O => Fault OutOfFuel
  | S fuel =>
      let* n := deref t node in
      let* parent_red := is_red t (parent n) in
      if (parent_red : bool) then
        let* p := deref t (parent n) in
        let grand_parent := parent p in
        let* g := deref t grand_parent in
        let s := if bool_decide (right_child g = parent n) then R else L in
        let* (t, node) := insert_fixup s t node (parent n) grand_parent in
        insert_fixups_loop fuel t node
      else modify t (m_root t) (with_color Black)
  end.

Definition insert_fixups (t : RedBlackTree) (node : option ptr) : res RedBlackTree :=
  VERIFY bool_decide (node <> None) ;;
  let* n := deref t node in
  VERIFY bool_decide (color n = Red) ;;
  insert_fixups_loop (turns t) t node.

(** The loop that finds the [parent] of a new node. *)
Fixpoint insert_position (fuel : nat) (t : RedBlackTree) (parent_ temp : option ptr) (k : Z) : res (option ptr) :=
  match fuel with
  | O => Fault OutOfFuel
  | S fuel =>
      match temp with
      | None => Ok parent_
      | Some _ =>
          let* n := deref t temp in
          if k <? key n then insert_position fuel t temp (left_child n) k
          else insert_position fuel t temp (right_child n) k
      end
  end.

(** [BaseRedBlackTree::insert] *)
Definition insert_node (t : RedBlackTree) (node : option ptr) : res RedBlackTree :=
  VERIFY bool_decide (node <> None) ;;
  let* n := deref t node in
  let* parent_ := insert_position (turns t) t None (m_root t) (key n) in
  match parent_ with
  | None =>
      let* t := modify t node (with_color Black) in
      Ok (mkRedBlackTree (store t) node 1 node)
  | Some _ =>
      let* p := deref t parent_ in
      let* t := modify t parent_ (with_child (if key n <? key p then L else R) node) in
      let* t := modify t node (with_parent parent_) in
      let* p := deref t parent_ in
      let* t := match parent p with
                | Some _ => insert_fixups t node
                | None => Ok t
                end in
      let t := with_size t (wrap size_t (m_size t + 1)) in
      let* m := deref t (m_minimum t) in
      Ok (if bool_decide (left_child m = node) then with_minimum t node else t)
  end.

(** ** Removal *)

(** [sibling] of [remove_fixups] after the case of a red sibling. *)
Definition black_sibling (s : side) (t : RedBlackTree) (parent_ : option ptr) : res (RedBlackTree * option ptr) :=
  let* p := deref t parent_ in
  let sibling := child (opp s) p in
  let* b := deref t sibling in
  if bool_decide (color b = Red) then
    let* t := modify t sibling (with_color Black) in
    let* t := modify t parent_ (with_color Red) in
    let* t := rotate s t parent_ in
    let* p := deref t parent_ in
    Ok (t, child (opp s) p)
  else Ok (t, sibling).

(** One turn of the loop of [remove_fixups]; [s] is the side of [parent_] that
    [node] is on.  The result is the next [node]. *)
Definition remove_fixup (s : side) (t : RedBlackTree) (parent_ : option ptr) : res (RedBlackTree * option ptr) :=
  let* (t, sibling) := black_sibling s t parent_ in
  let* b := deref t sibling in
  let* near_black := is_black t (child s b) in
  let* far_black := is_black t (child (opp s) b) in
  if near_black && far_black then
    let* t := modify t sibling (with_color Red) in
    Ok (t, parent_)
  else
    let* (t, sibling) :=
      if (far_black : bool) then
        let* t := modify t (child s b) (with_color Black) in
        let* t := modify t sibling (with_color Red) in
        let* t := rotate (opp s) t sibling in
        let* p := deref t parent_ in
        Ok (t, child (opp s) p)
      else Ok (t, sibling) in
    let* p := deref t parent_ in
    let* t := modify t sibling (with_color (color p)) in
    let* t := modify t parent_ (with_color Black) in
    let* b := deref t sibling in
    let* t := modify t (child (opp s) b) (with_color Black) in
    let* t := rotate s t parent_ in
    Ok (t, m_root t).

Fixpoint remove_fixups (fuel : nat) (t : RedBlackTree) (node parent_ : option ptr) : res RedBlackTree :=
  match fuel with
  | O => Fault OutOfFuel
  | S fuel =>
      let* black := if bool_decide (node <> m_root t) then is_black t node else Ok false in
      if (black : bool) then
        let* p := deref t parent_ in
        let s := if bool_decide (left_child p = node) then L else R in
        let* (t, node) := remove_fixup s t parent_ in
        let* n := deref t node in
        remove_fixups fuel t node (parent n)
      else modify t node (with_color Black)
  end.

(** Exchanging the places of a node with two children and its successor, pointer
    by pointer. *)
Definition relink_with_successor (t : RedBlackTree) (node : option ptr) : res RedBlackTree :=
  let* successor_node := successor t node in
  let* sn := deref t successor_node in
  let neighbour_swap := bool_decide (parent sn = node) in
  let* n := deref t node in
  let* t := modify t (left_child n) (with_parent successor_node) in
  let* t := if neighbour_swap then Ok t
            else let* n := deref t node in modify t (right_child n) (with_parent successor_node) in
  let* n := deref t node in
  let* t := replace_child t (parent n) node successor_node in
  let* sn := deref t successor_node in
  let* t := match right_child sn with
            | Some _ => modify t (right_child sn) (with_parent node)
            | None => Ok t
            end in
  let* t :=
    if neighbour_swap then
      let* n := deref t node in
      let* t := modify t successor_node (with_parent (parent n)) in
      modify t node (with_parent successor_node)
    else
      let* sn := deref t successor_node in
      let* t := replace_child t (parent sn) successor_node node in
      let* n := deref t node in
      let* sn := deref t successor_node in
      let* t := modify t node (with_parent (parent sn)) in
      modify t successor_node (with_parent (parent n)) in
  let* n := deref t node in
  let* sn := deref t successor_node in
  let* t := modify t node (with_child L (left_child sn)) in
  let* t := modify t successor_node (with_child L (left_child n)) in
  let* n := deref t node in
  let* sn := deref t successor_node in
  let* t := modify t node (with_child R (right_child sn)) in
  let* t := modify t successor_node (with_child R (if neighbour_swap then node else right_child n)) in
  let* n := deref t node in
  let* sn := deref t successor_node in
  let* t := modify t node (with_color (color sn)) in
  modify t successor_node (with_color (color n)).

(** The second half of [BaseRedBlackTree::remove]: the only child of the node, if
    any, takes its place. *)
Definition take_out (t : RedBlackTree) (node : option ptr) : res RedBlackTree :=
  let* n := deref t node in
  let child_ := match left_child n with Some c => Some c | None => right_child n end in
  let* t := match child_ with
            | Some _ => modify t child_ (with_parent (parent n))
            | None => Ok t
            end in
  let* t := replace_child t (parent n) node child_ in
  let* n := deref t node in
  let* t := match color n with
            | Red => Ok t
            | Black => remove_fixups (turns t) t child_ (parent n)
            end in
  Ok (with_size t (wrap size_t (m_size t - 1))).

(** [BaseRedBlackTree::remove]; the node stays in the store. *)
Definition remove_node (t : RedBlackTree) (node : option ptr) : res RedBlackTree :=
  VERIFY bool_decide (node <> None) ;;
  if m_size t =? 1 then Ok (mkRedBlackTree (store t) None 0 (m_minimum t))
  else
    let* t := if bool_decide (m_minimum t = node)
              then let* s := successor t node in Ok (with_minimum t s)
              else Ok t in
    let* n := deref t node in
    let* t := match left_child n, right_child n with
              | Some _, Some _ => relink_with_successor t node
              | _, _ => Ok t
              end in
    take_out t node.

(** ** The operations of [RedBlackTree] *)

(** The destructor of a node deletes its children first. *)
Fixpoint delete_node (fuel : nat) (t : RedBlackTree) (node : option ptr) : res RedBlackTree :=
  match fuel with
  | O => Fault OutOfFuel
  | S fuel =>
      let* a := of_opt UndefinedBehaviour node in
      let* n := deref t node in
      let* t := match left_child n with Some _ => delete_node fuel t (left_child n) | None => Ok t end in
      let* n := deref t node in
      let* t := match right_child n with Some _ => delete_node fuel t (right_child n) | None => Ok t end in
      Ok (with_store t (delete a (store t)))
  end.

(** A pointer to the value of a node is the pointer to the node. *)
Definition find (t : RedBlackTree) (k : Z) : res (option ptr) := find_node t (m_root t) k.

Definition find_largest_not_above (t : RedBlackTree) (k : Z) : res (option ptr) :=
  find_node_not_above t (m_root t) k.

(** [a] is the address [new] returns. *)
Definition insert (t : RedBlackTree) (a : ptr) (k : Z) (v : V) : res RedBlackTree :=
  insert_node (with_store t (<[a := new_node k v]> (store t))) (Some a).

(** What [remove] and [unsafe_remove] do with the node they found. *)
Definition unlink (t : RedBlackTree) (node : option ptr) : res RedBlackTree :=
  let* t := remove_node t node in
  let* t := modify t node (with_child R None) in
  let* t := modify t node (with_child L None) in
  delete_node (turns t) t node.

Definition remove (t : RedBlackTree) (k : Z) : res (RedBlackTree * bool) :=
  let* node := find_node t (m_root t) k in
  match node with
  | None => Ok (t, false)
  | Some _ => let* t := unlink t node in Ok (t, true)
  end.

Definition unsafe_remove (t : RedBlackTree) (k : Z) : res (RedBlackTree * V) :=
  let* node := find_node t (m_root t) k in
  VERIFY bool_decide (node <> None) ;;
  let* n := deref t node in
  let* t := unlink t node in
  Ok (t, value n).

Definition clear (t : RedBlackTree) : res RedBlackTree :=
  let* t := match m_root t with
            | Some _ => let* t := delete_node (turns t) t (m_root t) in Ok (with_root t None)
            | None => Ok t
            end in
  Ok (with_size (with_minimum t None) 0).

(** Iteration: [m_node] and [m_prev] of an iterator. *)
Definition iterator : Type := option ptr * option ptr.

Definition begin (t : RedBlackTree) : iterator := (m_minimum t, None).

Definition begin_from (t : RedBlackTree) (k : Z) : res iterator :=
  let* node := find_node t (m_root t) k in Ok (node, None).

Definition iterator_next (t : RedBlackTree) (i : iterator) : res iterator :=
  match i.1 with
  | None => Ok i
  | Some _ => let* s := successor t i.1 in Ok (s, i.1)
  end.

Definition iterator_prev (t : RedBlackTree) (i : iterator) : res iterator :=
  match i.2 with
  | None => Ok i
  | Some _ => let* p := predecessor t i.2 in Ok (i.2, p)
  end.

End RedBlackTree.
Arguments Node : clear implicits.
Arguments RedBlackTree : clear implicits.

End RedBlackTree.

(** ** AK/IntrusiveRedBlackTree.h

    The nodes are members of the values and outlive their stay in a tree; the
    value of a node stands for its flag [m_in_tree]. *)
Module IntrusiveRedBlackTree.
Import RedBlackTree.

Definition with_in_tree (b : bool) (n : Node bool) : Node bool :=
  mkNode (left_child n) (right_child n) (parent n) (color n) (key n) b.

(** A value with its node comes into being at [a]; its destructor wants it out of
    every tree. *)
Definition construct (t : RedBlackTree bool) (a : ptr) (k : Z) : RedBlackTree bool :=
  with_store t (<[a := new_node k false]> (store t)).

Definition destruct_node (t : RedBlackTree bool) (a : ptr) : res (RedBlackTree bool) :=
  let* n := deref t (Some a) in
  VERIFY negb (value n) ;;
  Ok (with_store t (delete a (store t))).

Definition insert (t : RedBlackTree bool) (a : ptr) : res (RedBlackTree bool) :=
  let* t := insert_node t (Some a) in
  modify t (Some a) (with_in_tree true).

Definition remove (t : RedBlackTree bool) (k : Z) : res (RedBlackTree bool * bool) :=
  let* node := find_node t (m_root t) k in
  match node with
  | None => Ok (t, false)
  | Some _ =>
      let* t := remove_node t node in
      let* t := modify t node (with_child R None) in
      let* t := modify t node (with_child L None) in
      let* t := modify t node (with_in_tree false) in
      Ok (t, true)
  end.

Fixpoint clear_nodes (fuel : nat) (t : RedBlackTree bool) (node : option ptr) : res (RedBlackTree bool) :=
  match fuel with
  | O => Fault OutOfFuel
  | S fuel =>
      match node with
      | None => Ok t
      | Some _ =>
          let* n := deref t node in
          let* t := clear_nodes fuel t (right_child n) in
          let* t := modify t node (with_child R None) in
          let* n := deref t node in
          let* t := clear_nodes fuel t (left_child n) in
          let* t := modify t node (with_child L None) in
          modify t node (with_in_tree false)
      end
  end.

Definition clear (t : RedBlackTree bool) : res (RedBlackTree bool) :=
  let* t := clear_nodes (turns t) t (m_root t) in
  Ok (mkRedBlackTree (store t) None 0 None).

End IntrusiveRedBlackTree.

