(* ===== verification/RedBlackFacts.v ===== *)
(** * Red-black trees: the store as a tree, and what the operations do to it

    [has] says which cells a store consists of; permutations of the list of cells
    are the same store, so a proof names the cells an operation touches and leaves
    the rest.  A [tree] with its items in order is the abstract content; a position
    in it is a subtree with the path ([ctx]) from it to the root, whose cells are
    [zcells]. *)

From Stdlib Require Import Sorted.
From stdpp Require Import gmap.
From S2P Require Import Prelude RedBlackTree.
Import RedBlackTree.

(** ** Permutations of concatenations *)

Section Permutations.
Context {A : Type}.
Implicit Types a b r s : list A.

Lemma perm_here s r : s ++ r ≡ₚ s ++ r.
Proof. done. Qed.
Lemma perm_last s : s ≡ₚ s ++ [].
Proof. by rewrite app_nil_r. Qed.
Lemma perm_skip s a b b' : b ≡ₚ s ++ b' -> a ++ b ≡ₚ s ++ (a ++ b').
Proof. intros ->. by rewrite Permutation_app_swap_app. Qed.
Lemma perm_skip_cons s x b b' : b ≡ₚ s ++ b' -> x :: b ≡ₚ s ++ (x :: b').
Proof. intros ->. apply Permutation_middle. Qed.
Lemma perm_cons_here x b : x :: b ≡ₚ [x] ++ b.
Proof. done. Qed.
Lemma perm_step_app s l r r' : r ≡ₚ s ++ r' -> l ≡ₚ r' -> s ++ l ≡ₚ r.
Proof. by intros -> ->. Qed.
Lemma perm_step_cons x l r r' : r ≡ₚ [x] ++ r' -> l ≡ₚ r' -> x :: l ≡ₚ r.
Proof. by intros -> ->. Qed.
Lemma perm_step_last s r r' : r ≡ₚ s ++ r' -> [] ≡ₚ r' -> s ≡ₚ r.
Proof. intros -> <-. by rewrite app_nil_r. Qed.
End Permutations.

Ltac perm_find :=
  first [ apply perm_here | apply perm_cons_here | apply perm_last
        | apply perm_skip; perm_find | apply perm_skip_cons; perm_find ].

(** Proves that two lists built from the same parts are permutations. *)
Ltac perm :=
  rewrite ?app_nil_r; repeat (rewrite <-app_assoc || rewrite <-app_comm_cons);
  repeat first
    [ reflexivity
    | eapply perm_step_cons; [perm_find|]
    | eapply perm_step_app; [perm_find|]
    | eapply perm_step_last; [perm_find|] ].

Module RedBlackFacts.
Section Facts.
Context {V : Type}.
Implicit Types t : RedBlackTree V.

(** ** Stores as lists of cells *)

Definition has (st : gmap ptr (Node V)) (l : list (ptr * Node V)) : Prop :=
  NoDup l.*1 /\ st = list_to_map l.

Lemma has_perm st l l' : l ≡ₚ l' -> has st l -> has st l'.
Proof.
  intros Hp [Hn ->]. split; [by rewrite <-Hp|]. by apply list_to_map_proper.
Qed.

#[local] Instance has_proper st : Proper (Permutation ==> iff) (has st).
Proof. intros l l' Hp. split; apply has_perm; [done|by symmetry]. Qed.

Lemma has_get st a n l : has st ((a, n) :: l) -> st !! a = Some n.
Proof. intros [_ ->]. apply lookup_insert_eq. Qed.

Lemma has_set st a n n' l : has st ((a, n) :: l) -> has (<[a := n']> st) ((a, n') :: l).
Proof. intros [Hn ->]. split; [done|]. cbn. apply insert_insert_eq. Qed.

Lemma has_new st a n l : has st l -> st !! a = None -> has (<[a := n]> st) ((a, n) :: l).
Proof.
  intros [Hn ->] Ha. split; [|done]. cbn. constructor; [|done].
  by apply not_elem_of_list_to_map in Ha.
Qed.

Lemma has_delete st a n l : has st ((a, n) :: l) -> has (delete a st) l.
Proof.
  intros [Hn ->]. cbn in Hn. apply NoDup_cons in Hn as [Ha Hn]. split; [done|]. cbn.
  apply delete_insert_id. by apply not_elem_of_list_to_map.
Qed.

Lemma has_ne st a n b m l : has st ((a, n) :: (b, m) :: l) -> a <> b.
Proof. intros [Hn _] ->. cbn in Hn. apply NoDup_cons in Hn as [Ha _]. apply Ha. constructor. Qed.

Lemma has_size st l : has st l -> size st = length l.
Proof. intros [Hn ->]. rewrite map_size_list_to_map by done. done. Qed.

(** The parts of a tree object other than the nodes. *)
Definition same_rest t t' : Prop := m_size t' = m_size t /\ m_minimum t' = m_minimum t.
Definition same_root t t' : Prop := same_rest t t' /\ m_root t' = m_root t.

Lemma deref_has t a n l : has (store t) ((a, n) :: l) -> deref t (Some a) = Ok n.
Proof. intros H. unfold deref. cbn. by rewrite (has_get _ _ _ _ H). Qed.

Lemma modify_has t a n f l : has (store t) ((a, n) :: l) ->
  exists t', modify t (Some a) f = Ok t' /\ has (store t') ((a, f n) :: l) /\ same_root t t'.
Proof.
  intros H. unfold modify. rewrite (deref_has _ _ _ _ H). cbn. eexists. split; [done|].
  cbn. split; [by eapply has_set|done].
Qed.

(** ** Trees and paths *)

Record item := mkItem { i_addr : ptr; i_key : Z; i_value : V }.

Inductive tree := Lf | Nd (c : Color) (l : tree) (x : item) (r : tree).

(** A node with [a] on side [s] and [b] on the other one. *)
Definition nd (s : side) (c : Color) (x : item) (a b : tree) : tree :=
  match s with L => Nd c a x b | R => Nd c b x a end.

Definition root (T : tree) : option ptr :=
  match T with Lf => None | Nd _ _ x _ => Some (i_addr x) end.

Definition tree_color (T : tree) : Color :=
  match T with Lf => Black | Nd c _ _ _ => c end.

(** One step of a path: the subtree is on side [f_side] of the item. *)
Record frame := mkFrame { f_side : side; f_color : Color; f_item : item; f_sibling : tree }.

Definition ctx := list frame.

Definition fill (f : frame) (T : tree) : tree := nd (f_side f) (f_color f) (f_item f) T (f_sibling f).

Fixpoint zip (c : ctx) (T : tree) : tree :=
  match c with [] => T | f :: c => zip c (fill f T) end.

Definition top (c : ctx) : option ptr :=
  match c with [] => None | f :: _ => Some (i_addr (f_item f)) end.

(** The node an item is stored as. *)
Definition node_of (s : side) (p : option ptr) (c : Color) (x : item) (a b : option ptr) : Node V :=
  match s with
  | L => mkNode a b p c (i_key x) (i_value x)
  | R => mkNode b a p c (i_key x) (i_value x)
  end.

Definition cell s p c x a b : ptr * Node V := (i_addr x, node_of s p c x a b).

Fixpoint cells (p : option ptr) (T : tree) : list (ptr * Node V) :=
  match T with
  | Lf => []
  | Nd c l x r => cell L p c x (root l) (root r) :: cells (Some (i_addr x)) l ++ cells (Some (i_addr x)) r
  end.

(** The cells of a path whose lower end points at [r]. *)
Fixpoint ccells (c : ctx) (r : option ptr) : list (ptr * Node V) :=
  match c with
  | [] => []
  | f :: c => cell (f_side f) (top c) (f_color f) (f_item f) r (root (f_sibling f))
      :: cells (Some (i_addr (f_item f))) (f_sibling f) ++ ccells c (Some (i_addr (f_item f)))
  end.

Definition zcells (c : ctx) (T : tree) : list (ptr * Node V) := ccells c (root T) ++ cells (top c) T.

Lemma root_nd s c x a b : root (nd s c x a b) = Some (i_addr x).
Proof. by destruct s. Qed.

Lemma opp_opp s : opp (opp s) = s.
Proof. by destruct s. Qed.

Lemma nd_opp s c x a b : nd (opp s) c x a b = nd s c x b a.
Proof. by destruct s. Qed.

Lemma node_of_opp s p c x a b : node_of (opp s) p c x a b = node_of s p c x b a.
Proof. by destruct s. Qed.

Lemma cells_nd s p c x a b :
  cells p (nd s c x a b) ≡ₚ cell s p c x (root a) (root b) :: cells (Some (i_addr x)) a ++ cells (Some (i_addr x)) b.
Proof. destruct s; cbn; [done|]. apply Permutation_skip, Permutation_app_comm. Qed.

Lemma zcells_fill f c T : zcells (f :: c) T ≡ₚ zcells c (fill f T).
Proof.
  unfold zcells, fill. rewrite cells_nd, root_nd. cbn. perm.
Qed.

Lemma zip_root_cons f c T T' : root (zip (f :: c) T) = root (zip (f :: c) T').
Proof.
  cbn. assert (forall A B, root A = root B -> root (zip c A) = root (zip c B)) as H.
  { induction c as [|g c IH]; intros A B E; [done|]. cbn. apply IH. unfold fill. by rewrite !root_nd. }
  apply H. unfold fill. by rewrite !root_nd.
Qed.

(** The store consists of a tree, seen from a position in it, and other cells. *)
Definition rep t (c : ctx) (T : tree) (X : list (ptr * Node V)) : Prop :=
  has (store t) (zcells c T ++ X) /\ m_root t = root (zip c T).

Lemma rep_up t f c T X : rep t (f :: c) T X <-> rep t c (fill f T) X.
Proof.
  unfold rep. cbn [zip].
  split; intros [H ->]; (split; [|done]); (eapply has_perm; [|exact H]);
    [by rewrite zcells_fill|by rewrite <-zcells_fill].
Qed.

Lemma node_of_child s p c x a b : child s (node_of s p c x a b) = a.
Proof. by destruct s. Qed.
Lemma node_of_other s p c x a b : child (opp s) (node_of s p c x a b) = b.
Proof. by destruct s. Qed.
Lemma node_of_parent s p c x a b : parent (node_of s p c x a b) = p.
Proof. by destruct s. Qed.
Lemma node_of_color s p c x a b : color (node_of s p c x a b) = c.
Proof. by destruct s. Qed.
Lemma node_of_key s p c x a b : key (node_of s p c x a b) = i_key x.
Proof. by destruct s. Qed.
Lemma node_of_with_child s p c x a b a' : with_child s a' (node_of s p c x a b) = node_of s p c x a' b.
Proof. by destruct s. Qed.
Lemma node_of_with_other s p c x a b b' : with_child (opp s) b' (node_of s p c x a b) = node_of s p c x a b'.
Proof. by destruct s. Qed.
Lemma node_of_with_parent s p c x a b p' : with_parent p' (node_of s p c x a b) = node_of s p' c x a b.
Proof. by destruct s. Qed.
Lemma node_of_with_color s p c x a b c' : with_color c' (node_of s p c x a b) = node_of s p c' x a b.
Proof. by destruct s. Qed.

Create Rewrite HintDb node.
#[local] Hint Rewrite node_of_child node_of_other node_of_parent node_of_color node_of_key node_of_with_child
  node_of_with_other node_of_with_parent node_of_with_color root_nd : node.

Ltac node := autorewrite with node; cbn [i_addr].

Lemma same_rest_trans t t' t'' : same_rest t t' -> same_rest t' t'' -> same_rest t t''.
Proof. intros [A B] [C D]. split; congruence. Qed.

Lemma same_root_trans t t' t'' : same_root t t' -> same_root t' t'' -> same_root t t''.
Proof. intros [A B] [C D]. split; [by eapply same_rest_trans|congruence]. Qed.

(** ** The small steps *)

(** The sibling at the lower end of a path is not the subtree itself. *)
Definition sibling_ok (c : ctx) (old : option ptr) : Prop :=
  match c with [] => True | f :: _ => root (f_sibling f) <> old end.

Lemma sibling_ne t c T X : rep t c T X -> T <> Lf -> sibling_ok c (root T).
Proof.
  intros [H _] HT. destruct c as [|f c]; [done|]. cbn. destruct T as [|k l x r]; [done|].
  destruct (f_sibling f) as [|k' l' x' r'] eqn:E; [done|]. cbn. intros [= Heq].
  unfold zcells in H. cbn in H. rewrite E in H. cbn in H.
  eapply (has_ne _ (i_addr x') _ (i_addr x)); [|exact Heq]. eapply has_perm; [|exact H].
  unfold cell at 1 2 3. symmetry. perm.
Qed.

Lemma replace_child_ok t c old new Y :
  has (store t) (ccells c old ++ Y) -> sibling_ok c old ->
  exists t', replace_child t (top c) old new = Ok t' /\ has (store t') (ccells c new ++ Y) /\
    same_rest t t' /\ (m_root t' = match c with [] => new | _ => m_root t end).
Proof.
  intros H Hs. destruct c as [|f c]; cbn [top replace_child].
  { eexists. split; [done|]. done. }
  cbn in H. unfold cell in H. rewrite (deref_has _ _ _ _ H). cbn [res_bind].
  destruct (modify_has _ _ _ (with_child (f_side f) new) _ H) as (t' & E & H' & Hr).
  exists t'. split; [|split; [|by destruct Hr]].
  - rewrite <-E. destruct (f_side f) eqn:Es; cbn; [by rewrite bool_decide_true|].
    rewrite bool_decide_false by done. done.
  - rewrite node_of_with_child in H'. exact H'.
Qed.

(** [if (child) child->parent = p'] *)
Lemma reparent_ok t p p' T Y :
  has (store t) (cells p T ++ Y) ->
  exists t', match root T with Some _ => modify t (root T) (with_parent p') | None => Ok t end = Ok t' /\
    has (store t') (cells p' T ++ Y) /\ same_root t t'.
Proof.
  intros H. destruct T as [|k l x r]; cbn [root]; [by exists t|].
  cbn in H. unfold cell in H. destruct (modify_has _ _ _ (with_parent p') _ H) as (t' & E & H' & Hr).
  exists t'. split; [done|]. split; [|done]. exact H'.
Qed.

(** Symbolic execution: [front H a] moves the cell at [a] to the front of the
    cells [H] lists, [step] runs the next access to the store. *)
Ltac front H a :=
  unfold cell in H; repeat (rewrite <-app_assoc in H || rewrite <-app_comm_cons in H);
  match type of H with
  | has ?st ?l =>
      let K := fresh "K" in
      eassert (l ≡ₚ [(a, _)] ++ _) as K by perm_find;
      apply (has_perm _ _ _ K) in H; clear K; cbn [app] in H
  end.

Ltac step :=
  match goal with
  | H : has (store ?t) _ |- context [deref ?t (Some ?a)] =>
      front H a; rewrite (deref_has _ _ _ _ H); cbn [res_bind]; node
  | H : has (store ?t) _, S : same_root ?t0 ?t |- context [modify ?t (Some ?a) ?f] =>
      front H a;
      let t' := fresh "t" in let H' := fresh "H" in let S' := fresh "S" in
      destruct (modify_has _ _ _ f _ H) as (t' & -> & H' & S');
      apply (same_root_trans _ _ _ S) in S'; clear H S; autorewrite with node in H'; cbn [res_bind]; node
  | |- context [bool_decide (Some _ <> None)] => rewrite bool_decide_true by done; cbn [verify res_bind]; node
  end.

(** Runs as far as the accesses to known cells go. *)
Ltac run :=
  repeat (step; cbn [left_child right_child parent color key value with_child with_parent with_color node_of] in * ).

(** Restates the cells of the store in another order. *)
Ltac reorder H l := eapply (has_perm _ _ l) in H; [|unfold cell; perm].

(** ** Rotations *)

Lemma rotate_ok s t c k x A k' y B C X :
  rep t c (nd s k x A (nd s k' y B C)) X ->
  exists t', rotate s t (Some (i_addr x)) = Ok t' /\ rep t' c (nd s k' y (nd s k x A B) C) X /\ same_rest t t'.
Proof.
  intros Hrep. pose proof (sibling_ne _ _ _ _ Hrep ltac:(by destruct s)) as Hsib. rewrite root_nd in Hsib.
  destruct Hrep as [H Hroot]. unfold zcells in H. rewrite root_nd, !cells_nd, root_nd in H.
  assert (same_root t t) as S by done. unfold rotate. do 5 step.
  destruct (reparent_ok t0 (Some (i_addr y)) (Some (i_addr x)) B
    (ccells c (Some (i_addr x)) ++ cells (Some (i_addr x)) A ++ cells (Some (i_addr y)) C ++ X ++
     [cell s (top c) k x (root A) (root B); cell s (Some (i_addr x)) k' y (root B) (root C)]))
    as (t1 & E1 & H1 & S1); [eapply has_perm; [|exact H0]; unfold cell; perm|].
  repeat step. rewrite E1. cbn [res_bind]. apply (same_root_trans _ _ _ S0) in S1. clear S0 H0. repeat step.
  match goal with H : has (store ?t') _ |- _ =>
    destruct (replace_child_ok t' c (Some (i_addr x)) (Some (i_addr y))
      (cells (Some (i_addr x)) A ++ cells (Some (i_addr x)) B ++ cells (Some (i_addr y)) C ++ X ++
       [cell s (top c) k' y (Some (i_addr x)) (root C); cell s (Some (i_addr y)) k x (root A) (root B)]))
    as (t6 & -> & H6 & S6 & R6); [eapply has_perm; [|exact H]; unfold cell; perm|done|] end.
  match goal with S : same_root t _ |- _ => destruct S as [S R] end.
  exists t6. split; [done|]. split; [|by eapply same_rest_trans]. split.
  - eapply has_perm; [|exact H6]. unfold zcells. rewrite root_nd, !cells_nd, root_nd. unfold cell. perm.
  - rewrite R6. destruct c as [|f c]; [cbn [zip]; by rewrite root_nd|]. rewrite R, Hroot. apply zip_root_cons.
Qed.

Lemma rotate_opp_ok s t c k x A k' y B C X :
  rep t c (nd s k x (nd s k' y A B) C) X ->
  exists t', rotate (opp s) t (Some (i_addr x)) = Ok t' /\ rep t' c (nd s k' y A (nd s k x B C)) X /\ same_rest t t'.
Proof.
  intros H. destruct (rotate_ok (opp s) t c k x C k' y B A X) as (t' & E & H' & S); [by rewrite !nd_opp|].
  rewrite !nd_opp in H'. by exists t'.
Qed.

(** Nodes as the position in the tree sees them. *)

Lemma rep_in t s k x c A B X : rep t c (nd s k x A B) X -> rep t (mkFrame s k x B :: c) A X.
Proof. by rewrite rep_up. Qed.

Lemma rep_out t s k x c A B X : rep t (mkFrame s k x B :: c) A X -> rep t c (nd s k x A B) X.
Proof. by rewrite rep_up. Qed.

Lemma rep_focus t s k x c A B X :
  rep t c (nd s k x A B) X ->
  has (store t) ((i_addr x, node_of s (top c) k x (root A) (root B)) ::
    ccells c (Some (i_addr x)) ++ cells (Some (i_addr x)) A ++ cells (Some (i_addr x)) B ++ X).
Proof. intros [H _]. eapply has_perm; [|exact H]. unfold zcells. rewrite root_nd, cells_nd. unfold cell. perm. Qed.

Lemma deref_rep t s k x c A B X :
  rep t c (nd s k x A B) X -> deref t (Some (i_addr x)) = Ok (node_of s (top c) k x (root A) (root B)).
Proof. intros H%rep_focus. by eapply deref_has. Qed.

Lemma recolor_rep t s k k' x c A B X :
  rep t c (nd s k x A B) X ->
  exists t', modify t (Some (i_addr x)) (with_color k') = Ok t' /\ rep t' c (nd s k' x A B) X /\ same_rest t t'.
Proof.
  intros Hr. pose proof (rep_focus _ _ _ _ _ _ _ _ Hr) as H. destruct Hr as [_ R].
  destruct (modify_has _ _ _ (with_color k') _ H) as (t' & E & H' & S & R'). exists t'. split; [done|]. split; [|done].
  split.
  - eapply has_perm; [|exact H']. unfold zcells. rewrite root_nd, cells_nd, node_of_with_color. unfold cell. perm.
  - rewrite R', R. destruct c as [|f c]; [cbn [zip]; by rewrite !root_nd|]. apply zip_root_cons.
Qed.

Lemma tree_color_nd s k x A B : tree_color (nd s k x A B) = k.
Proof. by destruct s. Qed.

Lemma is_red_rep t c T X : rep t c T X -> is_red t (root T) = Ok (bool_decide (tree_color T = Red)).
Proof.
  destruct T as [|k l x r]; [done|]. intros H. cbn [root is_red].
  by rewrite (deref_rep t L k x c l r X H).
Qed.

Lemma is_black_rep t c T X : rep t c T X -> is_black t (root T) = Ok (negb (bool_decide (tree_color T = Red))).
Proof. intros H. unfold is_black. by rewrite (is_red_rep _ _ _ _ H). Qed.

(** The sibling of a position, and the tree above it. *)
Lemma rep_sibling t s k x U c T X :
  rep t (mkFrame s k x U :: c) T X -> rep t (mkFrame (opp s) k x T :: c) U X.
Proof. rewrite !rep_up. unfold fill. cbn. by rewrite nd_opp. Qed.

(** ** Items in order *)

Fixpoint elems (T : tree) : list item :=
  match T with Lf => [] | Nd _ l x r => elems l ++ x :: elems r end.

Definition join (s : side) (a b : list item) : list item := match s with L => a ++ b | R => b ++ a end.

Lemma elems_nd s k x A B : elems (nd s k x A B) = join s (join s (elems A) [x]) (elems B).
Proof. destruct s; cbn; by rewrite <-?app_assoc. Qed.

Lemma join_assoc s a b c : join s (join s a b) c = join s a (join s b c).
Proof. destruct s; cbn; by rewrite app_assoc. Qed.

Lemma elems_zip c T T' : elems T = elems T' -> elems (zip c T) = elems (zip c T').
Proof.
  revert T T'. induction c as [|f c IH]; intros T T' E; [done|]. cbn. apply IH. unfold fill. by rewrite !elems_nd, E.
Qed.

(** ** Colours and heights *)

(** [ok T n]: every path down from [T] has [n] black nodes and no red node has a
    red child. *)
Fixpoint ok (T : tree) (n : nat) : Prop :=
  match T with
  | Lf => n = 0%nat
  | Nd Red l _ r => ok l n /\ ok r n /\ tree_color l = Black /\ tree_color r = Black
  | Nd Black l _ r => exists m, n = S m /\ ok l m /\ ok r m
  end.

Definition valid (T : tree) : Prop := tree_color T = Black /\ exists n, ok T n.

(** What is below may be red. *)
Definition red_allowed (c : ctx) : Prop :=
  match c with [] => False | f :: _ => f_color f = Black end.

(** [okc c n]: the path is part of a valid tree once a subtree of black height [n]
    is put at its end. *)
Fixpoint okc (c : ctx) (n : nat) : Prop :=
  match c with
  | [] => True
  | f :: c =>
      ok (f_sibling f) n /\
      match f_color f with
      | Red => tree_color (f_sibling f) = Black /\ red_allowed c /\ okc c n
      | Black => okc c (S n)
      end
  end.

Lemma ok_red s x A B n :
  ok (nd s Red x A B) n <-> ok A n /\ ok B n /\ tree_color A = Black /\ tree_color B = Black.
Proof. destruct s; cbn; tauto. Qed.

Lemma ok_black s x A B n : ok (nd s Black x A B) n <-> exists m, n = S m /\ ok A m /\ ok B m.
Proof. destruct s; cbn; [done|]. split; intros (m & ? & ? & ?); by exists m. Qed.

Lemma zip_valid c T n :
  okc c n -> ok T n -> (tree_color T = Red -> red_allowed c) -> valid (zip c T).
Proof.
  revert T n. induction c as [|[s k x U] c IH]; intros T n Hc HT Hr; cbn [zip].
  { cbn in Hr. split; [|by exists n]. destruct (tree_color T); [by destruct (Hr eq_refl)|done]. }
  cbn in Hc. destruct Hc as [HS Hc]. unfold fill. cbn [f_side f_color f_item f_sibling]. destruct k.
  - destruct Hc as (HB & Ha & Hc). apply (IH _ n); [done| |done]. apply ok_red.
    repeat split; try done. cbn in Hr. destruct (tree_color T); [by discriminate (Hr eq_refl)|done].
  - apply (IH _ (S n)); [done| |by rewrite tree_color_nd]. apply ok_black. by exists n.
Qed.

Lemma zip_valid_inv c T :
  valid (zip c T) -> exists n, okc c n /\ ok T n /\ (tree_color T = Red -> red_allowed c).
Proof.
  revert T. induction c as [|[s k x U] c IH]; intros T H; cbn [zip] in H.
  { destruct H as [HB [n H]]. exists n. split; [done|]. split; [done|]. by rewrite HB. }
  apply IH in H as (n & Hc & HT & Hr). unfold fill in HT, Hr. cbn [f_side f_color f_item f_sibling] in *.
  rewrite tree_color_nd in Hr. destruct k.
  - apply ok_red in HT as (HT & HS & CT & CS). exists n. cbn. split; [|split; [done|by rewrite CT]]. auto.
  - apply ok_black in HT as (m & -> & HT & HS). exists m. cbn. auto.
Qed.

(** The left spine, from the minimum up. *)
Fixpoint spine (T : tree) : list item :=
  match T with Lf => [] | Nd _ l x _ => spine l ++ [x] end.

Lemma spine_zip c T : Forall (fun f => f_side f = L) c -> spine (zip c T) = spine T ++ (f_item <$> c).
Proof.
  revert T. induction c as [|[s k x U] c IH]; intros T H; cbn [zip]; [by rewrite app_nil_r|].
  apply Forall_cons in H as [Hs H]. cbn in Hs. subst s. rewrite IH by done. cbn. by rewrite <-app_assoc.
Qed.

Lemma spine_not_nil T : T <> Lf -> spine T <> [].
Proof. destruct T as [|k l x r]; [done|]. cbn. by destruct (spine l). Qed.

Lemma spine_head T : head (spine T) = head (elems T).
Proof.
  induction T as [|k l IH x r _]; [done|]. cbn. destruct l as [|k' l' x' r']; [done|].
  assert (forall (a b : list item), a <> [] -> head (a ++ b) = head a) as Hh by (by intros []).
  rewrite !Hh; [done| |by apply spine_not_nil]. cbn. by destruct (elems l').
Qed.

(** ** Insertion *)

Definition blacken (T : tree) : tree := match T with Lf => Lf | Nd _ l x r => Nd Black l x r end.

Lemma elems_blacken T : elems (blacken T) = elems T.
Proof. by destruct T. Qed.

Lemma spine_blacken T : spine (blacken T) = spine T.
Proof. by destruct T. Qed.

Lemma ok_blacken T n : ok T n -> tree_color T = Red -> ok (blacken T) (S n).
Proof. destruct T as [|[] l x r]; try done. intros (? & ? & _) _. by exists n. Qed.

Lemma as_nd s T : T <> Lf -> exists k x A B, T = nd s k x A B.
Proof. destruct T as [|k l x r]; [done|]. intros _. destruct s; [by exists k, x, l, r|by exists k, x, r, l]. Qed.

Lemma red_not_leaf T : tree_color T = Red -> T <> Lf.
Proof. by intros H ->. Qed.

(** A red uncle: both children of the grandparent become black. *)
Lemma insert_recolor_ok s t s1 (p : item) U g W c T X :
  rep t (mkFrame s1 Red p U :: mkFrame s Black g W :: c) T X -> tree_color W = Red ->
  exists t', insert_fixup s t (root T) (Some (i_addr p)) (Some (i_addr g)) = Ok (t', Some (i_addr g)) /\
    same_rest t t' /\ rep t' c (nd s Red g (nd s1 Black p T U) (blacken W)) X.
Proof.
  intros H HW. apply rep_out in H. unfold insert_fixup.
  pose proof H as Hg. apply rep_out in Hg. rewrite (deref_rep _ _ _ _ _ _ _ _ Hg). cbn [res_bind]. node.
  rewrite (is_red_rep _ _ _ _ (rep_sibling _ _ _ _ _ _ _ _ H)). rewrite bool_decide_true by done. cbn [res_bind].
  destruct (recolor_rep _ _ _ Black _ _ _ _ _ H) as (t1 & -> & H1 & S1). cbn [res_bind].
  apply rep_sibling in H1. destruct W as [|kw l w r]; [done|]. cbn [root].
  destruct (recolor_rep _ L _ Black _ _ _ _ _ H1) as (t2 & -> & H2 & S2). cbn [res_bind].
  apply rep_sibling in H2. rewrite opp_opp in H2. apply rep_out in H2.
  destruct (recolor_rep _ _ _ Red _ _ _ _ _ H2) as (t3 & -> & H3 & S3). cbn [res_bind].
  exists t3. split; [done|]. split; [|done]. eauto using same_rest_trans.
Qed.

(** A black uncle: one or two rotations; the node is below a black one then. *)
Lemma insert_rotate_ok s t s1 (p : item) U g W c T X :
  rep t (mkFrame s1 Red p U :: mkFrame s Black g W :: c) T X -> tree_color W = Black -> tree_color T = Red ->
  exists t' f T', insert_fixup s t (root T) (Some (i_addr p)) (Some (i_addr g)) = Ok (t', root T') /\
    same_rest t t' /\ rep t' (f :: c) T' X /\ tree_color T' = Red /\ f_color f = Black /\
    elems (fill f T') = elems (zip [mkFrame s1 Red p U; mkFrame s Black g W] T) /\
    (forall n, ok T n -> ok U n -> ok W n -> tree_color U = Black -> ok (fill f T') (S n)) /\
    (s1 = s -> T' = T /\ f_side f = s /\ f_item f = p).
Proof.
  intros H HW HT. pose proof (sibling_ne _ _ _ _ H (red_not_leaf _ HT)) as Hne. cbn in Hne.
  pose proof H as Hp. apply rep_out in Hp. pose proof Hp as Hg. apply rep_out in Hg. unfold insert_fixup.
  rewrite (deref_rep _ _ _ _ _ _ _ _ Hg). cbn [res_bind]. node.
  rewrite (is_red_rep _ _ _ _ (rep_sibling _ _ _ _ _ _ _ _ Hp)). rewrite HW. rewrite bool_decide_false by done.
  cbn [res_bind]. rewrite (deref_rep _ _ _ _ _ _ _ _ Hp). cbn [res_bind].
  assert (s1 = s \/ s1 = opp s) as [-> | ->] by (destruct s, s1; auto).
  - rewrite node_of_other, bool_decide_false by done. cbn [res_bind].
    destruct (as_nd L T (red_not_leaf _ HT)) as (k & n & A & B & ->). rewrite root_nd.
    rewrite (deref_rep _ _ _ _ _ _ _ _ H). cbn [res_bind]. node. cbn [top f_item].
    destruct (recolor_rep _ _ _ Black _ _ _ _ _ Hp) as (t1 & -> & H1 & S1). cbn [res_bind]. apply rep_out in H1.
    destruct (recolor_rep _ _ _ Red _ _ _ _ _ H1) as (t2 & -> & H2 & S2). cbn [res_bind].
    destruct (rotate_opp_ok _ _ _ _ _ _ _ _ _ _ _ H2) as (t3 & -> & H3 & S3). cbn [res_bind].
    exists t3, (mkFrame s Black p (nd s Red g U W)), (nd L k n A B). rewrite root_nd.
    split; [done|]. split; [by eauto using same_rest_trans|]. split; [by apply rep_in|]. split; [done|]. split; [done|].
    split; [|split; [|done]].
    + cbn. unfold fill. cbn. by rewrite !elems_nd, !join_assoc.
    + intros m O1 O2 O3 O4. unfold fill. cbn. apply ok_black. exists m. split; [done|]. split; [done|]. by apply ok_red.
  - rewrite node_of_child, bool_decide_true by done. destruct (as_nd s T (red_not_leaf _ HT)) as (k & n & A & B & ->).
    rewrite tree_color_nd in HT. subst k. rewrite nd_opp in Hp.
    destruct (rotate_ok _ _ _ _ _ _ _ _ _ _ _ Hp) as (t1 & -> & H1 & S1). cbn [res_bind].
    pose proof H1 as H1'. apply rep_in in H1'.
    rewrite (deref_rep _ _ _ _ _ _ _ _ H1'). cbn [res_bind]. node. cbn [top f_item].
    destruct (recolor_rep _ _ _ Black _ _ _ _ _ H1) as (t2 & -> & H2 & S2). cbn [res_bind]. apply rep_out in H2.
    destruct (recolor_rep _ _ _ Red _ _ _ _ _ H2) as (t3 & -> & H3 & S3). cbn [res_bind].
    destruct (rotate_opp_ok _ _ _ _ _ _ _ _ _ _ _ H3) as (t4 & -> & H4 & S4). cbn [res_bind].
    exists t4, (mkFrame s Black n (nd s Red g B W)), (nd s Red p U A). rewrite root_nd.
    split; [done|]. split; [by eauto using same_rest_trans|]. split; [by apply rep_in|].
    split; [by rewrite tree_color_nd|]. split; [done|]. split; [|split; [|by destruct s]].
    + cbn. unfold fill. cbn. by rewrite nd_opp, !elems_nd, !join_assoc.
    + intros m O1 O2 O3 O4. apply ok_red in O1 as (OA & OB & CA & CB). unfold fill. cbn. apply ok_black.
      exists m. split; [done|]. split; by apply ok_red.
Qed.

Lemma rep_zip t c T X : rep t c T X <-> rep t [] (zip c T) X.
Proof. revert T. induction c as [|f c IH]; intros T; [done|]. rewrite rep_up. apply IH. Qed.

Lemma zip_not_leaf c T : T <> Lf -> zip c T <> Lf.
Proof.
  revert T. induction c as [|f c IH]; intros T H; [done|]. cbn. apply IH. unfold fill. by destruct (f_side f).
Qed.

Lemma valid_blacken T : valid T -> blacken T = T.
Proof. intros [H _]. destruct T as [|k l x r]; [done|]. cbn in *. by subst. Qed.

(** [m_root->color = Color::Black] *)
Lemma blacken_root_ok t T X :
  rep t [] T X -> T <> Lf ->
  exists t', modify t (m_root t) (with_color Black) = Ok t' /\ rep t' [] (blacken T) X /\ same_rest t t'.
Proof.
  intros H HT. destruct T as [|k l x r]; [done|]. destruct (recolor_rep _ L _ Black _ _ _ _ _ H) as (t' & E & H' & S).
  exists t'. destruct H as [_ R]. cbn in R. by rewrite R.
Qed.

Lemma deref_root t c T X :
  rep t c T X -> T <> Lf -> exists n, deref t (root T) = Ok n /\ parent n = top c /\ color n = tree_color T.
Proof.
  intros H HT. destruct T as [|k l x r]; [done|]. cbn [root]. rewrite (deref_rep t L k x c l r X H). by eexists.
Qed.

Lemma insert_fixups_loop_ok fuel t c T X n :
  (length c < fuel)%nat -> rep t c T X -> okc c n -> ok T n -> tree_color T = Red ->
  exists t' T', insert_fixups_loop fuel t (root T) = Ok t' /\ rep t' [] T' X /\ valid T' /\
    elems T' = elems (zip c T) /\ same_rest t t' /\
    (Forall (fun f => f_side f = L) c -> take 2 (spine T') = take 2 (spine (zip c T))).
Proof.
  revert t c T n. induction fuel as [|fuel IH]; intros t c T n Hf H Hc HT HR; [lia|].
  cbn [insert_fixups_loop]. pose proof (red_not_leaf _ HR) as Hl.
  destruct (deref_root _ _ _ _ H Hl) as (nn & -> & Epar & _). cbn [res_bind]. rewrite !Epar.
  assert ((red_allowed c \/ c = []) -> exists t' T', modify t (m_root t) (with_color Black) = Ok t' /\
    rep t' [] T' X /\ valid T' /\ elems T' = elems (zip c T) /\ same_rest t t' /\
    (Forall (fun f => f_side f = L) c -> take 2 (spine T') = take 2 (spine (zip c T)))) as Hend.
  { intros Hb. destruct (blacken_root_ok t (zip c T) X) as (t' & E & H' & Hs);
      [by apply (proj1 (rep_zip _ _ _ _))|by apply zip_not_leaf|].
    exists t', (blacken (zip c T)). split; [done|]. split; [done|]. split; [|by rewrite elems_blacken, spine_blacken].
    destruct Hb as [Hb| ->].
    - assert (valid (zip c T)) as Hv by (by eapply zip_valid). by rewrite valid_blacken.
    - cbn. split; [by destruct T|]. exists (S n). by apply ok_blacken. }
  destruct c as [|[s1 k1 p U] c]; [cbn; auto|]. cbn [top f_item]. pose proof H as Hp. apply rep_out in Hp.
  pose proof (is_red_rep _ _ _ _ Hp) as Er. rewrite root_nd in Er. rewrite Er, tree_color_nd. cbn [res_bind].
  destruct k1; [|rewrite bool_decide_false by done; apply Hend; by left].
  rewrite bool_decide_true by done. destruct Hc as (HU & CU & Ha & Hc). destruct c as [|[s kg g W] c]; [done|].
  cbn in HU, CU, Ha. subst kg. cbn in Hc. destruct Hc as [HW Hc].
  rewrite (deref_rep _ _ _ _ _ _ _ _ Hp). cbn [res_bind]. node. cbn [top f_item].
  pose proof Hp as Hg. apply rep_out in Hg. rewrite (deref_rep _ _ _ _ _ _ _ _ Hg). cbn [res_bind]. node.
  assert ((if bool_decide (right_child (node_of s (top c) Black g (Some (i_addr p)) (root W)) = Some (i_addr p))
           then R else L) = s) as Es.
  { pose proof (sibling_ne _ _ _ _ Hp ltac:(by destruct s1)) as Hne. cbn in Hne. rewrite root_nd in Hne.
    destruct s; cbn; [by rewrite bool_decide_false|by rewrite bool_decide_true]. }
  rewrite Es. destruct (tree_color W) eqn:EW.
  - destruct (insert_recolor_ok _ _ _ _ _ _ _ _ _ _ H EW) as (t1 & -> & S1 & H1). cbn [res_bind].
    destruct (IH t1 c _ (S n) ltac:(cbn in Hf; lia) H1) as (t2 & T2 & E2 & H2 & V2 & L2 & S2 & M2);
      [done| |by rewrite tree_color_nd|].
    { apply ok_red. split; [apply ok_black; by exists n|]. split; [by apply ok_blacken|].
      rewrite tree_color_nd. split; [done|]. by destruct W. }
    rewrite root_nd in E2. exists t2, T2. split; [done|]. split; [done|]. split; [done|].
    split; [|split; [by eapply same_rest_trans|]].
    + rewrite L2. cbn. apply elems_zip. unfold fill. cbn. by rewrite !elems_nd, elems_blacken.
    + intros [F1 [F2 F3]%Forall_cons]%Forall_cons. cbn in F1, F2. subst. rewrite M2 by done. cbn.
      rewrite !spine_zip by done. cbn. by rewrite <-!app_assoc.
  - destruct (insert_rotate_ok _ _ _ _ _ _ _ _ _ _ H EW HR) as (t1 & f & T1 & -> & S1 & H1 & C1 & F1 & L1 & O1 & M1).
    cbn [res_bind]. specialize (O1 n HT HU HW CU). unfold fill in O1. rewrite F1 in O1.
    apply ok_black in O1 as (m & [= <-] & OT & OS).
    destruct (IH t1 (f :: c) T1 n ltac:(cbn in *; lia) H1) as (t2 & T2 & E2 & H2 & V2 & L2 & S2 & M2); [|done|done|].
    { cbn. rewrite F1. done. }
    exists t2, T2. split; [done|]. split; [done|]. split; [done|]. split; [|split; [by eapply same_rest_trans|]].
    + rewrite L2. cbn. by apply elems_zip.
    + intros [F2 [F3 F4]%Forall_cons]%Forall_cons. cbn in F2, F3. subst. destruct (M1 eq_refl) as (-> & Fs & Fi).
      rewrite M2 by auto. cbn. unfold fill. rewrite Fs. cbn. rewrite Fi, !spine_zip by done. cbn.
      pose proof (spine_not_nil T Hl). by destruct (spine T) as [|i [|j l]].
Qed.

(** The items before and after a position. *)
Fixpoint before (c : ctx) : list item :=
  match c with
  | [] => []
  | f :: c => before c ++ match f_side f with L => [] | R => elems (f_sibling f) ++ [f_item f] end
  end.

Fixpoint after (c : ctx) : list item :=
  match c with
  | [] => []
  | f :: c => match f_side f with L => f_item f :: elems (f_sibling f) | R => [] end ++ after c
  end.

Lemma elems_around c T : elems (zip c T) = before c ++ elems T ++ after c.
Proof.
  revert T. induction c as [|[s k x U] c IH]; intros T; cbn [zip before after]; [by rewrite app_nil_r|].
  rewrite IH. unfold fill. cbn. destruct s; cbn; by rewrite <-?app_assoc, <-?app_comm_cons, ?app_nil_l.
Qed.

Lemma length_cells p T : length (cells p T) = length (elems T).
Proof.
  revert p. induction T as [|k l IHl x r IHr]; intros p; [done|]. cbn. rewrite !length_app, IHl, IHr. cbn. lia.
Qed.

Lemma length_zcells c T : length (zcells c T) = length (elems (zip c T)).
Proof.
  assert (zcells c T ≡ₚ zcells [] (zip c T)) as ->.
  { revert T. induction c as [|f c IH]; intros T; [done|]. rewrite zcells_fill. apply IH. }
  apply length_cells.
Qed.

Lemma turns_rep t c T X : rep t c T X -> turns t = S (S (length (elems (zip c T)) + length X)).
Proof. intros [H _]. unfold turns. by rewrite (has_size _ _ H), length_app, length_zcells. Qed.

Definition at_most (k : Z) (l : list item) : Prop := Forall (fun x => i_key x <= k) l.
Definition above (k : Z) (l : list item) : Prop := Forall (fun x => k < i_key x) l.
Definition ordered (l : list item) : Prop := StronglySorted (fun x y => i_key x <= i_key y) l.

(** The place of a new item: after the items whose key is at most its own. *)
Fixpoint insort (x : item) (l : list item) : list item :=
  match l with
  | [] => [x]
  | y :: l' => if i_key x <? i_key y then x :: l else y :: insort x l'
  end.

Lemma insort_split x a b : at_most (i_key x) a -> above (i_key x) b -> insort x (a ++ b) = a ++ x :: b.
Proof.
  intros Ha Hb. induction Ha as [|y a Hy Ha IH]; cbn.
  - destruct Hb as [|y b Hy Hb]; cbn; [done|]. by destruct (Z.ltb_spec (i_key x) (i_key y)); [|lia].
  - destruct (Z.ltb_spec (i_key x) (i_key y)); [lia|]. by rewrite IH.
Qed.

Lemma ordered_app a b : ordered (a ++ b) <->
  ordered a /\ ordered b /\ forall x y, x ∈ a -> y ∈ b -> i_key x <= i_key y.
Proof.
  unfold ordered. induction a as [|z a IH]; cbn.
  - split; [|by intros (_ & H & _)]. intros H. split; [constructor|]. split; [done|]. intros x y Hx. by apply elem_of_nil in Hx.
  - split.
    + intros H. inversion H as [|? ? Hs Hf]; subst. apply IH in Hs as (H1 & H2 & H3). rewrite Forall_forall in Hf.
      split; [constructor; [done|]; apply Forall_forall; intros; apply Hf, elem_of_app; by left|].
      split; [done|]. intros x y [-> |Hx]%elem_of_cons Hy; [|by apply H3]. apply Hf, elem_of_app. by right.
    + intros (H1 & H2 & H3). inversion H1 as [|? ? Hs Hf]; subst. constructor.
      * apply IH. split; [done|]. split; [done|]. intros. apply H3; [by right|done].
      * rewrite Forall_app. split; [done|]. apply Forall_forall. intros. apply H3; [left|done].
Qed.

Lemma ordered_insort x a b :
  ordered (a ++ b) -> at_most (i_key x) a -> above (i_key x) b -> ordered (a ++ x :: b).
Proof.
  intros (Ha & Hb & Hab)%ordered_app La Lb. unfold at_most, above in *. rewrite Forall_forall in La, Lb.
  apply ordered_app. split; [done|]. split.
  - constructor; [done|]. apply Forall_forall. intros y Hy. specialize (Lb y Hy). lia.
  - intros y z Hy [-> |Hz]%elem_of_cons; [by apply La|]. by apply Hab.
Qed.

(** A node splits an ordered subtree. *)
Lemma ordered_node c k l x r :
  ordered (elems (zip c (Nd k l x r))) -> at_most (i_key x) (elems l) /\ Forall (fun y => i_key x <= i_key y) (elems r).
Proof.
  rewrite elems_around. intros (_ & (H & _ & _)%ordered_app & _)%ordered_app. cbn in H.
  apply ordered_app in H as (_ & H2 & H3). split.
  - apply Forall_forall. intros y Hy. apply H3; [done|left].
  - by inversion H2.
Qed.

Lemma insert_position_ok fuel t c T X k :
  (length (elems T) < fuel)%nat -> rep t c T X -> ordered (elems (zip c T)) ->
  at_most k (before c) -> above k (after c) ->
  exists c', insert_position fuel t (top c) (root T) k = Ok (top c') /\ zip c' Lf = zip c T /\
    at_most k (before c') /\ above k (after c').
Proof.
  revert c T. induction fuel as [|fuel IH]; intros c T Hf H Ho Hb Ha; [lia|]. cbn [insert_position].
  destruct T as [|kc l x r]; cbn [root]; [by exists c|].
  rewrite (deref_rep t L kc x c l r X H). cbn [res_bind]. node. cbn [left_child right_child node_of].
  destruct (ordered_node _ _ _ _ _ Ho) as [Hl Hr]. cbn in Hf. rewrite length_app in Hf. cbn in Hf.
  destruct (Z.ltb_spec k (i_key x)) as [Hk|Hk].
  - destruct (IH (mkFrame L kc x r :: c) l) as (c' & E & Ez & Hb' & Ha'); [lia|by apply (rep_in t L)|done| | |].
    + cbn. by rewrite app_nil_r.
    + cbn. constructor; [done|]. apply Forall_app. split; [|done]. eapply Forall_impl; [exact Hr|]. cbn. lia.
    + by exists c'.
  - destruct (IH (mkFrame R kc x l :: c) r) as (c' & E & Ez & Hb' & Ha'); [lia|by apply (rep_in t R)|done| |done|].
    + cbn. apply Forall_app. split; [done|]. apply Forall_app. split; [|by constructor].
      eapply Forall_impl; [exact Hl|]. cbn. lia.
    + by exists c'.
Qed.

Lemma zip_app c c' T : zip (c ++ c') T = zip c' (zip c T).
Proof. revert T. induction c as [|f c IH]; intros T; [done|]. cbn. apply IH. Qed.

(** Where the minimum is. *)
Lemma spine_path T x rest : spine T = x :: rest ->
  exists c k r, T = zip c (Nd k Lf x r) /\ Forall (fun f => f_side f = L) c /\ f_item <$> c = rest.
Proof.
  revert rest. induction T as [|k l IH y r _]; intros rest H; [done|]. cbn in H.
  destruct (spine l) as [|z rest'] eqn:E.
  - injection H as -> <-. destruct l as [|k' l' x' r']; [by exists [], k, r|]. cbn in E. by destruct (spine l').
  - injection H as -> <-. destruct (IH _ eq_refl) as (c & k' & r' & -> & Hc & <-).
    exists (c ++ [mkFrame L k y r]), k', r'. rewrite zip_app. split; [done|]. split.
    + apply Forall_app. split; [done|]. by constructor.
    + by rewrite fmap_app.
Qed.

(** The left children of the minimum and of the node above it. *)
Lemma minimum_left t T X x rest : rep t [] T X -> spine T = x :: rest ->
  (exists n, deref t (Some (i_addr x)) = Ok n /\ left_child n = None) /\
  match rest with
  | [] => True
  | m :: _ => exists n, deref t (Some (i_addr m)) = Ok n /\ left_child n = Some (i_addr x)
  end.
Proof.
  intros H Hs. destruct (spine_path _ _ _ Hs) as (c & k & r & -> & Hc & <-). apply rep_zip in H. split.
  - rewrite (deref_rep t L k x c Lf r X H). by eexists.
  - destruct c as [|[s k' m U] c]; [done|]. apply Forall_cons in Hc as [Hs' _]. cbn in Hs'. subst s. cbn.
    rewrite rep_up in H. rewrite (deref_rep t L k' m c _ U X H). by eexists.
Qed.

(** [m_minimum] is the first item, when there is one. *)
Definition minimum_ok t (l : list item) : Prop :=
  match l with [] => True | x :: _ => m_minimum t = Some (i_addr x) end.

(** The last step of an insertion. *)
Lemma update_minimum t T X a b x :
  rep t [] T X -> elems T = a ++ x :: b -> a ++ b <> [] -> minimum_ok t (a ++ b) ->
  (a = [] -> exists m, head b = Some m /\ take 2 (spine T) = [x; m]) ->
  exists m, deref t (m_minimum t) = Ok m /\
    minimum_ok (if bool_decide (left_child m = Some (i_addr x)) then with_minimum t (Some (i_addr x)) else t)
      (elems T).
Proof.
  intros H He Hne Hm Ha. destruct a as [|y a].
  - destruct (Ha eq_refl) as (m & Hb & Hs). destruct (spine T) as [|x' [|m' rest]] eqn:Es; try done.
    cbn in Hs. injection Hs as -> ->. destruct (minimum_left _ _ _ _ _ H Es) as [_ (n & En & El)].
    destruct b as [|m' b]; [done|]. injection Hb as ->. cbn in Hm. rewrite Hm, En. exists n. split; [done|].
    rewrite bool_decide_true by done. by rewrite He.
  - destruct (spine T) as [|x' rest] eqn:Es; [pose proof (spine_head T) as Hh; by rewrite Es, He in Hh|].
    pose proof (spine_head T) as Hh. rewrite Es, He in Hh. cbn in Hh. injection Hh as ->.
    destruct (minimum_left _ _ _ _ _ H Es) as [(n & En & El) _]. cbn in Hm. rewrite Hm, En. exists n. split; [done|].
    rewrite El, bool_decide_false by done. by rewrite He.
Qed.

Lemma before_nil c : before c = [] -> Forall (fun f => f_side f = L) c.
Proof.
  induction c as [|[s k x U] c IH]; [constructor|]. cbn. intros [H1 H2]%app_eq_nil. destruct s.
  - constructor; [done|by apply IH].
  - by destruct (elems U).
Qed.

(** The new leaf below the end of the path. *)
Lemma attach_ok t s k p U c a n X :
  rep t (mkFrame s k p U :: c) Lf ((a, n) :: X) -> left_child n = None -> right_child n = None ->
  exists t1 t2, modify t (Some (i_addr p)) (with_child s (Some a)) = Ok t1 /\
    modify t1 (Some a) (with_parent (Some (i_addr p))) = Ok t2 /\ same_rest t t2 /\
    rep t2 (mkFrame s k p U :: c) (Nd (color n) Lf (mkItem a (key n) (value n)) Lf) X.
Proof.
  intros [H R] Hl Hr. unfold zcells in H. cbn in H. front H (i_addr p).
  destruct (modify_has _ _ _ (with_child s (Some a)) _ H) as (t1 & -> & H1 & S1 & R1). front H1 a.
  destruct (modify_has _ _ _ (with_parent (Some (i_addr p))) _ H1) as (t2 & E2 & H2 & S2 & R2).
  exists t1, t2. split; [done|]. split; [done|]. split; [by eapply same_rest_trans|]. split.
  - eapply has_perm; [|exact H2]. unfold zcells. cbn. rewrite node_of_with_child. unfold cell, with_parent.
    rewrite Hl, Hr. cbn. perm.
  - rewrite R2, R1, R. apply zip_root_cons.
Qed.

Lemma length_path c T : (length c + length (elems T) <= length (elems (zip c T)))%nat.
Proof.
  revert T. induction c as [|[s k x U] c IH]; intros T; cbn [zip length]; [lia|].
  specialize (IH (fill (mkFrame s k x U) T)). etransitivity; [|exact IH]. unfold fill. cbn. rewrite elems_nd.
  destruct s; cbn; rewrite !length_app; cbn; lia.
Qed.

(** The fixups after a new red leaf was attached; a tree of height two needs none. *)
Lemma insert_balance_ok t f c x X :
  rep t (f :: c) (Nd Red Lf x Lf) X -> valid (zip (f :: c) Lf) ->
  exists t' T', match top c with Some _ => insert_fixups t (Some (i_addr x)) | None => Ok t end = Ok t' /\
    rep t' [] T' X /\ valid T' /\ elems T' = before (f :: c) ++ x :: after (f :: c) /\ same_rest t t' /\
    (before (f :: c) = [] -> take 2 (spine T') = [x; f_item f]).
Proof.
  intros H Hv. destruct (zip_valid_inv _ _ Hv) as (n & Hc & -> & _).
  assert (before (f :: c) = [] -> take 2 (spine (zip (f :: c) (Nd Red Lf x Lf))) = [x; f_item f]) as Hs.
  { intros Hb. rewrite spine_zip by (by apply before_nil). done. }
  destruct c as [|g c]; cbn [top].
  - exists t, (zip [f] (Nd Red Lf x Lf)). split; [done|]. split; [by apply (proj1 (rep_zip _ _ _ _))|].
    split; [|split; [by rewrite elems_around|done]]. apply (zip_valid _ _ 0%nat); [done|done|]. intros _.
    cbn in Hc |- *. destruct (f_color f); [|done]. by destruct Hc as (_ & _ & [] & _).
  - unfold insert_fixups. rewrite bool_decide_true by done. cbn [verify res_bind].
    destruct (deref_root _ _ _ _ H) as (m & Em & _ & Ec); [done|]. cbn [root] in Em. rewrite Em. cbn [res_bind].
    rewrite Ec, bool_decide_true by done. cbn [verify res_bind].
    destruct (insert_fixups_loop_ok (turns t) t (f :: g :: c) (Nd Red Lf x Lf) X 0%nat)
      as (t' & T' & E & H' & Hv' & Le & Hs' & M); try done.
    { rewrite (turns_rep _ _ _ _ H). pose proof (length_path (f :: g :: c) (Nd Red Lf x Lf)). cbn in *. lia. }
    exists t', T'. split; [done|]. split; [done|]. split; [done|]. split; [by rewrite Le, elems_around|].
    split; [done|]. intros Hb. rewrite M by (by apply before_nil). by apply Hs.
Qed.

Lemma insert_node_ok t T a k v X :
  rep t [] T ((a, new_node k v) :: X) -> valid T -> ordered (elems T) -> minimum_ok t (elems T) ->
  m_size t = Z.of_nat (length (elems T)) -> Z.of_nat (length (elems T)) + 1 < 2 ^ 32 ->
  exists t' T', insert_node t (Some a) = Ok t' /\ rep t' [] T' X /\ valid T' /\ ordered (elems T') /\
    elems T' = insort (mkItem a k v) (elems T) /\ minimum_ok t' (elems T') /\
    m_size t' = Z.of_nat (length (elems T')).
Proof.
  intros H Hv Ho Hm Hz Hlt. set (x := mkItem a k v). unfold insert_node. rewrite bool_decide_true by done. cbn [verify res_bind].
  pose proof H as [Hh Hroot]. front Hh a. rewrite (deref_has _ _ _ _ Hh). cbn [res_bind key new_node]. cbn [zip] in Hroot.
  destruct (insert_position_ok (turns t) t [] T ((a, new_node k v) :: X) k) as (c & E & Ez & Hb & Ha); try done;
    [rewrite (turns_rep _ _ _ _ H); cbn; lia|by constructor|by constructor|].
  cbn [top] in E. rewrite Hroot, E. cbn [res_bind]. cbn in Ez. subst T. rewrite elems_around in *. cbn [elems app] in *.
  assert (insort x (before c ++ after c) = before c ++ x :: after c) as -> by (by apply insort_split).
  pose proof (ordered_insort x _ _ Ho Hb Ha) as Ho'.
  destruct c as [|[s kc p U] c].
  { cbn [top]. destruct (modify_has _ _ _ (with_color Black) _ Hh) as (t' & -> & H' & S' & R'). cbn [res_bind].
    eexists. exists (Nd Black Lf x Lf). split; [done|]. cbn. split; [|split]; [split; [|done]|..].
    - cbn. eapply has_perm; [|exact H']. cbn. perm.
    - split; [done|]. by exists 1%nat, 0%nat.
    - split; [done|]. split; [done|]. split; [done|]. by cbn. }
  cbn [top f_item]. apply rep_zip in H. pose proof H as Hp. apply rep_out in Hp.
  rewrite (deref_rep _ _ _ _ _ _ _ _ Hp). cbn [res_bind]. node.
  assert ((if k <? i_key p then L else R) = s) as ->.
  { destruct s; cbn in Hb, Ha.
    - apply Forall_cons in Ha as [Ha _]. by destruct (Z.ltb_spec k (i_key p)); [|lia].
    - apply Forall_app in Hb as [_ Hb]. apply Forall_app in Hb as [_ Hb]. apply Forall_cons in Hb as [Hb _].
      by destruct (Z.ltb_spec k (i_key p)); [lia|]. }
  destruct (attach_ok _ _ _ _ _ _ _ _ _ H eq_refl eq_refl) as (t1 & t2 & -> & E2 & S2 & H2). cbn [res_bind].
  rewrite E2. cbn [res_bind color key value new_node] in *. fold x in H2.
  pose proof H2 as Hp2. apply rep_out in Hp2. rewrite (deref_rep _ _ _ _ _ _ _ _ Hp2). cbn [res_bind]. node.
  destruct (insert_balance_ok _ _ _ _ _ H2 Hv) as (t3 & T3 & E3 & H3 & V3 & L3 & S3 & M3).
  cbn [i_addr x] in E3. rewrite E3. cbn [res_bind]. set (bs := before _) in *. set (as_ := after _) in *.
  pose proof (same_rest_trans _ _ _ S2 S3) as [Z3 N3].
  set (t4 := with_size t3 (wrap size_t (m_size t3 + 1))).
  destruct (update_minimum t4 T3 X bs as_ x) as (m & -> & Hm'); [exact H3|done| | | |].
  { subst bs as_. destruct s; cbn; [by destruct (before c)|]. by destruct (before c), (elems U). }
  { unfold minimum_ok in *. cbn. by rewrite N3. }
  { intros Hn. exists p. rewrite (M3 Hn). split; [|done]. subst bs as_. destruct s; [done|]. cbn in Hn.
    by destruct (before c), (elems U). }
  cbn [res_bind]. eexists _, T3. split; [done|].
  split; [|split; [done|split; [by rewrite L3|split; [done|split; [done|]]]]].
  - destruct (bool_decide _); exact H3.
  - clearbody bs as_. transitivity (wrap size_t (m_size t3 + 1)); [by destruct (bool_decide _)|]. rewrite Z3, Hz, L3, !length_app in *. cbn.
    rewrite wrap_id; [lia|done|]. apply in_ty_spec. cbn. lia.
Qed.

(** ** Neighbours in order *)

(** The items of a subtree, and those beyond a position, in the direction of
    [neighbour s]. *)
Definition out (s : side) (T : tree) : list item := match s with L => elems T | R => reverse (elems T) end.
Definition beyond (s : side) (c : ctx) : list item := match s with L => after c | R => reverse (before c) end.

Definition first (l : list item) : option ptr := i_addr <$> head l.

Lemma out_nd s k x A B : out s (nd s k x A B) = out s A ++ x :: out s B.
Proof. destruct s; unfold out; cbn [nd elems]; [done|]. by rewrite reverse_app, reverse_cons, <-app_assoc. Qed.

Lemma beyond_same s f c : f_side f = s -> beyond s (f :: c) = f_item f :: out s (f_sibling f) ++ beyond s c.
Proof.
  intros <-. destruct f as [[] k x U]; unfold beyond, out; cbn [f_side f_item f_sibling before after]; [done|].
  by rewrite !reverse_app.
Qed.

Lemma beyond_other s f c : f_side f = opp s -> beyond s (f :: c) = beyond s c.
Proof. intros E. destruct f as [fs k x U], s; cbn in E; subst fs; unfold beyond; cbn [f_side before after]; [done|]. by rewrite app_nil_r. Qed.

Lemma out_not_nil s T : T <> Lf -> out s T <> [].
Proof.
  intros HT. destruct (as_nd s T HT) as (k & x & A & B & ->). rewrite out_nd. by destruct (out s A).
Qed.

Lemma first_app a b : a <> [] -> first (a ++ b) = first a.
Proof. by destruct a. Qed.

Lemma descend_ok s fuel t c T X :
  (length (elems T) < fuel)%nat -> rep t c T X -> T <> Lf -> descend s fuel t (root T) = Ok (first (out s T)).
Proof.
  revert c T. induction fuel as [|fuel IH]; intros c T Hf H HT; [lia|].
  destruct (as_nd s T HT) as (k & x & A & B & ->). rewrite root_nd. cbn [descend].
  rewrite (deref_rep _ _ _ _ _ _ _ _ H). cbn [res_bind]. node. rewrite out_nd.
  destruct A as [|k' l' x' r']; cbn [root]; [by destruct s|].
  rewrite first_app by (by apply out_not_nil). apply (IH (mkFrame s k x B :: c) (Nd k' l' x' r')); [|by apply rep_in|done].
  rewrite elems_nd in Hf. destruct s; cbn in *; rewrite !length_app in *; cbn in *; rewrite ?length_app in *; cbn in *; lia.
Qed.

Lemma ascend_ok s fuel t c T X :
  (length c < fuel)%nat -> rep t c T X -> T <> Lf -> ascend s fuel t (root T) (top c) = Ok (first (beyond s c)).
Proof.
  revert c T. induction fuel as [|fuel IH]; intros c T Hf H HT; [lia|].
  cbn [ascend]. destruct c as [|[fs k p U] c]; [by destruct s|]. cbn [top f_item].
  pose proof (sibling_ne _ _ _ _ H HT) as Hne. cbn in Hne.
  pose proof H as Hp. apply rep_out in Hp. rewrite (deref_rep _ _ _ _ _ _ _ _ Hp). cbn [res_bind]. node.
  assert (fs = s \/ fs = opp s) as [-> | ->] by (destruct s, fs; auto).
  - rewrite node_of_other, bool_decide_false by done. by rewrite beyond_same.
  - rewrite node_of_child, bool_decide_true by done. rewrite beyond_other by done.
    specialize (IH c (nd (opp s) k p T U) ltac:(cbn in Hf; lia) Hp ltac:(by destruct s)). by rewrite root_nd in IH.
Qed.

Lemma neighbour_ok s t c k x A B X :
  rep t c (nd s k x A B) X -> neighbour s t (Some (i_addr x)) = Ok (first (out s B ++ beyond s c)).
Proof.
  intros H. unfold neighbour. rewrite bool_decide_true by done. cbn [verify res_bind].
  rewrite (deref_rep _ _ _ _ _ _ _ _ H). cbn [res_bind]. node.
  pose proof (length_path c (nd s k x A B)) as Hl. pose proof (turns_rep _ _ _ _ H) as Ht.
  destruct B as [|k' l' x' r'] eqn:EB; cbn [root].
  - replace (out s Lf ++ beyond s c) with (beyond s c) by (by destruct s). rewrite <-(root_nd s k x A Lf).
    eapply ascend_ok; [|exact H|by destruct s]. lia.
  - rewrite first_app by (by apply out_not_nil).
    assert (rep t (mkFrame (opp s) k x A :: c) B X) as HB by (subst B; apply rep_in; by rewrite nd_opp).
    subst B. apply (descend_ok s (turns t)) in HB; [done| |done]. rewrite Ht.
    rewrite elems_nd in Hl. destruct s; cbn in *; rewrite !length_app in *; cbn in *; rewrite ?length_app in *; cbn in *; lia.
Qed.

(** ** Exchanging a node with its successor *)

(** A path inside a subtree whose parent is [q]. *)
Definition ptop (q : option ptr) (c : ctx) : option ptr :=
  match c with [] => q | f :: _ => Some (i_addr (f_item f)) end.

Fixpoint pcells (q : option ptr) (c : ctx) (r : option ptr) : list (ptr * Node V) :=
  match c with
  | [] => []
  | f :: c => cell (f_side f) (ptop q c) (f_color f) (f_item f) r (root (f_sibling f))
      :: cells (Some (i_addr (f_item f))) (f_sibling f) ++ pcells q c (Some (i_addr (f_item f)))
  end.

Lemma cells_zip q c T : cells q (zip c T) ≡ₚ pcells q c (root T) ++ cells (ptop q c) T.
Proof.
  revert T. induction c as [|f c IH]; intros T; cbn [zip pcells ptop]; [done|].
  rewrite IH. unfold fill. rewrite root_nd, cells_nd. perm.
Qed.

Lemma rep_app t c c' T X : rep t c' (zip c T) X <-> rep t (c ++ c') T X.
Proof. revert T. induction c as [|f c IH]; intros T; [done|]. cbn. by rewrite rep_up, IH. Qed.

Lemma rep_root_step t t' c x y T T' :
  m_root t = root (zip c T) -> root T = Some x -> root T' = Some y ->
  m_root t' = match c with [] => Some y | _ => m_root t end -> m_root t' = root (zip c T').
Proof. intros R Rx Ry ->. destruct c as [|f c]; [done|]. rewrite R. apply zip_root_cons. Qed.

(** [if (c) c->parent = p'] on a subtree that is there. *)
Lemma reparent_nonnull t p p' T Y :
  has (store t) (cells p T ++ Y) -> T <> Lf ->
  exists t', modify t (root T) (with_parent p') = Ok t' /\ has (store t') (cells p' T ++ Y) /\ same_root t t'.
Proof.
  intros H HT. destruct (reparent_ok t p p' T Y H) as (t' & E & H' & S). exists t'. split; [|done].
  by destruct T.
Qed.

Ltac reparent t p p' T Y :=
  let E := fresh "E" in let H' := fresh "H" in let S' := fresh "S" in let t' := fresh "t" in
  match goal with
  | H : has (store t) _, S : same_root ?t0 t |- _ =>
      destruct (reparent_ok t p p' T Y) as (t' & E & H' & S'); [eapply has_perm; [|exact H]; unfold cell; cbn [root]; perm|];
      rewrite E; cbn [res_bind]; apply (same_root_trans _ _ _ S) in S'; clear H S E
  end.

Lemma relink_neighbour t c k l x ky y ry X :
  rep t c (Nd k l x (Nd ky Lf y ry)) X -> l <> Lf ->
  exists t', relink_with_successor t (Some (i_addr x)) = Ok t' /\ rep t' c (Nd k l y (Nd ky Lf x ry)) X /\ same_rest t t'.
Proof.
  intros Hrep Hl. pose proof (sibling_ne _ _ _ _ Hrep ltac:(done)) as Hsib. cbn [root] in Hsib.
  unfold relink_with_successor, successor. rewrite (neighbour_ok L t c k x l (Nd ky Lf y ry) X Hrep).
  cbn [res_bind out elems app first head fmap option_fmap option_map].
  destruct Hrep as [H R]. unfold zcells in H. cbn [cells root] in H.
  assert (same_root t t) as S by done. step. cbn [parent node_of]. rewrite bool_decide_true by done. step. cbn [left_child node_of].
  destruct (reparent_nonnull t (Some (i_addr x)) (Some (i_addr y)) l
    (ccells c (Some (i_addr x)) ++ cell L (top c) k x (root l) (Some (i_addr y)) ::
     cell L (Some (i_addr x)) ky y None (root ry) :: cells (Some (i_addr y)) ry ++ X))
    as (t1 & -> & H1 & S1); [eapply has_perm; [|exact H]; unfold cell; cbn; perm|done|]. cbn [res_bind].
  clear S H. step. cbn [parent node_of].
  destruct (replace_child_ok t1 c (Some (i_addr x)) (Some (i_addr y))
    (cells (Some (i_addr y)) l ++ cell L (top c) k x (root l) (Some (i_addr y)) ::
     cell L (Some (i_addr x)) ky y None (root ry) :: cells (Some (i_addr y)) ry ++ X))
    as (t2 & -> & H2 & S2 & R2); [eapply has_perm; [|exact H1]; unfold cell; cbn; perm|done|]. cbn [res_bind].
  rename S1 into S1'. clear H1. assert (same_root t2 t2) as S by done. run.
  reparent t2 (Some (i_addr y)) (Some (i_addr x)) ry
    (ccells c (Some (i_addr y)) ++ cells (Some (i_addr y)) l ++
      (i_addr x, node_of L (top c) k x (root l) (Some (i_addr y))) ::
      (i_addr y, node_of L (Some (i_addr x)) ky y None (root ry)) :: X). run.
  match goal with H : has (store ?t') _, S : same_root t2 ?t' |- _ =>
    exists t'; split; [done|]; destruct S as [S R']; split; [|by eapply same_rest_trans; [apply S1'|];
      eapply same_rest_trans]; split; [eapply has_perm; [|exact H]; unfold zcells, cell; cbn; perm|] end.
  eapply (rep_root_step t); [exact R|done|done|]. rewrite R', R2. destruct c; [done|]. apply S1'.
Qed.

Lemma relink_distant t c k l x ky y ry k1 i1 U1 path X :
  let r z := zip (mkFrame L k1 i1 U1 :: path) (Nd ky Lf z ry) in
  rep t c (Nd k l x (r y)) X -> l <> Lf -> head (elems (r y)) = Some y ->
  exists t', relink_with_successor t (Some (i_addr x)) = Ok t' /\ rep t' c (Nd k l y (r x)) X /\ same_rest t t'.
Proof.
  intros r Hrep Hl Hy. pose proof (sibling_ne _ _ _ _ Hrep ltac:(done)) as Hsib. cbn [root] in Hsib.
  assert (root (r x) = root (r y)) as Hr by apply zip_root_cons.
  assert (r y <> Lf) as Hry by (by apply zip_not_leaf).
  unfold relink_with_successor, successor. rewrite (neighbour_ok L t c k x l (r y) X Hrep).
  assert (first (out L (r y) ++ beyond L c) = Some (i_addr y)) as ->.
  { rewrite first_app by (by apply out_not_nil). unfold first, out. by rewrite Hy. }
  destruct Hrep as [H R]. unfold zcells in H. cbn [cells root] in H.
  assert (forall q z, cells q (r z) ≡ₚ cell L (ptop q path) k1 i1 (Some (i_addr z)) (root U1) ::
    cells (Some (i_addr i1)) U1 ++ pcells q path (Some (i_addr i1)) ++
    cell L (Some (i_addr i1)) ky z None (root ry) :: cells (Some (i_addr z)) ry) as Hcells.
  { intros q z. subst r. cbv beta. rewrite cells_zip. cbn. perm. }
  assert (i_addr i1 <> i_addr x) as Hne.
  { rewrite Hcells in H. front H (i_addr x). unfold cell in H. front H (i_addr i1). by eapply has_ne. }
  assert (has (store t) (cells (Some (i_addr x)) (r y) ++ ccells c (Some (i_addr x)) ++
    cell L (top c) k x (root l) (root (r y)) :: cells (Some (i_addr x)) l ++ X)) as H' by
    (eapply has_perm; [|exact H]; perm).
  rewrite Hcells in H. assert (same_root t t) as S by done. cbn [res_bind]. run. rewrite bool_decide_false by congruence.
  destruct (reparent_nonnull t (Some (i_addr x)) (Some (i_addr y)) l
    (cells (Some (i_addr x)) (r y) ++ ccells c (Some (i_addr x)) ++ cell L (top c) k x (root l) (root (r y)) :: X))
    as (t1 & E1 & H1 & S1); [eapply has_perm; [|exact H']; perm|done|].
  rewrite E1. cbn [res_bind]. clear S H H'. run.
  destruct (reparent_nonnull t1 (Some (i_addr x)) (Some (i_addr y)) (r y)
    (cells (Some (i_addr y)) l ++ ccells c (Some (i_addr x)) ++ cell L (top c) k x (root l) (root (r y)) :: X))
    as (t2 & -> & H2 & S2); [eapply has_perm; [|exact H1]; unfold cell; perm|done|].
  apply (same_root_trans _ _ _ S1) in S2. cbn [res_bind]. clear S1 H1 E1. run.
  destruct (replace_child_ok t2 c (Some (i_addr x)) (Some (i_addr y))
    (cells (Some (i_addr y)) (r y) ++ cells (Some (i_addr y)) l ++ cell L (top c) k x (root l) (root (r y)) :: X))
    as (t3 & -> & H3 & S3 & R3); [eapply has_perm; [|exact H2]; unfold cell; cbn [node_of]; perm|done|].
  clear H2. rewrite Hcells in H3. cbn [res_bind]. assert (same_root t3 t3) as S by done. run.
  reparent t3 (Some (i_addr y)) (Some (i_addr x)) ry
    (ccells c (Some (i_addr y)) ++ cells (Some (i_addr y)) l ++ cells (Some (i_addr i1)) U1 ++
     pcells (Some (i_addr y)) path (Some (i_addr i1)) ++
     cell L (top c) k x (root l) (root (r y)) :: cell L (Some (i_addr i1)) ky y None (root ry) ::
     cell L (ptop (Some (i_addr y)) path) k1 i1 (Some (i_addr y)) (root U1) :: X).
  unfold cell in *. run. cbn [replace_child]. run. rewrite bool_decide_true by done. run. cbn [res_bind]. run.
  match goal with H : has (store ?t') _, S : same_root t3 ?t' |- _ =>
    exists t'; split; [done|]; destruct S as [S R']; destruct S2 as [S2 R2]; split;
    [|eapply same_rest_trans; [exact S2|]; by eapply same_rest_trans];
    split; [eapply has_perm; [|exact H]; unfold zcells; cbn [cells root]; rewrite Hcells, Hr; unfold cell, with_color; cbn; perm|] end.
  eapply (rep_root_step t); [exact R|done|done|]. rewrite R', R3. by destruct c.
Qed.

(** ** Rebalancing after a removal *)

(** A subtree one black node short of [S n], as the fixups meet it: black, or red
    with a red child that its own recolouring repairs. *)
Definition short (T : tree) (n : nat) : Prop :=
  match tree_color T with Black => ok T n | Red => ok (blacken T) (S n) end.

Lemma ok_height_nonleaf T n : ok T (S n) -> T <> Lf.
Proof. by intros H ->. Qed.

Lemma black_sibling_ok t s k p W c T X n :
  rep t (mkFrame s k p W :: c) T X -> okc (mkFrame s k p W :: c) (S n) ->
  exists t' k' W' c', black_sibling s t (Some (i_addr p)) = Ok (t', root W') /\
    rep t' (mkFrame s k' p W' :: c') T X /\ okc (mkFrame s k' p W' :: c') (S n) /\ tree_color W' = Black /\
    elems (zip (mkFrame s k' p W' :: c') T) = elems (zip (mkFrame s k p W :: c) T) /\ same_rest t t' /\
    (k' = Red \/ c' = c).
Proof.
  intros H Hc. pose proof Hc as [HW Hk]. cbn in HW, Hk. unfold black_sibling. pose proof H as Hp. apply rep_out in Hp.
  rewrite (deref_rep _ _ _ _ _ _ _ _ Hp). cbn [res_bind]. node.
  destruct (as_nd s W (ok_height_nonleaf _ _ HW)) as (kw & w & A & B & ->). rewrite root_nd.
  pose proof (rep_sibling _ _ _ _ _ _ _ _ H) as Hw. rewrite (deref_rep _ _ _ _ _ _ _ _ Hw). cbn [res_bind]. node.
  destruct kw.
  2: { rewrite bool_decide_false by done. exists t, k, (nd s Black w A B), c. rewrite root_nd, tree_color_nd.
    repeat (split; [done|]). by right. }
  rewrite bool_decide_true by done. destruct k; [destruct Hk as [Hk _]; by rewrite tree_color_nd in Hk|].
  destruct (recolor_rep _ _ _ Black _ _ _ _ _ Hw) as (t1 & -> & H1 & S1). cbn [res_bind].
  apply rep_sibling in H1. rewrite opp_opp in H1. apply rep_out in H1.
  destruct (recolor_rep _ _ _ Red _ _ _ _ _ H1) as (t2 & -> & H2 & S2). cbn [res_bind].
  destruct (rotate_ok _ _ _ _ _ _ _ _ _ _ _ H2) as (t3 & -> & H3 & S3). cbn [res_bind].
  apply rep_in in H3. rewrite (deref_rep _ _ _ _ _ _ _ _ H3). cbn [res_bind]. node.
  apply ok_red in HW as (HA & HB & CA & CB).
  exists t3, Red, A, (mkFrame s Black w B :: c). split; [done|]. split; [by apply rep_in|]. split; [done|]. split; [done|].
  split; [|split; [by eauto using same_rest_trans|by left]].
  cbn. apply elems_zip. unfold fill. cbn. by rewrite !elems_nd, !join_assoc.
Qed.

(** The last case: the far nephew is red, one rotation repairs the tree. *)
Lemma remove_rotate_ok t s k p w A B c T X :
  rep t (mkFrame s k p (nd s Black w A B) :: c) T X -> tree_color B = Red ->
  exists t', (let* p_ := deref t (Some (i_addr p)) in
     let* t := modify t (Some (i_addr w)) (with_color (color p_)) in
     let* t := modify t (Some (i_addr p)) (with_color Black) in
     let* b := deref t (Some (i_addr w)) in
     let* t := modify t (child (opp s) b) (with_color Black) in
     let* t := rotate s t (Some (i_addr p)) in
     Ok (t, m_root t)) = Ok (t', m_root t') /\
    rep t' c (nd s k w (nd s Black p T A) (blacken B)) X /\ same_rest t t'.
Proof.
  intros H HB. pose proof H as Hp. apply rep_out in Hp. rewrite (deref_rep _ _ _ _ _ _ _ _ Hp). cbn [res_bind]. node.
  apply rep_sibling in H. destruct (recolor_rep _ _ _ k _ _ _ _ _ H) as (t1 & -> & H1 & S1). cbn [res_bind].
  apply rep_sibling in H1. rewrite opp_opp in H1. apply rep_out in H1.
  destruct (recolor_rep _ _ _ Black _ _ _ _ _ H1) as (t2 & -> & H2 & S2). cbn [res_bind].
  apply rep_in in H2. apply rep_sibling in H2. rewrite (deref_rep _ _ _ _ _ _ _ _ H2). cbn [res_bind]. node.
  apply rep_in, rep_sibling in H2. destruct B as [|kb l b r]; [done|]. cbn [root].
  destruct (recolor_rep _ L _ Black _ _ _ _ _ H2) as (t3 & -> & H3 & S3). cbn [res_bind].
  apply rep_sibling in H3. rewrite opp_opp in H3. apply rep_out in H3. apply rep_sibling in H3. rewrite opp_opp in H3.
  apply rep_out in H3. destruct (rotate_ok _ _ _ _ _ _ _ _ _ _ _ H3) as (t4 & -> & H4 & S4). cbn [res_bind].
  exists t4. split; [done|]. split; [exact H4|]. eauto using same_rest_trans.
Qed.

(** A red near nephew takes the place of the sibling first. *)
Lemma remove_lift_ok t s k p w A B c T X :
  rep t (mkFrame s k p (nd s Black w A B) :: c) T X -> tree_color A = Red ->
  exists t' a A1 A2, A = nd s Red a A1 A2 /\
    (let* t := modify t (root A) (with_color Black) in
     let* t := modify t (Some (i_addr w)) (with_color Red) in
     let* t := rotate (opp s) t (Some (i_addr w)) in
     let* p_ := deref t (Some (i_addr p)) in
     Ok (t, child (opp s) p_)) = Ok (t', Some (i_addr a)) /\
    rep t' (mkFrame s k p (nd s Black a A1 (nd s Red w A2 B)) :: c) T X /\ same_rest t t'.
Proof.
  intros H HA. destruct (as_nd s A (red_not_leaf _ HA)) as (ka & a & A1 & A2 & ->). rewrite tree_color_nd in HA. subst ka.
  apply rep_sibling, rep_in in H. rewrite root_nd.
  destruct (recolor_rep _ _ _ Black _ _ _ _ _ H) as (t1 & -> & H1 & S1). cbn [res_bind]. apply rep_out in H1.
  destruct (recolor_rep _ _ _ Red _ _ _ _ _ H1) as (t2 & -> & H2 & S2). cbn [res_bind].
  destruct (rotate_opp_ok _ _ _ _ _ _ _ _ _ _ _ H2) as (t3 & -> & H3 & S3). cbn [res_bind].
  apply rep_sibling in H3. rewrite opp_opp in H3. pose proof H3 as Hp. apply rep_out in Hp.
  rewrite (deref_rep _ _ _ _ _ _ _ _ Hp). cbn [res_bind]. node.
  exists t3, a, A1, A2. split; [done|]. split; [done|]. split; [done|]. eauto using same_rest_trans.
Qed.

(** The subtree after the last case, put back into a path that expected the old one. *)
Lemma repaired_valid s k w p T A B c n :
  okc (mkFrame s k p (nd s Black w A B) :: c) (S n) -> ok T n -> ok A n -> ok B n -> tree_color B = Red ->
  valid (zip c (nd s k w (nd s Black p T A) (blacken B))).
Proof.
  intros [_ Hc] HT HA HB CB. cbn in Hc.
  assert (ok (nd s Black p T A) (S n)) by (apply ok_black; by exists n).
  assert (ok (blacken B) (S n)) by (by apply ok_blacken). destruct k.
  - destruct Hc as (_ & Ha & Hc). apply (zip_valid c _ (S n)); [done| |done].
    apply ok_red. rewrite tree_color_nd. by destruct B.
  - apply (zip_valid c _ (S (S n))); [done| |by rewrite tree_color_nd]. apply ok_black. by exists (S n).
Qed.

Lemma rep_m_root t c T X : rep t c T X -> m_root t = root (zip c T).
Proof. by intros [_ ?]. Qed.

Lemma remove_fixup_ok t s k p W c T X n :
  rep t (mkFrame s k p W :: c) T X -> okc (mkFrame s k p W :: c) (S n) -> ok T n -> tree_color T = Black ->
  exists t' c' T' n', remove_fixup s t (Some (i_addr p)) = Ok (t', root T') /\ T' <> Lf /\
    rep t' c' T' X /\ okc c' (S n') /\ short T' n' /\ elems (zip c' T') = elems (zip (mkFrame s k p W :: c) T) /\
    same_rest t t' /\ (tree_color T' = Red \/ (length c' <= length c)%nat).
Proof.
  intros H Hc HT CT. unfold remove_fixup.
  destruct (black_sibling_ok _ _ _ _ _ _ _ _ _ H Hc) as (t1 & k1 & W1 & c1 & -> & H1 & Hc1 & CW & L1 & S1 & Hk1).
  cbn [res_bind]. pose proof Hc1 as [HW1 Hc1']. cbn in HW1, Hc1'. rewrite <-L1. clear L1.
  destruct (as_nd s W1 (ok_height_nonleaf _ _ HW1)) as (kw & w & A & B & ->). rewrite tree_color_nd in CW. subst kw.
  rewrite root_nd. apply ok_black in HW1 as (m & [= <-] & HA & HB).
  pose proof (rep_sibling _ _ _ _ _ _ _ _ H1) as Hw. rewrite (deref_rep _ _ _ _ _ _ _ _ Hw). cbn [res_bind]. node.
  pose proof (rep_in _ _ _ _ _ _ _ _ Hw) as HwA. rewrite (is_black_rep _ _ _ _ HwA). cbn [res_bind].
  rewrite (is_black_rep _ _ _ _ (rep_sibling _ _ _ _ _ _ _ _ HwA)). cbn [res_bind].
  destruct (tree_color B) eqn:CB.
  - rewrite (bool_decide_true (Red = Red)) by done. cbn [negb andb]. rewrite andb_false_r.
    destruct (remove_rotate_ok _ _ _ _ _ _ _ _ _ _ H1 CB) as (t2 & E2 & H2 & S2). cbn [res_bind] in E2 |- *. rewrite E2.
    pose proof (repaired_valid _ _ _ _ _ _ _ _ _ Hc1 HT HA HB CB) as [V1 [m V2]].
    exists t2, [], (zip c1 (nd s k1 w (nd s Black p T A) (blacken B))), m.
    rewrite (rep_m_root _ _ _ _ H2). split; [done|]. split; [apply zip_not_leaf; by destruct s|].
    split; [by apply (proj1 (rep_zip _ _ _ _))|]. split; [done|]. split; [unfold short; by rewrite V1|].
    split; [|split; [by eapply same_rest_trans|right; cbn; lia]].
    cbn. apply elems_zip. unfold fill. cbn. by rewrite !elems_nd, !join_assoc, elems_blacken.
  - rewrite (bool_decide_false (Black = Red)) by done. cbn [negb]. rewrite andb_true_r. destruct (tree_color A) eqn:CA.
    + rewrite (bool_decide_true (Red = Red)) by done. cbn [negb].
      destruct (remove_lift_ok _ _ _ _ _ _ _ _ _ _ H1 CA) as (t2 & a & A1 & A2 & -> & E2 & H2 & S2). rewrite E2. cbn [res_bind].
      apply ok_red in HA as (HA1 & HA2 & CA1 & CA2).
      assert (okc (mkFrame s k1 p (nd s Black a A1 (nd s Red w A2 B)) :: c1) (S n)) as Hc2.
      { cbn. split; [|by rewrite tree_color_nd in Hc1' |- *]. apply ok_black. exists n. split; [done|]. split; [done|]. by apply ok_red. }
      assert (ok (nd s Red w A2 B) n) as HB' by (by apply ok_red).
      destruct (remove_rotate_ok _ _ _ _ _ _ _ _ _ _ H2 (tree_color_nd _ _ _ _ _)) as (t3 & -> & H3 & S3).
      pose proof (repaired_valid _ _ _ _ _ _ _ _ _ Hc2 HT HA1 HB' (tree_color_nd _ _ _ _ _)) as [V1 [m V2]].
      eexists t3, [], (zip c1 _), m.
      rewrite (rep_m_root _ _ _ _ H3). split; [done|]. split; [apply zip_not_leaf; by destruct s|].
      split; [by apply (proj1 (rep_zip _ _ _ _))|]. split; [done|]. split; [unfold short; by rewrite V1|].
      split; [|split; [by eauto using same_rest_trans|right; cbn; lia]].
      cbn. apply elems_zip. unfold fill. cbn. by rewrite !elems_nd, elems_blacken, !elems_nd, !join_assoc.
    + rewrite (bool_decide_false (Black = Red)) by done. cbn [negb].
      destruct (recolor_rep _ _ _ Red _ _ _ _ _ Hw) as (t2 & -> & H2 & S2). cbn [res_bind].
      apply rep_sibling in H2. rewrite opp_opp in H2. apply rep_out in H2.
      assert (ok (nd s Red w A B) n) as HR by (by apply ok_red).
      exists t2, c1, (nd s k1 p T (nd s Red w A B)), (match k1 with Red => n | Black => S n end).
      rewrite root_nd. split; [done|]. split; [by destruct s|]. split; [done|].
      split; [destruct k1; [by destruct Hc1' as (_ & _ & ?)|done]|]. split; [|split; [|split; [by eapply same_rest_trans|]]].
      * unfold short. rewrite tree_color_nd. destruct k1.
        -- assert (blacken (nd s Red p T (nd s Red w A B)) = nd s Black p T (nd s Red w A B)) as -> by (by destruct s).
           apply ok_black. by exists n.
        -- apply ok_black. by exists n.
      * cbn. apply elems_zip. unfold fill. cbn. by rewrite !elems_nd.
      * rewrite tree_color_nd. destruct Hk1 as [-> | ->]; [by left|by right].
Qed.

(** A position below the root is not the root. *)
Lemma cells_addrs q T : (cells q T).*1 ≡ₚ i_addr <$> elems T.
Proof.
  revert q. induction T as [|k l IHl x r IHr]; intros q; [done|]. cbn. rewrite !fmap_app, IHl, IHr. cbn. perm.
Qed.

Lemma rep_addrs t c T X : rep t c T X -> NoDup (i_addr <$> elems (zip c T)).
Proof.
  intros H%rep_zip. destruct H as [[Hn _] _]. unfold zcells in Hn. cbn in Hn. rewrite fmap_app in Hn.
  apply NoDup_app in Hn as [Hn _]. by rewrite cells_addrs in Hn.
Qed.

Lemma root_around f c T : exists y, root (zip (f :: c) T) = Some (i_addr y) /\ y ∈ before (f :: c) ++ after (f :: c).
Proof.
  revert f T. induction c as [|g c IH]; intros f T.
  - exists (f_item f). cbn. unfold fill. rewrite root_nd. split; [done|]. destruct (f_side f); cbn; rewrite ?app_nil_r; [left|].
    apply elem_of_app. right. left.
  - destruct (IH g (fill f T)) as (y & E & Hy). exists y. split; [done|]. cbn [before after] in *.
    rewrite !elem_of_app in *. tauto.
Qed.

Lemma below_root t f c T X : rep t (f :: c) T X -> root T <> m_root t.
Proof.
  intros H E. pose proof (rep_addrs _ _ _ _ H) as Hn. destruct H as [_ R]. rewrite R in E.
  destruct (root_around f c T) as (y & Ey & Hy). rewrite Ey in E. destruct T as [|k l x r]; [done|].
  injection E as E. rewrite elems_around in Hn. cbn [elems] in Hn.
  assert (before (f :: c) ++ (elems l ++ x :: elems r) ++ after (f :: c) ≡ₚ
    x :: (before (f :: c) ++ after (f :: c)) ++ elems l ++ elems r) as Hp by perm.
  rewrite Hp in Hn. cbn [fmap list_fmap] in Hn. apply NoDup_cons in Hn as [Hx _]. apply Hx. rewrite E.
  apply list_elem_of_fmap. exists y. split; [done|]. apply elem_of_app. by left.
Qed.

Lemma remove_fixups_ok fuel t c T X n :
  (0 < fuel)%nat -> tree_color T = Red \/ (length c < fuel)%nat -> rep t c T X -> okc c (S n) -> short T n ->
  (c = [] -> T <> Lf) ->
  exists t' T', remove_fixups fuel t (root T) (top c) = Ok t' /\ rep t' [] T' X /\ valid T' /\
    elems T' = elems (zip c T) /\ same_rest t t'.
Proof.
  revert t c T n. induction fuel as [|fuel IH]; intros t c T n Hf0 Hf H Hc HT Hne; [lia|]. cbn [remove_fixups].
  assert (forall m, T <> Lf -> okc c (S m) -> ok (blacken T) (S m) ->
    exists t' T', modify t (root T) (with_color Black) = Ok t' /\ rep t' [] T' X /\ valid T' /\
      elems T' = elems (zip c T) /\ same_rest t t') as Hend.
  { intros m HN Hm Hb. destruct T as [|k l x r]; [done|]. cbn [root].
    destruct (recolor_rep t L k Black x c l r X H) as (t' & E & H' & Hs).
    exists t', (zip c (Nd Black l x r)). split; [done|]. split; [by apply (proj1 (rep_zip _ _ _ _))|].
    split; [by apply (zip_valid c _ (S m))|]. split; [|done]. by apply elems_zip. }
  destruct c as [|[s k p W] c].
  { rewrite (rep_m_root _ _ _ _ H). cbn [zip]. rewrite bool_decide_false by tauto. cbn [res_bind].
    specialize (Hne eq_refl). unfold short in HT. destruct T as [|[] l x r]; [done|by apply (Hend n)|].
    destruct HT as (m & -> & Hl & Hr). by apply (Hend m); [..|exists m]. }
  pose proof (below_root _ _ _ _ _ H) as Hb. rewrite bool_decide_true by done.
  rewrite (is_black_rep _ _ _ _ H). cbn [res_bind]. unfold short in HT. destruct (tree_color T) eqn:CT.
  { rewrite bool_decide_true by done. cbn [negb]. apply (Hend n); [by apply red_not_leaf|done|done]. }
  rewrite bool_decide_false by done. cbn [negb top f_item]. pose proof H as Hp. apply rep_out in Hp.
  rewrite (deref_rep _ _ _ _ _ _ _ _ Hp). cbn [res_bind].
  assert ((if bool_decide (left_child (node_of s (top c) k p (root T) (root W)) = root T) then L else R) = s) as ->.
  { destruct s; cbn; [by rewrite bool_decide_true|]. rewrite bool_decide_false; [done|].
    destruct Hc as [HW _]. cbn in HW. destruct T as [|kt lt xt rt]; [by destruct W|].
    by apply (sibling_ne _ _ _ _ H). }
  destruct (remove_fixup_ok _ _ _ _ _ _ _ _ _ H Hc HT CT) as (t1 & c1 & T1 & n1 & -> & N1 & H1 & Hc1 & D1 & L1 & S1 & Hm).
  cbn [res_bind]. destruct (deref_root _ _ _ _ H1 N1) as (nn & -> & Ep & _). cbn [res_bind]. rewrite Ep.
  destruct Hf as [Hf|Hf]; [done|]. cbn in Hf.
  destruct (IH t1 c1 T1 n1) as (t2 & T2 & E2 & H2 & V2 & L2 & S2); try done; [lia|destruct Hm; [by left|right; lia]|].
  exists t2, T2. split; [done|]. split; [done|]. split; [done|]. split; [by rewrite L2|by eapply same_rest_trans].
Qed.

(** ** Removal *)

(** The code after the relinking: the only child takes the place of the node. *)
Lemma splice_ok t c k l x r X :
  rep t c (Nd k l x r) X -> l = Lf \/ r = Lf ->
  let T := match l with Lf => r | _ => l end in
  let n := node_of L (top c) k x (root l) (root r) in
  match left_child n with Some q => Some q | None => right_child n end = root T /\
  exists t1 t2, match root T with Some _ => modify t (root T) (with_parent (top c)) | None => Ok t end = Ok t1 /\
    replace_child t1 (top c) (Some (i_addr x)) (root T) = Ok t2 /\
    rep t2 c T ((i_addr x, n) :: X) /\ same_rest t t2.
Proof.
  intros Hrep Hlr T n. pose proof (sibling_ne _ _ _ _ Hrep ltac:(done)) as Hsib. cbn [root] in Hsib.
  split; [by destruct l|]. destruct Hrep as [H Hroot]. unfold zcells in H. cbn [cells root] in H.
  assert (cells (Some (i_addr x)) l ++ cells (Some (i_addr x)) r = cells (Some (i_addr x)) T) as HT.
  { destruct Hlr as [-> | ->]; [done|]. cbn. rewrite app_nil_r. by destruct l. }
  rewrite HT in H.
  destruct (reparent_ok t (Some (i_addr x)) (top c) T (ccells c (Some (i_addr x)) ++ (i_addr x, n) :: X))
    as (t1 & E1 & H1 & S1 & R1); [eapply has_perm; [|exact H]; unfold cell; perm|].
  destruct (replace_child_ok t1 c (Some (i_addr x)) (root T) (cells (top c) T ++ (i_addr x, n) :: X))
    as (t2 & E2 & H2 & S2 & R2); [eapply has_perm; [|exact H1]; perm|done|].
  exists t1, t2. split; [done|]. split; [done|]. split; [|by eapply same_rest_trans]. split.
  - eapply has_perm; [|exact H2]. unfold zcells. perm.
  - rewrite R2. destruct c as [|f c]; [done|]. rewrite R1, Hroot. apply zip_root_cons.
Qed.

(** Taking out a node with at most one child. *)
Lemma remove_simple_ok t c k l x r X :
  rep t c (Nd k l x r) X -> l = Lf \/ r = Lf -> valid (zip c (Nd k l x r)) -> (c = [] -> l <> Lf \/ r <> Lf) ->
  exists t' T' n, take_out t (Some (i_addr x)) = Ok (with_size t' (wrap size_t (m_size t - 1))) /\
    rep t' [] T' ((i_addr x, n) :: X) /\ valid T' /\ elems T' = before c ++ elems l ++ elems r ++ after c /\ same_rest t t'.
Proof.
  intros H Hlr Hv Hne. destruct (splice_ok _ _ _ _ _ _ _ H Hlr) as (Ec & t1 & t2 & E1 & E2 & H2 & S2).
  set (T := match l with Lf => r | _ => l end) in *. set (n := node_of L (top c) k x (root l) (root r)) in *.
  assert (elems T = elems l ++ elems r) as HT.
  { subst T. destruct Hlr as [-> | ->]; cbn; rewrite ?app_nil_r; [done|by destruct l]. }
  unfold take_out. rewrite (deref_rep t L k x c l r X H). cbn [res_bind]. fold n. rewrite Ec.
  assert (parent n = top c) as -> by done. rewrite E1. cbn [res_bind]. rewrite E2. cbn [res_bind].
  destruct H2 as [Hh R2]. pose proof Hh as Hx. front Hx (i_addr x). rewrite (deref_has _ _ _ _ Hx). cbn [res_bind].
  assert (rep t2 c T ((i_addr x, n) :: X)) as H2 by done. assert (parent n = top c) as -> by done.
  destruct (zip_valid_inv _ _ Hv) as (h & Hc & Ho & Ha). assert (m_size t2 = m_size t) as Hz by apply S2.
  assert (color n = k) as -> by done. destruct k.
  - cbn [res_bind]. exists t2, (zip c T), n. rewrite Hz. split; [done|]. split; [by apply (proj1 (rep_zip _ _ _ _))|].
    destruct Ho as (Hl & Hr & Cl & Cr).
    assert (tree_color T = Black /\ ok T h) as [CT OT] by (by subst T; destruct l).
    split; [apply (zip_valid c T h); [done|done|by rewrite CT]|]. split; [|done].
    by rewrite elems_around, HT, <-app_assoc.
  - destruct Ho as (m & -> & Hl & Hr). assert (ok T m) as OT by (by subst T; destruct l).
    destruct (remove_fixups_ok (turns t2) t2 c T ((i_addr x, n) :: X) m) as (t3 & T3 & E3 & H3 & V3 & L3 & S3).
    + unfold turns. lia.
    + right. rewrite (turns_rep _ _ _ _ H2). pose proof (length_path c T). lia.
    + done.
    + done.
    + unfold short. destruct (tree_color T) eqn:CT; [by apply ok_blacken|done].
    + intros Hcn. subst T. destruct (Hne Hcn); by destruct l.
    + rewrite E3. cbn [res_bind]. destruct S3 as [Z3 N3]. exists t3, T3, n. rewrite Z3, Hz. split; [done|].
      split; [done|]. split; [done|]. split; [by rewrite L3, elems_around, HT, <-app_assoc|]. by eapply same_rest_trans.
Qed.

Lemma okc_item path s k x y l c n :
  okc (path ++ mkFrame s k x l :: c) n -> okc (path ++ mkFrame s k y l :: c) n.
Proof.
  revert n. induction path as [|f path IH]; intros n; [done|]. cbn. intros [HS H]. split; [done|].
  destruct (f_color f); [|by apply IH]. destruct H as (HB & Ha & H). split; [done|]. split; [by destruct path|by apply IH].
Qed.

Lemma elems_spine path T : Forall (fun f => f_side f = L) path -> elems (zip path T) = elems T ++ after path.
Proof.
  intros H. rewrite elems_around. assert (before path = []) as ->; [|done].
  induction H as [|f path Hs H IH]; [done|]. cbn. by rewrite IH, Hs.
Qed.

Lemma relink_ok t c k l x r X :
  rep t c (Nd k l x r) X -> l <> Lf -> r <> Lf ->
  exists path ky y ry t', relink_with_successor t (Some (i_addr x)) = Ok t' /\
    r = zip path (Nd ky Lf y ry) /\ Forall (fun f => f_side f = L) path /\
    rep t' (path ++ mkFrame R k y l :: c) (Nd ky Lf x ry) X /\ same_rest t t'.
Proof.
  intros H Hl Hr. destruct (spine r) as [|y rest] eqn:Es; [by destruct (spine_not_nil r Hr)|].
  destruct (spine_path _ _ _ Es) as (path & ky & ry & -> & Hp & _).
  assert (head (elems (zip path (Nd ky Lf y ry))) = Some y) as Hy by (by rewrite <-spine_head, Es).
  assert (exists t', relink_with_successor t (Some (i_addr x)) = Ok t' /\
    rep t' c (Nd k l y (zip path (Nd ky Lf x ry))) X /\ same_rest t t') as (t' & E & H' & S).
  { destruct path as [|[s1 k1 i1 U1] path]; [by apply relink_neighbour|].
    apply Forall_cons in Hp as [Hs _]. cbn in Hs. subst s1. by apply relink_distant. }
  exists path, ky, y, ry, t'. split; [done|]. split; [done|]. split; [done|]. split; [|done].
  apply (proj1 (rep_app _ _ _ _ _)). by apply (rep_in t' R).
Qed.

(** [m_minimum] when the node that holds it goes. *)
Lemma next_minimum t c k l x r X :
  rep t c (Nd k l x r) X -> minimum_ok t (elems (zip c (Nd k l x r))) ->
  let u := before c ++ elems l in let w := elems r ++ after c in
  u ++ w <> [] ->
  exists t', (if bool_decide (m_minimum t = Some (i_addr x))
              then let* s := successor t (Some (i_addr x)) in Ok (with_minimum t s) else Ok t) = Ok t' /\
    store t' = store t /\ m_root t' = m_root t /\ m_size t' = m_size t /\ minimum_ok t' (u ++ w).
Proof.
  intros H Hm u w Hne. pose proof (rep_addrs _ _ _ _ H) as Hn. rewrite elems_around in Hm, Hn. cbn [elems] in Hm, Hn.
  replace (before c ++ (elems l ++ x :: elems r) ++ after c) with (u ++ x :: w) in Hm, Hn by (subst u w; by rewrite <-!app_assoc).
  assert (out L r ++ beyond L c = w) as Ew by done. clearbody u w. destruct u as [|y u].
  - cbn in Hm. rewrite bool_decide_true by done. unfold successor. rewrite (neighbour_ok L t c k x l r X H).
    rewrite Ew. cbn [res_bind]. eexists. split; [done|]. split; [done|]. split; [done|].
    split; [done|]. unfold minimum_ok. cbn in Hne |- *. by destruct w.
  - cbn in Hm. rewrite bool_decide_false; [by exists t|]. rewrite Hm. intros [= E]. cbn in Hn.
    apply NoDup_cons in Hn as [Hy _]. apply Hy. rewrite E, fmap_app. apply elem_of_app. right. left.
Qed.

Lemma remove_node_ok t c k l x r X :
  rep t c (Nd k l x r) X -> valid (zip c (Nd k l x r)) -> minimum_ok t (elems (zip c (Nd k l x r))) ->
  let rest := (before c ++ elems l) ++ elems r ++ after c in
  m_size t = Z.of_nat (length rest) + 1 -> m_size t < 2 ^ 32 ->
  exists t' T' n, remove_node t (Some (i_addr x)) = Ok t' /\ rep t' [] T' ((i_addr x, n) :: X) /\ valid T' /\
    elems T' = rest /\ minimum_ok t' rest /\ m_size t' = Z.of_nat (length rest).
Proof.
  intros H Hv Hm rest Hz Hlt. unfold remove_node. rewrite bool_decide_true by done. cbn [verify res_bind].
  destruct (Z.eqb_spec (m_size t) 1) as [H1|H1].
  { assert (rest = []) as Hr by (destruct rest; [done|cbn in Hz; lia]). pose proof Hr as Hr'.
    subst rest. apply app_eq_nil in Hr as [[Hb Hl]%app_eq_nil [Hr Ha]%app_eq_nil].
    destruct c as [|f c]; [|cbn in Hb, Ha; destruct (f_side f); [done|by destruct (before c), (elems (f_sibling f))]].
    destruct l as [|kl ll xl rl]; [|cbn in Hl; by destruct (elems ll)].
    destruct r as [|kr lr xr rr]; [|cbn in Hr; by destruct (elems lr)].
    eexists _, Lf, _. split; [done|]. split; [split; [|done]|split; [|done]].
    - destruct H as [H _]. exact H.
    - split; [done|]. by exists 0%nat. }
  destruct (next_minimum _ _ _ _ _ _ _ H Hm) as (t1 & -> & Es & Er & Ez & Hm1); [fold rest; intros E; rewrite E in Hz; cbn in Hz; lia|].
  fold rest in Hm1. assert (rep t1 c (Nd k l x r) X) as H1' by (destruct H; split; [by rewrite Es|by rewrite Er]).
  cbn [res_bind]. rewrite (deref_rep t1 L k x c l r X H1'). cbn [res_bind node_of left_child right_child].
  assert (forall t2 t3, same_rest t1 t2 -> same_rest t2 t3 ->
    minimum_ok (with_size t3 (wrap size_t (m_size t2 - 1))) rest /\
    m_size (with_size t3 (wrap size_t (m_size t2 - 1))) = Z.of_nat (length rest)) as Hend.
  { intros t2 t3 [Z2 N2] [Z3 N3]. split; [unfold minimum_ok in *; cbn; by rewrite N3, N2|]. cbn.
    rewrite Z2, Ez, Hz, wrap_id; [lia|done|]. apply in_ty_spec. cbn. lia. }
  assert ((l = Lf \/ r = Lf) \/ l <> Lf /\ r <> Lf) as [Hlr|[Hl Hr]] by (destruct l, r; auto; by right).
  - assert (match root l, root r with Some _, Some _ => relink_with_successor t1 (Some (i_addr x)) | _, _ => Ok t1 end
      = Ok t1) as -> by (destruct Hlr as [-> | ->]; [done|by destruct l]).
    cbn [res_bind]. destruct (remove_simple_ok t1 c k l x r X H1' Hlr Hv) as (t2 & T2 & n & -> & H2 & V2 & L2 & S2).
    { intros ->. destruct l; [|by left]. destruct r; [|by right]. by cbn in Hz. }
    destruct (Hend t1 t2 (conj eq_refl eq_refl) S2). exists (with_size t2 (wrap size_t (m_size t1 - 1))), T2, n.
    split; [done|]. split; [exact H2|]. split; [done|]. split; [|done]. rewrite L2. subst rest. by rewrite <-!app_assoc.
  - assert (match root l, root r with Some _, Some _ => relink_with_successor t1 (Some (i_addr x)) | _, _ => Ok t1 end
      = relink_with_successor t1 (Some (i_addr x))) as -> by (by destruct l, r).
    destruct (relink_ok _ _ _ _ _ _ _ H1' Hl Hr) as (path & ky & y & ry & t2 & -> & -> & Hp & H2 & S2). cbn [res_bind].
    destruct (remove_simple_ok t2 _ ky Lf x ry X H2 (or_introl eq_refl)) as (t3 & T3 & n & -> & H3 & V3 & L3 & S3).
    { destruct (zip_valid_inv (path ++ mkFrame R k x l :: c) (Nd ky Lf y ry)) as (h & Hc & Ho & Ha).
      { rewrite zip_app. exact Hv. }
      apply (zip_valid _ _ h); [by eapply okc_item|done|]. intros HR. specialize (Ha HR). by destruct path. }
    { intros E. by destruct path. }
    destruct (Hend t2 t3 S2 S3). exists (with_size t3 (wrap size_t (m_size t2 - 1))), T3, n.
    split; [done|]. split; [exact H3|]. split; [done|]. split; [|done]. rewrite L3.
    transitivity (elems (zip (path ++ mkFrame R k y l :: c) ry)); [by rewrite elems_around|].
    rewrite zip_app. cbn [zip]. rewrite elems_around. unfold fill. cbn [nd f_side f_color f_item f_sibling elems].
    subst rest. rewrite !elems_spine by done. cbn. rewrite <-!app_assoc. cbn. by rewrite <-!app_assoc.
Qed.

End Facts.
End RedBlackFacts.
