(* ===== verification/RedBlackSpec.v ===== *)
(** * Red-black trees: the contract of the public operations

    [tree_inv t l]: the tree object [t] stores the items [l] in order, is balanced
    and has the right size and minimum.  The theorems say what each public
    operation does to [l], that the operations over any run refine an ordered list
    of items, that searches take logarithmic time, and what iteration visits. *)

From Stdlib Require Import Sorted.
From stdpp Require Import gmap.
From S2P Require Import Prelude RedBlackTree RedBlackFacts.
Import RedBlackTree RedBlackFacts.

Module RedBlackSpec.
Section Spec.
Context {V : Type}.
Implicit Types t : RedBlackTree V.

Record tree_inv t (l : list item) : Prop := {
  ti_tree : exists T, rep t [] T [] /\ valid T /\ elems T = l;
  ti_ordered : ordered l;
  ti_minimum : minimum_ok t l;
  ti_size : m_size t = Z.of_nat (length l);
}.

Lemma empty_inv : tree_inv (@empty_tree V) [].
Proof.
  split; [|constructor|done|done]. exists Lf. split; [|split; [|done]].
  - split; [|done]. split; [constructor|done].
  - split; [done|]. by exists 0%nat.
Qed.

(** ** Searches *)

Lemma find_loop_ok fuel t c T X k :
  (length (elems T) < fuel)%nat -> rep t c T X -> ordered (elems (zip c T)) ->
  (exists c' q l x r, find_loop fuel t (root T) k = Ok (Some (i_addr x)) /\
     zip c' (Nd q l x r) = zip c T /\ x ∈ elems T /\ i_key x = k) \/
  find_loop fuel t (root T) k = Ok None /\ forall x, x ∈ elems T -> i_key x <> k.
Proof.
  revert c T. induction fuel as [|fuel IH]; intros c T Hf H Ho; [lia|]. cbn [find_loop].
  destruct T as [|q l x r]; cbn [root]; [right; split; [done|]; intros x Hx; by apply elem_of_nil in Hx|].
  rewrite (deref_rep t L q x c l r X H). cbn [res_bind node_of key left_child right_child elems].
  destruct (ordered_node _ _ _ _ _ Ho) as [Hl Hr]. unfold at_most in Hl. rewrite Forall_forall in Hl, Hr.
  cbn in Hf. rewrite length_app in Hf. cbn in Hf. destruct (Z.eqb_spec (i_key x) k) as [Hk|Hk].
  { left. exists c, q, l, x, r. split; [done|]. split; [done|]. split; [|done]. apply elem_of_app. right. left. }
  destruct (Z.ltb_spec k (i_key x)).
  - destruct (IH (mkFrame L q x r :: c) l) as [(c' & q' & l' & y & r' & E & Ez & Hy & Hky)|[E Hn]];
      [lia|by apply (rep_in t L)|done|left|right].
    + exists c', q', l', y, r'. split; [done|]. split; [done|]. split; [|done]. apply elem_of_app. by left.
    + split; [done|]. intros y [Hy|[-> |Hy]%elem_of_cons]%elem_of_app; [by apply Hn|done|]. specialize (Hr y Hy). lia.
  - destruct (IH (mkFrame R q x l :: c) r) as [(c' & q' & l' & y & r' & E & Ez & Hy & Hky)|[E Hn]];
      [lia|by apply (rep_in t R)|done|left|right].
    + exists c', q', l', y, r'. split; [done|]. split; [done|]. split; [|done]. apply elem_of_app. right. by right.
    + split; [done|]. intros y [Hy|[-> |Hy]%elem_of_cons]%elem_of_app; [|done|by apply Hn]. specialize (Hl y Hy). lia.
Qed.

Lemma find_node_ok t T X k :
  rep t [] T X -> ordered (elems T) ->
  (exists c q l x r, find_node t (m_root t) k = Ok (Some (i_addr x)) /\ T = zip c (Nd q l x r) /\
     x ∈ elems T /\ i_key x = k) \/
  find_node t (m_root t) k = Ok None /\ forall x, x ∈ elems T -> i_key x <> k.
Proof.
  intros H Ho. unfold find_node. pose proof H as [_ ->]. cbn [zip].
  destruct (find_loop_ok (turns t) t [] T X k) as [(c & q & l & x & r & E & Ez & Hx & Hk)|[E Hn]]; try done;
    [rewrite (turns_rep _ _ _ _ H); cbn; lia|left|right; done].
  by exists c, q, l, x, r.
Qed.

(** The last item of an ordered list whose key is at most [k]. *)
Definition largest_not_above (k : Z) (l : list (@item V)) (o : option item) : Prop :=
  match o with
  | None => forall x, x ∈ l -> k < i_key x
  | Some x => x ∈ l /\ i_key x <= k /\ forall y, y ∈ l -> i_key y <= k -> i_key y <= i_key x
  end.

Lemma last_not_above k a b :
  ordered (a ++ b) -> at_most k a -> above k b -> largest_not_above k (a ++ b) (last a).
Proof.
  intros (Ha & _ & _)%ordered_app La Lb. unfold at_most, above in *. rewrite Forall_forall in La, Lb.
  destruct (last a) as [x|] eqn:E; cbn.
  - apply last_Some in E as [a' ->]. apply ordered_app in Ha as (_ & _ & Ha).
    assert (x ∈ a' ++ [x]) by (apply elem_of_app; right; left). split; [apply elem_of_app; by left|].
    split; [by apply La|]. intros y [[Hy|Hy]%elem_of_app|Hy]%elem_of_app Hk; [apply Ha; [done|left]| |].
    + by apply list_elem_of_singleton in Hy as ->.
    + specialize (Lb y Hy). lia.
  - apply last_None in E as ->. intros x Hx. by apply Lb.
Qed.

Lemma not_above_loop_ok fuel t c T X k :
  (length (elems T) < fuel)%nat -> rep t c T X -> ordered (elems (zip c T)) ->
  at_most k (before c) -> above k (after c) ->
  exists o, not_above_loop fuel t (root T) (i_addr <$> last (before c)) k = Ok (i_addr <$> o) /\
    largest_not_above k (elems (zip c T)) o.
Proof.
  revert c T. induction fuel as [|fuel IH]; intros c T Hf H Ho Hb Ha; [lia|]. cbn [not_above_loop].
  destruct T as [|q l x r]; cbn [root].
  { exists (last (before c)). split; [done|]. rewrite elems_around in Ho |- *. by apply last_not_above. }
  rewrite (deref_rep t L q x c l r X H). cbn [res_bind node_of key left_child right_child].
  destruct (ordered_node _ _ _ _ _ Ho) as [Hl Hr]. cbn in Hf. rewrite length_app in Hf. cbn in Hf.
  destruct (Z.eqb_spec k (i_key x)) as [Hk|Hk].
  { exists (Some x). split; [done|]. cbn. rewrite elems_around. split; [|split; [lia|intros; lia]].
    cbn. rewrite !elem_of_app, elem_of_cons. auto. }
  destruct (Z.ltb_spec k (i_key x)).
  - destruct (IH (mkFrame L q x r :: c) l) as (o & E & Ho'); [lia|by apply (rep_in t L)|done| | |].
    + cbn. by rewrite app_nil_r.
    + cbn. constructor; [done|]. apply Forall_app. split; [|done]. eapply Forall_impl; [exact Hr|]. cbn. lia.
    + cbn in E. rewrite app_nil_r in E. by exists o.
  - destruct (IH (mkFrame R q x l :: c) r) as (o & E & Ho'); [lia|by apply (rep_in t R)|done| |done|].
    + cbn. apply Forall_app. split; [done|]. apply Forall_app. split; [|constructor; [lia|done]].
      eapply Forall_impl; [exact Hl|]. cbn. lia.
    + cbn in E. rewrite app_assoc, last_snoc in E. by exists o.
Qed.

(** ** Deleting nodes *)

Lemma delete_node_ok fuel t q T Y :
  has (store t) (cells q T ++ Y) -> T <> Lf -> (length (elems T) <= fuel)%nat ->
  exists t', delete_node fuel t (root T) = Ok t' /\ has (store t') Y /\ same_root t t'.
Proof.
  revert t q T Y. induction fuel as [|fuel IH]; intros t q T Y H HT Hf; destruct T as [|k l x r]; try done.
  { cbn in Hf. rewrite length_app in Hf. cbn in Hf. lia. }
  cbn in Hf. rewrite length_app in Hf. cbn in Hf. cbn [delete_node root of_opt res_bind]. cbn [cells] in H. unfold cell in H.
  rewrite <-app_comm_cons in H. rewrite (deref_has _ _ _ _ H). cbn [res_bind node_of left_child].
  set (n := node_of L q k x (root l) (root r)) in *.
  assert (exists t1, match root l with Some _ => delete_node fuel t (root l) | None => Ok t end = Ok t1 /\
    has (store t1) ((i_addr x, n) :: cells (Some (i_addr x)) r ++ Y) /\ same_root t t1) as (t1 & -> & H1 & S1).
  { destruct l as [|kl ll xl rl] eqn:El; [by exists t|]. rewrite <-El in *.
    destruct (IH t (Some (i_addr x)) l ((i_addr x, n) :: cells (Some (i_addr x)) r ++ Y)) as (t1 & E1 & H1 & S1);
      [eapply has_perm; [|exact H]; perm|by subst l|lia|]. exists t1. by subst l. }
  cbn [res_bind]. rewrite (deref_has _ _ _ _ H1). cbn [res_bind]. change (right_child n) with (root r).
  assert (exists t2, match root r with Some _ => delete_node fuel t1 (root r) | None => Ok t1 end = Ok t2 /\
    has (store t2) ((i_addr x, n) :: Y) /\ same_root t1 t2) as (t2 & -> & H2 & S2).
  { destruct r as [|kr lr xr rr] eqn:Er; [by exists t1|]. rewrite <-Er in *.
    destruct (IH t1 (Some (i_addr x)) r ((i_addr x, n) :: Y)) as (t2 & E2 & H2 & S2);
      [eapply has_perm; [|exact H1]; perm|by subst r|lia|]. exists t2. by subst r. }
  cbn [res_bind]. eexists. split; [done|]. split; [cbn; by eapply has_delete|]. by destruct (same_root_trans _ _ _ S1 S2).
Qed.

(** The end of [remove]: the node that was taken out is freed. *)
Lemma unlink_ok t c k l x r :
  rep t c (Nd k l x r) [] -> valid (zip c (Nd k l x r)) -> minimum_ok t (elems (zip c (Nd k l x r))) ->
  let rest := (before c ++ elems l) ++ elems r ++ after c in
  m_size t = Z.of_nat (length rest) + 1 -> m_size t < 2 ^ 32 -> ordered rest ->
  exists t', unlink t (Some (i_addr x)) = Ok t' /\ tree_inv t' rest.
Proof.
  intros H Hv Hm rest Hz Hlt Ho. unfold unlink.
  destruct (remove_node_ok _ _ _ _ _ _ _ H Hv Hm Hz Hlt) as (t1 & T1 & n & -> & [H1 R1] & V1 & L1 & M1 & Z1).
  cbn [res_bind]. eapply (has_perm _ _ ((i_addr x, n) :: zcells [] T1)) in H1; [|perm].
  destruct (modify_has _ _ _ (with_child R None) _ H1) as (t2 & -> & H2 & S2). cbn [res_bind].
  destruct (modify_has _ _ _ (with_child L None) _ H2) as (t3 & -> & H3 & S3). cbn [res_bind].
  unfold turns. cbn [delete_node of_opt res_bind]. rewrite (deref_has _ _ _ _ H3). cbn [res_bind with_child left_child].
  rewrite (deref_has _ _ _ _ H3). cbn [res_bind with_child right_child]. destruct (same_root_trans _ _ _ S2 S3) as [[Z3 N3] R3].
  eexists. split; [done|]. split; [|done| |].
  - exists T1. split; [|done]. split; [|cbn; by rewrite R3].
    rewrite app_nil_r. cbn [store with_store]. by eapply has_delete.
  - unfold minimum_ok in *. cbn. by rewrite N3.
  - cbn. by rewrite Z3.
Qed.

(** ** The public operations *)

Lemma tree_insert_ok t l a k v :
  tree_inv t l -> store t !! a = None -> Z.of_nat (length l) + 1 < 2 ^ 32 ->
  exists t', insert t a k v = Ok t' /\ tree_inv t' (insort (mkItem a k v) l).
Proof.
  intros [(T & [H R] & Hv & <-) Ho Hm Hz] Ha Hlt. unfold insert.
  destruct (insert_node_ok (with_store t (<[a := new_node k v]> (store t))) T a k v [])
    as (t' & T' & E & H' & V' & O' & L' & M' & Z'); try done.
  { split; [|done]. cbn. eapply has_perm; [|eapply has_new; [exact H|done]]. perm. }
  exists t'. split; [done|]. rewrite <-L'. split; [|done|done|done]. by exists T'.
Qed.

(** What is left when an item with key [k] is taken out; [false] when there is none. *)
Definition removed (k : Z) (l l' : list (@item V)) (b : bool) : Prop :=
  if b then exists u x w, l = u ++ x :: w /\ i_key x = k /\ l' = u ++ w
  else l' = l /\ forall x, x ∈ l -> i_key x <> k.

Lemma ordered_middle u x w : ordered (V := V) (u ++ x :: w) -> ordered (u ++ w).
Proof.
  intros (Hu & Hw & Huw)%ordered_app. apply ordered_app. split; [done|]. inversion Hw; subst. split; [done|].
  intros. apply Huw; [done|by right].
Qed.

(** Finding and unlinking, the body of [remove] and of [unsafe_remove]. *)
Lemma find_unlink_ok t l k : tree_inv t l -> Z.of_nat (length l) < 2 ^ 32 ->
  (exists u x w t', find_node t (m_root t) k = Ok (Some (i_addr x)) /\ l = u ++ x :: w /\ i_key x = k /\
    (exists n, deref t (Some (i_addr x)) = Ok n /\ value n = i_value x) /\
    unlink t (Some (i_addr x)) = Ok t' /\ tree_inv t' (u ++ w)) \/
  (find_node t (m_root t) k = Ok None /\ forall x, x ∈ l -> i_key x <> k).
Proof.
  intros [(T & H & Hv & <-) Ho Hm Hz] Hlt.
  destruct (find_node_ok t T [] k H Ho) as [(c & q & l & x & r & E & -> & _ & Hk)|[E Hn]]; [left|by right].
  assert (elems (zip c (Nd q l x r)) = (before c ++ elems l) ++ x :: (elems r ++ after c)) as El
    by (rewrite elems_around; cbn; by rewrite <-!app_assoc).
  rewrite El in Ho, Hz. apply rep_zip in H.
  destruct (unlink_ok t c q l x r H Hv Hm) as (t' & E' & Ht').
  - rewrite Hz, !length_app. cbn. rewrite !length_app. lia.
  - rewrite El in Hlt. lia.
  - by eapply ordered_middle.
  - exists (before c ++ elems l), x, (elems r ++ after c), t'. split; [done|]. split; [done|]. split; [done|].
    split; [|done]. rewrite (deref_rep t L q x c l r [] H). by eexists.
Qed.

Lemma remove_ok t l k : tree_inv t l -> Z.of_nat (length l) < 2 ^ 32 ->
  exists t' l' b, remove t k = Ok (t', b) /\ tree_inv t' l' /\ removed k l l' b.
Proof.
  intros Ht Hlt. unfold remove.
  destruct (find_unlink_ok t l k Ht Hlt) as [(u & x & w & t' & -> & -> & Hk & _ & E & Ht')|[-> Hn]]; cbn [res_bind].
  - rewrite E. cbn [res_bind]. exists t', (u ++ w), true. split; [done|]. split; [done|]. by exists u, x, w.
  - by exists t, l, false.
Qed.

Lemma clear_ok t l : tree_inv t l -> exists t', clear t = Ok t' /\ tree_inv t' [].
Proof.
  intros [(T & H & Hv & <-) Ho Hm Hz]. unfold clear. pose proof H as [Hh ->]. cbn [zip].
  assert (exists t', match root T with Some _ => let* t := delete_node (turns t) t (root T) in Ok (with_root t None)
    | None => Ok t end = Ok t' /\ store t' = ∅ /\ m_root t' = None) as (t' & -> & Es & Er).
  { destruct T as [|k l x r] eqn:ET; [cbn; exists t; split; [done|]; destruct Hh as [_ Hh]; by destruct H|].
    rewrite <-ET in *. cbn in Hh. destruct (delete_node_ok (turns t) t None T [] Hh) as (t' & E & [_ Hs] & _);
      [by subst|rewrite (turns_rep _ _ _ _ H); cbn; lia|]. rewrite E. exists (with_root t' None). by subst T. }
  cbn [res_bind]. eexists. split; [done|]. split; [|constructor|done|done]. exists Lf. split; [|split; [|done]].
  - split; [cbn; rewrite Es; split; [constructor|done]|cbn; by rewrite Er].
  - split; [done|]. by exists 0%nat.
Qed.

(** ** Runs *)

Inductive operation := Insert (k : Z) (v : V) | Remove (k : Z) | Find (k : Z) | FindNotAbove (k : Z) | Clear.

(** What a caller sees of an operation. *)
Inductive answer := Done | Removed (b : bool) | Found (o : option V).

Section Run.
(** The address [new] returns, given the addresses in use. *)
Context (new : gset ptr -> ptr).

Definition value_at t (p : option ptr) : res (option V) :=
  match p with None => Ok None | Some _ => let* n := deref t p in Ok (Some (value n)) end.

Definition perform t (o : operation) : res (RedBlackTree V * answer) :=
  match o with
  | Insert k v => let* t := insert t (new (dom (store t))) k v in Ok (t, Done)
  | Remove k => let* (t, b) := remove t k in Ok (t, Removed b)
  | Find k => let* p := find t k in let* v := value_at t p in Ok (t, Found v)
  | FindNotAbove k => let* p := find_largest_not_above t k in let* v := value_at t p in Ok (t, Found v)
  | Clear => let* t := clear t in Ok (t, Done)
  end.

Fixpoint perform_all t (os : list operation) : res (RedBlackTree V * list answer) :=
  match os with
  | [] => Ok (t, [])
  | o :: os =>
      let* (t, a) := perform t o in
      let* (t, l) := perform_all t os in
      Ok (t, a :: l)
  end.

(** The same operations on an ordered list of items. *)
Inductive allowed : list (@item V) -> operation -> answer -> list (@item V) -> Prop :=
  | allowed_insert l a k v : allowed l (Insert k v) Done (insort (mkItem a k v) l)
  | allowed_remove l l' b k : removed k l l' b -> allowed l (Remove k) (Removed b) l'
  | allowed_find l x k : x ∈ l -> i_key x = k -> allowed l (Find k) (Found (Some (i_value x))) l
  | allowed_find_none l k : (forall x, x ∈ l -> i_key x <> k) -> allowed l (Find k) (Found None) l
  | allowed_not_above l k o : largest_not_above k l o -> allowed l (FindNotAbove k) (Found (i_value <$> o)) l
  | allowed_clear l : allowed l Clear Done [].

Inductive allowed_all : list (@item V) -> list operation -> list answer -> list (@item V) -> Prop :=
  | allowed_nil l : allowed_all l [] [] l
  | allowed_cons l o a l' os as_ l'' :
      allowed l o a l' -> allowed_all l' os as_ l'' -> allowed_all l (o :: os) (a :: as_) l''.

Context (Hnew : forall X, new X ∉ X).

Lemma elem_path T (x : @item V) : x ∈ elems T -> exists c k l r, T = zip c (Nd k l x r).
Proof.
  intros Hx. enough (forall c0, exists c k l r, zip c0 T = zip c (Nd k l x r)) as He by apply (He []).
  induction T as [|k l IHl y r IHr]; intros c0; [by apply elem_of_nil in Hx|].
  cbn in Hx. apply elem_of_app in Hx as [Hx|[-> |Hx]%elem_of_cons].
  - destruct (IHl Hx (mkFrame L k y r :: c0)) as (c & k' & l' & r' & E). by exists c, k', l', r'.
  - by exists c0, k, l, r.
  - destruct (IHr Hx (mkFrame R k y l :: c0)) as (c & k' & l' & r' & E). by exists c, k', l', r'.
Qed.

Lemma value_at_ok t l x : tree_inv t l -> x ∈ l -> value_at t (Some (i_addr x)) = Ok (Some (i_value x)).
Proof.
  intros [(T & H & _ & <-) _ _ _] Hx. destruct (elem_path T x Hx) as (c & k & a & b & ->). apply rep_zip in H.
  cbn [value_at]. by rewrite (deref_rep t L k x c a b [] H).
Qed.

Lemma find_ok t l k : tree_inv t l ->
  (exists x, find t k = Ok (Some (i_addr x)) /\ x ∈ l /\ i_key x = k) \/
  find t k = Ok None /\ forall x, x ∈ l -> i_key x <> k.
Proof.
  intros [(T & H & _ & <-) Ho _ _].
  destruct (find_node_ok t T [] k H Ho) as [(c & q & a & x & b & E & _ & Hx & Hk)|]; [left; by exists x|by right].
Qed.

Lemma find_largest_not_above_ok t l k : tree_inv t l ->
  exists o, find_largest_not_above t k = Ok (i_addr <$> o) /\ largest_not_above k l o.
Proof.
  intros [(T & H & _ & <-) Ho _ _]. unfold find_largest_not_above, find_node_not_above. pose proof H as [_ ->].
  apply (not_above_loop_ok (turns t) t [] T [] k); [|done|done|constructor|constructor].
  rewrite (turns_rep _ _ _ _ H). cbn. lia.
Qed.

Lemma perform_ok t l o : tree_inv t l -> Z.of_nat (length l) + 1 < 2 ^ 32 ->
  exists t' a l', perform t o = Ok (t', a) /\ tree_inv t' l' /\ allowed l o a l' /\ (length l' <= S (length l))%nat.
Proof.
  intros Ht Hlt. destruct o as [k v|k|k|k|]; cbn [perform].
  - destruct (tree_insert_ok t l (new (dom (store t))) k v Ht) as (t' & -> & Ht'); [apply not_elem_of_dom, Hnew|done|].
    eexists t', _, _. split; [done|]. split; [done|]. split; [constructor|].
    generalize (mkItem (new (dom (store t))) k v). clear. intros x.
    induction l as [|y l IH]; cbn; [lia|]. destruct (_ <? _); cbn in *; lia.
  - destruct (remove_ok t l k Ht) as (t' & l' & b & -> & Ht' & Hr); [lia|]. exists t', (Removed b), l'.
    split; [done|]. split; [done|]. split; [by constructor|]. destruct b; cbn in Hr.
    + destruct Hr as (u & x & w & -> & _ & ->). rewrite !length_app. cbn. lia.
    + destruct Hr as [-> _]. lia.
  - destruct (find_ok t l k Ht) as [(x & -> & Hx & Hk)|[-> Hn]]; cbn [res_bind].
    + rewrite (value_at_ok t l x Ht Hx). cbn [res_bind]. eexists _, _, l. split; [done|]. split; [done|]. split; [by constructor|lia].
    + cbn [value_at res_bind]. eexists _, _, l. split; [done|]. split; [done|]. split; [by constructor|lia].
  - destruct (find_largest_not_above_ok t l k Ht) as (o & -> & Ho). cbn [res_bind].
    assert (value_at t (i_addr <$> o) = Ok (i_value <$> o)) as ->.
    { destruct o as [x|]; [|done]. apply (value_at_ok t l x Ht). by destruct Ho. }
    cbn [res_bind]. eexists _, _, l. split; [done|]. split; [done|]. split; [by constructor|lia].
  - destruct (clear_ok t l Ht) as (t' & -> & Ht'). cbn [res_bind]. eexists _, _, []. split; [done|]. split; [done|]. split; [constructor|cbn; lia].
Qed.

Lemma perform_all_ok os t l : tree_inv t l -> Z.of_nat (length l) + Z.of_nat (length os) < 2 ^ 32 ->
  exists t' as_ l', perform_all t os = Ok (t', as_) /\ tree_inv t' l' /\ allowed_all l os as_ l'.
Proof.
  revert t l. induction os as [|o os IH]; intros t l Ht Hlt; cbn [perform_all].
  { exists t, [], l. split; [done|]. split; [done|]. constructor. }
  cbn in Hlt. destruct (perform_ok t l o Ht) as (t1 & a & l1 & -> & Ht1 & Ha & Hl1); [lia|]. cbn [res_bind].
  destruct (IH t1 l1 Ht1) as (t2 & as_ & l2 & -> & Ht2 & Ha2); [lia|]. cbn [res_bind].
  exists t2, (a :: as_), l2. split; [done|]. split; [done|]. by econstructor.
Qed.

End Run.

(** ** Height *)

Fixpoint height (T : @tree V) : nat :=
  match T with Lf => 0 | Nd _ l _ r => S (Nat.max (height l) (height r)) end.

Lemma height_bound T n : ok T n ->
  (height T <= 2 * n + match tree_color T with Red => 1 | Black => 0 end)%nat /\
  (2 ^ n <= S (length (elems T)))%nat.
Proof.
  revert n. induction T as [|k l IHl x r IHr]; intros n H; [cbn in H; subst; cbn; lia|].
  cbn [elems height tree_color]. rewrite length_app. cbn [length]. destruct k.
  - destruct H as (Hl & Hr & Cl & Cr). apply IHl in Hl as [Hl1 Hl2]. apply IHr in Hr as [Hr1 Hr2].
    rewrite Cl in Hl1. rewrite Cr in Hr1. lia.
  - destruct H as (m & -> & Hl & Hr). apply IHl in Hl as [Hl1 Hl2]. apply IHr in Hr as [Hr1 Hr2].
    rewrite Nat.pow_succ_r'. split; [|lia]. destruct (tree_color l), (tree_color r); lia.
Qed.

Lemma find_loop_height fuel t c T X k :
  (height T < fuel)%nat -> rep t c T X -> exists o, find_loop fuel t (root T) k = Ok o.
Proof.
  revert c T. induction fuel as [|fuel IH]; intros c T Hf H; [lia|]. cbn [find_loop].
  destruct T as [|q l x r]; cbn [root]; [by eexists|]. cbn in Hf.
  rewrite (deref_rep t L q x c l r X H). cbn [res_bind node_of key left_child right_child].
  case_if; [by eexists|]. case_if.
  - apply (IH (mkFrame L q x r :: c)); [lia|by apply (rep_in t L)].
  - apply (IH (mkFrame R q x l :: c)); [lia|by apply (rep_in t R)].
Qed.

(** ** Iteration *)

(** The addresses an iterator visits in at most [n] steps. *)
Fixpoint walk (n : nat) t (i : iterator) : res (list ptr) :=
  match n, i.1 with
  | S n, Some a => let* i := iterator_next t i in let* l := walk n t i in Ok (a :: l)
  | _, _ => Ok []
  end.

Lemma walk_ok t l n a b prev : tree_inv t l -> l = a ++ b -> (length b <= n)%nat ->
  walk n t (first b, prev) = Ok (i_addr <$> b).
Proof.
  intros [(T & H & _ & <-) _ _ _]. revert a b prev. induction n as [|n IH]; intros a b prev E Hn.
  { destruct b; [done|cbn in Hn; lia]. }
  destruct b as [|x b]; [done|]. cbn [walk first fst head fmap option_fmap option_map iterator_next].
  assert (x ∈ elems T) as Hx by (rewrite E; apply elem_of_app; right; left).
  destruct (elem_path T x Hx) as (c & k & l & r & ->). pose proof (rep_addrs _ _ _ _ H) as Hd. cbn [zip] in Hd.
  rewrite E in Hd. apply rep_zip in H. unfold successor. rewrite (neighbour_ok L t c k x l r [] H). cbn [res_bind].
  assert (out L r ++ beyond L c = b) as ->.
  { cbn. rewrite elems_around in E. cbn in E. rewrite <-app_assoc, <-app_comm_cons, app_assoc in E.
    revert Hd E. generalize (before c ++ elems l) as u, (elems r ++ after c) as w. clear. intros u w.
    revert u. induction a as [|y a IH]; intros [|z u] Hd E; cbn in *; injection E; intros; subst.
    - done.
    - apply NoDup_cons in Hd as [Hd _]. destruct Hd. rewrite fmap_app. apply elem_of_app. right. left.
    - apply NoDup_cons in Hd as [Hd _]. destruct Hd. rewrite fmap_app. apply elem_of_app. right. left.
    - apply NoDup_cons in Hd as [_ Hd]. by eapply IH. }
  rewrite (IH (a ++ [x]) b); [done|by rewrite <-app_assoc|cbn in Hn; lia].
Qed.

Lemma find_loop_agree n m t p k o o' : find_loop n t p k = Ok o -> find_loop m t p k = Ok o' -> o = o'.
Proof.
  revert m p. induction n as [|n IH]; intros [|m] p; cbn [find_loop]; try done.
  destruct p as [a|]; [|by intros [= <-] [= <-]]. destruct (deref t (Some a)) as [nd|f]; cbn [res_bind]; [|done].
  case_if; [by intros [= <-] [= <-]|]. case_if; apply IH.
Qed.

End Spec.
End RedBlackSpec.

(** ** Properties *)

Import RedBlackSpec.

(** C14: over any run of insertions, removals, searches and clearings on a new
    tree, no pointer is followed that is null or dangling, every loop ends, and
    the answers are those of an ordered list of items; at the end the tree stores
    exactly that list, balanced, with its size and its minimum.  [new] is any
    allocator that returns an unused address. *)
Theorem tree_run_refines {V} (new : gset ptr -> ptr) (os : list (operation (V := V)))
    (Hnew : forall X, new X ∉ X) (Hos : Z.of_nat (length os) < 2 ^ 32) :
  exists t as_ l, perform_all new empty_tree os = Ok (t, as_) /\ allowed_all [] os as_ l /\ tree_inv t l.
Proof.
  destruct (perform_all_ok new Hnew os empty_tree [] empty_inv ltac:(cbn; lia)) as (t & as_ & l & E & Ht & Ha).
  by exists t, as_, l.
Qed.

Lemma tree_run_refines_witness :
  let os := [Insert 5 50; Insert 3 30; Insert 9 90; Insert 4 40; Remove 5; FindNotAbove 8; Find 5] in
  exists t as_ l, perform_all fresh empty_tree os = Ok (t, as_) /\
    as_ = [Done; Done; Done; Done; Removed true; Found (Some 40); Found None] /\ tree_inv t l.
Proof.
  intros os. destruct (tree_run_refines fresh os (fun X => is_fresh X) ltac:(reflexivity)) as (t & as_ & l & E & _ & Ht).
  exists t, as_, l. split; [exact E|]. split; [|exact Ht].
  assert (perform_all fresh empty_tree os = Ok (t, as_) -> snd <$> match perform_all fresh empty_tree os with
    Ok r => Some r | _ => None end = Some as_) as H by (intros ->; reflexivity).
  specialize (H E). vm_compute in H. injection H as <-. reflexivity.
Defined.

(** C32: A search in a tree of [n] items looks at no more than [2 log2 (n + 1)]
    nodes. *)
Theorem tree_search_logarithmic {V} (t : RedBlackTree V) (l : list item) (k : Z) (Ht : tree_inv t l) :
  exists o, find_loop (S (2 * Nat.log2 (S (length l)))) t (m_root t) k = Ok o /\ find t k = Ok o.
Proof.
  pose proof (find_ok t l k Ht) as Hf. destruct Ht as [(T & H & [HB [n Hn]] & <-) _ _ _].
  assert (exists o, find t k = Ok o) as (o & Eo) by (destruct Hf as [(x & -> & _)|[-> _]]; by eexists).
  exists o. split; [|done]. destruct (height_bound T n Hn) as [Hh Hp]. rewrite HB in Hh.
  assert (n <= Nat.log2 (S (length (elems T))))%nat as Hl by (apply Nat.log2_le_pow2; lia).
  destruct (find_loop_height (S (2 * Nat.log2 (S (length (elems T))))) t [] T [] k) as (o' & E'); [lia|done|].
  pose proof H as [_ R]. cbn [zip] in R. rewrite R, E'. unfold find, find_node in Eo. rewrite R in Eo.
  f_equal. eapply (find_loop_agree _ _ _ _ _ _ _ E' Eo).
Qed.

(** A tree with seven items for the witnesses. *)
Definition seven : list (operation (V := Z)) := map (fun k => Insert k (10 * k)) [4; 2; 6; 1; 3; 5; 7].

Definition seven_tree : RedBlackTree Z :=
  match perform_all fresh empty_tree seven with Ok (t, _) => t | _ => empty_tree end.

Lemma seven_inv : exists l, tree_inv seven_tree l /\ length l = 7%nat.
Proof.
  destruct (perform_all_ok fresh (fun X => is_fresh X) seven empty_tree [] empty_inv) as (t & as_ & l & E & Ht & _);
    [reflexivity|].
  exists l. unfold seven_tree. rewrite E. split; [done|]. pose proof (ti_size t l Ht) as Hz.
  assert (m_size t = 7) as H7.
  { assert (match perform_all fresh empty_tree seven with Ok (t, _) => m_size t | _ => 0 end = 7) as H
      by (vm_compute; reflexivity). by rewrite E in H. }
  lia.
Qed.

Lemma tree_search_logarithmic_witness :
  exists o, find_loop 7 seven_tree (m_root seven_tree) 5 = Ok o /\ find seven_tree 5 = Ok o.
Proof.
  destruct seven_inv as (l & Ht & Hl). pose proof (tree_search_logarithmic seven_tree l 5 Ht) as H.
  rewrite Hl in H. exact H.
Defined.

(** Iterating from [begin] visits every item once, in order, and so does
    [begin_from] from an item on. *)
Theorem tree_iteration_in_order {V} (t : RedBlackTree V) (l : list item) (Ht : tree_inv t l) (Hne : l <> []) :
  walk (S (length l)) t (begin t) = Ok (i_addr <$> l) /\
  forall k, (exists x, x ∈ l /\ i_key x = k) ->
    exists i a x b, begin_from t k = Ok i /\ l = a ++ x :: b /\ i_key x = k /\
      walk (S (length l)) t i = Ok (i_addr <$> (x :: b)).
Proof.
  split.
  - destruct l as [|x l]; [done|]. pose proof (ti_minimum _ _ Ht) as Hm. cbn in Hm.
    unfold begin. rewrite Hm. apply (walk_ok t (x :: l) _ [] (x :: l)); [done|done|]. cbn. lia.
  - intros k (x & Hx & Hk). unfold begin_from. destruct (find_ok t l k Ht) as [(y & E & Hy & Hky)|[_ Hn]].
    + unfold find in E. rewrite E. cbn [res_bind]. apply list_elem_of_split in Hy as (a & b & ->).
      exists (Some (i_addr y), None), a, y, b. split; [done|]. split; [done|]. split; [done|].
      apply (walk_ok t (a ++ y :: b) _ a (y :: b)); [done|done|]. rewrite length_app. cbn. lia.
    + by destruct (Hn x Hx).
Qed.

Lemma tree_iteration_in_order_witness :
  exists l : list (@item Z), length l = 7%nat /\ walk 8 seven_tree (begin seven_tree) = Ok (i_addr <$> l).
Proof.
  destruct seven_inv as (l & Ht & Hl). exists l. split; [exact Hl|].
  assert (l <> []) as Hne by (intros ->; discriminate Hl).
  pose proof (proj1 (tree_iteration_in_order seven_tree l Ht Hne)) as H. rewrite Hl in H. exact H.
Defined.

(** Two pieces of state the code leaves behind.  Removing the last item of a
    tree keeps [m_minimum], so iterating over the then empty tree follows a freed
    pointer; and a node taken out of an intrusive tree keeps its colour, so putting
    it into a tree again fails an assertion. *)
Theorem tree_stale_state :
  (let* (t, _) := perform_all fresh empty_tree [Insert 1 10; Remove 1] in
   iterator_next t (begin t)) = Fault UndefinedBehaviour /\
  (let t := foldl (fun t a => IntrusiveRedBlackTree.construct t a (Z.pos a)) empty_tree [1; 2; 3; 4]%positive in
   let* t := IntrusiveRedBlackTree.insert t 1%positive in
   let* (t, _) := IntrusiveRedBlackTree.remove t 1 in
   let* t := IntrusiveRedBlackTree.insert t 2%positive in
   let* t := IntrusiveRedBlackTree.insert t 3%positive in
   let* t := IntrusiveRedBlackTree.insert t 4%positive in
   let* t := IntrusiveRedBlackTree.insert t 1%positive in
   Ok (m_size t)) = Fault VerifyFailed.
Proof. split; vm_compute; reflexivity. Qed.

