(* ===== verification/RangeAllocator.v ===== *)
(** * Kernel/VM/Range and Kernel/VM/RangeAllocator: address space bookkeeping

    [VirtualAddress] and [Range] model the two small classes with their 32-bit
    arithmetic, [RangeAllocator] the list of available ranges of an address
    space.  [is_free] is the abstract content, the set of available addresses;
    the theorems state allocation and release as subtraction from and addition
    to it. *)

From S2P Require Import Prelude Memory Checked Containers.

Module VirtualAddress.

Definition is_null (a : Z) : bool := a =? 0.
Definition is_page_aligned (a : Z) : bool := Z.land a 0xfff =? 0.
Definition offset (a o : Z) : Z := wrap FlatPtr (a + o).
Definition page_base (a : Z) : Z := Z.land a 0xfffff000.
Definition minus (a b : Z) : Z := wrap FlatPtr (a - b).

End VirtualAddress.

Module Range.
Import VirtualAddress.

Record Range := mkRange { m_base : Z; m_size : Z }.

#[global] Instance Range_eq_dec : EqDecision Range.
Proof. solve_decision. Defined.

Definition base (r : Range) : Z := m_base r.
Definition size (r : Range) : Z := m_size r.
Definition is_valid (r : Range) : bool := negb (is_null (m_base r)).
Definition end_ (r : Range) : Z := offset (m_base r) (m_size r).

Definition op_eq (r other : Range) : bool := (m_base r =? m_base other) && (m_size r =? m_size other).

Definition contains_address (r : Range) (vaddr : Z) : bool := (base r <=? vaddr) && (vaddr <? end_ r).

(** [contains(VirtualAddress base, size_t size)] *)
Definition contains_span (r : Range) (b s : Z) : bool :=
  if offset b s <? b then false
  else (m_base r <=? b) && (offset b s <=? end_ r).

Definition contains (r other : Range) : bool := contains_span r (base other) (size other).

Definition carve (r taken : Range) : res (list Range) :=
  VERIFY size taken mod PAGE_SIZE =? 0 ;;
  if op_eq taken r then Ok []
  else
    Ok ((if base r <? base taken then [mkRange (base r) (minus (base taken) (base r))] else []) ++
        (if end_ taken <? end_ r then [mkRange (end_ taken) (minus (end_ r) (end_ taken))] else [])).

Definition intersect (r other : Range) : res Range :=
  if op_eq r other then Ok r
  else
    let new_base := max (base r) (base other) in
    let new_end := min (end_ r) (end_ other) in
    VERIFY new_base <? new_end ;;
    Ok (mkRange new_base (minus new_end new_base)).

End Range.

Module RangeAllocator.
Import VirtualAddress Range.

Record RangeAllocator := mkRangeAllocator {
  m_available_ranges : list Range;
  m_total_range : Range;
}.

Definition with_available (a : RangeAllocator) (l : list Range) : RangeAllocator :=
  mkRangeAllocator l (m_total_range a).

(** The constructor, and the two ways to fill an allocator. *)
Definition make : RangeAllocator := mkRangeAllocator [] (mkRange 0 0).

Definition initialize_with_range (a : RangeAllocator) (b s : Z) : RangeAllocator :=
  mkRangeAllocator (m_available_ranges a ++ [mkRange b s]) (mkRange b s).

Definition initialize_from_parent (a parent : RangeAllocator) : RangeAllocator :=
  mkRangeAllocator (m_available_ranges parent) (m_total_range parent).

Definition allocator_contains (a : RangeAllocator) (r : Range) : bool := contains (m_total_range a) r.

Definition carve_at_index (a : RangeAllocator) (index : nat) (range : Range) : res RangeAllocator :=
  let* entry := Vector.at_ (m_available_ranges a) index in
  let* remaining_parts := carve entry range in
  match remaining_parts with
  | [] => Fault VerifyFailed
  | first :: rest =>
      VERIFY contains (m_total_range a) first ;;
      let* l := Vector.set_at (m_available_ranges a) index first in
      match rest with
      | [second] =>
          VERIFY contains (m_total_range a) second ;;
          let* l := Vector.insert l (S index) second in
          Ok (with_available a l)
      | _ => Ok (with_available a l)
      end
  end.

(** The common end of the allocation loops: take [range] out of entry [i]. *)
Definition take_at (a : RangeAllocator) (i : nat) (entry range : Range) : res (RangeAllocator * option Range) :=
  if op_eq entry range then
    let* l := Vector.remove (m_available_ranges a) i in
    Ok (with_available a l, Some range)
  else
    let* a := carve_at_index a i range in
    Ok (a, Some range).

(** The loop of [allocate_anywhere] over the entries from [i] on. *)
Fixpoint anywhere_loop (a : RangeAllocator) (l : list Range) (i : nat)
    (size_ alignment effective_size offset_from_effective_base : Z) : res (RangeAllocator * option Range) :=
  match l with
  | [] => Ok (a, None)
  | available_range :: l =>
      if size available_range <? wrap size_t (effective_size + alignment) then
        anywhere_loop a l (S i) size_ alignment effective_size offset_from_effective_base
      else
        let initial_base := offset (base available_range) offset_from_effective_base in
        let aligned_base := round_up_to_power_of_two initial_base alignment in
        let allocated_range := mkRange aligned_base size_ in
        VERIFY contains (m_total_range a) allocated_range ;;
        take_at a i available_range allocated_range
  end.

(** VM_GUARD_PAGES is defined: two guard pages are added to every request. *)
Definition allocate_anywhere (a : RangeAllocator) (size_ alignment : Z) : res (RangeAllocator * option Range) :=
  if size_ =? 0 then Ok (a, None)
  else
    VERIFY size_ mod PAGE_SIZE =? 0 ;;
    VERIFY alignment mod PAGE_SIZE =? 0 ;;
    if Checked.addition_would_overflow size_t size_ (PAGE_SIZE * 2) then Ok (a, None)
    else
      let effective_size := wrap size_t (size_ + PAGE_SIZE * 2) in
      if Checked.addition_would_overflow size_t effective_size alignment then Ok (a, None)
      else anywhere_loop a (m_available_ranges a) 0 size_ alignment effective_size PAGE_SIZE.

Fixpoint specific_loop (a : RangeAllocator) (l : list Range) (i : nat) (allocated_range : Range)
    : res (RangeAllocator * option Range) :=
  match l with
  | [] => Ok (a, None)
  | available_range :: l =>
      VERIFY contains (m_total_range a) allocated_range ;;
      if negb (contains_span available_range (base allocated_range) (size allocated_range)) then
        specific_loop a l (S i) allocated_range
      else take_at a i available_range allocated_range
  end.

Definition allocate_specific (a : RangeAllocator) (b s : Z) : res (RangeAllocator * option Range) :=
  if s =? 0 then Ok (a, None)
  else
    VERIFY is_page_aligned b ;;
    VERIFY s mod PAGE_SIZE =? 0 ;;
    specific_loop a (m_available_ranges a) 0 (mkRange b s).

Definition maximum_randomization_attempts : nat := 1000.

(** The attempts; [random i] is what [get_fast_random] gives to attempt [i]. *)
Fixpoint randomized_loop (n : nat) (random : nat -> Z) (a : RangeAllocator) (i : nat) (size_ alignment : Z)
    : res (RangeAllocator * option Range) :=
  match n with
  | O => allocate_anywhere a size_ alignment
  | S n =>
      let random_address := round_up_to_power_of_two (random i) alignment in
      if negb (contains_span (m_total_range a) random_address size_) then
        randomized_loop n random a (S i) size_ alignment
      else
        let* (a, range) := allocate_specific a random_address size_ in
        match range with
        | Some r => Ok (a, Some r)
        | None => randomized_loop n random a (S i) size_ alignment
        end
  end.

Definition allocate_randomized (random : nat -> Z) (a : RangeAllocator) (size_ alignment : Z)
    : res (RangeAllocator * option Range) :=
  if size_ =? 0 then Ok (a, None)
  else
    VERIFY size_ mod PAGE_SIZE =? 0 ;;
    VERIFY alignment mod PAGE_SIZE =? 0 ;;
    randomized_loop maximum_randomization_attempts random a 0 size_ alignment.

(** The comparator of [deallocate]: a difference of [FlatPtr]s taken as an [int]. *)
Definition compare_ends (range entry : Range) : Z := wrap I32 (minus (base range) (end_ entry)).

(** The merge with the next entry at the end of [deallocate]. *)
Definition merge_next (l : list Range) (inserted_index : nat) : res (list Range) :=
  if bool_decide (inserted_index < length l - 1)%nat then
    let* inserted_range := Vector.at_ l inserted_index in
    let* next_range := Vector.at_ l (S inserted_index) in
    if end_ inserted_range =? base next_range then
      let* l := Vector.set_at l inserted_index
                  (mkRange (base inserted_range) (wrap size_t (size inserted_range + size next_range))) in
      Vector.remove l (S inserted_index)
    else Ok l
  else Ok l.

Definition deallocate (a : RangeAllocator) (range : Range) : res RangeAllocator :=
  VERIFY contains (m_total_range a) range ;;
  VERIFY negb (size range =? 0) ;;
  VERIFY size range mod PAGE_SIZE =? 0 ;;
  VERIFY base range <? end_ range ;;
  VERIFY bool_decide (m_available_ranges a <> []) ;;
  let l := m_available_ranges a in
  let* (existing_range, nearby_index) := BinarySearch.binary_search (compare_ends range) l in
  let* (l, inserted_index) :=
    match existing_range with
    | Some i =>
        let* e := Vector.at_ l i in
        let* l := Vector.set_at l i (mkRange (base e) (wrap size_t (size e + size range))) in
        Ok (l, nearby_index)
    | None =>
        Vector.insert_before_matching l range (fun entry => end_ range <=? base entry) nearby_index
    end in
  let* l := merge_next l inserted_index in
  Ok (with_available a l).

(** ** Abstract content *)

(** The addresses of a range that does not wrap around. *)
Definition in_range (r : Range) (x : Z) : Prop := m_base r <= x < m_base r + m_size r.

Definition is_free (a : RangeAllocator) (x : Z) : Prop := exists r, r ∈ m_available_ranges a /\ in_range r x.

(** A non-empty page range inside the total one. *)
Record range_ok (total r : Range) : Prop := {
  ro_base : m_base total <= m_base r;
  ro_size : 0 < m_size r;
  ro_end : m_base r + m_size r <= m_base total + m_size total;
  ro_page : m_base r mod PAGE_SIZE = 0;
  ro_pages : m_size r mod PAGE_SIZE = 0;
}.

(** A gap lies between a range and a later one. *)
Definition gap (r s : Range) : Prop := m_base r + m_size r < m_base s.

Fixpoint separated (l : list Range) : Prop :=
  match l with
  | [] => True
  | r :: l => Forall (gap r) l /\ separated l
  end.

(** Available ranges are sorted and a gap lies between any two. *)
Record alloc_inv (a : RangeAllocator) : Prop := {
  ai_total : 0 <= m_base (m_total_range a) /\ 0 <= m_size (m_total_range a) /\
             m_base (m_total_range a) + m_size (m_total_range a) < 2 ^ 32;
  ai_ranges : Forall (range_ok (m_total_range a)) (m_available_ranges a);
  ai_sorted : separated (m_available_ranges a);
}.

End RangeAllocator.

(** ** Lemmas *)

Module RangeFacts.
Import VirtualAddress Range RangeAllocator.

Lemma wrap32 z : 0 <= z < 2 ^ 32 -> wrap FlatPtr z = z.
Proof. intros. apply wrap_id; [done|]. apply in_ty_spec. cbn. lia. Qed.

Lemma separated_app l1 l2 :
  separated (l1 ++ l2) <-> separated l1 /\ separated l2 /\ Forall (fun r => Forall (gap r) l2) l1.
Proof.
  induction l1 as [|r l1 IH]; cbn [separated app].
  - split; [intros; split; [done|split; [done|constructor]]|tauto].
  - rewrite IH, Forall_app, Forall_cons. tauto.
Qed.

Lemma separated_lookup l i j r s :
  separated l -> (i < j)%nat -> l !! i = Some r -> l !! j = Some s -> gap r s.
Proof.
  revert i j. induction l as [|x l IH]; intros i j Hs Hij Hi Hj; [done|].
  destruct Hs as [Hf Hs]. destruct j as [|j]; [lia|]. destruct i as [|i].
  - injection Hi as <-. cbn in Hj. rewrite Forall_lookup in Hf. by eapply Hf.
  - by apply (IH i j); [|lia|..].
Qed.

Section Inv.
Context (total : Range).
Context (Htotal : 0 <= m_base total /\ 0 <= m_size total /\ m_base total + m_size total < 2 ^ 32).

Lemma range_bounds r : range_ok total r -> 0 <= m_base r /\ 0 < m_size r /\ m_base r + m_size r < 2 ^ 32.
Proof. intros [H1 H2 H3 _ _]. lia. Qed.

Lemma end_ok r : range_ok total r -> end_ r = m_base r + m_size r.
Proof. intros H%range_bounds. unfold end_, offset. apply wrap32. lia. Qed.

Lemma end_total : end_ total = m_base total + m_size total.
Proof. unfold end_, offset. apply wrap32. lia. Qed.

Lemma contains_total r : range_ok total r -> contains total r = true.
Proof.
  intros Hr. pose proof (range_bounds r Hr). destruct Hr as [H1 H2 H3 _ _].
  unfold contains, contains_span, base, size, offset. rewrite wrap32, end_total by lia.
  replace (_ <? _) with false by lia. lia.
Qed.

(** The converse, for arguments that are machine integers. *)
Lemma contains_span_spec r b s :
  0 <= m_base r -> 0 <= m_size r -> m_base r + m_size r < 2 ^ 32 -> 0 <= b < 2 ^ 32 -> 0 < s < 2 ^ 32 ->
  contains_span r b s = true <-> m_base r <= b /\ b + s <= m_base r + m_size r.
Proof using.
  intros R1 R2 R3 Hb Hs. unfold contains_span, end_, offset. rewrite (wrap32 (m_base r + _)) by lia.
  destruct (Z.lt_ge_cases (b + s) (2 ^ 32)).
  - rewrite wrap32 by lia. replace (b + s <? b) with false by lia. lia.
  - assert (wrap FlatPtr (b + s) = b + s - 2 ^ 32) as ->.
    { unfold wrap. cbn [tmin U32 bits is_signed]. rewrite Z.sub_0_r, Z.add_0_r.
      symmetry. apply Z.mod_unique with 1; lia. }
    replace (_ <? _) with true by lia. split; [done|lia].
Qed.

Lemma op_eq_spec r s : op_eq r s = true <-> r = s.
Proof. destruct r, s. unfold op_eq. cbn. split; [intros; f_equal; lia|intros [= -> ->]; lia]. Qed.

(** [carve] of a range inside an entry leaves the rest of the entry. *)
Lemma carve_spec e t :
  range_ok total e -> range_ok total t -> m_base e <= m_base t ->
  m_base t + m_size t <= m_base e + m_size e -> t <> e ->
  exists parts, carve e t = Ok parts /\ parts <> [] /\ (length parts <= 2)%nat /\
    Forall (range_ok total) parts /\ separated parts /\
    (forall x, Exists (fun p => in_range p x) parts <-> in_range e x /\ ~ in_range t x) /\
    Forall (fun p => m_base e <= m_base p /\ m_base p + m_size p <= m_base e + m_size e) parts.
Proof.
  intros He Ht H1 H2 Hne. pose proof (range_bounds e He). pose proof (range_bounds t Ht).
  unfold carve. rewrite (end_ok e), (end_ok t) by done. unfold minus, base, size.
  rewrite (ro_pages _ _ Ht). cbn [Z.eqb verify res_bind].
  replace (op_eq t e) with false by (symmetry; apply not_true_iff_false; rewrite op_eq_spec; done).
  eexists. split; [done|]. destruct e as [be se], t as [bt st]. cbn [m_base m_size] in *.
  rewrite !wrap32 by lia. unfold PAGE_SIZE in *.
  pose proof (ro_page _ _ He) as P1. pose proof (ro_page _ _ Ht) as P2.
  pose proof (ro_pages _ _ He) as P3. pose proof (ro_pages _ _ Ht) as P4.
  destruct He as [E1 E2 E3 _ _], Ht as [T1 T2 T3 _ _]. unfold in_range, PAGE_SIZE in *. cbn [m_base m_size] in *.
  assert (be < bt -> range_ok total (mkRange be (bt - be))) as R1.
  { intros. split; cbn; unfold PAGE_SIZE; try lia. Z.to_euclidean_division_equations. lia. }
  assert (bt + st < be + se -> range_ok total (mkRange (bt + st) (be + se - (bt + st)))) as R2.
  { intros. split; cbn; unfold PAGE_SIZE; try lia; Z.to_euclidean_division_equations; lia. }
  destruct (Z.ltb_spec be bt) as [Hb|Hb], (Z.ltb_spec (bt + st) (be + se)) as [Hc|Hc]; cbn [app].
  - split; [done|]. split; [cbn; lia|]. split; [apply Forall_cons; split; [auto|]; apply Forall_cons; auto|].
    split; [split; [repeat constructor; unfold gap; cbn; lia|by repeat constructor]|].
    split; [|repeat constructor; cbn; lia].
    intros x. rewrite !Exists_cons, Exists_nil. unfold in_range. cbn. lia.
  - split; [done|]. split; [cbn; lia|]. split; [apply Forall_cons; auto|].
    split; [by repeat constructor|]. split; [|repeat constructor; cbn; lia].
    intros x. rewrite !Exists_cons, Exists_nil. unfold in_range. cbn. lia.
  - split; [done|]. split; [cbn; lia|]. split; [apply Forall_cons; auto|].
    split; [by repeat constructor|]. split; [|repeat constructor; cbn; lia].
    intros x. rewrite !Exists_cons, Exists_nil. unfold in_range. cbn. lia.
  - exfalso. apply Hne. f_equal; lia.
Qed.

End Inv.

Lemma is_free_exists a x : is_free a x <-> Exists (fun r => in_range r x) (m_available_ranges a).
Proof. unfold is_free. rewrite Exists_exists. naive_solver. Qed.

(** Replacing the entries [mid] by [parts], which keep their distance. *)
Lemma splice a l1 mid l2 parts :
  alloc_inv a -> m_available_ranges a = l1 ++ mid ++ l2 ->
  Forall (range_ok (m_total_range a)) parts -> separated parts ->
  Forall (fun r => Forall (gap r) parts) l1 -> Forall (fun p => Forall (gap p) l2) parts ->
  alloc_inv (with_available a (l1 ++ parts ++ l2)) /\
  (forall x, is_free (with_available a (l1 ++ parts ++ l2)) x <->
     Exists (fun r => in_range r x) (l1 ++ l2) \/ Exists (fun r => in_range r x) parts).
Proof.
  intros [H1 H2 H3] Hl Hp Hs Hb Ha. rewrite Hl in H2, H3. split.
  - apply Forall_app in H2 as [F1 F2]. apply Forall_app in F2 as [_ F2].
    apply separated_app in H3 as (S1 & S2 & G). apply separated_app in S2 as (_ & S2 & _).
    assert (Forall (fun r => Forall (gap r) l2) l1) as G'.
    { eapply Forall_impl; [exact G|]. intros r Hr. by apply Forall_app in Hr as [_ Hr]. }
    split; [done|..]; cbn [with_available m_available_ranges m_total_range].
    + rewrite !Forall_app. done.
    + rewrite !separated_app. split; [done|]. split; [done|].
      rewrite Forall_forall in Hb, G' |- *. intros r Hr. rewrite Forall_app. auto.
  - intros x. rewrite is_free_exists. cbn. rewrite !Exists_app. tauto.
Qed.

(** An entry shares no address with the others. *)
Lemma entries_disjoint a l1 e l2 x :
  alloc_inv a -> m_available_ranges a = l1 ++ e :: l2 -> in_range e x ->
  ~ Exists (fun r => in_range r x) (l1 ++ l2).
Proof.
  intros [H1 H2 H3] Hl He. rewrite Hl in H2, H3. apply separated_app in H3 as (_ & [S2 _] & S3).
  apply Forall_app in H2 as [F1 F2]. apply Forall_cons in F2 as [Fe F2].
  rewrite Exists_app, !Exists_exists. rewrite Forall_forall in S2, S3, F1, F2.
  intros [(r & Hr & Hx)|(r & Hr & Hx)].
  - specialize (S3 r Hr). apply Forall_cons in S3 as [S3 _]. unfold gap, in_range in *. lia.
  - specialize (S2 r Hr). unfold gap, in_range in *. lia.
Qed.

Lemma remove_middle (l1 l2 : list Range) e : Vector.remove (l1 ++ e :: l2) (length l1) = Ok (l1 ++ l2).
Proof.
  unfold Vector.remove. rewrite bool_decide_eq_true_2 by (rewrite length_app; cbn; lia).
  cbn. by rewrite delete_middle.
Qed.

Lemma set_middle (l1 l2 : list Range) e e' :
  Vector.set_at (l1 ++ e :: l2) (length l1) e' = Ok (l1 ++ e' :: l2).
Proof.
  unfold Vector.set_at. rewrite bool_decide_eq_true_2 by (rewrite length_app; cbn; lia).
  cbn. rewrite insert_app_r_alt, Nat.sub_diag by lia. done.
Qed.

Lemma at_middle (l1 l2 : list Range) e : Vector.at_ (l1 ++ e :: l2) (length l1) = Ok e.
Proof. unfold Vector.at_. by rewrite list_lookup_middle. Qed.

Lemma insert_middle (l1 l2 : list Range) e e' :
  Vector.insert (l1 ++ e :: l2) (S (length l1)) e' = Ok (l1 ++ e :: e' :: l2).
Proof.
  rewrite Vector.insert_ok by (rewrite length_app; cbn; lia). f_equal.
  replace (S (length l1)) with (length (l1 ++ [e])) by (rewrite length_app; cbn; lia).
  replace (l1 ++ e :: l2) with ((l1 ++ [e]) ++ l2) by by rewrite <-app_assoc.
  rewrite take_app_length, drop_app_length, <-app_assoc. done.
Qed.

(** What an allocation of [t] leaves: the same free addresses without [t]. *)
Definition taken (a : RangeAllocator) (t : Range) (a' : RangeAllocator) : Prop :=
  alloc_inv a' /\ m_total_range a' = m_total_range a /\
  (forall x, in_range t x -> is_free a x) /\
  (forall x, is_free a' x <-> is_free a x /\ ~ in_range t x).

Lemma carve_at_index_ok a l1 e l2 t parts :
  alloc_inv a -> m_available_ranges a = l1 ++ e :: l2 -> carve e t = Ok parts -> parts <> [] ->
  (length parts <= 2)%nat -> Forall (range_ok (m_total_range a)) parts ->
  carve_at_index a (length l1) t = Ok (with_available a (l1 ++ parts ++ l2)).
Proof.
  intros Hinv Hl Hc Hn H2 Hp. unfold carve_at_index. rewrite Hl, at_middle. cbn [res_bind].
  rewrite Hc. cbn [res_bind]. pose proof (ai_total a Hinv).
  destruct parts as [|p [|q [|]]]; [done|..|cbn in H2; lia].
  - apply Forall_cons in Hp as [Hp _]. rewrite (contains_total _ H p Hp). cbn [verify res_bind].
    rewrite set_middle. done.
  - apply Forall_cons in Hp as [Hp Hq]. apply Forall_cons in Hq as [Hq _].
    rewrite (contains_total _ H p Hp). cbn [verify res_bind]. rewrite set_middle. cbn [res_bind].
    rewrite (contains_total _ H q Hq). cbn [verify res_bind]. rewrite insert_middle. done.
Qed.

Lemma take_at_ok a l1 e l2 t :
  alloc_inv a -> m_available_ranges a = l1 ++ e :: l2 -> range_ok (m_total_range a) t ->
  m_base e <= m_base t -> m_base t + m_size t <= m_base e + m_size e ->
  exists a', take_at a (length l1) e t = Ok (a', Some t) /\ taken a t a'.
Proof.
  intros Hinv Hl Ht Hb He. pose proof (ai_total a Hinv) as Htot.
  assert (range_ok (m_total_range a) e) as Hok.
  { pose proof (ai_ranges a Hinv) as F. rewrite Hl in F. apply Forall_app in F as [_ F].
    by apply Forall_cons in F as [F _]. }
  assert (exists parts, take_at a (length l1) e t = Ok (with_available a (l1 ++ parts ++ l2), Some t) /\
    Forall (range_ok (m_total_range a)) parts /\ separated parts /\
    (forall x, Exists (fun p => in_range p x) parts <-> in_range e x /\ ~ in_range t x) /\
    Forall (fun p => m_base e <= m_base p /\ m_base p + m_size p <= m_base e + m_size e) parts)
    as (parts & Heq & Pok & Psep & Pin & Pins).
  { unfold take_at. destruct (op_eq e t) eqn:E.
    - apply op_eq_spec in E as ->. exists []. rewrite Hl, remove_middle. split; [done|].
      split; [done|]. split; [done|]. split; [|done]. intros x. rewrite Exists_nil. tauto.
    - assert (t <> e) as Hne by (intros ->; rewrite (proj2 (op_eq_spec e e) eq_refl) in E; done).
      destruct (carve_spec _ Htot e t Hok Ht Hb He Hne) as (parts & P1 & P2 & P3 & P4 & P5 & P6 & P7).
      exists parts. rewrite (carve_at_index_ok a l1 e l2 t parts) by done. done. }
  pose proof (ai_sorted a Hinv) as Hs. rewrite Hl in Hs.
  apply separated_app in Hs as (_ & [G2 _] & G1).
  destruct (splice a l1 [e] l2 parts) as [Hi Hf]; try done.
  { eapply Forall_impl; [exact G1|]. intros r [Hr _]%Forall_cons.
    eapply Forall_impl; [exact Pins|]. unfold gap in *. cbn. lia. }
  { eapply Forall_impl; [exact Pins|]. intros p Hp. eapply Forall_impl; [exact G2|]. unfold gap in *. lia. }
  exists (with_available a (l1 ++ parts ++ l2)). split; [done|]. split; [done|]. split; [done|].
  assert (forall x, is_free a x <-> in_range e x \/ Exists (fun r => in_range r x) (l1 ++ l2)) as Hfree.
  { intros x. rewrite is_free_exists, Hl, !Exists_app, Exists_cons. tauto. }
  split.
  - intros x Hx. apply Hfree. left. unfold in_range in *. lia.
  - intros x. rewrite Hf, Pin, Hfree. pose proof (entries_disjoint a l1 e l2 x Hinv Hl).
    assert (in_range t x -> in_range e x) by (unfold in_range; lia). tauto.
Qed.

(** A range all of whose addresses are free lies inside one entry. *)
Lemma free_span_one_entry a t :
  alloc_inv a -> 0 < m_size t -> (forall x, in_range t x -> is_free a x) ->
  exists i e, m_available_ranges a !! i = Some e /\ m_base e <= m_base t /\
    m_base t + m_size t <= m_base e + m_size e.
Proof.
  intros Hinv Hpos Hall. destruct (Hall (m_base t)) as (e & [i Hi]%list_elem_of_lookup & He);
    [unfold in_range; lia|].
  exists i, e. unfold in_range in *. split; [done|]. split; [lia|].
  destruct (Z.le_gt_cases (m_base t + m_size t) (m_base e + m_size e)); [done|exfalso].
  destruct (Hall (m_base e + m_size e)) as (r & [j Hj]%list_elem_of_lookup & Hr); [lia|].
  pose proof (ai_sorted a Hinv) as Hs. destruct (Nat.lt_total i j) as [L|[->|L]].
  - pose proof (separated_lookup _ i j e r Hs L Hi Hj). unfold gap, in_range in *. lia.
  - assert (e = r) by congruence. subst. unfold in_range in *. lia.
  - pose proof (separated_lookup _ j i r e Hs L Hj Hi). unfold gap, in_range in *. lia.
Qed.

Lemma entry_ok a i e : alloc_inv a -> m_available_ranges a !! i = Some e -> range_ok (m_total_range a) e.
Proof. intros [_ F _] H. rewrite Forall_lookup in F. by eapply F. Qed.

Lemma entry_span a i e b s :
  alloc_inv a -> m_available_ranges a !! i = Some e -> 0 <= b < 2 ^ 32 -> 0 < s < 2 ^ 32 ->
  contains_span e b s = true <-> m_base e <= b /\ b + s <= m_base e + m_size e.
Proof.
  intros Hinv Hi Hb Hs. pose proof (range_bounds _ (ai_total a Hinv) e (entry_ok a i e Hinv Hi)).
  apply contains_span_spec; lia.
Qed.

Lemma specific_loop_ok a l1 l t :
  alloc_inv a -> m_available_ranges a = l1 ++ l -> range_ok (m_total_range a) t ->
  Forall (fun e => contains_span e (m_base t) (m_size t) = false) l1 ->
  exists a' r, specific_loop a l (length l1) t = Ok (a', r) /\
    match r with
    | Some t' => t' = t /\ taken a t a'
    | None => a' = a /\ Forall (fun e => contains_span e (m_base t) (m_size t) = false) (m_available_ranges a)
    end.
Proof.
  intros Hinv. revert l1. induction l as [|e l IH]; intros l1 Hl Ht Hno; cbn [specific_loop].
  - exists a, None. split; [done|]. split; [done|]. by rewrite Hl, app_nil_r.
  - pose proof (ai_total a Hinv) as Htot. rewrite (contains_total _ Htot t Ht). cbn [verify res_bind].
    assert (m_available_ranges a !! length l1 = Some e) as Hi by (rewrite Hl; apply list_lookup_middle; done).
    pose proof (range_bounds _ Htot t Ht).
    unfold base, size. destruct (contains_span e _ _) eqn:E; cbn [negb].
    + apply (entry_span a (length l1)) in E as [E1 E2]; [|done|done|lia|lia].
      destruct (take_at_ok a l1 e l t) as (a' & -> & Htk); [done..|]. exists a', (Some t). done.
    + replace (S (length l1)) with (length (l1 ++ [e])) by (rewrite length_app; cbn; lia).
      apply IH; [by rewrite <-app_assoc|done|]. rewrite Forall_app. split; [done|by constructor].
Qed.

(** [allocate_specific] for a non-empty page range inside the total one. *)
Lemma allocate_specific_spec a b s :
  alloc_inv a -> range_ok (m_total_range a) (mkRange b s) ->
  exists a' r, allocate_specific a b s = Ok (a', r) /\
    match r with
    | Some t => t = mkRange b s /\ taken a t a'
    | None => a' = a /\ exists x, b <= x < b + s /\ ~ is_free a x
    end.
Proof.
  intros Hinv Ht. pose proof (range_bounds _ (ai_total a Hinv) _ Ht) as Hb. cbn in Hb.
  unfold allocate_specific. replace (s =? 0) with false by lia.
  pose proof (ro_page _ _ Ht) as P1. pose proof (ro_pages _ _ Ht) as P2. cbn [m_base m_size] in P1, P2.
  assert (is_page_aligned b = true) as ->.
  { unfold is_page_aligned. change 4095 with (Z.ones 12). rewrite Z.land_ones by lia.
    unfold PAGE_SIZE in P1. change (2 ^ 12) with 4096. lia. }
  rewrite P2. cbn [verify res_bind Z.eqb].
  destruct (specific_loop_ok a [] (m_available_ranges a) (mkRange b s)) as (a' & r & Heq & Hr); try done.
  cbn [length] in Heq. rewrite Heq. exists a', r. split; [done|]. destruct r as [t|]; [by destruct Hr as [-> ?]|].
  destruct Hr as [-> Hno]. split; [done|].
  destruct (decide (Exists (fun e => contains_span e b s = true) (m_available_ranges a))) as [E|E].
  - exfalso. rewrite Exists_exists in E. destruct E as (e & He & E). rewrite Forall_forall in Hno.
    cbn in Hno. specialize (Hno e He). congruence.
  - assert (~ forall x, in_range (mkRange b s) x -> is_free a x) as Hn.
    { intros Hall. destruct (free_span_one_entry a (mkRange b s)) as (i & e & Hi & E1 & E2); [done|cbn; lia|done|].
      cbn in E1, E2. apply E. rewrite Exists_exists. exists e. split; [by eapply list_elem_of_lookup_2|].
      apply (entry_span a i); auto; lia. }
    (* the first address that is not free, by decidability of membership *)
    destruct (decide (Forall (fun x => Exists (fun e => m_base e <= x < m_base e + m_size e) (m_available_ranges a))
                (seqZ b s))) as [F|F].
    + exfalso. apply Hn. intros x Hx. apply is_free_exists. rewrite Forall_forall in F.
      apply F. apply elem_of_seqZ. unfold in_range in Hx. cbn in Hx. lia.
    + apply not_Forall_Exists in F; [|apply _]. apply Exists_exists in F as (x & Hx%elem_of_seqZ & Hx').
      exists x. split; [lia|]. intros Hf%is_free_exists. done.
Qed.

Lemma pow2_bounds k : 12 <= k < 32 -> 0 < 2 ^ k < 2 ^ 32 /\ (4096 | 2 ^ k).
Proof.
  intros Hk. split; [split; [apply Z.pow_pos_nonneg|apply Z.pow_lt_mono_r]; lia|].
  exists (2 ^ (k - 12)). change 4096 with (2 ^ 12). rewrite <-Z.pow_add_r by lia. f_equal. lia.
Qed.

Lemma multiple_of_page v k : 12 <= k < 32 -> v mod 2 ^ k = 0 -> v mod PAGE_SIZE = 0.
Proof.
  intros Hk Hv. destruct (pow2_bounds k Hk) as [H1 H2]. unfold PAGE_SIZE.
  apply Z.mod_divide; [lia|]. etrans; [exact H2|]. apply Z.mod_divide; lia.
Qed.

(** The address chosen in an entry that is large enough. *)
Lemma chosen_base total e s k b :
  12 <= k < 32 -> 0 < s -> s mod PAGE_SIZE = 0 ->
  0 <= m_base total /\ 0 <= m_size total /\ m_base total + m_size total < 2 ^ 32 ->
  range_ok total e -> s + PAGE_SIZE * 2 + 2 ^ k <= m_size e ->
  b = round_up_to_power_of_two (offset (base e) PAGE_SIZE) (2 ^ k) ->
  range_ok total (mkRange b s) /\ b mod 2 ^ k = 0 /\
  m_base e + PAGE_SIZE <= b /\ b + s + PAGE_SIZE <= m_base e + m_size e.
Proof.
  intros Hk Hs Hsp Htot He Hbig Hb0. pose proof (range_bounds _ Htot e He) as Hb.
  destruct (pow2_bounds k Hk) as [Hp _]. pose proof (round_up_pow2_multiple (m_base e + PAGE_SIZE) k ltac:(lia)) as [Hm _].
  assert (b = round_up_to_power_of_two (m_base e + PAGE_SIZE) (2 ^ k)) as Hbe.
  { rewrite Hb0. unfold offset, base. rewrite wrap32; [done|]. unfold PAGE_SIZE in *. lia. }
  rewrite <-Hbe in Hm. rewrite round_up_pow2 in Hbe by (unfold PAGE_SIZE in *; lia).
  assert (m_base e + PAGE_SIZE <= b /\ b + s + PAGE_SIZE <= m_base e + m_size e) as [L1 L2].
  { pose proof (Z.div_mod (m_base e + PAGE_SIZE + 2 ^ k - 1) (2 ^ k) ltac:(lia)) as D.
    pose proof (Z.mod_pos_bound (m_base e + PAGE_SIZE + 2 ^ k - 1) (2 ^ k) ltac:(lia)).
    rewrite <-Hbe in D. unfold PAGE_SIZE in *. lia. }
  split; [|done]. destruct He as [E1 E2 E3 _ _]. split; cbn; unfold PAGE_SIZE in *; try lia.
  by apply (multiple_of_page b k).
Qed.

(** What a successful allocation of [s] bytes aligned to [2 ^ k] gives. *)
Definition granted (a : RangeAllocator) (s k : Z) (a' : RangeAllocator) (t : Range) : Prop :=
  m_size t = s /\ m_base t mod 2 ^ k = 0 /\ taken a t a'.

(** The guard pages around an allocation stay free. *)
Definition guarded (a' : RangeAllocator) (t : Range) : Prop :=
  forall x, m_base t - PAGE_SIZE <= x < m_base t \/
            m_base t + m_size t <= x < m_base t + m_size t + PAGE_SIZE -> is_free a' x.

Definition all_smaller (a : RangeAllocator) (n : Z) : Prop :=
  Forall (fun e => m_size e < n) (m_available_ranges a).

Lemma anywhere_loop_ok a l1 l s k :
  alloc_inv a -> m_available_ranges a = l1 ++ l -> 12 <= k < 32 -> 0 < s -> s mod PAGE_SIZE = 0 ->
  s + PAGE_SIZE * 2 + 2 ^ k < 2 ^ 32 ->
  Forall (fun e => m_size e < s + PAGE_SIZE * 2 + 2 ^ k) l1 ->
  exists a' r, anywhere_loop a l (length l1) s (2 ^ k) (s + PAGE_SIZE * 2) PAGE_SIZE = Ok (a', r) /\
    match r with
    | Some t => granted a s k a' t /\ guarded a' t
    | None => a' = a /\ all_smaller a (s + PAGE_SIZE * 2 + 2 ^ k)
    end.
Proof.
  intros Hinv Hl Hk Hs Hsp Hlt. revert l1 Hl. induction l as [|e l IH]; intros l1 Hl Hno; cbn [anywhere_loop].
  - exists a, None. split; [done|]. split; [done|]. unfold all_smaller. by rewrite Hl, app_nil_r.
  - pose proof (ai_total a Hinv) as Htot. destruct (pow2_bounds k Hk) as [Hp _].
    rewrite (wrap32 (s + _ + _)) by (unfold PAGE_SIZE in *; lia).
    assert (m_available_ranges a !! length l1 = Some e) as Hi by (rewrite Hl; apply list_lookup_middle; done).
    pose proof (entry_ok a _ e Hinv Hi) as He. unfold size at 1. destruct (Z.ltb_spec (m_size e) (s + PAGE_SIZE * 2 + 2 ^ k)).
    + replace (S (length l1)) with (length (l1 ++ [e])) by (rewrite length_app; cbn; lia).
      apply IH; [by rewrite <-app_assoc|]. rewrite Forall_app. split; [done|by constructor].
    + cbn zeta. remember (round_up_to_power_of_two _ _) as b eqn:Hb.
      destruct (chosen_base _ e s k b Hk Hs Hsp Htot He ltac:(lia) Hb) as (R & M & B1 & B2). clear Hb.
      rewrite (contains_total _ Htot _ R). cbn [verify res_bind].
      destruct (take_at_ok a l1 e l (mkRange b s)) as (a' & -> & Htk); [done..|cbn; unfold PAGE_SIZE in *; lia|cbn; unfold PAGE_SIZE in *; lia|].
      exists a', (Some (mkRange b s)). split; [done|]. split; [done|].
      destruct Htk as (_ & _ & _ & Hfree). intros x Hx. apply Hfree. cbn [m_base m_size] in Hx.
      unfold in_range. cbn [m_base m_size]. split; [|unfold PAGE_SIZE in *; lia].
      exists e. split; [by eapply list_elem_of_lookup_2|]. unfold in_range, PAGE_SIZE in *. lia.
Qed.

(** [allocate_anywhere] of a number of pages, aligned to a power of two. *)
Lemma allocate_anywhere_spec a s k :
  alloc_inv a -> 12 <= k < 32 -> 0 <= s < 2 ^ 32 -> s mod PAGE_SIZE = 0 ->
  exists a' r, allocate_anywhere a s (2 ^ k) = Ok (a', r) /\
    match r with
    | Some t => granted a s k a' t /\ guarded a' t
    | None => a' = a /\ (s = 0 \/ all_smaller a (s + PAGE_SIZE * 2 + 2 ^ k))
    end.
Proof.
  intros Hinv Hk Hs Hsp. unfold allocate_anywhere. destruct (Z.eqb_spec s 0) as [->|Hz].
  { exists a, None. auto. }
  destruct (pow2_bounds k Hk) as [Hp Hd].
  assert (2 ^ k mod PAGE_SIZE = 0) as Hkp by (apply Z.mod_divide; [done|exact Hd]).
  rewrite Hsp, Hkp. cbn [Z.eqb verify res_bind]. unfold Checked.addition_would_overflow.
  assert (2 ^ 32 <= s + PAGE_SIZE * 2 + 2 ^ k -> all_smaller a (s + PAGE_SIZE * 2 + 2 ^ k)) as Hsm.
  { intros. apply Forall_lookup. intros i e Hi.
    pose proof (range_bounds _ (ai_total a Hinv) e (entry_ok a i e Hinv Hi)). lia. }
  assert (forall z, 0 <= z -> in_ty size_t z = (z <? 2 ^ 32)) as Hin.
  { intros z Hz0. apply eq_bool_prop_intro. rewrite !Is_true_true, in_ty_spec. cbn. lia. }
  rewrite Hin by (unfold PAGE_SIZE; lia). destruct (Z.ltb_spec (s + PAGE_SIZE * 2) (2 ^ 32)); cbn [negb].
  2: { exists a, None. split; [done|]. split; [done|]. right. apply Hsm. lia. }
  rewrite wrap32 by (unfold PAGE_SIZE in *; lia). rewrite Hin by (unfold PAGE_SIZE; lia).
  destruct (Z.ltb_spec (s + PAGE_SIZE * 2 + 2 ^ k) (2 ^ 32)); cbn [negb].
  2: { exists a, None. split; [done|]. split; [done|]. right. apply Hsm. lia. }
  destruct (anywhere_loop_ok a [] (m_available_ranges a) s k) as (a' & r & Heq & Hr); try done; [lia|].
  cbn [length] in Heq. rewrite Heq. exists a', r. split; [done|]. destruct r; [done|].
  destruct Hr. split; [done|by right].
Qed.

Lemma randomized_loop_ok random a s k n i :
  alloc_inv a -> 12 <= k < 32 -> 0 < s < 2 ^ 32 -> s mod PAGE_SIZE = 0 ->
  exists a' r, randomized_loop n random a i s (2 ^ k) = Ok (a', r) /\
    match r with
    | Some t => granted a s k a' t
    | None => a' = a /\ all_smaller a (s + PAGE_SIZE * 2 + 2 ^ k)
    end.
Proof.
  intros Hinv Hk Hs Hsp. revert i. induction n as [|n IH]; intros i; cbn [randomized_loop].
  - destruct (allocate_anywhere_spec a s k) as (a' & r & -> & Hr); [done|done|lia|done|].
    exists a', r. split; [done|]. destruct r; [by destruct Hr|]. destruct Hr as [-> [?|?]]; [lia|done].
  - pose proof (round_up_pow2_multiple (random i) k ltac:(lia)) as [M B].
    set (b := round_up_to_power_of_two (random i) (2 ^ k)) in *. pose proof (ai_total a Hinv) as Htot.
    destruct (contains_span (m_total_range a) b s) eqn:E; cbn [negb]; [|apply IH].
    apply contains_span_spec in E as [E1 E2]; [|lia..].
    destruct (allocate_specific_spec a b s) as (a' & r & -> & Hr); [done| |].
    { split; cbn; [lia..| |done]. by apply (multiple_of_page b k). }
    cbn [res_bind]. destruct r as [t|].
    + destruct Hr as [-> Htk]. exists a', (Some (mkRange b s)). done.
    + destruct Hr as [-> _]. apply IH.
Qed.

(** ** Deallocation *)

(** Ranges with no common address lie one before the other. *)
Lemma disjoint_sides a t i e :
  alloc_inv a -> 0 < m_size t -> (forall x, in_range t x -> ~ is_free a x) ->
  m_available_ranges a !! i = Some e ->
  m_base e + m_size e <= m_base t \/ m_base t + m_size t <= m_base e.
Proof.
  intros Hinv Ht Hd Hi. pose proof (ro_size _ _ (entry_ok a i e Hinv Hi)) as He.
  destruct (Z.le_gt_cases (m_base e + m_size e) (m_base t)); [by left|].
  destruct (Z.le_gt_cases (m_base t + m_size t) (m_base e)); [by right|].
  exfalso. apply (Hd (Z.max (m_base t) (m_base e))); [unfold in_range; lia|].
  exists e. split; [by eapply list_elem_of_lookup_2|]. unfold in_range. lia.
Qed.

(** In an address space of at most [2 ^ 31] bytes the comparator is a difference. *)
Lemma compare_ends_exact total t e :
  0 <= m_base total /\ 0 <= m_size total /\ m_base total + m_size total < 2 ^ 32 ->
  m_size total <= 2 ^ 31 -> range_ok total t -> range_ok total e ->
  compare_ends t e = m_base t - (m_base e + m_size e).
Proof.
  intros Htot Hspan Ht He. pose proof (range_bounds _ Htot t Ht). pose proof (range_bounds _ Htot e He).
  unfold compare_ends, minus. rewrite (end_ok total) by done.
  destruct Ht as [T1 T2 T3 _ _], He as [E1 E2 E3 _ _].
  unfold base. set (d := m_base t - (m_base e + m_size e)).
  assert (- 2 ^ 31 <= d < 2 ^ 31) as Hd by (subst d; lia). clearbody d. clear - Hd.
  unfold wrap. cbn [tmin U32 I32 bits is_signed]. change (2 ^ (32 - 1)) with (2 ^ 31).
  rewrite Z.sub_0_r, Z.add_0_r. Z.to_euclidean_division_equations. lia.
Qed.

(** The state between the two halves of [deallocate]: [c] is [t], joined with
    the entry [mid] that ends where [t] begins, if there is one. *)
Definition joined (a : RangeAllocator) (t : Range) (l1 : list Range) (c : Range) (l2 : list Range) : Prop :=
  exists mid, m_available_ranges a = l1 ++ mid ++ l2 /\ range_ok (m_total_range a) c /\
    Forall (fun r => gap r c) l1 /\ Forall (fun r => m_base c + m_size c <= m_base r) l2 /\
    (forall x, in_range c x <-> in_range t x \/ Exists (fun r => in_range r x) mid).

Section Dealloc.
Context (a : RangeAllocator) (t : Range).
Context (Hinv : alloc_inv a) (Hspan : m_size (m_total_range a) <= 2 ^ 31).
Context (Ht : range_ok (m_total_range a) t).
Context (Hd : forall x, in_range t x -> ~ is_free a x).

Lemma entry_compare i e :
  m_available_ranges a !! i = Some e -> compare_ends t e = m_base t - (m_base e + m_size e).
Proof using Hinv Hspan Ht.
  intros Hi. apply (compare_ends_exact (m_total_range a)); [by apply ai_total|done..|by eapply entry_ok].
Qed.

Lemma entries_ordered : BinarySearch.ordered (compare_ends t) (m_available_ranges a).
Proof using Hinv Hspan Ht.
  intros i j x y Hij Hx Hy. rewrite (entry_compare i), (entry_compare j) by done.
  pose proof (separated_lookup _ i j x y (ai_sorted a Hinv) Hij Hx Hy).
  pose proof (ro_size _ _ (entry_ok a j y Hinv Hy)). unfold gap in *. lia.
Qed.

(** The previous entry ends where the range begins. *)
Lemma joined_existing i e :
  m_available_ranges a !! i = Some e -> m_base e + m_size e = m_base t ->
  joined a t (take i (m_available_ranges a)) (mkRange (m_base e) (m_size e + m_size t))
    (drop (S i) (m_available_ranges a)).
Proof using Hinv Ht Hd.
  intros Hi Hend. exists [e]. pose proof (entry_ok a i e Hinv Hi) as He.
  split; [symmetry; by apply take_drop_middle|].
  split.
  { destruct He as [E1 E2 E3 E4 E5], Ht as [T1 T2 T3 T4 T5]. split; cbn; try lia.
    unfold PAGE_SIZE in *. Z.to_euclidean_division_equations. lia. }
  split; [|split].
  - apply Forall_lookup. intros j r Hj. apply lookup_take_Some in Hj as [Hj Hlt].
    pose proof (separated_lookup _ j i r e (ai_sorted a Hinv) Hlt Hj Hi). unfold gap in *. cbn. lia.
  - apply Forall_lookup. intros j r Hj. rewrite lookup_drop in Hj.
    pose proof (separated_lookup _ i (S i + j) e r (ai_sorted a Hinv) ltac:(lia) Hi Hj).
    pose proof (disjoint_sides a t _ r Hinv (ro_size _ _ Ht) Hd Hj).
    pose proof (ro_size _ _ (entry_ok a _ r Hinv Hj)). unfold gap in *. cbn. lia.
  - intros x. rewrite Exists_cons, Exists_nil. pose proof (ro_size _ _ He). pose proof (ro_size _ _ Ht).
    unfold in_range. cbn. lia.
Qed.

(** No entry ends where the range begins. *)
Lemma joined_new i :
  (i <= length (m_available_ranges a))%nat ->
  (forall k e, (k < i)%nat -> m_available_ranges a !! k = Some e -> m_base e + m_size e < m_base t) ->
  (forall e, m_available_ranges a !! i = Some e -> m_base t + m_size t <= m_base e) ->
  joined a t (take i (m_available_ranges a)) t (drop i (m_available_ranges a)).
Proof using Hinv Ht.
  intros Hi Hbefore Hafter. exists []. split; [cbn; by rewrite take_drop|]. split; [done|].
  split; [|split].
  - apply Forall_lookup. intros j r Hj. apply lookup_take_Some in Hj as [Hj Hlt]. by apply (Hbefore j).
  - apply Forall_lookup. intros j r Hj. rewrite lookup_drop in Hj. destruct j as [|j].
    + rewrite Nat.add_0_r in Hj. by apply Hafter.
    + destruct (lookup_lt_is_Some_2 (m_available_ranges a) i) as [e He]; [apply lookup_lt_Some in Hj; lia|].
      pose proof (separated_lookup _ i (i + S j) e r (ai_sorted a Hinv) ltac:(lia) He Hj).
      pose proof (ro_size _ _ (entry_ok a _ e Hinv He)). specialize (Hafter e He). unfold gap in *. lia.
  - intros x. rewrite Exists_nil. tauto.
Qed.

(** Storing [c'], which is [c] and the entries [n] joined. *)
Lemma joined_splice l1 c l2 c' n l2' :
  joined a t l1 c l2 -> l2 = n ++ l2' -> range_ok (m_total_range a) c' -> m_base c' = m_base c ->
  Forall (gap c') l2' ->
  (forall x, in_range c' x <-> in_range c x \/ Exists (fun r => in_range r x) n) ->
  alloc_inv (with_available a (l1 ++ c' :: l2')) /\
  forall x, is_free (with_available a (l1 ++ c' :: l2')) x <-> is_free a x \/ in_range t x.
Proof using Hinv.
  intros (mid & Hl & Hc & Hb & Hn & Hx) -> Hc' Hbase Hg Hx'.
  destruct (splice a l1 (mid ++ n) l2' [c']) as [I F]; [done|by rewrite Hl, !app_assoc|..].
  - by constructor.
  - done.
  - eapply Forall_impl; [exact Hb|]. intros r Hr. constructor; [|done]. unfold gap in *. lia.
  - by constructor.
  - split; [done|]. intros x. cbn [app] in F.
    rewrite F, is_free_exists, Hl, Exists_cons, Exists_nil, Hx', Hx, !Exists_app. tauto.
Qed.

Lemma joined_next l1 c n l2 :
  joined a t l1 c (n :: l2) -> range_ok (m_total_range a) n /\ m_base c + m_size c <= m_base n /\ Forall (gap n) l2.
Proof using Hinv.
  intros (mid & Hl & Hc & Hb & Hn & Hx). apply Forall_cons in Hn as [Hn _].
  pose proof (ai_ranges a Hinv) as F. pose proof (ai_sorted a Hinv) as S. rewrite Hl in F, S.
  rewrite !Forall_app, Forall_cons in F. apply separated_app in S as (_ & S & _).
  apply separated_app in S as (_ & [S _] & _). tauto.
Qed.

(** [merge_next] joins the following entry when it starts where [c] ends. *)
Lemma merge_next_ok l1 c l2 :
  joined a t l1 c l2 ->
  exists l, merge_next (l1 ++ c :: l2) (length l1) = Ok l /\ alloc_inv (with_available a l) /\
    forall x, is_free (with_available a l) x <-> is_free a x \/ in_range t x.
Proof using Hinv.
  intros Hj. pose proof (ai_total a Hinv) as Htot.
  assert (range_ok (m_total_range a) c) as Hc by by destruct Hj as (? & _ & ? & _).
  unfold merge_next. destruct l2 as [|n l2].
  - rewrite bool_decide_eq_false_2 by (rewrite length_app; cbn; lia). eexists. split; [done|].
    apply (joined_splice l1 c [] c [] []); try done. intros x. rewrite Exists_nil. tauto.
  - destruct (joined_next l1 c n l2 Hj) as (Hn & Hle & Hg).
    rewrite bool_decide_eq_true_2 by (rewrite length_app; cbn; lia). rewrite at_middle. cbn [res_bind].
    assert (Vector.at_ (l1 ++ c :: n :: l2) (S (length l1)) = Ok n) as ->.
    { unfold Vector.at_. rewrite lookup_app_r by lia. by replace (S (length l1) - length l1)%nat with 1%nat by lia. }
    cbn [res_bind]. rewrite (end_ok _ Htot) by done. unfold base, size.
    pose proof (range_bounds _ Htot n Hn). pose proof (range_bounds _ Htot c Hc).
    destruct (Z.eqb_spec (m_base c + m_size c) (m_base n)) as [E|E].
    + rewrite set_middle. cbn [res_bind]. rewrite wrap32 by (destruct Hn; lia).
      set (c' := mkRange _ _). replace (l1 ++ c' :: n :: l2) with ((l1 ++ [c']) ++ n :: l2) by by rewrite <-app_assoc.
      replace (S (length l1)) with (length (l1 ++ [c'])) by (rewrite length_app; cbn; lia).
      rewrite remove_middle. eexists. split; [done|]. rewrite <-app_assoc.
      apply (joined_splice l1 c (n :: l2) c' [n] l2); [done..| |done| |].
      * destruct Hc as [C1 C2 C3 C4 C5], Hn as [N1 N2 N3 N4 N5]. split; cbn; try lia.
        unfold PAGE_SIZE in *. Z.to_euclidean_division_equations. lia.
      * eapply Forall_impl; [exact Hg|]. unfold gap. cbn. lia.
      * intros x. rewrite Exists_cons, Exists_nil. unfold in_range. cbn. lia.
    + eexists. split; [done|]. apply (joined_splice l1 c (n :: l2) c [] (n :: l2)); try done.
      * constructor; [unfold gap; lia|]. eapply Forall_impl; [exact Hg|]. unfold gap. lia.
      * intros x. rewrite Exists_nil. tauto.
Qed.

(** The whole of [deallocate]. *)
Lemma give_back_spec :
  m_available_ranges a <> [] ->
  exists a', deallocate a t = Ok a' /\ alloc_inv a' /\ m_total_range a' = m_total_range a /\
    forall x, is_free a' x <-> is_free a x \/ in_range t x.
Proof using Hinv Hspan Ht Hd.
  intros Hne. pose proof (ai_total a Hinv) as Htot. pose proof (range_bounds _ Htot t Ht) as Hb.
  unfold deallocate. rewrite (contains_total _ Htot t Ht), (end_ok _ Htot) by done. unfold size, base.
  replace (m_size t =? 0) with false by lia. rewrite (ro_pages _ _ Ht).
  replace (m_base t <? _) with true by lia. rewrite bool_decide_eq_true_2 by done.
  cbn [verify res_bind negb Z.eqb].
  destruct (BinarySearch.binary_search_spec (compare_ends t) (m_available_ranges a) entries_ordered) as ([ex near] & -> & Hr).
  cbn [res_bind]. unfold BinarySearch.search_result in Hr. cbn [fst snd] in Hr.
  assert (exists l1 c l2, joined a t l1 c l2 /\
    match ex with
    | Some i => let* e := Vector.at_ (m_available_ranges a) i in
        let* l := Vector.set_at (m_available_ranges a) i (mkRange (m_base e) (wrap size_t (m_size e + m_size t))) in
        Ok (l, near)
    | None => Vector.insert_before_matching (m_available_ranges a) t (fun entry => m_base t + m_size t <=? m_base entry) near
    end = Ok (l1 ++ c :: l2, length l1)) as (l1 & c & l2 & Hj & ->).
  { destruct ex as [i|].
    - destruct Hr as (-> & e & Hi & Hcmp). rewrite (entry_compare i) in Hcmp by done.
      eexists _, _, _. split; [apply (joined_existing i e); [done|lia]|].
      unfold Vector.at_, Vector.set_at. rewrite Hi. cbn [of_opt res_bind].
      pose proof (lookup_lt_Some _ _ _ Hi). rewrite bool_decide_eq_true_2 by done. cbn [verify res_bind].
      rewrite wrap32 by (destruct (entry_ok a i e Hinv Hi), Ht; lia).
      rewrite insert_take_drop, length_take_le by lia. done.
    - destruct Hr as (Hno & Hlow & Hhigh & Hlen).
      assert (near < length (m_available_ranges a))%nat as Hn by (destruct Hlen; [lia|done]).
      destruct (Vector.insert_before_matching_spec (m_available_ranges a) t
        (fun entry => m_base t + m_size t <=? m_base entry) near ltac:(lia)) as (i & -> & Hi & Hbf & Hat).
      eexists _, _, _. split; [apply (joined_new i); [lia|..]|by rewrite length_take_le by lia].
      + intros k e Hk Hke. pose proof (disjoint_sides a t k e Hinv ltac:(lia) Hd Hke) as Hside.
        specialize (Hno k e Hke). specialize (Hlow k e). rewrite (entry_compare k) in Hno, Hlow by done.
        destruct (decide (k < near)%nat); [specialize (Hlow ltac:(done) Hke); lia|].
        specialize (Hbf k e ltac:(lia) Hke). lia.
      + intros e He. specialize (Hat e He). lia. }
  cbn [res_bind]. destruct (merge_next_ok l1 c l2 Hj) as (l & -> & Hi & Hf).
  cbn [res_bind]. eexists. split; [done|]. done.
Qed.

End Dealloc.

(** ** A client of the allocator *)

(** What a client asks for; [Free i] returns its [i]th range. *)
Inductive request :=
  | Anywhere (s k : Z)
  | Randomized (random : nat -> Z) (s k : Z)
  | Specific (b s : Z)
  | Free (i : nat).

Definition client := (RangeAllocator * list Range)%type.

Definition hand_out (owned : list Range) (r : RangeAllocator * option Range) : client :=
  (r.1, match r.2 with Some t => t :: owned | None => owned end).

Definition serve (st : client) (q : request) : res client :=
  let (a, owned) := st in
  match q with
  | Anywhere s k => let* r := allocate_anywhere a s (2 ^ k) in Ok (hand_out owned r)
  | Randomized random s k => let* r := allocate_randomized random a s (2 ^ k) in Ok (hand_out owned r)
  | Specific b s => let* r := allocate_specific a b s in Ok (hand_out owned r)
  | Free i =>
      match owned !! i with
      | Some t => let* a := deallocate a t in Ok (a, delete i owned)
      | None => Ok (a, owned)
      end
  end.

Fixpoint serve_all (st : client) (qs : list request) : res client :=
  match qs with
  | [] => Ok st
  | q :: qs => let* st := serve st q in serve_all st qs
  end.

(** Requests that pass the argument checks. *)
Definition request_ok (total : Range) (q : request) : Prop :=
  match q with
  | Anywhere s k | Randomized _ s k => 12 <= k < 32 /\ 0 <= s < 2 ^ 32 /\ s mod PAGE_SIZE = 0
  | Specific b s => range_ok total (mkRange b s)
  | Free _ => True
  end.

(** Ranges in the client's hands are disjoint, and with the free ones they make
    up the whole address space. *)
Record client_inv (total : Range) (st : client) : Prop := {
  ci_alloc : alloc_inv st.1;
  ci_total : m_total_range st.1 = total;
  ci_owned : Forall (range_ok total) st.2;
  ci_disjoint : forall i j r s x, i <> j -> st.2 !! i = Some r -> st.2 !! j = Some s -> in_range r x -> ~ in_range s x;
  ci_split : forall x, in_range total x -> is_free st.1 x <-> ~ Exists (fun r => in_range r x) st.2;
}.

Lemma client_take total a owned t a' :
  client_inv total (a, owned) -> range_ok total t -> taken a t a' -> client_inv total (a', t :: owned).
Proof.
  intros [H1 H2 H3 H4 H5] Ht (T1 & T2 & T3 & T4). cbn [fst snd] in *.
  assert (forall x, in_range t x -> in_range total x) as Hin.
  { intros x. destruct Ht as [R1 R2 R3 _ _]. unfold in_range. lia. }
  assert (forall i r x, owned !! i = Some r -> in_range r x -> ~ in_range t x) as Hdisj.
  { intros i r x Hi Hr Hx. apply (H5 x (Hin x Hx)) in T3; [|done]. apply T3. apply Exists_exists.
    exists r. split; [by eapply list_elem_of_lookup_2|done]. }
  split; cbn [fst snd]; [done|congruence|by constructor| |].
  - intros [|i] [|j] r s x Hij Hi Hj Hr Hs; cbn in Hi, Hj; [done|..].
    + injection Hi as <-. by eapply Hdisj.
    + injection Hj as <-. by eapply Hdisj.
    + apply (H4 i j r s x); auto.
  - intros x Hx. rewrite T4, H5, Exists_cons by done. tauto.
Qed.

Lemma client_give_back total a owned i t a' :
  client_inv total (a, owned) -> owned !! i = Some t -> alloc_inv a' -> m_total_range a' = m_total_range a ->
  (forall x, is_free a' x <-> is_free a x \/ in_range t x) -> client_inv total (a', delete i owned).
Proof.
  intros [H1 H2 H3 H4 H5] Hi Ha Htot Hf. cbn [fst snd] in *.
  split; cbn [fst snd]; [done|congruence| | |].
  - rewrite Forall_forall in H3 |- *. intros r Hr. apply H3. apply list_elem_of_lookup in Hr as [j Hj].
    destruct (decide (j < i)%nat).
    + rewrite list_lookup_delete_lt in Hj by done. by eapply list_elem_of_lookup_2.
    + rewrite list_lookup_delete_ge in Hj by lia. by eapply list_elem_of_lookup_2.
  - intros j k r s x Hjk Hj Hk.
    destruct (decide (j < i)%nat); [rewrite list_lookup_delete_lt in Hj by done|rewrite list_lookup_delete_ge in Hj by lia];
    (destruct (decide (k < i)%nat); [rewrite list_lookup_delete_lt in Hk by done|rewrite list_lookup_delete_ge in Hk by lia]);
    (eapply H4; [|exact Hj|exact Hk]; lia).
  - intros x Hx. rewrite Hf, H5 by done. rewrite <-(take_drop_middle owned i t Hi) at 1.
    rewrite delete_take_drop, !Exists_app, Exists_cons.
    assert (in_range t x -> ~ Exists (fun r => in_range r x) (take i owned) /\
      ~ Exists (fun r => in_range r x) (drop (S i) owned)) as Hd.
    { intros Ht. rewrite !Exists_exists. split; intros (r & [j Hj]%list_elem_of_lookup & Hr).
      - apply lookup_take_Some in Hj as [Hj Hlt]. eapply (H4 i j t r x); [lia|done..].
      - rewrite lookup_drop in Hj. eapply (H4 i (S i + j)%nat t r x); [lia|done..]. }
    assert (in_range t x \/ ~ in_range t x) as [D|D] by (unfold in_range; lia); [|tauto].
    specialize (Hd D). tauto.
Qed.

(** One request: served, or a panic of [deallocate] on an allocator with nothing available. *)
Lemma serve_ok total st q :
  client_inv total st -> m_size total <= 2 ^ 31 -> request_ok total q ->
  match serve st q with
  | Ok st' => client_inv total st'
  | Fault f => f = VerifyFailed /\ m_available_ranges st.1 = [] /\ exists i t, q = Free i /\ st.2 !! i = Some t
  end.
Proof.
  destruct st as [a owned]. intros Hinv Hspan Hq. pose proof Hinv as [H1 H2 H3 H4 H5]. cbn [fst snd] in *.
  assert (forall s k a' t, 12 <= k < 32 -> 0 < s -> s mod PAGE_SIZE = 0 -> granted a s k a' t ->
    client_inv total (a', t :: owned)) as Hgr.
  { intros s k a' t Hk Hs0 Hs (<- & Hb & Ht). apply (client_take total a); [done| |done].
    destruct Ht as (_ & _ & Hfree & _).
    destruct (free_span_one_entry a t H1) as (i & e & Hi & E1 & E2); [done..|].
    pose proof (entry_ok a i e H1 Hi) as [E3 _ E4 _ _]. subst total.
    split; [lia|done|lia|by apply (multiple_of_page _ k)|done]. }
  destruct q as [s k|random s k|b s|i]; cbn [serve request_ok] in *.
  - destruct Hq as (Hk & Hs & Hsp). destruct (allocate_anywhere_spec a s k) as (a' & r & E & Hr); [done..|].
    rewrite E. cbn [res_bind]. unfold hand_out. cbn. destruct r as [t|]; [|by destruct Hr as [-> _]].
    destruct Hr as [Hr _]. apply (Hgr s k); try done.
    destruct (Z.eq_dec s 0) as [->|]; [done|lia].
  - destruct Hq as (Hk & Hs & Hsp). unfold allocate_randomized. destruct (Z.eqb_spec s 0); [done|].
    destruct (pow2_bounds k Hk) as [_ Hd].
    rewrite Hsp. replace (2 ^ k mod PAGE_SIZE) with 0 by (symmetry; apply Z.mod_divide; [done|exact Hd]).
    cbn [Z.eqb verify res_bind].
    destruct (randomized_loop_ok random a s k maximum_randomization_attempts 0) as (a' & r & -> & Hr); [done|done|lia|done|].
    cbn. destruct r as [t|]; [|by destruct Hr as [-> _]]. apply (Hgr s k); try done. lia.
  - subst total. destruct (allocate_specific_spec a b s) as (a' & r & -> & Hr); [done..|].
    cbn. destruct r as [t|]; [|by destruct Hr as [-> _]]. destruct Hr as [-> Ht]. by apply (client_take _ a).
  - destruct (owned !! i) as [t|] eqn:Hi; [|done].
    assert (range_ok total t) as Ht by (rewrite Forall_lookup in H3; by eapply H3).
    destruct (decide (m_available_ranges a = [])) as [E|E].
    + subst total. pose proof (range_bounds _ (ai_total a H1) t Ht).
      unfold deallocate. rewrite (contains_total _ (ai_total a H1) t Ht), (end_ok _ (ai_total a H1)) by done.
      unfold size, base. replace (m_size t =? 0) with false by lia. rewrite (ro_pages _ _ Ht), E.
      replace (m_base t <? _) with true by lia. cbn. split; [done|]. split; [done|]. by exists i, t.
    + assert (forall x, in_range t x -> ~ is_free a x) as Hd.
      { intros x Hx. rewrite H5 by (destruct Ht; unfold in_range in *; lia). intros Hn. apply Hn.
        apply Exists_exists. exists t. split; [by eapply list_elem_of_lookup_2|done]. }
      rewrite <-H2 in Ht, Hspan. destruct (give_back_spec a t H1 Hspan Ht Hd E) as (a' & -> & A1 & A2 & A3).
      cbn. by apply (client_give_back total a owned i t).
Qed.

Lemma initial_client b s :
  0 <= b -> 0 < s -> b + s < 2 ^ 32 -> b mod PAGE_SIZE = 0 -> s mod PAGE_SIZE = 0 ->
  client_inv (mkRange b s) (initialize_with_range make b s, []).
Proof.
  intros Hb Hs Hlt Hbp Hsp. split; cbn; [|done|done|done|].
  - split; cbn; [lia| |split; [constructor|done]]. constructor; [|constructor]. split; cbn; (done || lia).
  - intros x Hx. rewrite Exists_nil, is_free_exists. cbn. rewrite Exists_cons. tauto.
Qed.

End RangeFacts.

(** ** Properties *)

Import VirtualAddress Range RangeAllocator RangeFacts.

(** C13: for every sequence of well-formed requests against a fresh allocator of
    an address space of at most 2 GiB, the ranges handed out are disjoint and
    together with the free ones make up the whole space; the only way not to
    serve the sequence is the assertion of [deallocate] that something is still
    available, when everything had been handed out. *)
Theorem address_space_run_safe (b s : Z) (qs : list request)
    (Hb : 0 <= b) (Hs : 0 < s <= 2 ^ 31) (Hend : b + s < 2 ^ 32)
    (Hbp : b mod PAGE_SIZE = 0) (Hsp : s mod PAGE_SIZE = 0)
    (Hqs : Forall (request_ok (mkRange b s)) qs) :
  let start := (initialize_with_range make b s, []) in
  (exists st, serve_all start qs = Ok st /\ client_inv (mkRange b s) st) \/
  (exists pre i post a owned t,
     qs = pre ++ Free i :: post /\ serve_all start pre = Ok (a, owned) /\ client_inv (mkRange b s) (a, owned) /\
     m_available_ranges a = [] /\ owned !! i = Some t /\ serve_all start qs = Fault VerifyFailed).
Proof.
  intros start. assert (client_inv (mkRange b s) start) as Hinv by (apply initial_client; lia).
  clearbody start. revert start Hinv. induction Hqs as [|q qs Hq Hqs IH]; intros st Hinv.
  { left. by exists st. }
  pose proof (serve_ok (mkRange b s) st q Hinv ltac:(cbn; lia) Hq) as H. cbn [serve_all].
  destruct (serve st q) as [st'|f] eqn:E; cbn [res_bind].
  - destruct (IH st' H) as [(st'' & ? & ?)|(pre & i & post & a & owned & t & -> & ? & ?)].
    + left. by exists st''.
    + right. exists (q :: pre), i, post, a, owned, t. split; [done|]. split; [|done].
      cbn [serve_all]. by rewrite E.
  - destruct H as (-> & He & i & t & -> & Hi). right.
    exists [], i, qs, st.1, st.2, t. destruct st. done.
Qed.

Lemma address_space_run_safe_witness :
  exists st, serve_all (initialize_with_range make 0x100000 0x100000, [])
    [Anywhere 0x2000 12; Specific 0x140000 0x1000; Randomized (fun i => 0x150000 + Z.of_nat i) 0x3000 14; Free 1] = Ok st /\
  client_inv (mkRange 0x100000 0x100000) st.
Proof.
  destruct (address_space_run_safe 0x100000 0x100000
    [Anywhere 0x2000 12; Specific 0x140000 0x1000; Randomized (fun i => 0x150000 + Z.of_nat i) 0x3000 14; Free 1])
    as [H|(pre & i & post & a & owned & t & _ & _ & _ & _ & _ & H)]; [lia|lia|lia|reflexivity|reflexivity|..].
  - apply Forall_cons; split; [unfold request_ok; split; [lia|split; [lia|reflexivity]]|].
    apply Forall_cons; split; [unfold request_ok; split; cbn [m_base m_size]; (reflexivity || lia)|].
    apply Forall_cons; split; [unfold request_ok; split; [lia|split; [lia|reflexivity]]|].
    apply Forall_cons; split; [exact I|constructor].
  - exact H.
  - exfalso. vm_compute in H. discriminate.
Defined.

(** [allocate_specific] of a page range inside the address space gives that
    range exactly when all its addresses are free, and takes nothing else. *)
Theorem allocate_specific_correct (a : RangeAllocator) (b s : Z)
    (Hinv : alloc_inv a) (Hr : range_ok (m_total_range a) (mkRange b s)) :
  exists a' r, allocate_specific a b s = Ok (a', r) /\
    match r with
    | Some t => t = mkRange b s /\ taken a t a'
    | None => a' = a /\ exists x, b <= x < b + s /\ ~ is_free a x
    end.
Proof. by apply allocate_specific_spec. Qed.

Lemma initial_inv b s :
  0 <= b -> 0 < s -> b + s < 2 ^ 32 -> b mod PAGE_SIZE = 0 -> s mod PAGE_SIZE = 0 ->
  alloc_inv (initialize_with_range make b s).
Proof. intros. by apply (ci_alloc _ _ (initial_client b s ltac:(lia) ltac:(lia) ltac:(lia) ltac:(lia) ltac:(lia))). Qed.

Lemma allocate_specific_correct_witness :
  exists a', allocate_specific (initialize_with_range make 0x100000 0x100000) 0x140000 0x1000 =
    Ok (a', Some (mkRange 0x140000 0x1000)) /\
  taken (initialize_with_range make 0x100000 0x100000) (mkRange 0x140000 0x1000) a'.
Proof.
  destruct (allocate_specific_correct (initialize_with_range make 0x100000 0x100000) 0x140000 0x1000) as (a' & r & E & H).
  - apply initial_inv; (done || lia).
  - split; cbn; (done || lia).
  - destruct r as [t|]; [destruct H as [-> H]; by exists a'|]. exfalso. vm_compute in E. discriminate.
Defined.



(** In an address space of at most 2 GiB [deallocate] gives exactly the
    addresses of the range back, joined with the ranges next to it. *)
Theorem deallocate_correct (a : RangeAllocator) (t : Range)
    (Hinv : alloc_inv a) (Hspan : m_size (m_total_range a) <= 2 ^ 31) (Ht : range_ok (m_total_range a) t)
    (Hd : forall x, in_range t x -> ~ is_free a x) (Hne : m_available_ranges a <> []) :
  exists a', deallocate a t = Ok a' /\ alloc_inv a' /\ m_total_range a' = m_total_range a /\
    forall x, is_free a' x <-> is_free a x \/ in_range t x.
Proof. by apply give_back_spec. Qed.

Lemma deallocate_correct_witness :
  let a := mkRangeAllocator [mkRange 0x100000 0x1000; mkRange 0x103000 0x2000] (mkRange 0x100000 0x100000) in
  deallocate a (mkRange 0x101000 0x2000) = Ok (mkRangeAllocator [mkRange 0x100000 0x5000] (mkRange 0x100000 0x100000)) /\
  alloc_inv (mkRangeAllocator [mkRange 0x100000 0x5000] (mkRange 0x100000 0x100000)).
Proof.
  intros a. destruct (deallocate_correct a (mkRange 0x101000 0x2000)) as (a' & E & H & _).
  - split; cbn; [lia|repeat constructor; cbn; (done || lia)|repeat constructor; unfold gap; cbn; lia].
  - cbn. lia.
  - split; cbn; (done || lia).
  - intros x Hx Hf%is_free_exists. cbn in Hf. rewrite !Exists_cons, Exists_nil in Hf.
    unfold in_range in *. cbn in *. lia.
  - done.
  - assert (deallocate a (mkRange 0x101000 0x2000) = Ok (mkRangeAllocator [mkRange 0x100000 0x5000] (mkRange 0x100000 0x100000))) as E'
      by (vm_compute; reflexivity).
    rewrite E in E'. injection E' as ->. done.
Defined.

(** In the user address space, which is larger than 2 GiB, the comparator
    of [deallocate] loses the sign of a difference: after three allocations and
    a deallocation the available ranges are out of order, adjacent ranges are
    not joined, and [allocate_specific] refuses a range that is free. *)
Theorem deallocate_misorders_large_space :
  exists a owned,
    serve_all (initialize_with_range make 0x00800000 (0xbe000000 - 0x00800000), [])
      [Specific 0x00800000 0x100000; Specific 0x00901000 (0xb0000000 - 0x00901000);
       Specific 0xb0001000 (0xb1000000 - 0xb0001000); Free 2] = Ok (a, owned) /\
    map m_base (m_available_ranges a) = [0x00900000; 0xb0000000; 0x00800000; 0xb1000000] /\
    (forall x, 0x00800000 <= x < 0x00901000 -> is_free a x) /\
    allocate_specific a 0x00800000 0x101000 = Ok (a, None).
Proof.
  eexists _, _. split; [vm_compute; reflexivity|]. split; [reflexivity|]. split; [|vm_compute; reflexivity].
  intros x Hx. apply is_free_exists. cbn. rewrite !Exists_cons. unfold in_range. cbn. lia.
Qed.
