(* ===== verification/PhysicalRegion.v ===== *)
(** * Kernel/VM/PhysicalRegion and AK/Bitmap.h: free lists of physical pages

    [Bitmap] models [Bitmap::grow], the only operation of that class that is not
    one of its view.  [PhysicalRegion] models the allocator of the pages of one
    range of physical memory: a bitmap in kernel memory, a hint, and a queue of
    recently returned pages that delays their reuse.  A page is the index of its
    frame in the region, or its physical address; [out] of the invariant is the
    set of pages in use, which the code does not store. *)

From S2P Require Import Prelude Memory Checked Bitmap BitmapSearch Containers.

Import BitmapView BitmapFacts.

Module Bitmap.
Section Grow.

(** The kernel's allocator: the memory after the call, and the block. *)
Context (kmalloc : memory -> Z -> res (memory * Z)) (kfree : memory -> Z -> res memory).

Definition grow (m : memory) (v : BitmapView) (size_ : Z) (default_value : bool)
    : res (memory * BitmapView) :=
  VERIFY m_size v <? size_ ;;
  let* previous_size_bytes := size_in_bytes v in
  let previous_size := m_size v in
  let previous_data := m_data v in
  let* bytes := size_in_bytes (mkBitmapView previous_data size_) in
  let* (m, data) := kmalloc m bytes in
  let v := mkBitmapView data size_ in
  let* m := fill m v default_value in
  if negb (previous_data =? 0) then
    let* m := memcpy m data previous_data previous_size_bytes in
    let* m :=
      if negb (previous_size mod 8 =? 0) then
        set_range_value m v previous_size (8 - previous_size mod 8) default_value
      else Ok m in
    let* m := kfree m previous_data in
    Ok (m, v)
  else Ok (m, v).

End Grow.
End Bitmap.

Module PhysicalRegion.
Import BitmapSearch.

Record PhysicalRegion := mkPhysicalRegion {
  m_lower : Z;
  m_upper : Z;
  m_pages : Z;
  m_used : Z;
  m_bitmap : BitmapView;
  m_free_hint : Z;
  m_recently_returned : list Z;
}.

Definition with_bits (r : PhysicalRegion) (used hint : Z) : PhysicalRegion :=
  mkPhysicalRegion (m_lower r) (m_upper r) (m_pages r) used (m_bitmap r) hint (m_recently_returned r).

Definition with_queue (r : PhysicalRegion) (queue : list Z) : PhysicalRegion :=
  mkPhysicalRegion (m_lower r) (m_upper r) (m_pages r) (m_used r) (m_bitmap r) (m_free_hint r) queue.

Definition create (lower upper : Z) : PhysicalRegion :=
  mkPhysicalRegion lower upper 0 0 (mkBitmapView 0 0) 0 [].

Definition expand (r : PhysicalRegion) (lower upper : Z) : res PhysicalRegion :=
  VERIFY m_pages r =? 0 ;;
  Ok (mkPhysicalRegion lower upper (m_pages r) (m_used r) (m_bitmap r) (m_free_hint r)
        (m_recently_returned r)).

Definition finalize_capacity (kmalloc : memory -> Z -> res (memory * Z))
    (kfree : memory -> Z -> res memory) (m : memory) (r : PhysicalRegion)
    : res (memory * PhysicalRegion * Z) :=
  VERIFY m_pages r =? 0 ;;
  let pages := wrap FlatPtr (m_upper r - m_lower r) / PAGE_SIZE in
  let* (m, v) := Bitmap.grow kmalloc kfree m (m_bitmap r) pages false in
  Ok (m, mkPhysicalRegion (m_lower r) (m_upper r) pages (m_used r) v (m_free_hint r)
           (m_recently_returned r), pages).

Definition lower (r : PhysicalRegion) : Z := m_lower r.
Definition upper (r : PhysicalRegion) : Z := m_upper r.
Definition region_size (r : PhysicalRegion) : Z := m_pages r.
Definition returned (r : PhysicalRegion) : Z := Z.of_nat (length (m_recently_returned r)).
Definition used (r : PhysicalRegion) : Z := wrap U32 (m_used r - returned r).
Definition free (r : PhysicalRegion) : Z := wrap U32 (m_pages r - m_used r + returned r).
Definition region_contains (r : PhysicalRegion) (paddr : Z) : bool :=
  (m_lower r <=? paddr) && (paddr <=? m_upper r).

(** The index of the page at an address, with the two assertions on it. *)
Definition page_index (r : PhysicalRegion) (addr : Z) : res Z :=
  let local_offset := Checked.sub FlatPtr (Checked.of_value addr) (m_lower r) in
  VERIFY negb (Checked.has_overflow local_offset) ;;
  let* offset := Checked.value local_offset in
  VERIFY offset <? wrap FlatPtr (m_pages r * PAGE_SIZE) ;;
  Ok (offset / PAGE_SIZE).

(** [random] is the value [get_fast_random<u8>] gives. *)
Definition find_one_free_page (random : Z) (m : memory) (r : PhysicalRegion)
    : res (memory * PhysicalRegion * option Z) :=
  if m_used r =? m_pages r then
    if 0 <? returned r then
      let index := Z.to_nat (random mod returned r) in
      let* addr := Vector.at_ (m_recently_returned r) index in
      let* queue := Vector.remove (m_recently_returned r) index in
      let* page := page_index r addr in
      Ok (m, with_queue r queue, Some page)
    else Ok (m, r, None)
  else
    let* free_index := find_one_anywhere 2 false m (m_bitmap r) (m_free_hint r) in
    match free_index with
    | None => Ok (m, r, None)
    | Some page_index =>
        let* m := set m (m_bitmap r) page_index true in
        let hint := wrap size_t (page_index + 1) in
        let hint := if m_size (m_bitmap r) <=? hint then 0 else hint in
        Ok (m, with_bits r (wrap U32 (m_used r + 1)) hint, Some page_index)
    end.

(** Enough turns for the search of the longest range. *)
Definition turns (r : PhysicalRegion) : nat := S (Z.to_nat (m_size (m_bitmap r))).

Definition find_and_allocate_contiguous_range (m : memory) (r : PhysicalRegion) (count alignment : Z)
    : res (memory * PhysicalRegion * option Z) :=
  VERIFY negb (count =? 0) ;;
  let* (first_index, found_pages_count) :=
    find_longest_range_of_unset_bits (turns r) m (m_bitmap r) (wrap size_t (count + alignment - 1)) in
  match first_index with
  | None => Ok (m, r, None)
  | Some first_index =>
      let page :=
        if negb (alignment =? 1) then
          let lower_page := m_lower r / PAGE_SIZE in
          wrap U32 (Z.land (wrap U32 (lower_page + first_index + alignment - 1))
                      (wrap U32 (Z.lnot (alignment - 1))) - lower_page)
        else first_index in
      if count <=? found_pages_count then
        let* m := set_range true false m (m_bitmap r) page count in
        let hint := wrap size_t (first_index + count + 1) in
        let hint := if m_size (m_bitmap r) <=? hint then 0 else hint in
        Ok (m, with_bits r (wrap U32 (m_used r + count)) hint, Some page)
      else Ok (m, r, None)
  end.

Definition find_contiguous_free_pages (m : memory) (r : PhysicalRegion) (count physical_alignment : Z)
    : res (memory * PhysicalRegion * Z) :=
  VERIFY negb (count =? 0) ;;
  VERIFY physical_alignment mod PAGE_SIZE =? 0 ;;
  let* (m, r, range) :=
    find_and_allocate_contiguous_range m r count (physical_alignment / PAGE_SIZE) in
  let* page := of_opt VerifyFailed range in
  Ok (m, r, page).

(** The address of the page with an index. *)
Definition page_address (r : PhysicalRegion) (index : Z) : Z :=
  wrap FlatPtr (m_lower r + wrap FlatPtr (PAGE_SIZE * index)).

(** The pages are given by their addresses. *)
Definition take_contiguous_free_pages (m : memory) (r : PhysicalRegion) (count physical_alignment : Z)
    : res (memory * PhysicalRegion * list Z) :=
  VERIFY negb (m_pages r =? 0) ;;
  VERIFY negb (m_used r =? m_pages r) ;;
  let* (m, r, first_contiguous_page) := find_contiguous_free_pages m r count physical_alignment in
  Ok (m, r, (fun index => page_address r (index + first_contiguous_page)) <$> seqZ 0 count).

Definition take_free_page (random : Z) (m : memory) (r : PhysicalRegion)
    : res (memory * PhysicalRegion * option Z) :=
  VERIFY negb (m_pages r =? 0) ;;
  let* (m, r, free_index) := find_one_free_page random m r in
  Ok (m, r, page_address r <$> free_index).

Definition free_page_at (m : memory) (r : PhysicalRegion) (addr : Z) : res (memory * PhysicalRegion) :=
  VERIFY negb (m_pages r =? 0) ;;
  VERIFY negb (m_used r =? 0) ;;
  let* page := page_index r addr in
  let* m := set m (m_bitmap r) page false in
  Ok (m, with_bits r (wrap U32 (m_used r - 1)) page).

(** [Vector<PhysicalAddress, 256>]; the queue never grows past its inline capacity. *)
Definition queue_capacity : Z := 256.

Definition return_page (random : Z) (m : memory) (r : PhysicalRegion) (paddr : Z)
    : res (memory * PhysicalRegion) :=
  if queue_capacity <=? returned r then
    let* entry := Vector.at_ (m_recently_returned r) (Z.to_nat random) in
    let* (m, r) := free_page_at m r entry in
    let* queue := Vector.set_at (m_recently_returned r) (Z.to_nat random) paddr in
    Ok (m, with_queue r queue)
  else Ok (m, with_queue r (m_recently_returned r ++ [paddr])).

(** ** Abstract content *)

Definition address (r : PhysicalRegion) (i : Z) : Z := m_lower r + PAGE_SIZE * i.

(** [out] are the indices of the pages in use and [queue] those of the queue:
    together they are the bits that are set, and none occurs twice. *)
Record region_inv (m : memory) (r : PhysicalRegion) (out queue : list Z) : Prop := {
  ri_lower : 0 <= m_lower r;
  ri_upper : m_lower r + PAGE_SIZE * m_pages r <= m_upper r < 2 ^ 32;
  ri_pages : 0 < m_pages r;
  ri_size : m_size (m_bitmap r) = m_pages r;
  ri_view : view_ok 1 m (m_bitmap r);
  ri_data : m_data (m_bitmap r) mod 4 = 0;
  ri_hint : 0 <= m_free_hint r < m_pages r;
  ri_queue : m_recently_returned r = address r <$> queue;
  ri_capacity : Z.of_nat (length queue) <= queue_capacity;
  ri_distinct : NoDup (out ++ queue);
  ri_used : m_used r = Z.of_nat (length (out ++ queue));
  ri_bits : forall i, i ∈ out ++ queue <-> 0 <= i < m_pages r /\ bit m (m_bitmap r) i = true;
}.

End PhysicalRegion.

(** ** Lemmas *)

Module PhysicalFacts.
Import BitmapSearch SearchFacts PhysicalRegion.

Lemma wrap32_small z : 0 <= z < 2 ^ 32 -> wrap U32 z = z.
Proof. intros. apply wrap_id; [done|]. apply in_ty_spec. cbn. lia. Qed.

Lemma distinct_cover (l : list Z) n :
  0 <= n -> NoDup l -> (forall i, i ∈ l <-> 0 <= i < n) -> Z.of_nat (length l) = n.
Proof.
  intros Hn Hd Hi. assert (l ≡ₚ seqZ 0 n) as ->.
  { apply NoDup_Permutation; [done|apply NoDup_seqZ|]. intros i. rewrite Hi, elem_of_seqZ. lia. }
  rewrite length_seqZ. lia.
Qed.

Section Region.
Context (m : memory) (r : PhysicalRegion) (out queue : list Z).
Context (Hinv : region_inv m r out queue).

Lemma index_bound i : i ∈ out ++ queue -> 0 <= i < m_pages r.
Proof. intros H. by apply (ri_bits _ _ _ _ Hinv) in H as [? _]. Qed.

Lemma used_bound : Z.of_nat (length (out ++ queue)) <= m_pages r.
Proof.
  pose proof (ri_pages _ _ _ _ Hinv).
  apply distinct_bound; [lia|apply Hinv|apply index_bound].
Qed.

Lemma pages_bound : PAGE_SIZE * m_pages r < 2 ^ 32.
Proof. pose proof (ri_upper _ _ _ _ Hinv). pose proof (ri_lower _ _ _ _ Hinv). lia. Qed.

Lemma page_address_ok i : 0 <= i < m_pages r -> page_address r i = address r i.
Proof.
  intros Hi. pose proof (ri_upper _ _ _ _ Hinv). pose proof (ri_lower _ _ _ _ Hinv).
  unfold page_address, address. rewrite (wrap32_small (PAGE_SIZE * i)) by (unfold PAGE_SIZE in *; lia).
  apply wrap32_small. unfold PAGE_SIZE in *. lia.
Qed.

Lemma page_index_ok i : 0 <= i < m_pages r -> page_index r (address r i) = Ok i.
Proof.
  intros Hi. pose proof (ri_upper _ _ _ _ Hinv). pose proof (ri_lower _ _ _ _ Hinv).
  unfold page_index, address, Checked.sub, Checked.of_value, Checked.value, Checked.has_overflow.
  cbn [Checked.m_value Checked.m_overflow orb].
  replace (m_lower r + PAGE_SIZE * i - m_lower r) with (PAGE_SIZE * i) by lia.
  replace (in_ty FlatPtr (PAGE_SIZE * i)) with true
    by (symmetry; apply in_ty_spec; cbn; unfold PAGE_SIZE in *; lia).
  cbn [negb verify res_bind]. rewrite !wrap32_small by (unfold PAGE_SIZE in *; lia).
  replace (_ <? _) with true by (unfold PAGE_SIZE; lia). cbn [verify res_bind].
  f_equal. rewrite Z.mul_comm. by apply Z.div_mul.
Qed.

(** Moving pages between the users and the queue. *)
Lemma inv_requeue out' queue' :
  out' ++ queue' ≡ₚ out ++ queue -> Z.of_nat (length queue') <= queue_capacity ->
  region_inv m (with_queue r (address r <$> queue')) out' queue'.
Proof.
  intros Hp Hc. destruct Hinv. split; try done; cbn.
  - by rewrite Hp.
  - by rewrite Hp.
  - intros i. by rewrite Hp.
Qed.

(** Taking pages whose bits are unset. *)
Lemma inv_set new hint m' (P : Z -> bool) :
  NoDup new -> (forall i, i ∈ new <-> P i = true /\ 0 <= i < m_pages r) ->
  (forall i, i ∈ new -> bit m (m_bitmap r) i = false) -> 0 <= hint < m_pages r ->
  sets_bits true P m (m_bitmap r) m' ->
  region_inv m' (with_bits r (wrap U32 (m_used r + Z.of_nat (length new))) hint) (new ++ out) queue.
Proof.
  intros Hd HP Hu Hh (Hv & Hw & Hb). pose proof pages_bound. pose proof Hinv as [].
  assert (forall i, i ∈ new -> i ∉ out ++ queue) as Hdis.
  { intros i Hi [_ Hq]%ri_bits0. rewrite Hu in Hq by done. done. }
  assert (NoDup ((new ++ out) ++ queue)) as Hd'.
  { rewrite <- app_assoc. apply NoDup_app. done. }
  assert (forall i, i ∈ (new ++ out) ++ queue -> 0 <= i < m_pages r) as Hr.
  { intros i. rewrite <- app_assoc, elem_of_app. intros [Hi|Hi]; [by apply HP in Hi as [_ ?]|by apply index_bound]. }
  pose proof (distinct_bound _ (m_pages r) ltac:(lia) Hd' Hr) as Hl.
  split; try done; cbn.
  - destruct ri_view0. split; try done. intros i Hi. rewrite Hv. auto.
  - rewrite ri_used0. rewrite wrap32_small; rewrite ?length_app in *; unfold PAGE_SIZE in *; lia.
  - intros i. split.
    + intros Hi. split; [by apply Hr|]. rewrite Hb by (apply Hr in Hi; lia).
      destruct (P i) eqn:E; [done|]. rewrite <- app_assoc in Hi.
      apply elem_of_app in Hi as [Hi|Hi]; [apply HP in Hi as [? _]; congruence|].
      by apply ri_bits0 in Hi as [_ ?].
    + intros [Hi Hbit]. rewrite Hb in Hbit by lia. rewrite <- app_assoc, elem_of_app.
      destruct (P i) eqn:E; [left; by apply HP|right; by apply ri_bits0].
Qed.

(** Freeing a page of the queue. *)
Lemma inv_clear q1 i q2 m' :
  queue = q1 ++ i :: q2 -> sets_bits false (fun j => j =? i) m (m_bitmap r) m' ->
  region_inv m' (with_queue (with_bits r (wrap U32 (m_used r - 1)) i) (address r <$> q1 ++ q2)) out (q1 ++ q2).
Proof.
  intros Hq (Hv & Hw & Hb). pose proof pages_bound as Hpg. pose proof used_bound as Hub.
  pose proof (index_bound i) as Hi. pose proof Hinv as [].
  assert (out ++ queue ≡ₚ i :: out ++ q1 ++ q2) as Hp.
  { rewrite Hq. rewrite <- !Permutation_middle. done. }
  rewrite Hp in *. rewrite NoDup_cons in ri_distinct0. destruct ri_distinct0 as [Hni Hd].
  specialize (Hi ltac:(left)).
  split; try done; cbn.
  - destruct ri_view0. split; try done. intros j Hj. rewrite Hv. auto.
  - rewrite Hq, length_app in ri_capacity0. cbn in ri_capacity0. rewrite length_app. lia.
  - cbn in *. rewrite ri_used0, wrap32_small; unfold PAGE_SIZE in *; lia.
  - intros j. specialize (ri_bits0 j). rewrite Hp, elem_of_cons in ri_bits0. split.
    + intros Hj. destruct (proj1 ri_bits0 (or_intror Hj)) as [? Hbj]. split; [done|].
      rewrite Hb by lia. destruct (Z.eqb_spec j i) as [->|]; [done|done].
    + intros [Hj Hbj]. rewrite Hb in Hbj by lia. destruct (Z.eqb_spec j i); [done|].
      destruct (proj2 ri_bits0 (conj Hj Hbj)); [done|done].
Qed.

End Region.


(** What stays of a region, and of the memory outside its bitmap. *)
Definition same_shape (r r' : PhysicalRegion) : Prop :=
  m_lower r' = m_lower r /\ m_upper r' = m_upper r /\ m_pages r' = m_pages r /\
  m_bitmap r' = m_bitmap r.

Definition touches_only (r : PhysicalRegion) (m m' : memory) : Prop :=
  m_valid m' = m_valid m /\
  forall a, a < m_data (m_bitmap r) \/ m_data (m_bitmap r) + (m_pages r + 7) / 8 <= a ->
    m_bytes m' a = m_bytes m a.

Lemma touches_nothing r m : touches_only r m m.
Proof. done. Qed.

Lemma view_slack m v : view_ok 1 m v -> view_ok 0 m v.
Proof. intros []. split; try done. intros i Hi. apply ok_valid0. lia. Qed.

Lemma set_page m r out queue i value :
  region_inv m r out queue -> 0 <= i < m_pages r ->
  exists m', set m (m_bitmap r) i value = Ok m' /\
    sets_bits value (fun j => j =? i) m (m_bitmap r) m' /\ touches_only r m m'.
Proof.
  intros Hinv Hi. pose proof Hinv as [].
  destruct (set_spec 1 m (m_bitmap r) i value) as (m' & E & Hs & Hf); [done|lia|lia|].
  exists m'. split; [done|]. split; [done|]. split; [apply Hs|].
  intros a Ha. apply Hf. Z.to_euclidean_division_equations. lia.
Qed.

(** A page from the queue. *)
Lemma take_queued m r out queue k :
  region_inv m r out queue -> (k < length queue)%nat ->
  exists i q1 q2, queue = q1 ++ i :: q2 /\ k = length q1 /\
    Vector.at_ (m_recently_returned r) k = Ok (address r i) /\
    Vector.remove (m_recently_returned r) k = Ok (address r <$> q1 ++ q2).
Proof.
  intros Hinv Hk. destruct (lookup_lt_is_Some_2 queue k Hk) as [i Hi].
  pose proof (take_drop_middle _ _ _ Hi) as Hq. exists i, (take k queue), (drop (S k) queue).
  split; [done|]. split; [rewrite length_take; lia|].
  unfold Vector.at_, Vector.remove. rewrite (ri_queue _ _ _ _ Hinv).
  rewrite list_lookup_fmap, Hi, length_fmap, bool_decide_true by done. split; [done|].
  cbn [verify res_bind]. f_equal. by rewrite delete_take_drop, fmap_app, fmap_take, fmap_drop.
Qed.

(** [take_free_page]: a page no user holds, or none; when every byte of the
    bitmap is whole, none only if every page is in use. *)
Lemma take_free_page_spec random m r out queue :
  region_inv m r out queue -> 0 <= random ->
  exists m' r' o, take_free_page random m r = Ok (m', r', address r <$> o) /\
    same_shape r r' /\ touches_only r m m' /\
    match o with
    | Some i => (i ∉ out) /\ 0 <= i < m_pages r /\
                exists queue', region_inv m' r' (i :: out) queue' /\
                  (length queue' <= length queue)%nat
    | None => m' = m /\ r' = r /\
              (m_pages r mod 8 = 0 -> queue = [] /\ Z.of_nat (length out) = m_pages r)
    end.
Proof.
  intros Hinv Hr. pose proof Hinv as []. unfold take_free_page, find_one_free_page.
  rewrite (proj2 (Z.eqb_neq (m_pages r) 0)) by lia. cbn [negb verify res_bind].
  assert (returned r = Z.of_nat (length queue)) as Hret.
  { unfold returned. by rewrite ri_queue0, length_fmap. }
  rewrite Hret. destruct (Z.eqb_spec (m_used r) (m_pages r)) as [Hfull|Hpart].
  - destruct (Z.ltb_spec 0 (Z.of_nat (length queue))) as [Hq|Hq].
    + pose proof (Z.mod_pos_bound random (Z.of_nat (length queue)) Hq).
      destruct (take_queued m r out queue (Z.to_nat (random mod Z.of_nat (length queue))))
        as (i & q1 & q2 & Eq & Hk & -> & ->); [done|lia|]. cbn [res_bind].
      assert (i ∈ out ++ queue) as Hi by (rewrite Eq, !elem_of_app; right; right; left).
      pose proof (index_bound _ _ _ _ Hinv _ Hi) as Hib.
      rewrite (page_index_ok _ _ _ _ Hinv) by done. cbn [res_bind].
      exists m, (with_queue r (address r <$> q1 ++ q2)), (Some i). cbn [fmap option_fmap option_map].
      split; [by change (page_address (with_queue r _)) with (page_address r);
              rewrite (page_address_ok _ _ _ _ Hinv)|].
      split; [done|]. split; [done|]. split.
      { intros Ho. rewrite Eq in ri_distinct0. apply NoDup_app in ri_distinct0 as (_ & Hd & _).
        apply (Hd i Ho). apply elem_of_app. right. left. }
      split; [done|]. exists (q1 ++ q2). split.
      * apply (inv_requeue m r out queue Hinv).
        -- rewrite Eq. cbn. rewrite <- !Permutation_middle. done.
        -- rewrite Eq in ri_capacity0. rewrite !length_app in *. cbn in *. lia.
      * rewrite Eq, !length_app. cbn. lia.
    + cbn [res_bind]. exists m, r, None. split; [done|]. split; [done|]. split; [done|].
      split; [done|]. split; [done|]. intros _. destruct queue; [|cbn in *; lia].
      split; [done|]. by rewrite app_nil_r in ri_used0; congruence.
  - destruct (find_one_anywhere_spec false m (m_bitmap r) (m_free_hint r)) as (o & -> & Ho);
      [by apply view_slack|done|lia|]. cbn [res_bind]. destruct o as [i|].
    + destruct Ho as [Hi Hb]. assert (0 <= i < m_pages r) as Hib.
      { rewrite <- ri_size0. Z.to_euclidean_division_equations. lia. }
      destruct (set_page m r out queue i true Hinv Hib) as (m' & -> & Hs & Ht). cbn [res_bind].
      eexists m', _, (Some i). cbn [fmap option_fmap option_map].
      change (page_address (with_bits r _ _)) with (page_address r).
      rewrite (page_address_ok _ _ _ _ Hinv) by done. split; [done|]. split; [done|]. split; [done|].
      split. { intros Hin. assert (i ∈ out ++ queue) as [_ ?]%ri_bits0; [|congruence].
               apply elem_of_app. by left. }
      split; [done|]. exists queue. split; [|lia].
      apply (inv_set m r out queue Hinv [i]) with (P := fun j => j =? i); try done.
      * apply NoDup_singleton.
      * intros j. rewrite list_elem_of_singleton, Z.eqb_eq. split; [by intros ->|by intros [-> _]].
      * intros j ->%list_elem_of_singleton. done.
      * rewrite ri_size0. rewrite wrap32_small by (pose proof (pages_bound _ _ _ _ Hinv); unfold PAGE_SIZE in *; lia).
        case_if; lia.
    + exists m, r, None. split; [done|]. split; [done|]. split; [done|]. split; [done|]. split; [done|].
      intros H8. exfalso. apply Hpart. rewrite ri_used0.
      apply distinct_cover; [lia|done|]. intros i. rewrite ri_bits0. split; [tauto|].
      intros Hi. split; [done|]. rewrite Ho; [done|].
      rewrite ri_size0. Z.to_euclidean_division_equations. lia.
Qed.

(** [return_page] of a page in use. *)
Lemma return_page_spec random m r out1 i out2 queue :
  region_inv m r (out1 ++ i :: out2) queue -> 0 <= random < 256 ->
  exists m' r' queue', return_page random m r (address r i) = Ok (m', r') /\
    same_shape r r' /\ touches_only r m m' /\ region_inv m' r' (out1 ++ out2) queue'.
Proof.
  intros Hinv Hr. pose proof Hinv as []. unfold return_page.
  assert (returned r = Z.of_nat (length queue)) as ->.
  { unfold returned. by rewrite ri_queue0, length_fmap. }
  destruct (Z.leb_spec queue_capacity (Z.of_nat (length queue))) as [Hc|Hc]; unfold queue_capacity in *.
  - destruct (take_queued m r _ queue (Z.to_nat random) Hinv) as (j & q1 & q2 & Eq & Hk & Ha & _); [lia|].
    rewrite Ha. cbn [res_bind]. unfold free_page_at.
    rewrite (proj2 (Z.eqb_neq (m_pages r) 0)) by lia. cbn [negb verify res_bind].
    rewrite (proj2 (Z.eqb_neq (m_used r) 0)) by (rewrite ri_used0, !length_app in *; cbn in *; lia).
    cbn [negb verify res_bind]. assert (j ∈ (out1 ++ i :: out2) ++ queue) as Hj.
    { rewrite Eq, !elem_of_app. right; right; left. }
    pose proof (index_bound _ _ _ _ Hinv _ Hj) as Hjb.
    rewrite (page_index_ok _ _ _ _ Hinv) by done. cbn [res_bind].
    destruct (set_page m r _ queue j false Hinv Hjb) as (m' & -> & Hs & Ht). cbn [res_bind].
    change (m_recently_returned (with_bits r (wrap U32 (m_used r - 1)) j)) with (m_recently_returned r).
    rewrite ri_queue0. unfold Vector.set_at. rewrite length_fmap, bool_decide_true by lia.
    cbn [verify res_bind]. rewrite <- list_fmap_insert, Eq, Hk.
    replace (<[length q1 := i]> (q1 ++ j :: q2)) with (q1 ++ i :: q2)
      by (rewrite <- (Nat.add_0_r (length q1)); by rewrite insert_app_r).
    do 3 eexists. split; [done|]. split; [done|]. split; [done|].
    pose proof (inv_clear m r _ queue Hinv q1 j q2 m' Eq Hs) as Hinv'.
    apply (inv_requeue _ _ _ _ Hinv' (out1 ++ out2) (q1 ++ i :: q2)).
    + rewrite <- !Permutation_middle. cbn. rewrite <- !app_assoc. cbn. rewrite <- ?app_assoc. done.
    + rewrite Eq in ri_capacity0. rewrite !length_app in *. cbn in *. unfold queue_capacity. lia.
  - do 3 eexists. split; [done|]. split; [done|]. split; [done|].
    rewrite ri_queue0. change [address r i] with (address r <$> [i]). rewrite <- fmap_app.
    apply (inv_requeue _ _ _ _ Hinv).
    + rewrite <- !app_assoc. rewrite <- (Permutation_cons_append queue i). cbn.
      rewrite <- !Permutation_middle. done.
    + rewrite length_app. cbn. unfold queue_capacity. lia.
Qed.


Lemma seqZ_elem s n i : i ∈ seqZ s n <-> in_range s n i = true.
Proof. rewrite elem_of_seqZ. unfold in_range. lia. Qed.

(** [take_contiguous_free_pages] without an alignment: [count] neighbouring
    pages no user holds, or the assertion that some range was found stops it. *)
Lemma take_contiguous_spec m r out queue count :
  region_inv m r out queue -> 1 <= count < 2 ^ 32 - 1 ->
  take_contiguous_free_pages m r count PAGE_SIZE = Fault VerifyFailed \/
  exists m' r' s, take_contiguous_free_pages m r count PAGE_SIZE = Ok (m', r', address r <$> seqZ s count) /\
    same_shape r r' /\ region_inv m' r' (seqZ s count ++ out) queue.
Proof.
  intros Hinv Hc. pose proof Hinv as []. pose proof (pages_bound _ _ _ _ Hinv) as Hpb.
  unfold take_contiguous_free_pages, find_contiguous_free_pages, find_and_allocate_contiguous_range.
  rewrite (proj2 (Z.eqb_neq (m_pages r) 0)) by lia. cbn [negb verify res_bind].
  destruct (_ =? m_pages r); [by left|]. cbn [negb verify res_bind].
  rewrite (proj2 (Z.eqb_neq count 0)) by lia. cbn [negb verify res_bind].
  change (PAGE_SIZE mod PAGE_SIZE =? 0) with true. change (PAGE_SIZE / PAGE_SIZE) with 1.
  cbn [negb verify res_bind].
  change (1 =? 1) with true. cbn [negb]. replace (count + 1 - 1) with count by lia.
  rewrite wrap32_small by lia.
  destruct (find_longest_loop_spec (turns r) m (m_bitmap r) count 0 0 0) as (o & found & E & Ho);
    [by apply view_slack|lia|lia|lia|unfold turns; lia|lia|].
  unfold find_longest_range_of_unset_bits. rewrite E. cbn [res_bind]. clear E.
  destruct o as [s|]; [|by left]. destruct Ho as (Hf & _ & Hs0 & Hs1 & Hs2).
  destruct (Z.leb_spec count found) as [Hle|]; [|by left]. right.
  destruct (set_range_spec true false m (m_bitmap r) s count) as (m' & -> & Hs & _);
    [done|lia|lia|lia|done|]. cbn [res_bind of_opt].
  match goal with |- context [with_bits r ?u ?h] => exists m', (with_bits r u h), s end.
  split; [|split; [done|]].
  - do 2 f_equal. change (page_address (with_bits r _ _)) with (page_address r).
    assert (seqZ s count = Z.add s <$> seqZ 0 count) as -> by (rewrite fmap_add_seqZ; f_equal; lia).
    rewrite <- list_fmap_compose.
    apply list_fmap_ext. intros k i Hi%list_elem_of_lookup_2%elem_of_seqZ.
    cbn. rewrite (page_address_ok _ _ _ _ Hinv) by lia. unfold address. lia.
  - replace (m_used r + count) with (m_used r + Z.of_nat (length (seqZ s count)))
      by (rewrite length_seqZ; lia).
    apply (inv_set m r out queue Hinv) with (P := in_range s count); try done.
    + apply NoDup_seqZ.
    + intros i. rewrite seqZ_elem. unfold in_range. lia.
    + intros i Hi%elem_of_seqZ. apply Hs2. lia.
    + rewrite ri_size0. rewrite wrap32_small by (unfold PAGE_SIZE in *; lia). case_if; lia.
Qed.

(** ** [Bitmap::grow] *)

Definition view_bytes (v : BitmapView) : Z := (m_size v + 7) / 8.

Lemma size_in_bytes_ok v : size_in_bytes v = Ok (view_bytes v).
Proof.
  unfold size_in_bytes, ceil_div, view_bytes. cbn [Z.eqb negb defined res_bind]. f_equal.
  case_if; Z.to_euclidean_division_equations; lia.
Qed.

Lemma fill_ok m v d :
  bytes_wf m -> 0 <= m_size v -> (forall i, 0 <= i < view_bytes v -> m_valid m (m_data v + i) = true) ->
  exists m', fill m v d = Ok m' /\ m_valid m' = m_valid m /\ bytes_wf m' /\
    (forall i, 0 <= i < 8 * view_bytes v -> bit m' v i = d) /\
    (forall a, a < m_data v \/ m_data v + view_bytes v <= a -> m_bytes m' a = m_bytes m a).
Proof.
  intros Hw Hs Hv. unfold fill. rewrite size_in_bytes_ok. cbn [res_bind].
  assert (0 <= view_bytes v) by (unfold view_bytes; Z.to_euclidean_division_equations; lia).
  destruct (memset_bits d m v 0 (view_bytes v)) as (m' & E & (E1 & E2 & E3) & E4); [done|lia|lia| |].
  { intros a Ha. replace a with (m_data v + (a - m_data v)) by lia. apply Hv. lia. }
  rewrite Z.add_0_r in *. exists m'. split; [done|]. split; [done|]. split; [done|]. split; [|done].
  intros i Hi. rewrite E3 by lia. replace (_ && _) with true; [done|].
  Z.to_euclidean_division_equations. lia.
Qed.

Section Grow.
Context (kmalloc : memory -> Z -> res (memory * Z)) (kfree : memory -> Z -> res memory).

(** What the caller of [grow] relies on: the block is usable, with the byte
    after it that [set_range] touches, and is not part of the old bitmap, which
    it leaves as it was; freeing the old bitmap leaves the block as it is. *)
Record grow_env (m : memory) (v : BitmapView) (size_ : Z) (m1 : memory) (p : Z) : Prop := {
  ge_alloc : kmalloc m ((size_ + 7) / 8) = Ok (m1, p);
  ge_new : view_ok 1 m1 (mkBitmapView p size_);
  ge_old : m_data v <> 0 ->
    (forall i, 0 <= i < view_bytes v -> m_valid m1 (m_data v + i) = true /\
       m_bytes m1 (m_data v + i) = m_bytes m (m_data v + i)) /\
    (m_data v + view_bytes v <= p \/ p + (size_ + 7) / 8 + 1 <= m_data v);
  ge_free : forall m2, m_valid m2 = m_valid m1 -> exists m3, kfree m2 (m_data v) = Ok m3 /\
    forall i, 0 <= i < (size_ + 7) / 8 -> m_bytes m3 (p + i) = m_bytes m2 (p + i);
}.

(** The bits of the new bitmap: the old ones, then the default value. *)
Definition grown (m : memory) (v : BitmapView) (size_ : Z) (d : bool) (m' : memory) (p : Z) : Prop :=
  forall i, 0 <= i < size_ -> bit m' (mkBitmapView p size_) i = if i <? m_size v then bit m v i else d.

Lemma grow_fresh m size_ d m1 p :
  grow_env m (mkBitmapView 0 0) size_ m1 p -> 0 < size_ ->
  exists m', Bitmap.grow kmalloc kfree m (mkBitmapView 0 0) size_ d = Ok (m', mkBitmapView p size_) /\
    m_valid m' = m_valid m1 /\ bytes_wf m' /\ forall i, 0 <= i < size_ -> bit m' (mkBitmapView p size_) i = d.
Proof.
  intros [Ha [Hw Hsz Hd Ht Hv] _ _] Hs. unfold Bitmap.grow. cbn [m_size m_data] in *.
  rewrite (proj2 (Z.ltb_lt 0 size_)) by lia. cbn [verify res_bind]. rewrite !size_in_bytes_ok.
  cbn [res_bind]. unfold view_bytes at 1. cbn [m_size]. rewrite Ha. cbn [res_bind].
  destruct (fill_ok m1 (mkBitmapView p size_) d) as (m' & -> & E1 & E2 & E3 & _);
    [done|cbn; lia|intros i Hi; apply Hv; unfold view_bytes in Hi; cbn in *; lia|].
  cbn [res_bind Z.eqb negb]. exists m'. split; [done|]. split; [done|]. split; [done|].
  intros i Hi. apply E3. unfold view_bytes. cbn [m_size]. Z.to_euclidean_division_equations. lia.
Qed.

(** The new block after the old bytes were copied into it. *)
Lemma grow_copied m v size_ d m1 p :
  grow_env m v size_ m1 p -> m_data v <> 0 -> 0 <= m_size v < size_ ->
  exists m2 m3, fill m1 (mkBitmapView p size_) d = Ok m2 /\
    memcpy m2 p (m_data v) (view_bytes v) = Ok m3 /\ m_valid m3 = m_valid m1 /\
    view_ok 1 m3 (mkBitmapView p size_) /\
    forall i, 0 <= i < size_ ->
      bit m3 (mkBitmapView p size_) i = if i <? 8 * view_bytes v then bit m v i else d.
Proof.
  intros [Ha Hnew Ho _] Hn Hs. destruct (Ho Hn) as [Hold Hdis]. pose proof Hnew as [Hw Hsz Hd Ht Hv].
  cbn [m_size m_data] in *.
  destruct (fill_ok m1 (mkBitmapView p size_) d) as (m2 & E & E1 & E2 & E3 & E4);
    [done|cbn; lia|intros i Hi; apply Hv; unfold view_bytes in Hi; cbn in *; lia|].
  assert (0 <= view_bytes v <= (size_ + 7) / 8)
    by (unfold view_bytes in *; Z.to_euclidean_division_equations; lia).
  destruct (memcpy_ok m2 p (m_data v) (view_bytes v)) as (m3 & F & F1 & F2 & F3); [done|lia|lia| |].
  { intros i Hi. rewrite E1. split; [apply Hv; lia|by apply Hold]. }
  exists m2, m3. split; [done|]. split; [done|]. split; [congruence|]. split.
  { split; try done. intros i Hi. rewrite F1, E1. auto. }
  intros i Hi. unfold bit. cbn [m_data]. rewrite F3. case_if.
  - replace (i <? 8 * view_bytes v) with true by (Z.to_euclidean_division_equations; lia).
    f_equal. rewrite E4 by (unfold view_bytes in *; cbn [m_data m_size] in *; lia).
    replace (p + i / 8 - p) with (i / 8) by lia. apply Hold. Z.to_euclidean_division_equations; lia.
  - replace (i <? 8 * view_bytes v) with false by (Z.to_euclidean_division_equations; lia).
    apply (E3 i). unfold view_bytes. cbn [m_size]. Z.to_euclidean_division_equations. lia.
Qed.

(** Growing keeps the old bits, except within the last byte, where it stops on
    the assertion of [set_range]. *)
Lemma grow_spec m v size_ d m1 p :
  grow_env m v size_ m1 p -> m_data v <> 0 -> 0 <= m_size v < size_ -> size_ < 2 ^ 32 - 8 ->
  if size_ <? 8 * view_bytes v then Bitmap.grow kmalloc kfree m v size_ d = Fault VerifyFailed
  else exists m', Bitmap.grow kmalloc kfree m v size_ d = Ok (m', mkBitmapView p size_) /\
         grown m v size_ d m' p.
Proof.
  intros Henv Hn Hs Hmax. destruct (grow_copied m v size_ d m1 p Henv Hn Hs)
    as (m2 & m3 & E2 & E3 & E4 & Hok & Hb). destruct Henv as [Ha _ _ Hfree].
  unfold Bitmap.grow. rewrite (proj2 (Z.ltb_lt (m_size v) size_)) by lia.
  cbn [verify res_bind]. rewrite !size_in_bytes_ok. cbn [res_bind].
  change ((size_ + 7) / 8) with (view_bytes (mkBitmapView (m_data v) size_)) in Ha.
  rewrite Ha. cbn [res_bind]. rewrite E2. cbn [res_bind].
  rewrite (proj2 (Z.eqb_neq (m_data v) 0)) by done. cbn [negb]. rewrite E3. cbn [res_bind].
  assert (view_bytes v * 8 = (if m_size v mod 8 =? 0 then m_size v else m_size v + (8 - m_size v mod 8))) as Hvb.
  { unfold view_bytes. case_if; Z.to_euclidean_division_equations; lia. }
  destruct (Z.eqb_spec (m_size v mod 8) 0) as [H8|H8]; cbn [negb res_bind].
  - replace (size_ <? _) with false by lia. destruct (Hfree m3 E4) as (m4 & -> & Hk). cbn [res_bind].
    exists m4. split; [done|]. intros i Hi. unfold bit. cbn [m_data].
    rewrite Hk by (Z.to_euclidean_division_equations; lia). fold (bit m3 (mkBitmapView p size_) i).
    replace (m_size v) with (8 * view_bytes v) by lia. by apply Hb.
  - case_if.
    + pose proof (Z.mod_pos_bound (m_size v) 8 eq_refl).
      unfold set_range_value, set_range. cbn [m_size]. rewrite wrap32_small by lia.
      rewrite (proj2 (Z.ltb_lt (m_size v) size_)), (proj2 (Z.leb_gt _ size_)) by lia. by destruct d.
    + pose proof (Z.mod_pos_bound (m_size v) 8 eq_refl).
      destruct (set_range_spec d false m3 (mkBitmapView p size_) (m_size v) (8 - m_size v mod 8))
        as (m4 & E5 & (Hv4 & _ & Hb4) & _); [done|cbn; lia|lia|cbn; lia|done|].
      replace (set_range_value m3 _ _ _ _) with (@Ok memory m4)
        by (unfold set_range_value; by destruct d). cbn [res_bind].
      destruct (Hfree m4 ltac:(congruence)) as (m5 & -> & Hk). cbn [res_bind].
      exists m5. split; [done|]. intros i Hi. transitivity (bit m4 (mkBitmapView p size_) i).
      { unfold bit. cbn [m_data]. by rewrite Hk by (Z.to_euclidean_division_equations; lia). }
      rewrite Hb4, Hb by lia. unfold in_range. repeat case_if; lia || done.
Qed.

End Grow.


(** *** A new region *)

Lemma finalize_capacity_spec kmalloc kfree m lower upper m1 p :
  0 <= lower -> lower + PAGE_SIZE <= upper < 2 ^ 32 ->
  grow_env kmalloc kfree m (mkBitmapView 0 0) ((upper - lower) / PAGE_SIZE) m1 p -> p mod 4 = 0 ->
  exists m' r, finalize_capacity kmalloc kfree m (create lower upper) = Ok (m', r, (upper - lower) / PAGE_SIZE) /\
    m_lower r = lower /\ m_upper r = upper /\ m_pages r = (upper - lower) / PAGE_SIZE /\
    m_bitmap r = mkBitmapView p ((upper - lower) / PAGE_SIZE) /\ region_inv m' r [] [].
Proof.
  intros Hl Hu Henv Hp. unfold PAGE_SIZE in *.
  assert (0 < (upper - lower) / 4096) by (apply Z.div_str_pos; lia).
  pose proof (Z.mul_div_le (upper - lower) 4096 eq_refl).
  destruct (grow_fresh kmalloc kfree m _ false m1 p Henv) as (m' & E & Hv & Hw & Hb); [done|].
  unfold finalize_capacity, create. cbn [m_pages m_upper m_lower m_bitmap m_used m_free_hint m_recently_returned].
  change (0 =? 0) with true. cbn [verify res_bind]. rewrite wrap32_small by lia.
  unfold PAGE_SIZE. rewrite E. cbn [res_bind]. do 2 eexists. split; [done|]. cbn.
  do 4 (split; [done|]). split; cbn; try done; try (unfold PAGE_SIZE; lia).
  - destruct (ge_new _ _ _ _ _ _ _ Henv). split; try done. intros i Hi. rewrite Hv. auto.
  - constructor.
  - intros i. split; [intros Hn%not_elem_of_nil; done|]. intros [Hi Hbi]. by rewrite Hb in Hbi.
Qed.

End PhysicalFacts.

(** ** Runs *)

Module PhysicalRun.
Import PhysicalRegion.

Inductive operation :=
| Take (random : Z)
| TakeContiguous (count : Z)
| Return (random paddr : Z).

(** The users of the region hold the pages of a list and return only those. *)
Definition perform (op : operation) (s : memory * PhysicalRegion * list Z)
    : res (memory * PhysicalRegion * list Z) :=
  let '(m, r, held) := s in
  match op with
  | Take random =>
      let* (m, r, page) := take_free_page random m r in
      Ok (m, r, match page with Some a => a :: held | None => held end)
  | TakeContiguous count =>
      let* (m, r, pages) := take_contiguous_free_pages m r count PAGE_SIZE in
      Ok (m, r, pages ++ held)
  | Return random paddr =>
      match list_find (paddr =.) held with
      | Some (k, _) =>
          let* (m, r) := return_page random m r paddr in
          Ok (m, r, delete k held)
      | None => Ok s
      end
  end.

Fixpoint run (ops : list operation) (s : memory * PhysicalRegion * list Z)
    : res (memory * PhysicalRegion * list Z) :=
  match ops with
  | [] => Ok s
  | op :: ops => let* s := perform op s in run ops s
  end.

(** The arguments are machine values. *)
Definition operation_ok (op : operation) : Prop :=
  match op with
  | Take random => 0 <= random < 256
  | TakeContiguous count => 1 <= count < 2 ^ 32 - 1
  | Return random _ => 0 <= random < 256
  end.

Definition is_contiguous (op : operation) : bool :=
  match op with TakeContiguous _ => true | _ => false end.

(** The invariant of a run. *)
Definition run_inv (lower upper pages : Z) (s : memory * PhysicalRegion * list Z) : Prop :=
  let '(m, r, held) := s in
  m_lower r = lower /\ m_upper r = upper /\ m_pages r = pages /\
  exists out queue, held = address r <$> out /\ region_inv m r out queue.

End PhysicalRun.

Import PhysicalRegion PhysicalFacts PhysicalRun.

Lemma region_perform_ok lower upper pages op s :
  run_inv lower upper pages s -> operation_ok op ->
  (exists s', perform op s = Ok s' /\ run_inv lower upper pages s') \/
  (perform op s = Fault VerifyFailed /\ is_contiguous op = true).
Proof.
  destruct s as [[m r] held]. intros (El & Eu & Ep & out & queue & -> & Hinv) Hop.
  assert (forall r', same_shape r r' -> address r' = address r /\ m_lower r' = lower /\
            m_upper r' = upper /\ m_pages r' = pages) as Hshape.
  { intros r' (E1 & E2 & E3 & _). unfold address. rewrite E1. repeat split; congruence. }
  destruct op as [random|count|random paddr]; cbn [perform operation_ok is_contiguous] in *.
  - left. destruct (take_free_page_spec random m r out queue) as (m' & r' & o & -> & Hs & _ & Ho);
      [done|lia|]. cbn [res_bind]. destruct (Hshape r' Hs) as (Ea & Hfields).
    destruct o as [i|]; (eexists; split; [done|]); cbn [run_inv]; (do 3 (split; [tauto|])); rewrite Ea.
    + destruct Ho as (_ & _ & queue' & H' & _). by exists (i :: out), queue'.
    + destruct Ho as (-> & -> & _). by exists out, queue.
  - destruct (take_contiguous_spec m r out queue count) as [-> |(m' & r' & s & -> & Hs & H')];
      [done|lia|by right|]. left. cbn [res_bind]. eexists. split; [done|]. cbn [run_inv].
    destruct (Hshape r' Hs) as (Ea & ? & ? & ?). do 3 (split; [done|]). rewrite Ea.
    exists (seqZ s count ++ out), queue. by rewrite fmap_app.
  - left. destruct (list_find _ _) as [[k a]|] eqn:E.
    + apply list_find_Some in E as (Hk & <- & _). rewrite list_lookup_fmap in Hk.
      destruct (out !! k) as [i|] eqn:Ei; [|done]. injection Hk as Hk. rewrite <- Hk.
      pose proof (take_drop_middle _ _ _ Ei) as Eo. pose proof Hinv as Hinv'. rewrite <- Eo in Hinv'.
      destruct (return_page_spec random m r _ i _ queue Hinv' Hop) as (m' & r' & q' & -> & Hs & _ & H').
      cbn [res_bind]. eexists. split; [done|]. cbn [run_inv].
      destruct (Hshape r' Hs) as (Ea & ? & ? & ?). do 3 (split; [done|]). rewrite Ea.
      exists (take k out ++ drop (S k) out), q'. split; [|done].
      by rewrite delete_take_drop, fmap_app, fmap_take, fmap_drop.
    + eexists. split; [done|]. cbn [run_inv]. do 3 (split; [done|]). by exists out, queue.
Qed.

Lemma run_ok lower upper pages ops s :
  run_inv lower upper pages s -> Forall operation_ok ops ->
  (exists s', run ops s = Ok s' /\ run_inv lower upper pages s') \/
  (run ops s = Fault VerifyFailed /\ existsb is_contiguous ops = true).
Proof.
  intros Hs Hops. revert s Hs. induction Hops as [|op ops Hop Hops IH]; intros s Hs; cbn [run existsb].
  - left. by exists s.
  - destruct (region_perform_ok lower upper pages op s Hs Hop) as [(s' & -> & Hs')|[-> ->]]; cbn [res_bind].
    + destruct (IH s' Hs') as [?|[? ->]]; [by left|right]. by rewrite orb_true_r.
    + by right.
Qed.



(** ** Properties *)


(** A kernel heap whose only block is at 16. *)
Definition small_heap : memory := mkMemory (fun _ => 0) (fun a => (0 <=? a) && (a <? 1024)).
Definition kmalloc_at_16 (m : memory) (n : Z) : res (memory * Z) := Ok (m, 16).
Definition kfree_nothing (m : memory) (a : Z) : res memory := Ok m.

Lemma small_heap_env n :
  0 <= n <= 4096 -> grow_env kmalloc_at_16 kfree_nothing small_heap (mkBitmapView 0 0) n small_heap 16.
Proof.
  intros Hn. split; [done| |done|].
  - split; cbn; try lia; [intros a; cbn; lia|Z.to_euclidean_division_equations; lia|].
    intros i Hi. Z.to_euclidean_division_equations. lia.
  - intros m2 _. by exists m2.
Qed.


(** [Bitmap::grow] keeps every old bit and gives the new ones the
    default value; growing within the last byte of the old bitmap instead stops
    on an assertion, because the rest of that byte is set with a range that is
    longer than the new bitmap. *)
Theorem bitmap_grow_correct kmalloc kfree (m : memory) (v : BitmapView) (size_ : Z) (d : bool) m1 p :
  grow_env kmalloc kfree m v size_ m1 p -> m_data v <> 0 -> 0 <= m_size v < size_ -> size_ < 2 ^ 32 - 8 ->
  if size_ <? 8 * view_bytes v then Bitmap.grow kmalloc kfree m v size_ d = Fault VerifyFailed
  else exists m', Bitmap.grow kmalloc kfree m v size_ d = Ok (m', mkBitmapView p size_) /\
         grown m v size_ d m' p.
Proof. apply grow_spec. Qed.

Lemma bitmap_grow_correct_witness :
  Bitmap.grow kmalloc_at_16 kfree_nothing small_heap (mkBitmapView 600 1) 2 false = Fault VerifyFailed /\
  exists m', Bitmap.grow kmalloc_at_16 kfree_nothing small_heap (mkBitmapView 600 1) 9 false
             = Ok (m', mkBitmapView 16 9) /\ grown small_heap (mkBitmapView 600 1) 9 false m' 16.
Proof.
  assert (forall n, 0 <= n <= 4096 ->
    grow_env kmalloc_at_16 kfree_nothing small_heap (mkBitmapView 600 1) n small_heap 16) as Henv.
  { intros n Hn. destruct (small_heap_env n Hn). split; try done.
    intros _. change (view_bytes (mkBitmapView 600 1)) with 1. split; [|cbn; Z.to_euclidean_division_equations; lia].
    intros i Hi. cbn. split; [lia|done]. }
  split.
  - apply (bitmap_grow_correct kmalloc_at_16 kfree_nothing small_heap (mkBitmapView 600 1) 2 false small_heap 16);
      [apply Henv; lia|cbn; lia|cbn; lia|lia].
  - apply (bitmap_grow_correct kmalloc_at_16 kfree_nothing small_heap (mkBitmapView 600 1) 9 false small_heap 16);
      [apply Henv; lia|cbn; lia|cbn; lia|lia].
Defined.

(** The first [n] pages of the region at 1 MiB. *)
Definition taken (n : nat) : list operation := replicate n (Take 0).
Definition frame (i : Z) : Z := 0x100000 + PAGE_SIZE * i.

(** A region of twelve pages, eight of which are taken and one of them
    returned, has five free pages by its own count and yet no page to give: the
    search never looks at the last four, and the queue of returned pages is used
    only when every page of the bitmap is taken. *)
Theorem physical_pages_unreachable :
  match finalize_capacity kmalloc_at_16 kfree_nothing small_heap (create (frame 0) (frame 12)) with
  | Ok (m, r, _) =>
      match run (taken 8 ++ [Return 0 (frame 0)]) (m, r, []) with
      | Ok (m, r, held) =>
          length held = 7%nat /\ free r = 5 /\
          match take_free_page 0 m r with Ok (_, _, page) => page = None | Fault _ => False end
      | Fault _ => False
      end
  | Fault _ => False
  end.
Proof. vm_compute. repeat split. Qed.

(** A request for aligned neighbouring pages takes the first aligned
    page after the start of a free range that is long enough for the request but
    not for the alignment: of 304 pages only 1, 2 and 3 are free, and the request
    for two pages at a multiple of four gets 4 and 5, which are in use. *)
Theorem aligned_pages_in_use :
  match finalize_capacity kmalloc_at_16 kfree_nothing small_heap (create (frame 0) (frame 304)) with
  | Ok (m, r, _) =>
      match run (taken 304 ++ (Return 0 ∘ frame <$> [1; 2; 3] ++ seqZ 6 253)
                 ++ [Return 0 (frame 259); Return 1 (frame 260); Return 2 (frame 261)]) (m, r, []) with
      | Ok (m, r, held) =>
          bool_decide (frame 4 ∈ held) = true /\ bool_decide (frame 5 ∈ held) = true /\
          match take_contiguous_free_pages m r 2 0x4000 with
          | Ok (_, _, pages) => pages = [frame 4; frame 5]
          | Fault _ => False
          end
      | Fault _ => False
      end
  | Fault _ => False
  end.
Proof. vm_compute. repeat split. Qed.
