(* ===== verification/PhysicalMemory.v ===== *)
(** * Kernel/VM/MemoryManager: physical pages, and the promise of a commitment

    [MemoryManager] models the part of the class that hands out physical pages:
    the lists of regions, the counters of used, committed and uncommitted user
    pages, and the operations that move pages between them.  A commitment is a
    promise that a page will be there when it is asked for; the theorems show
    that the counters keep that promise.  Locks are not modelled: each operation
    holds [s_mm_lock] from its first to its last step. *)

From S2P Require Import Prelude Memory Bitmap Containers PhysicalRegion.

Module MemoryManager.
Import PhysicalRegion.

Inductive ShouldZeroFill := No | Yes.

(** [m_physical] are the bytes of physical memory, which the kernel reaches
    through temporary mappings; [m_kernel] is the kernel memory the bitmaps of
    the regions are in. *)
Record MemoryManager := mkMemoryManager {
  m_kernel : memory;
  m_physical : Z -> Z;
  m_user_physical_regions : list PhysicalRegion;
  m_super_physical_regions : list PhysicalRegion;
  m_user_physical_pages : Z;
  m_user_physical_pages_used : Z;
  m_user_physical_pages_committed : Z;
  m_user_physical_pages_uncommitted : Z;
  m_super_physical_pages : Z;
  m_super_physical_pages_used : Z;
}.

Definition with_user (mm : MemoryManager) (m : memory) (rs : list PhysicalRegion)
    (used committed uncommitted : Z) : MemoryManager :=
  mkMemoryManager m (m_physical mm) rs (m_super_physical_regions mm) (m_user_physical_pages mm)
    used committed uncommitted (m_super_physical_pages mm) (m_super_physical_pages_used mm).

Definition with_pools (mm : MemoryManager) (committed uncommitted : Z) : MemoryManager :=
  with_user mm (m_kernel mm) (m_user_physical_regions mm) (m_user_physical_pages_used mm)
    committed uncommitted.

Definition with_super (mm : MemoryManager) (m : memory) (rs : list PhysicalRegion) (used : Z)
    : MemoryManager :=
  mkMemoryManager m (m_physical mm) (m_user_physical_regions mm) rs (m_user_physical_pages mm)
    (m_user_physical_pages_used mm) (m_user_physical_pages_committed mm)
    (m_user_physical_pages_uncommitted mm) (m_super_physical_pages mm) used.

(** Fills the page at a physical address with zeroes. *)
Definition zero_page (mm : MemoryManager) (paddr : Z) : MemoryManager :=
  mkMemoryManager (m_kernel mm)
    (fun a => if (paddr <=? a) && (a <? paddr + PAGE_SIZE) then 0 else m_physical mm a)
    (m_user_physical_regions mm) (m_super_physical_regions mm) (m_user_physical_pages mm)
    (m_user_physical_pages_used mm) (m_user_physical_pages_committed mm)
    (m_user_physical_pages_uncommitted mm) (m_super_physical_pages mm)
    (m_super_physical_pages_used mm).

Definition commit_user_physical_pages (mm : MemoryManager) (page_count : Z) : res (MemoryManager * bool) :=
  VERIFY 0 <? page_count ;;
  if m_user_physical_pages_uncommitted mm <? page_count then Ok (mm, false)
  else Ok (with_pools mm (wrap U32 (m_user_physical_pages_committed mm + page_count))
             (wrap U32 (m_user_physical_pages_uncommitted mm - page_count)), true).

Definition uncommit_user_physical_pages (mm : MemoryManager) (page_count : Z) : res MemoryManager :=
  VERIFY 0 <? page_count ;;
  VERIFY page_count <=? m_user_physical_pages_committed mm ;;
  Ok (with_pools mm (wrap U32 (m_user_physical_pages_committed mm - page_count))
        (wrap U32 (m_user_physical_pages_uncommitted mm + page_count))).

(** The loop over the regions of a deallocation: the first region that contains
    the page gets it back. *)
Fixpoint return_to (random : Z) (m : memory) (rs : list PhysicalRegion) (paddr : Z)
    : res (memory * list PhysicalRegion) :=
  match rs with
  | [] => Fault VerifyFailed
  | r :: rs =>
      if negb (region_contains r paddr) then
        let* (m, rs) := return_to random m rs paddr in
        Ok (m, r :: rs)
      else
        let* (m, r) := return_page random m r paddr in
        Ok (m, r :: rs)
  end.

Definition deallocate_user_physical_page (random : Z) (mm : MemoryManager) (paddr : Z) : res MemoryManager :=
  let* (m, rs) := return_to random (m_kernel mm) (m_user_physical_regions mm) paddr in
  Ok (with_user mm m rs (wrap U32 (m_user_physical_pages_used mm - 1))
        (m_user_physical_pages_committed mm) (wrap U32 (m_user_physical_pages_uncommitted mm + 1))).

Definition deallocate_supervisor_physical_page (random : Z) (mm : MemoryManager) (paddr : Z)
    : res MemoryManager :=
  let* (m, rs) := return_to random (m_kernel mm) (m_super_physical_regions mm) paddr in
  Ok (with_super mm m rs (wrap U32 (m_super_physical_pages_used mm - 1))).

(** The loop over the regions of an allocation: the first region with a free
    page gives it. *)
Fixpoint take_from (random : Z) (m : memory) (rs : list PhysicalRegion)
    : res (memory * list PhysicalRegion * option Z) :=
  match rs with
  | [] => Ok (m, [], None)
  | r :: rs =>
      let* (m, r, page) := take_free_page random m r in
      match page with
      | Some paddr => Ok (m, r :: rs, Some paddr)
      | None =>
          let* (m, rs, page) := take_from random m rs in
          Ok (m, r :: rs, page)
      end
  end.

(** What [find_free_user_physical_page] does once a counter was decremented. *)
Definition draw_user_page (random : Z) (mm : MemoryManager) (committed : bool)
    : res (MemoryManager * option Z) :=
  let* (m, rs, page) := take_from random (m_kernel mm) (m_user_physical_regions mm) in
  let used := match page with
              | Some _ => wrap U32 (m_user_physical_pages_used mm + 1)
              | None => m_user_physical_pages_used mm
              end in
  VERIFY negb committed || bool_decide (page <> None) ;;
  Ok (with_user mm m rs used (m_user_physical_pages_committed mm)
        (m_user_physical_pages_uncommitted mm), page).

Definition find_free_user_physical_page (random : Z) (mm : MemoryManager) (committed : bool)
    : res (MemoryManager * option Z) :=
  if committed then
    VERIFY 0 <? m_user_physical_pages_committed mm ;;
    draw_user_page random
      (with_pools mm (wrap U32 (m_user_physical_pages_committed mm - 1))
         (m_user_physical_pages_uncommitted mm)) committed
  else if m_user_physical_pages_uncommitted mm =? 0 then Ok (mm, None)
  else
    draw_user_page random
      (with_pools mm (m_user_physical_pages_committed mm)
         (wrap U32 (m_user_physical_pages_uncommitted mm - 1))) committed.

Definition fill_page (mm : MemoryManager) (should_zero_fill : ShouldZeroFill) (paddr : Z) : MemoryManager :=
  match should_zero_fill with Yes => zero_page mm paddr | No => mm end.

Definition allocate_committed_user_physical_page (random : Z) (mm : MemoryManager)
    (should_zero_fill : ShouldZeroFill) : res (MemoryManager * Z) :=
  let* (mm, page) := find_free_user_physical_page random mm true in
  let* page := of_opt UndefinedBehaviour page in
  Ok (fill_page mm should_zero_fill page, page).

(** What purging an anonymous VM object gives: the number of pages it counted,
    and the pages nobody else refers to, which are deallocated, each with the
    random value its return draws. *)
Record purge := mkPurge { purged_page_count : Z; released : list (Z * Z) }.

Fixpoint release_all (mm : MemoryManager) (pages : list (Z * Z)) : res MemoryManager :=
  match pages with
  | [] => Ok mm
  | (random, paddr) :: pages =>
      let* mm := deallocate_user_physical_page random mm paddr in
      release_all mm pages
  end.

(** The loop over the anonymous VM objects: purge them until one had something
    to purge. *)
Fixpoint purge_until_page (random : Z) (mm : MemoryManager) (vmobjects : list purge)
    : res (MemoryManager * option Z) :=
  match vmobjects with
  | [] => Ok (mm, None)
  | vmobject :: vmobjects =>
      let* mm := release_all mm (released vmobject) in
      if negb (purged_page_count vmobject =? 0) then
        let* (mm, page) := find_free_user_physical_page random mm false in
        VERIFY bool_decide (page <> None) ;;
        Ok (mm, page)
      else purge_until_page random mm vmobjects
  end.

(** The page, if any, and whether something was purged. *)
Definition allocate_user_physical_page (random : Z) (mm : MemoryManager)
    (should_zero_fill : ShouldZeroFill) (vmobjects : list purge)
    : res (MemoryManager * option Z * bool) :=
  let* (mm, page) := find_free_user_physical_page random mm false in
  match page with
  | Some paddr => Ok (fill_page mm should_zero_fill paddr, Some paddr, false)
  | None =>
      let* (mm, page) := purge_until_page random mm vmobjects in
      match page with
      | Some paddr => Ok (fill_page mm should_zero_fill paddr, Some paddr, true)
      | None => Ok (mm, None, false)
      end
  end.

Definition allocate_supervisor_physical_page (random : Z) (mm : MemoryManager)
    : res (MemoryManager * Z) :=
  let* (m, rs, page) := take_from random (m_kernel mm) (m_super_physical_regions mm) in
  let* paddr := of_opt VerifyFailed page in
  Ok (zero_page (with_super mm m rs (wrap U32 (m_super_physical_pages_used mm + 1))) paddr, paddr).

End MemoryManager.

(** ** Lemmas *)

Module PoolFacts.
Import BitmapView PhysicalRegion PhysicalFacts MemoryManager.

(** Two regions have neither a byte of their bitmaps nor an address in common. *)
Definition apart (r r' : PhysicalRegion) : Prop :=
  (m_data (m_bitmap r) + (m_pages r + 7) / 8 <= m_data (m_bitmap r') \/
   m_data (m_bitmap r') + (m_pages r' + 7) / 8 <= m_data (m_bitmap r)) /\
  (m_upper r < m_lower r' \/ m_upper r' < m_lower r).

(** The regions of a list with the pages in use of each. *)
Inductive pool (m : memory) : list PhysicalRegion -> list (list Z) -> Prop :=
| pool_nil : pool m [] []
| pool_cons r rs out outs queue :
    region_inv m r out queue -> Forall (apart r) rs -> pool m rs outs -> pool m (r :: rs) (out :: outs).

Lemma regions_apart_sym r r' : apart r r' -> apart r' r.
Proof. unfold apart. lia. Qed.

Lemma apart_shape r r' s s' : same_shape r r' -> same_shape s s' -> apart r s -> apart r' s'.
Proof. intros (E1 & E2 & E3 & E4) (F1 & F2 & F3 & F4). unfold apart. congruence. Qed.

(** A change of the bitmap of one region leaves the others as they are. *)
Lemma region_frame m m' r s out queue :
  region_inv m r out queue -> touches_only s m m' -> apart r s -> bytes_wf m' ->
  region_inv m' r out queue.
Proof.
  intros Hinv (Hv & Hb) [Hd _] Hw. pose proof Hinv as []. split; try done.
  - destruct ri_view0. split; try done. intros i Hi. rewrite Hv. auto.
  - intros i. rewrite ri_bits0. split; intros [Hi Hbit]; (split; [done|]); rewrite <- Hbit; unfold bit;
      [rewrite Hb|rewrite <- Hb]; try done; Z.to_euclidean_division_equations; lia.
Qed.

Lemma pool_frame m m' s rs outs :
  pool m rs outs -> touches_only s m m' -> Forall (apart s) rs -> bytes_wf m' -> pool m' rs outs.
Proof.
  intros Hp Ht Ha Hw. induction Hp as [|r rs out outs queue Hr Hra Hp IH]; [constructor|].
  apply Forall_cons in Ha as [Ha1 Ha2]. apply (pool_cons _ _ _ _ _ queue); [|done|by apply IH].
  eapply region_frame; [done..| |done]. by apply regions_apart_sym.
Qed.

Lemma shape_refl r : same_shape r r.
Proof. done. Qed.

Lemma shapes_refl rs : Forall2 same_shape rs rs.
Proof. induction rs; constructor; [apply shape_refl|done]. Qed.

Lemma apart_shapes r r' rs rs' :
  same_shape r r' -> Forall2 same_shape rs rs' -> Forall (apart r) rs -> Forall (apart r') rs'.
Proof.
  intros Hr Hs. induction Hs as [|s s' rs rs' Hs1 Hs IH]; [constructor|].
  intros [H1 H2]%Forall_cons. constructor; [by eapply apart_shape|by apply IH].
Qed.

Lemma inv_wf m r out queue : region_inv m r out queue -> bytes_wf m.
Proof. intros []. apply ri_view0. Qed.

(** Every page of every region is in use. *)
Definition exhausted (rs : list PhysicalRegion) (outs : list (list Z)) : Prop :=
  Forall2 (fun r out => Z.of_nat (length out) = m_pages r) rs outs.

Definition whole_bytes (r : PhysicalRegion) : Prop := m_pages r mod 8 = 0.

Lemma take_from_spec random m rs outs :
  pool m rs outs -> 0 <= random ->
  exists m' rs' o, take_from random m rs = Ok (m', rs', o) /\ Forall2 same_shape rs rs' /\
    match o with
    | Some a => exists k r out i, rs !! k = Some r /\ outs !! k = Some out /\ a = address r i /\
                  pool m' rs' (<[k := i :: out]> outs) /\ touches_only r m m'
    | None => m' = m /\ rs' = rs /\ (Forall whole_bytes rs -> exhausted rs outs)
    end.
Proof.
  intros Hp Hr. induction Hp as [|r rs out outs queue Hinv Hra Hp IH]; cbn [take_from].
  { exists m, [], None. split; [done|]. split; [constructor|]. do 2 (split; [done|]). constructor. }
  destruct (take_free_page_spec random m r out queue Hinv Hr) as (m' & r' & o & -> & Hs & Ht & Ho).
  cbn [res_bind]. destruct o as [i|]; cbn [fmap option_fmap option_map].
  - destruct Ho as (_ & _ & queue' & Hinv' & _). exists m', (r' :: rs), (Some (address r i)).
    split; [done|]. split; [constructor; [done|apply shapes_refl]|].
    exists 0%nat, r, out, i. cbn. do 3 (split; [done|]). split; [|done].
    apply (pool_cons _ _ _ _ _ queue'); [done| |].
    + by apply (apart_shapes r r' rs rs); [|apply shapes_refl|].
    + eapply pool_frame; [done..|]. by eapply inv_wf.
  - destruct Ho as (-> & -> & Hfull). destruct IH as (m' & rs' & o & -> & Hss & Ho). cbn [res_bind].
    exists m', (r :: rs'), o. split; [done|]. split; [by constructor|]. destruct o as [a|].
    + destruct Ho as (k & rk & outk & i & Hk & Ho & -> & Hp' & Htk). exists (S k), rk, outk, i. cbn.
      do 3 (split; [done|]). split; [|done]. apply (pool_cons _ _ _ _ _ queue).
      * eapply region_frame; [done|done| |].
        -- rewrite Forall_lookup in Hra. by eapply Hra.
        -- inversion Hp'; [|by eapply inv_wf]. subst. destruct outs; [done|]. by destruct k.
      * by apply (apart_shapes r r rs rs').
      * done.
    + destruct Ho as (-> & -> & Hex). do 2 (split; [done|]). intros [H8 H8s]%Forall_cons.
      constructor; [by apply Hfull|by apply Hex].
Qed.

Lemma return_to_spec random m rs outs k r out1 i out2 :
  pool m rs outs -> 0 <= random < 256 -> rs !! k = Some r -> outs !! k = Some (out1 ++ i :: out2) ->
  exists m' rs', return_to random m rs (address r i) = Ok (m', rs') /\ Forall2 same_shape rs rs' /\
    pool m' rs' (<[k := out1 ++ out2]> outs) /\ touches_only r m m'.
Proof.
  intros Hp Hr. revert k. induction Hp as [|s rs out outs queue Hinv Hra Hp IH]; intros k Hk Ho; [done|].
  assert (exists queue', region_inv m r (out1 ++ i :: out2) queue') as (queue' & Hrk).
  { destruct k as [|k]; [injection Hk as <-; injection Ho as ->; by exists queue|].
    clear -Hp Hk Ho. cbn in *. revert k Hk Ho. induction Hp as [|s' rs out' outs queue' ? ? ? IH]; intros k Hk Ho; [done|].
    destruct k as [|k]; [injection Hk as <-; injection Ho as ->; by exists queue'|by apply (IH k)]. }
  assert (0 <= i < m_pages r) as Hi.
  { apply (index_bound _ _ _ _ Hrk). rewrite !elem_of_app. left. right. left. }
  pose proof (ri_upper _ _ _ _ Hrk) as Hu. cbn [return_to].
  assert (m_lower r <= address r i <= m_upper r) as Ha by (unfold address, PAGE_SIZE in *; lia).
  destruct k as [|k].
  - injection Hk as ->. injection Ho as ->. unfold region_contains.
    replace (_ && _) with true by lia. cbn [negb].
    destruct (return_page_spec random m r out1 i out2 queue Hinv Hr) as (m' & r' & q' & -> & Hs & Ht & Hinv').
    cbn [res_bind]. exists m', (r' :: rs). split; [done|]. split; [constructor; [done|apply shapes_refl]|].
    split; [|done]. cbn. apply (pool_cons _ _ _ _ _ q'); [done| |].
    + by apply (apart_shapes r r' rs rs); [|apply shapes_refl|].
    + eapply pool_frame; [done..|]. by eapply inv_wf.
  - cbn in Hk, Ho. assert (apart s r) as Hsr by (rewrite Forall_lookup in Hra; by eapply Hra).
    pose proof (ri_upper _ _ _ _ Hinv). pose proof (ri_pages _ _ _ _ Hinv). pose proof (ri_pages _ _ _ _ Hrk).
    unfold region_contains. destruct Hsr as [Hsr1 Hsr2].
    replace (_ && _) with false by (unfold PAGE_SIZE in *; lia). cbn [negb].
    destruct (IH k Hk Ho) as (m' & rs' & -> & Hss & Hp' & Ht). cbn [res_bind].
    exists m', (s :: rs'). split; [done|]. split; [by constructor|]. split; [|done]. cbn.
    apply (pool_cons _ _ _ _ _ queue); [|by apply (apart_shapes s s rs rs')|done].
    eapply region_frame; [done|done|by split|].
    inversion Hp'; [|by eapply inv_wf]. subst. destruct outs; [done|]. by destruct k.
Qed.

End PoolFacts.

(** ** Requests *)

Module MemoryRun.
Import PhysicalRegion PhysicalFacts MemoryManager PoolFacts.

(** The addresses of the pages in use. *)
Definition held_pages (rs : list PhysicalRegion) (outs : list (list Z)) : list Z :=
  concat (zip_with (fun r out => address r <$> out) rs outs).

Definition total (rs : list PhysicalRegion) : Z := foldr Z.add 0 (m_pages <$> rs).

#[local] Arguments held_pages : simpl never.
#[local] Arguments total : simpl never.

(** The counters add up, but for [drawn] pages a pool was charged for and that
    are not taken yet, and they count what is in use. *)
Record mm_inv (drawn : Z) (mm : MemoryManager) (outs : list (list Z)) : Prop := {
  mi_pool : pool (m_kernel mm) (m_user_physical_regions mm) outs;
  mi_bytes : Forall whole_bytes (m_user_physical_regions mm);
  mi_total : m_user_physical_pages mm = total (m_user_physical_regions mm);
  mi_used : m_user_physical_pages_used mm = Z.of_nat (length (held_pages (m_user_physical_regions mm) outs));
  mi_sum : m_user_physical_pages_used mm + m_user_physical_pages_committed mm +
           m_user_physical_pages_uncommitted mm + drawn = m_user_physical_pages mm;
  mi_committed : 0 <= m_user_physical_pages_committed mm;
  mi_uncommitted : 0 <= m_user_physical_pages_uncommitted mm;
  mi_width : m_user_physical_pages mm < 2 ^ 32;
}.

(** What the rest of the kernel asks for. *)
Inductive request :=
| Commit (page_count : Z)
| Uncommit (page_count : Z)
| AllocateCommitted (random : Z) (fill : ShouldZeroFill)
| Allocate (random : Z) (fill : ShouldZeroFill)
| Deallocate (random paddr : Z).

(** The rest of the kernel holds pages and promises.  It gives back and uses up
    only what it has, and it does not ask for nothing. *)
Record client := mkClient { held : list Z; promised : Z }.

Definition serve (q : request) (s : MemoryManager * client) : res (MemoryManager * client) :=
  let '(mm, c) := s in
  match q with
  | Commit n =>
      if 0 <? n then
        let* (mm, granted) := commit_user_physical_pages mm n in
        Ok (mm, if granted : bool then mkClient (held c) (promised c + n) else c)
      else Ok s
  | Uncommit n =>
      if (0 <? n) && (n <=? promised c) then
        let* mm := uncommit_user_physical_pages mm n in
        Ok (mm, mkClient (held c) (promised c - n))
      else Ok s
  | AllocateCommitted random fill =>
      if 0 <? promised c then
        let* (mm, paddr) := allocate_committed_user_physical_page random mm fill in
        Ok (mm, mkClient (paddr :: held c) (promised c - 1))
      else Ok s
  | Allocate random fill =>
      let* (mm, page, _) := allocate_user_physical_page random mm fill [] in
      Ok (mm, match page with Some paddr => mkClient (paddr :: held c) (promised c) | None => c end)
  | Deallocate random paddr =>
      match list_find (paddr =.) (held c) with
      | Some (k, _) =>
          let* mm := deallocate_user_physical_page random mm paddr in
          Ok (mm, mkClient (delete k (held c)) (promised c))
      | None => Ok s
      end
  end.

Fixpoint serve_all (qs : list request) (s : MemoryManager * client) : res (MemoryManager * client) :=
  match qs with
  | [] => Ok s
  | q :: qs => let* s := serve q s in serve_all qs s
  end.

Definition request_ok (q : request) : Prop :=
  match q with
  | Commit n | Uncommit n => 0 <= n < 2 ^ 32
  | AllocateCommitted random _ | Allocate random _ | Deallocate random _ => 0 <= random < 256
  end.

Definition serve_inv (s : MemoryManager * client) : Prop :=
  exists outs, mm_inv 0 s.1 outs /\ held s.2 ≡ₚ held_pages (m_user_physical_regions s.1) outs /\
    promised s.2 = m_user_physical_pages_committed s.1.

(** *** The pages in use *)

Lemma held_shapes rs rs' outs : Forall2 same_shape rs rs' -> held_pages rs' outs = held_pages rs outs.
Proof.
  intros Hs. revert outs. induction Hs as [|r r' rs rs' (El & _) Hs IH]; intros outs; [done|].
  destruct outs as [|out outs]; [done|]. unfold held_pages in *. cbn. rewrite IH. f_equal.
  unfold address. by rewrite El.
Qed.

Lemma total_shapes rs rs' : Forall2 same_shape rs rs' -> total rs' = total rs.
Proof.
  intros Hs. induction Hs as [|r r' rs rs' (_ & _ & Ep & _) Hs IH]; [done|].
  unfold total in *. cbn. by rewrite Ep, IH.
Qed.

Lemma bytes_shapes rs rs' : Forall2 same_shape rs rs' -> Forall whole_bytes rs -> Forall whole_bytes rs'.
Proof.
  intros Hs. induction Hs as [|r r' rs rs' (_ & _ & Ep & _) Hs IH]; [done|].
  intros [H1 H2]%Forall_cons. constructor; [by unfold whole_bytes; rewrite Ep|by apply IH].
Qed.

(** One page more or less. *)
Lemma held_insert rs outs k r i out out' :
  rs !! k = Some r -> outs !! k = Some out -> out' ≡ₚ i :: out ->
  held_pages rs (<[k := out']> outs) ≡ₚ address r i :: held_pages rs outs.
Proof.
  intros Hr Ho Hp. revert outs k Hr Ho. induction rs as [|s rs IH]; intros outs k Hr Ho; [done|].
  destruct outs as [|o outs]; [done|]. unfold held_pages in *. destruct k as [|k]; cbn in *.
  - injection Hr as ->. injection Ho as ->. by rewrite Hp.
  - rewrite (IH outs k Hr Ho). by rewrite Permutation_middle.
Qed.

Lemma held_delete rs outs k r i out out' :
  rs !! k = Some r -> outs !! k = Some out -> out ≡ₚ i :: out' ->
  held_pages rs outs ≡ₚ address r i :: held_pages rs (<[k := out']> outs).
Proof.
  intros Hr Ho Hp. assert (k < length outs)%nat by (by eapply lookup_lt_Some).
  rewrite <- (held_insert rs (<[k := out']> outs) k r i out' out);
    [by rewrite list_insert_insert_eq, list_insert_id|done|by rewrite list_lookup_insert_eq|done].
Qed.

Lemma held_inv m rs outs a :
  pool m rs outs -> a ∈ held_pages rs outs ->
  exists k r out1 i out2, rs !! k = Some r /\ outs !! k = Some (out1 ++ i :: out2) /\ a = address r i.
Proof.
  intros Hp. induction Hp as [|r rs out outs queue Hinv Hra Hp IH]; [by intros ?%not_elem_of_nil|].
  unfold held_pages in *. cbn. intros [(i & -> & Hi)%list_elem_of_fmap|Ha]%elem_of_app.
  - apply list_elem_of_split in Hi as (out1 & out2 & ->). by exists 0%nat, r, out1, i, out2.
  - destruct (IH Ha) as (k & H). by exists (S k).
Qed.

Lemma held_range m rs outs a :
  pool m rs outs -> a ∈ held_pages rs outs -> exists r, r ∈ rs /\ m_lower r <= a /\ a + PAGE_SIZE <= m_upper r.
Proof.
  intros Hp. induction Hp as [|r rs out outs queue Hinv Hra Hp IH]; [by intros ?%not_elem_of_nil|].
  unfold held_pages in *. cbn. intros [(i & -> & Hi)%list_elem_of_fmap|Ha]%elem_of_app.
  - exists r. split; [left|]. pose proof (ri_upper _ _ _ _ Hinv).
    pose proof (index_bound _ _ _ _ Hinv i ltac:(apply elem_of_app; by left)).
    unfold address, PAGE_SIZE in *. lia.
  - destruct (IH Ha) as (s & Hs & Hb). exists s. split; [by right|done].
Qed.

Lemma held_distinct m rs outs : pool m rs outs -> NoDup (held_pages rs outs).
Proof.
  intros Hp. induction Hp as [|r rs out outs queue Hinv Hra Hp IH]; [constructor|].
  unfold held_pages in *. cbn. apply NoDup_app. split; [|split; [|done]].
  - apply NoDup_fmap_2; [intros i j; unfold address, PAGE_SIZE; lia|].
    pose proof (ri_distinct _ _ _ _ Hinv) as Hd. by apply NoDup_app in Hd as [? _].
  - intros a (i & -> & Hi)%list_elem_of_fmap Ha.
    destruct (held_range m rs outs _ Hp Ha) as (s & Hs & Hb).
    rewrite Forall_forall in Hra. destruct (Hra s Hs) as [_ Hap].
    pose proof (ri_upper _ _ _ _ Hinv).
    pose proof (index_bound _ _ _ _ Hinv i ltac:(apply elem_of_app; by left)).
    unfold address, PAGE_SIZE in *. lia.
Qed.

(** There are no more pages in use than there are, and exactly as many when all
    regions are exhausted. *)
Lemma held_exhausted rs outs :
  exhausted rs outs -> Z.of_nat (length (held_pages rs outs)) = total rs.
Proof.
  intros He. induction He as [|r out rs outs Hr He IH]; [done|].
  unfold held_pages, total in *. cbn. rewrite length_app, length_fmap. lia.
Qed.

(** A page that a pool was charged for is there. *)
Lemma draw_ok random mm outs committed :
  mm_inv 1 mm outs -> 0 <= random ->
  exists mm' a outs', draw_user_page random mm committed = Ok (mm', Some a) /\ mm_inv 0 mm' outs' /\
    held_pages (m_user_physical_regions mm') outs' ≡ₚ a :: held_pages (m_user_physical_regions mm) outs /\
    m_user_physical_pages_committed mm' = m_user_physical_pages_committed mm /\
    m_physical mm' = m_physical mm.
Proof.
  intros [] Hr. unfold draw_user_page.
  destruct (take_from_spec random (m_kernel mm) (m_user_physical_regions mm) outs mi_pool0 Hr)
    as (m' & rs' & o & -> & Hs & Ho). cbn [res_bind]. destruct o as [a|].
  - destruct Ho as (k & r & out & i & Hk & Ho & -> & Hp & _).
    rewrite bool_decide_true, orb_true_r by done. cbn [verify res_bind].
    pose proof (held_insert _ outs k r i out (i :: out) Hk Ho ltac:(done)) as Hh.
    pose proof (f_equal Z.of_nat (Permutation_length Hh)) as Hl. cbn [length] in Hl.
    eexists _, _, (<[k := i :: out]> outs). split; [done|].
    split; [|split; [cbn; by rewrite (held_shapes _ _ _ Hs)|done]].
    split; cbn; try done; try lia.
    + by apply (bytes_shapes (m_user_physical_regions mm)).
    + by rewrite (total_shapes _ _ Hs).
    + rewrite (held_shapes _ _ _ Hs), Hl, mi_used0, wrap32_small by lia. lia.
    + rewrite wrap32_small by lia. lia.
  - destruct Ho as (_ & _ & He). specialize (He mi_bytes0). apply held_exhausted in He. lia.
Qed.

Lemma free_ok random mm outs a :
  mm_inv 0 mm outs -> 0 <= random < 256 -> a ∈ held_pages (m_user_physical_regions mm) outs ->
  exists mm' outs', deallocate_user_physical_page random mm a = Ok mm' /\ mm_inv 0 mm' outs' /\
    held_pages (m_user_physical_regions mm) outs ≡ₚ a :: held_pages (m_user_physical_regions mm') outs' /\
    m_user_physical_pages_committed mm' = m_user_physical_pages_committed mm.
Proof.
  intros [] Hr Ha. destruct (held_inv _ _ _ _ mi_pool0 Ha) as (k & r & out1 & i & out2 & Hk & Ho & ->).
  unfold deallocate_user_physical_page.
  destruct (return_to_spec random _ _ _ k r out1 i out2 mi_pool0 Hr Hk Ho) as (m' & rs' & -> & Hs & Hp & _).
  cbn [res_bind].
  pose proof (held_delete _ outs k r i _ (out1 ++ out2) Hk Ho ltac:(by rewrite Permutation_middle)) as Hh.
  pose proof (f_equal Z.of_nat (Permutation_length Hh)) as Hl. cbn [length] in Hl.
  eexists _, (<[k := out1 ++ out2]> outs). split; [done|].
  split; [|split; [cbn; by rewrite (held_shapes _ _ _ Hs)|done]].
  split; cbn; try done; try lia.
  - by apply (bytes_shapes (m_user_physical_regions mm)).
  - by rewrite (total_shapes _ _ Hs).
  - rewrite (held_shapes _ _ _ Hs), mi_used0, Hl, wrap32_small by lia. lia.
  - rewrite !wrap32_small by lia. lia.
  - rewrite wrap32_small by lia. lia.
Qed.

Lemma fill_inv n mm outs f a : mm_inv n mm outs -> mm_inv n (fill_page mm f a) outs.
Proof. intros []. destruct f; split; done. Qed.

Lemma pools_inv n n' mm outs c u :
  mm_inv n mm outs -> 0 <= c -> 0 <= u ->
  m_user_physical_pages_used mm + c + u + n' = m_user_physical_pages mm ->
  mm_inv n' (with_pools mm c u) outs.
Proof. intros [] **. split; done. Qed.

Lemma request_served q s : serve_inv s -> request_ok q -> exists s', serve q s = Ok s' /\ serve_inv s'.
Proof.
  destruct s as [mm [hd pr]]. intros (outs & Hinv & Hh & Hp) Hq. cbn [fst snd held promised] in *.
  pose proof Hinv as []. pose proof (Zle_0_nat (length (held_pages (m_user_physical_regions mm) outs))).
  destruct q as [n|n|random f|random f|random a]; cbn [serve request_ok held promised] in *.
  - destruct (Z.ltb_spec 0 n); [|by eexists; split; [done|]; exists outs].
    unfold commit_user_physical_pages. rewrite (proj2 (Z.ltb_lt 0 n)) by lia. cbn [verify res_bind].
    case_if; cbn [res_bind]; [by eexists; split; [done|]; exists outs|].
    eexists. split; [done|]. exists outs. cbn [fst snd held promised]. rewrite !wrap32_small by lia.
    split; [eapply pools_inv; [done|lia..]|]. split; [done|]. cbn. lia.
  - case_if; [|by eexists; split; [done|]; exists outs]. unfold uncommit_user_physical_pages.
    rewrite (proj2 (Z.ltb_lt 0 n)), (proj2 (Z.leb_le n _)) by lia. cbn [verify res_bind].
    eexists. split; [done|]. exists outs. cbn [fst snd held promised]. rewrite !wrap32_small by lia.
    split; [eapply pools_inv; [done|lia..]|]. split; [done|]. cbn. lia.
  - case_if; [|by eexists; split; [done|]; exists outs].
    unfold allocate_committed_user_physical_page, find_free_user_physical_page.
    rewrite (proj2 (Z.ltb_lt 0 _)) by lia. cbn [verify res_bind]. rewrite wrap32_small by lia.
    match goal with |- context [draw_user_page _ ?x _] =>
      destruct (draw_ok random x outs true) as (mm' & a & outs' & -> & Hinv' & Hh' & Hc & _) end;
      [eapply pools_inv; [done|lia..]|lia|]. cbn [res_bind of_opt]. eexists. split; [done|].
    exists outs'. cbn [fst snd held promised]. split; [by apply fill_inv|].
    replace (m_user_physical_regions (fill_page mm' f a)) with (m_user_physical_regions mm') by (by destruct f).
    replace (m_user_physical_pages_committed (fill_page mm' f a))
      with (m_user_physical_pages_committed mm') by (by destruct f).
    split; [by rewrite Hh', Hh|]. rewrite Hc. cbn. lia.
  - unfold allocate_user_physical_page, find_free_user_physical_page.
    destruct (Z.eqb_spec (m_user_physical_pages_uncommitted mm) 0); cbn [res_bind purge_until_page].
    { eexists. split; [done|]. by exists outs. }
    rewrite wrap32_small by lia.
    match goal with |- context [draw_user_page _ ?x _] =>
      destruct (draw_ok random x outs false) as (mm' & a & outs' & -> & Hinv' & Hh' & Hc & _) end;
      [eapply pools_inv; [done|lia..]|lia|]. cbn [res_bind of_opt]. eexists. split; [done|].
    exists outs'. cbn [fst snd held promised]. split; [by apply fill_inv|].
    replace (m_user_physical_regions (fill_page mm' f a)) with (m_user_physical_regions mm') by (by destruct f).
    replace (m_user_physical_pages_committed (fill_page mm' f a))
      with (m_user_physical_pages_committed mm') by (by destruct f).
    split; [by rewrite Hh', Hh|]. rewrite Hc. cbn. lia.
  - destruct (list_find _ _) as [[k b]|] eqn:E; [|by eexists; split; [done|]; exists outs].
    apply list_find_Some in E as (Hk & <- & _). pose proof (delete_Permutation _ _ _ Hk) as Hd.
    destruct (free_ok random mm outs a Hinv Hq) as (mm' & outs' & -> & Hinv' & Hh' & Hc).
    { rewrite <- Hh. by eapply list_elem_of_lookup_2. }
    cbn [res_bind]. eexists. split; [done|]. exists outs'. cbn [fst snd held promised].
    split; [done|]. split; [|congruence]. apply (Permutation_cons_inv (a := a)).
    by rewrite <- Hd, <- Hh', Hh.
Qed.

Lemma requests_served qs s :
  serve_inv s -> Forall request_ok qs -> exists s', serve_all qs s = Ok s' /\ serve_inv s'.
Proof.
  intros Hs Hqs. revert s Hs. induction Hqs as [|q qs Hq Hqs IH]; intros s Hs; cbn [serve_all].
  - by exists s.
  - destruct (request_served q s Hs Hq) as (s' & -> & Hs'). by apply IH.
Qed.

End MemoryRun.

(** ** Properties *)

Import PhysicalRegion PhysicalFacts MemoryManager PoolFacts MemoryRun.


(** A manager with one region of 64 pages. *)
Definition one_region (r : PhysicalRegion) (m : memory) : MemoryManager :=
  mkMemoryManager m (fun _ => 1) [r] [] 64 0 0 64 0 0.

Lemma one_region_inv :
  exists m r, finalize_capacity kmalloc_at_16 kfree_nothing small_heap (create 0x100000 0x140000) = Ok (m, r, 64) /\
    serve_inv (one_region r m, mkClient [] 0).
Proof.
  destruct (finalize_capacity_spec kmalloc_at_16 kfree_nothing small_heap 0x100000 0x140000 small_heap 16)
    as (m & r & E & _ & _ & Hp & _ & Hinv);
    [lia|unfold PAGE_SIZE; lia|apply small_heap_env; change ((0x140000 - 0x100000) / PAGE_SIZE) with 64; lia|done|].
  change ((0x140000 - 0x100000) / PAGE_SIZE) with 64 in *.
  exists m, r. split; [done|]. exists [[]]. split; [|done]. split; cbn; try done.
  - by apply (pool_cons _ _ _ _ _ []); [|constructor|constructor].
  - constructor; [|done]. unfold whole_bytes. by rewrite Hp.
  - unfold total. cbn. by rewrite Hp.
Qed.


(** When no uncommitted page is left, an object whose pages are counted as
    purged while another object still refers to them stops the kernel: nothing
    was freed, and the code asserts that a page is there. *)
Theorem purge_of_shared_pages_panics (random : Z) (mm : MemoryManager) (fill : ShouldZeroFill)
    (n : Z) (others : list purge) :
  m_user_physical_pages_uncommitted mm = 0 -> n <> 0 ->
  allocate_user_physical_page random mm fill (mkPurge n [] :: others) = Fault VerifyFailed.
Proof.
  intros Hu Hn. unfold allocate_user_physical_page, find_free_user_physical_page.
  rewrite Hu. cbn [Z.eqb res_bind purge_until_page release_all released purged_page_count].
  rewrite (proj2 (Z.eqb_neq n 0)) by done. cbn [negb]. unfold find_free_user_physical_page.
  rewrite Hu. done.
Qed.

Lemma purge_of_shared_pages_panics_witness :
  allocate_user_physical_page 0 (mkMemoryManager small_heap (fun _ => 0) [] [] 8 8 0 0 0 0) No [mkPurge 3 []]
  = Fault VerifyFailed.
Proof. apply purge_of_shared_pages_panics; cbn; lia. Defined.
