(* ===== verification/FramePool.v ===== *)
(** * Frames of physical memory, as the memory objects see them

    [FramePool] is what the memory objects ask of the memory manager: commitments,
    frames with or without one, and the bytes of a frame, which the kernel reaches
    through a temporary mapping.  [FramePoolLaws] is what they rely on, and
    [memory_manager] shows that the memory manager provides it. *)

From S2P Require Import Prelude Memory Bitmap PhysicalRegion PhysicalMemory.

Class FramePool (P : Type) := {
  fp_commit : P -> Z -> res (P * bool);
  fp_uncommit : P -> Z -> res P;
  (** [allocate_committed_user_physical_page] with [ShouldZeroFill::Yes] *)
  fp_take_committed : P -> res (P * Z);
  (** [allocate_user_physical_page], filled with zeroes or not *)
  fp_take : P -> bool -> res (P * option Z);
  fp_return : P -> Z -> res P;
  fp_byte : P -> Z -> Z -> Z;
  fp_fill : P -> Z -> (Z -> Z) -> P;
}.

(** The bytes of some frames stay as they are. *)
Definition same_bytes {P} `{FramePool P} (p p' : P) (frames : list Z) : Prop :=
  forall f o, f ∈ frames -> 0 <= o < PAGE_SIZE -> fp_byte p' f o = fp_byte p f o.

(** [fp_state p held promised]: the frames in use, and the number of frames
    promised. *)
Class FramePoolLaws (P : Type) `{FramePool P} := {
  fp_state : P -> list Z -> Z -> Prop;
  fp_distinct p held k : fp_state p held k -> NoDup held;
  fp_promised p held k : fp_state p held k -> 0 <= k < 2 ^ 32;
  fp_commit_ok p held k n : fp_state p held k -> 0 < n < 2 ^ 32 -> exists p' b,
    fp_commit p n = Ok (p', b) /\ fp_state p' held (if b : bool then k + n else k) /\ same_bytes p p' held;
  fp_uncommit_ok p held k n : fp_state p held k -> 0 < n <= k -> exists p',
    fp_uncommit p n = Ok p' /\ fp_state p' held (k - n) /\ same_bytes p p' held;
  fp_take_committed_ok p held k : fp_state p held k -> 0 < k -> exists p' f,
    fp_take_committed p = Ok (p', f) /\ fp_state p' (f :: held) (k - 1) /\ same_bytes p p' held /\
    forall o, 0 <= o < PAGE_SIZE -> fp_byte p' f o = 0;
  fp_take_ok p held k zero : fp_state p held k -> exists p' o,
    fp_take p zero = Ok (p', o) /\
    match o with
    | None => fp_state p' held k /\ same_bytes p p' held
    | Some f => fp_state p' (f :: held) k /\ same_bytes p p' held /\
        (zero = true -> forall o, 0 <= o < PAGE_SIZE -> fp_byte p' f o = 0)
    end;
  fp_return_ok p f held k : fp_state p (f :: held) k -> exists p',
    fp_return p f = Ok p' /\ fp_state p' held k /\ same_bytes p p' held;
  fp_perm p held held' k : fp_state p held k -> held ≡ₚ held' -> fp_state p held' k;
  fp_fill_ok p held k f bytes : fp_state p held k -> f ∈ held ->
    fp_state (fp_fill p f bytes) held k /\
    (forall o, 0 <= o < PAGE_SIZE -> fp_byte (fp_fill p f bytes) f o = bytes o) /\
    (forall f' o, f' ∈ held -> f' <> f -> 0 <= o < PAGE_SIZE -> fp_byte (fp_fill p f bytes) f' o = fp_byte p f' o);
}.

(** ** The memory manager *)

Module ManagerPool.
Import PhysicalRegion PhysicalFacts MemoryManager PoolFacts MemoryRun.

Definition with_physical (mm : MemoryManager) (physical : Z -> Z) : MemoryManager :=
  mkMemoryManager (m_kernel mm) physical (m_user_physical_regions mm) (m_super_physical_regions mm)
    (m_user_physical_pages mm) (m_user_physical_pages_used mm) (m_user_physical_pages_committed mm)
    (m_user_physical_pages_uncommitted mm) (m_super_physical_pages mm) (m_super_physical_pages_used mm).

Definition manager_state (mm : MemoryManager) (held : list Z) (promised : Z) : Prop :=
  exists outs, mm_inv 0 mm outs /\ held ≡ₚ held_pages (m_user_physical_regions mm) outs /\
    promised = m_user_physical_pages_committed mm.

(** Two frames in use have no byte in common. *)
Lemma held_apart m rs outs a b :
  pool m rs outs -> a ∈ held_pages rs outs -> b ∈ held_pages rs outs -> a <> b ->
  a + PAGE_SIZE <= b \/ b + PAGE_SIZE <= a.
Proof.
  intros Hp. induction Hp as [|r rs out outs queue Hinv Hra Hp IH]; [by intros ?%not_elem_of_nil|].
  assert (forall i c, i ∈ out -> c ∈ held_pages rs outs ->
    address r i + PAGE_SIZE <= c \/ c + PAGE_SIZE <= address r i) as Hx.
  { intros i c Hi Hc. destruct (held_range m rs outs c Hp Hc) as (s & Hs & Hb).
    rewrite Forall_forall in Hra. destruct (Hra s Hs) as [_ Hap]. pose proof (ri_upper _ _ _ _ Hinv).
    pose proof (index_bound _ _ _ _ Hinv i ltac:(apply elem_of_app; by left)). unfold address, PAGE_SIZE in *. lia. }
  unfold held_pages in *. cbn. intros [(i & -> & Hi)%list_elem_of_fmap|Ha]%elem_of_app
    [(j & -> & Hj)%list_elem_of_fmap|Hb]%elem_of_app Hne.
  - assert (i <> j) by congruence. unfold address, PAGE_SIZE. lia.
  - by apply Hx.
  - destruct (Hx j a Hj Ha); tauto.
  - by apply IH.
Qed.

Lemma state_apart mm held k a b :
  manager_state mm held k -> a ∈ held -> b ∈ held -> a <> b -> a + PAGE_SIZE <= b \/ b + PAGE_SIZE <= a.
Proof.
  intros (outs & [] & Hh & _). rewrite !Hh. by apply (held_apart (m_kernel mm)).
Qed.

Lemma zeroed_bytes mm held k f o a :
  manager_state mm (f :: held) k -> a ∈ held -> 0 <= o < PAGE_SIZE ->
  m_physical (zero_page mm f) (a + o) = m_physical mm (a + o) /\
  m_physical (zero_page mm f) (f + o) = 0.
Proof.
  intros Hs Ha Ho. cbn [m_physical zero_page]. assert (a <> f) as Hne.
  { destruct Hs as (outs & [] & Hh & _). intros ->. pose proof (held_distinct _ _ _ mi_pool0) as Hd.
    rewrite <- Hh in Hd. by apply NoDup_cons in Hd as [? _]. }
  destruct (state_apart mm (f :: held) k a f Hs) as [H|H]; [by right|left|done|..]; split; case_if; unfold PAGE_SIZE in *; lia || done.
Qed.

Lemma zeroed_state mm held k f : manager_state mm held k -> manager_state (zero_page mm f) held k.
Proof. intros (outs & Hinv & Hh & Hk). exists outs. by split; [apply (fill_inv 0 mm outs Yes f)|]. Qed.

Lemma fresh_zeroed mm f o : 0 <= o < PAGE_SIZE -> m_physical (zero_page mm f) (f + o) = 0.
Proof. intros Ho. cbn. case_if; [done|]. lia. Qed.

Lemma commit_state mm held k n :
  manager_state mm held k -> 0 < n < 2 ^ 32 -> exists mm' b,
    commit_user_physical_pages mm n = Ok (mm', b) /\ manager_state mm' held (if b : bool then k + n else k) /\
    m_physical mm' = m_physical mm.
Proof.
  intros (outs & Hinv & Hh & Hk) Hn. pose proof Hinv as [].
  pose proof (Zle_0_nat (length (held_pages (m_user_physical_regions mm) outs))).
  unfold commit_user_physical_pages. rewrite (proj2 (Z.ltb_lt 0 n)) by lia. cbn [verify res_bind].
  case_if; cbn [res_bind]; eexists _, _; (split; [done|]); [by split; [exists outs|]|]. split; [|done]. exists outs.
  rewrite !wrap32_small by lia. split; [eapply pools_inv; [done|lia..]|]. split; [done|]. cbn. lia.
Qed.

Lemma uncommit_state mm held k n :
  manager_state mm held k -> 0 < n <= k -> exists mm',
    uncommit_user_physical_pages mm n = Ok mm' /\ manager_state mm' held (k - n) /\ m_physical mm' = m_physical mm.
Proof.
  intros (outs & Hinv & Hh & Hk) Hn. pose proof Hinv as [].
  pose proof (Zle_0_nat (length (held_pages (m_user_physical_regions mm) outs))).
  unfold uncommit_user_physical_pages. rewrite (proj2 (Z.ltb_lt 0 n)), (proj2 (Z.leb_le n _)) by lia.
  cbn [verify res_bind]. eexists. split; [done|]. split; [|done]. exists outs. rewrite !wrap32_small by lia.
  split; [eapply pools_inv; [done|lia..]|]. split; [done|]. cbn. lia.
Qed.

(** The value the random generator gives for the choice of a returned frame. *)
Section Pool.
Context (random : Z) (Hrandom : 0 <= random < 256).

Definition manager_pool : FramePool MemoryManager := {|
  fp_commit := commit_user_physical_pages;
  fp_uncommit := uncommit_user_physical_pages;
  fp_take_committed mm := allocate_committed_user_physical_page random mm Yes;
  fp_take mm zero :=
    let* (mm, page, _) := allocate_user_physical_page random mm (if zero : bool then Yes else No) [] in
    Ok (mm, page);
  fp_return mm paddr := deallocate_user_physical_page random mm paddr;
  fp_byte mm paddr o := m_physical mm (paddr + o);
  fp_fill mm paddr bytes := with_physical mm
    (fun a => if (paddr <=? a) && (a <? paddr + PAGE_SIZE) then bytes (a - paddr) else m_physical mm a);
|}.

(** A frame a pool was charged for. *)
Lemma draw_state mm outs held committed :
  mm_inv 1 mm outs -> held ≡ₚ held_pages (m_user_physical_regions mm) outs ->
  exists mm' f, draw_user_page random mm committed = Ok (mm', Some f) /\
    manager_state mm' (f :: held) (m_user_physical_pages_committed mm) /\ m_physical mm' = m_physical mm.
Proof using Hrandom.
  intros Hinv Hh. destruct (draw_ok random mm outs committed Hinv ltac:(lia)) as (mm' & f & outs' & E & Hinv' & Hp & Hc & Hm).
  exists mm', f. split; [done|]. split; [|done]. exists outs'. split; [done|]. split; [by rewrite Hp, Hh|done].
Qed.

Lemma take_committed_state mm held k :
  manager_state mm held k -> 0 < k -> exists mm' f,
    allocate_committed_user_physical_page random mm Yes = Ok (zero_page mm' f, f) /\
    manager_state mm' (f :: held) (k - 1) /\ m_physical mm' = m_physical mm.
Proof using Hrandom.
  intros (outs & Hinv & Hh & Hk) Hpos. pose proof Hinv as [].
  pose proof (Zle_0_nat (length (held_pages (m_user_physical_regions mm) outs))).
  unfold allocate_committed_user_physical_page, find_free_user_physical_page.
  rewrite (proj2 (Z.ltb_lt 0 _)) by lia. cbn [verify res_bind]. rewrite wrap32_small by lia.
  match goal with |- context [draw_user_page _ ?x _] =>
    destruct (draw_state x outs held true) as (mm' & f & -> & Hs & Hm) end; [eapply pools_inv; [done|lia..]|done|].
  cbn [res_bind of_opt fill_page]. exists mm', f. split; [done|]. split; [|done].
  replace (k - 1) with (m_user_physical_pages_committed mm - 1) by lia. exact Hs.
Qed.

Lemma take_state mm held k fill :
  manager_state mm held k -> exists mm' o b,
    allocate_user_physical_page random mm fill [] = Ok (mm', o, b) /\
    match o with
    | None => mm' = mm
    | Some f => exists mm0, mm' = fill_page mm0 fill f /\ manager_state mm0 (f :: held) k /\
        m_physical mm0 = m_physical mm
    end.
Proof using Hrandom.
  intros (outs & Hinv & Hh & Hk). pose proof Hinv as [].
  pose proof (Zle_0_nat (length (held_pages (m_user_physical_regions mm) outs))).
  unfold allocate_user_physical_page, find_free_user_physical_page.
  destruct (Z.eqb_spec (m_user_physical_pages_uncommitted mm) 0); cbn [res_bind purge_until_page].
  { by eexists _, None, _. }
  rewrite wrap32_small by lia.
  match goal with |- context [draw_user_page _ ?x _] =>
    destruct (draw_state x outs held false) as (mm' & f & -> & Hs & Hm) end; [eapply pools_inv; [done|lia..]|done|].
  cbn [res_bind]. eexists _, (Some f), _. split; [done|]. exists mm'. split; [done|]. split; [|done].
  rewrite Hk. exact Hs.
Qed.

Lemma return_state mm held k f :
  manager_state mm (f :: held) k -> exists mm',
    deallocate_user_physical_page random mm f = Ok mm' /\ manager_state mm' held k /\ m_physical mm' = m_physical mm.
Proof using Hrandom.
  intros (outs & Hinv & Hh & Hk).
  destruct (free_ok random mm outs f Hinv Hrandom) as (mm' & outs' & E & Hinv' & Hp & Hc); [rewrite <- Hh; left|].
  exists mm'. split; [done|]. split.
  - exists outs'. split; [done|]. split; [|congruence]. apply (Permutation_cons_inv (a := f)). by rewrite Hh.
  - unfold deallocate_user_physical_page in E. inv_res. destruct x as [? ?]. by inv_res.
Qed.

(** The memory manager keeps the laws. *)
Definition manager_laws : @FramePoolLaws MemoryManager manager_pool.
Proof using Hrandom.
  refine (@Build_FramePoolLaws MemoryManager manager_pool manager_state _ _ _ _ _ _ _ _ _).
  - intros mm held k (outs & [] & Hh & _). rewrite Hh. by eapply held_distinct.
  - intros mm held k (outs & [] & _ & ->). pose proof (Zle_0_nat (length (held_pages (m_user_physical_regions mm) outs))). lia.
  - intros mm held k n Hs Hn. destruct (commit_state mm held k n Hs Hn) as (mm' & b & E & Hs' & Hm).
    exists mm', b. split; [done|]. split; [done|]. intros f o _ _. cbn. by rewrite Hm.
  - intros mm held k n Hs Hn. destruct (uncommit_state mm held k n Hs Hn) as (mm' & E & Hs' & Hm).
    exists mm'. split; [done|]. split; [done|]. intros f o _ _. cbn. by rewrite Hm.
  - intros mm held k Hs Hk. destruct (take_committed_state mm held k Hs Hk) as (mm' & f & E & Hs' & Hm).
    exists (zero_page mm' f), f. split; [done|]. split; [by apply zeroed_state|]. split; [|intros; by apply fresh_zeroed].
    intros a o Ha Ho. cbn [fp_byte manager_pool]. rewrite (proj1 (zeroed_bytes mm' held _ f o a Hs' Ha Ho)). by rewrite Hm.
  - intros mm held k zero Hs. cbn [fp_take manager_pool].
    destruct (take_state mm held k (if zero then Yes else No) Hs) as (mm' & o & b & -> & Ho). cbn [res_bind].
    exists mm', o. split; [done|]. destruct o as [f|]; [|by subst mm'].
    destruct Ho as (mm0 & -> & Hs0 & Hm). destruct zero; cbn [fill_page].
    + split; [by apply zeroed_state|]. split; [|intros; by apply fresh_zeroed].
      intros a o Ha Ho. cbn [fp_byte manager_pool]. rewrite (proj1 (zeroed_bytes mm0 held _ f o a Hs0 Ha Ho)). by rewrite Hm.
    + split; [done|]. split; [|done]. intros a o _ _. cbn. by rewrite Hm.
  - intros mm f held k Hs. destruct (return_state mm held k f Hs) as (mm' & E & Hs' & Hm).
    exists mm'. split; [done|]. split; [done|]. intros a o _ _. cbn. by rewrite Hm.
  - intros mm held held' k (outs & Hinv & Hh & Hk) Hp. exists outs. by rewrite <- Hp.
  - intros mm held k f bytes Hs Hf. split; [|split].
    + destruct Hs as (outs & [] & Hh & Hk). exists outs. by split.
    + intros o Ho. cbn. rewrite (proj2 (Z.leb_le _ _)), (proj2 (Z.ltb_lt _ _)) by lia. cbn. f_equal. lia.
    + intros f' o Hf' Hne Ho. cbn. destruct (state_apart mm held k f' f Hs Hf' Hf Hne);
        case_if; unfold PAGE_SIZE in *; lia || done.
Defined.

End Pool.
End ManagerPool.
