(* ===== verification/MemoryMap.v ===== *)
(** * Kernel/VM/MemoryManager: the memory map of the boot loader

    [parse_memory_map] turns the memory map the boot loader left into regions of
    user pages and into the list of reserved ranges that /dev/mem may map.  The
    theorems say that the page frames of the regions are really available, and
    where the code goes wrong on unusual maps. *)

From Stdlib Require Import Sorting.Sorted.
From S2P Require Import Prelude Memory RangeAllocator PhysicalRegion PhysicalMemory.

Module MemoryMap.
Import PhysicalRegion.

(** [type] of a used range is only printed. *)
Record UsedMemoryRange := mkUsed { u_start : Z; u_end : Z }.

Record ContiguousReservedMemoryRange := mkReserved { c_start : Z; c_length : Z }.

Inductive PhysicalMemoryRangeType :=
| Usable | Reserved | ACPI_Reclaimable | ACPI_NVS | BadMemory | Unknown.

#[global] Instance PhysicalMemoryRangeType_eq_dec : EqDecision PhysicalMemoryRangeType.
Proof. solve_decision. Defined.

Record PhysicalMemoryRange := mkPhysicalMemoryRange {
  p_type : PhysicalMemoryRangeType;
  p_start : Z;
  p_length : Z;
}.

(** [multiboot_memory_map_t] *)
Record mmap_entry := mkEntry { addr : Z; len : Z; type : Z }.

Definition MULTIBOOT_MEMORY_AVAILABLE : Z := 1.

Definition range_type (type : Z) : PhysicalMemoryRangeType :=
  if type =? 1 then Usable else if type =? 2 then Reserved else if type =? 3 then ACPI_Reclaimable
  else if type =? 4 then ACPI_NVS else if type =? 5 then BadMemory else Unknown.

(** The entry as it is recorded; address and length are cut to 32 bits. *)
Definition physical_memory_range (e : mmap_entry) : PhysicalMemoryRange :=
  mkPhysicalMemoryRange (range_type (type e)) (wrap FlatPtr (addr e)) (wrap size_t (len e)).

Definition should_skip (used : list UsedMemoryRange) (a : Z) : bool :=
  existsb (fun u => (u_start u <=? a) && (a <=? u_end u)) used.

(** One page of an entry.  The regions are in reverse order: the first one is
    [physical_region]. *)
Definition assign_page (used : list UsedMemoryRange) (rs : list PhysicalRegion) (a : Z)
    : res (list PhysicalRegion) :=
  if should_skip used a then Ok rs
  else
    match rs with
    | [] => Ok [create a a]
    | physical_region :: others =>
        if negb (wrap FlatPtr (upper physical_region + PAGE_SIZE) =? a) then Ok (create a a :: rs)
        else
          let* physical_region := expand physical_region (lower physical_region) a in
          Ok (physical_region :: others)
    end.

(** The loop over the pages: the counter has 32 bits, the bound has 64. *)
Fixpoint page_loop (fuel : nat) (used : list UsedMemoryRange) (rs : list PhysicalRegion)
    (page_base bound : Z) : res (list PhysicalRegion) :=
  match fuel with
  | O => Fault OutOfFuel
  | S fuel =>
      if page_base <=? bound then
        let* rs := assign_page used rs page_base in
        page_loop fuel used rs (wrap size_t (page_base + PAGE_SIZE)) bound
      else Ok rs
  end.

(** Address and length after the fix for unaligned entries. *)
Definition fix_up (e : mmap_entry) : Z * Z :=
  let diff := wrap FlatPtr (addr e) mod PAGE_SIZE in
  let '(a, l) :=
    if negb (diff =? 0) then
      let diff := PAGE_SIZE - diff in (wrap U64 (addr e + diff), wrap U64 (len e - diff))
    else (addr e, len e) in
  (a, if negb (l mod PAGE_SIZE =? 0) then l - l mod PAGE_SIZE else l).

Definition parse_entry (fuel : nat) (used : list UsedMemoryRange) (rs : list PhysicalRegion)
    (e : mmap_entry) : res (list PhysicalRegion) :=
  if negb (type e =? MULTIBOOT_MEMORY_AVAILABLE) then Ok rs
  else if 0xffffffff <? wrap U64 (addr e + len e) then Ok rs
  else
    let '(a, l) := fix_up e in
    if l <? PAGE_SIZE then Ok rs
    else page_loop fuel used rs (wrap size_t a) (wrap U64 (a + l)).

Fixpoint parse_entries (fuel : nat) (used : list UsedMemoryRange) (rs : list PhysicalRegion)
    (es : list mmap_entry) : res (list PhysicalRegion) :=
  match es with
  | [] => Ok rs
  | e :: es => let* rs := parse_entry fuel used rs e in parse_entries fuel used rs es
  end.

(** The loops over the regions that set up their bitmaps; the sum of the pages. *)
Fixpoint finalize_all (kmalloc : memory -> Z -> res (memory * Z)) (kfree : memory -> Z -> res memory)
    (m : memory) (rs : list PhysicalRegion) (pages : Z) : res (memory * list PhysicalRegion * Z) :=
  match rs with
  | [] => Ok (m, [], pages)
  | r :: rs =>
      let* (m, r, n) := finalize_capacity kmalloc kfree m r in
      let* (m, rs, pages) := finalize_all kmalloc kfree m rs (wrap U32 (pages + n)) in
      Ok (m, r :: rs, pages)
  end.

(** [used] has the low memory, the kernel image and the boot modules; the
    addresses of the static super pages come from the linker. *)
Definition parse_memory_map (fuel : nat) (kmalloc : memory -> Z -> res (memory * Z))
    (kfree : memory -> Z -> res memory) (m : memory) (physical : Z -> Z)
    (used : list UsedMemoryRange) (es : list mmap_entry) (super_pages super_end : Z)
    : res MemoryManager.MemoryManager :=
  let* rs := parse_entries fuel used [] es in
  let* (m, supers, super_physical_pages) := finalize_all kmalloc kfree m [create super_pages super_end] 0 in
  let* (m, users, user_physical_pages) := finalize_all kmalloc kfree m (reverse rs) 0 in
  VERIFY 0 <? super_physical_pages ;;
  VERIFY 0 <? user_physical_pages ;;
  Ok (MemoryManager.mkMemoryManager m physical users supers user_physical_pages 0 0 user_physical_pages
        super_physical_pages 0).

(** ** Reserved ranges *)

(** The loop of [register_reserved_ranges]; a null [start] means that no range
    is open. *)
Fixpoint reserved_loop (ranges : list PhysicalMemoryRange) (start : Z)
    (reserved : list ContiguousReservedMemoryRange) : Z * list ContiguousReservedMemoryRange :=
  match ranges with
  | [] => (start, reserved)
  | current_range :: ranges =>
      if bool_decide (p_type current_range <> Reserved) then
        if start =? 0 then reserved_loop ranges start reserved
        else reserved_loop ranges 0
               (reserved ++ [mkReserved start (wrap size_t (p_start current_range - start))])
      else if negb (start =? 0) then reserved_loop ranges start reserved
      else reserved_loop ranges (p_start current_range) reserved
  end.

Definition register_reserved_ranges (ranges : list PhysicalMemoryRange)
    : res (list ContiguousReservedMemoryRange) :=
  let* last_range := of_opt VerifyFailed (last ranges) in
  let '(start, reserved) := reserved_loop ranges 0 [] in
  if bool_decide (p_type last_range <> Reserved) then Ok reserved
  else if start =? 0 then Ok reserved
  else Ok (reserved ++ [mkReserved start (wrap size_t (p_start last_range + p_length last_range - start))]).

(** The first range that contains the address decides. *)
Fixpoint allowed_loop (reserved : list ContiguousReservedMemoryRange) (start_address size_ : Z) : bool :=
  match reserved with
  | [] => false
  | current_range :: reserved =>
      if negb (c_start current_range <=? start_address) then allowed_loop reserved start_address size_
      else if negb (start_address <? wrap FlatPtr (c_start current_range + c_length current_range)) then
        allowed_loop reserved start_address size_
      else negb (c_length current_range <? size_)
  end.

Definition is_allowed_to_mmap_to_userspace (reserved : list ContiguousReservedMemoryRange)
    (start_address : Z) (range : Range.Range) : res bool :=
  VERIFY bool_decide (reserved <> []) ;;
  Ok (allowed_loop reserved start_address (Range.size range)).

End MemoryMap.

(** ** Lemmas *)

Module MapFacts.
Import PhysicalRegion PhysicalFacts MemoryMap.

(** An available entry after the fix: [a] and [l] are page aligned. *)
Definition covers (e : mmap_entry) (a l : Z) : Prop :=
  type e = MULTIBOOT_MEMORY_AVAILABLE /\ fix_up e = (a, l) /\ PAGE_SIZE <= l.

(** An entry below 4 GiB, with a page to spare, that is not smaller than the
    correction of its address. *)
Definition entry_ok (e : mmap_entry) : Prop :=
  0 <= addr e /\ 0 <= len e /\ addr e + len e < 2 ^ 32 - PAGE_SIZE /\
  (addr e mod PAGE_SIZE = 0 \/ PAGE_SIZE - addr e mod PAGE_SIZE <= len e).

(** A page frame that is part of an available entry and of no used range. *)
Definition available (es : list mmap_entry) (used : list UsedMemoryRange) (p : Z) : Prop :=
  (exists e a l, e ∈ es /\ covers e a l /\ a <= p /\ p + PAGE_SIZE <= a + l) /\
  forall u, u ∈ used -> p + PAGE_SIZE <= u_start u \/ u_end u < p.

Definition aligned (p : Z) : Prop := p mod PAGE_SIZE = 0.

Lemma aligned_le p q : aligned p -> aligned q -> p < q -> p + PAGE_SIZE <= q.
Proof. unfold aligned, PAGE_SIZE. intros. Z.to_euclidean_division_equations. lia. Qed.

Lemma aligned_add p : aligned p -> aligned (p + PAGE_SIZE).
Proof. unfold aligned, PAGE_SIZE. intros. Z.to_euclidean_division_equations. lia. Qed.

Lemma fix_up_ok e a l :
  entry_ok e -> fix_up e = (a, l) ->
  aligned a /\ aligned l /\ addr e <= a /\ 0 <= l /\ a + l <= addr e + len e.
Proof.
  intros (Ha & Hl & Hb & Hd) E. unfold fix_up, aligned, PAGE_SIZE in *.
  rewrite wrap32_small in E by lia.
  destruct (Z.eqb_spec (addr e mod 4096) 0) as [Hz|Hz]; cbn [negb] in E.
  - revert E. case_if; intros [= <- <-]; Z.to_euclidean_division_equations; lia.
  - rewrite !(wrap_id U64) in E by (done || (apply in_ty_spec; cbn; Z.to_euclidean_division_equations; lia)).
    revert E. case_if; intros [= <- <-]; Z.to_euclidean_division_equations; lia.
Qed.

Section Parse.
Context (es : list mmap_entry) (used : list UsedMemoryRange).
Context (Hes : Forall entry_ok es) (Hused : Forall (fun u => aligned (u_start u)) used).

(** No available entry starts one page after the end of another. *)
Context (Hapart : forall e a l e' a' l', e ∈ es -> e' ∈ es -> covers e a l -> covers e' a' l' ->
                  a' <> a + l + PAGE_SIZE).

Lemma not_skipped p : aligned p -> should_skip used p = false ->
  forall u, u ∈ used -> p + PAGE_SIZE <= u_start u \/ u_end u < p.
Proof.
  intros Hp Hs u Hu. rewrite Forall_forall in Hused. specialize (Hused u Hu).
  destruct (Z.lt_ge_cases p (u_start u)) as [|Hge]; [left; by apply aligned_le|right].
  destruct (Z.lt_ge_cases (u_end u) p) as [|Hle]; [done|].
  assert (should_skip used p = true); [|congruence].
  apply existsb_exists. exists u. split; [by apply list_elem_of_In|]. lia.
Qed.

(** A region so far: its pages but the last one are available, and the last one
    lies in an entry or is the page after it. *)
Record region_ok (r : PhysicalRegion) : Prop := {
  ro_pages : m_pages r = 0;
  ro_lower : aligned (m_lower r) /\ 0 <= m_lower r;
  ro_upper : aligned (m_upper r) /\ m_lower r <= m_upper r < 2 ^ 32 - PAGE_SIZE;
  ro_skip : should_skip used (m_upper r) = false;
  ro_frames : forall p, aligned p -> m_lower r <= p < m_upper r -> available es used p;
  ro_last : exists e a l, e ∈ es /\ covers e a l /\ a <= m_upper r <= a + l;
}.

Lemma assign_page_ok rs e a l p :
  Forall region_ok rs -> e ∈ es -> covers e a l -> aligned p -> a <= p <= a + l ->
  exists rs', assign_page used rs p = Ok rs' /\ Forall region_ok rs'.
Proof.
  intros Hrs He Hc Hp Hb. unfold assign_page. destruct (should_skip used p) eqn:Hs; [by exists rs|].
  pose proof Hc as (_ & Hf & _). rewrite Forall_forall in Hes. pose proof (Hes e He) as Hok.
  destruct (fix_up_ok e a l Hok Hf) as (Ha & Hl & Hle & Hl0 & Hend). destruct Hok as (Ha0 & _ & Hb4 & _).
  assert (region_ok (create p p)) as Hnew.
  { split; cbn; try done; [split; [done|lia]|split; [done|lia]| |by exists e, a, l].
    intros q _ Hq. lia. }
  destruct rs as [|r rs]; [eexists; split; [done|]; by apply Forall_singleton|].
  pose proof Hrs as Hrs0. apply Forall_cons in Hrs as [Hr Hrs']. unfold upper, lower.
  pose proof Hr as []. rewrite wrap32_small by (unfold PAGE_SIZE in *; lia).
  destruct (Z.eqb_spec (m_upper r + PAGE_SIZE) p) as [Hn|Hn]; cbn [negb].
  2: { eexists. split; [done|]. by constructor. }
  unfold expand. rewrite ro_pages0. cbn [Z.eqb verify res_bind]. eexists. split; [done|].
  constructor; [|done]. split; cbn; try done; [split; [done|unfold PAGE_SIZE in *; lia]| |by exists e, a, l].
  intros q Hq Hqb. destruct (Z.eq_dec q (m_upper r)) as [->|Hne].
  - destruct ro_upper0 as [Hua Hub]. split; [|by apply not_skipped].
    destruct ro_last0 as (e0 & a0 & l0 & He0 & Hc0 & Hb0).
    destruct (Z.lt_ge_cases (m_upper r) (a0 + l0)).
    + exists e0, a0, l0. split; [done|]. split; [done|]. split; [lia|]. apply aligned_le; try done.
      destruct Hc0 as (_ & Hf0 & _). destruct (fix_up_ok e0 a0 l0 (Hes e0 He0) Hf0) as (H1 & H2 & _).
      unfold aligned, PAGE_SIZE in *. Z.to_euclidean_division_equations. lia.
    + destruct (Z.le_gt_cases a (m_upper r)).
      * exists e, a, l. split; [done|]. split; [done|]. unfold PAGE_SIZE in *. lia.
      * exfalso. apply (Hapart e0 a0 l0 e a l He0 He Hc0 Hc).
        pose proof (aligned_le _ _ Hua Ha ltac:(lia)). unfold PAGE_SIZE in *. lia.
  - apply ro_frames0; [done|]. destruct ro_upper0 as [Hua _].
    destruct (Z.lt_ge_cases q (m_upper r)); [lia|].
    pose proof (aligned_le _ _ Hua Hq ltac:(lia)). lia.
Qed.

Lemma page_loop_ok fuel rs e a l p :
  Forall region_ok rs -> e ∈ es -> covers e a l -> aligned p -> a <= p <= a + l + PAGE_SIZE ->
  a + l + PAGE_SIZE - p < PAGE_SIZE * Z.of_nat fuel ->
  exists rs', page_loop fuel used rs p (a + l) = Ok rs' /\ Forall region_ok rs'.
Proof.
  intros Hrs He Hc. pose proof Hc as (_ & Hf & _). pose proof Hes as Hes'. rewrite Forall_forall in Hes'.
  destruct (fix_up_ok e a l (Hes' e He) Hf) as (_ & _ & Hle & Hl0 & Hend).
  destruct (Hes' e He) as (Ha0 & _ & Hb4 & _). clear Hes'. revert rs p Hrs.
  induction fuel as [|fuel IH]; intros rs p Hrs Hp Hb Hfu; [lia|]. cbn [page_loop].
  destruct (Z.leb_spec p (a + l)); [|by exists rs].
  destruct (assign_page_ok rs e a l p Hrs He Hc Hp ltac:(lia)) as (rs' & -> & Hrs'). cbn [res_bind].
  rewrite wrap32_small by (unfold PAGE_SIZE in *; lia). apply IH; [done|by apply aligned_add|unfold PAGE_SIZE in *; lia..].
Qed.

Lemma parse_entry_ok fuel rs e :
  Forall region_ok rs -> e ∈ es -> 2 ^ 20 < Z.of_nat fuel ->
  exists rs', parse_entry fuel used rs e = Ok rs' /\ Forall region_ok rs'.
Proof.
  intros Hrs He Hfu. unfold parse_entry. destruct (Z.eqb_spec (type e) MULTIBOOT_MEMORY_AVAILABLE); cbn [negb];
    [|by exists rs]. pose proof Hes as Hes'. rewrite Forall_forall in Hes'. pose proof (Hes' e He) as Hok.
  pose proof Hok as (Ha0 & Hl0 & Hb4 & _). unfold PAGE_SIZE in Hb4.
  rewrite (wrap_id U64) by (done || (apply in_ty_spec; cbn; lia)).
  rewrite (proj2 (Z.ltb_ge _ _)) by lia. destruct (fix_up e) as [a l] eqn:Hf.
  destruct (fix_up_ok e a l Hok Hf) as (Ha & Hl & Hle & Hl1 & Hend).
  destruct (Z.ltb_spec l PAGE_SIZE); [by exists rs|].
  rewrite wrap32_small, (wrap_id U64) by (done || lia || (apply in_ty_spec; cbn; lia)).
  apply (page_loop_ok fuel rs e); try done; unfold PAGE_SIZE in *; lia.
Qed.

Lemma parse_entries_ok fuel rs l :
  Forall region_ok rs -> (forall e, e ∈ l -> e ∈ es) -> 2 ^ 20 < Z.of_nat fuel ->
  exists rs', parse_entries fuel used rs l = Ok rs' /\ Forall region_ok rs'.
Proof.
  intros Hrs Hl Hfu. revert rs Hrs. induction l as [|e l IH]; intros rs Hrs; cbn [parse_entries]; [by exists rs|].
  destruct (parse_entry_ok fuel rs e Hrs ltac:(apply Hl; left) Hfu) as (rs' & -> & Hrs'). cbn [res_bind].
  apply IH; [|done]. intros e' He'. apply Hl. by right.
Qed.

End Parse.


(** *** Reserved ranges *)

Definition ends_before (p q : PhysicalMemoryRange) : Prop := p_start p + p_length p <= p_start q.

(** A memory map in ascending order, below 4 GiB. *)
Definition ascending (l : list PhysicalMemoryRange) : Prop :=
  StronglySorted ends_before l /\
  Forall (fun p => 0 <= p_start p /\ 0 <= p_length p /\ p_start p + p_length p < 2 ^ 32) l.

(** A reserved range has no address of a range that is not reserved. *)
Definition excludes (l : list PhysicalMemoryRange) (c : ContiguousReservedMemoryRange) : Prop :=
  forall p, p ∈ l -> p_type p <> Reserved ->
    p_start p + p_length p <= c_start c \/ c_start c + c_length c <= p_start p.

Lemma sorted_app l1 l2 :
  StronglySorted ends_before (l1 ++ l2) -> forall p q, p ∈ l1 -> q ∈ l2 -> ends_before p q.
Proof.
  induction l1 as [|r l1 IH]; intros H p q Hp Hq; [by apply not_elem_of_nil in Hp|].
  apply StronglySorted_inv in H as [H1 H2]. apply elem_of_cons in Hp as [-> |Hp]; [|by apply (IH H1)].
  rewrite Forall_forall in H2. apply H2. apply elem_of_app. by right.
Qed.

(** The loop over the ranges after [pre]: an open range starts after every
    range of [pre] that is not reserved and before every later range. *)
Lemma reserved_loop_ok all pre l start acc start' acc' :
  ascending all -> all = pre ++ l -> Forall (excludes all) acc ->
  (start <> 0 -> (forall p, p ∈ pre -> p_type p <> Reserved -> p_start p + p_length p <= start) /\
                 0 <= start /\ forall q, q ∈ l -> start <= p_start q) ->
  reserved_loop l start acc = (start', acc') ->
  Forall (excludes all) acc' /\
  (start' <> 0 -> 0 <= start' /\ (forall p, p ∈ all -> p_type p <> Reserved -> p_start p + p_length p <= start')).
Proof.
  intros Hall. revert pre start acc. induction l as [|c l IH]; intros pre start acc -> Hacc Hopen; cbn [reserved_loop].
  { intros [= <- <-]. split; [done|]. intros H0. destruct (Hopen H0) as (H1 & H2 & _).
    rewrite app_nil_r. done. }
  destruct Hall as [Hsort Hb]. pose proof (sorted_app pre (c :: l) Hsort) as Hpre.
  pose proof (sorted_app (pre ++ [c]) l) as Hpost. rewrite <- app_assoc in Hpost. specialize (Hpost Hsort).
  pose proof (proj1 (Forall_forall _ _) Hb) as Hb'. pose proof (Hb' c) as Hc.
  rewrite elem_of_app in Hc. specialize (Hc ltac:(right; left)).
  assert (forall q, q ∈ l -> p_start c <= p_start q) as Hlater.
  { intros q Hq. specialize (Hpost c q ltac:(apply elem_of_app; right; left) Hq). unfold ends_before in Hpost. lia. }
  assert (forall s, (s <> 0 -> (forall p, p ∈ pre -> p_type p <> Reserved -> p_start p + p_length p <= s) /\
                 0 <= s /\ forall q, q ∈ c :: l -> s <= p_start q) -> p_type c = Reserved \/ s = 0 ->
             s <> 0 -> (forall p, p ∈ pre ++ [c] -> p_type p <> Reserved -> p_start p + p_length p <= s) /\
                 0 <= s /\ forall q, q ∈ l -> s <= p_start q) as Hstay.
  { intros s Hs Hor H0. destruct (Hs H0) as (H1 & H2 & H3). split; [|split; [done|]].
    - intros p [Hp| ->%list_elem_of_singleton]%elem_of_app Hn; [by apply H1|by destruct Hor].
    - intros q Hq. apply H3. by right. }
  case_bool_decide as Hty.
  - destruct (Z.eqb_spec start 0) as [->|Hs].
    + apply (IH (pre ++ [c])); [by rewrite <- app_assoc|done|done].
    + destruct (Hopen Hs) as (H1 & H2 & H3). apply (IH (pre ++ [c])); [by rewrite <- app_assoc| |done].
      apply Forall_app. split; [done|]. constructor; [|constructor].
      intros p Hp Hn. cbn. specialize (H3 c ltac:(left)). rewrite wrap32_small by lia.
      apply elem_of_app in Hp as [Hp|[-> |Hp]%elem_of_cons].
      * left. by apply H1.
      * right. lia.
      * right. specialize (Hlater p Hp). lia.
  - destruct (Z.eqb_spec start 0) as [->|Hs]; cbn [negb].
    + apply (IH (pre ++ [c])); [by rewrite <- app_assoc|done|]. intros H0.
      apply Hstay; [|by left|done]. intros _. split; [|split; [lia|]].
      * intros p Hp _. apply Hpre; [done|left].
      * intros q [-> |Hq]%elem_of_cons; [lia|by apply Hlater].
    + apply (IH (pre ++ [c])); [by rewrite <- app_assoc|done|]. apply Hstay; [done|by left].
Qed.

Lemma reserved_ok l reserved :
  ascending l -> register_reserved_ranges l = Ok reserved -> Forall (excludes l) reserved.
Proof.
  intros Hl E. unfold register_reserved_ranges in E. inv_res.
  destruct (reserved_loop l 0 []) as [start acc] eqn:El.
  destruct (reserved_loop_ok l [] l 0 [] start acc Hl eq_refl) as [Hacc Hopen]; [constructor|done|done|].
  revert H0. case_bool_decide; [by intros [= <-]|]. destruct (Z.eqb_spec start 0) as [->|Hs]; [by intros [= <-]|].
  intros [= <-]. apply Forall_app. split; [done|]. constructor; [|constructor].
  intros p Hp Hn. left. cbn. by apply Hopen.
Qed.

End MapFacts.

(** ** Properties *)

Import PhysicalRegion PhysicalFacts MemoryMap MapFacts.

(** Every page frame of every region that [parse_memory_map] makes for
    user pages lies inside an available entry of the memory map and outside the
    used ranges, and the loops end, when entries stay a page below 4 GiB, used
    ranges start at page boundaries, and no two available entries are exactly
    one page apart.  2^20 turns are enough: there are no more pages. *)
Theorem memory_map_frames_available (fuel : nat) (used : list UsedMemoryRange) (es : list mmap_entry) :
  Forall entry_ok es -> Forall (fun u => aligned (u_start u)) used ->
  (forall e a l e' a' l', e ∈ es -> e' ∈ es -> covers e a l -> covers e' a' l' -> a' <> a + l + PAGE_SIZE) ->
  2 ^ 20 < Z.of_nat fuel ->
  exists rs, parse_entries fuel used [] es = Ok rs /\
    forall r p, r ∈ rs -> aligned p -> m_lower r <= p -> p + PAGE_SIZE <= m_upper r -> available es used p.
Proof.
  intros Hes Hu Ha Hf.
  destruct (parse_entries_ok es used Hes Hu Ha fuel [] es) as (rs & E & Hrs); [constructor|done|done|].
  exists rs. split; [done|]. intros r p Hr Hp H1 H2. rewrite Forall_forall in Hrs.
  destruct (Hrs r Hr). apply ro_frames0; [done|]. unfold PAGE_SIZE in *. lia.
Qed.

Lemma memory_map_frames_available_witness :
  exists rs, parse_entries (Z.to_nat (2 ^ 20 + 1)) [mkUsed 0 0x100000] []
               [mkEntry 0 0x9fc00 1; mkEntry 0x100000 0x80000 1] = Ok rs /\
    forall r p, r ∈ rs -> aligned p -> m_lower r <= p -> p + PAGE_SIZE <= m_upper r ->
      available [mkEntry 0 0x9fc00 1; mkEntry 0x100000 0x80000 1] [mkUsed 0 0x100000] p.
Proof.
  apply (memory_map_frames_available (Z.to_nat (2 ^ 20 + 1)) [mkUsed 0 0x100000]
           [mkEntry 0 0x9fc00 1; mkEntry 0x100000 0x80000 1]).
  - assert (forall a l, 0 <= a -> 0 <= l -> a + l < 2 ^ 31 -> a mod PAGE_SIZE = 0 -> entry_ok (mkEntry a l 1)) as H.
    { intros a l H1 H2 H3 H4. unfold entry_ok. cbn [addr len]. unfold PAGE_SIZE in *. lia. }
    constructor; [|constructor; [|constructor]]; apply H; try lia; reflexivity.
  - apply Forall_singleton. reflexivity.
  - assert (forall e a l, e ∈ [mkEntry 0 0x9fc00 1; mkEntry 0x100000 0x80000 1] -> covers e a l ->
              (a, l) = (0, 0x9f000) \/ (a, l) = (0x100000, 0x80000)) as H.
    { intros e a l He (_ & Hf & _). rewrite !elem_of_cons in He.
      destruct He as [-> |[-> |He%not_elem_of_nil]]; [left|right|done]; rewrite <- Hf; reflexivity. }
    intros e a l e' a' l' He He' Hc Hc'. unfold PAGE_SIZE.
    destruct (H e a l He Hc) as [[= -> ->]|[= -> ->]], (H e' a' l' He' Hc') as [[= -> ->]|[= -> ->]]; lia.
  - rewrite Z2Nat.id; lia.
Defined.

(** On a memory map in ascending order no reserved range that is
    registered for /dev/mem has an address of a range of another type, usable
    memory above all. *)
Theorem reserved_ranges_exclude_memory (l : list PhysicalMemoryRange) (reserved : list ContiguousReservedMemoryRange) :
  ascending l -> register_reserved_ranges l = Ok reserved -> Forall (excludes l) reserved.
Proof. apply reserved_ok. Qed.

Lemma reserved_ranges_exclude_memory_witness :
  Forall (excludes [mkPhysicalMemoryRange Usable 0 0x9fc00; mkPhysicalMemoryRange Reserved 0x9fc00 0x400;
                    mkPhysicalMemoryRange Reserved 0xf0000 0x10000; mkPhysicalMemoryRange Usable 0x100000 0x100000;
                    mkPhysicalMemoryRange Reserved 0xfffc0000 0x3ffff])
    [mkReserved 0x9fc00 0x60400; mkReserved 0xfffc0000 0x3ffff].
Proof.
  apply reserved_ranges_exclude_memory; [|reflexivity]. split.
  - repeat constructor; unfold ends_before; cbn; lia.
  - repeat constructor; cbn; lia.
Defined.

(** A kernel heap that gives a block of 64 bytes for each request; the byte at 0
    counts them. *)
Definition kmalloc_64 (m : memory) (n : Z) : res (memory * Z) :=
  Ok (poke m 0 (m_bytes m 0 + 1), 64 * (m_bytes m 0 + 1)).

Definition boot (used : list UsedMemoryRange) (es : list mmap_entry) : res MemoryManager.MemoryManager :=
  parse_memory_map 100 kmalloc_64 kfree_nothing small_heap (fun _ => 0) used es 0x180000 0x190000.

(** Takes [n] user pages. *)
Fixpoint take_pages (n : nat) (mm : MemoryManager.MemoryManager) : res MemoryManager.MemoryManager :=
  match n with
  | O => Ok mm
  | S n =>
      let* (mm, _, _) := MemoryManager.allocate_user_physical_page 0 mm MemoryManager.No [] in
      take_pages n mm
  end.

(** Unusual memory maps.  A reserved page between two available entries
    becomes a page frame of a region, because the loop over the pages of an
    entry goes one page too far.  A boot module at the end of an available entry
    leaves a region without pages, which stops the kernel.  Two adjacent entries
    give two regions that both contain the first page of the second: when it is
    freed it goes to the first region, and the next allocation stops the kernel.
    /dev/mem may map a range that starts in a reserved range and leaves it. *)
Theorem memory_map_defects :
  match parse_entries 100 [] [] [mkEntry 0x200000 0x2000 1; mkEntry 0x202000 0x1000 2; mkEntry 0x203000 0x2000 1] with
  | Ok [r] => lower r = 0x200000 /\ upper r = 0x205000
  | _ => False
  end /\
  boot [mkUsed 0x200000 0x203800] [mkEntry 0x200000 0x4000 1] = Fault VerifyFailed /\
  match boot [] [mkEntry 0x200000 0x8000 1; mkEntry 0x208000 0x8000 1] with
  | Ok mm =>
      (let* mm := take_pages 9 mm in
       let* mm := MemoryManager.deallocate_user_physical_page 0 mm 0x208000 in
       take_pages 1 mm) = Fault VerifyFailed
  | Fault _ => False
  end /\
  is_allowed_to_mmap_to_userspace [mkReserved 0xf0000 0x10000] 0xff000 (Range.mkRange 0x1000000 0x10000) = Ok true.
Proof. vm_compute. repeat split. Qed.

(** An available entry that reaches the last page below 4 GiB keeps
    [parse_memory_map] in its loop forever: the 32-bit counter wraps around
    before it exceeds the bound. *)
Theorem memory_map_endless (fuel : nat) (used : list UsedMemoryRange) (rs : list PhysicalRegion) (e : mmap_entry) a l :
  type e = MULTIBOOT_MEMORY_AVAILABLE -> wrap U64 (addr e + len e) <= 0xffffffff ->
  fix_up e = (a, l) -> PAGE_SIZE <= l -> aligned a -> 0xfffff000 <= wrap U64 (a + l) ->
  forall rs', parse_entry fuel used rs e <> Ok rs'.
Proof.
  intros Ht Hw Hf Hl Ha Hb rs' E. unfold parse_entry in E. rewrite Ht in E.
  change (negb (MULTIBOOT_MEMORY_AVAILABLE =? MULTIBOOT_MEMORY_AVAILABLE)) with false in E. cbn iota in E.
  rewrite (proj2 (Z.ltb_ge _ _)) in E by lia. rewrite Hf, (proj2 (Z.ltb_ge _ _)) in E by lia.
  assert (aligned (wrap size_t a)) as Hp by (unfold aligned, PAGE_SIZE in *; unfold_ty; Z.to_euclidean_division_equations; lia).
  assert (0 <= wrap size_t a < 2 ^ 32) as Hr by (unfold_ty; Z.to_euclidean_division_equations; lia).
  revert rs E Hp Hr. generalize (wrap size_t a). induction fuel as [|fuel IH]; intros p rs E Hp Hr; [done|].
  cbn [page_loop] in E. rewrite (proj2 (Z.leb_le _ _)) in E
    by (unfold aligned, PAGE_SIZE in *; Z.to_euclidean_division_equations; lia).
  inv_res. eapply IH; [done|unfold aligned, PAGE_SIZE in *|]; unfold_ty; Z.to_euclidean_division_equations; lia.
Qed.

Lemma memory_map_endless_witness :
  forall rs', parse_entry 1000 [] [] (mkEntry 0xff000000 0xffffff 1) <> Ok rs'.
Proof.
  apply (memory_map_endless 1000 [] [] (mkEntry 0xff000000 0xffffff 1) 0xff000000 0xfff000);
    try reflexivity; vm_compute; discriminate.
Defined.
