(* ===== verification/Region.v ===== *)
(** * Kernel/VM/VMObject, AnonymousVMObject and Region: mappings of memory objects

    [VMObject] models the pages of a memory object and the copy-on-write map of an
    anonymous one, [Region] the record of a mapping with its access bits and the
    translation of page indices.  The operations of a region that reach into the
    address space are in Space. *)

From S2P Require Import Prelude Memory Containers RangeAllocator.

Module VMObject.

(** A slot of [m_physical_pages]: null, one of the two special pages the memory
    manager owns, or a page of memory. *)
Inductive page :=
| NoPage
| SharedZeroPage
| LazyCommittedPage
| Allocated (paddr : Z).

#[global] Instance page_eq_dec : EqDecision page.
Proof. solve_decision. Defined.

(** The class of the object; an inode is an identifier. *)
Inductive class :=
| Anonymous
| SharedInode (inode : positive)
| PrivateInode (inode : positive).

(** A copy-on-write map is the list of its bits; only an anonymous object has
    one. *)
Record VMObject := mkVMObject {
  m_class : class;
  m_physical_pages : list page;
  m_cow_map : option (list bool);
}.

Definition is_anonymous (vm : VMObject) : bool :=
  match m_class vm with Anonymous => true | _ => false end.
Definition is_shared_inode (vm : VMObject) : bool :=
  match m_class vm with SharedInode _ => true | _ => false end.
Definition is_private_inode (vm : VMObject) : bool :=
  match m_class vm with PrivateInode _ => true | _ => false end.
Definition is_inode (vm : VMObject) : bool := is_shared_inode vm || is_private_inode vm.

Definition inode_of (vm : VMObject) : option positive :=
  match m_class vm with Anonymous => None | SharedInode i | PrivateInode i => Some i end.

Definition page_count (vm : VMObject) : Z := Z.of_nat (length (m_physical_pages vm)).
Definition vmobject_size (vm : VMObject) : Z := wrap size_t (page_count vm * PAGE_SIZE).

(** [AnonymousVMObject(size, strategy)] for the two lazy strategies. *)
Definition new_anonymous (size_ : Z) (lazily_committed : bool) : res VMObject :=
  let* n := ceil_div size_ PAGE_SIZE in
  Ok (mkVMObject Anonymous
        (replicate (Z.to_nat n) (if lazily_committed then LazyCommittedPage else SharedZeroPage)) None).

(** [InodeVMObject(inode, size)]: the pages are read when they are needed. *)
Definition new_inode (c : class) (size_ : Z) : res VMObject :=
  let* n := ceil_div size_ PAGE_SIZE in
  Ok (mkVMObject c (replicate (Z.to_nat n) NoPage) None).

Definition is_special (p : page) : bool :=
  match p with SharedZeroPage | LazyCommittedPage => true | _ => false end.

(** [AnonymousVMObject::should_cow] *)
Definition should_cow (vm : VMObject) (page_index : nat) (is_shared : bool) : res bool :=
  let* p := Vector.at_ (m_physical_pages vm) page_index in
  if is_special p then Ok true
  else if is_shared then Ok false
  else
    match m_cow_map vm with
    | None => Ok false
    | Some map => Vector.at_ map page_index
    end.

(** [ensure_cow_map]: a new map has every bit set. *)
Definition ensure_cow_map (vm : VMObject) : list bool :=
  match m_cow_map vm with
  | Some map => map
  | None => replicate (length (m_physical_pages vm)) true
  end.

(** [AnonymousVMObject::set_should_cow] *)
Definition set_should_cow (vm : VMObject) (page_index : nat) (cow : bool) : res VMObject :=
  let* map := Vector.set_at (ensure_cow_map vm) page_index cow in
  Ok (mkVMObject (m_class vm) (m_physical_pages vm) (Some map)).

End VMObject.

Module Region.
Import VirtualAddress Range.

(** [Region::Access] *)
Definition Read : Z := 1.
Definition Write : Z := 2.
Definition Execute : Z := 4.
Definition HasBeenReadable : Z := 16.
Definition HasBeenWritable : Z := 32.
Definition HasBeenExecutable : Z := 64.

(** [m_mapped] says whether [m_page_directory] is set; the object is an
    identifier. *)
Record Region := mkRegion {
  m_range : Range;
  m_offset_in_vmobject : Z;
  m_vmobject : positive;
  m_name : string;
  m_access : Z;
  m_shared : bool;
  m_cacheable : bool;
  m_stack : bool;
  m_mmap : bool;
  m_syscall_region : bool;
  m_mapped : bool;
}.

Definition with_access (r : Region) (access : Z) : Region :=
  mkRegion (m_range r) (m_offset_in_vmobject r) (m_vmobject r) (m_name r) access (m_shared r)
    (m_cacheable r) (m_stack r) (m_mmap r) (m_syscall_region r) (m_mapped r).

(** Name and flags. *)
Definition with_flags (r : Region) (name : string) (shared stack mmap syscall : bool) : Region :=
  mkRegion (m_range r) (m_offset_in_vmobject r) (m_vmobject r) name (m_access r) shared
    (m_cacheable r) stack mmap syscall (m_mapped r).

Definition set_name (r : Region) (name : string) : Region :=
  with_flags r name (m_shared r) (m_stack r) (m_mmap r) (m_syscall_region r).
Definition set_shared (r : Region) (b : bool) : Region :=
  with_flags r (m_name r) b (m_stack r) (m_mmap r) (m_syscall_region r).
Definition set_stack (r : Region) (b : bool) : Region :=
  with_flags r (m_name r) (m_shared r) b (m_mmap r) (m_syscall_region r).
Definition set_mmap (r : Region) (b : bool) : Region :=
  with_flags r (m_name r) (m_shared r) (m_stack r) b (m_syscall_region r).
Definition set_syscall_region (r : Region) (b : bool) : Region :=
  with_flags r (m_name r) (m_shared r) (m_stack r) (m_mmap r) b.

Definition with_mapped (r : Region) (b : bool) : Region :=
  mkRegion (m_range r) (m_offset_in_vmobject r) (m_vmobject r) (m_name r) (m_access r) (m_shared r)
    (m_cacheable r) (m_stack r) (m_mmap r) (m_syscall_region r) b.

Definition vaddr (r : Region) : Z := base (m_range r).
Definition region_size (r : Region) : Z := size (m_range r).

Definition has_bit (access bit : Z) : bool := negb (Z.land access bit =? 0).

Definition is_readable (r : Region) : bool := has_bit (m_access r) Read.
Definition is_writable (r : Region) : bool := has_bit (m_access r) Write.
Definition is_executable (r : Region) : bool := has_bit (m_access r) Execute.
Definition has_been_readable (r : Region) : bool := has_bit (m_access r) HasBeenReadable.
Definition has_been_writable (r : Region) : bool := has_bit (m_access r) HasBeenWritable.
Definition has_been_executable (r : Region) : bool := has_bit (m_access r) HasBeenExecutable.

(** [set_access_bit]; [m_access] is a [u8]. *)
Definition set_access_bit (access bit : Z) (b : bool) : Z :=
  if b then wrap U8 (Z.lor access (Z.lor bit (Z.shiftl bit 4)))
  else wrap U8 (Z.land access (Z.lnot bit)).

Definition set_readable (r : Region) (b : bool) : Region :=
  with_access r (set_access_bit (m_access r) Read b).
Definition set_writable (r : Region) (b : bool) : Region :=
  with_access r (set_access_bit (m_access r) Write b).
Definition set_executable (r : Region) (b : bool) : Region :=
  with_access r (set_access_bit (m_access r) Execute b).

Definition is_kernel (r : Region) : bool := (vaddr r <? 0x00800000) || (0xc0000000 <=? vaddr r).
Definition is_user (r : Region) : bool := negb (is_kernel r).

Definition page_index_from_address (r : Region) (a : Z) : Z := minus a (base (m_range r)) / PAGE_SIZE.
Definition vaddr_from_page_index (r : Region) (page_index : Z) : Z :=
  offset (vaddr r) (wrap size_t (page_index * PAGE_SIZE)).

Definition first_page_index (r : Region) : Z := m_offset_in_vmobject r / PAGE_SIZE.
Definition region_page_count (r : Region) : Z := region_size r / PAGE_SIZE.
Definition translate_to_vmobject_page (r : Region) (page_index : Z) : Z :=
  wrap size_t (first_page_index r + page_index).

Definition offset_in_vmobject_from_vaddr (r : Region) (a : Z) : Z :=
  wrap size_t (wrap size_t (m_offset_in_vmobject r + a) - vaddr r).

(** The index, changed in place, and whether the region maps the page. *)
Definition translate_vmobject_page (r : Region) (index : Z) : Z * bool :=
  let first_index := first_page_index r in
  if index <? first_index then (first_index, false)
  else
    let index := index - first_index in
    let total_page_count := region_page_count r in
    if total_page_count <=? index then (wrap size_t (first_index + total_page_count - 1), false)
    else (index, true).

(** Index and number of pages, changed in place, and whether the region maps a
    page of the range. *)
Definition translate_vmobject_page_range (r : Region) (index page_count : Z) : Z * Z * bool :=
  let first_index := first_page_index r in
  let '(index, page_count, mapped) :=
    if index <? first_index then
      let delta := first_index - index in
      if page_count <=? delta then (first_index, 0, false) else (first_index, page_count - delta, true)
    else (index, page_count, true) in
  if negb mapped then (index, page_count, false)
  else
    let index := index - first_index in
    let total_page_count := region_page_count r in
    if total_page_count <? wrap size_t (index + page_count) then
      let page_count := wrap size_t (total_page_count - index) in
      if page_count =? 0 then (index, page_count, false) else (index, page_count, true)
    else (index, page_count, true).

(** The constructor; the access bits record what the mapping may do from the
    start as what it has been able to do. *)
Definition new_region (range : Range) (vmobject : positive) (offset_in_vmobject : Z) (name : string)
    (access : Z) (cacheable shared : bool) : res Region :=
  VERIFY is_page_aligned (base range) ;;
  VERIFY negb (size range =? 0) ;;
  VERIFY size range mod PAGE_SIZE =? 0 ;;
  Ok (mkRegion range offset_in_vmobject vmobject name
        (wrap U8 (Z.lor access (Z.shiftl (Z.land access 0x7) 4))) shared cacheable false false false false).

(** [PROT_READ], [PROT_WRITE] and [PROT_EXEC] *)
Definition PROT_READ : Z := 0x1.
Definition PROT_WRITE : Z := 0x2.
Definition PROT_EXEC : Z := 0x4.

Definition prot_to_region_access_flags (prot : Z) : Z :=
  let access := 0 in
  let access := if has_bit prot PROT_READ then Z.lor access Read else access in
  let access := if has_bit prot PROT_WRITE then Z.lor access Write else access in
  if has_bit prot PROT_EXEC then Z.lor access Execute else access.

Definition region_access_flags_to_prot (access : Z) : Z :=
  let prot := 0 in
  let prot := if has_bit access Read then Z.lor prot PROT_READ else prot in
  let prot := if has_bit access Write then Z.lor prot PROT_WRITE else prot in
  if has_bit access Execute then Z.lor prot PROT_EXEC else prot.

End Region.

(** ** Lemmas *)

Module RegionFacts.
Import VirtualAddress Range RangeFacts VMObject Region.

(** The values [m_access] takes: seven bits, the fourth unused, and whatever is
    allowed now has been allowed. *)
Definition access_ok (a : Z) : bool :=
  (0 <=? a) && (a <? 128) && (Z.land a 8 =? 0) && (Z.land (Z.shiftl (Z.land a 7) 4) (Z.lnot a) =? 0).

(** Never writable and executable at the same time. *)
Definition wx_ok (a : Z) : bool := negb (has_bit a Write && has_bit a Execute).

(** Whatever holds of the 128 values holds. *)
Lemma every_access (P : Z -> bool) a :
  forallb P (seqZ 0 128) = true -> 0 <= a < 128 -> P a = true.
Proof. intros H Ha. rewrite forallb_forall in H. apply H, list_elem_of_In, elem_of_seqZ. lia. Qed.

Lemma access_range a : access_ok a = true -> 0 <= a < 128.
Proof. unfold access_ok. intros. to_prop. lia. Qed.

Lemma set_access_ok a bit b :
  access_ok a = true -> bit ∈ [Read; Write; Execute] -> access_ok (set_access_bit a bit b) = true.
Proof.
  intros Ha Hbit. pose proof (access_range a Ha) as Hr.
  assert (forallb (fun a => implb (access_ok a) (access_ok (set_access_bit a bit b))) (seqZ 0 128) = true) as H.
  { rewrite !elem_of_cons, elem_of_nil in Hbit.
    destruct Hbit as [-> |[-> |[-> |[]]]]; destruct b; vm_compute; reflexivity. }
  apply (every_access _ a) in H; [|done]. cbv beta in H. by rewrite Ha in H.
Qed.

(** What [mprotect] makes of the access bits. *)
Definition protect (a prot : Z) : Z :=
  set_access_bit (set_access_bit (set_access_bit a Read (has_bit prot PROT_READ))
    Write (has_bit prot PROT_WRITE)) Execute (has_bit prot PROT_EXEC).

Lemma protect_ok a prot : access_ok a = true -> access_ok (protect a prot) = true.
Proof. intros Ha. unfold protect. repeat apply set_access_ok; try done; set_solver. Qed.

(** The bits after [mprotect]: the current ones are those asked for, and the
    others remember both. *)
Lemma protect_bits a prot :
  access_ok a = true ->
  has_bit (protect a prot) Read = has_bit prot PROT_READ /\
  has_bit (protect a prot) Write = has_bit prot PROT_WRITE /\
  has_bit (protect a prot) Execute = has_bit prot PROT_EXEC /\
  has_bit (protect a prot) HasBeenWritable = has_bit a HasBeenWritable || has_bit prot PROT_WRITE /\
  has_bit (protect a prot) HasBeenExecutable = has_bit a HasBeenExecutable || has_bit prot PROT_EXEC.
Proof.
  intros Ha%access_range. unfold protect.
  generalize (has_bit prot PROT_READ) as br, (has_bit prot PROT_WRITE) as bw, (has_bit prot PROT_EXEC) as be.
  intros br bw be.
  assert (forallb (fun a =>
    let p := set_access_bit (set_access_bit (set_access_bit a Read br) Write bw) Execute be in
    eqb (has_bit p Read) br && eqb (has_bit p Write) bw && eqb (has_bit p Execute) be &&
    eqb (has_bit p HasBeenWritable) (has_bit a HasBeenWritable || bw) &&
    eqb (has_bit p HasBeenExecutable) (has_bit a HasBeenExecutable || be)) (seqZ 0 128) = true) as H
    by (destruct br, bw, be; vm_compute; reflexivity).
  apply (every_access _ a) in H; [|done]. cbv beta zeta in H. rewrite !andb_true_iff, !eqb_true_iff in H. tauto.
Qed.

Lemma has_bit_testbit a n : 0 <= n -> has_bit a (2 ^ n) = Z.testbit a n.
Proof.
  intros Hn. unfold has_bit. destruct (Z.testbit a n) eqn:E.
  - apply negb_true_iff, Z.eqb_neq. intros H. apply (f_equal (fun x => Z.testbit x n)) in H.
    rewrite Z.land_spec, E, Z.pow2_bits_true, Z.testbit_0_l in H by done. done.
  - apply negb_false_iff, Z.eqb_eq. apply Z.bits_inj'. intros k Hk.
    rewrite Z.land_spec, Z.testbit_0_l, Z.pow2_bits_eqb by done.
    destruct (Z.eqb_spec n k) as [->|]; [by rewrite E|apply andb_false_r].
Qed.

Lemma high_bits x k : 0 <= x < 8 -> 3 <= k -> Z.testbit x k = false.
Proof.
  intros Hx Hk. destruct (Z.eq_dec x 0) as [->|]; [apply Z.testbit_0_l|].
  apply Z.bits_above_log2; [lia|]. assert (Z.log2 x < 3) by (apply Z.log2_lt_pow2; lia). lia.
Qed.

(** Both conversions keep the three low bits. *)
Lemma low_bits a :
  (let x := if has_bit a 1 then Z.lor 0 1 else 0 in
   let x := if has_bit a 2 then Z.lor x 2 else x in
   if has_bit a 4 then Z.lor x 4 else x) = Z.land a 7.
Proof.
  pose proof (has_bit_testbit a 0 ltac:(lia)) as H0. pose proof (has_bit_testbit a 1 ltac:(lia)) as H1.
  pose proof (has_bit_testbit a 2 ltac:(lia)) as H2.
  change (2 ^ 0) with 1 in H0. change (2 ^ 1) with 2 in H1. change (2 ^ 2) with 4 in H2.
  rewrite H0, H1, H2. clear H0 H1 H2. apply Z.bits_inj'. intros k Hk. rewrite Z.land_spec.
  destruct (Z.le_gt_cases 3 k) as [H|H].
  - rewrite (high_bits 7 k), andb_false_r by lia.
    destruct (Z.testbit a 0), (Z.testbit a 1), (Z.testbit a 2); apply high_bits; try done;
      vm_compute; split; (discriminate || reflexivity).
  - assert (k = 0 \/ k = 1 \/ k = 2) as [-> |[-> | ->]] by lia;
      destruct (Z.testbit a 0), (Z.testbit a 1), (Z.testbit a 2); reflexivity.
Qed.

Lemma prot_to_access prot : prot_to_region_access_flags prot = Z.land prot 7.
Proof. exact (low_bits prot). Qed.

Lemma access_to_prot access : region_access_flags_to_prot access = Z.land access 7.
Proof. exact (low_bits access). Qed.

Lemma land7_range a : 0 <= Z.land a 7 < 8.
Proof. change 7 with (Z.ones 3). rewrite Z.land_ones by lia. apply Z.mod_pos_bound. lia. Qed.

(** The access bits of a new region, from the protection of a mapping and from
    the bits of a region it is split from. *)
Definition initial_access (access : Z) : Z := wrap U8 (Z.lor access (Z.shiftl (Z.land access 0x7) 4)).

Lemma initial_access_prot prot :
  access_ok (initial_access (prot_to_region_access_flags prot)) = true /\
  has_bit (initial_access (prot_to_region_access_flags prot)) Write = has_bit prot PROT_WRITE /\
  has_bit (initial_access (prot_to_region_access_flags prot)) Execute = has_bit prot PROT_EXEC.
Proof.
  assert (forall b, b = 2 \/ b = 4 -> has_bit (Z.land prot 7) b = has_bit prot b) as Hb.
  { intros b Hb. unfold has_bit. rewrite <- Z.land_assoc. by destruct Hb as [-> | ->]. }
  unfold PROT_WRITE, PROT_EXEC. rewrite prot_to_access, <- (Hb 2), <- (Hb 4) by tauto.
  pose proof (land7_range prot) as Hr. clear Hb. generalize dependent (Z.land prot 7). intros a Hr.
  assert (a = 0 \/ a = 1 \/ a = 2 \/ a = 3 \/ a = 4 \/ a = 5 \/ a = 6 \/ a = 7) as Hin by lia.
  destruct_or! Hin; subst a; repeat split.
Qed.

Lemma initial_access_split a : access_ok a = true -> initial_access a = a.
Proof.
  intros Ha. pose proof (access_range a Ha) as Hr. apply Z.eqb_eq.
  assert (forallb (fun a => implb (access_ok a) (initial_access a =? a)) (seqZ 0 128) = true) as H
    by (vm_compute; reflexivity).
  apply (every_access _ a) in H; [|done]. cbv beta in H. by rewrite Ha in H.
Qed.

Lemma low_small a : 0 <= a < 8 -> Z.land a 7 = a.
Proof. intros. change 7 with (Z.ones 3). rewrite Z.land_ones by lia. by apply Z.mod_small. Qed.

Lemma initial_low a : 0 <= a < 8 -> Z.land (initial_access a) 7 = a.
Proof.
  intros. assert (a = 0 \/ a = 1 \/ a = 2 \/ a = 3 \/ a = 4 \/ a = 5 \/ a = 6 \/ a = 7) as Hin by lia.
  destruct_or! Hin; subst a; reflexivity.
Qed.

(** *** The history of a region *)

(** A call of [set_readable], [set_writable] or [set_executable]. *)
Inductive setter := SetReadable (b : bool) | SetWritable (b : bool) | SetExecutable (b : bool).

Definition call_setter (r : Region) (c : setter) : Region :=
  match c with
  | SetReadable b => set_readable r b
  | SetWritable b => set_writable r b
  | SetExecutable b => set_executable r b
  end.

(** Whether a call gives a permission. *)
Definition gives (bit : Z) (c : setter) : bool :=
  match c with
  | SetReadable b => b && (bit =? Read)
  | SetWritable b => b && (bit =? Write)
  | SetExecutable b => b && (bit =? Execute)
  end.

(** What a setter does to each bit that remembers. *)
Lemma set_access_remembers a bit b bit' :
  access_ok a = true -> bit ∈ [Read; Write; Execute] -> bit' ∈ [Read; Write; Execute] ->
  has_bit (set_access_bit a bit b) (Z.shiftl bit' 4) = has_bit a (Z.shiftl bit' 4) || (b && (bit' =? bit)).
Proof.
  intros Ha Hbit Hbit'. pose proof (access_range a Ha) as Hr. apply eqb_true_iff.
  assert (forallb (fun a => eqb (has_bit (set_access_bit a bit b) (Z.shiftl bit' 4))
    (has_bit a (Z.shiftl bit' 4) || (b && (bit' =? bit)))) (seqZ 0 128) = true) as H.
  { rewrite !elem_of_cons, elem_of_nil in Hbit, Hbit'.
    destruct Hbit as [-> |[-> |[-> |[]]]], Hbit' as [-> |[-> |[-> |[]]]], b; vm_compute; reflexivity. }
  by apply (every_access _ a) in H.
Qed.

Lemma call_setter_ok r c bit :
  access_ok (m_access r) = true -> bit ∈ [Read; Write; Execute] ->
  access_ok (m_access (call_setter r c)) = true /\
  has_bit (m_access (call_setter r c)) (Z.shiftl bit 4) = has_bit (m_access r) (Z.shiftl bit 4) || gives bit c.
Proof.
  intros Ha Hbit. destruct c; cbn [call_setter set_readable set_writable set_executable with_access m_access gives];
    (split; [apply set_access_ok|apply set_access_remembers]); try done; repeat constructor.
Qed.

Lemma call_setters_ok cs r bit :
  access_ok (m_access r) = true -> bit ∈ [Read; Write; Execute] ->
  access_ok (m_access (fold_left call_setter cs r)) = true /\
  has_bit (m_access (fold_left call_setter cs r)) (Z.shiftl bit 4) =
    has_bit (m_access r) (Z.shiftl bit 4) || existsb (gives bit) cs.
Proof.
  revert r. induction cs as [|c cs IH]; intros r Ha Hbit; cbn [fold_left existsb]; [by rewrite orb_false_r|].
  destruct (call_setter_ok r c bit Ha Hbit) as [Ha' Hc]. destruct (IH _ Ha' Hbit) as [? ->].
  by rewrite Hc, orb_assoc.
Qed.

Lemma initial_access_remembers prot bit :
  bit ∈ [Read; Write; Execute] ->
  has_bit (initial_access (prot_to_region_access_flags prot)) (Z.shiftl bit 4) = has_bit prot bit.
Proof.
  intros Hbit. rewrite prot_to_access.
  assert (has_bit prot bit = has_bit (Z.land prot 7) bit) as ->.
  { unfold has_bit. rewrite <- Z.land_assoc. rewrite !elem_of_cons, elem_of_nil in Hbit.
    by destruct Hbit as [-> |[-> |[-> |[]]]]. }
  pose proof (land7_range prot) as Hr. generalize dependent (Z.land prot 7). intros a Hr.
  assert (a = 0 \/ a = 1 \/ a = 2 \/ a = 3 \/ a = 4 \/ a = 5 \/ a = 6 \/ a = 7) as Hin by lia.
  rewrite !elem_of_cons, elem_of_nil in Hbit.
  destruct Hbit as [-> |[-> |[-> |[]]]]; destruct_or! Hin; subst a; reflexivity.
Qed.

End RegionFacts.

Import Range Region RegionFacts.

(** C27: the access bits of a region stay well formed.  Whatever protection a
    region is made with and whichever of its setters are called afterwards, its
    bits fit in a byte, the unused ones stay clear, and everything it may do now
    is recorded as something it has been able to do.  It has been readable,
    writable or executable exactly when it was made so or was made so later. *)
Theorem region_access_typed range vmobject off name prot cacheable shared r cs bit :
  new_region range vmobject off name (prot_to_region_access_flags prot) cacheable shared = Ok r ->
  bit ∈ [Read; Write; Execute] ->
  let r' := fold_left call_setter cs r in
  access_ok (m_access r') = true /\
  has_bit (m_access r') (Z.shiftl bit 4) = has_bit prot bit || existsb (gives bit) cs.
Proof.
  intros E Hbit. cbv zeta. unfold new_region in E. inv_res.
  rewrite <- (initial_access_remembers prot bit Hbit).
  apply (call_setters_ok cs (mkRegion _ _ _ _ _ _ _ _ _ _ _) bit); [apply initial_access_prot|done].
Qed.

Lemma region_access_typed_witness :
  exists r, new_region (mkRange 0x1000000 0x2000) 1 0 "stack" (prot_to_region_access_flags 3) true false = Ok r /\
    access_ok (m_access (fold_left call_setter [SetWritable false; SetExecutable true] r)) = true.
Proof.
  eexists. split; [vm_compute; reflexivity|].
  refine (proj1 (region_access_typed (mkRange 0x1000000 0x2000) 1 0 "stack" 3 true false _
    [SetWritable false; SetExecutable true] Write _ _)); [vm_compute; reflexivity|repeat constructor].
Defined.

(** The conversions between the protection of a system call and the access bits
    lose nothing: converting there and back keeps the three bits a program
    can ask for, and the bits of every region convert to the protection it
    has now. *)
Theorem protection_roundtrip :
  (forall prot, region_access_flags_to_prot (prot_to_region_access_flags prot) = Z.land prot 7) /\
  (forall prot, 0 <= prot < 8 -> region_access_flags_to_prot (prot_to_region_access_flags prot) = prot) /\
  (forall access, prot_to_region_access_flags (region_access_flags_to_prot access) = Z.land access 7) /\
  (forall prot, region_access_flags_to_prot (initial_access (prot_to_region_access_flags prot)) = Z.land prot 7).
Proof.
  assert (forall a, Z.land (Z.land a 7) 7 = Z.land a 7) as Hi by (intros; by rewrite <- Z.land_assoc).
  repeat split; intros; rewrite ?access_to_prot, ?prot_to_access, ?Hi; [done|by apply low_small|done|].
  apply initial_low, land7_range.
Qed.
