(* ===== verification/Space.v ===== *)
(** * Kernel/VM/Space: the regions of an address space

    [OrderedMap] is what the address space relies on of the container of its
    regions; the red-black tree of AK is an instance.  [Space] models the class of
    the same name together with the operations of Kernel/VM/Region that reach
    into it: the page tables, the allocator of virtual ranges, and the objects
    the regions map.  A region is a heap object: the container and the lookup
    cache hold its identifier, and destroying it clears what points to it. *)

From Stdlib Require Import Sorting.Sorted.
From S2P Require Import Prelude Memory Containers RedBlackTree RedBlackFacts RedBlackSpec RangeAllocator Region.

(** ** The container *)

Class OrderedMap (M : Type) := {
  om_empty : M;
  om_find : M -> Z -> res (option positive);
  om_find_largest_not_above : M -> Z -> res (option positive);
  om_insert : M -> Z -> positive -> res M;
  om_unsafe_remove : M -> Z -> res (M * positive);
  om_from : M -> Z -> res (list positive);
  om_items : M -> res (list positive);
}.

(** [om_is t c]: the container [t] has the contents [c].  Iterating over an empty
    container is not promised: the tree keeps a stale minimum. *)
Class OrderedMapLaws (M : Type) `{OrderedMap M} := {
  om_is : M -> gmap Z positive -> Prop;
  om_empty_law : om_is om_empty ∅;
  om_find_law t c k : om_is t c -> om_find t k = Ok (c !! k);
  om_find_largest_not_above_law t c k : om_is t c ->
    exists o, om_find_largest_not_above t k = Ok o /\
      match o with
      | Some v => exists j, c !! j = Some v /\ j <= k /\ forall i w, c !! i = Some w -> i <= k -> i <= j
      | None => forall i w, c !! i = Some w -> k < i
      end;
  om_insert_law t c k v : om_is t c -> c !! k = None -> Z.of_nat (size c) + 1 < 2 ^ 32 ->
    exists t', om_insert t k v = Ok t' /\ om_is t' (<[k := v]> c);
  om_unsafe_remove_law t c k v : om_is t c -> c !! k = Some v -> Z.of_nat (size c) < 2 ^ 32 ->
    exists t', om_unsafe_remove t k = Ok (t', v) /\ om_is t' (delete k c);
  om_from_law t c k v : om_is t c -> c !! k = Some v ->
    exists l, om_from t k = Ok (snd <$> l) /\ forall i w, (i, w) ∈ l <-> c !! i = Some w /\ k <= i;
  om_items_law t c : om_is t c -> c <> ∅ ->
    exists l, om_items t = Ok (snd <$> l) /\ l ≡ₚ map_to_list c;
}.

(** ** The red-black tree as the container *)

Module RegionTree.
Import RedBlackTree RedBlackFacts RedBlackSpec.

(** The value of the node a pointer refers to; null gives none. *)
Definition value_of (t : RedBlackTree positive) (node : option ptr) : res (option positive) :=
  match node with
  | None => Ok None
  | Some _ => let* n := deref t node in Ok (Some (value n))
  end.

Fixpoint values_of (t : RedBlackTree positive) (nodes : list ptr) : res (list positive) :=
  match nodes with
  | [] => Ok []
  | node :: nodes =>
      let* n := deref t (Some node) in
      let* vs := values_of t nodes in
      Ok (value n :: vs)
  end.

(** The nodes an iteration visits. *)
Fixpoint visit (n : nat) (t : RedBlackTree positive) (i : iterator) : res (list ptr) :=
  match n, i.1 with
  | S n, Some a => let* i := iterator_next t i in let* l := visit n t i in Ok (a :: l)
  | _, _ => Ok []
  end.

#[global] Instance region_tree : OrderedMap (RedBlackTree positive) := {
  om_empty := empty_tree;
  om_find t k := let* node := find t k in value_of t node;
  om_find_largest_not_above t k := let* node := find_largest_not_above t k in value_of t node;
  om_insert t k v := insert t (fresh (dom (store t))) k v;
  om_unsafe_remove t k := unsafe_remove t k;
  om_from t k := let* i := begin_from t k in let* l := visit (turns t) t i in values_of t l;
  om_items t := let* l := visit (turns t) t (begin t) in values_of t l;
}.

Definition pair_of (x : @item positive) : Z * positive := (i_key x, i_value x).

(** The items of the tree have distinct keys and are the contents. *)
Definition holds (t : RedBlackTree positive) (c : gmap Z positive) : Prop :=
  exists l, tree_inv t l /\ NoDup (i_key <$> l) /\ c = list_to_map (pair_of <$> l).

Lemma keys_of (l : list (@item positive)) : (pair_of <$> l).*1 = i_key <$> l.
Proof. rewrite <- list_fmap_compose. done. Qed.

Lemma contents l k v :
  NoDup (i_key <$> l) ->
  (list_to_map (pair_of <$> l) : gmap Z positive) !! k = Some v <-> exists x, x ∈ l /\ i_key x = k /\ i_value x = v.
Proof.
  intros Hd. rewrite <- elem_of_list_to_map by (by rewrite keys_of). rewrite list_elem_of_fmap. split.
  - intros (x & [= -> ->] & Hx). by exists x.
  - intros (x & Hx & <- & <-). by exists x.
Qed.

Lemma contents_none l k :
  (list_to_map (pair_of <$> l) : gmap Z positive) !! k = None <-> forall x, x ∈ l -> i_key x <> k.
Proof.
  rewrite <- not_elem_of_list_to_map, keys_of, list_elem_of_fmap. split.
  - intros H x Hx <-. apply H. by exists x.
  - intros H (x & -> & Hx). by apply (H x).
Qed.

Lemma contents_size l : NoDup (i_key <$> l) -> size (list_to_map (pair_of <$> l) : gmap Z positive) = length l.
Proof.
  intros Hd. rewrite <- length_map_to_list, map_to_list_to_map by (by rewrite keys_of). apply length_fmap.
Qed.

Lemma value_of_ok t (l : list (@item positive)) x : tree_inv t l -> x ∈ l -> value_of t (Some (i_addr x)) = Ok (Some (i_value x)).
Proof. intros Ht Hx. exact (value_at_ok t l x Ht Hx). Qed.

Lemma values_of_ok t l l' :
  tree_inv t l -> (forall x, x ∈ l' -> x ∈ l) -> values_of t (i_addr <$> l') = Ok (i_value <$> l').
Proof.
  intros Ht Hl. induction l' as [|x l' IH]; [done|]. cbn [fmap list_fmap values_of].
  pose proof (value_of_ok t l x Ht (Hl x ltac:(left))) as Hv. cbn [value_of] in Hv.
  destruct (deref t (Some (i_addr x))) as [n|f]; cbn [res_bind] in *; [|done]. injection Hv as ->.
  rewrite IH by (intros y Hy; apply Hl; by right). done.
Qed.

Lemma visit_walk n t i : visit n t i = walk n t i.
Proof.
  revert i. induction n as [|n IH]; intros i; [done|]. cbn [visit walk].
  destruct (i.1); [|done]. destruct (iterator_next t i); [|done]. cbn [res_bind]. by rewrite IH.
Qed.

Lemma turns_enough (t : RedBlackTree positive) l : tree_inv t l -> (length l <= turns t)%nat.
Proof. intros [(T & H & _ & <-) _ _ _]. rewrite (turns_rep _ _ _ _ H). cbn. lia. Qed.

Lemma insort_perm x (l : list (@item positive)) : insort x l ≡ₚ x :: l.
Proof.
  induction l as [|y l IH]; [done|]. cbn [insort]. destruct (_ <? _); [done|]. rewrite IH. constructor.
Qed.

#[global] Instance region_tree_laws : OrderedMapLaws (RedBlackTree positive).
Proof.
  refine {| om_is := holds |}.
  - exists []. split; [apply empty_inv|]. split; [constructor|done].
  - intros t c k (l & Ht & Hd & ->). cbn [om_find region_tree].
    destruct (find_ok t l k Ht) as [(x & -> & Hx & Hk)|[-> Hn]]; cbn [res_bind].
    + rewrite (value_of_ok t l x Ht Hx). f_equal. symmetry. apply contents; [done|]. by exists x.
    + cbn [value_of]. f_equal. symmetry. by apply contents_none.
  - intros t c k (l & Ht & Hd & ->). cbn [om_find_largest_not_above region_tree].
    destruct (find_largest_not_above_ok t l k Ht) as (o & -> & Ho). cbn [res_bind].
    destruct o as [x|]; cbn [fmap option_fmap option_map largest_not_above] in *.
    + destruct Ho as (Hx & Hk & Hm). exists (Some (i_value x)). split; [by apply (value_of_ok t l)|].
      exists (i_key x). split; [apply contents; [done|]; by exists x|]. split; [done|].
      intros i w (y & Hy & <- & _)%contents; [by apply Hm|done].
    + exists None. split; [done|]. intros i w (y & Hy & <- & _)%contents; [by apply Ho|done].
  - intros t c k v (l & Ht & Hd & ->) Hn Hs. cbn [om_insert region_tree].
    rewrite contents_size in Hs by done.
    destruct (tree_insert_ok t l (fresh (dom (store t))) k v Ht) as (t' & -> & Ht');
      [apply not_elem_of_dom, is_fresh|lia|]. exists t'. split; [done|].
    eexists. split; [done|]. split.
    + rewrite insort_perm. cbn. constructor; [|done]. rewrite list_elem_of_fmap. intros (x & Hk & Hx).
      apply (proj1 (contents_none l k) Hn x Hx). done.
    + transitivity (list_to_map (pair_of <$> mkItem (fresh (dom (store t))) k v :: l) : gmap Z positive); [done|].
      apply list_to_map_proper; [|by rewrite insort_perm].
      rewrite keys_of. cbn. constructor; [|done]. rewrite list_elem_of_fmap. intros (x & Hk & Hx).
      apply (proj1 (contents_none l k) Hn x Hx). done.
  - intros t c k v (l & Ht & Hd & ->) Hk Hs. cbn [om_unsafe_remove region_tree]. unfold unsafe_remove.
    rewrite contents_size in Hs by done.
    destruct (find_unlink_ok t l k Ht Hs) as [(u & x & w & t' & -> & -> & Hx & (n & En & Ev) & E & Ht')|[_ Hno]].
    + cbn [res_bind]. rewrite bool_decide_true by done. cbn [verify res_bind]. rewrite En. cbn [res_bind].
      rewrite E. cbn [res_bind]. exists t'. split.
      * do 2 f_equal. rewrite Ev. apply contents in Hk as (y & Hy & Hyk & <-); [|done].
        assert (x = y) as ->; [|done]. apply list_elem_of_lookup in Hy as [j Hj].
        assert ((u ++ x :: w) !! length u = Some x) as Hu by (by rewrite list_lookup_middle).
        enough (length u = j) as <- by congruence.
        eapply NoDup_lookup; [exact Hd|by rewrite list_lookup_fmap, Hu|rewrite list_lookup_fmap, Hj; cbn; congruence].
      * exists (u ++ w). rewrite fmap_app in Hd. cbn in Hd. rewrite <- Permutation_middle in Hd.
        apply NoDup_cons in Hd as [Hn Hd]. split; [done|]. rewrite fmap_app. split; [done|].
        rewrite <- fmap_app in Hn, Hd. transitivity (delete k (list_to_map (pair_of <$> x :: u ++ w) : gmap Z positive)).
        -- f_equal. apply list_to_map_proper; [|by rewrite <- Permutation_middle].
           rewrite keys_of. rewrite fmap_app. cbn. rewrite <- Permutation_middle, <- fmap_app. by constructor.
        -- cbn. rewrite Hx. apply delete_insert_id. apply contents_none. intros y Hy Hyk.
           apply Hn. rewrite list_elem_of_fmap. exists y. split; [congruence|done].
    + apply contents in Hk as (x & Hx & Hxk & _); [|done]. by destruct (Hno x Hx).
  - intros t c k v (l & Ht & Hd & ->) Hk. cbn [om_from region_tree]. unfold begin_from.
    apply contents in Hk as (y & Hy & Hyk & _); [|done].
    destruct (find_ok t l k Ht) as [(x & E & Hx & Hxk)|[_ Hno]]; [|by destruct (Hno y Hy)].
    unfold find in E. rewrite E. cbn [res_bind]. apply list_elem_of_split in Hx as (a & b & ->).
    rewrite visit_walk. change (Some (i_addr x), None) with (first (x :: b), @None ptr).
    rewrite (walk_ok t (a ++ x :: b) _ a (x :: b)); [|done|done|].
    2: { pose proof (turns_enough _ _ Ht). rewrite length_app in *. cbn in *. lia. }
    cbn [res_bind]. rewrite (values_of_ok t (a ++ x :: b) (x :: b) Ht)
      by (intros z Hz; apply elem_of_app; by right).
    exists (pair_of <$> x :: b). split; [f_equal; by rewrite <- list_fmap_compose|].
    pose proof (ti_ordered _ _ Ht) as (_ & Ho & Hab)%ordered_app.
    apply StronglySorted_inv in Ho as [_ Ho]. rewrite Forall_forall in Ho.
    intros i w. rewrite contents by done. rewrite list_elem_of_fmap. split.
    + intros (z & [= -> ->] & Hz). split; [exists z; split; [apply elem_of_app; by right|done]|].
      apply elem_of_cons in Hz as [-> |Hz]; [lia|]. rewrite <- Hxk. by apply Ho.
    + intros ((z & Hz & <- & <-) & Hkz). exists z. split; [done|].
      apply elem_of_app in Hz as [Hz|Hz]; [exfalso|done].
      specialize (Hab z x Hz ltac:(left)). rewrite fmap_app in Hd. apply NoDup_app in Hd as (_ & Hd & _).
      apply (Hd (i_key z)); [apply list_elem_of_fmap; by exists z|].
      cbn. rewrite (Z.le_antisymm _ _ Hab ltac:(lia)). left.
  - intros t c (l & Ht & Hd & ->) Hne. cbn [om_items region_tree].
    destruct l as [|x l]; [done|]. pose proof (ti_minimum _ _ Ht) as Hm. cbn in Hm. unfold begin. rewrite Hm.
    rewrite visit_walk. change (Some (i_addr x), None) with (first (x :: l), @None ptr).
    rewrite (walk_ok t (x :: l) _ [] (x :: l)); [|done|done|by apply turns_enough].
    cbn [res_bind]. rewrite (values_of_ok t (x :: l) (x :: l) Ht) by done.
    exists (pair_of <$> x :: l). split; [f_equal; by rewrite <- list_fmap_compose|].
    rewrite map_to_list_to_map by (by rewrite keys_of). done.
Defined.

End RegionTree.

Module Space.
Import VirtualAddress Range RangeAllocator VMObject Region.

(** A present page table entry. *)
Record pte := mkPte { writable : bool; executable : bool; user_allowed : bool }.

Section Space.
Context {M : Type} `{OrderedMap M}.

Record Space := mkSpace {
  m_regions : M;
  m_objects : gmap positive Region;
  m_vmobjects : gmap positive VMObject;
  m_shared_vmobjects : gmap positive positive;
  m_range_allocator : RangeAllocator;
  m_identity_range_allocator : RangeAllocator;
  m_ptes : gmap Z pte;
  m_cache_range : option Range;
  m_cache_region : option positive;
  m_enforces_syscall_regions : bool;
}.

Definition with_regions (s : Space) (t : M) : Space :=
  mkSpace t (m_objects s) (m_vmobjects s) (m_shared_vmobjects s) (m_range_allocator s)
    (m_identity_range_allocator s) (m_ptes s) (m_cache_range s) (m_cache_region s)
    (m_enforces_syscall_regions s).

Definition with_objects (s : Space) (o : gmap positive Region) : Space :=
  mkSpace (m_regions s) o (m_vmobjects s) (m_shared_vmobjects s) (m_range_allocator s)
    (m_identity_range_allocator s) (m_ptes s) (m_cache_range s) (m_cache_region s)
    (m_enforces_syscall_regions s).

Definition with_vmobjects (s : Space) (v : gmap positive VMObject) (sh : gmap positive positive) : Space :=
  mkSpace (m_regions s) (m_objects s) v sh (m_range_allocator s)
    (m_identity_range_allocator s) (m_ptes s) (m_cache_range s) (m_cache_region s)
    (m_enforces_syscall_regions s).

Definition with_allocators (s : Space) (a i : RangeAllocator) : Space :=
  mkSpace (m_regions s) (m_objects s) (m_vmobjects s) (m_shared_vmobjects s) a i (m_ptes s)
    (m_cache_range s) (m_cache_region s) (m_enforces_syscall_regions s).

Definition with_ptes (s : Space) (p : gmap Z pte) : Space :=
  mkSpace (m_regions s) (m_objects s) (m_vmobjects s) (m_shared_vmobjects s) (m_range_allocator s)
    (m_identity_range_allocator s) p (m_cache_range s) (m_cache_region s)
    (m_enforces_syscall_regions s).

Definition with_cache (s : Space) (range : option Range) (region : option positive) : Space :=
  mkSpace (m_regions s) (m_objects s) (m_vmobjects s) (m_shared_vmobjects s) (m_range_allocator s)
    (m_identity_range_allocator s) (m_ptes s) range region (m_enforces_syscall_regions s).

(** A new address space over the range of a page directory. *)
Definition create (a : RangeAllocator) : Space :=
  mkSpace om_empty ∅ ∅ ∅ a RangeAllocator.make ∅ None None false.

Definition region_at (s : Space) (id : positive) : res Region :=
  of_opt UndefinedBehaviour (m_objects s !! id).

Definition vmobject_at (s : Space) (id : positive) : res VMObject :=
  of_opt UndefinedBehaviour (m_vmobjects s !! id).

Definition update_region (s : Space) (id : positive) (f : Region -> Region) : res Space :=
  let* r := region_at s id in
  Ok (with_objects s (<[id := f r]> (m_objects s))).

(** ** Operations of Region *)

(** [Region::create_user_accessible]: the object and its identifier. *)
Definition create_user_accessible (s : Space) (range : Range) (vmobject : positive) (offset_in_vmobject : Z)
    (name : string) (access : Z) (cacheable shared : bool) : res (Space * positive) :=
  let* r := new_region range vmobject offset_in_vmobject name access cacheable shared in
  let id := fresh (dom (m_objects s)) in
  Ok (with_objects s (<[id := r]> (m_objects s)), id).

(** [Region::should_cow] *)
Definition region_should_cow (s : Space) (r : Region) (page_index : Z) : res bool :=
  let* vm := vmobject_at s (m_vmobject r) in
  if negb (is_anonymous vm) then Ok false
  else should_cow vm (Z.to_nat (first_page_index r + page_index)) (m_shared r).

(** [Region::set_should_cow] *)
Definition region_set_should_cow (s : Space) (r : Region) (page_index : Z) (cow : bool) : res Space :=
  VERIFY negb (m_shared r) ;;
  let* vm := vmobject_at s (m_vmobject r) in
  if is_anonymous vm then
    let* vm := set_should_cow vm (Z.to_nat (first_page_index r + page_index)) cow in
    Ok (with_vmobjects s (<[m_vmobject r := vm]> (m_vmobjects s)) (m_shared_vmobjects s))
  else Ok s.

(** Whether a page table for an address is there or can be allocated. *)
Context (ensure_pte : Z -> bool).

(** [Region::map_individual_page_impl]; the processor has the NX feature. *)
Definition map_individual_page_impl (s : Space) (r : Region) (page_index : Z) : res (Space * bool) :=
  let page_vaddr := vaddr_from_page_index r page_index in
  let user_allowed := (0x00800000 <=? page_vaddr) && (page_vaddr <? 0xc0000000) in
  VERIFY negb (m_mmap r && negb user_allowed) ;;
  if negb (ensure_pte page_vaddr) then Ok (s, false)
  else
    VERIFY page_index <? region_page_count r ;;
    let* vm := vmobject_at s (m_vmobject r) in
    let* page := Vector.at_ (m_physical_pages vm) (Z.to_nat (first_page_index r + page_index)) in
    if bool_decide (page = NoPage) || (negb (is_readable r) && negb (is_writable r)) then
      Ok (with_ptes s (delete page_vaddr (m_ptes s)), true)
    else
      let* cow := if is_special page then Ok true else region_should_cow s r page_index in
      Ok (with_ptes s
            (<[page_vaddr := mkPte (if cow : bool then false else is_writable r) (is_executable r)
                               user_allowed]> (m_ptes s)), true).

(** The loop of [Region::map] over the pages from [page_index] on: the number of
    pages that were mapped. *)
Fixpoint map_pages (n : nat) (s : Space) (r : Region) (page_index : Z) : res (Space * Z) :=
  match n with
  | O => Ok (s, page_index)
  | S n =>
      let* (s, mapped) := map_individual_page_impl s r page_index in
      if mapped : bool then map_pages n s r (page_index + 1) else Ok (s, page_index)
  end.

(** [Region::map]: [true] when every page was mapped. *)
Definition map (s : Space) (id : positive) : res (Space * bool) :=
  let* r := region_at s id in
  let* vm := vmobject_at s (m_vmobject r) in
  VERIFY negb (is_user r && negb (m_shared r) && is_shared_inode vm) ;;
  let* s := update_region s id (fun r => with_mapped r true) in
  let* (s, page_index) := map_pages (Z.to_nat (region_page_count r)) s r 0 in
  Ok (s, if 0 <? page_index then page_index =? region_page_count r else false).

(** The loop of [Region::do_remap_vmobject_page_range] from [index] up to [stop]. *)
Fixpoint remap_pages (n : nat) (s : Space) (r : Region) (index stop : Z) : res (Space * bool) :=
  match n with
  | O => Fault OutOfFuel
  | S n =>
      if index <? stop then
        let* (s, mapped) := map_individual_page_impl s r index in
        if mapped : bool then remap_pages n s r (wrap size_t (index + 1)) stop else Ok (s, false)
      else Ok (s, true)
  end.

(** [Region::do_remap_vmobject_page_range]; the loop takes no more turns than the
    region has pages, and one to stop. *)
Definition do_remap_vmobject_page_range (s : Space) (id : positive) (page_index page_count : Z)
    : res (Space * bool) :=
  let* r := region_at s id in
  if negb (m_mapped r) then Ok (s, true)
  else
    let '(page_index, page_count, mapped) := translate_vmobject_page_range r page_index page_count in
    if negb mapped then Ok (s, true)
    else
      remap_pages (S (Z.to_nat (region_page_count r))) s r page_index (wrap size_t (page_index + page_count)).

(** [Region::do_remap_vmobject_page]; [physical_page] must not be null. *)
Definition do_remap_vmobject_page (s : Space) (id : positive) (page_index : Z) : res (Space * bool) :=
  let* r := region_at s id in
  if negb (m_mapped r) then Ok (s, true)
  else
    let '(page_index, mapped) := translate_vmobject_page r page_index in
    if negb mapped then Ok (s, true)
    else
      VERIFY page_index <? region_page_count r ;;
      let* vm := vmobject_at s (m_vmobject r) in
      let* page := Vector.at_ (m_physical_pages vm) (Z.to_nat (first_page_index r + page_index)) in
      VERIFY negb (bool_decide (page = NoPage)) ;;
      map_individual_page_impl s r page_index.

(** The loop over the pages of [Region::unmap]. *)
Fixpoint release_ptes (n : nat) (s : Space) (r : Region) (page_index : Z) : Space :=
  match n with
  | O => s
  | S n => release_ptes n (with_ptes s (delete (vaddr_from_page_index r page_index) (m_ptes s))) r (page_index + 1)
  end.

(** [Region::unmap] *)
Definition unmap (s : Space) (id : positive) (deallocate_range : bool) : res Space :=
  let* r := region_at s id in
  if negb (m_mapped r) then Ok s
  else
    let s := release_ptes (Z.to_nat (region_page_count r)) s r 0 in
    let* s :=
      if deallocate_range then
        if allocator_contains (m_range_allocator s) (m_range r) then
          let* a := deallocate (m_range_allocator s) (m_range r) in
          Ok (with_allocators s a (m_identity_range_allocator s))
        else
          let* i := deallocate (m_identity_range_allocator s) (m_range r) in
          Ok (with_allocators s (m_range_allocator s) i)
      else Ok s in
    update_region s id (fun r => with_mapped r false).

(** [~Region]; the weak pointer of the lookup cache no longer points to it. *)
Definition destroy_region (s : Space) (id : positive) : res Space :=
  let* r := region_at s id in
  let* s := if m_mapped r then unmap s id true else Ok s in
  let s := with_objects s (delete id (m_objects s)) in
  Ok (if bool_decide (m_cache_region s = Some id) then with_cache s (m_cache_range s) None else s).

(** [Region::remap] *)
Definition remap (s : Space) (id : positive) : res Space :=
  let* r := region_at s id in
  VERIFY m_mapped r ;;
  let* (s, _) := map s id in
  Ok s.

(** ** Operations of Space *)

Definition add_region (s : Space) (id : positive) : res Space :=
  let* r := region_at s id in
  let* t := om_insert (m_regions s) (vaddr r) id in
  Ok (with_regions s t).

(** [PAGE_MASK] *)
Definition PAGE_MASK : Z := 0xfffff000.

Definition allocate_range (s : Space) (a size_ alignment : Z) : res (Space * option Range) :=
  let a := Z.land a PAGE_MASK in
  let* size_ := page_round_up size_ in
  let* (al, range) :=
    if is_null a then allocate_anywhere (m_range_allocator s) size_ alignment
    else allocate_specific (m_range_allocator s) a size_ in
  Ok (with_allocators s al (m_identity_range_allocator s), range).

(** The region that is taken out of the container, or nothing. *)
Definition take_region (s : Space) (id : positive) : res (Space * option positive) :=
  let* r := region_at s id in
  let s := if bool_decide (m_cache_region s = Some id) then with_cache s (m_cache_range s) None else s in
  let* found := om_find (m_regions s) (vaddr r) in
  match found with
  | None => Ok (s, None)
  | Some found =>
      if bool_decide (found <> id) then Ok (s, None)
      else
        let* (t, id) := om_unsafe_remove (m_regions s) (vaddr r) in
        Ok (with_regions s t, Some id)
  end.

(** The region is destroyed with the pointer that [take_region] returns. *)
Definition deallocate_region (s : Space) (id : positive) : res (Space * bool) :=
  let* (s, region) := take_region s id in
  match region with
  | None => Ok (s, false)
  | Some id => let* s := destroy_region s id in Ok (s, true)
  end.

(** [find_region_from_range] after a miss of the lookup cache. *)
Definition lookup_region (s : Space) (range : Range) : res (Space * option positive) :=
  let* found := om_find (m_regions s) (base range) in
  match found with
  | None => Ok (s, None)
  | Some id =>
      let* r := region_at s id in
      let* size_ := page_round_up (size range) in
      if negb (region_size r =? size_) then Ok (s, None)
      else Ok (with_cache s (Some range) (Some id), Some id)
  end.

Definition find_region_from_range (s : Space) (range : Range) : res (Space * option positive) :=
  match m_cache_range s, m_cache_region s with
  | Some cached, Some id =>
      if op_eq cached range then Ok (s, Some id) else lookup_region s range
  | _, _ => lookup_region s range
  end.

Definition find_region_containing (s : Space) (range : Range) : res (option positive) :=
  let* candidate := om_find_largest_not_above (m_regions s) (base range) in
  match candidate with
  | None => Ok None
  | Some id =>
      let* r := region_at s id in
      Ok (if contains (m_range r) range then Some id else None)
  end.

(** The loop over the regions from the first candidate on. *)
Fixpoint collect_intersecting (s : Space) (ids : list positive) (range : Range)
    (regions : list positive) (total_size_collected : Z) : res (list positive) :=
  match ids with
  | [] => Ok regions
  | id :: ids =>
      let* r := region_at s id in
      if (base (m_range r) <? end_ range) && (base range <? end_ (m_range r)) then
        let regions := regions ++ [id] in
        let* i := intersect (m_range r) range in
        let total := wrap size_t (total_size_collected + wrap size_t (region_size r - size i)) in
        if total =? size range then Ok regions
        else collect_intersecting s ids range regions total
      else collect_intersecting s ids range regions total_size_collected
  end.

Definition find_regions_intersecting (s : Space) (range : Range) : res (list positive) :=
  let* found := om_find_largest_not_above (m_regions s) (base range) in
  match found with
  | None => Ok []
  | Some id =>
      let* r := region_at s id in
      let* ids := om_from (m_regions s) (vaddr r) in
      collect_intersecting s ids range [] 0
  end.


(** The loop of [allocate_split_region] that copies the copy-on-write marks. *)
Fixpoint copy_cow (n : nat) (s : Space) (source_region region : Region)
    (page_offset_in_source_region i : Z) : res Space :=
  match n with
  | O => Ok s
  | S n =>
      let* cow := region_should_cow s source_region (page_offset_in_source_region + i) in
      let* s := if cow : bool then region_set_should_cow s region i true else Ok s in
      copy_cow n s source_region region page_offset_in_source_region (i + 1)
  end.

Definition allocate_split_region (s : Space) (source_region : Region) (range : Range)
    (offset_in_vmobject : Z) : res (Space * positive) :=
  let* (s, id) := create_user_accessible s range (m_vmobject source_region) offset_in_vmobject
                    (m_name source_region) (m_access source_region) (m_cacheable source_region)
                    (m_shared source_region) in
  let* s := add_region s id in
  let* s := update_region s id (fun r =>
    set_stack (set_mmap (set_syscall_region r (m_syscall_region source_region)) (m_mmap source_region))
      (m_stack source_region)) in
  let* region := region_at s id in
  let page_offset_in_source_region :=
    wrap size_t (offset_in_vmobject - m_offset_in_vmobject source_region) / PAGE_SIZE in
  let* s := copy_cow (Z.to_nat (region_page_count region)) s source_region region
              page_offset_in_source_region 0 in
  Ok (s, id).

(** The regions for the ranges that are left. *)
Fixpoint make_replacement_regions (s : Space) (source_region : Region) (ranges : list Range)
    : res (Space * list positive) :=
  match ranges with
  | [] => Ok (s, [])
  | new_range :: ranges =>
      VERIFY contains (m_range source_region) new_range ;;
      let new_range_offset_in_vmobject :=
        wrap size_t (m_offset_in_vmobject source_region
                     + wrap size_t (base new_range - base (m_range source_region))) in
      let* (s, id) := allocate_split_region s source_region new_range new_range_offset_in_vmobject in
      let* (s, ids) := make_replacement_regions s source_region ranges in
      Ok (s, id :: ids)
  end.

Definition split_region_around_range (s : Space) (source_region : Region) (desired_range : Range)
    : res (Space * list positive) :=
  let* remaining_ranges_after_unmap := carve (m_range source_region) desired_range in
  VERIFY bool_decide (remaining_ranges_after_unmap <> []) ;;
  make_replacement_regions s source_region remaining_ranges_after_unmap.

(** The error codes of this component. *)
Inductive error :=
| EINVAL | ENOMEM | EPERM | EACCES | EFAULT | EBADF | ENODEV | ENAMETOOLONG | ENOTIMPL.

(** [KResultOr] *)
Definition KResultOr (A : Type) : Type := A + error.

Definition new_vmobject (s : Space) (vm : VMObject) : Space * positive :=
  let id := fresh (dom (m_vmobjects s)) in
  (with_vmobjects s (<[id := vm]> (m_vmobjects s)) (m_shared_vmobjects s), id).

(** [committed] says whether the pages could be committed; [reserve] whether the
    strategy asks for it. *)
Definition allocate_region (committed : bool) (s : Space) (range : Range) (name : string) (prot : Z)
    (reserve : bool) : res (Space * KResultOr positive) :=
  VERIFY is_valid range ;;
  if reserve && negb committed then Ok (s, inr ENOMEM)
  else
    let* vm := new_anonymous (size range) reserve in
    let '(s, vmobject) := new_vmobject s vm in
    let* (s, id) := create_user_accessible s range vmobject 0 name (prot_to_region_access_flags prot)
                      true false in
    let* (s, mapped) := map s id in
    if negb mapped then
      let* s := destroy_region s id in
      Ok (s, inr ENOMEM)
    else
      let* s := add_region s id in
      Ok (s, inl id).

Definition allocate_region_with_vmobject (s : Space) (range : Range) (vmobject : positive)
    (offset_in_vmobject : Z) (name : string) (prot : Z) (shared : bool)
    : res (Space * KResultOr positive) :=
  VERIFY is_valid range ;;
  let end_in_vmobject := wrap size_t (offset_in_vmobject + size range) in
  let* vm := vmobject_at s vmobject in
  if end_in_vmobject <=? offset_in_vmobject then Ok (s, inr EINVAL)
  else if vmobject_size vm <=? offset_in_vmobject then Ok (s, inr EINVAL)
  else if vmobject_size vm <? end_in_vmobject then Ok (s, inr EINVAL)
  else
    let offset_in_vmobject := Z.land offset_in_vmobject PAGE_MASK in
    let* (s, id) := create_user_accessible s range vmobject offset_in_vmobject name
                      (prot_to_region_access_flags prot) true shared in
    let* s := add_region s id in
    let* (s, mapped) := map s id in
    if negb mapped then Ok (s, inr ENOMEM) else Ok (s, inl id).

Fixpoint add_sizes (s : Space) (ids : list positive) (amount : Z) : res Z :=
  match ids with
  | [] => Ok amount
  | id :: ids => let* r := region_at s id in add_sizes s ids (wrap size_t (amount + region_size r))
  end.

Definition amount_virtual (s : Space) : res Z :=
  let* ids := om_items (m_regions s) in
  add_sizes s ids 0.

Definition set_enforces_syscall_regions (s : Space) (b : bool) : Space :=
  mkSpace (m_regions s) (m_objects s) (m_vmobjects s) (m_shared_vmobjects s) (m_range_allocator s)
    (m_identity_range_allocator s) (m_ptes s) (m_cache_range s) (m_cache_region s) b.

End Space.
End Space.
