(* ===== verification/SpaceFacts.v ===== *)
(** * Invariants of an address space and what the operations of Space do to them

    [layout] says that the regions of the container are disjoint page ranges of
    the address space, that no address of a region is available to the
    allocator, and that each region maps pages its object has.  [inv] adds the
    container and the lookup cache, [ptes_ok] that a page table entry allows no
    more than the region it belongs to.  The lemmas are proved against the
    interface of the container. *)

From S2P Require Import Prelude Memory Containers RangeAllocator Region Space.
Import VirtualAddress Range RangeAllocator RangeFacts VMObject Region RegionFacts Space.

(** Computes the fields of an updated address space. *)
Ltac fields :=
  cbn [m_regions m_objects m_vmobjects m_shared_vmobjects m_range_allocator m_ptes m_cache_range
       m_cache_region with_regions with_objects with_vmobjects with_allocators with_ptes with_cache] in *.

(** ** Page arithmetic *)

Module PageFacts.

Lemma aligned_range b : 0 <= b < 2 ^ 32 -> b mod PAGE_SIZE = 0 -> is_page_aligned b = true.
Proof.
  intros Hb Ha. unfold is_page_aligned. change 0xfff with (Z.ones 12). rewrite Z.land_ones by lia.
  change (2 ^ 12) with PAGE_SIZE. lia.
Qed.

End PageFacts.
Import PageFacts.

(** ** Invariants *)

Module SpaceFacts.
Section Facts.
Context {M : Type} `{OM : OrderedMap M} `{OL : !OrderedMapLaws M}.
Implicit Types s : Space (M := M).

(** Class and pages of the objects; the copy-on-write marks are left out. *)
Definition shape (v : gmap positive VMObject) : gmap positive (class * list page) :=
  (fun vm => (m_class vm, m_physical_pages vm)) <$> v.

Definition cow_maps_ok (v : gmap positive VMObject) : Prop :=
  forall id vm map, v !! id = Some vm -> m_cow_map vm = Some map -> length map = length (m_physical_pages vm).

(** A region is a page range of the address space with sane access bits that
    maps pages its object has; only shared regions map shared file objects. *)
Record region_good (shapes : gmap positive (class * list page)) (total : Range) (r : Region) : Prop := {
  rg_range : range_ok total (m_range r);
  rg_access : access_ok (m_access r) = true;
  rg_wx : wx_ok (m_access r) = true;
  rg_offset : 0 <= m_offset_in_vmobject r /\ m_offset_in_vmobject r mod PAGE_SIZE = 0 /\
    m_offset_in_vmobject r + region_size r < 2 ^ 32;
  rg_vm : exists c pages, shapes !! m_vmobject r = Some (c, pages) /\
    m_offset_in_vmobject r + region_size r <= PAGE_SIZE * Z.of_nat (length pages) /\
    ((exists i, c = SharedInode i) -> m_shared r = true);
}.

Definition in_region (r : Region) (x : Z) : Prop := in_range (m_range r) x.

Definition disjoint (r r' : Region) : Prop := forall x, in_region r x -> ~ in_region r' x.

(** The container has the region [r] as the object [id]. *)
Definition owns (objs : gmap positive Region) (c : gmap Z positive) (id : positive) (r : Region) : Prop :=
  objs !! id = Some r /\ c !! vaddr r = Some id.

Record layout (objs : gmap positive Region) (shapes : gmap positive (class * list page))
    (a : RangeAllocator) (c : gmap Z positive) : Prop := {
  ly_alloc : alloc_inv a;
  ly_total : 0x00800000 <= m_base (m_total_range a) /\
             m_base (m_total_range a) + m_size (m_total_range a) <= 0xc0000000;
  ly_span : m_size (m_total_range a) <= 2 ^ 31;
  ly_regions : forall k id, c !! k = Some id -> exists r, objs !! id = Some r /\ vaddr r = k;
  ly_good : forall id r, owns objs c id r -> region_good shapes (m_total_range a) r;
  ly_disjoint : forall id r id' r', owns objs c id r -> owns objs c id' r' -> id <> id' -> disjoint r r';
  ly_taken : forall id r x, owns objs c id r -> in_region r x -> ~ is_free a x;
}.

(** The lookup cache finds what the container has. *)
Definition cache_ok (range : option Range) (region : option positive) (objs : gmap positive Region)
    (c : gmap Z positive) : Prop :=
  forall rg id, range = Some rg -> region = Some id ->
    exists r, owns objs c id r /\ base rg = vaddr r /\ page_round_up (size rg) = Ok (region_size r).

Record inv (s : Space (M := M)) (c : gmap Z positive) : Prop := {
  in_tree : om_is (m_regions s) c;
  in_layout : layout (m_objects s) (shape (m_vmobjects s)) (m_range_allocator s) c;
  in_cow : cow_maps_ok (m_vmobjects s);
  in_cache : cache_ok (m_cache_range s) (m_cache_region s) (m_objects s) c;
}.

(** A page table entry allows what its region allows. *)
Definition allows (r : Region) (e : pte) : Prop :=
  (writable e = true -> is_writable r = true) /\ (executable e = true -> is_executable r = true).

(** Every entry is that of a page of a region. *)
Definition ptes_ok (ptes : gmap Z pte) (objs : gmap positive Region) (c : gmap Z positive) : Prop :=
  forall p e, ptes !! p = Some e ->
    p mod PAGE_SIZE = 0 /\ exists id r, owns objs c id r /\ in_region r p /\ allows r e.

(** The objects but those a call is working on are in the container and mapped. *)
Definition settled (s : Space (M := M)) (c : gmap Z positive) (pending : list positive) : Prop :=
  forall id r, m_objects s !! id = Some r ->
    id ∈ pending \/ (owns (m_objects s) c id r /\ m_mapped r = true).

Record state (s : Space (M := M)) (c : gmap Z positive) (pending : list positive) : Prop := {
  st_inv : inv s c;
  st_ptes : ptes_ok (m_ptes s) (m_objects s) c;
  st_settled : settled s c pending;
}.

(** ** Regions *)

Section Good.
Context (shapes : gmap positive (class * list page)) (total : Range) (r : Region).
Context (Htotal : 0x00800000 <= m_base total /\ m_base total + m_size total <= 0xc0000000).
Context (Hgood : region_good shapes total r).

Lemma good_bounds :
  0x00800000 <= vaddr r /\ 0 < region_size r /\ vaddr r + region_size r <= 0xc0000000 /\
  region_size r = PAGE_SIZE * region_page_count r /\ 0 < region_page_count r.
Proof.
  destruct Hgood as [[H1 H2 H3 H4 H5] _ _ _ _]. unfold vaddr, region_page_count, region_size, base, size, PAGE_SIZE in *.
  Z.to_euclidean_division_equations. lia.
Qed.

Lemma page_vaddr i :
  0 <= i < region_page_count r -> vaddr_from_page_index r i = vaddr r + PAGE_SIZE * i.
Proof.
  intros Hi. pose proof good_bounds as (H1 & H2 & H3 & H4 & H5). unfold vaddr_from_page_index, offset, PAGE_SIZE in *.
  rewrite (wrap32 (i * 4096)) by lia. rewrite wrap32 by lia. lia.
Qed.

Lemma page_in_region i : 0 <= i < region_page_count r -> in_region r (vaddr r + PAGE_SIZE * i).
Proof.
  intros Hi. pose proof good_bounds as (H1 & H2 & H3 & H4 & H5).
  unfold in_region, in_range. unfold vaddr, region_size, base, size, PAGE_SIZE in *. lia.
Qed.

End Good.

(** A page of a region by its address. *)
Definition page_of (r : Region) (p : Z) : Prop :=
  exists i, 0 <= i < region_page_count r /\ p = vaddr r + PAGE_SIZE * i.

(** The object of a region has the pages the region maps. *)
Record object_ok (vm : VMObject) (r : Region) : Prop := {
  ob_first : 0 <= first_page_index r;
  ob_pages : first_page_index r + region_page_count r <= Z.of_nat (length (m_physical_pages vm));
  ob_cow : forall map, m_cow_map vm = Some map -> length map = length (m_physical_pages vm);
  ob_shared : is_shared_inode vm = true -> m_shared r = true;
}.

Lemma good_object v total r :
  cow_maps_ok v -> region_good (shape v) total r ->
  exists vm, v !! m_vmobject r = Some vm /\ object_ok vm r.
Proof.
  intros Hcow [_ _ _ (O1 & O2 & _) (c & pages & Hvm & Hlen & Hsh)]. unfold shape in Hvm.
  rewrite lookup_fmap in Hvm. destruct (v !! m_vmobject r) as [vm|] eqn:E; [|done]. injection Hvm as <- <-.
  exists vm. split; [done|]. split.
  - unfold first_page_index, PAGE_SIZE. apply Z.div_pos; lia.
  - unfold first_page_index, region_page_count, PAGE_SIZE in *. Z.to_euclidean_division_equations. lia.
  - intros map. by apply Hcow with (m_vmobject r).
  - intros H1. apply Hsh. unfold is_shared_inode in H1. destruct (m_class vm); try done. by eexists.
Qed.

(** ** Page tables *)

Section Pages.
Context (total : Range) (r : Region) (vm : VMObject).
Context (Htotal : 0x00800000 <= m_base total /\ m_base total + m_size total <= 0xc0000000).
Context (shapes : gmap positive (class * list page)) (Hgood : region_good shapes total r).
Context (Hvm : object_ok vm r).

Lemma should_cow_ok (s : Space (M := M)) i :
  m_vmobjects s !! m_vmobject r = Some vm -> 0 <= i < region_page_count r ->
  exists b, region_should_cow s r i = Ok b /\
    (b = true -> m_shared r = true -> is_anonymous vm = true).
Proof using Hvm.
  intros Hs Hi. destruct Hvm as [H1 H2 H3 _]. unfold region_should_cow, vmobject_at. rewrite Hs. cbn [of_opt res_bind].
  destruct (is_anonymous vm) eqn:E; cbn [negb]; [|by exists false].
  unfold should_cow, Vector.at_.
  destruct (lookup_lt_is_Some_2 (m_physical_pages vm) (Z.to_nat (first_page_index r + i))) as [p ->]; [lia|].
  cbn [of_opt res_bind]. destruct (is_special p); [by exists true|]. destruct (m_shared r); [by exists false|].
  destruct (m_cow_map vm) as [map|] eqn:Em; [|by exists false].
  destruct (lookup_lt_is_Some_2 map (Z.to_nat (first_page_index r + i))) as [b ->];
    [rewrite (H3 map) by done; lia|]. by exists b.
Qed.

Context (ensure_pte : Z -> bool) (Hpte : forall a, ensure_pte a = true).

Lemma map_page_ok (s : Space (M := M)) i :
  m_vmobjects s !! m_vmobject r = Some vm -> 0 <= i < region_page_count r ->
  exists o, map_individual_page_impl ensure_pte s r i =
      Ok (with_ptes s (partial_alter (fun _ => o) (vaddr r + PAGE_SIZE * i) (m_ptes s)), true) /\
    forall e, o = Some e -> allows r e.
Proof using All.
  intros Hs Hi. unfold map_individual_page_impl. rewrite (page_vaddr shapes total r Htotal Hgood i Hi).
  pose proof (good_bounds shapes total r Htotal Hgood) as (B1 & B2 & B3 & B4 & B5).
  replace ((_ <=? _) && _) with true by (unfold PAGE_SIZE in *; lia). cbn [negb]. rewrite andb_false_r. cbn [negb verify res_bind].
  rewrite Hpte. cbn [negb]. replace (i <? _) with true by lia. cbn [verify res_bind].
  destruct (should_cow_ok s i Hs Hi) as (b & Hb & _).
  pose proof (ob_pages _ _ Hvm). pose proof (ob_first _ _ Hvm).
  unfold vmobject_at. rewrite Hs. cbn [of_opt res_bind]. unfold Vector.at_.
  destruct (lookup_lt_is_Some_2 (m_physical_pages vm) (Z.to_nat (first_page_index r + i))) as [p ->]; [lia|].
  cbn [of_opt res_bind]. destruct (_ || _); [by exists None|].
  assert (exists b, (if is_special p then Ok true else region_should_cow s r i) = Ok b) as [b' ->]
    by (destruct (is_special p); eauto).
  cbn [res_bind]. eexists (Some _). split; [done|]. intros e [= <-]. split; cbn; [by destruct b'|done].
Qed.

(** What the page tables hold after the pages from [i] on were mapped. *)
Definition mapped_from (i : Z) (old new : gmap Z pte) : Prop :=
  forall p e, new !! p = Some e ->
    (page_of r p /\ allows r e) \/
    (old !! p = Some e /\ forall j, i <= j < region_page_count r -> p <> vaddr r + PAGE_SIZE * j).

Lemma map_pages_ok n (s : Space (M := M)) i :
  m_vmobjects s !! m_vmobject r = Some vm -> 0 <= i -> i + Z.of_nat n = region_page_count r ->
  exists P, map_pages ensure_pte n s r i = Ok (with_ptes s P, region_page_count r) /\
    mapped_from i (m_ptes s) P.
Proof using All.
  revert s i. induction n as [|n IH]; intros s i Hs Hi Hn; cbn [map_pages].
  { exists (m_ptes s). split; [do 2 f_equal; [by destruct s|lia]|]. intros p e Hp. right. split; [done|]. lia. }
  destruct (map_page_ok s i Hs ltac:(lia)) as (o & -> & Ho). cbn [res_bind].
  destruct (IH (with_ptes s (partial_alter (fun _ => o) (vaddr r + PAGE_SIZE * i) (m_ptes s))) (i + 1))
    as (P & -> & HP); [done|lia|lia|]. exists P. split; [done|]. intros p e Hp.
  destruct (HP p e Hp) as [?|[Hold Hne]]; [by left|]. cbn [m_ptes with_ptes] in Hold.
  destruct (decide (p = vaddr r + PAGE_SIZE * i)) as [-> |Hpi].
  - rewrite lookup_partial_alter_eq in Hold. left. split; [|by apply Ho]. exists i. split; [lia|done].
  - rewrite lookup_partial_alter_ne in Hold by done. right. split; [done|]. intros j Hj.
    destruct (Z.eq_dec j i) as [-> |]; [done|]. apply Hne. lia.
Qed.

Lemma release_ptes_ok n (s : Space (M := M)) i :
  0 <= i -> i + Z.of_nat n = region_page_count r ->
  exists P, release_ptes n s r i = with_ptes s P /\
    forall p e, P !! p = Some e ->
      m_ptes s !! p = Some e /\ forall j, i <= j < region_page_count r -> p <> vaddr r + PAGE_SIZE * j.
Proof using Htotal Hgood.
  revert s i. induction n as [|n IH]; intros s i Hi Hn; cbn [release_ptes].
  { exists (m_ptes s). split; [by destruct s|]. intros p e Hp. split; [done|]. lia. }
  rewrite (page_vaddr shapes total r Htotal Hgood) by lia.
  destruct (IH (with_ptes s (delete (vaddr r + PAGE_SIZE * i) (m_ptes s))) (i + 1)) as (P & -> & HP); [lia|lia|].
  exists P. split; [done|]. intros p e Hp. destruct (HP p e Hp) as [Hold Hne]. cbn [m_ptes with_ptes] in Hold.
  apply lookup_delete_Some in Hold as [Hpi Hold]. split; [done|]. intros j Hj.
  destruct (Z.eq_dec j i) as [-> |]; [done|]. apply Hne. lia.
Qed.

End Pages.

(** ** What changes of the objects and the container do to the regions *)

Definition loose (c : gmap Z positive) (id : positive) : Prop := forall k, c !! k <> Some id.

Section Owns.
Context (objs : gmap positive Region) (c : gmap Z positive).
Context (Hreg : forall k id, c !! k = Some id -> exists r, objs !! id = Some r /\ vaddr r = k).

Lemma fresh_loose id : objs !! id = None -> loose c id.
Proof using Hreg. intros Hn k Hk. destruct (Hreg k id Hk) as (r & Hr & _). congruence. Qed.

Lemma owns_fun id r r' : owns objs c id r -> owns objs c id r' -> r = r'.
Proof using. intros [H1 _] [H2 _]. congruence. Qed.

Lemma owns_add id r id' r' :
  objs !! id = None -> c !! vaddr r = None ->
  owns (<[id := r]> objs) (<[vaddr r := id]> c) id' r' <->
  (id' = id /\ r' = r) \/ owns objs c id' r'.
Proof using Hreg.
  intros Hn Hk. unfold owns. destruct (decide (id' = id)) as [-> |Hid].
  - rewrite lookup_insert_eq. split.
    + intros [[= <-] _]. by left.
    + intros [[_ ->] |[H' _]]; [|congruence]. by rewrite lookup_insert_eq.
  - rewrite lookup_insert_ne by done. destruct (decide (vaddr r' = vaddr r)) as [E|E].
    + rewrite E, lookup_insert_eq. split; [intros [_ [= ->]]; done|]. intros [[-> _] |[_ H']]; [done|congruence].
    + rewrite lookup_insert_ne by done. split; [by right|]. intros [[-> _] |?]; done.
Qed.

Lemma owns_remove id r id' r' :
  owns objs c id r -> owns objs (delete (vaddr r) c) id' r' <-> owns objs c id' r' /\ id' <> id.
Proof using.
  intros [Hr Hk]. unfold owns. destruct (decide (vaddr r' = vaddr r)) as [E|E].
  - rewrite E, lookup_delete_eq. split; [intros [_ ?]; done|]. intros [[_ H'] Hid]. congruence.
  - rewrite lookup_delete_ne by done. split; [|tauto]. intros [H1 H2]. split; [done|]. intros ->. congruence.
Qed.

Lemma owns_update id r new id' r' :
  owns objs c id r -> vaddr new = vaddr r ->
  owns (<[id := new]> objs) c id' r' <-> (id' = id /\ r' = new) \/ (owns objs c id' r' /\ id' <> id).
Proof using.
  intros [Hr Hk] Hv. unfold owns. destruct (decide (id' = id)) as [-> |Hid].
  - rewrite lookup_insert_eq. split; [intros [[= <-] _]; by left|]. intros [[_ ->] |[_ ?]]; [|done].
    by rewrite Hv.
  - rewrite lookup_insert_ne by done. split; [by right; tauto|]. intros [[-> _] |[? _]]; done.
Qed.

Lemma owns_loose id new id' r' :
  loose c id -> owns (<[id := new]> objs) c id' r' <-> owns objs c id' r'.
Proof using.
  intros Hl. unfold owns. destruct (decide (id' = id)) as [-> |Hid].
  - split; intros [_ H']; by apply Hl in H'.
  - by rewrite lookup_insert_ne.
Qed.

Lemma owns_drop id id' r' : loose c id -> owns (delete id objs) c id' r' <-> owns objs c id' r'.
Proof using.
  intros Hl. unfold owns. destruct (decide (id' = id)) as [-> |Hid].
  - split; intros [_ H']; by apply Hl in H'.
  - by rewrite lookup_delete_ne.
Qed.

End Owns.

(** The layout depends only on the regions, and on what is free among them. *)
Lemma layout_regions objs objs' shapes a c :
  layout objs shapes a c ->
  (forall k id, c !! k = Some id -> exists r, objs' !! id = Some r /\ vaddr r = k) ->
  (forall id r, owns objs' c id r -> owns objs c id r) ->
  layout objs' shapes a c.
Proof.
  intros [L1 L2 L2' L3 L4 L5 L6] Hr Ho. split; eauto 6.
Qed.

Lemma regions_loose (objs : gmap positive Region) c id new :
  (forall k i, c !! k = Some i -> exists r, objs !! i = Some r /\ vaddr r = k) -> loose c id ->
  forall k i, c !! k = Some i -> exists r, <[id := new]> objs !! i = Some r /\ vaddr r = k.
Proof.
  intros Hr Hl k i Hk. rewrite lookup_insert_ne by (intros ->; by apply Hl in Hk). by apply Hr.
Qed.

Lemma regions_drop (objs : gmap positive Region) (c : gmap Z positive) id :
  (forall k i, c !! k = Some i -> exists r, objs !! i = Some r /\ vaddr r = k) -> loose c id ->
  forall k i, c !! k = Some i -> exists r, delete id objs !! i = Some r /\ vaddr r = k.
Proof.
  intros Hr Hl k i Hk. rewrite lookup_delete_ne by (intros ->; by apply Hl in Hk). by apply Hr.
Qed.

Lemma layout_loose objs shapes a c id new :
  layout objs shapes a c -> loose c id -> layout (<[id := new]> objs) shapes a c.
Proof.
  intros L Hl. apply layout_regions with objs; [done| |intros i r; by apply owns_loose].
  apply regions_loose; [apply L|done].
Qed.

Lemma layout_drop objs shapes a c id :
  layout objs shapes a c -> loose c id -> layout (delete id objs) shapes a c.
Proof.
  intros L Hl. apply layout_regions with objs; [done| |intros i r; by apply owns_drop].
  apply regions_drop; [apply L|done].
Qed.

Lemma layout_add objs shapes a c id r :
  layout objs shapes a c -> objs !! id = None -> region_good shapes (m_total_range a) r ->
  (forall id' r', owns objs c id' r' -> disjoint r r') -> (forall x, in_region r x -> ~ is_free a x) ->
  c !! vaddr r = None /\ layout (<[id := r]> objs) shapes a (<[vaddr r := id]> c).
Proof.
  intros L Hn Hgood Hd Hf. pose proof (ly_regions _ _ _ _ L) as Hreg.
  assert (c !! vaddr r = None) as Hk.
  { destruct (c !! vaddr r) as [id'|] eqn:E; [exfalso|done]. destruct (Hreg _ _ E) as (r' & Hr' & Hv).
    assert (owns objs c id' r') as Ho by (split; [done|by rewrite Hv]).
    pose proof (good_bounds _ _ _ (ly_total _ _ _ _ L) Hgood) as (_ & B & _).
    pose proof (good_bounds _ _ _ (ly_total _ _ _ _ L) (ly_good _ _ _ _ L _ _ Ho)) as (_ & B' & _).
    apply (Hd id' r' Ho (vaddr r)); unfold in_region, in_range, vaddr, region_size, base, size in *; lia. }
  split; [done|]. destruct L as [L1 L2 L2' L3 L4 L5 L6].
  assert (forall id' r', owns (<[id := r]> objs) (<[vaddr r := id]> c) id' r' ->
    (id' = id /\ r' = r) \/ owns objs c id' r') as Ho by (intros i q; by apply owns_add).
  split; try done.
  - intros k i. rewrite lookup_insert_Some. intros [[<- <-] |[Hki Hi]].
    + exists r. by rewrite lookup_insert_eq.
    + destruct (L3 k i Hi) as (q & Hq & Hv). exists q. rewrite lookup_insert_ne by congruence. done.
  - intros i q [[-> ->] |Hq]%Ho; [done|by apply L4 with i].
  - intros i q i' q' [[-> ->] |Hq]%Ho [[-> ->] |Hq']%Ho Hne; try done.
    + by apply Hd with i'.
    + intros x Hx Hx'. by apply (Hd i q Hq x).
    + by apply L5 with i i'.
  - intros i q x [[-> ->] |Hq]%Ho Hx; [by apply Hf|by apply L6 with i q].
Qed.

Lemma layout_remove objs shapes a c id r :
  layout objs shapes a c -> owns objs c id r ->
  loose (delete (vaddr r) c) id /\ layout objs shapes a (delete (vaddr r) c).
Proof.
  intros L Ho. split.
  { intros k Hk. apply lookup_delete_Some in Hk as [Hne Hk].
    destruct (ly_regions _ _ _ _ L k id Hk) as (r' & Hr' & <-). destruct Ho as [Hr _]. congruence. }
  assert (forall i q, owns objs (delete (vaddr r) c) i q -> owns objs c i q) as Hw
    by (intros i q Hq; by apply (owns_remove objs c id r i q Ho) in Hq as [? _]).
  destruct L as [L1 L2 L2' L3 L4 L5 L6]. split; try done; eauto 6.
  intros k i Hk. apply lookup_delete_Some in Hk as [_ Hk]. by apply L3.
Qed.

Lemma layout_update objs shapes a c id r new :
  layout objs shapes a c -> owns objs c id r -> m_range new = m_range r ->
  region_good shapes (m_total_range a) new -> layout (<[id := new]> objs) shapes a c.
Proof.
  intros L Ho Hrange Hgood. assert (vaddr new = vaddr r) as Hv by (unfold vaddr; by rewrite Hrange).
  assert (forall x, in_region new x <-> in_region r x) as Hx by (intros x; unfold in_region; by rewrite Hrange).
  assert (forall i q, owns (<[id := new]> objs) c i q -> (i = id /\ q = new) \/ (owns objs c i q /\ i <> id)) as Hw
    by (intros i q; by apply owns_update with r).
  destruct L as [L1 L2 L2' L3 L4 L5 L6]. split; try done.
  - intros k i Hk. destruct (L3 k i Hk) as (q & Hq & Hvk). destruct (decide (i = id)) as [-> |Hne].
    + exists new. rewrite lookup_insert_eq. split; [done|]. destruct Ho. congruence.
    + exists q. by rewrite lookup_insert_ne.
  - intros i q [[-> ->] |[Hq _]]%Hw; [done|by apply L4 with i].
  - intros i q i' q' [[-> ->] |[Hq N]]%Hw [[-> ->] |[Hq' N']]%Hw Hne x; [done| | |by apply L5 with i i'].
    + rewrite Hx. by apply (L5 id r i' q').
    + rewrite Hx. by apply (L5 i q id r).
  - intros i q x [[-> ->] |[Hq _]]%Hw; [rewrite Hx; by apply L6 with id|by apply L6 with i].
Qed.

(** Taking a range keeps the layout, and giving back one that no region uses. *)
Lemma layout_alloc objs shapes a a' c :
  layout objs shapes a c -> alloc_inv a' -> m_total_range a' = m_total_range a ->
  (forall id r x, owns objs c id r -> in_region r x -> ~ is_free a' x) -> layout objs shapes a' c.
Proof. intros [L1 L2 L2' L3 L4 L5 L6] Ha Ht Hf. split; rewrite ?Ht; done. Qed.

(** ** Sizes and lookups *)

Lemma contents_bound objs shapes a c : layout objs shapes a c -> Z.of_nat (stdpp.base.size c) <= 0xc0000000.
Proof.
  intros L. rewrite <- (length_map_to_list c), <- (length_fmap fst).
  apply distinct_bound; [lia|apply NoDup_fst_map_to_list|].
  intros k ((k' & id) & -> & Hk%elem_of_map_to_list)%list_elem_of_fmap. cbn.
  destruct (ly_regions _ _ _ _ L _ _ Hk) as (r & Hr & Hv).
  assert (owns objs c id r) as Ho by (split; [done|by rewrite Hv]).
  pose proof (good_bounds _ _ r (ly_total _ _ _ _ L) (ly_good _ _ _ _ L id r Ho)) as B. lia.
Qed.

Lemma inv_good s c id r : inv s c -> owns (m_objects s) c id r ->
  region_good (shape (m_vmobjects s)) (m_total_range (m_range_allocator s)) r.
Proof. intros Hi. apply (ly_good _ _ _ _ (in_layout _ _ Hi)). Qed.

Lemma region_at_ok (s : Space (M := M)) id r : m_objects s !! id = Some r -> region_at s id = Ok r.
Proof. intros Hr. unfold region_at. by rewrite Hr. Qed.

(** The weak pointer of the cache after the region is gone. *)
Definition forget (s : Space (M := M)) (id : positive) : Space :=
  if bool_decide (m_cache_region s = Some id) then with_cache s (m_cache_range s) None else s.

Lemma forget_fields s id :
  m_regions (forget s id) = m_regions s /\ m_objects (forget s id) = m_objects s /\
  m_vmobjects (forget s id) = m_vmobjects s /\ m_range_allocator (forget s id) = m_range_allocator s /\
  m_ptes (forget s id) = m_ptes s /\ m_cache_range (forget s id) = m_cache_range s /\
  (forall i, m_cache_region (forget s id) = Some i -> m_cache_region s = Some i /\ i <> id).
Proof.
  unfold forget. case_bool_decide as E; repeat split; try done.
  intros ->. done.
Qed.

(** A region taken out of the container. *)
Lemma take_region_ok s c id r :
  inv s c -> owns (m_objects s) c id r ->
  exists s', take_region s id = Ok (s', Some id) /\ inv s' (delete (vaddr r) c) /\
    m_objects s' = m_objects s /\ m_vmobjects s' = m_vmobjects s /\
    m_range_allocator s' = m_range_allocator s /\ m_ptes s' = m_ptes s.
Proof.
  intros [I1 I2 I3 I4] Ho. destruct (forget_fields s id) as (F1 & F2 & F3 & F4 & F5 & F6 & F7).
  unfold take_region. rewrite (region_at_ok s id r) by apply Ho. cbn [res_bind]. fold (forget s id).
  rewrite F1, (om_find_law _ c) by done. cbn [res_bind]. rewrite (proj2 Ho).
  rewrite bool_decide_false by (intros E; by apply E).
  pose proof (contents_bound _ _ _ _ I2) as Hb.
  destruct (om_unsafe_remove_law (m_regions s) c (vaddr r) id) as (t & -> & Ht); [done|apply Ho|lia|].
  cbn [res_bind]. eexists. split; [done|]. split; [|done]. split; cbn; rewrite ?F2, ?F3, ?F4, ?F6; [done| |done|].
  - by apply layout_remove with id.
  - intros rg i Hrg [Hi Hne]%F7. destruct (I4 rg i Hrg Hi) as (q & Hq & E). exists q. split; [|done].
    by apply (owns_remove _ _ id r).
Qed.

(** The page tables after a region was unmapped. *)
Definition released (r : Region) (old new : gmap Z pte) : Prop :=
  forall p e, new !! p = Some e -> old !! p = Some e /\ ~ page_of r p.

Lemma unmap_ok (s : Space (M := M)) id r shapes total :
  m_objects s !! id = Some r -> m_mapped r = true -> region_good shapes total r ->
  0x00800000 <= m_base total /\ m_base total + m_size total <= 0xc0000000 ->
  exists P, unmap s id false = Ok (with_objects (with_ptes s P) (<[id := with_mapped r false]> (m_objects s))) /\
    released r (m_ptes s) P.
Proof.
  intros Hr Hm Hgood Ht. pose proof (good_bounds _ _ _ Ht Hgood) as (_ & _ & _ & _ & B).
  unfold unmap. rewrite (region_at_ok s id r Hr). cbn [res_bind]. rewrite Hm. cbn [negb].
  destruct (release_ptes_ok total r Ht shapes Hgood (Z.to_nat (region_page_count r)) s 0) as (P & -> & HP); [lia|lia|].
  cbn [res_bind]. unfold update_region. rewrite (region_at_ok _ id r) by done. cbn [res_bind].
  exists P. split; [done|]. intros p e Hp. destruct (HP p e Hp) as [H1 H2]. split; [done|].
  intros (i & Hi & ->). by apply (H2 i).
Qed.

(** An aligned address of a region is that of one of its pages. *)
Lemma in_region_page shapes total r p :
  region_good shapes total r -> p mod PAGE_SIZE = 0 -> in_region r p -> page_of r p.
Proof.
  intros [[_ _ _ R1 R2] _ _ _ _] Hp Hx. unfold in_region, in_range in Hx.
  exists ((p - vaddr r) / PAGE_SIZE). unfold vaddr, region_page_count, region_size, base, size, PAGE_SIZE in *.
  Z.to_euclidean_division_equations. lia.
Qed.

(** The entries of the other regions stay when one is taken out and unmapped. *)
Lemma ptes_retire P P' objs c id r new shapes total :
  ptes_ok P objs c -> owns objs c id r -> loose (delete (vaddr r) c) id -> region_good shapes total r ->
  released r P P' -> ptes_ok P' (<[id := new]> objs) (delete (vaddr r) c).
Proof.
  intros HP Ho Hl Hgood Hrel p e Hp. destruct (Hrel p e Hp) as [Hold Hpage].
  destruct (HP p e Hold) as (Ha & i & q & Hq & Hin & Hal). split; [done|]. exists i, q. split; [|done].
  apply owns_loose; [done|]. apply (owns_remove objs c id r); [done|]. split; [done|]. intros ->.
  rewrite (owns_fun _ _ _ _ _ Hq Ho) in Hin. by apply Hpage, (in_region_page shapes total).
Qed.

(** A region taken out of the container and unmapped, its range kept. *)
Lemma retire_ok s c id r :
  state s c [] -> owns (m_objects s) c id r ->
  exists s1 s', take_region s id = Ok (s1, Some id) /\ unmap s1 id false = Ok s' /\
    state s' (delete (vaddr r) c) [id] /\ loose (delete (vaddr r) c) id /\
    m_objects s' = <[id := with_mapped r false]> (m_objects s) /\
    m_vmobjects s' = m_vmobjects s /\ m_range_allocator s' = m_range_allocator s.
Proof.
  intros [Hinv Hptes Hset] Ho. destruct (take_region_ok s c id r Hinv Ho) as (s1 & E1 & I1 & O1 & V1 & A1 & P1).
  pose proof (inv_good s c id r Hinv Ho) as Hgood. pose proof (ly_total _ _ _ _ (in_layout _ _ Hinv)) as Ht.
  destruct (layout_remove _ _ _ _ id r (in_layout _ _ Hinv) Ho) as [Hl _].
  assert (m_mapped r = true) as Hm by (destruct (Hset id r (proj1 Ho)) as [?%not_elem_of_nil|[_ ?]]; done).
  destruct (unmap_ok s1 id r (shape (m_vmobjects s)) (m_total_range (m_range_allocator s))) as (P & E2 & HP);
    [rewrite O1; apply Ho|done|done|done|].
  exists s1. eexists. split; [done|]. split; [exact E2|]. rewrite O1 in *. rewrite P1 in HP.
  split; [|by rewrite <- V1, <- A1]. destruct I1 as [J1 J2 J3 J4]. split; cbn.
  - split; cbn; [done| |done|].
    + rewrite O1 in J2. by apply layout_loose.
    + intros rg i Hrg Hi. destruct (J4 rg i Hrg Hi) as (q & Hq & E). exists q. split; [|done].
      rewrite O1 in Hq. by apply owns_loose.
  - by apply (ptes_retire (m_ptes s) P _ c id r _ (shape (m_vmobjects s)) (m_total_range (m_range_allocator s))).
  - intros i q Hq. cbn in Hq. apply lookup_insert_Some in Hq as [[<- <-] |[Hne Hq]]; [left; by left|right].
    destruct (Hset i q Hq) as [?%not_elem_of_nil|[Hoi ?]]; [done|]. split; [|done].
    apply owns_loose; [done|]. apply (owns_remove _ _ id r); done.
Qed.

(** ** Splitting a region *)

(** The part of a region that covers a range of its pages. *)
Definition split_of (r : Region) (rg : Range) : Region :=
  mkRegion rg (m_offset_in_vmobject r + (base rg - vaddr r)) (m_vmobject r) (m_name r) (m_access r)
    (m_shared r) (m_cacheable r) (m_stack r) (m_mmap r) (m_syscall_region r) false.

Definition inside (r : Region) (rg : Range) : Prop :=
  m_base (m_range r) <= m_base rg /\ m_base rg + m_size rg <= m_base (m_range r) + m_size (m_range r).

Lemma good_split shapes total r rg :
  region_good shapes total r -> range_ok total rg -> inside r rg -> region_good shapes total (split_of r rg).
Proof.
  intros [R1 R2 R3 (O1 & O2 & O3) (c & pages & Hvm & Hlen & Hsh)] Hrg Hin.
  assert (region_size (split_of r rg) = m_size rg) as E by done. unfold inside in Hin.
  destruct R1 as [_ _ _ Q1 _]. pose proof (ro_page _ _ Hrg) as Q2.
  split; cbn; try done; rewrite ?E; unfold vaddr, base, region_size, size, PAGE_SIZE in *.
  - Z.to_euclidean_division_equations. lia.
  - exists c, pages. split; [done|]. split; [lia|done].
Qed.

(** A region that maps an anonymous object shared with another one. *)
Definition shared_anonymous (shapes : gmap positive (class * list page)) (r : Region) : Prop :=
  m_shared r = true /\ exists pages, shapes !! m_vmobject r = Some (Anonymous, pages).

Lemma set_should_cow_ok s c r' vm i :
  cow_maps_ok (m_vmobjects s) -> m_vmobjects s !! m_vmobject r' = Some vm -> object_ok vm r' ->
  m_shared r' = false -> 0 <= i < region_page_count r' ->
  exists v, region_set_should_cow s r' i c = Ok (with_vmobjects s v (m_shared_vmobjects s)) /\
    shape v = shape (m_vmobjects s) /\ cow_maps_ok v.
Proof.
  intros Hcow Hvm [O1 O2 O3 _] Hsh Hi. unfold region_set_should_cow. rewrite Hsh. cbn [negb verify res_bind].
  unfold vmobject_at. rewrite Hvm. cbn [of_opt res_bind].
  destruct (is_anonymous vm); [|exists (m_vmobjects s); split; [by destruct s|done]].
  unfold set_should_cow, Vector.set_at.
  assert (length (ensure_cow_map vm) = length (m_physical_pages vm)) as Hl.
  { unfold ensure_cow_map. destruct (m_cow_map vm) as [map|] eqn:E; [by apply O3|apply length_replicate]. }
  rewrite bool_decide_true by lia. cbn [verify res_bind]. eexists. split; [done|]. split.
  - unfold shape. rewrite fmap_insert. apply insert_id. by rewrite lookup_fmap, Hvm.
  - intros id vm' map Hv Hm. apply lookup_insert_Some in Hv as [[<- <-] |[_ Hv]]; [|by apply Hcow with id].
    cbn in Hm. injection Hm as <-. cbn. by rewrite length_insert.
Qed.

Lemma copy_cow_ok n s src rg off i total :
  let r' := split_of src rg in
  cow_maps_ok (m_vmobjects s) -> region_good (shape (m_vmobjects s)) total src ->
  region_good (shape (m_vmobjects s)) total r' ->
  0 <= off -> 0 <= i -> i + Z.of_nat n <= region_page_count r' ->
  off + i + Z.of_nat n <= region_page_count src ->
  (exists v, copy_cow n s src r' off i = Ok (with_vmobjects s v (m_shared_vmobjects s)) /\
    shape v = shape (m_vmobjects s) /\ cow_maps_ok v) \/
  (copy_cow n s src r' off i = Fault VerifyFailed /\ shared_anonymous (shape (m_vmobjects s)) src).
Proof.
  intros r'. revert s i. induction n as [|n IH]; intros s i Hcow Hsrc Hr' Hoff Hi H1 H2; cbn [copy_cow].
  { left. exists (m_vmobjects s). split; [by destruct s|done]. }
  destruct (good_object _ _ _ Hcow Hsrc) as (vm & Hvm & Hob).
  destruct (should_cow_ok src vm Hob s (off + i) Hvm ltac:(lia)) as (b & -> & Hb). cbn [res_bind].
  assert (forall v, shape v = shape (m_vmobjects s) -> cow_maps_ok v ->
    let s' := with_vmobjects s v (m_shared_vmobjects s) in
    (exists v', copy_cow n s' src r' off (i + 1) = Ok (with_vmobjects s v' (m_shared_vmobjects s)) /\
      shape v' = shape (m_vmobjects s) /\ cow_maps_ok v') \/
    (copy_cow n s' src r' off (i + 1) = Fault VerifyFailed /\ shared_anonymous (shape (m_vmobjects s)) src)) as Hnext.
  { intros v Hv Hc. rewrite <- Hv in *.
    apply (IH (with_vmobjects s v (m_shared_vmobjects s))); cbn; try done; lia. }
  destruct b; cbn [res_bind].
  2: { specialize (Hnext (m_vmobjects s) eq_refl Hcow). cbn zeta in Hnext. by destruct s. }
  destruct (m_shared src) eqn:Es.
  - right. unfold region_set_should_cow. cbn [r' split_of m_shared]. rewrite Es. split; [done|]. split; [done|].
    specialize (Hb eq_refl eq_refl). unfold shape. rewrite lookup_fmap, Hvm. cbn. unfold is_anonymous in Hb.
    destruct (m_class vm); try done. by eexists.
  - destruct (good_object _ _ _ Hcow Hr') as (vm' & Hvm' & Hob').
    destruct (set_should_cow_ok s true r' vm' i) as (v & -> & Hv & Hc); [done|done|done|done|lia|].
    cbn [res_bind]. by apply Hnext.
Qed.

(** Regions added to the container keep the entries of the page tables. *)
Lemma ptes_add P objs c id r :
  (forall k i, c !! k = Some i -> exists q, objs !! i = Some q /\ vaddr q = k) ->
  objs !! id = None -> c !! vaddr r = None -> ptes_ok P objs c ->
  ptes_ok P (<[id := r]> objs) (<[vaddr r := id]> c).
Proof.
  intros Hreg Hn Hk HP p e Hp. destruct (HP p e Hp) as (Ha & i & q & Hq & Hin). split; [done|].
  exists i, q. split; [|done]. apply owns_add; auto.
Qed.

Section Split.
Context (src : Region) (total : Range).
Context (Htotal : 0x00800000 <= m_base total /\ m_base total + m_size total <= 0xc0000000).

Lemma new_region_split shapes rg :
  region_good shapes total src -> range_ok total rg -> inside src rg ->
  exists r0, new_region rg (m_vmobject src) (m_offset_in_vmobject src + (base rg - vaddr src)) (m_name src)
      (m_access src) (m_cacheable src) (m_shared src) = Ok r0 /\ vaddr r0 = base rg /\
    set_stack (set_mmap (set_syscall_region r0 (m_syscall_region src)) (m_mmap src)) (m_stack src)
      = split_of src rg.
Proof using Htotal.
  intros Hgood Hrg Hin. pose proof Hrg as [Q1 Q2 Q3 Q4 Q5]. unfold new_region, base, size.
  rewrite aligned_range by (try done; lia). replace (m_size rg =? 0) with false by lia. rewrite Q5.
  cbn [verify res_bind negb Z.eqb]. eexists. split; [done|]. split; [done|]. unfold split_of.
  fold (initial_access (m_access src)). rewrite initial_access_split by apply Hgood. done.
Qed.

(** The counts of pages of a part of a region. *)
Lemma split_pages shapes rg :
  region_good shapes total src -> range_ok total rg -> inside src rg ->
  let off := (base rg - vaddr src) / PAGE_SIZE in
  0 <= off /\ off + region_page_count (split_of src rg) <= region_page_count src /\
  0 < region_page_count (split_of src rg).
Proof using.
  intros [[_ _ _ P1 P2] _ _ _ _] [_ Q2 _ Q4 Q5] [I1 I2].
  unfold region_page_count, region_size, vaddr, base, size, split_of, PAGE_SIZE in *. cbn [m_range] in *.
  Z.to_euclidean_division_equations. lia.
Qed.

Lemma allocate_split_ok s c pending rg :
  state s c pending -> m_total_range (m_range_allocator s) = total ->
  region_good (shape (m_vmobjects s)) total src -> range_ok total rg -> inside src rg ->
  (forall id r, owns (m_objects s) c id r -> disjoint (split_of src rg) r) ->
  (forall x, in_range rg x -> ~ is_free (m_range_allocator s) x) ->
  let id := fresh (dom (m_objects s)) in
  let off := m_offset_in_vmobject src + (base rg - vaddr src) in
  m_objects s !! id = None /\ c !! base rg = None /\
  ((exists s', allocate_split_region s src rg off = Ok (s', id) /\
      state s' (<[base rg := id]> c) (id :: pending) /\
      m_objects s' = <[id := split_of src rg]> (m_objects s) /\
      shape (m_vmobjects s') = shape (m_vmobjects s) /\ m_range_allocator s' = m_range_allocator s /\
      m_ptes s' = m_ptes s) \/
   (allocate_split_region s src rg off = Fault VerifyFailed /\ shared_anonymous (shape (m_vmobjects s)) src)).
Proof using Htotal.
  intros [[I1 I2 I3 I4] Hptes Hset] Et Hsrc Hrg Hin Hdis Hfree id off.
  pose proof (good_split _ _ _ _ Hsrc Hrg Hin) as Hnew.
  assert (m_objects s !! id = None) as Hid by apply not_elem_of_dom, is_fresh.
  destruct (layout_add _ _ _ _ id (split_of src rg) I2 Hid ltac:(by rewrite Et) Hdis Hfree) as [Hk I2'].
  split; [done|]. split; [exact Hk|].
  destruct (new_region_split _ rg Hsrc Hrg Hin) as (r0 & E0 & V0 & Er).
  destruct (split_pages _ rg Hsrc Hrg Hin) as (C1 & C2 & C3).
  pose proof (contents_bound _ _ _ _ I2) as Hb.
  destruct (om_insert_law (m_regions s) c (base rg) id) as (t & Et' & Ht); [done|exact Hk|lia|].
  unfold allocate_split_region, create_user_accessible. fold off in E0. rewrite E0. cbn [res_bind]. fold id.
  unfold add_region, update_region, region_at. cbn [m_objects with_objects]. rewrite lookup_insert_eq.
  cbn [of_opt res_bind m_regions with_objects]. rewrite V0, Et'. cbn [res_bind m_objects with_objects with_regions].
  rewrite lookup_insert_eq. cbn [of_opt res_bind m_objects with_objects with_regions].
  rewrite lookup_insert_eq. cbn [of_opt res_bind]. rewrite Er, insert_insert_eq. set (s1 := with_objects _ _).
  replace (wrap size_t (off - m_offset_in_vmobject src)) with (base rg - vaddr src).
  2: { unfold off. replace (m_offset_in_vmobject src + _ - _) with (base rg - vaddr src) by lia. symmetry.
       apply wrap32. destruct Hrg, Hin. unfold vaddr, base in *. pose proof (good_bounds _ _ _ Htotal Hsrc) as B.
       unfold vaddr, base, region_size, size in B. lia. }
  destruct (copy_cow_ok (Z.to_nat (region_page_count (split_of src rg))) s1 src rg ((base rg - vaddr src) / PAGE_SIZE) 0 total)
    as [(v & -> & Hv & Hc)|[-> Hsa]]; cbn; try done; try lia; [left|by right].
  subst s1. fields. eexists. split; [done|]. split; [|done]. split; fields.
  - split; fields; [done| |done|].
    + by rewrite Hv.
    + intros rg' i Hr' Hi'. destruct (I4 rg' i Hr' Hi') as (q & Hq & E). exists q. split; [|done].
      apply (owns_add _ _ (ly_regions _ _ _ _ I2) id (split_of src rg)); auto.
  - apply (ptes_add (m_ptes s) _ _ id (split_of src rg)); try done. apply I2.
  - intros i q Hq. cbn in Hq. apply lookup_insert_Some in Hq as [[<- <-] |[Hne Hq]]; [left; by left|].
    destruct (Hset i q Hq) as [?|[Hoi ?]]; [left; by right|right]. split; [|done].
    apply (owns_add _ _ (ly_regions _ _ _ _ I2) id (split_of src rg)); auto.
Qed.

End Split.

(** ** Mapping a region *)

(** The entries outside of the region are those of the other regions. *)
Definition ptes_around (r : Region) (P : gmap Z pte) (objs : gmap positive Region) (c : gmap Z positive) : Prop :=
  forall p e, P !! p = Some e -> p mod PAGE_SIZE = 0 /\
    (in_region r p \/ exists id q, owns objs c id q /\ in_region q p /\ allows q e).

Lemma ptes_ok_around r P objs c : ptes_ok P objs c -> ptes_around r P objs c.
Proof. intros HP p e Hp. destruct (HP p e Hp) as (Ha & ?). auto. Qed.

Lemma with_mapped_good shapes total r b : region_good shapes total r -> region_good shapes total (with_mapped r b).
Proof. intros [H1 H2 H3 H4 H5]. by split. Qed.

Section Map.
Context (ensure_pte : Z -> bool) (Hpte : forall a, ensure_pte a = true).

Lemma map_object_ok s id r total :
  cow_maps_ok (m_vmobjects s) -> 0x00800000 <= m_base total /\ m_base total + m_size total <= 0xc0000000 ->
  m_objects s !! id = Some r -> region_good (shape (m_vmobjects s)) total r ->
  exists P, map ensure_pte s id =
      Ok (with_ptes (with_objects s (<[id := with_mapped r true]> (m_objects s))) P, true) /\
    mapped_from r 0 (m_ptes s) P.
Proof using OL Hpte.
  intros Hcow Ht Hr Hgood. destruct (good_object _ _ _ Hcow Hgood) as (vm & Hvm & Hob).
  pose proof (good_bounds _ _ _ Ht Hgood) as (_ & _ & _ & _ & B).
  unfold map. rewrite (region_at_ok s id r Hr). cbn [res_bind]. unfold vmobject_at. rewrite Hvm. cbn [of_opt res_bind].
  replace (is_user r && _ && _) with false.
  2: { destruct (is_shared_inode vm) eqn:E; [rewrite (ob_shared _ _ Hob E)|]; by destruct (is_user r), (m_shared r). }
  cbn [negb verify res_bind]. unfold update_region. rewrite (region_at_ok s id r Hr). cbn [res_bind].
  destruct (map_pages_ok _ r vm Ht _ Hgood Hob ensure_pte Hpte (Z.to_nat (region_page_count r))
    (with_objects s (<[id := with_mapped r true]> (m_objects s))) 0 Hvm) as (P & -> & HP); [lia|lia|].
  cbn [res_bind]. replace (0 <? _) with true by lia. rewrite Z.eqb_refl. by exists P.
Qed.

(** A region of the container that is mapped, for the first time or again. *)
Lemma map_owned_ok s c id r pending :
  inv s c -> owns (m_objects s) c id r -> ptes_around r (m_ptes s) (m_objects s) c ->
  settled s c (id :: pending) ->
  exists s', map ensure_pte s id = Ok (s', true) /\ state s' c pending /\
    m_objects s' = <[id := with_mapped r true]> (m_objects s) /\
    m_vmobjects s' = m_vmobjects s /\ m_range_allocator s' = m_range_allocator s.
Proof using Hpte.
  intros Hinv Ho Hptes Hset. pose proof (inv_good s c id r Hinv Ho) as Hgood.
  destruct (map_object_ok s id r _ (in_cow _ _ Hinv) (ly_total _ _ _ _ (in_layout _ _ Hinv)) (proj1 Ho) Hgood)
    as (P & -> & HP).
  eexists. split; [done|]. fields. split; [|done].
  assert (forall i q, owns (<[id := with_mapped r true]> (m_objects s)) c i q <->
    (i = id /\ q = with_mapped r true) \/ (owns (m_objects s) c i q /\ i <> id)) as Hw
    by (intros i q; by apply owns_update with r).
  destruct Hinv as [I1 I2 I3 I4]. split.
  - split; fields; [done| |done|].
    + apply layout_update with r; [done..|]. by apply with_mapped_good.
    + intros rg i Hrg Hi. destruct (I4 rg i Hrg Hi) as (q & Hq & E). destruct (decide (i = id)) as [-> |Hne].
      * exists (with_mapped r true). rewrite (owns_fun _ _ _ _ _ Hq Ho) in E. split; [apply Hw; by left|done].
      * exists q. split; [apply Hw; by right|done].
  - intros p e Hp. fields. destruct (HP p e Hp) as [[Hpg Hal] |[Hold Hne]].
    + destruct Hpg as (i & Hi & ->). pose proof (ro_page _ _ (rg_range _ _ _ Hgood)) as Ha. split.
      * unfold vaddr, base. by rewrite Z.mul_comm, Z_mod_plus_full.
      * exists id, (with_mapped r true). split; [apply Hw; by left|]. split; [|done].
        by apply (page_in_region _ _ r (ly_total _ _ _ _ I2) Hgood i).
    + destruct (Hptes p e Hold) as (Ha & Hin). split; [done|].
      assert (~ in_region r p) as Hnot.
      { intros Hr. destruct (in_region_page _ _ _ _ Hgood Ha Hr) as (i & Hi & ->). by apply (Hne i). }
      destruct Hin as [Hin|(i & q & Hq & Hin & Hal)]; [done|]. exists i, q. split; [|done]. apply Hw. right.
      split; [done|]. intros ->. by rewrite (owns_fun _ _ _ _ _ Hq Ho) in Hin.
  - intros i q Hq. fields. destruct (decide (i = id)) as [-> |Hne].
    + right. rewrite lookup_insert_eq in Hq. injection Hq as <-. split; [apply Hw; by left|done].
    + rewrite lookup_insert_ne in Hq by done. destruct (Hset i q Hq) as [Hp|[Hoi Hm]].
      * left. by apply elem_of_cons in Hp as [?|?].
      * right. split; [apply Hw; by right|done].
Qed.

End Map.

(** The object of a region that is neither in the container nor mapped is dropped. *)
Lemma destroy_loose_ok s c id r pending :
  state s c (id :: pending) -> loose c id -> m_objects s !! id = Some r -> m_mapped r = false ->
  exists s', destroy_region s id = Ok s' /\ state s' c pending /\ m_objects s' = delete id (m_objects s) /\
    m_vmobjects s' = m_vmobjects s /\ m_range_allocator s' = m_range_allocator s.
Proof.
  intros [[I1 I2 I3 I4] Hptes Hset] Hl Hr Hm. unfold destroy_region. rewrite (region_at_ok s id r Hr).
  cbn [res_bind]. rewrite Hm. cbn [res_bind]. eexists. split; [done|].
  fold (forget (with_objects s (delete id (m_objects s))) id).
  destruct (forget_fields (with_objects s (delete id (m_objects s))) id) as (F1 & F2 & F3 & F4 & F5 & F6 & F7).
  split; [|by rewrite F2, F3, F4]. fields. split.
  - split; rewrite ?F1, ?F2, ?F3, ?F4, ?F6; [done|by apply layout_drop|done|].
    intros rg i Hrg [Hi _]%F7. destruct (I4 rg i Hrg Hi) as (q & Hq & E). exists q. split; [|done].
    by apply owns_drop.
  - rewrite F5, F2. intros p e Hp. destruct (Hptes p e Hp) as (Ha & i & q & Hq & Hin). split; [done|].
    exists i, q. split; [|done]. by apply owns_drop.
  - intros i q. rewrite F2. intros [Hne Hq]%lookup_delete_Some. destruct (Hset i q Hq) as [Hp|[Hoi ?]].
    + left. by apply elem_of_cons in Hp as [?|?].
    + right. split; [|done]. by apply owns_drop.
Qed.

(** What a split leaves: the regions that were there and a part for every range. *)
Record replaced (s : Space (M := M)) (c : gmap Z positive) (src : Region) (ranges : list Range)
    (s' : Space (M := M)) (c' : gmap Z positive) (ids : list positive) : Prop := {
  rp_keep : forall i q, owns (m_objects s) c i q -> owns (m_objects s') c' i q;
  rp_new : forall i q, owns (m_objects s') c' i q ->
    owns (m_objects s) c i q \/ exists rg, rg ∈ ranges /\ q = split_of src rg;
  rp_parts : forall rg, rg ∈ ranges -> exists i, i ∈ ids /\ owns (m_objects s') c' i (split_of src rg);
  rp_ids : forall i, i ∈ ids -> exists q, owns (m_objects s') c' i q;
  rp_objects : forall i q, m_objects s !! i = Some q -> m_objects s' !! i = Some q;
  rp_loose : forall i, is_Some (m_objects s !! i) -> loose c i -> loose c' i;
  rp_distinct : forall i, i ∈ ids -> m_objects s !! i = None;
  rp_shape : shape (m_vmobjects s') = shape (m_vmobjects s);
  rp_alloc : m_range_allocator s' = m_range_allocator s;
  rp_ptes : m_ptes s' = m_ptes s;
}.

Lemma replaced_none s c src : replaced s c src [] s c [].
Proof. split; try done; auto; intros ? ?%not_elem_of_nil; done. Qed.

Lemma replaced_trans s c src l1 s1 c1 ids1 l2 s2 c2 ids2 :
  replaced s c src l1 s1 c1 ids1 -> replaced s1 c1 src l2 s2 c2 ids2 ->
  replaced s c src (l1 ++ l2) s2 c2 (ids1 ++ ids2).
Proof.
  intros [A1 A2 A3 A4 A5 A6 A7 A8 A9 A10] [B1 B2 B3 B4 B5 B6 B7 B8 B9 B10]. split; try congruence; auto.
  - intros i q [Hq|(rg & Hrg & ->)]%B2.
    + destruct (A2 i q Hq) as [?|(rg & Hrg & ->)]; [by left|]. right. exists rg. rewrite elem_of_app. auto.
    + right. exists rg. rewrite elem_of_app. auto.
  - intros rg [Hrg|Hrg]%elem_of_app.
    + destruct (A3 rg Hrg) as (i & Hi & Ho). exists i. rewrite elem_of_app. auto.
    + destruct (B3 rg Hrg) as (i & Hi & Ho). exists i. rewrite elem_of_app. auto.
  - intros i [Hi|Hi]%elem_of_app; [|auto]. destruct (A4 i Hi) as (q & Hq). eauto.
  - intros i [q Hq] Hl. apply B6; eauto.
  - intros i [Hi|Hi]%elem_of_app; [auto|]. specialize (B7 i Hi).
    destruct (m_objects s !! i) eqn:E; [|done]. rewrite (A5 _ _ E) in B7. done.
Qed.

(** A range that may become a region: taken, and apart from the regions that are
    there. *)
Record vacant (total : Range) (s : Space (M := M)) (c : gmap Z positive) (rg : Range) : Prop := {
  va_ok : range_ok total rg;
  va_apart : forall id r, owns (m_objects s) c id r -> forall x, in_range rg x -> ~ in_region r x;
  va_taken : forall x, in_range rg x -> ~ is_free (m_range_allocator s) x;
}.

Section Replace.
Context (src : Region) (total : Range).
Context (Htotal : 0x00800000 <= m_base total /\ m_base total + m_size total <= 0xc0000000).

(** A part of the old region that may become a region. *)
Record may_replace (s : Space (M := M)) (c : gmap Z positive) (rg : Range) : Prop := {
  mr_vacant : vacant total s c rg;
  mr_inside : inside src rg;
}.

Lemma split_replaced s c pending rg off :
  state s c pending -> m_total_range (m_range_allocator s) = total ->
  region_good (shape (m_vmobjects s)) total src -> may_replace s c rg ->
  off = m_offset_in_vmobject src + (base rg - vaddr src) ->
  (exists s' c' id, allocate_split_region s src rg off = Ok (s', id) /\
      state s' c' (id :: pending) /\ replaced s c src [rg] s' c' [id] /\
      owns (m_objects s') c' id (split_of src rg)) \/
  (allocate_split_region s src rg off = Fault VerifyFailed /\ shared_anonymous (shape (m_vmobjects s)) src).
Proof using Htotal.
  intros Hst Et Hsrc [[R1 R2 R3] R4] ->.
  destruct (allocate_split_ok src total Htotal s c pending rg) as (Hid & Hk & [(s' & E & Hst' & O & V & A & P)|?]);
    [done..| |by right]. left.
  pose proof (ly_regions _ _ _ _ (in_layout _ _ (st_inv _ _ _ Hst))) as Hreg.
  assert (forall i q, owns (m_objects s') (<[base rg := fresh (dom (m_objects s))]> c) i q <->
    (i = fresh (dom (m_objects s)) /\ q = split_of src rg) \/ owns (m_objects s) c i q) as Hw.
  { intros i q. rewrite O. by apply (owns_add _ _ Hreg _ (split_of src rg)). }
  do 3 eexists. split; [done|]. split; [done|]. split; [|apply Hw; by left]. split; try done.
  - intros i q Hq. apply Hw. by right.
  - intros i q [[-> ->] |Hq]%Hw; [|by left]. right. exists rg. split; [left|done].
  - intros rg' ->%list_elem_of_singleton. eexists. split; [by left|]. apply Hw. by left.
  - intros i ->%list_elem_of_singleton. eexists. apply Hw. by left.
  - intros i q Hq. rewrite O, lookup_insert_ne; [done|]. congruence.
  - intros i [q Hq] Hl k. rewrite lookup_insert_Some. intros [[_ <-] |[_ Hk']]; [congruence|by apply (Hl k)].
  - by intros i ->%list_elem_of_singleton.
Qed.

(** A range that is apart from another one may still become a region after it. *)
Lemma may_replace_next s c s' c' rg l rg' :
  replaced s c src l s' c' rg -> may_replace s c rg' ->
  Forall (fun r => forall x, in_range rg' x -> ~ in_range r x) l -> may_replace s' c' rg'.
Proof using.
  intros [_ Hnew _ _ _ _ _ _ Ha _] [[R1 R2 R3] R4] Hgap. split; [|done]. split; [done| |by rewrite Ha].
  intros i q [Hq|(r0 & Hr0 & ->)]%Hnew; [by apply R2 with i|]. rewrite Forall_forall in Hgap.
  exact (Hgap r0 Hr0).
Qed.

Lemma replacement_offset shapes rg :
  region_good shapes total src -> range_ok total rg -> inside src rg ->
  contains (m_range src) rg = true /\
  wrap size_t (m_offset_in_vmobject src + wrap size_t (base rg - base (m_range src)))
    = m_offset_in_vmobject src + (base rg - vaddr src).
Proof using Htotal.
  intros Hsrc Hrg [I1 I2]. pose proof (good_bounds _ _ _ Htotal Hsrc) as (B1 & B2 & B3 & _).
  pose proof (rg_offset _ _ _ Hsrc) as (O1 & O2 & O3). destruct Hrg as [Q1 Q2 Q3 Q4 Q5].
  unfold vaddr, base, region_size, size in *. split.
  - unfold contains. apply contains_span_spec; unfold base, size; lia.
  - rewrite (wrap32 (m_base rg - _)) by lia. apply wrap32. lia.
Qed.

Lemma make_replacement_ok ranges s c pending :
  state s c pending -> m_total_range (m_range_allocator s) = total ->
  region_good (shape (m_vmobjects s)) total src -> Forall (may_replace s c) ranges -> separated ranges ->
  (exists s' c' ids, make_replacement_regions s src ranges = Ok (s', ids) /\
      state s' c' (ids ++ pending) /\ replaced s c src ranges s' c' ids) \/
  (make_replacement_regions s src ranges = Fault VerifyFailed /\ shared_anonymous (shape (m_vmobjects s)) src).
Proof using Htotal.
  revert s c pending. induction ranges as [|rg ranges IH]; intros s c pending Hst Et Hsrc Hmay Hsep;
    cbn [make_replacement_regions].
  { left. exists s, c, []. split; [done|]. split; [done|]. apply replaced_none. }
  apply Forall_cons in Hmay as [Hrg Hmay]. destruct Hsep as [Hgap Hsep].
  destruct (replacement_offset _ rg Hsrc) as [-> ->]; [apply (mr_vacant _ _ _ Hrg)|apply Hrg|]. cbn [verify res_bind].
  destruct (split_replaced s c pending rg _ Hst Et Hsrc Hrg eq_refl) as [(s1 & c1 & id & -> & Hst1 & Hrep & _)|[-> ?]];
    [|by right]. cbn [res_bind].
  destruct (IH s1 c1 (id :: pending)) as [(s2 & c2 & ids & -> & Hst2 & Hrep2)|[-> Hsa]].
  - done.
  - by rewrite (rp_alloc _ _ _ _ _ _ _ Hrep).
  - by rewrite (rp_shape _ _ _ _ _ _ _ Hrep).
  - apply Forall_forall. intros rg' Hrg'. rewrite Forall_forall in Hmay, Hgap.
    eapply may_replace_next; [exact Hrep|by apply Hmay|]. constructor; [|constructor].
    specialize (Hgap rg' Hrg'). unfold gap, in_range in *. pose proof (ro_size _ _ (va_ok _ _ _ _ (mr_vacant _ _ _ Hrg))). lia.
  - done.
  - left. cbn [res_bind]. exists s2, c2, (id :: ids). split; [done|]. split.
    + destruct Hst2 as [? ? Hset]. split; [done|done|]. intros i q Hq. destruct (Hset i q Hq) as [Hp|?]; [|by right].
      left. rewrite elem_of_app, elem_of_cons in Hp. cbn. rewrite elem_of_cons, elem_of_app. tauto.
    + by apply (replaced_trans s c src [rg] s1 c1 [id]).
  - right. cbn [res_bind]. split; [done|]. by rewrite (rp_shape _ _ _ _ _ _ _ Hrep) in Hsa.
Qed.

End Replace.

(** ** New regions *)

Lemma region_good_mono shapes shapes' total r :
  shapes ⊆ shapes' -> region_good shapes total r -> region_good shapes' total r.
Proof.
  intros Hs [R1 R2 R3 R4 (c & pages & Hvm & Hlen)]. split; try done. exists c, pages. split; [|done].
  by eapply lookup_weaken.
Qed.

Lemma layout_mono objs shapes shapes' a c : shapes ⊆ shapes' -> layout objs shapes a c -> layout objs shapes' a c.
Proof. intros Hs [L1 L2 L2' L3 L4 L5 L6]. split; try done. intros id r Ho. eapply region_good_mono; eauto. Qed.

(** The region of a new mapping. *)
Definition mapping_region (rg : Range) (vm : positive) (off : Z) (name : string) (prot : Z) (shared : bool) : Region :=
  mkRegion rg off vm name (initial_access (prot_to_region_access_flags prot)) shared true false false false false.

Definition prot_wx (prot : Z) : Prop := has_bit prot PROT_WRITE && has_bit prot PROT_EXEC = false.

Lemma new_mapping total rg vm off name prot shared :
  0x00800000 <= m_base total /\ m_base total + m_size total <= 0xc0000000 -> range_ok total rg ->
  new_region rg vm off name (prot_to_region_access_flags prot) true shared =
    Ok (mapping_region rg vm off name prot shared).
Proof.
  intros Ht [Q1 Q2 Q3 Q4 Q5]. unfold new_region, base, size. rewrite aligned_range by (try done; lia).
  replace (m_size rg =? 0) with false by lia. rewrite Q5. done.
Qed.

Lemma good_mapping shapes total rg vm off name prot shared c pages :
  range_ok total rg -> prot_wx prot -> 0 <= off -> off mod PAGE_SIZE = 0 -> off + m_size rg < 2 ^ 32 ->
  shapes !! vm = Some (c, pages) -> off + m_size rg <= PAGE_SIZE * Z.of_nat (length pages) ->
  ((exists i, c = SharedInode i) -> shared = true) ->
  region_good shapes total (mapping_region rg vm off name prot shared).
Proof.
  intros Hrg Hwx O1 O2 O3 Hvm Hlen Hsh. destruct (initial_access_prot prot) as (A1 & A2 & A3).
  split; cbn [m_range m_access m_offset_in_vmobject m_vmobject m_shared mapping_region]; try done.
  - unfold wx_ok. by rewrite A2, A3, Hwx.
  - exists c, pages. done.
Qed.

(** The state once a region is in the container and mapped, whatever was first. *)
Lemma install_ok s c r id s' :
  let new := with_mapped r true in
  state s c [] -> m_objects s !! id = None ->
  vacant (m_total_range (m_range_allocator s)) s c (m_range r) ->
  region_good (shape (m_vmobjects s')) (m_total_range (m_range_allocator s)) r ->
  om_is (m_regions s') (<[vaddr r := id]> c) -> m_objects s' = <[id := new]> (m_objects s) ->
  shape (m_vmobjects s) ⊆ shape (m_vmobjects s') -> cow_maps_ok (m_vmobjects s') ->
  m_range_allocator s' = m_range_allocator s -> mapped_from r 0 (m_ptes s) (m_ptes s') ->
  m_cache_range s' = m_cache_range s -> m_cache_region s' = m_cache_region s ->
  state s' (<[vaddr r := id]> c) [] /\
  forall i q, owns (m_objects s') (<[vaddr r := id]> c) i q <-> (i = id /\ q = new) \/ owns (m_objects s) c i q.
Proof.
  intros new [[I1 I2 I3 I4] Hptes Hset] Hid Hvac Hgood Ht Ho Hsh Hcow Ha HP C1 C2.
  pose proof (layout_mono _ _ _ _ _ Hsh I2) as L.
  destruct (layout_add _ _ _ _ id new L Hid) as [Hk L']; [by apply with_mapped_good|exact (va_apart _ _ _ _ Hvac)|exact (va_taken _ _ _ _ Hvac)|].
  assert (forall i q, owns (m_objects s') (<[vaddr r := id]> c) i q <->
    (i = id /\ q = new) \/ owns (m_objects s) c i q) as Hw.
  { intros i q. rewrite Ho. apply (owns_add _ _ (ly_regions _ _ _ _ I2) id new); done. }
  split; [|done]. split; [split|..].
  - done.
  - by rewrite Ho, Ha.
  - done.
  - rewrite C1, C2. intros rg i Hrg Hi. destruct (I4 rg i Hrg Hi) as (q & Hq & E). exists q.
    split; [apply Hw; by right|done].
  - intros p e Hp. destruct (HP p e Hp) as [[(j & Hj & ->) Hal] |[Hold _]].
    + pose proof (ro_page _ _ (va_ok _ _ _ _ Hvac)) as Hpg. split.
      * unfold vaddr, base. by rewrite Z.mul_comm, Z_mod_plus_full.
      * exists id, new. split; [apply Hw; by left|]. split; [|done].
        by apply (page_in_region _ _ r (ly_total _ _ _ _ I2) Hgood j).
    + destruct (Hptes p e Hold) as (Hpg & i & q & Hq & Hin). split; [done|]. exists i, q.
      split; [apply Hw; by right|done].
  - intros i q. rewrite Ho. intros [[<- <-] |[Hne Hq]]%lookup_insert_Some; right.
    + split; [|done]. rewrite <- Ho. apply Hw. by left.
    + destruct (Hset i q Hq) as [?%not_elem_of_nil|[Hoi Hm]]; [done|]. split; [|done].
      rewrite <- Ho. apply Hw. by right.
Qed.

Lemma shape_new (v : gmap positive VMObject) id vm :
  v !! id = None -> shape (<[id := vm]> v) = <[id := (m_class vm, m_physical_pages vm)]> (shape v) /\
  shape v ⊆ shape (<[id := vm]> v).
Proof.
  intros Hn. assert (shape (<[id := vm]> v) = <[id := (m_class vm, m_physical_pages vm)]> (shape v)) as ->
    by (unfold shape; by rewrite fmap_insert).
  split; [done|]. apply insert_subseteq. unfold shape. by rewrite lookup_fmap, Hn.
Qed.

Lemma cow_new v id vm : cow_maps_ok v -> m_cow_map vm = None -> cow_maps_ok (<[id := vm]> v).
Proof.
  intros Hc Hm i vm' map [[<- <-] |[_ Hv]]%lookup_insert_Some Hm'; [congruence|by apply Hc with i].
Qed.

Lemma ceil_pages n :
  0 < n -> exists k, ceil_div n PAGE_SIZE = Ok k /\ n <= PAGE_SIZE * k < n + PAGE_SIZE /\ 0 < k.
Proof.
  intros Hn. unfold ceil_div. cbn [PAGE_SIZE Z.eqb negb defined res_bind]. eexists. split; [done|].
  unfold PAGE_SIZE. destruct (Z.eqb_spec (n mod 4096) 0); cbn [negb]; Z.to_euclidean_division_equations; lia.
Qed.

End Facts.
End SpaceFacts.
