(* ===== verification/SpaceSpec.v ===== *)
(** * What the operations of Space do

    The results of allocating, finding and giving back regions, for an address
    space that satisfies the invariants of SpaceFacts.  [added] and [dropped]
    describe the regions afterwards, [mapping_at] what an address is mapped to. *)

From S2P Require Import Prelude Memory Containers RedBlackTree RangeAllocator Region Space SpaceFacts.
Import VirtualAddress Range RangeAllocator RangeFacts VMObject Region RegionFacts Space PageFacts SpaceFacts.

Module SpaceSpec.

(** Takes a successful run of an operation apart. *)
Ltac keeps_shared :=
  repeat (inv_res; simplify_eq; try done;
    match goal with
    | x : _ * _ |- _ => destruct x
    | H : context [match ?x with _ => _ end] |- _ => destruct x eqn:?
    | |- context [match ?x with _ => _ end] => destruct x eqn:?
    end);
  inv_res; simplify_eq; fields; try congruence.

Section Spec.
Context {M : Type} `{OM : OrderedMap M} `{OL : !OrderedMapLaws M}.
Context (ensure_pte : Z -> bool) (Hpte : forall a, ensure_pte a = true).
Implicit Types s : Space (M := M).

(** A region was added, and nothing else changed. *)
Record added s (c : gmap Z positive) s' (c' : gmap Z positive) (id : positive) (r : Region) : Prop := {
  ad_state : state s' c' [];
  ad_fresh : m_objects s !! id = None;
  ad_owns : forall i q, owns (m_objects s') c' i q <-> (i = id /\ q = r) \/ owns (m_objects s) c i q;
  ad_alloc : m_range_allocator s' = m_range_allocator s;
  ad_shapes : shape (m_vmobjects s) ⊆ shape (m_vmobjects s');
}.

Lemma added_shared s c s' c' id r :
  added s c s' c' id r -> owns (m_objects s') c' id r.
Proof. intros Ha. apply (ad_owns _ _ _ _ _ _ Ha). by left. Qed.

Lemma allocate_region_ok committed s c rg name prot reserve :
  state s c [] -> vacant (m_total_range (m_range_allocator s)) s c rg -> prot_wx prot ->
  (reserve && negb committed = true /\
    allocate_region ensure_pte committed s rg name prot reserve = Ok (s, inr ENOMEM)) \/
  (exists s' c' id vm, reserve && negb committed = false /\
    allocate_region ensure_pte committed s rg name prot reserve = Ok (s', inl id) /\
    added s c s' c' id (with_mapped (mapping_region rg vm 0 name prot false) true) /\
    m_vmobjects s !! vm = None /\
    exists pages, m_vmobjects s' = <[vm := mkVMObject Anonymous pages None]> (m_vmobjects s) /\
      m_shared_vmobjects s' = m_shared_vmobjects s).
Proof using OL Hpte.
  intros Hst Hvac Hwx. pose proof (va_ok _ _ _ _ Hvac) as Hrg.
  pose proof (ly_total _ _ _ _ (in_layout _ _ (st_inv _ _ _ Hst))) as Ht.
  unfold allocate_region, is_valid, is_null. replace (m_base rg =? 0) with false by (destruct Hrg; lia).
  cbn [negb verify res_bind]. destruct (reserve && negb committed); [by left|right].
  destruct (ceil_pages (m_size rg)) as (n & En & Hn & Hpos); [apply Hrg|].
  unfold new_anonymous, size. rewrite En. cbn [res_bind]. set (pages := replicate _ _).
  unfold new_vmobject. set (vmid := fresh (dom (m_vmobjects s))). set (vm := mkVMObject Anonymous pages None).
  assert (m_vmobjects s !! vmid = None) as Hvm by apply not_elem_of_dom, is_fresh.
  destruct (shape_new (m_vmobjects s) vmid vm Hvm) as [Sh1 Sh2].
  unfold create_user_accessible. rewrite (new_mapping _ rg vmid 0 name prot false Ht Hrg). cbn [res_bind]. fields.
  set (id := fresh (dom (m_objects s))). set (r := mapping_region rg vmid 0 name prot false).
  assert (m_objects s !! id = None) as Hid by apply not_elem_of_dom, is_fresh.
  assert (region_good (shape (<[vmid := vm]> (m_vmobjects s))) (m_total_range (m_range_allocator s)) r) as Hgood.
  { apply good_mapping with Anonymous pages; try done.
    - destruct Hrg. lia.
    - rewrite Sh1. apply lookup_insert_eq.
    - unfold pages. rewrite length_replicate. lia.
    - intros [i Hi]. done. }
  match goal with |- context [map ensure_pte ?x id] => set (s1 := x) end.
  destruct (map_object_ok ensure_pte Hpte s1 id r (m_total_range (m_range_allocator s)))
    as (P & -> & HP); [apply cow_new; [apply Hst|done]|done|apply lookup_insert_eq|done|].
  subst s1. fields. cbn [res_bind negb]. unfold add_region, region_at. fields. rewrite lookup_insert_eq.
  cbn [of_opt res_bind]. fields. rewrite insert_insert_eq.
  pose proof (contents_bound _ _ _ _ (in_layout _ _ (st_inv _ _ _ Hst))) as Hb.
  destruct (layout_add _ _ _ _ id r (layout_mono _ _ _ _ _ Sh2 (in_layout _ _ (st_inv _ _ _ Hst))) Hid Hgood)
    as [Hk _]; [exact (va_apart _ _ _ _ Hvac)|exact (va_taken _ _ _ _ Hvac)|].
  destruct (om_insert_law (m_regions s) c (vaddr (with_mapped r true)) id) as (t & -> & Htree);
    [apply Hst|exact Hk|lia|]. cbn [res_bind]. do 4 eexists. split; [done|]. split; [done|]. split; [|eauto 6].
  match goal with |- added _ _ ?x _ _ _ => destruct (install_ok s c r id x) as [Hst' Hw]; fields; try done end.
  apply cow_new; [apply Hst|done].
Qed.

(** The conditions under which a range of an object can be mapped. *)
Definition fits (pages : list page) (off size_ : Z) : bool :=
  let total := wrap size_t (Z.of_nat (length pages) * PAGE_SIZE) in
  (off <? wrap size_t (off + size_)) && (off <? total) && (wrap size_t (off + size_) <=? total).

Lemma wrap_le z : 0 <= z -> wrap size_t z <= z.
Proof using.
  intros Hz. unfold wrap. cbn [tmin U32 bits is_signed]. rewrite Z.sub_0_r, Z.add_0_r. apply Z.mod_le; lia.
Qed.

Lemma fits_bounds pages off size_ :
  0 <= off < 2 ^ 32 -> 0 < size_ < 2 ^ 32 -> fits pages off size_ = true ->
  off + size_ < 2 ^ 32 /\ off + size_ <= PAGE_SIZE * Z.of_nat (length pages).
Proof using.
  intros Ho Hs Hf. unfold fits in Hf. to_prop. pose proof (wrap_le (Z.of_nat (length pages) * PAGE_SIZE)) as Hw.
  assert (off + size_ < 2 ^ 32) as Hlt.
  { destruct (Z.lt_ge_cases (off + size_) (2 ^ 32)) as [?|Hge]; [done|exfalso].
    assert (wrap size_t (off + size_) = off + size_ - 2 ^ 32); [|lia].
    unfold wrap. cbn [tmin U32 bits is_signed]. rewrite Z.sub_0_r, Z.add_0_r. symmetry.
    apply Z.mod_unique with 1; lia. }
  rewrite (wrap32 (off + size_)) in * by lia. split; [done|]. unfold PAGE_SIZE in *. lia.
Qed.

Lemma allocate_region_with_vmobject_ok s c rg vm off name prot shared cls pages :
  state s c [] -> vacant (m_total_range (m_range_allocator s)) s c rg -> prot_wx prot ->
  0 <= off < 2 ^ 32 -> off mod PAGE_SIZE = 0 ->
  shape (m_vmobjects s) !! vm = Some (cls, pages) -> ((exists i, cls = SharedInode i) -> shared = true) ->
  (fits pages off (m_size rg) = false /\
    allocate_region_with_vmobject ensure_pte s rg vm off name prot shared = Ok (s, inr EINVAL)) \/
  (exists s' c' id, fits pages off (m_size rg) = true /\
    allocate_region_with_vmobject ensure_pte s rg vm off name prot shared = Ok (s', inl id) /\
    added s c s' c' id (with_mapped (mapping_region rg vm off name prot shared) true) /\
    m_vmobjects s' = m_vmobjects s /\ m_shared_vmobjects s' = m_shared_vmobjects s).
Proof using OL Hpte.
  intros Hst Hvac Hwx Hoff Hoff' Hvm Hsh. pose proof (va_ok _ _ _ _ Hvac) as Hrg.
  pose proof (ly_total _ _ _ _ (in_layout _ _ (st_inv _ _ _ Hst))) as Ht.
  unfold allocate_region_with_vmobject, is_valid, is_null. replace (m_base rg =? 0) with false by (destruct Hrg; lia).
  cbn [negb verify res_bind]. unfold shape in Hvm. rewrite lookup_fmap in Hvm.
  destruct (m_vmobjects s !! vm) as [o|] eqn:Eo; [|done]. injection Hvm as <- <-.
  unfold vmobject_at. rewrite Eo. cbn [of_opt res_bind]. unfold size, vmobject_size, page_count.
  destruct (fits (m_physical_pages o) off (m_size rg)) eqn:Ef.
  2: { left. split; [done|]. unfold fits in Ef. rewrite !andb_false_iff in Ef.
       set (t := wrap size_t (_ * PAGE_SIZE)) in *. set (e := wrap size_t (off + _)) in *.
       destruct (e <=? off) eqn:E1; [done|]. destruct (t <=? off) eqn:E2; [done|].
       destruct (t <? e) eqn:E3; [done|]. exfalso. destruct Ef as [[?|?] |?]; to_prop; lia. }
  right. assert (0 < m_size rg < 2 ^ 32) as Hsz by (destruct Hrg; lia).
  pose proof (fits_bounds _ _ _ Hoff Hsz Ef) as [F1 F2].
  unfold fits in Ef. repeat case_if; to_prop; try lia.
  replace (Z.land off PAGE_MASK) with off by (unfold PAGE_MASK; rewrite land_page_mask by done; lia).
  unfold create_user_accessible. rewrite (new_mapping _ rg vm off name prot shared Ht Hrg). cbn [res_bind]. fields.
  set (id := fresh (dom (m_objects s))). set (r := mapping_region rg vm off name prot shared).
  assert (m_objects s !! id = None) as Hid by apply not_elem_of_dom, is_fresh.
  assert (region_good (shape (m_vmobjects s)) (m_total_range (m_range_allocator s)) r) as Hgood.
  { apply good_mapping with (m_class o) (m_physical_pages o); try done; try lia.
    unfold shape. by rewrite lookup_fmap, Eo. }
  unfold add_region, region_at. fields. rewrite lookup_insert_eq. cbn [of_opt res_bind]. fields.
  pose proof (contents_bound _ _ _ _ (in_layout _ _ (st_inv _ _ _ Hst))) as Hb.
  destruct (layout_add _ _ _ _ id r (in_layout _ _ (st_inv _ _ _ Hst)) Hid Hgood)
    as [Hk _]; [exact (va_apart _ _ _ _ Hvac)|exact (va_taken _ _ _ _ Hvac)|].
  destruct (om_insert_law (m_regions s) c (vaddr r) id) as (t & -> & Htree); [apply Hst|exact Hk|lia|].
  cbn [res_bind]. fields. match goal with |- context [map ensure_pte ?x id] => set (s1 := x) end.
  destruct (map_object_ok ensure_pte Hpte s1 id r (m_total_range (m_range_allocator s)))
    as (P & -> & HP); [apply Hst|done|apply lookup_insert_eq|done|].
  subst s1. fields. cbn [res_bind negb]. rewrite insert_insert_eq.
  do 3 eexists. split; [done|]. split; [done|]. split; [|done].
  match goal with |- added _ _ ?x _ _ _ => destruct (install_ok s c r id x) as [Hst' Hw]; fields; try done end.
  apply Hst.
Qed.

(** ** Finding regions *)

Lemma with_cache_state s c pending rg id r :
  state s c pending -> owns (m_objects s) c id r -> base rg = vaddr r ->
  page_round_up (size rg) = Ok (region_size r) -> state (with_cache s (Some rg) (Some id)) c pending.
Proof using.
  intros [[I1 I2 I3 I4] Hptes Hset] Ho Hb Hs. split; [split|..]; fields; try done.
  intros rg' i [= <-] [= <-]. by exists r.
Qed.

(** A region that is exactly the range, and the cache that remembers it. *)
Lemma find_region_from_range_ok s c rg :
  state s c [] -> 0 <= size rg <= 0xfffff000 ->
  exists s' o, find_region_from_range s rg = Ok (s', o) /\
    match o with
    | Some id => exists r, owns (m_objects s) c id r /\ base rg = vaddr r /\
        page_round_up (size rg) = Ok (region_size r) /\ state s' c [] /\
        exists cr ci, s' = with_cache s cr ci
    | None => s' = s /\ forall id r, owns (m_objects s) c id r -> base rg = vaddr r ->
        page_round_up (size rg) <> Ok (region_size r)
    end.
Proof using OL.
  intros Hst Hsz. pose proof (st_inv _ _ _ Hst) as [I1 I2 I3 I4].
  assert (exists s' o, lookup_region s rg = Ok (s', o) /\
    match o with
    | Some id => exists r, owns (m_objects s) c id r /\ base rg = vaddr r /\
        page_round_up (size rg) = Ok (region_size r) /\ state s' c [] /\
        exists cr ci, s' = with_cache s cr ci
    | None => s' = s /\ forall id r, owns (m_objects s) c id r -> base rg = vaddr r ->
        page_round_up (size rg) <> Ok (region_size r)
    end) as Hlook.
  { unfold lookup_region. rewrite (om_find_law _ c) by done. cbn [res_bind].
    destruct (c !! base rg) as [id|] eqn:Ek.
    2: { exists s, None. split; [done|]. split; [done|]. intros id r [_ Hk] E. congruence. }
    destruct (ly_regions _ _ _ _ I2 _ _ Ek) as (r & Hr & Hv). rewrite (region_at_ok s id r Hr). cbn [res_bind].
    assert (owns (m_objects s) c id r) as Ho by (split; [done|by rewrite Hv]).
    rewrite page_round_up_ok by done. cbn [res_bind].
    destruct (Z.eqb_spec (region_size r) (PAGE_SIZE * ((size rg + PAGE_SIZE - 1) / PAGE_SIZE))) as [E|E]; cbn [negb].
    - do 2 eexists. split; [done|]. exists r. split; [done|]. split; [done|]. rewrite E. split; [done|].
      split; [|by eauto]. apply (with_cache_state s c [] rg id r); [done|done|done|]. by rewrite page_round_up_ok, E.
    - exists s, None. split; [done|]. split; [done|]. intros i q Hq Hb' [= Hq'].
      assert (i = id) as -> by (destruct Hq; congruence). rewrite (owns_fun _ _ _ _ _ Hq Ho) in Hq'. congruence. }
  unfold find_region_from_range. destruct (m_cache_range s) as [cr|] eqn:Ecr; [|done].
  destruct (m_cache_region s) as [id|] eqn:Eci; [|done]. destruct (op_eq cr rg) eqn:Eeq; [|done].
  apply op_eq_spec in Eeq as ->. destruct (I4 rg id) as (r & Ho & Hb & Hs); [done|done|].
  exists s, (Some id). split; [done|]. exists r. do 3 (split; [done|]). split; [done|].
  exists (Some rg), (Some id). rewrite <- Ecr, <- Eci. by destruct s.
Qed.

Lemma contains_inside s c id r rg :
  state s c [] -> owns (m_objects s) c id r -> 0 <= m_base rg < 2 ^ 32 -> 0 < m_size rg < 2 ^ 32 ->
  contains (m_range r) rg = true <-> inside r rg.
Proof using.
  intros Hst Ho Hb Hs. pose proof (st_inv _ _ _ Hst) as Hinv.
  pose proof (good_bounds _ _ _ (ly_total _ _ _ _ (in_layout _ _ Hinv)) (inv_good _ _ _ _ Hinv Ho)) as (B1 & B2 & B3 & _).
  unfold vaddr, region_size, base, size in *. unfold contains. rewrite contains_span_spec; unfold base, size; [done|lia..].
Qed.

(** The region that contains a range. *)
Lemma find_region_containing_ok s c rg :
  state s c [] -> 0 <= m_base rg < 2 ^ 32 -> 0 < m_size rg < 2 ^ 32 ->
  exists o, find_region_containing s rg = Ok o /\
    match o with
    | Some id => exists r, owns (m_objects s) c id r /\ inside r rg
    | None => forall id r, owns (m_objects s) c id r -> ~ inside r rg
    end.
Proof using OL.
  intros Hst Hb Hs. pose proof (st_inv _ _ _ Hst) as [I1 I2 I3 I4]. unfold find_region_containing.
  destruct (om_find_largest_not_above_law (m_regions s) c (base rg) I1) as (o & -> & Ho). cbn [res_bind].
  destruct o as [id|].
  2: { exists None. split; [done|]. intros id r [_ Hk] [H1 _]. specialize (Ho _ _ Hk). unfold vaddr, base in *. lia. }
  destruct Ho as (j & Hj & Hle & Hmax). destruct (ly_regions _ _ _ _ I2 _ _ Hj) as (r & Hr & Hv).
  assert (owns (m_objects s) c id r) as Hor by (split; [done|by rewrite Hv]).
  rewrite (region_at_ok s id r Hr). cbn [res_bind].
  destruct (contains (m_range r) rg) eqn:Ec.
  - exists (Some id). split; [done|]. exists r. split; [done|]. by apply (contains_inside s c id r).
  - exists None. split; [done|]. intros i q Hq Hin. destruct (decide (i = id)) as [-> |Hne].
    + rewrite (owns_fun _ _ _ _ _ Hq Hor) in Hin. apply (contains_inside s c id r) in Hin; [congruence|done..].
    + apply (ly_disjoint _ _ _ _ I2 id r i q Hor Hq ltac:(congruence) (vaddr r)).
      * pose proof (good_bounds _ _ _ (ly_total _ _ _ _ I2) (ly_good _ _ _ _ I2 _ _ Hor)) as (_ & B & _).
        unfold in_region, in_range, vaddr, region_size, base, size in *. lia.
      * destruct Hin as [H1 H2]. specialize (Hmax _ _ (proj2 Hq)).
        unfold in_region, in_range, vaddr, base in *. lia.
Qed.

(** ** Ranges *)

Lemma taken_state s c pending rg a' :
  state s c pending -> taken (m_range_allocator s) rg a' -> 0 < m_size rg ->
  m_base rg mod PAGE_SIZE = 0 -> m_size rg mod PAGE_SIZE = 0 ->
  let s' := with_allocators s a' (m_identity_range_allocator s) in
  state s' c pending /\ vacant (m_total_range (m_range_allocator s')) s' c rg.
Proof using.
  intros [[I1 I2 I3 I4] Hptes Hset] (T1 & T2 & T3 & T4) Hpos P1 P2. fields.
  split; [split; [split|..]; fields; try done|].
  - apply layout_alloc with (m_range_allocator s); try done. intros id r x Ho Hx [Hf _]%T4.
    by apply (ly_taken _ _ _ _ I2 id r x).
  - split; fields.
    + destruct (free_span_one_entry _ _ (ly_alloc _ _ _ _ I2) Hpos T3) as (i & e & He & E1 & E2).
      pose proof (entry_ok _ _ _ (ly_alloc _ _ _ _ I2) He) as []. rewrite T2. split; [lia..|done|done].
    + intros id r Ho x Hx Hr. by apply (ly_taken _ _ _ _ I2 id r x Ho Hr), T3.
    + intros x Hx Hf%T4. tauto.
Qed.

(** The whole pages of a size. *)
Definition pages_of (size_ : Z) : Z := PAGE_SIZE * ((size_ + PAGE_SIZE - 1) / PAGE_SIZE).

Lemma pages_of_bounds size_ :
  0 < size_ <= 0xfffff000 -> size_ <= pages_of size_ < size_ + PAGE_SIZE /\ pages_of size_ mod PAGE_SIZE = 0 /\
  0 < pages_of size_ < 2 ^ 32.
Proof using. intros Hs. unfold pages_of, PAGE_SIZE. Z.to_euclidean_division_equations. lia. Qed.

Lemma allocate_range_ok s c a size_ k :
  state s c [] -> 0 < size_ <= 0xfffff000 -> 12 <= k < 32 ->
  a = 0 \/ range_ok (m_total_range (m_range_allocator s)) (mkRange a (pages_of size_)) ->
  exists s' o, allocate_range s a size_ (2 ^ k) = Ok (s', o) /\
    match o with
    | Some rg => m_size rg = pages_of size_ /\ (a <> 0 -> m_base rg = a) /\
        exists a', taken (m_range_allocator s) rg a' /\ s' = with_allocators s a' (m_identity_range_allocator s) /\
          m_base rg mod PAGE_SIZE = 0
    | None => s' = s
    end.
Proof using.
  intros Hst Hsz Hk Ha. pose proof (pages_of_bounds size_ Hsz) as (P1 & P2 & P3).
  pose proof (ly_alloc _ _ _ _ (in_layout _ _ (st_inv _ _ _ Hst))) as Hal.
  unfold allocate_range. rewrite page_round_up_ok by lia. fold (pages_of size_). cbn [res_bind].
  destruct Ha as [-> |Ha].
  - change (is_null (Z.land 0 PAGE_MASK)) with true. cbn [res_bind].
    destruct (allocate_anywhere_spec (m_range_allocator s) (pages_of size_) k) as (a' & o & -> & Ho); [done|done|lia|done|].
    cbn [res_bind]. do 2 eexists. split; [done|]. destruct o as [rg|].
    + destruct Ho as [(G1 & G2 & G3) _]. split; [done|]. split; [done|]. exists a'. split; [done|]. split; [done|].
      by apply (multiple_of_page _ k).
    + destruct Ho as [-> _]. by destruct s.
  - pose proof (ro_page _ _ Ha) as Q. cbn [m_base] in Q.
    pose proof (range_bounds _ (ai_total _ Hal) _ Ha) as B. cbn in B.
    replace (Z.land a PAGE_MASK) with a by (unfold PAGE_MASK; rewrite land_page_mask by lia; lia).
    assert (0 < a) as Hpos by (destruct Ha; cbn in *;
      pose proof (ly_total _ _ _ _ (in_layout _ _ (st_inv _ _ _ Hst))); lia).
    unfold is_null. replace (a =? 0) with false by lia.
    destruct (allocate_specific_spec _ _ _ Hal Ha) as (a' & o & -> & Ho). cbn [res_bind].
    do 2 eexists. split; [done|]. destruct o as [rg|].
    + destruct Ho as [-> Htk]. split; [done|]. split; [done|]. by exists a'.
    + destruct Ho as [-> _]. by destruct s.
Qed.

(** ** Giving back *)

Lemma give_back_state s c pending rg :
  state s c pending -> vacant (m_total_range (m_range_allocator s)) s c rg ->
  m_available_ranges (m_range_allocator s) <> [] ->
  exists a', deallocate (m_range_allocator s) rg = Ok a' /\ m_total_range a' = m_total_range (m_range_allocator s) /\
    state (with_allocators s a' (m_identity_range_allocator s)) c pending /\
    forall x, is_free a' x <-> is_free (m_range_allocator s) x \/ in_range rg x.
Proof using.
  intros [[I1 I2 I3 I4] Hptes Hset] [V1 V2 V3] Hne.
  destruct (give_back_spec (m_range_allocator s) rg (ly_alloc _ _ _ _ I2) (ly_span _ _ _ _ I2) V1 V3 Hne)
    as (a' & -> & Ha & Ht & Hf).
  exists a'. split; [done|]. split; [done|]. split; [|done]. split; [split|..]; fields; try done.
  apply layout_alloc with (m_range_allocator s); try done. intros id r x Ho Hx [Hx' |Hx']%Hf.
  - by apply (ly_taken _ _ _ _ I2 id r x).
  - by apply (V2 id r Ho x).
Qed.

(** Without an available range, giving one back stops the kernel. *)
Lemma give_back_full a rg :
  alloc_inv a -> range_ok (m_total_range a) rg -> m_available_ranges a = [] ->
  deallocate a rg = Fault VerifyFailed.
Proof using.
  intros Ha Hrg Hl. unfold deallocate. rewrite (contains_total _ (ai_total _ Ha) _ Hrg), (end_ok _ (ai_total _ Ha)) by done.
  pose proof (range_bounds _ (ai_total _ Ha) _ Hrg). destruct Hrg as [_ Hp _ _ Hm]. unfold size, base. rewrite Hm.
  replace (m_size rg =? 0) with false by lia. replace (m_base rg <? _) with true by lia. by rewrite Hl.
Qed.

(** The range of a region that was taken out is vacant. *)
Lemma retired_vacant s c id r s' rg :
  state s c [] -> owns (m_objects s) c id r -> range_ok (m_total_range (m_range_allocator s)) rg -> inside r rg ->
  m_objects s' = <[id := with_mapped r false]> (m_objects s) -> m_range_allocator s' = m_range_allocator s ->
  loose (delete (vaddr r) c) id ->
  vacant (m_total_range (m_range_allocator s)) s' (delete (vaddr r) c) rg.
Proof using.
  intros Hst Ho Hrg [H1 H2] O A Hl. pose proof (in_layout _ _ (st_inv _ _ _ Hst)) as L.
  assert (forall x, in_range rg x -> in_region r x) as Hx by (unfold in_region, in_range; lia).
  split; [done| |].
  - intros i q Hq x Hin. rewrite O in Hq. apply owns_loose in Hq; [|done].
    apply (owns_remove _ _ id r) in Hq as [Hq Hne]; [|done]. apply (ly_disjoint _ _ _ _ L id r i q); auto.
  - intros x Hin. rewrite A. apply (ly_taken _ _ _ _ L id r); auto.
Qed.

Lemma unmap_deallocate s id r s' :
  m_objects s !! id = Some r -> m_mapped r = true -> allocator_contains (m_range_allocator s) (m_range r) = true ->
  unmap s id false = Ok s' ->
  unmap s id true = (let* a := deallocate (m_range_allocator s) (m_range r) in
                     Ok (with_allocators s' a (m_identity_range_allocator s'))).
Proof using.
  intros Hr Hm Hc. unfold unmap. rewrite (region_at_ok s id r Hr). cbn [res_bind]. rewrite Hm. cbn [negb].
  assert (forall n s i, exists P, release_ptes n s r i = with_ptes s P) as Hrel.
  { intros n. induction n as [|n IH]; intros s0 i; cbn [release_ptes]; [exists (m_ptes s0); by destruct s0|].
    destruct (IH (with_ptes s0 (delete (vaddr_from_page_index r i) (m_ptes s0))) (i + 1)) as (P & ->). by exists P. }
  destruct (Hrel (Z.to_nat (region_page_count r)) s 0) as (P & ->). cbn [res_bind]. fields. rewrite Hc.
  unfold update_region, region_at. fields. rewrite Hr. cbn [of_opt res_bind]. intros [= <-].
  destruct (deallocate _ _) as [a|f]; [|done]. cbn [res_bind]. fields. rewrite Hr. cbn [of_opt res_bind]. done.
Qed.

(** A region was dropped, and its range is available again. *)
Record dropped s (c : gmap Z positive) s' (c' : gmap Z positive) (id : positive) (r : Region) : Prop := {
  dr_state : state s' c' [];
  dr_owns : forall i q, owns (m_objects s') c' i q <-> owns (m_objects s) c i q /\ i <> id;
  dr_free : forall x, is_free (m_range_allocator s') x <-> is_free (m_range_allocator s) x \/ in_region r x;
  dr_total : m_total_range (m_range_allocator s') = m_total_range (m_range_allocator s);
  dr_vmobjects : m_vmobjects s' = m_vmobjects s;
}.

Lemma deallocate_region_ok s c id r :
  state s c [] -> owns (m_objects s) c id r ->
  (exists s' c', deallocate_region s id = Ok (s', true) /\ dropped s c s' c' id r) \/
  (deallocate_region s id = Fault VerifyFailed /\ m_available_ranges (m_range_allocator s) = []).
Proof using OL.
  intros Hst Ho. pose proof (in_layout _ _ (st_inv _ _ _ Hst)) as L.
  destruct (retire_ok s c id r Hst Ho) as (s1 & s2 & E1 & E2 & Hst2 & Hl & O & V & A).
  pose proof (rg_range _ _ _ (ly_good _ _ _ _ L id r Ho)) as Hrg.
  pose proof (retired_vacant s c id r s2 (m_range r) Hst Ho Hrg ltac:(unfold inside; lia) O A Hl) as Hvac.
  destruct (take_region_ok s c id r (st_inv _ _ _ Hst) Ho) as (s1' & E1' & _ & O1 & V1 & A1 & _).
  rewrite E1 in E1'. injection E1' as <-.
  assert (m_objects s1 !! id = Some r) as Hr1 by (rewrite O1; apply Ho).
  assert (m_mapped r = true) as Hm
    by (destruct (st_settled _ _ _ Hst id r (proj1 Ho)) as [?%not_elem_of_nil|[_ ?]]; done).
  assert (allocator_contains (m_range_allocator s1) (m_range r) = true) as Hc
    by (rewrite A1; apply contains_total; [apply (ly_alloc _ _ _ _ L)|done]).
  pose proof (unmap_deallocate s1 id r s2 Hr1 Hm Hc E2) as Hu. rewrite A1 in Hu.
  unfold deallocate_region. rewrite E1. cbn [res_bind].
  destruct (decide (m_available_ranges (m_range_allocator s) = [])) as [Hnil|Hne].
  { right. split; [|done]. unfold destroy_region. rewrite (region_at_ok s1 id r Hr1). cbn [res_bind].
    rewrite Hm, Hu, give_back_full; [done|apply (ly_alloc _ _ _ _ L)|done|done]. }
  left. destruct (give_back_state s2 _ [id] (m_range r) Hst2) as (a' & Ea & Ta & Hst3 & Hf);
    [by rewrite A|by rewrite A|]. rewrite A in Ea, Ta, Hf. rewrite Ea in Hu. cbn [res_bind] in Hu.
  set (s3 := with_allocators _ _ _) in *.
  assert (m_objects s3 !! id = Some (with_mapped r false)) as Hr3
    by (subst s3; fields; rewrite O; apply lookup_insert_eq).
  assert (destroy_region s1 id = destroy_region s3 id) as ->.
  { unfold destroy_region. rewrite (region_at_ok s1 id r Hr1), (region_at_ok s3 id _ Hr3). cbn [res_bind].
    rewrite Hm, Hu. done. }
  destruct (destroy_loose_ok s3 _ id _ [] Hst3 Hl Hr3 eq_refl) as (s4 & -> & Hst4 & O4 & V4 & A4).
  cbn [res_bind]. exists s4, (delete (vaddr r) c). split; [done|]. split; rewrite ?A4, ?V4; try done.
  intros i q. rewrite O4. subst s3. fields. rewrite O, owns_drop, owns_loose, (owns_remove _ _ id r) by done. done.
Qed.

(** ** Changing a region in place *)

Lemma state_weaken s c pending pending' :
  state s c pending -> (forall i, i ∈ pending -> i ∈ pending') -> state s c pending'.
Proof using.
  intros [I P S] Hp. split; [done|done|]. intros i q Hq. destruct (S i q Hq) as [?|?]; [left; auto|by right].
Qed.

(** A region changed in place, but for the page tables. *)
Lemma update_region_inv s c pending id r f :
  inv s c -> settled s c pending -> owns (m_objects s) c id r ->
  m_range (f r) = m_range r -> m_mapped (f r) = m_mapped r ->
  region_good (shape (m_vmobjects s)) (m_total_range (m_range_allocator s)) (f r) ->
  exists s', update_region s id f = Ok s' /\ inv s' c /\ settled s' c pending /\
    m_objects s' = <[id := f r]> (m_objects s) /\ s' = with_objects s (m_objects s') /\
    forall i q, owns (m_objects s') c i q <-> (i = id /\ q = f r) \/ (owns (m_objects s) c i q /\ i <> id).
Proof using.
  intros [I1 I2 I3 I4] Hset Ho Hrange Hmap Hgood.
  assert (vaddr (f r) = vaddr r) as Hv by (unfold vaddr; by rewrite Hrange).
  unfold update_region. rewrite (region_at_ok s id r) by apply Ho. cbn [res_bind]. eexists. split; [done|]. fields.
  assert (forall i q, owns (<[id := f r]> (m_objects s)) c i q <->
    (i = id /\ q = f r) \/ (owns (m_objects s) c i q /\ i <> id)) as Hw by (intros i q; by apply owns_update with r).
  split; [split; fields; try done|split; [|done]].
  - by apply layout_update with r.
  - intros rg i Hrg Hi. destruct (I4 rg i Hrg Hi) as (q & Hq & E). destruct (decide (i = id)) as [-> |Hne].
    + exists (f r). rewrite (owns_fun _ _ _ _ _ Hq Ho) in E. unfold region_size in *. rewrite Hv, Hrange.
      split; [apply Hw; by left|done].
    + exists q. split; [apply Hw; by right|done].
  - intros i q Hq. fields. apply lookup_insert_Some in Hq as [[<- <-] |[Hne Hq]].
    + destruct (Hset id r (proj1 Ho)) as [?|[_ ?]]; [by left|right]. split; [apply Hw; by left|]. by rewrite Hmap.
    + destruct (Hset i q Hq) as [?|[Hoi ?]]; [by left|right]. split; [|done]. apply Hw. right. split; [done|congruence].
Qed.

Lemma update_region_ok s c pending id r f :
  state s c pending -> owns (m_objects s) c id r -> m_range (f r) = m_range r -> m_mapped (f r) = m_mapped r ->
  (forall p e, m_ptes s !! p = Some e -> in_region r p -> allows r e -> allows (f r) e) ->
  region_good (shape (m_vmobjects s)) (m_total_range (m_range_allocator s)) (f r) ->
  exists s', update_region s id f = Ok s' /\ state s' c pending /\
    m_objects s' = <[id := f r]> (m_objects s) /\ s' = with_objects s (m_objects s') /\
    forall i q, owns (m_objects s') c i q <-> (i = id /\ q = f r) \/ (owns (m_objects s) c i q /\ i <> id).
Proof using.
  intros [Hinv Hptes Hset] Ho Hrange Hmap Hacc Hgood.
  destruct (update_region_inv s c pending id r f Hinv Hset Ho Hrange Hmap Hgood) as (s' & E & I & S & O & Es & Hw).
  exists s'. split; [done|]. split; [|done]. split; [done| |done]. rewrite Es. fields.
  intros p e Hp. destruct (Hptes p e Hp) as (Ha & i & q & Hq & Hin & Hal). split; [done|].
  destruct (decide (i = id)) as [-> |Hne].
  - exists id, (f r). rewrite (owns_fun _ _ _ _ _ Hq Ho) in *. split; [apply Hw; by left|].
    split; [unfold in_region; by rewrite Hrange|by apply (Hacc p)].
  - exists i, q. split; [apply Hw; by right|done].
Qed.

(** No page of a vacant range is mapped. *)
Lemma vacant_unmapped s c pending total rg :
  state s c pending -> vacant total s c rg -> forall p e, m_ptes s !! p = Some e -> ~ in_range rg p.
Proof using.
  intros Hst Hvac p e Hp Hin. destruct (st_ptes _ _ _ Hst p e Hp) as (_ & i & q & Hq & Hr & _).
  by apply (va_apart _ _ _ _ Hvac i q Hq p).
Qed.

(** ** The table of shared objects

    No operation of an address space changes which object stands for an inode. *)

Lemma update_region_shared s id f s' :
  update_region s id f = Ok s' -> m_shared_vmobjects s' = m_shared_vmobjects s.
Proof using. unfold update_region. intros. keeps_shared. Qed.

Lemma take_region_shared s id s' o :
  take_region s id = Ok (s', o) -> m_shared_vmobjects s' = m_shared_vmobjects s.
Proof using. unfold take_region. intros. keeps_shared. Qed.

Lemma release_ptes_shared n s r i : m_shared_vmobjects (release_ptes n s r i) = m_shared_vmobjects s.
Proof using. revert s i. induction n as [|n IH]; intros s i; [done|]. cbn [release_ptes]. by rewrite IH. Qed.

Lemma unmap_shared s id b s' : unmap s id b = Ok s' -> m_shared_vmobjects s' = m_shared_vmobjects s.
Proof using.
  unfold unmap. intros. keeps_shared;
    match goal with E : update_region _ _ _ = Ok _ |- _ => apply update_region_shared in E; fields; rewrite E end;
    apply release_ptes_shared.
Qed.

Lemma destroy_region_shared s id s' :
  destroy_region s id = Ok s' -> m_shared_vmobjects s' = m_shared_vmobjects s.
Proof using.
  unfold destroy_region. intros. keeps_shared;
    match goal with E : unmap _ _ _ = Ok _ |- _ => apply unmap_shared in E end; fields; congruence.
Qed.

Lemma deallocate_region_shared s id s' b :
  deallocate_region s id = Ok (s', b) -> m_shared_vmobjects s' = m_shared_vmobjects s.
Proof using.
  unfold deallocate_region. intros. keeps_shared;
    repeat match goal with
    | H : take_region _ _ = Ok _ |- _ => apply take_region_shared in H
    | H : destroy_region _ _ = Ok _ |- _ => apply destroy_region_shared in H
    end; congruence.
Qed.

Lemma map_page_shared s r i s' b :
  map_individual_page_impl ensure_pte s r i = Ok (s', b) -> m_shared_vmobjects s' = m_shared_vmobjects s.
Proof using. unfold map_individual_page_impl. intros. keeps_shared. Qed.

Lemma map_shared s id s' b : map ensure_pte s id = Ok (s', b) -> m_shared_vmobjects s' = m_shared_vmobjects s.
Proof using.
  assert (forall n s r i s' j, map_pages ensure_pte n s r i = Ok (s', j) ->
    m_shared_vmobjects s' = m_shared_vmobjects s) as Hp.
  { intros n. induction n as [|n IH]; intros s0 r i s1 j; cbn [map_pages]; intros; [by keeps_shared|].
    keeps_shared; repeat match goal with
      | H : map_individual_page_impl _ _ _ _ = Ok _ |- _ => apply map_page_shared in H
      | H : map_pages _ _ _ _ _ = Ok _ |- _ => apply IH in H
      end; congruence. }
  unfold map. intros. keeps_shared; repeat match goal with
    | H : update_region _ _ _ = Ok _ |- _ => apply update_region_shared in H
    | H : map_pages _ _ _ _ _ = Ok _ |- _ => apply Hp in H
    end; congruence.
Qed.

Lemma allocate_split_shared s src rg off s' id :
  allocate_split_region s src rg off = Ok (s', id) -> m_shared_vmobjects s' = m_shared_vmobjects s.
Proof using.
  assert (forall n s src r off i s', copy_cow n s src r off i = Ok s' ->
    m_shared_vmobjects s' = m_shared_vmobjects s) as Hc.
  { intros n. induction n as [|n IH]; intros s0 src0 r off0 i s1; cbn [copy_cow]; intros; [by keeps_shared|].
    unfold region_set_should_cow in *. keeps_shared;
      match goal with H : copy_cow _ _ _ _ _ _ = Ok _ |- _ => apply IH in H end; fields; congruence. }
  unfold allocate_split_region, create_user_accessible, add_region. intros. keeps_shared;
    repeat match goal with
    | H : update_region _ _ _ = Ok _ |- _ => apply update_region_shared in H
    | H : copy_cow _ _ _ _ _ _ = Ok _ |- _ => apply Hc in H
    end; fields; congruence.
Qed.

Lemma split_region_shared s src rg s' ids :
  split_region_around_range s src rg = Ok (s', ids) -> m_shared_vmobjects s' = m_shared_vmobjects s.
Proof using.
  assert (forall l s s' ids, make_replacement_regions s src l = Ok (s', ids) ->
    m_shared_vmobjects s' = m_shared_vmobjects s) as Hm.
  { intros l. induction l as [|r l IH]; intros s0 s1 ids1; cbn [make_replacement_regions]; intros; [by keeps_shared|].
    keeps_shared; repeat match goal with
      | H : allocate_split_region _ _ _ _ = Ok _ |- _ => apply allocate_split_shared in H
      | H : make_replacement_regions _ _ _ = Ok _ |- _ => apply IH in H
      end; congruence. }
  unfold split_region_around_range. intros. keeps_shared. eauto.
Qed.

(** *** Mapping the pages of an object again *)

(** Maps some pages of a region, up to the first that cannot be mapped. *)
Fixpoint map_each (indices : list Z) s (r : Region) : res (Space (M := M) * bool) :=
  match indices with
  | [] => Ok (s, true)
  | i :: indices =>
      let* (s, mapped) := map_individual_page_impl ensure_pte s r i in
      if mapped : bool then map_each indices s r else Ok (s, false)
  end.

Lemma remap_pages_each n s r i stop :
  0 <= i -> stop < 2 ^ 32 -> (Z.to_nat (stop - i) < n)%nat ->
  remap_pages ensure_pte n s r i stop = map_each (seqZ i (stop - i)) s r.
Proof using.
  revert s i. induction n as [|n IH]; intros s i Hi Hs Hn; [lia|]. cbn [remap_pages]. case_if.
  - rewrite (seqZ_cons i) by lia. cbn [map_each].
    destruct (map_individual_page_impl _ _ _ _) as [[s' []]|]; cbn [res_bind]; [|done..].
    rewrite wrap_id by (reflexivity || (apply in_ty_spec; cbn; lia)). rewrite IH by lia.
    by replace (Z.pred (stop - i)) with (stop - (i + 1)) by lia.
  - by rewrite seqZ_nil by lia.
Qed.

(** The pages of a region that lie in a range of pages of its object. *)
Definition pages_in (r : Region) (index page_count : Z) : list Z :=
  let low := Z.max 0 (index - first_page_index r) in
  let high := Z.min (region_page_count r) (index + page_count - first_page_index r) in
  seqZ low (high - low).

Lemma elem_of_pages_in r index page_count i :
  i ∈ pages_in r index page_count <->
  0 <= i < region_page_count r /\ index <= first_page_index r + i < index + page_count.
Proof. unfold pages_in. rewrite elem_of_seqZ. lia. Qed.

(** What is left of a range of pages of the object that meets the region. *)
Lemma translate_range_ok r index page_count i n :
  0 <= first_page_index r < 2 ^ 31 -> 0 <= region_page_count r < 2 ^ 31 ->
  0 <= index -> 0 <= page_count -> index + page_count < 2 ^ 32 ->
  translate_vmobject_page_range r index page_count = (i, n, true) ->
  0 <= i /\ wrap size_t (i + n) <= region_page_count r /\
  pages_in r index page_count = seqZ i (wrap size_t (i + n) - i).
Proof.
  intros Hf Hc Hi Hn Hin. unfold translate_vmobject_page_range, pages_in.
  set (f := first_page_index r) in *. set (t := region_page_count r) in *.
  assert (forall a b c d, (c = a \/ d <= 0) -> Z.to_nat b = Z.to_nat d -> seqZ a b = seqZ c d) as Heq.
  { intros a b c d [-> |Hd] E; [|assert (b <= 0) by lia; by rewrite !seqZ_nil by lia].
    unfold seqZ. by rewrite E. }
  destruct (index <? f) eqn:E1; to_prop; cbv zeta; [destruct (page_count <=? f - index) eqn:E2; to_prop|];
    cbn [negb]; [done|..]; (case_if; [case_if; [done|]|]); intros [= <- <-];
    rewrite ?(wrap_id size_t (_ - _)) in * by (reflexivity || (apply in_ty_spec; cbn; lia)).
  all: repeat split; try lia.
  all: unfold wrap in *; cbn in *.
  all: try apply Heq.
  all: Z.to_euclidean_division_equations; lia.
Qed.

Lemma translate_range_none r index page_count i n :
  0 <= first_page_index r < 2 ^ 31 -> 0 <= region_page_count r < 2 ^ 31 ->
  0 <= index -> 0 <= page_count -> index + page_count < 2 ^ 32 ->
  translate_vmobject_page_range r index page_count = (i, n, false) -> pages_in r index page_count = [].
Proof.
  intros Hf Hc Hi Hn Hin. unfold translate_vmobject_page_range, pages_in.
  destruct (index <? _) eqn:E1; to_prop; cbv zeta; [destruct (page_count <=? _) eqn:E2; to_prop|];
    cbn [negb]; [intros; apply seqZ_nil; lia|..]; (case_if; [case_if|]); intros [=]; apply seqZ_nil;
    unfold wrap in *; cbn in *; Z.to_euclidean_division_equations; lia.
Qed.

(** When pages of a memory object change, a region that maps the object maps
    again exactly those of its own pages that show one of them, in order, and
    stops at the first for which there is no page table; a region that is not
    mapped is left alone.  This holds for every range of pages, also one that lies
    below, above or across an end of the region, although the computation of
    the number of pages wraps around for a range above it. *)
Theorem remap_touches_shared_pages s id r index page_count :
  region_at s id = Ok r -> 0 <= m_offset_in_vmobject r < 2 ^ 32 -> 0 <= region_size r < 2 ^ 32 ->
  0 <= index -> 0 <= page_count -> index + page_count < 2 ^ 32 ->
  do_remap_vmobject_page_range ensure_pte s id index page_count =
    (if m_mapped r then map_each (pages_in r index page_count) s r else Ok (s, true)) /\
  forall i, i ∈ pages_in r index page_count <->
    0 <= i < region_page_count r /\ index <= first_page_index r + i < index + page_count.
Proof using.
  intros Hr Ho Hz Hi Hn Hin. split; [|apply elem_of_pages_in].
  assert (0 <= first_page_index r < 2 ^ 31 /\ 0 <= region_page_count r < 2 ^ 31) as [Hf Hc]
    by (unfold first_page_index, region_page_count, PAGE_SIZE; Z.to_euclidean_division_equations; lia).
  unfold do_remap_vmobject_page_range. rewrite Hr. cbn [res_bind]. destruct (m_mapped r); cbn [negb]; [|done].
  destruct (translate_vmobject_page_range r index page_count) as [[i n] []] eqn:E; cbn [negb].
  - destruct (translate_range_ok _ _ _ _ _ Hf Hc Hi Hn Hin E) as (? & ? & ->). apply remap_pages_each; lia.
  - by rewrite (translate_range_none _ _ _ _ _ Hf Hc Hi Hn Hin E).
Qed.

End Spec.

(** A region of three pages that shows an object from its second page on. *)
Definition example_region : Region :=
  mkRegion (mkRange 0x1000000 0x3000) 0x1000 1 "example" 51 false true false true false true.
Definition example_object : VMObject := mkVMObject Anonymous (replicate 5 (Allocated 0x5000)) None.
Definition example_space : Space (M := RedBlackTree.RedBlackTree.RedBlackTree positive) :=
  let s := create (RangeAllocator.mkRangeAllocator [] (mkRange 0x800000 0x100000)) in
  with_vmobjects (with_objects s {[ 1%positive := example_region ]}) {[ 1%positive := example_object ]} ∅.

Lemma remap_touches_shared_pages_witness :
  pages_in example_region 3 7 = [2] /\
  do_remap_vmobject_page_range (fun _ => true) example_space 1 3 7 =
    map_each (fun _ => true) [2] example_space example_region.
Proof.
  split; [vm_compute; reflexivity|].
  refine (proj1 (remap_touches_shared_pages (fun _ => true) example_space 1 example_region 3 7 _ _ _ _ _ _));
    vm_compute; repeat split; discriminate.
Defined.

End SpaceSpec.
