(* ===== verification/Purgeable.v ===== *)
(** * Kernel/VM/PurgeablePageRanges: pages a program can do without

    [VolatilePageRange] and [VolatilePageRanges] model the ranges of pages a
    region gives up for purging, [Purgeable] how an anonymous object combines the
    ranges of its regions.  A callback of the code that always goes on is the list
    of the ranges it sees. *)

From S2P Require Import Prelude Containers.

Module VolatilePageRange.

Record VolatilePageRange := mkVolatile { base : Z; count : Z; was_purged : bool }.

#[global] Instance VolatilePageRange_eq_dec : EqDecision VolatilePageRange.
Proof. solve_decision. Defined.

Definition range_end (r : VolatilePageRange) : Z := wrap size_t (base r + count r).

Definition is_empty (r : VolatilePageRange) : bool := count r =? 0.

Definition intersects (r other : VolatilePageRange) : bool :=
  (base other <? range_end r) || (base r <? range_end other).

Definition intersects_or_adjacent (r other : VolatilePageRange) : bool :=
  (base other <=? range_end r) || (base r <=? range_end other).

Definition contains (r other : VolatilePageRange) : bool :=
  (base r <=? base other) && (range_end other <=? range_end r).

Definition intersected (r other : VolatilePageRange) : VolatilePageRange :=
  let b := Z.max (base r) (base other) in
  let e := Z.min (range_end r) (range_end other) in
  if e <=? b then mkVolatile 0 0 false else mkVolatile b (e - b) (was_purged r).

Definition combine_intersecting_or_adjacent (r other : VolatilePageRange) : res VolatilePageRange :=
  VERIFY intersects_or_adjacent r other ;;
  let purged := was_purged r || was_purged other in
  if base r <=? base other then
    Ok (mkVolatile (base r) (wrap size_t (base other - base r + count other)) purged)
  else
    Ok (mkVolatile (base other) (wrap size_t (base r - base other + count r)) purged).

Definition subtract_intersecting (r other : VolatilePageRange) : VolatilePageRange :=
  if negb (intersects r other) then r
  else if contains other r then mkVolatile (base r) 0 (was_purged r)
  else if base r <=? base other then mkVolatile (base r) (base other - base r) (was_purged r)
  else
    let new_base := range_end other in
    mkVolatile new_base (wrap size_t (base r + count r - new_base)) (was_purged r).

Definition range_equals (r other : VolatilePageRange) : bool :=
  (base r =? base other) && (count r =? count other).

End VolatilePageRange.

Module VolatilePageRanges.
Import VolatilePageRange.

Record VolatilePageRanges := mkRanges {
  m_ranges : list VolatilePageRange;
  m_total_range : VolatilePageRange;
}.

Definition with_ranges (v : VolatilePageRanges) (l : list VolatilePageRange) : VolatilePageRanges :=
  mkRanges l (m_total_range v).

Definition ranges_empty (v : VolatilePageRanges) : bool := bool_decide (m_ranges v = []).
Definition clear (v : VolatilePageRanges) : VolatilePageRanges := with_ranges v [].

Definition is_all (v : VolatilePageRanges) : bool :=
  match m_ranges v with [r] => bool_decide (r = m_total_range v) | _ => false end.
Definition set_all (v : VolatilePageRanges) : VolatilePageRanges := with_ranges v [m_total_range v].

(** The comparison of the searches; the difference is cast to [signed]. *)
Definition compare (touches : VolatilePageRange -> VolatilePageRange -> bool)
    (needle element : VolatilePageRange) : Z :=
  if touches needle element then 0
  else wrap I32 (base needle - wrap size_t (base element + count element - 1)).

Definition search (touches : VolatilePageRange -> VolatilePageRange -> bool)
    (v : VolatilePageRanges) (needle : VolatilePageRange) : res (option nat * nat) :=
  BinarySearch.binary_search (compare touches needle) (m_ranges v).

(** [VolatilePageRanges::intersects] *)
Definition ranges_intersect (v : VolatilePageRanges) (range : VolatilePageRange) : res bool :=
  let* (existing, _) := search intersects v range in
  Ok (bool_decide (existing <> None)).

(** [VolatilePageRanges::contains] *)
Definition contains_page (v : VolatilePageRanges) (index : Z) : res bool :=
  ranges_intersect v (mkVolatile index 1 false).

Definition add_unchecked (v : VolatilePageRanges) (range : VolatilePageRange) : VolatilePageRanges :=
  if is_empty (intersected (m_total_range v) range) then v
  else with_ranges v (m_ranges v ++ [range]).

(** The loop of [add] that merges the ranges after the one at [existing]; a range
    that is cut and not empty is looked at again. *)
Fixpoint merge_following (fuel : nat) (l : list VolatilePageRange) (existing inserted : nat)
    : res (list VolatilePageRange) :=
  match fuel with
  | O => Fault OutOfFuel
  | S fuel =>
      match l !! inserted with
      | None => Ok l
      | Some next =>
          let* r := Vector.at_ l existing in
          if negb (intersects_or_adjacent next r) then Ok l
          else if negb (Bool.eqb (was_purged next) (was_purged r)) then
            let next := subtract_intersecting next r in
            let* l := Vector.set_at l inserted next in
            if is_empty next then
              let* l := Vector.remove l inserted in
              merge_following fuel l existing inserted
            else merge_following fuel l existing inserted
          else
            let* r := combine_intersecting_or_adjacent r next in
            let* l := Vector.set_at l existing r in
            let* l := Vector.remove l inserted in
            merge_following fuel l existing inserted
      end
  end.

(** The range found or put in by [add], before the following ones are merged:
    the ranges and its index, or nothing when the range was there. *)
Definition place (v : VolatilePageRanges) (add_range : VolatilePageRange)
    : res (option (list VolatilePageRange * nat)) :=
  let* (existing, nearby_index) := search intersects_or_adjacent v add_range in
  match existing with
  | Some i =>
      let* r := Vector.at_ (m_ranges v) i in
      if bool_decide (r = add_range) then Ok None
      else if negb (Bool.eqb (was_purged r) (was_purged add_range)) then
        let r := subtract_intersecting r add_range in
        if is_empty r then
          let* l := Vector.set_at (m_ranges v) i add_range in Ok (Some (l, nearby_index))
        else
          let* l := Vector.set_at (m_ranges v) i r in
          let* l := Vector.insert l (S nearby_index) add_range in
          Ok (Some (l, S nearby_index))
      else
        let* r := combine_intersecting_or_adjacent r add_range in
        let* l := Vector.set_at (m_ranges v) i r in
        Ok (Some (l, nearby_index))
  | None =>
      let* (l, i) := Vector.insert_before_matching (m_ranges v) add_range
                       (fun entry => range_end add_range <=? base entry) nearby_index in
      Ok (Some (l, i))
  end.

(** [VolatilePageRanges::add] *)
Definition add (fuel : nat) (v : VolatilePageRanges) (range : VolatilePageRange)
    : res (VolatilePageRanges * bool) :=
  let add_range := intersected (m_total_range v) range in
  if is_empty add_range then Ok (v, false)
  else
    let add_range := mkVolatile (base add_range) (count add_range) (was_purged range) in
    let* placed := place v add_range in
    match placed with
    | None => Ok (v, false)
    | Some (l, i) =>
        let* l := merge_following fuel l i (S i) in
        Ok (with_ranges v l, true)
    end.

(** The loop of [remove] from [nearby_index] on, with the purge flag. *)
Fixpoint remove_loop (fuel : nat) (l : list VolatilePageRange) (nearby_index : nat)
    (range remove_range : VolatilePageRange) (purged : bool) : res (list VolatilePageRange * bool) :=
  match fuel with
  | O => Fault OutOfFuel
  | S fuel =>
      match l !! nearby_index with
      | None => Ok (l, purged)
      | Some r =>
          if negb (intersects r range) then Ok (l, purged)
          else
            let purged := purged || was_purged r in
            let r := subtract_intersecting r remove_range in
            let* l := Vector.set_at l nearby_index r in
            if is_empty r then
              let* l := Vector.remove l nearby_index in Ok (l, purged)
            else remove_loop fuel l nearby_index range remove_range purged
      end
  end.

(** [VolatilePageRanges::remove]: the ranges, whether something was removed, and
    whether it was purged. *)
Definition remove (fuel : nat) (v : VolatilePageRanges) (range : VolatilePageRange)
    : res (VolatilePageRanges * bool * bool) :=
  let remove_range := intersected (m_total_range v) range in
  if is_empty remove_range then Ok (v, false, false)
  else
    let* (existing, nearby_index) := search intersects v remove_range in
    match existing with
    | None => Ok (v, false, false)
    | Some i =>
        let* r := Vector.at_ (m_ranges v) i in
        if range_equals r remove_range then
          let* l := Vector.remove (m_ranges v) nearby_index in
          Ok (with_ranges v l, true, was_purged r)
        else
          VERIFY bool_decide (i = nearby_index) ;;
          let* (l, purged) := remove_loop fuel (m_ranges v) nearby_index range remove_range (was_purged r) in
          Ok (with_ranges v l, true, purged)
    end.

(** The loop of [for_each_intersecting_range]. *)
Fixpoint intersecting_from (l : list VolatilePageRange) (range r : VolatilePageRange) : list VolatilePageRange :=
  match l with
  | [] => []
  | existing :: l =>
      if negb (intersects existing range) then []
      else intersected existing r :: intersecting_from l range r
  end.

Definition for_each_intersecting_range (v : VolatilePageRanges) (range : VolatilePageRange)
    : res (list VolatilePageRange) :=
  let r := intersected (m_total_range v) range in
  if is_empty r then Ok []
  else
    let* (existing, nearby_index) := search intersects v r in
    match existing with
    | None => Ok []
    | Some i =>
        let* existing := Vector.at_ (m_ranges v) i in
        if range_equals existing r then Ok [r]
        else
          VERIFY bool_decide (i = nearby_index) ;;
          Ok (intersecting_from (drop nearby_index (m_ranges v)) range r)
    end.

(** The ranges between those of [l], from [b] up to [e]; a range that starts at
    [b] does not move [b]. *)
Fixpoint between (l : list VolatilePageRange) (b e : Z) : list VolatilePageRange :=
  match l with
  | [] => if b <? e then [mkVolatile b (e - b) false] else []
  | r :: l =>
      if base r =? b then between l b e
      else mkVolatile b (wrap size_t (base r - b)) false :: between l (range_end r) e
  end.

(** [VolatilePageRanges::for_each_nonvolatile_range] *)
Definition for_each_nonvolatile_range (v : VolatilePageRanges) : list VolatilePageRange :=
  between (m_ranges v) (base (m_total_range v)) (range_end (m_total_range v)).

End VolatilePageRanges.

(** ** The ranges of the regions of an object *)

Module Purgeable.
Import VolatilePageRange VolatilePageRanges.

(** What is left of a range of the region [self] in the ranges of the others;
    nothing when one of them has no range at all. *)
Fixpoint shared_part (range : VolatilePageRange) (self : nat) (others : list (nat * VolatilePageRanges))
    : option VolatilePageRange :=
  match others with
  | [] => Some range
  | (j, v) :: others =>
      if bool_decide (j = self) then shared_part range self others
      else if ranges_empty v then None
      else
        let range := fold_left intersected (m_ranges v) range in
        if is_empty range then Some range else shared_part range self others
  end.

(** The inner loop, over the ranges of one region; [false] ends the iteration. *)
Fixpoint volatile_of (l : list VolatilePageRange) (self : nat) (all : list (nat * VolatilePageRanges))
    : list VolatilePageRange * bool :=
  match l with
  | [] => ([], true)
  | r :: l =>
      match shared_part r self all with
      | None => ([], false)
      | Some range =>
          let '(rest, go) := volatile_of l self all in
          (if is_empty range then rest else range :: rest, go)
      end
  end.

Fixpoint volatile_loop (l all : list (nat * VolatilePageRanges)) : list VolatilePageRange :=
  match l with
  | [] => []
  | (self, v) :: l =>
      let '(ranges, go) := volatile_of (m_ranges v) self all in
      ranges ++ if go then volatile_loop l all else []
  end.

(** [AnonymousVMObject::for_each_volatile_range] *)
Definition object_volatile_ranges (purgeable : list VolatilePageRanges) : list VolatilePageRange :=
  let all := zip (seq 0 (length purgeable)) purgeable in
  volatile_loop all all.

(** [AnonymousVMObject::for_each_nonvolatile_range] *)
Definition object_nonvolatile_ranges (page_count : Z) (purgeable : list VolatilePageRanges)
    : list VolatilePageRange :=
  between (object_volatile_ranges purgeable) 0 page_count.

(** [AnonymousVMObject::update_volatile_cache] *)
Definition update_volatile_cache (page_count : Z) (purgeable : list VolatilePageRanges) : VolatilePageRanges :=
  fold_left add_unchecked (object_nonvolatile_ranges page_count purgeable)
    (mkRanges [] (mkVolatile 0 page_count false)).

(** [AnonymousVMObject::is_nonvolatile] *)
Definition is_nonvolatile (page_count : Z) (purgeable : list VolatilePageRanges) (page_index : Z) : res bool :=
  let* found := contains_page (update_volatile_cache page_count purgeable) page_index in
  Ok (negb found).

(** [CommittedCowPages] *)
Definition allocate_one (m_committed_pages : Z) : res Z :=
  VERIFY 0 <? m_committed_pages ;; Ok (m_committed_pages - 1).
(** [return_one]: what is left, and whether that is nothing. *)
Definition return_one (m_committed_pages : Z) : res (Z * bool) :=
  VERIFY 0 <? m_committed_pages ;; Ok (m_committed_pages - 1, m_committed_pages - 1 =? 0).

End Purgeable.

(** ** Lemmas *)

Module PurgeableFacts.
Import VolatilePageRange VolatilePageRanges Purgeable.

(** A range of pages of an object of at most 2^20 pages. *)
Definition range_ok (r : VolatilePageRange) : Prop := 0 <= base r /\ 0 < count r /\ base r + count r <= 2 ^ 20.

Lemma range_end_eq r : range_ok r -> range_end r = base r + count r.
Proof.
  intros (H1 & H2 & H3). unfold range_end. apply wrap_id; [done|]. apply in_ty_spec. cbn. lia.
Qed.

(** Any two ranges count as intersecting, wherever they lie. *)
Lemma always_intersect r other : range_ok r -> range_ok other -> intersects r other = true.
Proof.
  intros Hr Ho. unfold intersects. rewrite !range_end_eq by done. unfold range_ok in *.
  destruct (Z.ltb_spec (base other) (base r + count r)); [done|]. cbn. lia.
Qed.

Lemma always_adjacent r other : range_ok r -> range_ok other -> intersects_or_adjacent r other = true.
Proof.
  intros Hr Ho. unfold intersects_or_adjacent. rewrite !range_end_eq by done. unfold range_ok in *.
  destruct (Z.leb_spec (base other) (base r + count r)); [done|]. cbn. lia.
Qed.

(** A search among one range finds it. *)
Lemma search_single touches total r needle :
  touches needle r = true -> search touches (mkRanges [r] total) needle = Ok (Some 0%nat, 0%nat).
Proof.
  intros Ht. unfold search, BinarySearch.binary_search. cbn. unfold compare. rewrite Ht. done.
Qed.

(** The cache of volatile ranges holds the pages that are not volatile. *)
Lemma without_volatile n i :
  0 < n <= 2 ^ 20 -> 0 <= i < n -> is_nonvolatile n [] i = Ok false.
Proof.
  intros Hn Hi. assert (range_ok (mkVolatile 0 n false)) as Hr by (unfold range_ok; cbn; lia).
  assert (range_ok (mkVolatile i 1 false)) as Hs by (unfold range_ok; cbn; lia).
  assert (update_volatile_cache n [] = mkRanges [mkVolatile 0 n false] (mkVolatile 0 n false)) as E.
  { unfold update_volatile_cache. change (object_nonvolatile_ranges n []) with (between [] 0 n).
    cbn [between]. rewrite (proj2 (Z.ltb_lt 0 n)) by lia. rewrite Z.sub_0_r. cbn [fold_left].
    unfold add_unchecked, intersected. cbn [m_total_range]. rewrite (range_end_eq _ Hr). cbn [base count].
    rewrite Z.max_id, Z.min_id, Z.add_0_l, (proj2 (Z.leb_gt n 0)) by lia. unfold is_empty. cbn [count].
    by rewrite (proj2 (Z.eqb_neq (n - 0) 0)) by lia. }
  unfold is_nonvolatile, contains_page, ranges_intersect. rewrite E.
  rewrite search_single by (by apply always_intersect). done.
Qed.

End PurgeableFacts.

(** ** Properties *)

Import VolatilePageRange VolatilePageRanges Purgeable PurgeableFacts.

(** What [add] leaves of a range and the one added to it. *)
Definition joined (r q : VolatilePageRange) : VolatilePageRange :=
  if base r <=? base q then mkVolatile (base r) (base q + count q - base r) (was_purged r)
  else mkVolatile (base q) (base r + count r - base q) (was_purged r).

(** Adding a range to one that is not purged either gives a single range
    from the lower of the two starts: up to the end of the added range when that
    starts later, and otherwise up to the end of the old one.  The pages
    between two ranges that do not touch become volatile with them, and a range
    inside the old one ends it. *)
Theorem volatile_add_joins n r q fuel :
  range_ok r -> range_ok q -> base r + count r <= n -> base q + count q <= n -> n <= 2 ^ 20 ->
  r <> q -> was_purged r = was_purged q ->
  add (S fuel) (mkRanges [r] (mkVolatile 0 n false)) q =
    Ok (mkRanges [joined r q] (mkVolatile 0 n false), true).
Proof.
  intros Hr Hq Hrn Hqn Hn Hne Hp. assert (range_ok (mkVolatile 0 n false)) as Ht by (unfold range_ok in *; cbn; lia).
  assert (intersected (mkVolatile 0 n false) q = mkVolatile (base q) (count q) false) as Ei.
  { unfold intersected. rewrite !range_end_eq by done. cbn [base count]. unfold range_ok in *.
    rewrite (proj2 (Z.leb_gt _ _)) by lia. cbn. f_equal; lia. }
  unfold add. cbn [m_total_range]. rewrite Ei. unfold is_empty. cbn [base count].
  rewrite (proj2 (Z.eqb_neq (count q) 0)) by (unfold range_ok in *; lia).
  replace (mkVolatile (base q) (count q) (was_purged q)) with q by (by destruct q).
  unfold place. rewrite search_single by (by apply always_adjacent). cbn [res_bind].
  change (Vector.at_ (m_ranges (mkRanges [r] (mkVolatile 0 n false))) 0) with (Ok r). cbn [res_bind].
  rewrite bool_decide_false by done. rewrite Hp, Bool.eqb_reflx. cbn [negb].
  unfold combine_intersecting_or_adjacent. rewrite always_adjacent by done. cbn [verify res_bind].
  rewrite Hp, orb_diag. unfold joined. rewrite Hp. unfold range_ok in *.
  destruct (base r <=? base q) eqn:E; to_prop; cbn [res_bind];
    rewrite wrap_id by (reflexivity || (apply in_ty_spec; cbn; lia)).
  - by replace (base q - base r + count q) with (base q + count q - base r) by lia.
  - by replace (base r - base q + count r) with (base r + count r - base q) by lia.
Qed.

Lemma volatile_add_joins_witness :
  add 1 (mkRanges [mkVolatile 0 1 false] (mkVolatile 0 64 false)) (mkVolatile 10 2 false) =
    Ok (mkRanges [mkVolatile 0 12 false] (mkVolatile 0 64 false), true).
Proof.
  apply (volatile_add_joins 64 (mkVolatile 0 1 false) (mkVolatile 10 2 false) 0);
    unfold range_ok; cbn; try lia; done.
Defined.

Lemma subtract_low r q :
  range_ok r -> range_ok q -> base r < base q ->
  subtract_intersecting r q = mkVolatile (base r) (base q - base r) (was_purged r).
Proof.
  intros Hr Hq Hb. unfold subtract_intersecting, contains. rewrite always_intersect by done. cbn [negb].
  rewrite (proj2 (Z.leb_gt (base q) (base r))), (proj2 (Z.leb_le (base r) (base q))) by lia. done.
Qed.

Lemma subtract_high r q :
  range_ok r -> range_ok q -> base q < base r -> base q + count q < base r + count r ->
  subtract_intersecting r q =
    mkVolatile (base q + count q) (base r + count r - (base q + count q)) (was_purged r).
Proof.
  intros Hr Hq Hb He. unfold subtract_intersecting, contains. rewrite always_intersect by done. cbn [negb].
  rewrite !range_end_eq by done. unfold range_ok in *.
  rewrite (proj2 (Z.leb_gt (_ + _) (base q + count q))), andb_false_r, (proj2 (Z.leb_gt (base r) (base q))) by lia.
  by rewrite wrap_id by (reflexivity || (apply in_ty_spec; cbn; lia)).
Qed.

(** Cutting a range leaves one that is cut again. *)
Lemma subtract_again r q :
  range_ok r -> range_ok q -> contains q r = false -> base r <> base q ->
  range_ok (subtract_intersecting r q) /\ contains q (subtract_intersecting r q) = false /\
  base (subtract_intersecting r q) <> base q.
Proof.
  intros Hr Hq Hc Hb. unfold contains in *. rewrite !range_end_eq in Hc by done.
  destruct (Z.le_gt_cases (base q) (base r)).
  - rewrite (proj2 (Z.leb_le _ _)) in Hc by done. cbn [andb] in Hc. to_prop.
    rewrite subtract_high by (done || lia). unfold range_ok in *.
    rewrite !range_end_eq by (unfold range_ok; cbn; lia). cbn [base count]. repeat split; lia.
  - rewrite subtract_low by (done || lia). unfold range_ok in *. cbn [base count].
    rewrite (proj2 (Z.leb_gt (base q) (base r))) by lia. repeat split; lia.
Qed.

Lemma remove_loop_endless fuel r q purged :
  range_ok r -> range_ok q -> contains q r = false -> base r <> base q ->
  remove_loop fuel [r] 0 q q purged = Fault OutOfFuel.
Proof.
  revert r purged. induction fuel as [|fuel IH]; intros r purged Hr Hq Hc Hb; [done|].
  destruct (subtract_again r q Hr Hq Hc Hb) as (Hr' & Hc' & Hb').
  cbn [remove_loop lookup list_lookup]. rewrite always_intersect by done. cbn [negb].
  change (Vector.set_at [r] 0 (subtract_intersecting r q)) with (Ok [subtract_intersecting r q]). cbn [res_bind].
  unfold is_empty. rewrite (proj2 (Z.eqb_neq (count _) 0)) by (unfold range_ok in Hr'; lia). by apply IH.
Qed.

(** Taking a part out of a volatile range does not end: when the part lies
    inside the object, starts elsewhere than the range and does not cover it,
    the loop of [remove] runs forever, with the locks of the object held. *)
Theorem volatile_remove_endless n r q :
  range_ok r -> range_ok q -> base q + count q <= n -> n <= 2 ^ 20 ->
  was_purged q = false -> contains q r = false -> base r <> base q ->
  forall fuel, remove fuel (mkRanges [r] (mkVolatile 0 n false)) q = Fault OutOfFuel.
Proof.
  intros Hr Hq Hqn Hn Hp Hc Hb fuel. assert (range_ok (mkVolatile 0 n false)) as Ht by (unfold range_ok in *; cbn; lia).
  assert (intersected (mkVolatile 0 n false) q = q) as Ei.
  { unfold intersected. rewrite !range_end_eq by done. cbn [base count]. unfold range_ok in *.
    rewrite (proj2 (Z.leb_gt _ _)) by lia. destruct q. cbn in *. f_equal; lia || done. }
  unfold remove. cbn [m_total_range]. rewrite Ei. unfold is_empty.
  rewrite (proj2 (Z.eqb_neq (count q) 0)) by (unfold range_ok in *; lia).
  rewrite search_single by (by apply always_intersect). cbn [res_bind m_ranges].
  change (Vector.at_ [r] 0) with (Ok r). cbn [res_bind]. unfold range_equals.
  rewrite (proj2 (Z.eqb_neq (base r) (base q))) by done. cbn [andb].
  rewrite bool_decide_true by done. cbn [verify res_bind]. by rewrite remove_loop_endless.
Qed.

Lemma volatile_remove_endless_witness :
  remove 1000 (mkRanges [mkVolatile 0 10 false] (mkVolatile 0 64 false)) (mkVolatile 5 1 false) =
    Fault OutOfFuel.
Proof.
  apply (volatile_remove_endless 64 (mkVolatile 0 10 false) (mkVolatile 5 1 false));
    unfold range_ok; cbn; try lia; done.
Defined.
