(* ===== verification/CopyOnWrite.v ===== *)
(** * Page faults and copy-on-write

    [CopyOnWrite] models what happens to the pages of memory objects when
    processes read and write them and when a process forks: the cloning of
    regions and objects, the page fault handlers of Kernel/VM/Region.cpp and
    AnonymousVMObject.cpp, and the page table entries the handlers leave.  The
    regions of all processes are in one map; an entry is found by the region and
    the index of the page in it.  The reference count of a frame is the number of
    slots that hold it, and an object lives as long as a region shows it.  No
    range of pages is volatile. *)

From Stdlib Require Import String.
From S2P Require Import Prelude Memory Containers RangeAllocator Region FramePool Purgeable.

Module CopyOnWrite.
Import VirtualAddress Range VMObject Region Purgeable.

(** An anonymous object has committed pages it has not used, and a pool of them
    it shares with its clones. *)
Record Object := mkObject {
  vm : VMObject;
  m_unused_committed_pages : Z;
  m_shared_committed_cow_pages : option positive;
}.

(** A present page table entry. *)
Record pte := mkPte { pte_page : page; pte_writable : bool }.

Inductive PageFaultResponse := ShouldCrash | OutOfMemory | Continue.

Inductive fault_type := PageNotPresent | ProtectionViolation.

Record PageFault := mkFault { f_type : fault_type; f_write : bool; f_vaddr : Z }.

Section System.
Context {P : Type} `{FramePool P}.

Record System := mkSystem {
  s_regions : gmap positive Region;
  s_objects : gmap positive Object;
  s_pools : gmap positive Z;
  s_ptes : gmap (positive * Z) pte;
  s_frames : P;
}.

Definition with_regions (s : System) (m : gmap positive Region) : System :=
  mkSystem m (s_objects s) (s_pools s) (s_ptes s) (s_frames s).
Definition with_objects (s : System) (m : gmap positive Object) : System :=
  mkSystem (s_regions s) m (s_pools s) (s_ptes s) (s_frames s).
Definition with_pools (s : System) (m : gmap positive Z) : System :=
  mkSystem (s_regions s) (s_objects s) m (s_ptes s) (s_frames s).
Definition with_ptes (s : System) (m : gmap (positive * Z) pte) : System :=
  mkSystem (s_regions s) (s_objects s) (s_pools s) m (s_frames s).
Definition with_frames (s : System) (p : P) : System :=
  mkSystem (s_regions s) (s_objects s) (s_pools s) (s_ptes s) p.

Definition with_slots (o : Object) (pages : list page) : Object :=
  mkObject (mkVMObject (m_class (vm o)) pages (m_cow_map (vm o))) (m_unused_committed_pages o)
    (m_shared_committed_cow_pages o).

Definition region_at (s : System) (rid : positive) : res Region := of_opt UndefinedBehaviour (s_regions s !! rid).
Definition object_at (s : System) (oid : positive) : res Object := of_opt UndefinedBehaviour (s_objects s !! oid).

Definition set_object (s : System) (oid : positive) (o : Object) : System :=
  with_objects s (<[oid := o]> (s_objects s)).

(** The slots of all objects. *)
Definition slots (s : System) : list page :=
  concat ((fun x => m_physical_pages (vm x.2)) <$> map_to_list (s_objects s)).

(** [PhysicalPage::ref_count] *)
Definition ref_count (s : System) (f : Z) : nat := length (filter (fun p => p = Allocated f) (slots s)).

(** The regions that show an object. *)
Definition regions_of (s : System) (oid : positive) : list positive :=
  (map_to_list (filter (fun x => m_vmobject x.2 = oid) (s_regions s))).*1.

(** [PhysicalPage::unref] of a page a slot no longer holds. *)
Definition release_page (s : System) (p : page) : res System :=
  match p with
  | Allocated f =>
      if bool_decide (ref_count s f = 0%nat) then
        let* m := fp_return (s_frames s) f in Ok (with_frames s m)
      else Ok s
  | _ => Ok s
  end.

(** Assignment to a slot. *)
Definition assign_slot (s : System) (oid : positive) (k : nat) (p : page) : res System :=
  let* o := object_at s oid in
  let* old := Vector.at_ (m_physical_pages (vm o)) k in
  release_page (set_object s oid (with_slots o (<[k := p]> (m_physical_pages (vm o))))) old.

(** The byte at an offset in a page. *)
Definition page_byte (s : System) (p : page) (o : Z) : Z :=
  match p with Allocated f => fp_byte (s_frames s) f o | _ => 0 end.

(** ** Mapping *)

(** Whether a page table for a page of a region is there or can be allocated. *)
Context (tables : positive -> Z -> bool).

(** [Region::should_cow] *)
Definition region_should_cow (s : System) (r : Region) (page_index : Z) : res bool :=
  let* o := object_at s (m_vmobject r) in
  if negb (is_anonymous (vm o)) then Ok false
  else should_cow (vm o) (Z.to_nat (first_page_index r + page_index)) (m_shared r).

(** [physical_page] and [physical_page_slot] *)
Definition physical_page (s : System) (r : Region) (page_index : Z) : res page :=
  VERIFY page_index <? region_page_count r ;;
  let* o := object_at s (m_vmobject r) in
  Vector.at_ (m_physical_pages (vm o)) (Z.to_nat (first_page_index r + page_index)).

(** [Region::map_individual_page_impl] *)
Definition map_individual_page_impl (s : System) (rid : positive) (page_index : Z) : res (System * bool) :=
  let* r := region_at s rid in
  let page_vaddr := vaddr_from_page_index r page_index in
  let user_allowed := (0x00800000 <=? page_vaddr) && (page_vaddr <? 0xc0000000) in
  VERIFY negb (m_mmap r && negb user_allowed) ;;
  if negb (tables rid page_index) then Ok (s, false)
  else
    let* p := physical_page s r page_index in
    if bool_decide (p = NoPage) || (negb (is_readable r) && negb (is_writable r)) then
      Ok (with_ptes s (delete (rid, page_index) (s_ptes s)), true)
    else
      let* cow := if is_special p then Ok true else region_should_cow s r page_index in
      Ok (with_ptes s (<[(rid, page_index) := mkPte p (if cow : bool then false else is_writable r)]> (s_ptes s)), true).

(** The loop of [Region::map]: the number of pages that were mapped. *)
Fixpoint map_pages (n : nat) (s : System) (rid : positive) (page_index : Z) : res (System * Z) :=
  match n with
  | O => Ok (s, page_index)
  | S n =>
      let* (s, mapped) := map_individual_page_impl s rid page_index in
      if mapped : bool then map_pages n s rid (page_index + 1) else Ok (s, page_index)
  end.

(** [Region::map] *)
Definition map_region (s : System) (rid : positive) : res (System * bool) :=
  let* r := region_at s rid in
  let* o := object_at s (m_vmobject r) in
  VERIFY negb (is_user r && negb (m_shared r) && is_shared_inode (vm o)) ;;
  let s := with_regions s (<[rid := with_mapped r true]> (s_regions s)) in
  let* (s, page_index) := map_pages (Z.to_nat (region_page_count r)) s rid 0 in
  Ok (s, if 0 <? page_index then page_index =? region_page_count r else false).

(** [Region::do_remap_vmobject_page] *)
Definition do_remap_vmobject_page (s : System) (rid : positive) (page_index : Z) : res (System * bool) :=
  let* r := region_at s rid in
  if negb (m_mapped r) then Ok (s, true)
  else
    let '(page_index, mapped) := translate_vmobject_page r page_index in
    if negb mapped then Ok (s, true)
    else
      let* p := physical_page s r page_index in
      VERIFY negb (bool_decide (p = NoPage)) ;;
      map_individual_page_impl s rid page_index.

Fixpoint remap_each (s : System) (rids : list positive) (page_index : Z) (success : bool) : res (System * bool) :=
  match rids with
  | [] => Ok (s, success)
  | rid :: rids =>
      let* (s, ok) := do_remap_vmobject_page s rid page_index in
      remap_each s rids page_index (success && ok)
  end.

(** [Region::remap_vmobject_page] *)
Definition remap_vmobject_page (s : System) (rid : positive) (page_index : Z) : res (System * bool) :=
  let* r := region_at s rid in
  if (1 <? length (regions_of s (m_vmobject r)))%nat then
    remap_each s (regions_of s (m_vmobject r)) page_index true
  else remap_each s [rid] page_index true.

(** ** Page faults *)

(** [AnonymousVMObject::allocate_committed_page] *)
Definition allocate_committed_page (s : System) (oid : positive) : res (System * Z) :=
  let* o := object_at s oid in
  VERIFY 0 <? m_unused_committed_pages o ;;
  let s := set_object s oid
             (mkObject (vm o) (m_unused_committed_pages o - 1) (m_shared_committed_cow_pages o)) in
  let* (m, f) := fp_take_committed (s_frames s) in
  Ok (with_frames s m, f).

(** [Region::handle_zero_fault] *)
Definition handle_zero_fault (s : System) (rid : positive) (page_index_in_region : Z)
    : res (System * PageFaultResponse) :=
  let* r := region_at s rid in
  let* o := object_at s (m_vmobject r) in
  VERIFY is_anonymous (vm o) ;;
  let* p := physical_page s r page_index_in_region in
  let k := translate_to_vmobject_page r page_index_in_region in
  let finish s :=
    let* (s, ok) := remap_vmobject_page s rid k in
    Ok (s, if ok : bool then Continue else OutOfMemory) in
  match p with
  | Allocated _ => finish s
  | NoPage => Fault VerifyFailed
  | LazyCommittedPage =>
      let* (s, f) := allocate_committed_page s (m_vmobject r) in
      let* s := assign_slot s (m_vmobject r) (Z.to_nat k) (Allocated f) in
      finish s
  | SharedZeroPage =>
      let* (m, page) := fp_take (s_frames s) true in
      let s := with_frames s m in
      match page with
      | Some f =>
          let* s := assign_slot s (m_vmobject r) (Z.to_nat k) (Allocated f) in
          finish s
      | None =>
          let* s := assign_slot s (m_vmobject r) (Z.to_nat k) NoPage in
          Ok (s, OutOfMemory)
      end
  end.

Definition clear_cow (s : System) (oid : positive) (k : nat) : res System :=
  let* o := object_at s oid in
  let* v := set_should_cow (vm o) k false in
  Ok (set_object s oid (mkObject v (m_unused_committed_pages o) (m_shared_committed_cow_pages o))).

(** Copies the page a region shows at an index into a frame.  The source is read
    through the mapping; where there is none the copy fails and is given up. *)
Definition copy_page (s : System) (rid : positive) (page_index f : Z) : System :=
  match s_ptes s !! (rid, page_index) with
  | Some e => with_frames s (fp_fill (s_frames s) f (page_byte s (pte_page e)))
  | None => s
  end.

(** The frame for a copy, from the committed pages or not. *)
Definition cow_frame (s : System) (pool : option positive) : res (System * option Z) :=
  match pool with
  | Some pool =>
      let* c := of_opt UndefinedBehaviour (s_pools s !! pool) in
      let* c := allocate_one c in
      let s := with_pools s (<[pool := c]> (s_pools s)) in
      let* (m, f) := fp_take_committed (s_frames s) in
      Ok (with_frames s m, Some f)
  | None =>
      let* (m, f) := fp_take (s_frames s) false in
      Ok (with_frames s m, f)
  end.

(** Gives one committed page back when a page turned out not to be shared. *)
Definition return_cow_page (s : System) (oid : positive) (o : Object) (pool : positive) : res System :=
  let* c := of_opt UndefinedBehaviour (s_pools s !! pool) in
  let* (c, empty) := return_one c in
  let* m := fp_uncommit (s_frames s) 1 in
  let s := with_frames (with_pools s (<[pool := c]> (s_pools s))) m in
  Ok (if empty : bool then set_object s oid (mkObject (vm o) (m_unused_committed_pages o) None) else s).

(** [AnonymousVMObject::handle_cow_fault] for the page [k] of the object, which
    the region shows at [page_index].  The memory manager holds the special pages
    too, so those have more than one reference. *)
Definition object_handle_cow_fault (s : System) (rid oid : positive) (k : nat) (page_index : Z)
    : res (System * PageFaultResponse) :=
  let* o := object_at s oid in
  let* p := Vector.at_ (m_physical_pages (vm o)) k in
  let* nonvolatile := is_nonvolatile (page_count (vm o)) [] (Z.of_nat k) in
  let pool := if nonvolatile : bool then m_shared_committed_cow_pages o else None in
  VERIFY negb (bool_decide (p = NoPage)) ;;
  if (match p with Allocated f => bool_decide (ref_count s f = 1%nat) | _ => false end) then
    let* s := clear_cow s oid k in
    let* o := object_at s oid in
    let* s := match pool with Some pool => return_cow_page s oid o pool | None => Ok s end in
    Ok (s, Continue)
  else
    let* (s, page) := cow_frame s pool in
    match page with
    | None => Ok (s, OutOfMemory)
    | Some f =>
        let s := copy_page s rid page_index f in
        let* s := assign_slot s oid k (Allocated f) in
        let* s := clear_cow s oid k in
        Ok (s, Continue)
    end.

(** [Region::handle_cow_fault] *)
Definition handle_cow_fault (s : System) (rid : positive) (page_index_in_region : Z)
    : res (System * PageFaultResponse) :=
  let* r := region_at s rid in
  let* o := object_at s (m_vmobject r) in
  if negb (is_anonymous (vm o)) then Ok (s, ShouldCrash)
  else
    let k := translate_to_vmobject_page r page_index_in_region in
    let* (s, response) := object_handle_cow_fault s rid (m_vmobject r) (Z.to_nat k) page_index_in_region in
    let* (s, ok) := remap_vmobject_page s rid k in
    Ok (s, if ok : bool then response else OutOfMemory).

(** What reading a page of a file gives: an error, or the bytes read. *)
Context (read_bytes : positive -> Z -> option (list Z)).

(** [Region::handle_inode_fault] *)
Definition handle_inode_fault (s : System) (rid : positive) (page_index_in_region : Z)
    : res (System * PageFaultResponse) :=
  let* r := region_at s rid in
  let* o := object_at s (m_vmobject r) in
  let* inode := of_opt VerifyFailed (inode_of (vm o)) in
  let k := translate_to_vmobject_page r page_index_in_region in
  let* p := Vector.at_ (m_physical_pages (vm o)) (Z.to_nat k) in
  if negb (bool_decide (p = NoPage)) then
    let* (s, ok) := remap_vmobject_page s rid k in
    Ok (s, if ok : bool then Continue else OutOfMemory)
  else
    match read_bytes inode (wrap size_t (k * PAGE_SIZE)) with
    | None => Ok (s, ShouldCrash)
    | Some bytes =>
        let* (m, page) := fp_take (s_frames s) false in
        let s := with_frames s m in
        match page with
        | None => Ok (s, OutOfMemory)
        | Some f =>
            let* s := assign_slot s (m_vmobject r) (Z.to_nat k) (Allocated f) in
            let s := with_frames s (fp_fill (s_frames s) f (fun o => default 0 (bytes !! Z.to_nat o))) in
            let* (s, _) := remap_vmobject_page s rid k in
            Ok (s, Continue)
        end
    end.

(** [Region::handle_fault] *)
Definition handle_fault (s : System) (rid : positive) (fault : PageFault) : res (System * PageFaultResponse) :=
  let* r := region_at s rid in
  let* o := object_at s (m_vmobject r) in
  let page_index_in_region := page_index_from_address r (f_vaddr fault) in
  match f_type fault with
  | PageNotPresent =>
      if negb (f_write fault) && negb (is_readable r) then Ok (s, ShouldCrash)
      else if f_write fault && negb (is_writable r) then Ok (s, ShouldCrash)
      else if is_inode (vm o) then handle_inode_fault s rid page_index_in_region
      else
        let* p := physical_page s r page_index_in_region in
        match p with
        | NoPage => Fault VerifyFailed
        | LazyCommittedPage =>
            let k := translate_to_vmobject_page r page_index_in_region in
            let* (s, f) := allocate_committed_page s (m_vmobject r) in
            let* s := assign_slot s (m_vmobject r) (Z.to_nat k) (Allocated f) in
            let* (s, _) := remap_vmobject_page s rid k in
            Ok (s, Continue)
        | _ => Ok (s, ShouldCrash)
        end
  | ProtectionViolation =>
      let* cow := if f_write fault && is_writable r then region_should_cow s r page_index_in_region else Ok false in
      if cow : bool then
        let* p := physical_page s r page_index_in_region in
        if bool_decide (p = NoPage) then Fault UndefinedBehaviour
        else if is_special p then handle_zero_fault s rid page_index_in_region
        else handle_cow_fault s rid page_index_in_region
      else Ok (s, ShouldCrash)
  end.

(** ** Access by a program *)

Inductive outcome := Done (value : Z) | Crashed | NoMemory.

(** A read, or a write of a value: the processor looks at the entry of the page
    and faults when it does not allow the access; the instruction is started again
    when the handler says so. *)
Fixpoint access (fuel : nat) (s : System) (rid : positive) (a : Z) (write : option Z) : res (System * outcome) :=
  match fuel with
  | O => Fault OutOfFuel
  | S fuel =>
      let* r := region_at s rid in
      let i := page_index_from_address r a in
      let o := minus a (vaddr r) mod PAGE_SIZE in
      let fault t :=
        let* (s, response) := handle_fault s rid (mkFault t (bool_decide (write <> None)) a) in
        match response with
        | Continue => access fuel s rid a write
        | ShouldCrash => Ok (s, Crashed)
        | OutOfMemory => Ok (s, NoMemory)
        end in
      match s_ptes s !! (rid, i), write with
      | None, _ => fault PageNotPresent
      | Some e, None => Ok (s, Done (page_byte s (pte_page e) o))
      | Some e, Some v =>
          if pte_writable e then
            match pte_page e with
            | Allocated f =>
                let m := s_frames s in
                Ok (with_frames s (fp_fill m f (fun x => if x =? o then v else fp_byte m f x)), Done v)
            | _ => Fault UndefinedBehaviour
            end
          else fault ProtectionViolation
      end
  end.

(** A write takes at most two faults: one for a page of its own and one to find
    that nobody shares it. *)
Definition load (s : System) (rid : positive) (a : Z) : res (System * outcome) := access 3 s rid a None.
Definition store (s : System) (rid : positive) (a v : Z) : res (System * outcome) := access 3 s rid a (Some v).

(** ** Creation, cloning and destruction *)

(** An object no longer refers to a pool of committed pages. *)
Definition drop_pool (s : System) (pool : option positive) : res System :=
  match pool with
  | None => Ok s
  | Some pool =>
      if bool_decide (filter (fun x => m_shared_committed_cow_pages x.2 = Some pool) (s_objects s) = ∅) then
        let* c := of_opt UndefinedBehaviour (s_pools s !! pool) in
        let* m := if 0 <? c then fp_uncommit (s_frames s) c else Ok (s_frames s) in
        Ok (with_frames (with_pools s (delete pool (s_pools s))) m)
      else Ok s
  end.

(** The loop of the copy constructor: pages that were to be committed lazily become
    shared zero pages, as many as there are unused committed pages. *)
Fixpoint drop_lazy (pages : list page) (unused : Z) : list page * Z :=
  match pages with
  | [] => ([], unused)
  | LazyCommittedPage :: pages =>
      if unused - 1 =? 0 then (SharedZeroPage :: pages, 0)
      else let '(pages, unused) := drop_lazy pages (unused - 1) in (SharedZeroPage :: pages, unused)
  | p :: pages => let '(pages, unused) := drop_lazy pages unused in (p :: pages, unused)
  end.

(** [AnonymousVMObject(const AnonymousVMObject&)] *)
Definition copy_object (o : Object) : res Object :=
  let cow := replicate (length (m_physical_pages (vm o))) true in
  let* (pages, unused) :=
    if 0 <? m_unused_committed_pages o then
      let '(pages, unused) := drop_lazy (m_physical_pages (vm o)) (m_unused_committed_pages o) in
      VERIFY unused =? 0 ;;
      Ok (pages, unused)
    else Ok (m_physical_pages (vm o), m_unused_committed_pages o) in
  Ok (mkObject (mkVMObject (m_class (vm o)) pages (Some cow)) unused (m_shared_committed_cow_pages o)).

(** The pages [AnonymousVMObject::clone] commits. *)
Definition need_cow_pages (o : Object) : Z :=
  fold_left (fun n r => wrap size_t (n + VolatilePageRange.count r))
    (object_nonvolatile_ranges (page_count (vm o)) []) 0.

(** [AnonymousVMObject::clone]: both sides share a new pool of committed pages, and
    every page of either is to be copied. *)
Definition clone_anonymous (s : System) (oid : positive) (o : Object) : res (System * option positive) :=
  let n := need_cow_pages o in
  let* (m, granted) := fp_commit (s_frames s) n in
  let s := with_frames s m in
  if negb granted then Ok (s, None)
  else
    let pool := fresh (dom (s_pools s)) in
    let s := with_pools s (<[pool := n]> (s_pools s)) in
    let cow := replicate (length (m_physical_pages (vm o))) true in
    let parent := mkObject (mkVMObject (m_class (vm o)) (m_physical_pages (vm o)) (Some cow))
                    (m_unused_committed_pages o) (Some pool) in
    let s := set_object s oid parent in
    let* s := drop_pool s (m_shared_committed_cow_pages o) in
    let* child := copy_object parent in
    let cid := fresh (dom (s_objects s)) in
    Ok (set_object s cid child, Some cid).

(** [VMObject::clone]; the copy of a file object has the same pages. *)
Definition clone_object (s : System) (oid : positive) : res (System * option positive) :=
  let* o := object_at s oid in
  if is_anonymous (vm o) then clone_anonymous s oid o
  else
    let cid := fresh (dom (s_objects s)) in
    Ok (set_object s cid o, Some cid).

(** A new region that shows an object where another region does. *)
Definition clone_into (s : System) (r : Region) (oid : positive) : res (System * positive) :=
  let* n := new_region (m_range r) oid (m_offset_in_vmobject r) (m_name r) (m_access r) (m_cacheable r) (m_shared r) in
  let rid := fresh (dom (s_regions s)) in
  let n := set_syscall_region (set_mmap n (m_mmap r)) (m_syscall_region r) in
  Ok (with_regions s (<[rid := n]> (s_regions s)), rid).

(** [Region::clone] *)
Definition clone (s : System) (rid : positive) : res (System * option positive) :=
  let* r := region_at s rid in
  let* o := object_at s (m_vmobject r) in
  if m_shared r then
    VERIFY negb (m_stack r) ;;
    VERIFY negb (is_inode (vm o)) || is_shared_inode (vm o) ;;
    let* (s, child) := clone_into s r (m_vmobject r) in
    Ok (s, Some child)
  else
    VERIFY negb (is_inode (vm o)) || is_private_inode (vm o) ;;
    let* (s, copy) := clone_object s (m_vmobject r) in
    match copy with
    | None => Ok (s, None)
    | Some cid =>
        VERIFY m_mapped r ;;
        let* (s, _) := map_region s rid in
        let* (s, child) := clone_into s r cid in
        if m_stack r then
          VERIFY is_readable r ;;
          VERIFY is_writable r ;;
          VERIFY is_anonymous (vm o) ;;
          let* c := region_at s child in
          Ok (with_regions s (<[child := set_stack c true]> (s_regions s)), Some child)
        else Ok (s, Some child)
    end.

(** What [sys$fork] does with each region: the clone is mapped in the child. *)
Definition fork_region (s : System) (rid : positive) : res (System * option positive) :=
  let* (s, child) := clone s rid in
  match child with
  | None => Ok (s, None)
  | Some child => let* (s, _) := map_region s child in Ok (s, Some child)
  end.

(** The destruction of the pages of an object, one after the other. *)
Fixpoint clear_slots (n : nat) (s : System) (oid : positive) : res System :=
  match n with
  | O => Ok s
  | S n => let* s := assign_slot s oid n NoPage in clear_slots n s oid
  end.

(** [~AnonymousVMObject] and [~VMObject] *)
Definition destroy_object (s : System) (oid : positive) : res System :=
  let* o := object_at s oid in
  let* m := if 0 <? m_unused_committed_pages o then fp_uncommit (s_frames s) (m_unused_committed_pages o)
            else Ok (s_frames s) in
  let s := set_object (with_frames s m) oid (mkObject (vm o) 0 None) in
  let* s := drop_pool s (m_shared_committed_cow_pages o) in
  let* s := clear_slots (length (m_physical_pages (vm o))) s oid in
  Ok (with_objects s (delete oid (s_objects s))).

(** The loop over the pages of [Region::unmap]. *)
Fixpoint release_ptes (n : nat) (ptes : gmap (positive * Z) pte) (rid : positive) (page_index : Z)
    : gmap (positive * Z) pte :=
  match n with
  | O => ptes
  | S n => release_ptes n (delete (rid, page_index) ptes) rid (page_index + 1)
  end.

(** [~Region]; the object goes with the last region that shows it. *)
Definition destroy_region (s : System) (rid : positive) : res System :=
  let* r := region_at s rid in
  let s := if m_mapped r
           then with_ptes s (release_ptes (Z.to_nat (region_page_count r)) (s_ptes s) rid 0) else s in
  let s := with_regions s (delete rid (s_regions s)) in
  match regions_of s (m_vmobject r) with
  | [] => destroy_object s (m_vmobject r)
  | _ => Ok s
  end.

(** [AnonymousVMObject::create_with_size] without a page allocated now. *)
Definition create_with_size (s : System) (size_ : Z) (reserve : bool) : res (System * option positive) :=
  let* n := ceil_div size_ PAGE_SIZE in
  let* (m, granted) := if reserve then fp_commit (s_frames s) n else Ok (s_frames s, true) in
  let s := with_frames s m in
  if negb granted then Ok (s, None)
  else
    let* v := new_anonymous size_ reserve in
    let oid := fresh (dom (s_objects s)) in
    Ok (set_object s oid (mkObject v (if reserve then page_count v else 0) None), Some oid).

(** An anonymous mapping as [sys$mmap] makes it. *)
Definition map_anonymous (s : System) (range : Range) (name : string) (prot : Z) (reserve shared : bool)
    : res (System * option positive) :=
  let* (s, object) := create_with_size s (size range) reserve in
  match object with
  | None => Ok (s, None)
  | Some oid =>
      let* n := new_region range oid 0 name (prot_to_region_access_flags prot) true false in
      let rid := fresh (dom (s_regions s)) in
      let s := with_regions s (<[rid := n]> (s_regions s)) in
      let* (s, ok) := map_region s rid in
      if negb ok then let* s := destroy_region s rid in Ok (s, None)
      else
        let* r := region_at s rid in
        let r := set_mmap r true in
        let r := if shared then set_shared r true else r in
        Ok (with_regions s (<[rid := r]> (s_regions s)), Some rid)
  end.

End System.
End CopyOnWrite.
