(* ===== verification/CopyOnWriteFacts.v ===== *)
(** * Copy-on-write: invariants

    [inv] is what holds of the memory objects, the regions and the page tables
    between two operations: frames are held by slots, promises cover what may
    still be asked for, a page that is not marked for copying is in one slot only,
    and an entry is exactly what mapping its page anew would make it. *)

From Stdlib Require Import String.
From S2P Require Import Prelude Memory Containers RangeAllocator Region FramePool Purgeable CopyOnWrite.
Import VirtualAddress Range VMObject Region RegionFacts Purgeable PurgeableFacts CopyOnWrite.

Module CowFacts.

(** The number of pages to be committed lazily. *)
Definition lazy_count (pages : list page) : Z := Z.of_nat (length (filter (fun p => p = LazyCommittedPage) pages)).

Lemma lazy_count_insert pages k p q :
  pages !! k = Some p ->
  lazy_count (<[k := q]> pages) =
    lazy_count pages - (if bool_decide (p = LazyCommittedPage) then 1 else 0) +
    (if bool_decide (q = LazyCommittedPage) then 1 else 0).
Proof.
  intros Hk. pose proof (take_drop_middle pages k p Hk) as E. pose proof (lookup_lt_Some _ _ _ Hk) as Hl.
  rewrite insert_take_drop by done. rewrite <- E at 3. unfold lazy_count.
  rewrite !filter_app, !filter_cons, !length_app.
  repeat case_decide; repeat case_bool_decide; cbn [length]; try done; lia.
Qed.

Lemma lazy_count_le pages k : pages !! k = Some LazyCommittedPage -> 0 < lazy_count pages.
Proof.
  intros Hk. pose proof (lazy_count_insert pages k _ NoPage Hk) as E. rewrite bool_decide_true in E by done.
  rewrite bool_decide_false in E by done. unfold lazy_count in *. lia.
Qed.

Section Facts.
Context {P : Type} `{FP : FramePool P} `{FL : !FramePoolLaws P}.
Implicit Types s : System (P := P).

(** ** Slots *)

Definition slot s (oid : positive) (k : nat) : option page :=
  o ← s_objects s !! oid; m_physical_pages (vm o) !! k.

Lemma slots_split s oid o :
  s_objects s !! oid = Some o ->
  slots s ≡ₚ m_physical_pages (vm o) ++ slots (with_objects s (delete oid (s_objects s))).
Proof using.
  intros Ho. unfold slots. cbn [s_objects with_objects].
  rewrite <- (insert_delete_id (s_objects s) oid o Ho) at 1.
  rewrite map_to_list_insert by apply lookup_delete_eq. done.
Qed.

Lemma elem_of_slots s p : p ∈ slots s <-> exists oid k, slot s oid k = Some p.
Proof using.
  unfold slots, slot. rewrite list_elem_of_In, in_concat. setoid_rewrite <- list_elem_of_In. split.
  - intros (l & ([oid o] & -> & Ho%elem_of_map_to_list)%list_elem_of_fmap & Hp).
    apply list_elem_of_lookup in Hp as [k Hk]. exists oid, k. cbn in *. by rewrite Ho.
  - intros (oid & k & Hs). destruct (s_objects s !! oid) as [o|] eqn:Ho; [|done]. cbn in Hs.
    exists (m_physical_pages (vm o)). split; [|by eapply list_elem_of_lookup_2].
    apply list_elem_of_fmap. exists (oid, o). split; [done|]. by apply elem_of_map_to_list.
Qed.

Lemma ref_count_zero s f : ref_count s f = 0%nat <-> ~ exists oid k, slot s oid k = Some (Allocated f).
Proof using.
  unfold ref_count. rewrite <- elem_of_slots. split.
  - intros Hl%nil_length_inv Hin. apply (not_elem_of_nil (Allocated f)). rewrite <- Hl. by apply list_elem_of_filter.
  - intros Hn. apply length_zero_iff_nil. apply elem_of_nil_inv. intros p [-> Hp]%list_elem_of_filter. done.
Qed.

(** The references of a frame besides that of a slot. *)
Lemma ref_count_split s f oid k :
  slot s oid k = Some (Allocated f) ->
  exists rest, ref_count s f = S (length (filter (fun p => p = Allocated f) rest)) /\
    (Allocated f ∈ rest <-> exists oid' k', slot s oid' k' = Some (Allocated f) /\ (oid' <> oid \/ k' <> k)).
Proof using.
  intros Hs. pose proof Hs as Hs0. unfold slot in Hs. destruct (s_objects s !! oid) as [o|] eqn:Ho; [|done]. cbn in Hs.
  pose proof (take_drop_middle _ _ _ Hs) as E.
  exists (take k (m_physical_pages (vm o)) ++ drop (S k) (m_physical_pages (vm o)) ++
    slots (with_objects s (delete oid (s_objects s)))). split.
  { unfold ref_count. rewrite (Permutation_length (filter_Permutation _ _ _ (slots_split s oid o Ho))).
    rewrite <- E at 1. rewrite <- app_assoc. cbn [app].
    rewrite <- (Permutation_length (filter_Permutation _ _ _ (Permutation_middle _ _ _))).
    by rewrite filter_cons, decide_True by done. }
  rewrite !elem_of_app, elem_of_slots. split.
  - intros [[i Hi]%list_elem_of_lookup|[[i Hi]%list_elem_of_lookup|(oid' & k' & Hk')]].
    + pose proof (lookup_lt_Some _ _ _ Hi) as Hl. rewrite length_take in Hl. rewrite lookup_take_lt in Hi by lia.
      exists oid, i. unfold slot. rewrite Ho. split; [done|]. right. lia.
    + rewrite lookup_drop in Hi. exists oid, (S k + i)%nat. unfold slot. rewrite Ho. split; [done|]. right. lia.
    + unfold slot in Hk'. cbn [s_objects with_objects] in Hk'.
      destruct (decide (oid' = oid)) as [->|Hne]; [by rewrite lookup_delete_eq in Hk'|].
      rewrite lookup_delete_ne in Hk' by done. exists oid', k'. split; [done|by left].
  - intros (oid' & k' & Hk' & Hne). destruct (decide (oid' = oid)) as [->|Ho'].
    + unfold slot in Hk'. rewrite Ho in Hk'. cbn in Hk'. destruct Hne as [?|Hne]; [done|].
      destruct (decide (k' < k)%nat).
      * left. apply (list_elem_of_lookup_2 _ k'). by rewrite lookup_take_lt.
      * right. left. apply (list_elem_of_lookup_2 _ (k' - S k)%nat). rewrite lookup_drop.
        by replace (S k + (k' - S k))%nat with k' by lia.
    + right. right. exists oid', k'. unfold slot in *. cbn [s_objects with_objects]. by rewrite lookup_delete_ne.
Qed.

(** A frame with one reference is in no other slot, and one with more is. *)
Lemma ref_count_one s f oid k :
  slot s oid k = Some (Allocated f) ->
  if bool_decide (ref_count s f = 1%nat)
  then forall oid' k', slot s oid' k' = Some (Allocated f) -> oid' = oid /\ k' = k
  else exists oid' k', slot s oid' k' = Some (Allocated f) /\ (oid' <> oid \/ k' <> k).
Proof using.
  intros Hs. destruct (ref_count_split s f oid k Hs) as (rest & -> & Hin). case_bool_decide as Hb.
  - intros oid' k' Hk'. destruct (decide (oid' = oid /\ k' = k)) as [|Hne]; [done|exfalso].
    injection Hb as Hz%nil_length_inv. apply (not_elem_of_nil (Allocated f)). rewrite <- Hz.
    apply list_elem_of_filter. split; [done|]. apply Hin. exists oid', k'. split; [done|].
    destruct (decide (oid' = oid)); [right; intros ->; by apply Hne|by left].
  - apply Hin. destruct (filter (fun p => p = Allocated f) rest) as [|q l] eqn:E; [done|].
    assert (q ∈ filter (fun p => p = Allocated f) rest) as [-> Hq]%list_elem_of_filter by (rewrite E; left). done.
Qed.

(** ** The invariant *)

Definition cow_bit (o : Object) (k : nat) : bool :=
  match m_cow_map (vm o) with Some map => default false (map !! k) | None => false end.

Record object_ok (pools : gmap positive Z) (o : Object) : Prop := {
  oo_anonymous : m_class (vm o) = Anonymous;
  oo_length : 0 < page_count (vm o) <= 2 ^ 20;
  oo_cow : forall map, m_cow_map (vm o) = Some map -> length map = length (m_physical_pages (vm o));
  oo_unused : m_unused_committed_pages o = lazy_count (m_physical_pages (vm o));
  oo_present : NoPage ∉ m_physical_pages (vm o);
  oo_pool : forall p, m_shared_committed_cow_pages o = Some p -> is_Some (pools !! p);
}.

(** A region shows the whole of its object; that of a shared one is never cloned. *)
Record region_ok (objects : gmap positive Object) (r : Region) : Prop := {
  ro_base : 0x00800000 <= m_base (m_range r);
  ro_aligned : m_base (m_range r) mod PAGE_SIZE = 0;
  ro_end : m_base (m_range r) + m_size (m_range r) <= 0xc0000000;
  ro_access : access_ok (m_access r) = true;
  ro_offset : m_offset_in_vmobject r = 0;
  ro_stack : m_stack r = false;
  ro_object : exists o, objects !! m_vmobject r = Some o /\ m_size (m_range r) = PAGE_SIZE * page_count (vm o) /\
    (m_shared r = true -> m_cow_map (vm o) = None);
}.

(** The frames in use are those in slots; what is promised covers the pages to be
    committed lazily and the pools. *)
Record frames_ok s (held : list Z) (promised : Z) : Prop := {
  fo_state : fp_state (s_frames s) held promised;
  fo_held : forall f, f ∈ held <-> exists oid k, slot s oid k = Some (Allocated f);
  fo_promised : promised = sum_of m_unused_committed_pages (s_objects s) + sum_of id (s_pools s);
  fo_pools : forall p c, s_pools s !! p = Some c -> 0 <= c;
}.

(** A page not marked for copying is in no other slot. *)
Definition exclusive s : Prop := forall oid o k f, s_objects s !! oid = Some o ->
  m_physical_pages (vm o) !! k = Some (Allocated f) -> cow_bit o k = false ->
  forall oid' k', slot s oid' k' = Some (Allocated f) -> oid' = oid /\ k' = k.

Record core s (held : list Z) (promised : Z) : Prop := {
  co_frames : frames_ok s held promised;
  co_objects : forall oid o, s_objects s !! oid = Some o -> object_ok (s_pools s) o;
  co_regions : forall rid r, s_regions s !! rid = Some r -> region_ok (s_objects s) r /\ m_mapped r = true;
  co_private : forall rid rid' r r', s_regions s !! rid = Some r -> s_regions s !! rid' = Some r' ->
    m_vmobject r = m_vmobject r' -> rid = rid' \/ (m_shared r = true /\ m_shared r' = true);
  co_exclusive : exclusive s;
}.

(** The entry that mapping a page of a region makes. *)
Definition expected s (r : Region) (i : Z) : option pte :=
  match s_objects s !! m_vmobject r with
  | Some o =>
      match m_physical_pages (vm o) !! Z.to_nat i with
      | Some NoPage | None => None
      | Some p =>
          if negb (is_readable r) && negb (is_writable r) then None
          else Some (mkPte p (if is_special p || (negb (m_shared r) && cow_bit o (Z.to_nat i)) then false
                              else is_writable r))
      end
  | None => None
  end.

(** The entries are as expected but for those of the pages in [dirty]. *)
Definition ptes_but s (dirty : positive -> nat -> Prop) : Prop := forall rid i,
  match s_regions s !! rid with
  | Some r =>
      if (0 <=? i) && (i <? region_page_count r)
      then dirty (m_vmobject r) (Z.to_nat i) \/ s_ptes s !! (rid, i) = expected s r i
      else s_ptes s !! (rid, i) = None
  | None => s_ptes s !! (rid, i) = None
  end.

Definition clean (oid : positive) (k : nat) : Prop := False.

Record inv s (held : list Z) (promised : Z) : Prop := {
  iv_core : core s held promised;
  iv_ptes : ptes_but s clean;
}.

(** ** Mapping *)

Lemma region_pages objects r o :
  region_ok objects r -> objects !! m_vmobject r = Some o ->
  region_page_count r = page_count (vm o) /\ first_page_index r = 0 /\ 0 <= m_size (m_range r) < 2 ^ 32.
Proof using.
  intros [] Ho. destruct ro_object0 as (o' & Ho' & Hsz & _). assert (o' = o) as -> by congruence.
  unfold region_page_count, first_page_index, region_size, size. rewrite ro_offset0, Hsz.
  unfold page_count, PAGE_SIZE in *. repeat split; try lia; Z.to_euclidean_division_equations; lia.
Qed.

Lemma cow_page_vaddr objects r o i :
  region_ok objects r -> objects !! m_vmobject r = Some o -> 0 <= i < page_count (vm o) ->
  0x00800000 <= vaddr_from_page_index r i < 0xc0000000.
Proof using.
  intros Hr Ho Hi. destruct (region_pages objects r o Hr Ho) as (_ & _ & Hs). destruct Hr.
  destruct ro_object0 as (o' & Ho' & Hsz & _). assert (o' = o) as -> by congruence.
  unfold vaddr_from_page_index, offset, vaddr, base, PAGE_SIZE in *.
  rewrite (wrap_id size_t (i * 4096)) by (reflexivity || (apply in_ty_spec; cbn; lia)).
  rewrite wrap_id by (reflexivity || (apply in_ty_spec; cbn; lia)). lia.
Qed.

Context (tables : positive -> Z -> bool) (Htables : forall rid i, tables rid i = true).

Lemma should_cow_value (o : Object) pools k p shared :
  object_ok pools o -> m_physical_pages (vm o) !! k = Some p ->
  should_cow (vm o) k shared = Ok (is_special p || (negb shared && cow_bit o k)).
Proof using.
  intros [] Hp. unfold should_cow, Vector.at_, cow_bit. rewrite Hp. cbn [of_opt res_bind].
  destruct (is_special p); [done|]. destruct shared; [done|]. cbn [negb orb andb].
  destruct (m_cow_map (vm o)) as [map|] eqn:E; [|done].
  destruct (lookup_lt_is_Some_2 map k) as [b ->]; [|done].
  rewrite (oo_cow0 map eq_refl). by eapply lookup_lt_Some.
Qed.

(** Mapping a page makes the entry expected of it. *)
Lemma cow_map_page_ok s rid r o i :
  s_regions s !! rid = Some r -> region_ok (s_objects s) r -> s_objects s !! m_vmobject r = Some o ->
  object_ok (s_pools s) o -> 0 <= i < page_count (vm o) ->
  map_individual_page_impl tables s rid i =
    Ok (with_ptes s (partial_alter (fun _ => expected s r i) (rid, i) (s_ptes s)), true).
Proof using Htables.
  intros Hr Hok Ho Hobj Hi. destruct (region_pages _ _ _ Hok Ho) as (Hc & Hf & _).
  unfold map_individual_page_impl, region_at. rewrite Hr. cbn [of_opt res_bind].
  pose proof (cow_page_vaddr _ _ _ _ Hok Ho Hi) as Hv.
  replace ((_ <=? _) && _) with true by lia. cbn [negb]. rewrite andb_false_r. cbn [negb verify res_bind].
  rewrite Htables. cbn [negb]. unfold physical_page. rewrite Hc. replace (i <? page_count (vm o)) with true by lia.
  cbn [verify res_bind]. unfold object_at. rewrite Ho. cbn [of_opt res_bind]. rewrite Hf, Z.add_0_l.
  unfold Vector.at_. destruct (lookup_lt_is_Some_2 (m_physical_pages (vm o)) (Z.to_nat i)) as [p Hp];
    [unfold page_count in Hi; lia|]. rewrite Hp. cbn [of_opt res_bind]. unfold expected. rewrite Ho, Hp.
  assert (p <> NoPage) as Hne by (intros ->; apply (oo_present _ _ Hobj); by eapply list_elem_of_lookup_2).
  rewrite bool_decide_false by done. cbn [orb].
  assert ((if is_special p then Ok true else region_should_cow s r i) =
    Ok (is_special p || (negb (m_shared r) && cow_bit o (Z.to_nat i)))) as ->.
  { destruct (is_special p) eqn:Es; [done|]. unfold region_should_cow, object_at. rewrite Ho. cbn [of_opt res_bind].
    unfold is_anonymous. rewrite (oo_anonymous _ _ Hobj). cbn [negb]. rewrite Hf, Z.add_0_l.
    rewrite (should_cow_value o (s_pools s) _ p) by done. by rewrite Es. }
  destruct (negb (is_readable r) && negb (is_writable r)); [by destruct p|]. cbn [res_bind]. by destruct p.
Qed.

Lemma cow_map_pages_ok n s rid r o i :
  s_regions s !! rid = Some r -> region_ok (s_objects s) r -> s_objects s !! m_vmobject r = Some o ->
  object_ok (s_pools s) o -> 0 <= i -> i + Z.of_nat n = page_count (vm o) ->
  exists ptes, map_pages tables n s rid i = Ok (with_ptes s ptes, page_count (vm o)) /\
    forall rid' j, ptes !! (rid', j) =
      if bool_decide (rid' = rid) && ((i <=? j) && (j <? page_count (vm o))) then expected s r j
      else s_ptes s !! (rid', j).
Proof using Htables.
  revert s i. induction n as [|n IH]; intros s i Hr Hok Ho Hobj Hi Hn; cbn [map_pages].
  { exists (s_ptes s). split; [do 2 f_equal; [by destruct s|lia]|]. intros rid' j.
    by replace ((i <=? j) && (j <? page_count (vm o))) with false by lia; rewrite andb_false_r. }
  rewrite (cow_map_page_ok s rid r o i) by (done || lia). cbn [res_bind].
  destruct (IH (with_ptes s (partial_alter (fun _ => expected s r i) (rid, i) (s_ptes s))) (i + 1))
    as (ptes & -> & Hp); [done..|lia|lia|]. exists ptes. split; [done|]. intros rid' j. rewrite Hp. cbn [s_ptes with_ptes].
  change (expected (with_ptes s _) r j) with (expected s r j).
  destruct (decide (rid' = rid)) as [->|Hne].
  - rewrite bool_decide_true by done. cbn [andb]. destruct (decide (j = i)) as [->|].
    + replace ((i + 1 <=? i) && _) with false by lia. replace ((i <=? i) && _) with true by lia.
      by rewrite lookup_partial_alter_eq.
    + rewrite lookup_partial_alter_ne by congruence.
      by replace ((i <=? j) && (j <? page_count (vm o))) with ((i + 1 <=? j) && (j <? page_count (vm o))) by lia.
  - rewrite bool_decide_false by done. cbn [andb]. by rewrite lookup_partial_alter_ne by congruence.
Qed.

Lemma map_region_ok s rid r o :
  s_regions s !! rid = Some r -> region_ok (s_objects s) r -> s_objects s !! m_vmobject r = Some o ->
  object_ok (s_pools s) o ->
  exists ptes, map_region tables s rid =
      Ok (with_ptes (with_regions s (<[rid := with_mapped r true]> (s_regions s))) ptes, true) /\
    forall rid' j, ptes !! (rid', j) =
      if bool_decide (rid' = rid) && ((0 <=? j) && (j <? page_count (vm o))) then expected s r j
      else s_ptes s !! (rid', j).
Proof using Htables.
  intros Hr Hok Ho Hobj. destruct (region_pages _ _ _ Hok Ho) as (Hc & _ & _).
  unfold map_region, region_at, object_at. rewrite Hr. cbn [of_opt res_bind]. rewrite Ho. cbn [of_opt res_bind].
  unfold is_shared_inode. rewrite (oo_anonymous _ _ Hobj), andb_false_r. cbn [negb verify res_bind].
  destruct (cow_map_pages_ok (Z.to_nat (region_page_count r))
    (with_regions s (<[rid := with_mapped r true]> (s_regions s))) rid (with_mapped r true) o 0) as (ptes & -> & Hp);
    [apply lookup_insert_eq|by destruct Hok|done|done|lia|rewrite Hc; pose proof (oo_length _ _ Hobj); lia|].
  cbn [res_bind]. exists ptes. split; [|exact Hp].
  pose proof (oo_length _ _ Hobj). rewrite Hc, Z.eqb_refl, (proj2 (Z.ltb_lt 0 _)) by lia. done.
Qed.

Lemma elem_of_regions_of s oid rid :
  rid ∈ regions_of s oid <-> exists r, s_regions s !! rid = Some r /\ m_vmobject r = oid.
Proof using.
  unfold regions_of. rewrite list_elem_of_fmap. split.
  - intros ([i r] & -> & Hr%elem_of_map_to_list). apply map_lookup_filter_Some in Hr as [Hr Hv]. by exists r.
  - intros (r & Hr & Hv). exists (rid, r). split; [done|]. apply elem_of_map_to_list, map_lookup_filter_Some. done.
Qed.

(** One region maps again the page of its object that changed. *)
Lemma do_remap_ok s rid r o k :
  s_regions s !! rid = Some r -> region_ok (s_objects s) r -> m_mapped r = true ->
  s_objects s !! m_vmobject r = Some o -> object_ok (s_pools s) o -> (k < length (m_physical_pages (vm o)))%nat ->
  do_remap_vmobject_page tables s rid (Z.of_nat k) =
    Ok (with_ptes s (partial_alter (fun _ => expected s r (Z.of_nat k)) (rid, Z.of_nat k) (s_ptes s)), true).
Proof using Htables.
  intros Hr Hok Hm Ho Hobj Hk. destruct (region_pages _ _ _ Hok Ho) as (Hc & Hf & _).
  unfold do_remap_vmobject_page, region_at. rewrite Hr. cbn [of_opt res_bind]. rewrite Hm. cbn [negb].
  unfold translate_vmobject_page. rewrite Hf, Hc, Z.sub_0_r. unfold page_count.
  rewrite (proj2 (Z.ltb_ge (Z.of_nat k) 0)), (proj2 (Z.leb_gt (Z.of_nat (length _)) (Z.of_nat k))) by lia. cbn [negb].
  unfold physical_page. rewrite Hc. replace (Z.of_nat k <? _) with true by (unfold page_count; lia).
  cbn [verify res_bind]. unfold object_at. rewrite Ho. cbn [of_opt res_bind]. rewrite Hf, Z.add_0_l, Nat2Z.id.
  unfold Vector.at_. destruct (lookup_lt_is_Some_2 (m_physical_pages (vm o)) k Hk) as [p Hp]. rewrite Hp.
  cbn [of_opt res_bind]. rewrite bool_decide_false. 2:{ intros ->. apply (oo_present _ _ Hobj). by eapply list_elem_of_lookup_2. }
  cbn [negb verify res_bind]. apply cow_map_page_ok with (o := o); try done. unfold page_count. lia.
Qed.

Lemma remap_each_ok s held promised oid o k rids :
  core s held promised -> s_objects s !! oid = Some o -> (k < length (m_physical_pages (vm o)))%nat ->
  (forall rid, rid ∈ rids -> rid ∈ regions_of s oid) ->
  exists ptes, remap_each tables s rids (Z.of_nat k) true = Ok (with_ptes s ptes, true) /\
    forall rid j, ptes !! (rid, j) =
      if bool_decide (rid ∈ rids /\ j = Z.of_nat k)
      then r ← s_regions s !! rid; expected s r j else s_ptes s !! (rid, j).
Proof using Htables.
  intros Hc Ho Hk. revert s Hc Ho. induction rids as [|rid rids IH]; intros s Hc Ho Hin; cbn [remap_each].
  { exists (s_ptes s). split; [by destruct s|]. intros rid j. rewrite bool_decide_false; [done|].
    by intros [?%not_elem_of_nil _]. }
  destruct (proj1 (elem_of_regions_of s oid rid)) as (r & Hr & <-); [apply Hin; left|].
  destruct (co_regions _ _ _ Hc rid r Hr) as [Hok Hm].
  rewrite (do_remap_ok s rid r o k) by (done || by apply (co_objects _ _ _ Hc (m_vmobject r))). cbn [res_bind andb].
  destruct (IH (with_ptes s (partial_alter (fun _ => expected s r (Z.of_nat k)) (rid, Z.of_nat k) (s_ptes s))))
    as (ptes & -> & Hp); [by destruct Hc as [[] ? ? ? ?]|done|intros; apply Hin; by right|].
  exists ptes. split; [done|]. intros rid' j. rewrite Hp. cbn [s_regions s_ptes with_ptes].
  change (expected (with_ptes s _)) with (expected s).
  destruct (decide (rid' ∈ rids /\ j = Z.of_nat k)) as [[H1 H2]|Hn].
  - rewrite !bool_decide_true; [done|split; [by right|done]|done].
  - rewrite (bool_decide_false (rid' ∈ rids /\ _)) by done.
    destruct (decide ((rid', j) = (rid, Z.of_nat k))) as [[= -> ->]|Hne].
    + rewrite bool_decide_true by (split; [left|done]). rewrite Hr. by rewrite lookup_partial_alter_eq.
    + rewrite bool_decide_false; [by rewrite lookup_partial_alter_ne|].
      intros [[-> |?]%elem_of_cons ->]; [done|]. by apply Hn.
Qed.

(** After a page of an object changed, mapping it again in every region that shows
    it makes the page tables right. *)
Lemma remap_page_ok s held promised rid r o k :
  core s held promised -> s_regions s !! rid = Some r -> s_objects s !! m_vmobject r = Some o ->
  (k < length (m_physical_pages (vm o)))%nat ->
  ptes_but s (fun oid j => oid = m_vmobject r /\ j = k) ->
  exists ptes, remap_vmobject_page tables s rid (Z.of_nat k) = Ok (with_ptes s ptes, true) /\
    inv (with_ptes s ptes) held promised.
Proof using Htables.
  intros Hc Hr Ho Hk Hp.
  assert (exists rids, (forall rid', rid' ∈ rids <-> rid' ∈ regions_of s (m_vmobject r)) /\
    remap_vmobject_page tables s rid (Z.of_nat k) = remap_each tables s rids (Z.of_nat k) true) as (rids & Hrids & ->).
  { unfold remap_vmobject_page, region_at. rewrite Hr. cbn [of_opt res_bind].
    assert (rid ∈ regions_of s (m_vmobject r)) as Hin by (apply elem_of_regions_of; by exists r).
    destruct (Nat.ltb_spec 1 (length (regions_of s (m_vmobject r)))); [by exists (regions_of s (m_vmobject r))|].
    exists [rid]. split; [|done]. destruct (regions_of s (m_vmobject r)) as [|x [|y l]]; [by apply not_elem_of_nil in Hin| |cbn in *; lia].
    apply list_elem_of_singleton in Hin as <-. done. }
  destruct (remap_each_ok s held promised (m_vmobject r) o k rids Hc Ho Hk) as (ptes & -> & He); [intros; by apply Hrids|].
  exists ptes. split; [done|]. split; [by destruct Hc as [[] ? ? ? ?]|]. intros rid' i.
  specialize (Hp rid' i). cbn [s_regions s_ptes with_ptes]. rewrite He.
  change (expected (with_ptes s ptes)) with (expected s).
  destruct (s_regions s !! rid') as [r'|] eqn:Hr'.
  - destruct ((0 <=? i) && (i <? region_page_count r')) eqn:Hi.
    + right. case_bool_decide as Hb; [done|]. destruct Hp as [[Hv Hj]|Hp]; [|done]. exfalso. apply Hb.
      split; [apply Hrids, elem_of_regions_of; by exists r'|lia].
    + rewrite bool_decide_false; [done|]. intros [Hb1 Hb2]. apply Hrids, elem_of_regions_of in Hb1 as (q & Hq & Hv).
      assert (q = r') as -> by congruence. destruct (co_regions _ _ _ Hc rid' r' Hr') as [Hok _].
      rewrite <- Hv in Ho. destruct (region_pages _ _ _ Hok Ho) as (Hcnt & _). unfold page_count in Hcnt. lia.
  - rewrite bool_decide_false; [done|]. intros [Hb1 _]. apply Hrids, elem_of_regions_of in Hb1 as (q & Hq & _). congruence.
Qed.

(** ** A slot gets a frame of its own *)

(** Every slot shows the bytes it showed before. *)
Definition same_content s s' : Prop := forall oid k p, slot s oid k = Some p ->
  exists p', slot s' oid k = Some p' /\ forall o, 0 <= o < PAGE_SIZE -> page_byte s' p' o = page_byte s p o.

Lemma same_content_trans s1 s2 s3 : same_content s1 s2 -> same_content s2 s3 -> same_content s1 s3.
Proof using.
  intros H1 H2 oid k p Hp. destruct (H1 oid k p Hp) as (p2 & Hp2 & E2). destruct (H2 oid k p2 Hp2) as (p3 & Hp3 & E3).
  exists p3. split; [done|]. intros o Ho. by rewrite E3, E2.
Qed.

Lemma slot_set s oid o oid' k :
  slot (set_object s oid o) oid' k =
    if bool_decide (oid' = oid) then m_physical_pages (vm o) !! k else slot s oid' k.
Proof using.
  unfold slot. cbn [s_objects set_object with_objects]. case_bool_decide as Hb.
  - subst. by rewrite lookup_insert_eq.
  - by rewrite lookup_insert_ne by congruence.
Qed.

(** What an object becomes when its slot [k] gets the frame [f]. *)
Record reslotted (pools : gmap positive Z) (o : Object) (k : nat) (f : Z) (o' : Object) : Prop := {
  rs_ok : object_ok pools o';
  rs_pages : m_physical_pages (vm o') = <[k := Allocated f]> (m_physical_pages (vm o));
  rs_cow : forall j, j <> k -> cow_bit o' j = cow_bit o j;
  rs_uncloned : m_cow_map (vm o) = None -> m_cow_map (vm o') = None;
}.

Lemma install_slots s oid o k f o' :
  s_objects s !! oid = Some o -> reslotted (s_pools s) o k f o' -> (k < length (m_physical_pages (vm o)))%nat ->
  forall oid' k', slot (set_object s oid o') oid' k' =
    if bool_decide (oid' = oid /\ k' = k) then Some (Allocated f) else slot s oid' k'.
Proof using.
  intros Ho Hre Hk oid' k'. rewrite slot_set, (rs_pages _ _ _ _ _ Hre).
  destruct (decide (oid' = oid)) as [->|Hne].
  - rewrite bool_decide_true by done. destruct (decide (k' = k)) as [->|].
    + rewrite bool_decide_true by done. by rewrite list_lookup_insert_eq.
    + rewrite bool_decide_false by tauto. rewrite list_lookup_insert_ne by done. unfold slot. by rewrite Ho.
  - rewrite !bool_decide_false by tauto. done.
Qed.

(** The old page of the slot was special, or another slot holds it too. *)
Definition replaceable s (oid : positive) (k : nat) (p : page) : Prop :=
  is_special p = true \/
  exists g oid' k', p = Allocated g /\ slot s oid' k' = Some (Allocated g) /\ (oid' <> oid \/ k' <> k).

Lemma cow_install_ok s held promised oid o k p f o' m promised' :
  core s held promised -> s_objects s !! oid = Some o -> m_physical_pages (vm o) !! k = Some p ->
  reslotted (s_pools s) o k f o' -> replaceable s oid k p ->
  fp_state m (f :: held) promised' ->
  promised' = promised - m_unused_committed_pages o + m_unused_committed_pages o' ->
  core (with_frames (set_object s oid o') m) (f :: held) promised'.
Proof using.
  intros [[F1 F2 F3 F4] C2 C3 C4 C5] Ho Hp Hre Hold Hst Hpr. pose proof (lookup_lt_Some _ _ _ Hp) as Hk.
  pose proof (install_slots s oid o k f o' Ho Hre Hk) as Hslot.
  assert (f ∉ held) as Hfresh by (pose proof (fp_distinct _ _ _ Hst) as Hd; by apply NoDup_cons in Hd as [? _]).
  assert (slot s oid k = Some p) as Hsk by (unfold slot; by rewrite Ho).
  change (slot (with_frames (set_object s oid o') m)) with (slot (set_object s oid o')).
  split; [split| | | |].
  - done.
  - intros g. change (slot (with_frames (set_object s oid o') m)) with (slot (set_object s oid o')).
    rewrite elem_of_cons, F2. split.
    + intros [-> |(oid' & k' & Hs)].
      * exists oid, k. rewrite Hslot. by rewrite bool_decide_true.
      * destruct (decide (oid' = oid /\ k' = k)) as [[-> ->]|Hne].
        -- rewrite Hsk in Hs. injection Hs as ->. destruct Hold as [?|(g' & o2 & k2 & [= <-] & Hs2 & Hne)]; [done|].
           exists o2, k2. rewrite Hslot. rewrite bool_decide_false by tauto. done.
        -- exists oid', k'. rewrite Hslot. by rewrite bool_decide_false.
    + intros (oid' & k' & Hs). rewrite Hslot in Hs. case_bool_decide; [left; congruence|right]. by exists oid', k'.
  - cbn [s_objects s_pools with_frames set_object with_objects]. rewrite (sum_of_insert _ _ oid o o' Ho). lia.
  - done.
  - intros oid' ob. cbn [s_objects s_pools with_frames set_object with_objects].
    intros [[<- <-]|[_ Hob]]%lookup_insert_Some; [apply Hre|by apply (C2 oid')].
  - intros rid r Hr. destruct (C3 rid r Hr) as [Hok Hm]. split; [|done]. destruct Hok. split; try done.
    destruct ro_object0 as (q & Hq & Hsz & Hsh). cbn [s_objects with_frames set_object with_objects].
    destruct (decide (m_vmobject r = oid)) as [E|Hne].
    + rewrite E in *. rewrite lookup_insert_eq. assert (q = o) as -> by congruence. exists o'. split; [done|]. split.
      * rewrite Hsz. unfold page_count. by rewrite (rs_pages _ _ _ _ _ Hre), length_insert.
      * intros Hs. by apply (rs_uncloned _ _ _ _ _ Hre), Hsh.
    + rewrite lookup_insert_ne by done. by exists q.
  - done.
  - intros oid1 o1 j g. cbn [s_objects with_frames set_object with_objects].
    change (slot (with_frames (set_object s oid o') m)) with (slot (set_object s oid o')).
    intros Ho1 Hg Hcow oid2 k2. rewrite Hslot.
    assert (slot (set_object s oid o') oid1 j = Some (Allocated g)) as Hs1
      by (unfold slot; cbn [s_objects set_object with_objects]; by rewrite Ho1).
    rewrite Hslot in Hs1. case_bool_decide as Hb1.
    + destruct Hb1 as [-> ->]. injection Hs1 as <-. case_bool_decide as Hb2; [done|]. intros Hs2. exfalso.
      apply Hfresh, F2. by exists oid2, k2.
    + case_bool_decide as Hb2.
      * intros [= ->]. exfalso. apply Hfresh, F2. by exists oid1, j.
      * destruct (decide (oid1 = oid)) as [->|Hne].
        -- rewrite lookup_insert_eq in Ho1. injection Ho1 as <-. rewrite (rs_cow _ _ _ _ _ Hre) in Hcow by tauto.
           unfold slot in Hs1. rewrite Ho in Hs1. by apply (C5 oid o).
        -- rewrite lookup_insert_ne in Ho1 by done. by apply (C5 oid1 o1).
Qed.

(** The bytes the slots show afterwards. *)
Lemma install_content s held oid o k p f o' m :
  s_objects s !! oid = Some o -> m_physical_pages (vm o) !! k = Some p ->
  reslotted (s_pools s) o k f o' ->
  (forall g, g ∈ held <-> exists oid k, slot s oid k = Some (Allocated g)) ->
  same_bytes (s_frames s) m held ->
  (forall x, 0 <= x < PAGE_SIZE -> fp_byte m f x = page_byte s p x) ->
  same_content s (with_frames (set_object s oid o') m).
Proof using.
  intros Ho Hp Hre Hheld Hsame Hf oid' k' q Hq. pose proof (lookup_lt_Some _ _ _ Hp) as Hk.
  change (slot (with_frames (set_object s oid o') m)) with (slot (set_object s oid o')).
  rewrite (install_slots s oid o k f o' Ho Hre Hk). case_bool_decide as Hb.
  - destruct Hb as [-> ->]. assert (q = p) as -> by (unfold slot in Hq; rewrite Ho in Hq; cbn in Hq; congruence).
    exists (Allocated f). split; [done|]. intros x Hx. cbn [page_byte s_frames with_frames]. by apply Hf.
  - exists q. split; [done|]. intros x Hx. destruct q as [| | |g]; cbn [page_byte s_frames with_frames]; [done..|].
    apply Hsame; [|done]. apply Hheld. by exists oid', k'.
Qed.

End Facts.
End CowFacts.
