(* ===== verification/CopyOnWriteSpec.v ===== *)
(** * Copy-on-write: what the operations do

    The page fault handlers, accesses by programs, and the creation, cloning and
    destruction of regions, for systems that satisfy the invariant of
    CopyOnWriteFacts. *)

From Stdlib Require Import String.
From S2P Require Import Prelude Memory Containers RangeAllocator Region FramePool Purgeable CopyOnWrite CopyOnWriteFacts.
Import VirtualAddress Range VMObject Region RegionFacts Purgeable PurgeableFacts CopyOnWrite CowFacts.

Module CowSpec.
Section Spec.
Context {P : Type} `{FP : FramePool P} `{FL : !FramePoolLaws P}.
Context (tables : positive -> Z -> bool) (Htables : forall rid i, tables rid i = true).
Implicit Types s : System (P := P).

Lemma install_ptes s oid o k f o' m :
  s_objects s !! oid = Some o -> reslotted (s_pools s) o k f o' -> ptes_but s clean ->
  ptes_but (with_frames (set_object s oid o') m) (fun oid' j => oid' = oid /\ j = k).
Proof using.
  intros Ho Hre Hp rid i. specialize (Hp rid i). cbn [s_regions s_ptes with_frames set_object with_objects].
  destruct (s_regions s !! rid) as [r|]; [|done]. destruct (_ && _); [|done]. destruct Hp as [[]| ->].
  destruct (decide (m_vmobject r = oid /\ Z.to_nat i = k)) as [?|Hne]; [by left|right].
  unfold expected. cbn [s_objects with_frames set_object with_objects].
  destruct (decide (m_vmobject r = oid)) as [E|Hne'].
  - rewrite E, lookup_insert_eq, Ho, (rs_pages _ _ _ _ _ Hre). rewrite list_lookup_insert_ne by naive_solver.
    by rewrite (rs_cow _ _ _ _ _ Hre) by naive_solver.
  - by rewrite lookup_insert_ne by done.
Qed.

Lemma reslot_slots pools o k p f :
  object_ok pools o -> m_physical_pages (vm o) !! k = Some p ->
  reslotted pools o k f
    (mkObject (mkVMObject (m_class (vm o)) (<[k := Allocated f]> (m_physical_pages (vm o))) (m_cow_map (vm o)))
       (lazy_count (<[k := Allocated f]> (m_physical_pages (vm o)))) (m_shared_committed_cow_pages o)).
Proof using.
  intros [] Hp. split; try done. split; cbn; try done.
  - unfold page_count in *. cbn. by rewrite length_insert.
  - intros map Hm. rewrite length_insert. by apply oo_cow0.
  - intros [j Hj]%list_elem_of_lookup. apply oo_present0. apply list_lookup_insert_Some in Hj as [(_ & ? & _)|[_ Hj]]; [done|].
    by eapply list_elem_of_lookup_2.
Qed.

(** Assignment to a slot whose page has no references to give up. *)
Lemma assign_special s oid o k p q :
  s_objects s !! oid = Some o -> m_physical_pages (vm o) !! k = Some p -> is_special p = true ->
  assign_slot s oid k q = Ok (set_object s oid (with_slots o (<[k := q]> (m_physical_pages (vm o))))).
Proof using.
  intros Ho Hp Hs. unfold assign_slot, object_at, Vector.at_. rewrite Ho. cbn [of_opt res_bind]. rewrite Hp.
  cbn [of_opt res_bind]. by destruct p.
Qed.

Lemma page_translated objects r o i :
  region_ok objects r -> objects !! m_vmobject r = Some o -> 0 < page_count (vm o) <= 2 ^ 20 ->
  0 <= i < page_count (vm o) -> translate_to_vmobject_page r i = Z.of_nat (Z.to_nat i).
Proof using.
  intros Hr Ho Hn Hi. destruct (region_pages _ _ _ Hr Ho) as (_ & Hf & _). unfold translate_to_vmobject_page.
  rewrite Hf, Z.add_0_l, wrap_id, Z2Nat.id by (reflexivity || (apply in_ty_spec; cbn; lia) || lia). done.
Qed.

(** What a fault that was handled leaves. *)
Record handled s s' : Prop := {
  hd_inv : exists held promised, inv s' held promised;
  hd_regions : s_regions s' = s_regions s;
  hd_content : same_content s s';
  hd_objects : forall oid, is_Some (s_objects s' !! oid) -> is_Some (s_objects s !! oid);
}.

(** A slot that got a frame with the bytes it showed. *)
Lemma install_handled s held promised rid r o k p f o' m promised' :
  inv s held promised -> s_regions s !! rid = Some r -> s_objects s !! m_vmobject r = Some o ->
  m_physical_pages (vm o) !! k = Some p -> reslotted (s_pools s) o k f o' -> replaceable s (m_vmobject r) k p ->
  fp_state m (f :: held) promised' ->
  promised' = promised - m_unused_committed_pages o + m_unused_committed_pages o' ->
  same_bytes (s_frames s) m held -> (forall x, 0 <= x < PAGE_SIZE -> fp_byte m f x = page_byte s p x) ->
  exists s', remap_vmobject_page tables (with_frames (set_object s (m_vmobject r) o') m) rid (Z.of_nat k) = Ok (s', true) /\
    handled s s' /\ s_objects s' = <[m_vmobject r := o']> (s_objects s).
Proof using Htables.
  intros [Hc Hp] Hr Ho Hk Hre Hold Hst Hpr Hsame Hf.
  pose proof (cow_install_ok s held promised (m_vmobject r) o k p f o' m promised' Hc Ho Hk Hre Hold Hst Hpr) as Hc'.
  destruct (remap_page_ok tables Htables (with_frames (set_object s (m_vmobject r) o') m) (f :: held) promised' rid r o' k Hc')
    as (ptes & -> & Hi).
  - done.
  - cbn [s_objects with_frames set_object with_objects]. apply lookup_insert_eq.
  - rewrite (rs_pages _ _ _ _ _ Hre), length_insert. by eapply lookup_lt_Some.
  - by apply (install_ptes s (m_vmobject r) o k f o').
  - eexists. split; [done|]. split; [|done]. split; [by exists (f :: held), promised'|done| |].
    + change (same_content s (with_frames (set_object s (m_vmobject r) o') m)).
      eapply install_content; try done. apply (fo_held _ _ _ (co_frames _ _ _ Hc)).
    + cbn. intros oid [q [[<- _]|[_ Hq]]%lookup_insert_Some]; [by exists o|by exists q].
Qed.

(** *** A page of zeroes gets a frame *)

Section Fault.
Context s (held : list Z) (promised : Z) (rid : positive) (r : Region) (o : Object) (i : Z) (p : page).
Context (Hinv : inv s held promised) (Hr : s_regions s !! rid = Some r) (Ho : s_objects s !! m_vmobject r = Some o).
Context (Hi : 0 <= i) (Hp : m_physical_pages (vm o) !! Z.to_nat i = Some p).

Lemma fault_facts :
  object_ok (s_pools s) o /\ region_ok (s_objects s) r /\ i < page_count (vm o) /\
  region_page_count r = page_count (vm o) /\ first_page_index r = 0 /\
  translate_to_vmobject_page r i = Z.of_nat (Z.to_nat i) /\ p <> NoPage.
Proof using All.
  pose proof Hinv as [[_ Hob Hre _ _] _]. pose proof (Hob _ _ Ho) as Hobj. destruct (Hre rid r Hr) as [Hok _].
  destruct (region_pages _ _ _ Hok Ho) as (Hc & Hfst & _). pose proof (lookup_lt_Some _ _ _ Hp) as Hl.
  assert (i < page_count (vm o)) as Hlt by (unfold page_count; lia). split_and!; try done.
  - apply (page_translated (s_objects s) r o i Hok Ho (oo_length _ _ Hobj)). lia.
  - intros ->. apply (oo_present _ _ Hobj). by eapply list_elem_of_lookup_2.
Qed.

Lemma physical_page_ok : physical_page s r i = Ok p.
Proof using All.
  destruct fault_facts as (Hobj & Hok & Hlt & Hc & Hfst & _). unfold physical_page, object_at.
  rewrite Hc, (proj2 (Z.ltb_lt i _) Hlt). cbn [verify res_bind]. rewrite Ho. cbn [of_opt res_bind].
  rewrite Hfst, Z.add_0_l. unfold Vector.at_. by rewrite Hp.
Qed.

(** What the handlers of a page promise. *)
Definition gets_frame (result : res (System (P := P) * PageFaultResponse)) : Prop :=
  exists s' response, result = Ok (s', response) /\
    (response = OutOfMemory \/ (response = Continue /\ handled s s' /\
      exists o' f, s_objects s' = <[m_vmobject r := o']> (s_objects s) /\
        m_physical_pages (vm o') !! Z.to_nat i = Some (Allocated f))).

Definition with_frame (f : Z) : Object :=
  mkObject (mkVMObject (m_class (vm o)) (<[Z.to_nat i := Allocated f]> (m_physical_pages (vm o))) (m_cow_map (vm o)))
    (lazy_count (<[Z.to_nat i := Allocated f]> (m_physical_pages (vm o)))) (m_shared_committed_cow_pages o).

(** Both kinds of pages of zeroes. *)
Lemma zero_frame_ok m f promised' :
  is_special p = true -> fp_state m (f :: held) promised' ->
  promised' = promised - (if bool_decide (p = LazyCommittedPage) then 1 else 0) ->
  same_bytes (s_frames s) m held -> (forall x, 0 <= x < PAGE_SIZE -> fp_byte m f x = 0) ->
  gets_frame (let* (s', ok) := remap_vmobject_page tables (with_frames (set_object s (m_vmobject r) (with_frame f)) m)
                                 rid (Z.of_nat (Z.to_nat i)) in
              Ok (s', if ok : bool then Continue else OutOfMemory)).
Proof using All.
  intros Hsp Hst Hpr Hsame Hzero. destruct fault_facts as (Hobj & _). pose proof (lookup_lt_Some _ _ _ Hp) as Hl.
  pose proof (lazy_count_insert (m_physical_pages (vm o)) (Z.to_nat i) p (Allocated f) Hp) as Hlz.
  rewrite (bool_decide_false (Allocated f = _)) in Hlz by done.
  destruct (install_handled s held promised rid r o (Z.to_nat i) p f (with_frame f) m promised' Hinv Hr Ho Hp)
    as (s' & -> & Hh & Hobs); try done.
  - by apply (reslot_slots _ _ _ p).
  - by left.
  - cbn [with_frame m_unused_committed_pages]. rewrite (oo_unused _ _ Hobj). lia.
  - intros x Hx. rewrite Hzero by done. by destruct p.
  - cbn [res_bind]. exists s', Continue. split; [done|]. right. split; [done|]. split; [done|].
    exists (with_frame f), f. split; [done|]. cbn. by rewrite list_lookup_insert_eq.
Qed.

Lemma zero_page_fault_ok : p = SharedZeroPage -> gets_frame (handle_zero_fault tables s rid i).
Proof using All.
  intros Es. pose proof (zero_frame_ok) as Hframe. destruct fault_facts as (Hobj & _ & _ & _ & _ & Htr & _).
  unfold handle_zero_fault, region_at, object_at. rewrite Hr. cbn [of_opt res_bind]. rewrite Ho. cbn [of_opt res_bind].
  unfold is_anonymous. rewrite (oo_anonymous _ _ Hobj). cbn [verify res_bind]. rewrite physical_page_ok. cbn [res_bind].
  rewrite Htr, Nat2Z.id, Es. pose proof Hinv as [[[Hst _ _ _] _ _ _ _] _].
  destruct (fp_take_ok _ _ _ true Hst) as (m & page & -> & Hm). cbn [res_bind]. rewrite Es in Hp.
  rewrite (assign_special (with_frames s m) _ o (Z.to_nat i) SharedZeroPage NoPage) by done.
  destruct page as [f|]; [|by eexists _, OutOfMemory; split; [done|left]].
  destruct Hm as (Hst' & Hsame & Hzero). rewrite (assign_special _ _ o (Z.to_nat i) SharedZeroPage) by done. cbn [res_bind].
  specialize (Hframe m f promised). rewrite Es, bool_decide_false in Hframe by done.
  specialize (Hframe eq_refl Hst' ltac:(lia) Hsame (Hzero eq_refl)).
  replace (with_slots o (<[Z.to_nat i:=Allocated f]> (m_physical_pages (vm o)))) with (with_frame f); [exact Hframe|].
  unfold with_frame, with_slots. f_equal. rewrite (oo_unused _ _ Hobj), (lazy_count_insert _ _ SharedZeroPage) by done.
  rewrite !bool_decide_false by done. lia.
Qed.

Lemma promise_left : p = LazyCommittedPage -> 0 < m_unused_committed_pages o /\ 0 < promised.
Proof using All.
  intros Es. destruct fault_facts as (Hobj & _). pose proof Hinv as [[[_ _ Hprom Hpools] Hob _ _ _] _]. rewrite Es in Hp.
  pose proof (lazy_count_le _ _ Hp) as Hpos. rewrite <- (oo_unused _ _ Hobj) in Hpos. split; [done|].
  assert (m_unused_committed_pages o <= sum_of m_unused_committed_pages (s_objects s)).
  { apply (sum_of_le m_unused_committed_pages (s_objects s) (m_vmobject r)); [|done].
    intros j x Hj. rewrite (oo_unused _ _ (Hob j x Hj)). unfold lazy_count. lia. }
  assert (0 <= sum_of id (s_pools s)) by (apply sum_of_nonneg; intros ? ?; apply Hpools). lia.
Qed.

(** A committed page is there, and the slot gets it. *)
Lemma committed_page_ok :
  p = LazyCommittedPage -> exists m f,
    (let* (s, f) := allocate_committed_page s (m_vmobject r) in
     assign_slot s (m_vmobject r) (Z.to_nat i) (Allocated f)) =
      Ok (with_frames (set_object s (m_vmobject r) (with_frame f)) m) /\
    fp_state m (f :: held) (promised - 1) /\ same_bytes (s_frames s) m held /\
    forall x, 0 <= x < PAGE_SIZE -> fp_byte m f x = 0.
Proof using All.
  intros Es. destruct (promise_left Es) as [Hpos Hpp]. destruct fault_facts as (Hobj & _).
  pose proof Hinv as [[[Hst _ _ _] _ _ _ _] _]. rewrite Es in Hp.
  unfold allocate_committed_page, object_at. rewrite Ho. cbn [of_opt res_bind].
  rewrite (proj2 (Z.ltb_lt 0 _) Hpos). cbn [verify res_bind].
  destruct (fp_take_committed_ok _ _ _ Hst Hpp) as (m & f & E1 & Hst' & Hsame & Hzero).
  cbn [s_frames set_object with_objects]. rewrite E1. cbn [res_bind]. exists m, f. split; [|done].
  match goal with |- assign_slot ?x _ _ _ = _ =>
    rewrite (assign_special x (m_vmobject r)
      (mkObject (vm o) (m_unused_committed_pages o - 1) (m_shared_committed_cow_pages o)) (Z.to_nat i) LazyCommittedPage) end;
    [|cbn; apply lookup_insert_eq|done|done].
  unfold set_object, with_objects, with_frames. cbn. rewrite insert_insert_eq. do 3 f_equal.
  unfold with_frame, with_slots. cbn. f_equal.
  rewrite (oo_unused _ _ Hobj), (lazy_count_insert _ _ LazyCommittedPage) by done.
  rewrite bool_decide_true, bool_decide_false by done. lia.
Qed.

Lemma lazy_page_fault_ok : p = LazyCommittedPage -> gets_frame (handle_zero_fault tables s rid i).
Proof using All.
  intros Es. destruct fault_facts as (Hobj & _ & _ & _ & _ & Htr & _).
  destruct (committed_page_ok Es) as (m & f & E & Hst' & Hsame & Hzero).
  unfold handle_zero_fault, region_at, object_at. rewrite Hr. cbn [of_opt res_bind]. rewrite Ho. cbn [of_opt res_bind].
  unfold is_anonymous. rewrite (oo_anonymous _ _ Hobj). cbn [verify res_bind]. rewrite physical_page_ok. cbn [res_bind].
  rewrite Htr, Nat2Z.id, Es. destruct (allocate_committed_page s (m_vmobject r)) as [[s1 f1]|]; [|done].
  cbn [res_bind] in *. rewrite E. cbn [res_bind]. apply zero_frame_ok with (promised' := promised - 1); try done.
  - by rewrite Es.
  - by rewrite bool_decide_true.
Qed.

(** *** A page that may be shared is copied *)

Context (g : Z) (Hg : p = Allocated g) (Hprivate : m_shared r = false) (Hcow : cow_bit o (Z.to_nat i) = true).

(** The object with the page no longer to be copied, in a frame that may be new. *)
Definition uncowed (f : Z) : Object :=
  mkObject (mkVMObject (m_class (vm o)) (<[Z.to_nat i := Allocated f]> (m_physical_pages (vm o)))
      (Some (<[Z.to_nat i := false]> (ensure_cow_map (vm o)))))
    (m_unused_committed_pages o) (m_shared_committed_cow_pages o).

Lemma cow_map_there : exists map, m_cow_map (vm o) = Some map /\ length map = length (m_physical_pages (vm o)).
Proof using All.
  destruct fault_facts as (Hobj & _). unfold cow_bit in Hcow. destruct (m_cow_map (vm o)) as [map|] eqn:E; [|done].
  exists map. split; [done|]. by apply (oo_cow _ _ Hobj).
Qed.

Lemma uncowed_bits f j : cow_bit (uncowed f) j = if bool_decide (j = Z.to_nat i) then false else cow_bit o j.
Proof using All.
  destruct cow_map_there as (map & Em & Hl). pose proof (lookup_lt_Some _ _ _ Hp).
  unfold cow_bit, uncowed, ensure_cow_map. cbn. rewrite Em. case_bool_decide as Hb.
  - subst j. by rewrite list_lookup_insert_eq by lia.
  - by rewrite list_lookup_insert_ne by done.
Qed.

Lemma uncowed_reslotted f : reslotted (s_pools s) o (Z.to_nat i) f (uncowed f).
Proof using All.
  destruct fault_facts as (Hobj & _). destruct cow_map_there as (map & Em & Hl).
  pose proof (reslot_slots _ _ _ _ f Hobj Hp) as [[] R1 R2 R3]. split; [split; cbn; try done|done| |].
  - intros map' [= <-]. unfold ensure_cow_map. rewrite Em, !length_insert. done.
  - rewrite (oo_unused _ _ Hobj), (lazy_count_insert _ _ p) by done. rewrite Hg, !bool_decide_false by done. lia.
  - intros j Hj. by rewrite uncowed_bits, bool_decide_false.
  - by rewrite Em.
Qed.

Lemma clear_cow_ok s1 f cls pages :
  s_objects s1 !! m_vmobject r =
    Some (mkObject (mkVMObject cls pages (m_cow_map (vm o))) (m_unused_committed_pages o) (m_shared_committed_cow_pages o)) ->
  cls = m_class (vm o) -> pages = <[Z.to_nat i := Allocated f]> (m_physical_pages (vm o)) ->
  clear_cow s1 (m_vmobject r) (Z.to_nat i) = Ok (set_object s1 (m_vmobject r) (uncowed f)).
Proof using All.
  intros H1 -> ->. destruct cow_map_there as (map & Em & Hl). pose proof (lookup_lt_Some _ _ _ Hp).
  unfold clear_cow, object_at. rewrite H1. cbn [of_opt res_bind]. unfold set_should_cow, ensure_cow_map, Vector.set_at.
  cbn [vm m_cow_map m_class m_physical_pages]. rewrite Em, bool_decide_true by lia. cbn [verify res_bind].
  unfold uncowed, ensure_cow_map. by rewrite Em.
Qed.

(** A page that turned out not to be shared keeps its frame. *)
Lemma uncow_ok :
  ref_count s g = 1%nat ->
  core (set_object s (m_vmobject r) (uncowed g)) held promised /\ same_content s (set_object s (m_vmobject r) (uncowed g)).
Proof using All.
  intros Hone. pose proof (uncowed_reslotted g) as Hre. pose proof (lookup_lt_Some _ _ _ Hp) as Hl.
  pose proof (install_slots s _ o _ g _ Ho Hre Hl) as Hslot.
  assert (slot s (m_vmobject r) (Z.to_nat i) = Some (Allocated g)) as Hsk by (unfold slot; rewrite Ho; cbn; congruence).
  pose proof (ref_count_one s g _ _ Hsk) as Huniq. rewrite bool_decide_true in Huniq by done.
  assert (forall oid' k', slot (set_object s (m_vmobject r) (uncowed g)) oid' k' = slot s oid' k') as Hsame.
  { intros oid' k'. rewrite Hslot. case_bool_decide as Hb; [|done]. by destruct Hb as [-> ->]. }
  split; [|intros oid' k' q Hq; exists q; by rewrite Hsame].
  destruct Hinv as [[[F1 F2 F3 F4] C2 C3 C4 C5] _]. split; [split| | | |].
  - done.
  - intros f. rewrite F2. by setoid_rewrite Hsame.
  - cbn [s_objects s_pools set_object with_objects]. rewrite (sum_of_insert _ _ _ o) by done. cbn. lia.
  - done.
  - intros oid' ob. cbn [s_objects s_pools set_object with_objects].
    intros [[<- <-]|[_ Hob]]%lookup_insert_Some; [apply Hre|by apply (C2 oid')].
  - intros rid' r' Hr'. destruct (C3 rid' r' Hr') as [Hok Hm]. split; [|done]. destruct Hok. split; try done.
    destruct ro_object0 as (q & Hq & Hsz & Hsh). cbn [s_objects set_object with_objects].
    destruct (decide (m_vmobject r' = m_vmobject r)) as [E|Hne].
    + rewrite E in *. rewrite lookup_insert_eq. assert (q = o) as -> by congruence. exists (uncowed g). split; [done|]. split.
      * rewrite Hsz. unfold page_count. by rewrite (rs_pages _ _ _ _ _ Hre), length_insert.
      * intros Hs. destruct cow_map_there as (map & Em & _). by rewrite Hsh in Em.
    + rewrite lookup_insert_ne by done. by exists q.
  - done.
  - intros oid1 o1 j f Ho1 Hf Hb oid2 k2. rewrite Hsame. intros Hs2. cbn [s_objects set_object with_objects] in Ho1.
    destruct (decide (oid1 = m_vmobject r)) as [->|Hne].
    + rewrite lookup_insert_eq in Ho1. injection Ho1 as <-. rewrite uncowed_bits in Hb.
      assert (slot s (m_vmobject r) j = Some (Allocated f)) as Hs1.
      { rewrite <- Hsame. unfold slot. cbn [s_objects set_object with_objects]. by rewrite lookup_insert_eq. }
      case_bool_decide as Hj.
      * subst j. rewrite Hsk in Hs1. injection Hs1 as <-. by apply Huniq.
      * unfold slot in Hs1. rewrite Ho in Hs1. by apply (C5 (m_vmobject r) o j f).
    + rewrite lookup_insert_ne in Ho1 by done. by apply (C5 oid1 o1 j f).
Qed.

(** Without volatile ranges no committed page is used. *)
Lemma nonvolatile_ok : is_nonvolatile (page_count (vm o)) [] (Z.of_nat (Z.to_nat i)) = Ok false.
Proof using All.
  destruct fault_facts as (Hobj & _ & Hlt & _). apply without_volatile; [apply (oo_length _ _ Hobj)|lia].
Qed.

(** The entry of a page a program may write is there. *)
Lemma entry_there : is_writable r = true -> exists b, s_ptes s !! (rid, i) = Some (mkPte p b).
Proof using All.
  intros Hw. destruct fault_facts as (Hobj & _ & Hlt & Hc & _). destruct Hinv as [_ Hptes]. specialize (Hptes rid i).
  rewrite Hr, Hc in Hptes. replace ((0 <=? i) && _) with true in Hptes by lia. destruct Hptes as [[]| ->].
  unfold expected. rewrite Ho, Hp, Hw, andb_false_r, Hg. by eexists.
Qed.

(** A frame for the copy, with the bytes of the page. *)
Lemma cow_copy_ok m f :
  is_writable r = true -> fp_state m (f :: held) promised -> same_bytes (s_frames s) m held ->
  exists m', copy_page (with_frames s m) rid i f = with_frames s m' /\ fp_state m' (f :: held) promised /\
    same_bytes (s_frames s) m' held /\ forall x, 0 <= x < PAGE_SIZE -> fp_byte m' f x = page_byte s p x.
Proof using All.
  intros Hw Hst Hsame. destruct (entry_there Hw) as (b & He). unfold copy_page. cbn [s_ptes with_frames]. rewrite He.
  cbn [pte_page s_frames with_frames].
  destruct (fp_fill_ok m (f :: held) promised f (page_byte (with_frames s m) p) Hst) as (Hst' & Hb1 & Hb2); [left|].
  assert (f ∉ held) as Hfresh by (pose proof (fp_distinct _ _ _ Hst) as Hd; by apply NoDup_cons in Hd as [? _]).
  assert (g ∈ held) as Hgh.
  { destruct Hinv as [[[_ F2 _ _] _ _ _ _] _]. apply F2. exists (m_vmobject r), (Z.to_nat i). unfold slot. rewrite Ho. cbn. congruence. }
  eexists. split; [done|]. split; [done|]. split.
  - intros f' x Hf' Hx. rewrite Hb2; [by apply Hsame|by right| |done]. by intros ->.
  - intros x Hx. rewrite Hb1 by done. rewrite Hg. cbn [page_byte s_frames with_frames]. by apply Hsame.
Qed.

(** The slot gets the copy; the frame it held is still held elsewhere. *)
Lemma cow_assign_ok m f :
  ref_count s g <> 1%nat -> f ∉ held ->
  (let* s1 := assign_slot (with_frames s m) (m_vmobject r) (Z.to_nat i) (Allocated f) in
   clear_cow s1 (m_vmobject r) (Z.to_nat i)) = Ok (with_frames (set_object s (m_vmobject r) (uncowed f)) m) /\
  replaceable s (m_vmobject r) (Z.to_nat i) p.
Proof using All.
  intros Hmore Hf. pose proof (uncowed_reslotted f) as Hre. pose proof (lookup_lt_Some _ _ _ Hp) as Hl.
  assert (slot s (m_vmobject r) (Z.to_nat i) = Some (Allocated g)) as Hsk by (unfold slot; rewrite Ho; cbn; congruence).
  pose proof (ref_count_one s g _ _ Hsk) as Hother. rewrite bool_decide_false in Hother by done.
  destruct Hother as (oid' & k' & Hs' & Hne). split; [|right; by exists g, oid', k'].
  unfold assign_slot, object_at. cbn [s_objects with_frames]. rewrite Ho. cbn [of_opt res_bind].
  unfold Vector.at_. rewrite Hp. cbn [of_opt res_bind]. rewrite Hg. unfold release_page.
  rewrite bool_decide_false.
  - cbn [res_bind]. erewrite clear_cow_ok; [|cbn; apply lookup_insert_eq|done|done].
    unfold set_object, with_objects, with_frames. cbn. by rewrite insert_insert_eq.
  - intros Hz%ref_count_zero. apply Hz. exists oid', k'. rewrite slot_set. case_bool_decide as Hb; [|done].
    subst oid'. unfold slot in Hs'. rewrite Ho in Hs'. cbn in Hs'. cbn [vm with_slots m_physical_pages].
    rewrite list_lookup_insert_ne; [done|]. destruct Hne; [done|congruence].
Qed.

(** What handling the fault promises. *)
Definition gets_copy (result : res (System (P := P) * PageFaultResponse)) : Prop :=
  exists s' response, result = Ok (s', response) /\
    (response = OutOfMemory \/ (response = Continue /\ handled s s' /\
      exists f, s_objects s' = <[m_vmobject r := uncowed f]> (s_objects s))).

Lemma cow_fault_ok : is_writable r = true -> gets_copy (handle_cow_fault tables s rid i).
Proof using All.
  intros Hw. destruct fault_facts as (Hobj & Hok & Hlt & _ & _ & Htr & _). pose proof (lookup_lt_Some _ _ _ Hp) as Hl.
  unfold handle_cow_fault, region_at, object_at. rewrite Hr. cbn [of_opt res_bind]. rewrite Ho. cbn [of_opt res_bind].
  unfold is_anonymous. rewrite (oo_anonymous _ _ Hobj). cbn [negb]. rewrite Htr, Nat2Z.id.
  unfold object_handle_cow_fault, object_at. rewrite Ho. cbn [of_opt res_bind]. unfold Vector.at_ at 1. rewrite Hp.
  cbn [of_opt res_bind]. rewrite nonvolatile_ok. cbn [res_bind]. rewrite Hg. rewrite bool_decide_false by done.
  cbn [negb verify res_bind]. case_bool_decide as Hone.
  - rewrite (clear_cow_ok s g (m_class (vm o)) (m_physical_pages (vm o)));
      [|rewrite Ho; by destruct o as [[] ? ?]|done|by rewrite list_insert_id by congruence].
    cbn [res_bind s_objects set_object with_objects]. rewrite lookup_insert_eq. cbn [of_opt res_bind].
    destruct (uncow_ok Hone) as [Hc Hsame].
    destruct (remap_page_ok tables Htables (set_object s (m_vmobject r) (uncowed g)) held promised rid r (uncowed g) (Z.to_nat i) Hc)
      as (ptes & -> & Hi').
    + done.
    + apply lookup_insert_eq.
    + cbn. by rewrite length_insert.
    + destruct Hinv as [_ Hptes]. exact (install_ptes s _ o _ g _ (s_frames s) Ho (uncowed_reslotted g) Hptes).
    + cbn [res_bind]. eexists _, Continue. split; [done|]. right. split; [done|]. split; [|by exists g].
      split; [by exists held, promised|done|exact Hsame|].
      cbn. intros oid [q [[<- _]|[_ Hq]]%lookup_insert_Some]; [by exists o|by exists q].
  - pose proof Hinv as [[[Hst _ _ _] _ _ _ _] _]. unfold cow_frame.
    destruct (fp_take_ok _ _ _ false Hst) as (m & page & -> & Hm). cbn [res_bind]. destruct page as [f|].
    + destruct Hm as (Hst' & Hsame & _).
      destruct (cow_copy_ok m f Hw Hst' Hsame) as (m' & -> & Hst2 & Hsame2 & Hbytes).
      assert (f ∉ held) as Hfresh by (pose proof (fp_distinct _ _ _ Hst') as Hd; by apply NoDup_cons in Hd as [? _]).
      destruct (cow_assign_ok m' f Hone Hfresh) as [E Hold].
      destruct (assign_slot (with_frames s m') (m_vmobject r) (Z.to_nat i) (Allocated f)) as [s1|]; [|done].
      cbn [res_bind] in *. rewrite E. cbn [res_bind].
      destruct (install_handled s held promised rid r o (Z.to_nat i) p f (uncowed f) m' promised Hinv Hr Ho Hp
        (uncowed_reslotted f) Hold Hst2) as (s' & -> & Hh & Hobs); [cbn; lia|done|done|].
      cbn [res_bind]. exists s', Continue. split; [done|]. right. split; [done|]. split; [done|]. by exists f.
    + destruct Hm as [Hst' Hsame]. destruct Hinv as [[[F1 F2 F3 F4] C2 C3 C4 C5] Hptes]. cbn [res_bind].
      destruct (remap_page_ok tables Htables (with_frames s m) held promised rid r o (Z.to_nat i))
        as (ptes & -> & _); [by split; [split| | | |]|done|done|done| |].
      * intros rid' j. specialize (Hptes rid' j). cbn [s_regions s_ptes with_frames].
        destruct (s_regions s !! rid') as [r'|]; [|done]. destruct (_ && _); [|done]. destruct Hptes as [[]|?]; by right.
      * cbn [res_bind]. eexists _, OutOfMemory. split; [done|]. by left.
Qed.

End Fault.

(** ** Accesses *)

Definition in_region (r : Region) (a : Z) : Prop := vaddr r <= a < vaddr r + region_size r.

(** The page and the offset of an address. *)
Definition page_at (r : Region) (a : Z) : Z := (a - vaddr r) / PAGE_SIZE.
Definition offset_at (r : Region) (a : Z) : Z := (a - vaddr r) mod PAGE_SIZE.

Lemma address_ok objects r o a :
  region_ok objects r -> objects !! m_vmobject r = Some o -> in_region r a ->
  page_index_from_address r a = page_at r a /\ minus a (vaddr r) mod PAGE_SIZE = offset_at r a /\
  0 <= page_at r a < page_count (vm o) /\ 0 <= offset_at r a < PAGE_SIZE.
Proof using.
  intros Hok Ho [Ha1 Ha2]. destruct Hok. destruct ro_object0 as (o' & Ho' & Hsz & _). assert (o' = o) as -> by congruence.
  unfold page_index_from_address, page_at, offset_at, minus, vaddr, region_size, base, size in *.
  rewrite wrap_id by (reflexivity || (apply in_ty_spec; cbn; lia)). split; [done|]. split; [done|].
  unfold PAGE_SIZE in *. split; [Z.to_euclidean_division_equations; lia|apply Z.mod_pos_bound; lia].
Qed.

(** A byte of a slot was written, and nothing else changed. *)
Record stored s (r : Region) (a v : Z) s' : Prop := {
  sd_inv : exists held promised, inv s' held promised;
  sd_regions : s_regions s' = s_regions s;
  sd_content : forall oid k p, slot s oid k = Some p -> exists p', slot s' oid k = Some p' /\
    forall x, 0 <= x < PAGE_SIZE -> page_byte s' p' x =
      if bool_decide (oid = m_vmobject r /\ k = Z.to_nat (page_at r a) /\ x = offset_at r a) then v
      else page_byte s p x;
  sd_objects : forall oid, is_Some (s_objects s' !! oid) -> is_Some (s_objects s !! oid);
}.

Lemma handled_stored s s1 r a v s' : handled s s1 -> stored s1 r a v s' -> stored s r a v s'.
Proof using.
  intros [H1 H2 H3 H4] [S1 S2 S3 S4]. split; [done|congruence| |by auto]. intros oid k p Hp.
  destruct (H3 oid k p Hp) as (p1 & Hp1 & E1). destruct (S3 oid k p1 Hp1) as (p' & Hp' & E'). exists p'. split; [done|].
  intros x Hx. rewrite E' by done. case_bool_decide; [done|by apply E1].
Qed.

(** The frames change under slots that stay as they are. *)
Lemma refilled_inv s held promised m :
  inv s held promised -> fp_state m held promised -> inv (with_frames s m) held promised.
Proof using. intros [[[F1 F2 F3 F4] C2 C3 C4 C5] Hp] Hst. split; [split; [split| | | |]|]; done. Qed.

Lemma entry_of s held promised rid r i :
  inv s held promised -> s_regions s !! rid = Some r -> 0 <= i < region_page_count r ->
  s_ptes s !! (rid, i) = expected s r i.
Proof using.
  intros [_ Hp] Hr Hi. specialize (Hp rid i). rewrite Hr in Hp. replace ((0 <=? i) && _) with true in Hp by lia.
  by destruct Hp as [[]|Hp].
Qed.

Section Access.
Context (read_bytes : positive -> Z -> option (list Z)).
Context (rid : positive) (r : Region) (a v : Z) (Ha : in_region r a).

(** A page of its own is written without a fault. *)
Lemma write_direct fuel s held promised o f :
  inv s held promised -> s_regions s !! rid = Some r -> s_objects s !! m_vmobject r = Some o ->
  is_writable r = true -> m_physical_pages (vm o) !! Z.to_nat (page_at r a) = Some (Allocated f) ->
  cow_bit o (Z.to_nat (page_at r a)) = false ->
  exists s', access tables read_bytes (S fuel) s rid a (Some v) = Ok (s', Done v) /\ stored s r a v s'.
Proof using Ha Htables.
  intros Hinv Hr Ho Hw Hp Hb. pose proof Hinv as [[[F1 F2 F3 F4] C2 C3 C4 C5] _]. destruct (C3 rid r Hr) as [Hok _].
  destruct (address_ok _ _ _ _ Hok Ho Ha) as (E1 & E2 & Hi & Hx). destruct (region_pages _ _ _ Hok Ho) as (Hc & _).
  cbn [access]. unfold region_at. rewrite Hr. cbn [of_opt res_bind]. rewrite E1, E2.
  rewrite (entry_of s held promised rid r) by (done || lia). unfold expected. rewrite Ho, Hp, Hw, andb_false_r, Hb, andb_false_r.
  cbn [is_special orb pte_writable pte_page]. eexists. split; [done|].
  assert (f ∈ held) as Hf by (apply F2; exists (m_vmobject r), (Z.to_nat (page_at r a)); unfold slot; by rewrite Ho).
  destruct (fp_fill_ok (s_frames s) held promised f
    (fun x => if x =? offset_at r a then v else fp_byte (s_frames s) f x) F1 Hf) as (Hst & Hb1 & Hb2).
  split; [exists held, promised; by apply refilled_inv|done| |done]. intros oid k p Hs. exists p. split; [done|].
  intros x Hxx. destruct p as [| | |g]; cbn [page_byte s_frames with_frames].
  1-3: rewrite bool_decide_false; [done|]; intros (-> & -> & _); unfold slot in Hs; rewrite Ho in Hs; cbn in Hs; congruence.
  destruct (decide (g = f)) as [->|Hne].
  - destruct (C5 _ _ _ _ Ho Hp Hb oid k Hs) as [-> ->]. rewrite Hb1 by done.
    destruct (Z.eqb_spec x (offset_at r a)) as [->|]; [by rewrite bool_decide_true|by rewrite bool_decide_false by tauto].
  - rewrite Hb2 by (done || (apply F2; by exists oid, k)). rewrite bool_decide_false; [done|].
    intros (-> & -> & _). unfold slot in Hs. rewrite Ho in Hs. cbn in Hs. congruence.
Qed.

(** What a write leads to. *)
Definition write_result s (result : res (System (P := P) * outcome)) : Prop :=
  exists s' out, result = Ok (s', out) /\ (out = NoMemory \/ (out = Done v /\ stored s r a v s')).

(** A write to a page whose entry does not allow it faults. *)
Lemma write_faults fuel s held promised o p :
  inv s held promised -> s_regions s !! rid = Some r -> s_objects s !! m_vmobject r = Some o ->
  is_writable r = true -> m_physical_pages (vm o) !! Z.to_nat (page_at r a) = Some p ->
  is_special p || (negb (m_shared r) && cow_bit o (Z.to_nat (page_at r a))) = true ->
  access tables read_bytes (S fuel) s rid a (Some v) =
    (let* (s', response) :=
       if is_special p then handle_zero_fault tables s rid (page_at r a) else handle_cow_fault tables s rid (page_at r a) in
     match response with
     | Continue => access tables read_bytes fuel s' rid a (Some v)
     | ShouldCrash => Ok (s', Crashed)
     | OutOfMemory => Ok (s', NoMemory)
     end).
Proof using Ha Htables.
  intros Hinv Hr Ho Hw Hp Hcow. pose proof Hinv as [[_ C2 C3 _ _] _]. destruct (C3 rid r Hr) as [Hok _].
  destruct (address_ok _ _ _ _ Hok Ho Ha) as (E1 & E2 & Hi & Hx). destruct (region_pages _ _ _ Hok Ho) as (Hc & Hf & _).
  pose proof (C2 _ _ Ho) as Hobj.
  destruct (fault_facts s held promised rid r o (page_at r a) p Hinv Hr Ho ltac:(lia) Hp) as (_ & _ & _ & _ & _ & _ & Hnp).
  cbn [access]. unfold region_at. rewrite Hr. cbn [of_opt res_bind]. rewrite E1.
  rewrite (entry_of s held promised rid r) by (done || lia). unfold expected. rewrite Ho, Hp, Hw, andb_false_r, Hcow.
  assert (forall (A : Type) (x y : A), match p with NoPage => x | _ => y end = y) as Hm by (intros; by destruct p).
  rewrite Hm. cbn [pte_writable].
  unfold handle_fault, region_at, object_at. rewrite Hr. cbn [of_opt res_bind]. rewrite Ho. cbn [of_opt res_bind f_type f_write f_vaddr].
  rewrite bool_decide_true by done. rewrite Hw. cbn [andb]. rewrite E1.
  unfold region_should_cow, object_at. rewrite Ho. cbn [of_opt res_bind]. unfold is_anonymous. rewrite (oo_anonymous _ _ Hobj).
  cbn [negb]. rewrite Hf, Z.add_0_l, (should_cow_value o (s_pools s) _ p) by done. rewrite Hcow. cbn [res_bind].
  rewrite (physical_page_ok s held promised rid r o (page_at r a) p) by (done || lia). cbn [res_bind].
  rewrite bool_decide_false by done. done.
Qed.

Lemma write_cow fuel s held promised o f :
  inv s held promised -> s_regions s !! rid = Some r -> s_objects s !! m_vmobject r = Some o ->
  is_writable r = true -> m_physical_pages (vm o) !! Z.to_nat (page_at r a) = Some (Allocated f) ->
  write_result s (access tables read_bytes (S (S fuel)) s rid a (Some v)).
Proof using Ha Htables.
  intros Hinv Hr Ho Hw Hp. destruct (cow_bit o (Z.to_nat (page_at r a))) eqn:Hb.
  2:{ destruct (write_direct (S fuel) s held promised o f Hinv Hr Ho Hw Hp Hb) as (s' & E & Hs).
      exists s', (Done v). split; [done|]. by right. }
  pose proof Hinv as [[_ C2 C3 _ _] _]. destruct (C3 rid r Hr) as [Hok _].
  destruct (address_ok _ _ _ _ Hok Ho Ha) as (_ & _ & Hi & _).
  assert (m_shared r = false) as Hsh.
  { destruct (ro_object _ _ Hok) as (q & Hq & _ & Hs). destruct (m_shared r); [|done]. assert (q = o) as -> by congruence.
    unfold cow_bit in Hb. by rewrite Hs in Hb. }
  rewrite (write_faults (S fuel) s held promised o (Allocated f)) by (done || by rewrite Hsh, Hb). cbn [is_special].
  destruct (cow_fault_ok s held promised rid r o (page_at r a) (Allocated f) Hinv Hr Ho ltac:(lia) Hp f eq_refl Hsh Hb Hw)
    as (s1 & response & -> & [-> |(-> & Hh & f' & Hobs)]); cbn [res_bind]; [by exists s1, NoMemory; split; [|left]|].
  pose proof Hh as [(held' & promised' & Hinv') Hregs Hcont _].
  destruct (write_direct fuel s1 held' promised' (uncowed o (page_at r a) f') f') as (s' & E & Hs); try done.
  - by rewrite Hregs.
  - rewrite Hobs. apply lookup_insert_eq.
  - cbn. rewrite list_lookup_insert_eq; [done|]. by eapply lookup_lt_Some.
  - rewrite (uncowed_bits s held promised rid r o (page_at r a) (Allocated f) Hinv Hr Ho ltac:(lia) Hp f eq_refl Hsh Hb).
    by rewrite bool_decide_true.
  - exists s', (Done v). split; [done|]. right. split; [done|]. by eapply handled_stored.
Qed.

Lemma write_any s held promised o :
  inv s held promised -> s_regions s !! rid = Some r -> s_objects s !! m_vmobject r = Some o ->
  is_writable r = true -> write_result s (store tables read_bytes s rid a v).
Proof using Ha Htables.
  intros Hinv Hr Ho Hw. pose proof Hinv as [[_ C2 C3 _ _] _]. destruct (C3 rid r Hr) as [Hok _].
  destruct (address_ok _ _ _ _ Hok Ho Ha) as (_ & _ & Hi & _). unfold store.
  destruct (lookup_lt_is_Some_2 (m_physical_pages (vm o)) (Z.to_nat (page_at r a))) as [p Hp]; [unfold page_count in Hi; lia|].
  destruct (is_special p) eqn:Hsp.
  - rewrite (write_faults 2 s held promised o p) by (done || by rewrite Hsp). rewrite Hsp.
    assert (gets_frame s r (page_at r a) (handle_zero_fault tables s rid (page_at r a)))
      as (s1 & response & -> & [-> |(-> & Hh & o' & f & Hobs & Hf)]).
    { destruct p; try done.
      - eapply zero_page_fault_ok; (eassumption || done || lia).
      - eapply lazy_page_fault_ok; (eassumption || done || lia). }
    + cbn [res_bind]. by exists s1, NoMemory; split; [|left].
    + cbn [res_bind]. pose proof Hh as [(held' & promised' & Hinv') Hregs Hcont _].
      destruct (write_cow 0 s1 held' promised' o' f) as (s' & out & -> & Hout); try done.
      * by rewrite Hregs.
      * rewrite Hobs. apply lookup_insert_eq.
      * exists s', out. split; [done|]. destruct Hout as [?|[? ?]]; [by left|right]. split; [done|]. by eapply handled_stored.
  - destruct p as [| | |f]; try done.
    + by destruct (fault_facts s held promised rid r o (page_at r a) NoPage Hinv Hr Ho ltac:(lia) Hp) as (_ & _ & _ & _ & _ & _ & ?).
    + by apply (write_cow 1 s held promised o f).
Qed.

(** A read gives the byte of the slot, and where nothing may be accessed a crash. *)
Lemma load_ok s held promised o p :
  inv s held promised -> s_regions s !! rid = Some r -> s_objects s !! m_vmobject r = Some o ->
  m_physical_pages (vm o) !! Z.to_nat (page_at r a) = Some p ->
  load tables read_bytes s rid a =
    Ok (s, if is_readable r || is_writable r then Done (page_byte s p (offset_at r a)) else Crashed).
Proof using Ha Htables.
  intros Hinv Hr Ho Hp. pose proof Hinv as [[_ C2 C3 _ _] _]. destruct (C3 rid r Hr) as [Hok _].
  destruct (address_ok _ _ _ _ Hok Ho Ha) as (E1 & E2 & Hi & Hx). destruct (region_pages _ _ _ Hok Ho) as (Hc & Hf & _).
  destruct (fault_facts s held promised rid r o (page_at r a) p Hinv Hr Ho ltac:(lia) Hp) as (_ & _ & _ & _ & _ & _ & Hnp).
  unfold load. cbn [access]. unfold region_at. rewrite Hr. cbn [of_opt res_bind]. rewrite E1, E2.
  rewrite (entry_of s held promised rid r) by (done || lia). unfold expected. rewrite Ho, Hp.
  assert (forall (A : Type) (x y : A), match p with NoPage => x | _ => y end = y) as Hm by (intros; by destruct p).
  rewrite Hm. destruct (is_readable r) eqn:Er, (is_writable r) eqn:Ew; cbn [negb andb orb]; try done.
  unfold handle_fault, region_at, object_at. rewrite Hr. cbn [of_opt res_bind]. rewrite Ho. cbn [of_opt res_bind f_type f_write].
  rewrite bool_decide_false by (intros Hn; by apply Hn). rewrite Er. done.
Qed.

Lemma store_denied s held promised o :
  inv s held promised -> s_regions s !! rid = Some r -> s_objects s !! m_vmobject r = Some o ->
  is_writable r = false -> store tables read_bytes s rid a v = Ok (s, Crashed).
Proof using Ha Htables.
  intros Hinv Hr Ho Hw. pose proof Hinv as [[_ C2 C3 _ _] _]. destruct (C3 rid r Hr) as [Hok _].
  destruct (address_ok _ _ _ _ Hok Ho Ha) as (E1 & E2 & Hi & Hx). destruct (region_pages _ _ _ Hok Ho) as (Hc & Hf & _).
  unfold store. cbn [access]. unfold region_at. rewrite Hr. cbn [of_opt res_bind]. rewrite E1.
  rewrite (entry_of s held promised rid r) by (done || lia).
  assert (forall t, handle_fault tables read_bytes s rid (mkFault t true a) = Ok (s, ShouldCrash)) as Hcrash.
  { intros t. unfold handle_fault, region_at, object_at. rewrite Hr. cbn [of_opt res_bind]. rewrite Ho.
    cbn [of_opt res_bind f_type f_write]. rewrite Hw. by destruct t. }
  rewrite bool_decide_true by done. destruct (expected s r (page_at r a)) as [e|] eqn:E; [|by rewrite Hcrash].
  assert (pte_writable e = false) as ->; [|by rewrite Hcrash].
  unfold expected in E. rewrite Ho, Hw in E. destruct (m_physical_pages (vm o) !! _) as [p|]; [|done].
  destruct p; try done; destruct (negb (is_readable r) && _); try done; injection E as <-; cbn; by repeat case_match.
Qed.

End Access.

End Spec.
End CowSpec.
