(* ===== verification/CopyOnWriteFork.v ===== *)
(** * Copy-on-write: creating, cloning and destroying regions

    What the operations do that add and remove regions and objects, for systems
    that satisfy the invariant of CopyOnWriteFacts. *)

From Stdlib Require Import String.
From S2P Require Import Prelude Memory Containers RangeAllocator Region FramePool Purgeable CopyOnWrite CopyOnWriteFacts CopyOnWriteSpec.
Import VirtualAddress Range VMObject Region RegionFacts Purgeable PurgeableFacts CopyOnWrite CowFacts CowSpec.

Module CowFork.
Section Fork.
Context {P : Type} `{FP : FramePool P} `{FL : !FramePoolLaws P}.
Context (tables : positive -> Z -> bool) (Htables : forall rid i, tables rid i = true).
Implicit Types s : System (P := P).

(** A region whose object no private region shows is mapped for the first time. *)
Lemma add_region_ok s held promised rid n o :
  inv s held promised -> s_regions s !! rid = None -> region_ok (s_objects s) n ->
  s_objects s !! m_vmobject n = Some o ->
  (forall rid' r', s_regions s !! rid' = Some r' -> m_vmobject r' = m_vmobject n ->
    m_shared r' = true /\ m_shared n = true) ->
  exists s', map_region tables (with_regions s (<[rid := n]> (s_regions s))) rid = Ok (s', true) /\
    inv s' held promised /\ s_regions s' = <[rid := with_mapped n true]> (s_regions s) /\
    s_objects s' = s_objects s /\ s_frames s' = s_frames s.
Proof using Htables.
  intros [[[F1 F2 F3 F4] C2 C3 C4 C5] Hp] Hnew Hok Ho Hpriv. destruct (region_pages _ _ _ Hok Ho) as (Hc & _).
  destruct (map_region_ok tables Htables (with_regions s (<[rid := n]> (s_regions s))) rid n o) as (ptes & -> & Hptes);
    [apply lookup_insert_eq|done|done|by apply (C2 (m_vmobject n))|].
  cbn [s_regions with_regions] in *. rewrite insert_insert_eq. eexists. split; [done|]. split; [|done].
  split; [split; [by split|done| | |done]|].
  - intros rid' r'. cbn [s_regions with_ptes with_regions].
    intros [[<- <-]|[_ Hr']]%lookup_insert_Some; [by split; [destruct Hok|]|by apply (C3 rid')].
  - intros rid1 rid2 r1 r2. cbn [s_regions with_ptes with_regions]. intros H1 H2 E.
    apply lookup_insert_Some in H1 as [[<- <-]|[Hn1 H1]]; apply lookup_insert_Some in H2 as [[<- <-]|[Hn2 H2]].
    + by left.
    + right. destruct (Hpriv rid2 r2 H2 (eq_sym E)). done.
    + right. by apply (Hpriv rid1 r1 H1 E).
    + by apply (C4 rid1 rid2).
  - intros rid' j. cbn [s_regions s_ptes with_ptes with_regions]. rewrite Hptes. cbn [s_ptes with_regions].
    change (expected (with_ptes _ _)) with (expected s). change (expected (with_regions s _)) with (expected s).
    specialize (Hp rid' j). destruct (decide (rid' = rid)) as [->|Hne].
    + rewrite lookup_insert_eq, bool_decide_true by done. cbn [andb]. change (region_page_count (with_mapped n true)) with (region_page_count n).
      rewrite Hc. rewrite Hnew in Hp. by destruct (_ && _); [right|].
    + rewrite lookup_insert_ne, bool_decide_false by done. cbn [andb]. exact Hp.
Qed.

(** ** The copy of an object *)

Lemma need_cow_pages_ok pools o : object_ok pools o -> need_cow_pages o = page_count (vm o).
Proof using.
  intros []. unfold need_cow_pages, object_nonvolatile_ranges. change (object_volatile_ranges []) with (@nil VolatilePageRange.VolatilePageRange).
  cbn [VolatilePageRanges.between]. rewrite (proj2 (Z.ltb_lt 0 _)) by lia. cbn [fold_left VolatilePageRange.count].
  rewrite wrap_id by (reflexivity || (apply in_ty_spec; cbn; lia)). lia.
Qed.

(** A page in the copy: pages to be committed lazily are shared zero pages. *)
Definition unlazy (p : page) : page := match p with LazyCommittedPage => SharedZeroPage | _ => p end.

Lemma unlazy_none pages : lazy_count pages = 0 -> unlazy <$> pages = pages.
Proof using.
  unfold lazy_count. induction pages as [|p pages IH]; [done|]. rewrite filter_cons. cbn. case_decide as Hd.
  - cbn. lia.
  - intros Hz. rewrite IH by done. by destruct p.
Qed.

Lemma drop_lazy_ok pages : 0 < lazy_count pages -> drop_lazy pages (lazy_count pages) = (unlazy <$> pages, 0).
Proof using.
  induction pages as [|p pages IH]; [done|]. intros Hpos. unfold lazy_count in *. rewrite filter_cons in *.
  case_decide as Hd.
  - subst p. cbn [length drop_lazy fmap list_fmap unlazy] in *. destruct (Z.eqb_spec (Z.of_nat (S (length (filter (λ p, p = LazyCommittedPage) pages))) - 1) 0) as [E|E].
    + rewrite <- (unlazy_none pages) at 1; [done|]. unfold lazy_count. lia.
    + replace (Z.of_nat (S (length (filter (λ p, p = LazyCommittedPage) pages))) - 1)
        with (Z.of_nat (length (filter (λ p, p = LazyCommittedPage) pages))) by lia. rewrite IH by lia. done.
  - destruct p; try done; cbn [drop_lazy]; by rewrite IH.
Qed.

Definition copied (o : Object) : Object :=
  mkObject (mkVMObject (m_class (vm o)) (unlazy <$> m_physical_pages (vm o))
      (Some (replicate (length (m_physical_pages (vm o))) true)))
    0 (m_shared_committed_cow_pages o).

Lemma copy_object_ok pools o : object_ok pools o -> copy_object o = Ok (copied o).
Proof using.
  intros []. unfold copy_object, copied. rewrite oo_unused0. case_if.
  - by rewrite drop_lazy_ok by done.
  - rewrite unlazy_none; [|unfold lazy_count in *; lia]. cbn [res_bind]. do 2 f_equal. unfold lazy_count in *. lia.
Qed.

Lemma lazy_count_unlazy pages : lazy_count (unlazy <$> pages) = 0.
Proof using.
  unfold lazy_count. induction pages as [|p pages IH]; [done|]. cbn [fmap list_fmap]. rewrite filter_cons.
  case_decide as Hd; [|done]. by destruct p.
Qed.

(** A pool without references is dissolved, and what is left of it no longer
    promised. *)
Lemma drop_pool_ok s held promised pool :
  fp_state (s_frames s) held promised -> (forall q c, s_pools s !! q = Some c -> 0 <= c) ->
  sum_of id (s_pools s) <= promised -> (forall q, pool = Some q -> is_Some (s_pools s !! q)) ->
  exists s' promised', drop_pool s pool = Ok s' /\ s_regions s' = s_regions s /\ s_objects s' = s_objects s /\
    s_ptes s' = s_ptes s /\ fp_state (s_frames s') held promised' /\ same_bytes (s_frames s) (s_frames s') held /\
    promised' - sum_of id (s_pools s') = promised - sum_of id (s_pools s) /\
    (forall q c, s_pools s' !! q = Some c -> 0 <= c) /\
    (forall q oid o, is_Some (s_pools s !! q) -> s_objects s !! oid = Some o ->
      m_shared_committed_cow_pages o = Some q -> is_Some (s_pools s' !! q)).
Proof using.
  intros Hst Hnn Hsum Hin. destruct pool as [q|]; cbn [drop_pool]; [|by exists s, promised].
  case_bool_decide as Hb; [|by exists s, promised].
  destruct (Hin q eq_refl) as [c Hc]. rewrite Hc. cbn [of_opt res_bind].
  pose proof (sum_of_le id (s_pools s) q c Hnn Hc) as Hle. pose proof (sum_of_delete id _ _ _ Hc) as Hd. change (id c) with c in *.
  assert (exists m, (if 0 <? c then fp_uncommit (s_frames s) c else Ok (s_frames s)) = Ok m /\
    fp_state m held (promised - c) /\ same_bytes (s_frames s) m held) as (m & -> & Hst' & Hsame).
  { pose proof (Hnn q c Hc). case_if.
    - apply fp_uncommit_ok; [done|lia].
    - assert (c = 0) as -> by lia. exists (s_frames s). split; [done|]. by rewrite Z.sub_0_r. }
  cbn [res_bind]. eexists _, (promised - c). split; [done|]. do 3 (split; [done|]). split; [done|]. split; [done|].
  cbn [s_pools with_frames with_pools]. split; [lia|]. split.
  - intros q' c' [_ Hq]%lookup_delete_Some. by apply (Hnn q').
  - intros q' oid o [c' Hq'] Ho Hp. exists c'. apply lookup_delete_Some. split; [|done]. intros ->.
    assert (filter (λ x, m_shared_committed_cow_pages x.2 = Some q') (s_objects s) !! oid = Some o) as Hf
      by (by apply map_lookup_filter_Some). by rewrite Hb in Hf.
Qed.

(** The original after it was cloned: every page is to be copied. *)
Definition marked (o : Object) (pool : positive) : Object :=
  mkObject (mkVMObject (m_class (vm o)) (m_physical_pages (vm o)) (Some (replicate (length (m_physical_pages (vm o))) true)))
    (m_unused_committed_pages o) (Some pool).

Lemma all_marked (o : Object) k p :
  m_cow_map (vm o) = Some (replicate (length (m_physical_pages (vm o))) true) -> m_physical_pages (vm o) !! k = Some p ->
  cow_bit o k = true.
Proof using.
  intros E Hp. unfold cow_bit. rewrite E. rewrite lookup_replicate_2; [done|]. by eapply lookup_lt_Some.
Qed.

Lemma marked_ok pools pools' o pool :
  object_ok pools o -> is_Some (pools' !! pool) -> object_ok pools' (marked o pool) /\ object_ok pools' (copied (marked o pool)).
Proof using.
  intros [] Hpool. split; split; cbn; try done.
  - intros map [= <-]. by rewrite length_replicate.
  - by intros p [= <-].
  - unfold page_count in *. cbn. by rewrite length_fmap.
  - intros map [= <-]. by rewrite length_replicate, length_fmap.
  - by rewrite lazy_count_unlazy.
  - intros (p & Hp & Hin)%list_elem_of_fmap. by destruct p.
  - by intros p [= <-].
Qed.

(** The slots after an object was cloned. *)
Lemma clone_slots s oid o o' cid :
  s_objects s !! oid = Some o -> m_physical_pages (vm o') = m_physical_pages (vm o) -> s_objects s !! cid = None ->
  forall s', s_objects s' = <[cid := copied o']> (<[oid := o']> (s_objects s)) ->
  forall oid' k, slot s' oid' k = if bool_decide (oid' = cid) then unlazy <$> slot s oid k else slot s oid' k.
Proof using.
  intros Ho E Hnew s' Hs' oid' k. unfold slot. rewrite Hs'. case_bool_decide as Hb.
  - subst oid'. rewrite lookup_insert_eq, Ho. cbn. by rewrite list_lookup_fmap, E.
  - rewrite lookup_insert_ne by congruence. destruct (decide (oid' = oid)) as [->|Hne].
    + rewrite lookup_insert_eq, Ho. cbn. by rewrite E.
    + by rewrite lookup_insert_ne by congruence.
Qed.

(** Cloning keeps the invariant but for the entries of the region that is to be
    mapped again. *)
Lemma clone_core s s' held promised promised' rid r o pool cid :
  core s held promised -> s_regions s !! rid = Some r -> m_shared r = false -> s_objects s !! m_vmobject r = Some o ->
  s_objects s !! cid = None -> s_regions s' = s_regions s ->
  s_objects s' = <[cid := copied (marked o pool)]> (<[m_vmobject r := marked o pool]> (s_objects s)) ->
  is_Some (s_pools s' !! pool) -> (forall q c, s_pools s' !! q = Some c -> 0 <= c) ->
  (forall q oid o', oid <> m_vmobject r -> s_objects s !! oid = Some o' ->
     m_shared_committed_cow_pages o' = Some q -> is_Some (s_pools s' !! q)) ->
  fp_state (s_frames s') held promised' ->
  promised' - sum_of id (s_pools s') = promised - sum_of id (s_pools s) ->
  core s' held promised'.
Proof using.
  intros [[F1 F2 F3 F4] C2 C3 C4 C5] Hr Hsh Ho Hnew Hregs Hobs Hpool Hnn Hpools Hst Hpr.
  pose proof (clone_slots s (m_vmobject r) o (marked o pool) cid Ho eq_refl Hnew s' Hobs) as Hslot.
  assert (cid <> m_vmobject r) as Hne by congruence.
  assert (<[m_vmobject r := marked o pool]> (s_objects s) !! cid = None) as Hnew' by (by rewrite lookup_insert_ne).
  destruct (marked_ok (s_pools s) (s_pools s') o pool (C2 _ _ Ho) Hpool) as [Hm1 Hm2].
  split; [split| | | |].
  - done.
  - intros f. rewrite F2. split; intros (oid' & k & Hs).
    + exists oid', k. rewrite Hslot. rewrite bool_decide_false; [done|]. intros ->. unfold slot in Hs. by rewrite Hnew in Hs.
    + rewrite Hslot in Hs. case_bool_decide; [|by exists oid', k]. exists (m_vmobject r), k.
      destruct (slot s (m_vmobject r) k) as [p|]; [|done]. by destruct p.
  - rewrite Hobs, sum_of_insert_new by done. rewrite (sum_of_insert _ _ _ o) by done. cbn. lia.
  - done.
  - intros oid' o'. rewrite Hobs. intros [[<- <-]|[_ [[<- <-]|[Hn Ho']]%lookup_insert_Some]]%lookup_insert_Some; [done..|].
    destruct (C2 oid' o' Ho') as []. split; try done. intros q Hq. by apply (Hpools q oid' o').
  - intros rid' r' Hr'. rewrite Hregs in Hr'. destruct (C3 rid' r' Hr') as [Hok Hm]. split; [|done]. destruct Hok. split; try done.
    destruct ro_object0 as (q & Hq & Hsz & Hs). rewrite Hobs. rewrite lookup_insert_ne by congruence.
    destruct (decide (m_vmobject r' = m_vmobject r)) as [E|Hv].
    + rewrite E in *. rewrite lookup_insert_eq. assert (q = o) as -> by congruence. eexists. split; [done|]. split; [done|].
      intros Hsh'. destruct (C4 rid rid' r r' Hr Hr' (eq_sym E)) as [->|[? _]]; congruence.
    + rewrite lookup_insert_ne by done. by exists q.
  - intros rid1 rid2 r1 r2. rewrite Hregs. apply C4.
  - intros oid1 o1 k f Ho1 Hf Hb oid2 k2. rewrite Hobs in Ho1.
    apply lookup_insert_Some in Ho1 as [[<- <-]|[Hn1 Ho1]].
    { rewrite (all_marked _ _ (Allocated f)) in Hb; [done| |done]. cbn. by rewrite length_fmap. }
    apply lookup_insert_Some in Ho1 as [[<- <-]|[Hn2 Ho1]].
    { by rewrite (all_marked _ _ (Allocated f)) in Hb. }
    rewrite Hslot. case_bool_decide as Hc; [|by apply (C5 oid1 o1 k f)]. intros Hs2. exfalso.
    destruct (slot s (m_vmobject r) k2) as [p|] eqn:Hs; [|done]. destruct p; try done. injection Hs2 as ->.
    destruct (C5 oid1 o1 k f Ho1 Hf Hb (m_vmobject r) k2 Hs). congruence.
Qed.

(** What cloning an object gives. *)
Definition clone_result s (held : list Z) (promised : Z) (r : Region) (o : Object)
    (result : res (System (P := P) * option positive)) : Prop :=
  exists s' copy, result = Ok (s', copy) /\ s_regions s' = s_regions s /\ same_bytes (s_frames s) (s_frames s') held /\
    match copy with
    | None => s_objects s' = s_objects s /\ inv s' held promised
    | Some cid => exists pool promised', s_objects s !! cid = None /\ s_ptes s' = s_ptes s /\
        s_objects s' = <[cid := copied (marked o pool)]> (<[m_vmobject r := marked o pool]> (s_objects s)) /\
        core s' held promised'
    end.

Lemma clone_object_ok s held promised rid r o :
  inv s held promised -> s_regions s !! rid = Some r -> m_shared r = false -> s_objects s !! m_vmobject r = Some o ->
  clone_result s held promised r o (clone_object s (m_vmobject r)).
Proof using.
  intros Hinv Hr Hsh Ho. pose proof Hinv as [Hcore _]. pose proof Hcore as [[F1 F2 F3 F4] C2 C3 C4 C5]. pose proof (C2 _ _ Ho) as Hobj.
  unfold clone_object, object_at. rewrite Ho. cbn [of_opt res_bind]. unfold is_anonymous. rewrite (oo_anonymous _ _ Hobj).
  unfold clone_anonymous. rewrite (need_cow_pages_ok _ _ Hobj). pose proof (oo_length _ _ Hobj) as Hlen.
  destruct (fp_commit_ok (s_frames s) held promised (page_count (vm o)) F1 ltac:(lia)) as (m & b & -> & Hst & Hsame).
  cbn [res_bind]. destruct b; cbn [negb].
  2:{ exists (with_frames s m), None. split; [done|]. split; [done|]. split; [done|]. split; [done|]. by apply refilled_inv. }
  set (pool := fresh (dom (s_pools s))). assert (s_pools s !! pool = None) as Hpool
    by (apply not_elem_of_dom, is_fresh).
  set (s1 := set_object (with_pools (with_frames s m) (<[pool:=page_count (vm o)]> (s_pools s))) (m_vmobject r) (marked o pool)).
  assert (0 <= sum_of m_unused_committed_pages (s_objects s)) as Hun.
  { apply sum_of_nonneg. intros j x Hj. rewrite (oo_unused _ _ (C2 j x Hj)). unfold lazy_count. lia. }
  destruct (drop_pool_ok s1 held (promised + page_count (vm o)) (m_shared_committed_cow_pages o))
    as (s2 & promised' & E & D1 & D2 & D3 & D4 & D5 & D6 & D7 & D8).
  { done. }
  { intros q c. cbn. intros [[<- <-]|[_ Hq]]%lookup_insert_Some; [lia|by apply (F4 q)]. }
  { cbn. rewrite sum_of_insert_new by done. change (id (page_count (vm o))) with (page_count (vm o)). lia. }
  { intros q Hq. destruct (oo_pool _ _ Hobj q Hq) as [c Hc]. exists c. cbn. rewrite lookup_insert_ne; [done|congruence]. }
  match goal with |- context [drop_pool ?t _] => change t with s1 end. rewrite E. cbn [res_bind]. clear E.
  match goal with |- context [copy_object ?t] => change t with (marked o pool) end.
  destruct (marked_ok (s_pools s) (<[pool:=page_count (vm o)]> (s_pools s)) o pool Hobj ltac:(by eexists; apply lookup_insert_eq)) as [Hm1 _].
  rewrite (copy_object_ok _ _ Hm1). cbn [res_bind].
  set (cid := fresh (dom (s_objects s2))). assert (s_objects s2 !! cid = None) as Hcid by (apply not_elem_of_dom, is_fresh).
  assert (s_objects s !! cid = None) as Hcid'.
  { rewrite D2 in Hcid. cbn in Hcid. by apply lookup_insert_None in Hcid as [? _]. }
  eexists _, (Some cid). split; [done|]. split; [exact D1|]. split; [intros f x Hf Hx; cbn; rewrite D5 by done; by apply Hsame|].
  exists pool, promised'. split; [done|]. split; [exact D3|]. assert (s_objects (set_object s2 cid (copied (marked o pool))) =
    <[cid := copied (marked o pool)]> (<[m_vmobject r := marked o pool]> (s_objects s))) as Hobs by (cbn; by rewrite D2).
  split; [done|]. assert (is_Some (s_pools s2 !! pool)) as Hp2.
  { apply (D8 pool (m_vmobject r) (marked o pool)); [by eexists; apply lookup_insert_eq|apply lookup_insert_eq|done]. }
  apply (clone_core s _ held promised promised' rid r o pool cid); try done.
  - intros q oid o' Hne Ho' Hq. cbn. apply (D8 q oid o'); [|by cbn; rewrite lookup_insert_ne by congruence|done].
    destruct (oo_pool _ _ (C2 _ _ Ho') q Hq) as [c Hc]. exists c. cbn. rewrite lookup_insert_ne; [done|congruence].
  - cbn. rewrite D6. cbn. rewrite sum_of_insert_new by done. change (id (page_count (vm o))) with (page_count (vm o)). lia.
Qed.

(** ** Forking *)

(** The region a clone becomes. *)
Definition child_of (r : Region) (cid : positive) : Region :=
  mkRegion (m_range r) (m_offset_in_vmobject r) cid (m_name r) (m_access r) (m_shared r) (m_cacheable r) false
    (m_mmap r) (m_syscall_region r) false.

Lemma clone_into_ok s objects r o cid :
  region_ok objects r -> objects !! m_vmobject r = Some o -> 0 < page_count (vm o) ->
  exists child, clone_into s r cid = Ok (with_regions s (<[child := child_of r cid]> (s_regions s)), child) /\
    s_regions s !! child = None.
Proof using.
  intros [] Ho Hn. destruct ro_object0 as (q & Hq & Hsz & _). assert (q = o) as -> by congruence.
  unfold clone_into, new_region. unfold base, size. rewrite Hsz.
  assert (is_page_aligned (m_base (m_range r)) = true) as ->.
  { unfold is_page_aligned. change 0xfff with (Z.ones 12). rewrite Z.land_ones by lia. by apply Z.eqb_eq. }
  rewrite (proj2 (Z.eqb_neq _ 0)) by (unfold PAGE_SIZE; lia). rewrite Z.mul_comm, Z_mod_mult. cbn [negb verify res_bind].
  change (wrap U8 _) with (initial_access (m_access r)). rewrite initial_access_split by done.
  eexists. split; [done|]. apply not_elem_of_dom, is_fresh.
Qed.

(** What a fork of a region gives. *)
Record forked s (r : Region) s' (child : positive) : Prop := {
  fk_inv : exists held promised, inv s' held promised;
  fk_new : s_regions s !! child = None;
  fk_regions : exists cid, s_regions s' = <[child := with_mapped (child_of r cid) true]> (s_regions s) /\
    if m_shared r then cid = m_vmobject r
    else s_objects s !! cid = None /\
      forall k p, slot s (m_vmobject r) k = Some p -> exists p', slot s' cid k = Some p' /\
        forall x, 0 <= x < PAGE_SIZE -> page_byte s' p' x = page_byte s p x;
  fk_content : same_content s s';
  fk_objects : forall oid, is_Some (s_objects s' !! oid) -> is_Some (s_objects s !! oid) \/
    exists r', s_regions s' !! child = Some r' /\ m_vmobject r' = oid;
}.

Lemma child_ok objects r cid q :
  region_ok objects r -> objects !! cid = Some q -> m_size (m_range r) = PAGE_SIZE * page_count (vm q) ->
  (m_shared r = true -> m_cow_map (vm q) = None) -> region_ok objects (child_of r cid).
Proof using. intros [] Hq Hsz Hsh. split; try done. by exists q. Qed.

Lemma fork_shared_ok s held promised rid r :
  inv s held promised -> s_regions s !! rid = Some r -> m_shared r = true ->
  exists s' child, fork_region tables s rid = Ok (s', Some child) /\ forked s r s' child.
Proof using Htables.
  intros Hinv Hr Hsh. pose proof Hinv as [[_ C2 C3 C4 _] _]. destruct (C3 rid r Hr) as [Hok _].
  destruct (ro_object _ _ Hok) as (o & Ho & Hsz & Hcow). pose proof (C2 _ _ Ho) as Hobj.
  unfold fork_region, clone, region_at, object_at. rewrite Hr. cbn [of_opt res_bind]. rewrite Ho. cbn [of_opt res_bind].
  rewrite Hsh, (ro_stack _ _ Hok). unfold is_inode, is_shared_inode, is_private_inode. rewrite (oo_anonymous _ _ Hobj).
  cbn [negb orb verify res_bind].
  destruct (clone_into_ok s _ r o (m_vmobject r) Hok Ho ltac:(apply (oo_length _ _ Hobj))) as (child & -> & Hnew).
  cbn [res_bind]. destruct (add_region_ok s held promised child (child_of r (m_vmobject r)) o Hinv Hnew)
    as (s' & -> & Hinv' & R1 & R2 & R3); [by apply (child_ok _ _ _ o)|done| |].
  { intros rid' r' Hr' E. cbn in E |- *. destruct (C4 rid rid' r r' Hr Hr' (eq_sym E)) as [<-|[? ?]]; [|done].
    assert (r' = r) as -> by congruence. done. }
  cbn [res_bind]. exists s', child. split; [done|]. split; [by exists held, promised|done| | |].
  - exists (m_vmobject r). split; [done|]. by rewrite Hsh.
  - intros oid k p Hp. exists p. unfold slot in *. rewrite R2. split; [done|]. intros x _. destruct p; try done. cbn. by rewrite R3.
  - rewrite R2. by left.
Qed.

(** The region that was cloned is mapped again. *)
Lemma remap_cloned s s1 held promised' rid r o pool cid :
  ptes_but s clean -> s_regions s !! rid = Some r -> m_mapped r = true -> m_shared r = false ->
  (forall rid' r', s_regions s !! rid' = Some r' -> m_vmobject r' = m_vmobject r -> rid' = rid) ->
  (forall rid' r', s_regions s !! rid' = Some r' -> m_vmobject r' <> cid) ->
  s_objects s !! m_vmobject r = Some o -> s_regions s1 = s_regions s -> s_ptes s1 = s_ptes s ->
  s_objects s1 = <[cid := copied (marked o pool)]> (<[m_vmobject r := marked o pool]> (s_objects s)) ->
  core s1 held promised' ->
  exists s2, map_region tables s1 rid = Ok (s2, true) /\ inv s2 held promised' /\ s_regions s2 = s_regions s /\
    s_objects s2 = s_objects s1 /\ s_frames s2 = s_frames s1.
Proof using Htables.
  intros Hp Hr Hm Hsh Honly Hcid Ho Hregs Hpt Hobs Hc. pose proof Hc as [F C2 C3 C4 C5].
  assert (s_regions s1 !! rid = Some r) as Hr1 by (by rewrite Hregs). destruct (C3 rid r Hr1) as [Hok _].
  assert (cid <> m_vmobject r) as Hne by (intros ->; by apply (Hcid rid r)).
  assert (s_objects s1 !! m_vmobject r = Some (marked o pool)) as Ho1
    by (rewrite Hobs, lookup_insert_ne by done; apply lookup_insert_eq).
  destruct (map_region_ok tables Htables s1 rid r (marked o pool) Hr1 Hok Ho1 (C2 _ _ Ho1)) as (ptes & -> & He).
  assert (with_mapped r true = r) as -> by (destruct r; cbn in *; by subst).
  rewrite (insert_id _ _ _ Hr1). eexists. split; [done|]. split; [|done].
  split; [by destruct F; split; [split| | | |]|]. intros rid' j. cbn [s_regions s_ptes with_ptes with_regions].
  change (expected (with_ptes _ _)) with (expected s1). rewrite He, Hregs. specialize (Hp rid' j).
  destruct (region_pages _ _ _ Hok Ho1) as (Hcnt & _).
  destruct (decide (rid' = rid)) as [->|Hne'].
  - rewrite Hr, bool_decide_true, <- Hcnt in * by done. cbn [andb]. destruct (_ && _); [by right|]. by rewrite Hpt.
  - rewrite bool_decide_false by done. cbn [andb]. rewrite Hpt. destruct (s_regions s !! rid') as [r'|] eqn:Hr'; [|done].
    destruct (_ && _); [|done]. destruct Hp as [[]| ->]. right. unfold expected. rewrite Hobs.
    rewrite lookup_insert_ne by (by apply not_eq_sym, (Hcid rid')). rewrite lookup_insert_ne; [done|].
    intros E. apply Hne'. by apply (Honly rid' r').
Qed.

(** A private region is cloned with a copy of its object, or there is no memory. *)
Lemma fork_private_ok s held promised rid r :
  inv s held promised -> s_regions s !! rid = Some r -> m_shared r = false ->
  exists s' result, fork_region tables s rid = Ok (s', result) /\
    match result with
    | None => handled s s'
    | Some child => forked s r s' child
    end.
Proof using Htables.
  intros Hinv Hr Hsh. pose proof Hinv as [[[F1 F2 F3 F4] C2 C3 C4 C5] Hptes]. destruct (C3 rid r Hr) as [Hok Hm].
  destruct (ro_object _ _ Hok) as (o & Ho & Hsz & _). pose proof (C2 _ _ Ho) as Hobj.
  unfold fork_region, clone, region_at, object_at. rewrite Hr. cbn [of_opt res_bind]. rewrite Ho. cbn [of_opt res_bind].
  rewrite Hsh. unfold is_inode, is_shared_inode, is_private_inode. rewrite (oo_anonymous _ _ Hobj). cbn [negb orb verify res_bind].
  destruct (clone_object_ok s held promised rid r o Hinv Hr Hsh Ho) as (s1 & copy & -> & R1 & Hsame & Hcopy). cbn [res_bind].
  destruct copy as [cid|].
  2:{ destruct Hcopy as [O1 Hinv1]. exists s1, None. split; [done|]. split; [by exists held, promised|done| |by rewrite O1].
      intros oid k p Hp. exists p. unfold slot in *. rewrite O1. split; [done|]. intros x Hx. destruct p as [| | |f]; try done. cbn.
      apply Hsame; [|done]. apply F2. exists oid, k. exact Hp. }
  destruct Hcopy as (pool & promised' & Hnew & P1 & O1 & Hcore). rewrite Hm. cbn [verify res_bind].
  destruct (remap_cloned s s1 held promised' rid r o pool cid) as (s2 & -> & Hinv2 & R2 & O2 & M2); try done.
  { intros rid' r' Hr' E. destruct (C4 rid rid' r r' Hr Hr' (eq_sym E)) as [?|[? _]]; congruence. }
  { intros rid' r' Hr' E. destruct (ro_object _ _ (proj1 (C3 rid' r' Hr'))) as (q & Hq & _). congruence. }
  cbn [res_bind]. destruct (clone_into_ok s2 _ r o cid Hok Ho ltac:(apply (oo_length _ _ Hobj))) as (child & -> & Hchild).
  cbn [res_bind]. rewrite (ro_stack _ _ Hok). cbn [res_bind].
  assert (s_objects s2 !! cid = Some (copied (marked o pool))) as Hcid by (rewrite O2, O1; apply lookup_insert_eq).
  assert (region_ok (s_objects s2) r) as Hok2 by (destruct Hinv2 as [[_ _ D3 _ _] _]; apply (D3 rid); by rewrite R2).
  destruct (add_region_ok s2 held promised' child (child_of r cid) (copied (marked o pool)) Hinv2 Hchild)
    as (s' & -> & Hinv' & R3 & O3 & M3); [|done| |].
  { apply (child_ok _ _ _ (copied (marked o pool))); try done; [|congruence].
    rewrite Hsz. unfold page_count. cbn. by rewrite length_fmap. }
  { intros rid' r' Hr' E. cbn in E. rewrite R2 in Hr'. destruct (ro_object _ _ (proj1 (C3 rid' r' Hr'))) as (q & Hq & _). congruence. }
  cbn [res_bind]. assert (forall oid k, slot s' oid k = if bool_decide (oid = cid) then unlazy <$> slot s (m_vmobject r) k else slot s oid k) as Hslot.
  { apply (clone_slots s (m_vmobject r) o (marked o pool) cid Ho eq_refl Hnew). by rewrite O3, O2. }
  assert (forall oid k p x, slot s oid k = Some p -> 0 <= x < PAGE_SIZE -> page_byte s' p x = page_byte s p x) as Hbytes.
  { intros oid k p x Hp Hx. destruct p as [| | |f]; try done. cbn. rewrite M3, M2. apply Hsame; [|done]. apply F2. by exists oid, k. }
  exists s', (Some child). split; [done|]. split.
  - by exists held, promised'.
  - by rewrite <- R2.
  - exists cid. split; [by rewrite R3, R2|]. rewrite Hsh. split; [done|]. intros k p Hp. exists (unlazy p). rewrite Hslot, Hp.
    rewrite bool_decide_true by done. split; [done|]. intros x Hx. rewrite <- (Hbytes _ _ _ _ Hp Hx). by destruct p.
  - intros oid k p Hp. exists p. rewrite Hslot, bool_decide_false; [by split; [|intros; eapply Hbytes]|].
    intros ->. unfold slot in Hp. by rewrite Hnew in Hp.
  - intros oid. rewrite O3, O2, O1, R3. intros [q [[<- _]|[_ [[<- _]|[_ Hq]]%lookup_insert_Some]]%lookup_insert_Some].
    + right. rewrite lookup_insert_eq. by eexists.
    + left. by exists o.
    + left. by exists q.
Qed.

(** ** Creating *)

(** An object without frames is added. *)
Lemma add_object_ok s held promised oid o m :
  inv s held promised -> s_objects s !! oid = None -> object_ok (s_pools s) o ->
  (forall f, Allocated f ∉ m_physical_pages (vm o)) -> fp_state m held (promised + m_unused_committed_pages o) ->
  inv (set_object (with_frames s m) oid o) held (promised + m_unused_committed_pages o).
Proof using.
  intros [[[F1 F2 F3 F4] C2 C3 C4 C5] Hp] Hnew Hok Hno Hst.
  assert (forall oid' k f, slot (set_object (with_frames s m) oid o) oid' k = Some (Allocated f) <-> slot s oid' k = Some (Allocated f)) as Hslot.
  { intros oid' k f. rewrite slot_set. case_bool_decide as Hb; [|done]. subst oid'. split.
    - intros Hk. destruct (Hno f). by eapply list_elem_of_lookup_2.
    - intros Hk. unfold slot in Hk. by rewrite Hnew in Hk. }
  assert (forall rid r, s_regions s !! rid = Some r -> m_vmobject r <> oid) as Hreg.
  { intros rid r Hr E. destruct (ro_object _ _ (proj1 (C3 rid r Hr))) as (q & Hq & _). congruence. }
  split; [split; [split| | | |]|].
  - done.
  - intros f. rewrite F2. by setoid_rewrite Hslot.
  - cbn. rewrite sum_of_insert_new by done. lia.
  - done.
  - intros oid' o'. cbn. intros [[<- <-]|[_ Ho']]%lookup_insert_Some; [done|by apply (C2 oid')].
  - intros rid r Hr. destruct (C3 rid r Hr) as [[] Hm]. split; [|done]. split; try done. cbn.
    by rewrite lookup_insert_ne by (by apply not_eq_sym, (Hreg rid)).
  - done.
  - intros oid1 o1 k f Ho1 Hf Hb oid2 k2 Hs2%Hslot. cbn in Ho1. apply lookup_insert_Some in Ho1 as [[<- <-]|[_ Ho1]].
    + destruct (Hno f). by eapply list_elem_of_lookup_2.
    + by apply (C5 oid1 o1 k f).
  - intros rid i. specialize (Hp rid i). cbn [s_regions s_ptes set_object with_objects with_frames].
    destruct (s_regions s !! rid) as [r|] eqn:Hr; [|done]. destruct (_ && _); [|done]. destruct Hp as [[]| ->]. right.
    unfold expected. cbn. by rewrite lookup_insert_ne by (by apply not_eq_sym, (Hreg rid)).
Qed.

Lemma add_object_content s held promised oid o m :
  inv s held promised -> s_objects s !! oid = None -> same_bytes (s_frames s) m held ->
  same_content s (set_object (with_frames s m) oid o).
Proof using.
  intros [[[F1 F2 F3 F4] _ _ _ _] _] Hnew Hsame oid' k p Hp. exists p. rewrite slot_set. rewrite bool_decide_false.
  - split; [done|]. intros x Hx. destruct p as [| | |f]; try done. cbn. apply Hsame; [|done]. apply F2. by exists oid', k.
  - intros ->. unfold slot in Hp. by rewrite Hnew in Hp.
Qed.

(** The flags that [sys$mmap] sets on a region of its own object change nothing else. *)
Lemma set_flags_ok s held promised rid r o shared :
  inv s held promised -> s_regions s !! rid = Some r -> s_objects s !! m_vmobject r = Some o -> m_cow_map (vm o) = None ->
  (forall rid' r', s_regions s !! rid' = Some r' -> m_vmobject r' = m_vmobject r -> rid' = rid) -> m_shared r = false ->
  inv (with_regions s (<[rid := if shared : bool then set_shared (set_mmap r true) true else set_mmap r true]> (s_regions s)))
    held promised.
Proof using.
  intros [[[F1 F2 F3 F4] C2 C3 C4 C5] Hp] Hr Ho Hcow Honly Hsh. destruct (C3 rid r Hr) as [Hok Hm].
  set (r' := if shared then set_shared (set_mmap r true) true else set_mmap r true).
  assert (region_ok (s_objects s) r' /\ m_mapped r' = true /\ m_vmobject r' = m_vmobject r /\ forall i, expected s r' i = expected s r i) as (H1 & H2 & H3 & H4).
  { unfold r'. destruct Hok. destruct ro_object0 as (q & Hq & Hsz & _). assert (q = o) as -> by congruence.
    destruct shared; cbn; split_and!; try done.
    - split; try done. by exists o.
    - intros i. unfold expected. cbn. rewrite Ho. unfold cow_bit. rewrite Hcow, !andb_false_r. done.
    - split; try done. exists o. split; [done|]. split; [done|]. cbn. by rewrite Hsh. }
  split; [split; [by split|done| | |done]|].
  - intros rid' q. cbn. intros [[<- <-]|[_ Hq]]%lookup_insert_Some; [done|by apply (C3 rid')].
  - intros rid1 rid2 r1 r2. cbn. intros Hr1 Hr2 E.
    apply lookup_insert_Some in Hr1 as [[<- <-]|[Hn1 Hr1]]; apply lookup_insert_Some in Hr2 as [[<- <-]|[Hn2 Hr2]].
    + by left.
    + left. symmetry. apply (Honly rid2 r2 Hr2). congruence.
    + left. apply (Honly rid1 r1 Hr1). congruence.
    + by apply (C4 rid1 rid2).
  - intros rid' i. specialize (Hp rid' i). cbn [s_regions s_ptes with_regions]. change (expected (with_regions s _)) with (expected s).
    destruct (decide (rid' = rid)) as [->|Hne].
    + rewrite lookup_insert_eq. rewrite Hr in Hp. replace (region_page_count r') with (region_page_count r) by (unfold r'; by destruct shared).
      destruct (_ && _); [|done]. destruct Hp as [[]| ->]. right. by rewrite H4.
    + by rewrite lookup_insert_ne by done.
Qed.

Definition zeroes (n : Z) (reserve : bool) : Object :=
  mkObject (mkVMObject Anonymous (replicate (Z.to_nat n) (if reserve then LazyCommittedPage else SharedZeroPage)) None)
    (if reserve then n else 0) None.

Lemma cow_zeroes_ok pools n reserve : 0 < n <= 2 ^ 20 -> object_ok pools (zeroes n reserve) /\
  (forall f, Allocated f ∉ m_physical_pages (vm (zeroes n reserve))).
Proof using.
  intros Hn. split; [split; cbn; try done|].
  - unfold page_count. cbn. rewrite length_replicate. lia.
  - unfold lazy_count. assert (forall k, Z.of_nat (length (filter (λ p, p = LazyCommittedPage)
      (replicate k (if reserve then LazyCommittedPage else SharedZeroPage)))) = if reserve then Z.of_nat k else 0) as Hl.
    { intros k. induction k as [|k IH]; [by destruct reserve|]. cbn [replicate]. rewrite filter_cons.
      case_decide; destruct reserve; try done. cbn [length]. lia. }
    rewrite Hl. destruct reserve; [lia|done].
  - intros Hx%elem_of_replicate_inv. by destruct reserve.
  - intros f Hx%elem_of_replicate_inv. by destruct reserve.
Qed.

(** The page ranges a program can map. *)
Definition user_range (range : Range) : Prop :=
  0x00800000 <= m_base range /\ m_base range mod PAGE_SIZE = 0 /\ 0 < m_size range /\
  m_size range mod PAGE_SIZE = 0 /\ m_base range + m_size range <= 0xc0000000.

Lemma create_ok s held promised size_ reserve :
  inv s held promised -> 0 < size_ < 2 ^ 32 -> size_ mod PAGE_SIZE = 0 ->
  exists s' object, create_with_size s size_ reserve = Ok (s', object) /\ s_regions s' = s_regions s /\ same_content s s' /\
    (exists promised', inv s' held promised') /\
    match object with
    | None => s_objects s' = s_objects s
    | Some oid => s_objects s !! oid = None /\ s_objects s' = <[oid := zeroes (size_ / PAGE_SIZE) reserve]> (s_objects s)
    end.
Proof using.
  intros Hinv Hs Hm. pose proof Hinv as [[[F1 F2 F3 F4] _ _ _ _] _].
  assert (0 < size_ / PAGE_SIZE <= 2 ^ 20) as Hn by (unfold PAGE_SIZE in *; Z.to_euclidean_division_equations; lia).
  assert (ceil_div size_ PAGE_SIZE = Ok (size_ / PAGE_SIZE)) as En
    by (unfold ceil_div; rewrite Hm; cbn [PAGE_SIZE Z.eqb negb defined res_bind]; by rewrite Z.add_0_r).
  unfold create_with_size, new_anonymous. rewrite En. cbn [res_bind].
  set (n := size_ / PAGE_SIZE) in *. destruct (cow_zeroes_ok (s_pools s) n reserve Hn) as [Hz1 Hz2].
  assert (forall m, same_bytes (s_frames s) m held -> same_content s (with_frames s m)) as Hkeep.
  { intros m Hsame oid k p Hp. exists p. split; [done|]. intros x Hx. destruct p as [| | |f]; try done. cbn.
    apply Hsame; [|done]. apply F2. by exists oid, k. }
  assert (exists m b, (if reserve then fp_commit (s_frames s) n else Ok (s_frames s, true)) = Ok (m, b) /\
    same_bytes (s_frames s) m held /\
    fp_state m held (if b : bool then promised + m_unused_committed_pages (zeroes n reserve) else promised)) as (m & b & -> & Hsame & Hst).
  { destruct reserve; cbn.
    - destruct (fp_commit_ok _ _ _ n F1 ltac:(lia)) as (m & b & -> & Hst & Hsame). by exists m, b.
    - exists (s_frames s), true. split; [done|]. split; [done|]. by rewrite Z.add_0_r. }
  cbn [res_bind]. destruct b; cbn [negb].
  2:{ exists (with_frames s m), None. split; [done|]. split; [done|]. split; [by apply Hkeep|]. split; [|done].
      exists promised. by apply refilled_inv. }
  set (oid := fresh (dom (s_objects (with_frames s m)))).
  assert (s_objects s !! oid = None) as Hnew by (apply not_elem_of_dom, (is_fresh (dom (s_objects s)))).
  assert (mkObject (mkVMObject Anonymous (replicate (Z.to_nat n) (if reserve then LazyCommittedPage else SharedZeroPage)) None)
    (if reserve then page_count (mkVMObject Anonymous (replicate (Z.to_nat n) (if reserve then LazyCommittedPage else SharedZeroPage)) None) else 0) None
    = zeroes n reserve) as ->.
  { unfold zeroes. f_equal. destruct reserve; [|done]. unfold page_count. cbn. rewrite length_replicate. lia. }
  eexists _, (Some oid). split; [done|]. split; [done|]. split; [by eapply add_object_content|]. split; [|done].
  exists (promised + m_unused_committed_pages (zeroes n reserve)). by apply add_object_ok.
Qed.

(** A mapping of pages of zeroes was added. *)
Record mapped_zeroes s (range : Range) (prot : Z) (shared : bool) s' (rid : positive) : Prop := {
  mz_inv : exists held promised, inv s' held promised;
  mz_new : s_regions s !! rid = None;
  mz_regions : exists r, s_regions s' = <[rid := r]> (s_regions s) /\ m_range r = range /\ m_shared r = shared /\
    m_access r = initial_access (prot_to_region_access_flags prot) /\ s_objects s !! m_vmobject r = None /\
    forall k p, slot s' (m_vmobject r) k = Some p -> is_special p = true;
  mz_content : same_content s s';
  mz_objects : forall oid, is_Some (s_objects s' !! oid) -> is_Some (s_objects s !! oid) \/
    exists r', s_regions s' !! rid = Some r' /\ m_vmobject r' = oid;
}.

Lemma map_anonymous_ok s held promised range name prot reserve shared :
  inv s held promised -> user_range range ->
  exists s' result, map_anonymous tables s range name prot reserve shared = Ok (s', result) /\
    match result with
    | None => handled s s'
    | Some rid => mapped_zeroes s range prot shared s' rid
    end.
Proof using Htables.
  intros Hinv (U1 & U2 & U3 & U4 & U5). pose proof Hinv as [[_ _ C3 _ _] _].
  destruct (create_ok s held promised (m_size range) reserve Hinv) as (s1 & object & E & R1 & Hcont & (promised' & Hinv1) & Hob);
    [lia|done|]. unfold map_anonymous, size. rewrite E. cbn [res_bind]. destruct object as [oid|].
  2:{ exists s1, None. split; [done|]. split; [by exists held, promised'|done|done|by rewrite Hob]. }
  destruct Hob as [Hnew Hobs]. unfold new_region, base, size.
  assert (is_page_aligned (m_base range) = true) as ->.
  { unfold is_page_aligned. change 0xfff with (Z.ones 12). rewrite Z.land_ones by lia. by apply Z.eqb_eq. }
  rewrite U4, (proj2 (Z.eqb_neq _ 0)) by lia. cbn [negb Z.eqb verify res_bind].
  set (rid := fresh (dom (s_regions s1))). assert (s_regions s1 !! rid = None) as Hrid by (apply not_elem_of_dom, is_fresh).
  change (wrap U8 _) with (initial_access (prot_to_region_access_flags prot)).
  set (n := mkRegion range 0 oid name (initial_access (prot_to_region_access_flags prot)) false true false false false false).
  assert (s_objects s1 !! oid = Some (zeroes (m_size range / PAGE_SIZE) reserve)) as Ho1 by (rewrite Hobs; apply lookup_insert_eq).
  assert (region_ok (s_objects s1) n) as Hok.
  { split; try done; [apply initial_access_prot|]. eexists. split; [exact Ho1|]. split; [|done]. unfold page_count. cbn.
    rewrite length_replicate. unfold PAGE_SIZE in *. Z.to_euclidean_division_equations; lia. }
  assert (forall rid' r', s_regions s1 !! rid' = Some r' -> m_vmobject r' <> oid) as Hother.
  { intros rid' r' Hr' E'. rewrite R1 in Hr'. destruct (ro_object _ _ (proj1 (C3 rid' r' Hr'))) as (q & Hq & _). congruence. }
  destruct (add_region_ok s1 held promised' rid n _ Hinv1 Hrid Hok Ho1) as (s2 & -> & Hinv2 & R2 & O2 & M2);
    [intros rid' r' Hr' E'; by destruct (Hother rid' r' Hr')|].
  cbn [res_bind negb]. unfold region_at. rewrite R2, lookup_insert_eq. cbn [of_opt res_bind].
  eexists _, (Some rid). split; [done|]. split.
  - exists held, promised'. rewrite <- R2. apply set_flags_ok with (o := zeroes (m_size range / PAGE_SIZE) reserve); try done.
    + rewrite R2. apply lookup_insert_eq.
    + by rewrite O2.
    + intros rid' r'. rewrite R2. intros [[<- _]|[_ Hr']]%lookup_insert_Some; [done|]. intros E'. by destruct (Hother rid' r' Hr').
  - by rewrite <- R1.
  - cbn [s_regions with_regions]. rewrite insert_insert_eq, R1. eexists. split; [done|].
    destruct shared; cbn; (split; [done|]); (split; [done|]); (split; [done|]); (split; [done|]); intros k p Hs;
      unfold slot in Hs; cbn in Hs; rewrite O2, Ho1 in Hs; cbn in Hs; apply lookup_replicate in Hs as [-> _]; by destruct reserve.
  - intros oid' k p Hp. destruct (Hcont oid' k p Hp) as (p' & Hp' & Hb). exists p'. unfold slot in *. cbn. rewrite O2.
    split; [done|]. intros x Hx. rewrite <- (Hb x Hx). destruct p'; try done. cbn. by rewrite M2.
  - intros oid'. cbn. rewrite O2, Hobs, lookup_insert_eq. intros [q [[<- _]|[_ Hq]]%lookup_insert_Some].
    + right. eexists. split; [done|]. by destruct shared.
    + left. by exists q.
Qed.

(** ** Destroying *)

(** The frames in use are those in slots. *)
Definition held_by_slots s (held : list Z) (promised : Z) : Prop :=
  fp_state (s_frames s) held promised /\ forall f, f ∈ held <-> exists oid k, slot s oid k = Some (Allocated f).

(** Frames may have been given back, and nothing but the slots of an object
    changed. *)
Record emptied s (held : list Z) (promised : Z) (oid : positive) (o : Object) (pages : list page) s' (held' : list Z) : Prop := {
  em_held : held_by_slots s' held' promised;
  em_less : forall f, f ∈ held' -> f ∈ held;
  em_bytes : same_bytes (s_frames s) (s_frames s') held';
  em_objects : s_objects s' = <[oid := with_slots o pages]> (s_objects s);
  em_rest : s_regions s' = s_regions s /\ s_pools s' = s_pools s /\ s_ptes s' = s_ptes s;
}.

Lemma assign_null_ok s held promised oid o k p :
  held_by_slots s held promised -> s_objects s !! oid = Some o -> m_physical_pages (vm o) !! k = Some p ->
  exists s' held', assign_slot s oid k NoPage = Ok s' /\
    emptied s held promised oid o (<[k := NoPage]> (m_physical_pages (vm o))) s' held'.
Proof using.
  intros [Hst Hheld] Ho Hp. unfold assign_slot, object_at. rewrite Ho. cbn [of_opt res_bind]. unfold Vector.at_. rewrite Hp. cbn [of_opt res_bind].
  set (s1 := set_object s oid (with_slots o (<[k:=NoPage]> (m_physical_pages (vm o))))).
  pose proof (lookup_lt_Some _ _ _ Hp) as Hl.
  assert (forall oid' k', slot s1 oid' k' = if bool_decide (oid' = oid /\ k' = k) then Some NoPage else slot s oid' k') as Hslot.
  { intros oid' k'. unfold s1. rewrite slot_set. cbn. destruct (decide (oid' = oid)) as [->|Hne].
    - rewrite bool_decide_true by done. destruct (decide (k' = k)) as [->|].
      + rewrite bool_decide_true by done. by rewrite list_lookup_insert_eq.
      + rewrite bool_decide_false by tauto. rewrite list_lookup_insert_ne by done. unfold slot. by rewrite Ho.
    - by rewrite !bool_decide_false by tauto. }
  assert (slot s oid k = Some p) as Hsk by (unfold slot; by rewrite Ho).
  assert (forall f, (exists oid' k', slot s1 oid' k' = Some (Allocated f)) -> f ∈ held) as Hsub.
  { intros f (oid' & k' & Hs). rewrite Hslot in Hs. case_bool_decide; [done|]. apply Hheld. by exists oid', k'. }
  assert (forall f, f ∈ held -> p <> Allocated f -> exists oid' k', slot s1 oid' k' = Some (Allocated f)) as Hsup.
  { intros f Hf Hne. apply Hheld in Hf as (oid' & k' & Hs). exists oid', k'. rewrite Hslot, bool_decide_false; [done|].
    intros [-> ->]. congruence. }
  assert ((forall f, p = Allocated f -> exists oid' k', slot s1 oid' k' = Some (Allocated f)) ->
    emptied s held promised oid o (<[k := NoPage]> (m_physical_pages (vm o))) s1 held) as Hsimple.
  { intros Hstill. split; [split; [done|]|done|done|done|done]. intros f. split; [|apply Hsub]. intros Hf.
    destruct (decide (p = Allocated f)) as [E|Hne]; [by apply Hstill|by apply Hsup]. }
  destruct p as [| | |g]; try (by exists s1, held; split; [|apply Hsimple]). unfold release_page. case_bool_decide as Hz.
  - apply ref_count_zero in Hz. assert (g ∈ held) as Hg by (apply Hheld; by exists oid, k).
    destruct (proj1 (elem_of_Permutation held g) Hg) as [held' Hperm].
    destruct (fp_return_ok (s_frames s) g held' promised) as (m & E & Hst' & Hsame); [by apply (fp_perm _ held)|].
    unfold s1 at 1. cbn [s_frames set_object with_objects]. rewrite E. cbn [res_bind]. eexists _, held'. split; [done|].
    assert (g ∉ held') as Hng.
    { pose proof (fp_distinct _ _ _ Hst) as Hd. rewrite Hperm in Hd. by apply NoDup_cons in Hd as [? _]. }
    split; [split; [done|]|intros f Hf; rewrite Hperm; by right|done|done|done].
    intros f. change (slot (with_frames s1 m)) with (slot s1). split.
    + intros Hf. apply Hsup; [rewrite Hperm; by right|]. intros [= <-]. done.
    + intros Hf. pose proof (Hsub f Hf) as Hin. rewrite Hperm in Hin. apply elem_of_cons in Hin as [-> |?]; [|done]. by destruct Hz.
  - exists s1, held. split; [done|]. apply Hsimple. intros f [= <-].
    destruct (decide (Allocated g ∈ slots s1)) as [Hx|Hn]; [by apply elem_of_slots|].
    exfalso. by apply Hz, ref_count_zero; intros Hex%elem_of_slots.
Qed.

Lemma clear_slots_ok n s held promised oid o :
  held_by_slots s held promised -> s_objects s !! oid = Some o -> (n <= length (m_physical_pages (vm o)))%nat ->
  exists s' held' pages, clear_slots n s oid = Ok s' /\ emptied s held promised oid o pages s' held' /\
    forall k, if bool_decide (k < n)%nat then forall f, pages !! k <> Some (Allocated f)
              else pages !! k = m_physical_pages (vm o) !! k.
Proof using.
  revert s held o. induction n as [|n IH]; intros s held o Hh Ho Hn; cbn [clear_slots].
  { exists s, held, (m_physical_pages (vm o)). split; [done|]. split; [|done]. split; try done.
    assert (with_slots o (m_physical_pages (vm o)) = o) as -> by (by destruct o as [[] ? ?]). by rewrite insert_id. }
  destruct (lookup_lt_is_Some_2 (m_physical_pages (vm o)) n) as [p Hp]; [lia|].
  destruct (assign_null_ok s held promised oid o n p Hh Ho Hp) as (s1 & held1 & -> & [E1 E2 E3 E4 (E5 & E6 & E7)]). cbn [res_bind].
  destruct (IH s1 held1 (with_slots o (<[n := NoPage]> (m_physical_pages (vm o))))) as (s2 & held2 & pages & -> & [G1 G2 G3 G4 (G5 & G6 & G7)] & Hpages);
    [done|rewrite E4; apply lookup_insert_eq|cbn; rewrite length_insert; lia|].
  exists s2, held2, pages. split; [done|]. split.
  - split; [done|eauto| | |by rewrite G5, G6, G7].
    + intros f x Hf Hx. rewrite G3 by done. apply E3; [by apply G2|done].
    + by rewrite G4, E4, insert_insert_eq.
  - intros k. specialize (Hpages k). cbn in Hpages. repeat case_bool_decide; try done; try lia.
    + assert (k = n) as -> by lia. rewrite list_lookup_insert_eq in Hpages by lia. rewrite Hpages. done.
    + by rewrite list_lookup_insert_ne in Hpages by lia.
Qed.

Lemma cow_release_ptes_ok n ptes rid i rid' j :
  release_ptes n ptes rid i !! (rid', j) =
    if bool_decide (rid' = rid) && ((i <=? j) && (j <? i + Z.of_nat n)) then None else ptes !! (rid', j).
Proof using.
  revert ptes i. induction n as [|n IH]; intros ptes i; cbn [release_ptes].
  - replace ((i <=? j) && (j <? i + Z.of_nat 0)) with false by lia. by rewrite andb_false_r.
  - rewrite IH. destruct (decide (rid' = rid)) as [->|Hne].
    + rewrite bool_decide_true by done. cbn [andb]. destruct (decide (j = i)) as [->|].
      * rewrite lookup_delete_eq. by replace ((i <=? i) && (i <? i + Z.of_nat (S n))) with true by lia; destruct (_ && _).
      * rewrite lookup_delete_ne by congruence.
        by replace ((i <=? j) && (j <? i + Z.of_nat (S n))) with ((i + 1 <=? j) && (j <? i + 1 + Z.of_nat n)) by lia.
    + rewrite bool_decide_false by done. cbn [andb]. by rewrite lookup_delete_ne by congruence.
Qed.

(** A region is taken out, with its entries. *)
Lemma remove_region_ok s held promised rid r :
  inv s held promised -> s_regions s !! rid = Some r ->
  inv (with_regions (with_ptes s (release_ptes (Z.to_nat (region_page_count r)) (s_ptes s) rid 0)) (delete rid (s_regions s)))
    held promised.
Proof using.
  intros [[[F1 F2 F3 F4] C2 C3 C4 C5] Hp] Hr. split; [split; [by split|done| | |done]|].
  - intros rid' r'. cbn. intros [_ Hr']%lookup_delete_Some. by apply (C3 rid').
  - intros rid1 rid2 r1 r2. cbn. intros [_ H1]%lookup_delete_Some [_ H2]%lookup_delete_Some. by apply (C4 rid1 rid2).
  - intros rid' j. specialize (Hp rid' j). cbn [s_regions s_ptes with_regions with_ptes].
    change (expected (with_regions _ _)) with (expected s). rewrite cow_release_ptes_ok.
    destruct (decide (rid' = rid)) as [->|Hne].
    + rewrite lookup_delete_eq, bool_decide_true by done. cbn [andb]. rewrite Hr in Hp. rewrite Z.add_0_l.
      assert (0 <= region_page_count r) as Hc.
      { destruct (ro_object _ _ (proj1 (C3 rid r Hr))) as (o & Ho & _).
        destruct (region_pages _ _ _ (proj1 (C3 rid r Hr)) Ho) as (-> & _). unfold page_count. lia. }
      rewrite Z2Nat.id by done. by destruct (_ && _).
    + rewrite lookup_delete_ne, bool_decide_false by done. exact Hp.
Qed.

(** An object is gone, the others are as they were. *)
Record destroyed s (oid : positive) s' : Prop := {
  de_inv : exists held promised, inv s' held promised;
  de_regions : s_regions s' = s_regions s;
  de_objects : s_objects s' = delete oid (s_objects s);
  de_content : forall oid' k p, oid' <> oid -> slot s oid' k = Some p ->
    forall x, 0 <= x < PAGE_SIZE -> page_byte s' p x = page_byte s p x;
}.

(** The objects but one, once its slots, promises and pool are given back. *)
Lemma without_object_ok s held promised oid o s2 held2 promised2 :
  inv s held promised -> s_objects s !! oid = Some o -> (forall rid r, s_regions s !! rid = Some r -> m_vmobject r <> oid) ->
  s_regions s2 = s_regions s -> s_ptes s2 = s_ptes s -> delete oid (s_objects s2) = delete oid (s_objects s) ->
  (forall q c, s_pools s2 !! q = Some c -> 0 <= c) ->
  (forall q oid' o', oid' <> oid -> s_objects s !! oid' = Some o' -> m_shared_committed_cow_pages o' = Some q -> is_Some (s_pools s2 !! q)) ->
  promised2 = sum_of m_unused_committed_pages (delete oid (s_objects s)) + sum_of id (s_pools s2) ->
  held_by_slots s2 held2 promised2 -> (forall k f, slot s2 oid k <> Some (Allocated f)) ->
  inv (with_objects s2 (delete oid (s_objects s2))) held2 promised2.
Proof using.
  intros [[[F1 F2 F3 F4] C2 C3 C4 C5] Hp] Ho Hno Er Ep Eo Hnn Hpools Hsum [Hst Hheld] Hempty. rewrite Eo.
  assert (forall oid' k, oid' <> oid -> slot s2 oid' k = slot s oid' k) as Hsl.
  { intros oid' k Hne. unfold slot. by rewrite <- (lookup_delete_ne (s_objects s2) oid oid'), Eo, lookup_delete_ne. }
  assert (forall oid' k p, slot (with_objects s2 (delete oid (s_objects s))) oid' k = Some p <-> oid' <> oid /\ slot s oid' k = Some p) as Hsl2.
  { intros oid' k p. unfold slot. cbn. destruct (decide (oid' = oid)) as [->|Hne].
    - rewrite lookup_delete_eq. split; [done|by intros []].
    - rewrite lookup_delete_ne by done. tauto. }
  split; [split; [split| | | |]|]; cbn [s_frames s_objects s_pools s_regions s_ptes with_objects] in *.
  - done.
  - intros f. rewrite Hheld. split; intros (oid' & k & Hs); exists oid', k.
    + apply Hsl2. destruct (decide (oid' = oid)) as [->|Hne]; [by destruct (Hempty k f)|]. by rewrite <- Hsl.
    + apply Hsl2 in Hs as [Hne Hs]. by rewrite Hsl.
  - done.
  - done.
  - intros oid' o' [Hne Ho']%lookup_delete_Some. destruct (C2 oid' o' Ho'). split; try done. intros q Hq. by apply (Hpools q oid' o').
  - intros rid r. rewrite Er. intros Hr. destruct (C3 rid r Hr) as [[] Hm]. split; [|done]. split; try done.
    destruct ro_object0 as (q & Hq & Hrest). exists q. split; [|done]. by rewrite lookup_delete_ne by (intros E; by eapply Hno).
  - rewrite Er. done.
  - intros oid' o' k f. cbn [s_objects with_objects]. intros [Hne Ho']%lookup_delete_Some Hk Hb oid2 k2 [_ Hs]%Hsl2. by apply (C5 oid' o' k f).
  - intros rid i. specialize (Hp rid i). cbn [s_regions s_ptes with_objects]. rewrite Er, Ep.
    destruct (s_regions s !! rid) as [r|] eqn:Hr; [|done]. case_if; [|done]. destruct Hp as [?|Hp]; [by left|right].
    rewrite Hp. unfold expected. cbn [s_objects with_objects]. by rewrite lookup_delete_ne by (intros E; by eapply Hno).
Qed.

Lemma destroy_object_ok s held promised oid o :
  inv s held promised -> s_objects s !! oid = Some o -> (forall rid r, s_regions s !! rid = Some r -> m_vmobject r <> oid) ->
  exists s', destroy_object s oid = Ok s' /\ destroyed s oid s'.
Proof using.
  intros Hinv Ho Hno. pose proof Hinv as [[[F1 F2 F3 F4] C2 C3 C4 C5] Hp]. unfold destroy_object, object_at. rewrite Ho. cbn [of_opt res_bind].
  assert (forall i x, s_objects s !! i = Some x -> 0 <= m_unused_committed_pages x) as Hnn.
  { intros i x Hx. rewrite (oo_unused _ _ (C2 i x Hx)). unfold lazy_count. lia. }
  pose proof (sum_of_le _ _ _ _ Hnn Ho) as Hle. pose proof (sum_of_nonneg id _ F4) as Hpl. pose proof (Hnn _ _ Ho) as Hu.
  pose proof (sum_of_delete m_unused_committed_pages _ _ _ Ho) as Hdel.
  assert (exists m, (if 0 <? m_unused_committed_pages o then fp_uncommit (s_frames s) (m_unused_committed_pages o) else Ok (s_frames s)) = Ok m /\
    fp_state m held (promised - m_unused_committed_pages o) /\ same_bytes (s_frames s) m held) as (m & -> & Hst & Hsame).
  { case_if.
    - apply fp_uncommit_ok; [done|lia].
    - assert (m_unused_committed_pages o = 0) as -> by lia. exists (s_frames s). by rewrite Z.sub_0_r. }
  cbn [res_bind]. set (s0 := set_object (with_frames s m) oid (mkObject (vm o) 0 None)).
  destruct (drop_pool_ok s0 held (promised - m_unused_committed_pages o) (m_shared_committed_cow_pages o))
    as (s1 & promised1 & -> & R1 & O1 & P1 & Hst1 & Hsame1 & Hsum1 & Hnn1 & Hpools1); [done|done|cbn; lia|by apply (oo_pool _ _ (C2 _ _ Ho))|].
  cbn [res_bind].
  assert (forall oid' k, slot s1 oid' k = slot s oid' k) as Hsl.
  { intros oid' k. unfold slot. rewrite O1. cbn. destruct (decide (oid' = oid)) as [->|].
    - by rewrite lookup_insert_eq, Ho.
    - by rewrite lookup_insert_ne. }
  destruct (clear_slots_ok (length (m_physical_pages (vm o))) s1 held promised1 oid (mkObject (vm o) 0 None))
    as (s2 & held2 & pages & -> & [E1 E2 E3 E4 (E5 & E6 & E7)] & Hpages);
    [split; [done|]; intros f; rewrite F2; by setoid_rewrite Hsl|rewrite O1; apply lookup_insert_eq|done|].
  cbn [res_bind]. eexists. split; [done|].
  assert (delete oid (s_objects s2) = delete oid (s_objects s)) as Eo
    by (by rewrite E4, O1; cbn; rewrite insert_insert_eq, delete_insert_eq).
  assert (inv (with_objects s2 (delete oid (s_objects s2))) held2 promised1) as Hinv'.
  { apply (without_object_ok s held promised oid o s2 held2 promised1); try done.
    - by rewrite E5, R1.
    - by rewrite E7, P1.
    - by rewrite E6.
    - intros q oid' o' Hne Ho' Hq. rewrite E6. apply (Hpools1 q oid' o'); [by apply (oo_pool _ _ (C2 _ _ Ho'))| |done].
      cbn. by rewrite lookup_insert_ne.
    - rewrite E6. cbn in Hsum1. lia.
    - intros k f. unfold slot. rewrite E4, lookup_insert_eq. cbn. specialize (Hpages k). cbn in Hpages.
      case_bool_decide as Hk; [apply Hpages|]. rewrite Hpages, lookup_ge_None_2 by lia. done. }
  split; [by exists held2, promised1|cbn; by rewrite E5, R1|done|].
  intros oid' k p Hne Hs x Hx. destruct p as [| | |f]; try done. cbn [page_byte s_frames with_objects].
  assert (f ∈ held2) as Hf.
  { apply (fo_held _ _ _ (co_frames _ _ _ (iv_core _ _ _ Hinv'))). exists oid', k. unfold slot in *. cbn. rewrite Eo.
    by rewrite lookup_delete_ne. }
  rewrite E3, Hsame1, Hsame; auto.
Qed.

(** A region goes, and what the others show stays. *)
Record unmapped s (rid : positive) s' : Prop := {
  um_inv : exists held promised, inv s' held promised;
  um_regions : s_regions s' = delete rid (s_regions s);
  um_content : forall rid' r' k p, s_regions s' !! rid' = Some r' -> slot s (m_vmobject r') k = Some p ->
    slot s' (m_vmobject r') k = Some p /\ forall x, 0 <= x < PAGE_SIZE -> page_byte s' p x = page_byte s p x;
  um_objects : forall oid, is_Some (s_objects s' !! oid) -> is_Some (s_objects s !! oid) /\
    forall r, s_regions s !! rid = Some r -> m_vmobject r = oid -> exists rid' r', s_regions s' !! rid' = Some r' /\ m_vmobject r' = oid;
}.

Lemma destroy_region_ok s held promised rid r :
  inv s held promised -> s_regions s !! rid = Some r ->
  exists s', destroy_region s rid = Ok s' /\ unmapped s rid s'.
Proof using.
  intros Hinv Hr. pose proof Hinv as [[_ C2 C3 _ _] _]. destruct (C3 rid r Hr) as [Hok Hm].
  destruct (ro_object _ _ Hok) as (o & Ho & _). unfold destroy_region, region_at. rewrite Hr. cbn [of_opt res_bind]. rewrite Hm.
  pose proof (remove_region_ok s held promised rid r Hinv Hr) as Hinv1.
  set (s1 := with_regions (with_ptes s _) (delete rid (s_regions s))) in *.
  change (with_regions _ _) with s1. destruct (regions_of s1 (m_vmobject r)) as [|rid' l] eqn:E.
  - destruct (destroy_object_ok s1 held promised (m_vmobject r) o Hinv1 Ho) as (s2 & -> & [D1 D2 D3 D4]).
    { intros rid' r' Hr' Hv. apply (not_elem_of_nil rid'). rewrite <- E. apply elem_of_regions_of. by exists r'. }
    exists s2. split; [done|]. split; [done|done| |].
    2:{ intros oid. rewrite D3. intros [q [Hne Hq]%lookup_delete_Some]. split; [by exists q|]. intros r' Hr' E'. congruence. }
    intros rid' r' k p Hr' Hs. rewrite D2 in Hr'.
    assert (m_vmobject r' <> m_vmobject r) as Hne.
    { intros Hv. apply (not_elem_of_nil rid'). rewrite <- E. apply elem_of_regions_of. by exists r'. }
    split; [|intros x Hx; by apply (D4 (m_vmobject r') k)]. unfold slot in *. by rewrite D3, lookup_delete_ne.
  - exists s1. split; [done|]. split; [by exists held, promised|done|done|]. intros oid Ho'. split; [done|]. intros r' Hr' <-.
    assert (r' = r) as -> by congruence. exists rid'. apply elem_of_regions_of. rewrite E. left.
Qed.


End Fork.
End CowFork.
