(* ===== verification/CopyOnWriteRun.v ===== *)
(** * Copy-on-write: runs

    The processes of a system map, fork, read, write and unmap.  The specification
    copies memory at a fork and knows neither pages nor frames; every run of the
    kernel's definitions is a run of the specification. *)

From Stdlib Require Import String.
From S2P Require Import Prelude Memory Containers RangeAllocator Region PhysicalRegion PhysicalMemory FramePool Purgeable CopyOnWrite CopyOnWriteFacts CopyOnWriteSpec CopyOnWriteFork.
Import VirtualAddress Range VMObject Region RegionFacts Purgeable PurgeableFacts CopyOnWrite CowFacts CowSpec CowFork.

Module CowRun.

Inductive operation :=
  | MapAnonymous (range : Range) (name : string) (prot : Z) (reserve shared : bool)
  | Fork (rid : positive)
  | Store (rid : positive) (a v : Z)
  | Load (rid : positive) (a : Z)
  | Unmap (rid : positive).

Inductive answer :=
  | NewRegion (rid : option positive)
  | Accessed (out : outcome)
  | Unmapped
  | NoRegion.

(** Ranges come from the range allocator. *)
Definition operation_ok (op : operation) : Prop :=
  match op with MapAnonymous range _ _ _ _ => user_range range | _ => True end.

(** ** The specification *)

(** What a process sees of a region: where it is, what it may do there, and the
    memory it shows. *)
Record View := mkView { v_range : Range; v_access : Z; v_shared : bool; v_memory : positive }.

Record Memory := mkMemory { mem_regions : gmap positive View; mem_bytes : positive -> Z -> Z }.

Definition holds_address (v : View) (a : Z) : Prop :=
  m_base (v_range v) <= a < m_base (v_range v) + m_size (v_range v).

Definition unseen (m : Memory) (id : positive) : Prop :=
  forall rid v, mem_regions m !! rid = Some v -> v_memory v <> id.

Definition set_bytes (m : Memory) (id : positive) (bytes : Z -> Z) : positive -> Z -> Z :=
  fun id' => if bool_decide (id' = id) then bytes else mem_bytes m id'.

Definition set_byte (bytes : Z -> Z) (i v : Z) : Z -> Z := fun j => if j =? i then v else bytes j.

(** Forking shares shared memory and copies private memory. *)
Inductive spec_step (m : Memory) : operation -> answer -> Memory -> Prop :=
  | spec_map rid id range name prot reserve shared :
      mem_regions m !! rid = None -> unseen m id ->
      spec_step m (MapAnonymous range name prot reserve shared) (NewRegion (Some rid))
        (mkMemory (<[rid := mkView range (initial_access (prot_to_region_access_flags prot)) shared id]> (mem_regions m))
          (set_bytes m id (fun _ => 0)))
  | spec_map_refused range name prot reserve shared :
      spec_step m (MapAnonymous range name prot reserve shared) (NewRegion None) m
  | spec_fork_shared rid v child :
      mem_regions m !! rid = Some v -> v_shared v = true -> mem_regions m !! child = None ->
      spec_step m (Fork rid) (NewRegion (Some child)) (mkMemory (<[child := v]> (mem_regions m)) (mem_bytes m))
  | spec_fork_private rid v child id :
      mem_regions m !! rid = Some v -> v_shared v = false -> mem_regions m !! child = None -> unseen m id ->
      spec_step m (Fork rid) (NewRegion (Some child))
        (mkMemory (<[child := mkView (v_range v) (v_access v) false id]> (mem_regions m))
          (set_bytes m id (mem_bytes m (v_memory v))))
  | spec_fork_refused rid v : mem_regions m !! rid = Some v -> v_shared v = false ->
      spec_step m (Fork rid) (NewRegion None) m
  | spec_store rid v a x :
      mem_regions m !! rid = Some v -> holds_address v a -> has_bit (v_access v) Write = true ->
      spec_step m (Store rid a x) (Accessed (Done x))
        (mkMemory (mem_regions m)
          (set_bytes m (v_memory v) (set_byte (mem_bytes m (v_memory v)) (a - m_base (v_range v)) x)))
  | spec_store_no_memory rid v a x :
      mem_regions m !! rid = Some v -> holds_address v a -> has_bit (v_access v) Write = true ->
      spec_step m (Store rid a x) (Accessed NoMemory) m
  | spec_store_denied rid v a x :
      mem_regions m !! rid = Some v -> (holds_address v a -> has_bit (v_access v) Write = false) ->
      spec_step m (Store rid a x) (Accessed Crashed) m
  | spec_load rid v a :
      mem_regions m !! rid = Some v -> holds_address v a -> has_bit (v_access v) Read || has_bit (v_access v) Write = true ->
      spec_step m (Load rid a) (Accessed (Done (mem_bytes m (v_memory v) (a - m_base (v_range v))))) m
  | spec_load_denied rid v a :
      mem_regions m !! rid = Some v ->
      (holds_address v a -> has_bit (v_access v) Read || has_bit (v_access v) Write = false) ->
      spec_step m (Load rid a) (Accessed Crashed) m
  | spec_unmap rid v :
      mem_regions m !! rid = Some v ->
      spec_step m (Unmap rid) Unmapped (mkMemory (delete rid (mem_regions m)) (mem_bytes m))
  | spec_no_region op rid :
      mem_regions m !! rid = None -> op = Fork rid \/ op = Unmap rid \/ (exists a, op = Load rid a) \/ (exists a x, op = Store rid a x) ->
      spec_step m op NoRegion m.

(** A process that gets no memory is killed, which ends the run. *)
Definition stops (w : answer) : bool := match w with Accessed NoMemory => true | _ => false end.

Inductive spec_run : Memory -> list operation -> list answer -> Prop :=
  | spec_run_nil m : spec_run m [] []
  | spec_run_stop m op ops w m' : spec_step m op w m' -> stops w = true -> spec_run m (op :: ops) [w]
  | spec_run_cons m op ops w ws m' :
      spec_step m op w m' -> stops w = false -> spec_run m' ops ws -> spec_run m (op :: ops) (w :: ws).

Definition no_memory : Memory := mkMemory ∅ (fun _ _ => 0).

(** ** The kernel *)

Section Kernel.
Context {P : Type} `{FP : FramePool P}.
Context (tables : positive -> Z -> bool) (read_bytes : positive -> Z -> option (list Z)).

(** An address outside its region is in no region: [MM.handle_page_fault] crashes. *)
Definition access_region (s : System (P := P)) (rid : positive) (a : Z)
    (run : res (System (P := P) * outcome)) : res (System (P := P) * answer) :=
  match s_regions s !! rid with
  | None => Ok (s, NoRegion)
  | Some r =>
      if (vaddr r <=? a) && (a <? vaddr r + region_size r)
      then let* (s, out) := run in Ok (s, Accessed out)
      else Ok (s, Accessed Crashed)
  end.

Definition perform (s : System (P := P)) (op : operation) : res (System (P := P) * answer) :=
  match op with
  | MapAnonymous range name prot reserve shared =>
      let* (s, rid) := map_anonymous tables s range name prot reserve shared in Ok (s, NewRegion rid)
  | Fork rid =>
      match s_regions s !! rid with
      | None => Ok (s, NoRegion)
      | Some _ => let* (s, child) := fork_region tables s rid in Ok (s, NewRegion child)
      end
  | Store rid a v => access_region s rid a (store tables read_bytes s rid a v)
  | Load rid a => access_region s rid a (load tables read_bytes s rid a)
  | Unmap rid =>
      match s_regions s !! rid with
      | None => Ok (s, NoRegion)
      | Some _ => let* s := destroy_region s rid in Ok (s, Unmapped)
      end
  end.

Fixpoint run (s : System (P := P)) (ops : list operation) : res (System (P := P) * list answer) :=
  match ops with
  | [] => Ok (s, [])
  | op :: ops =>
      let* (s, w) := perform s op in
      if stops w then Ok (s, [w]) else let* (s, ws) := run s ops in Ok (s, w :: ws)
  end.

Definition empty_system (p : P) : System (P := P) := mkSystem ∅ ∅ ∅ ∅ p.

End Kernel.

(** ** The simulation *)

Section Simulation.
Context {P : Type} `{FP : FramePool P} `{FL : !FramePoolLaws P}.
Implicit Types s : System (P := P).

Definition view_of (r : Region) : View := mkView (m_range r) (m_access r) (m_shared r) (m_vmobject r).

(** The regions show the bytes of their memory. *)
Definition shows s (bytes : positive -> Z -> Z) : Prop := forall rid r k p x,
  s_regions s !! rid = Some r -> slot s (m_vmobject r) k = Some p -> 0 <= x < PAGE_SIZE ->
  page_byte s p x = bytes (m_vmobject r) (PAGE_SIZE * Z.of_nat k + x).

Record related s (m : Memory) : Prop := {
  re_inv : exists held promised, inv s held promised;
  re_regions : mem_regions m = view_of <$> s_regions s;
  re_bytes : shows s (mem_bytes m);
  re_shown : forall oid, is_Some (s_objects s !! oid) -> exists rid r, s_regions s !! rid = Some r /\ m_vmobject r = oid;
}.

Lemma related_region s m rid r : related s m -> s_regions s !! rid = Some r -> mem_regions m !! rid = Some (view_of r).
Proof using. intros [] Hr. by rewrite re_regions0, lookup_fmap, Hr. Qed.

Lemma related_none s m rid : related s m -> s_regions s !! rid = None -> mem_regions m !! rid = None.
Proof using. intros [] Hr. by rewrite re_regions0, lookup_fmap, Hr. Qed.

Lemma related_unseen s m oid : related s m -> s_objects s !! oid = None -> unseen m oid.
Proof using.
  intros [(held & promised & [[_ _ C3 _ _] _]) Er _ _] Ho rid v Hv E. rewrite Er, lookup_fmap in Hv.
  destruct (s_regions s !! rid) as [r|] eqn:Hr; [|done]. injection Hv as <-. destruct (C3 rid r Hr) as [Hok _].
  destruct (ro_object _ _ Hok) as (o & Ho' & _). cbn in E. congruence.
Qed.

(** The slot of an address, and where its byte is. *)
Lemma address_slot s held promised rid r a :
  inv s held promised -> s_regions s !! rid = Some r -> in_region r a ->
  exists o p, s_objects s !! m_vmobject r = Some o /\ m_physical_pages (vm o) !! Z.to_nat (page_at r a) = Some p /\
    slot s (m_vmobject r) (Z.to_nat (page_at r a)) = Some p /\ 0 <= offset_at r a < PAGE_SIZE /\
    PAGE_SIZE * Z.of_nat (Z.to_nat (page_at r a)) + offset_at r a = a - m_base (m_range r).
Proof using.
  intros [[_ _ C3 _ _] _] Hr Ha. destruct (C3 rid r Hr) as [Hok _]. destruct (ro_object _ _ Hok) as (o & Ho & _).
  destruct (address_ok _ _ _ _ Hok Ho Ha) as (_ & _ & Hi & Hx).
  destruct (lookup_lt_is_Some_2 (m_physical_pages (vm o)) (Z.to_nat (page_at r a))) as [p Hp]; [unfold page_count in Hi; lia|].
  exists o, p. split; [done|]. split; [done|]. split; [unfold slot; by rewrite Ho|]. split; [done|].
  rewrite Z2Nat.id by lia. unfold page_at, offset_at, vaddr, base in *. unfold PAGE_SIZE in *. Z.to_euclidean_division_equations. lia.
Qed.

Lemma slot_exists s held promised rid r k :
  inv s held promised -> s_regions s !! rid = Some r ->
  (is_Some (slot s (m_vmobject r) k) <-> PAGE_SIZE * Z.of_nat k < m_size (m_range r)).
Proof using.
  intros [[_ _ C3 _ _] _] Hr. destruct (C3 rid r Hr) as [Hok _]. destruct (ro_object _ _ Hok) as (o & Ho & Hsz & _).
  unfold slot. rewrite Ho. cbn. rewrite lookup_lt_is_Some, Hsz. unfold page_count, PAGE_SIZE. lia.
Qed.

(** What a region shows that was there before, in the same place or in another. *)
Lemma shown_before s s' rid rid' r r' bytes k p x :
  (exists held promised, inv s held promised) -> (exists held promised, inv s' held promised) ->
  s_regions s !! rid = Some r -> s_regions s' !! rid' = Some r' -> m_range r' = m_range r ->
  (forall k p, slot s (m_vmobject r) k = Some p -> exists p', slot s' (m_vmobject r') k = Some p' /\
    forall x, 0 <= x < PAGE_SIZE -> page_byte s' p' x = page_byte s p x) ->
  shows s bytes -> slot s' (m_vmobject r') k = Some p -> 0 <= x < PAGE_SIZE ->
  page_byte s' p x = bytes (m_vmobject r) (PAGE_SIZE * Z.of_nat k + x).
Proof using.
  intros (held & promised & Hinv) (held' & promised' & Hinv') Hr Hr' Er Hc Hs Hp Hx.
  destruct (proj2 (slot_exists s held promised rid r k Hinv Hr)) as [p0 Hp0].
  { rewrite <- Er. apply (slot_exists s' held' promised' rid' r' k Hinv' Hr'). by exists p. }
  destruct (Hc _ _ Hp0) as (p' & Hp' & E). assert (p' = p) as -> by congruence. rewrite E by done. by eapply Hs.
Qed.

Lemma handled_related s s' m : related s m -> handled s s' -> related s' m.
Proof using.
  intros [H1 H2 H3 H4] [G1 G2 G3 G4]. split; [done|by rewrite G2| |rewrite G2; auto]. intros rid r k p x Hr Hp Hx.
  eapply (shown_before s s' rid rid r r); try done; [by rewrite <- G2|]. intros k' p'. apply G3.
Qed.

Lemma mapped_related s s' m range name prot reserve shared rid :
  related s m -> mapped_zeroes s range prot shared s' rid -> exists m',
    spec_step m (MapAnonymous range name prot reserve shared) (NewRegion (Some rid)) m' /\ related s' m'.
Proof using.
  intros Hre [M1 M2 (r & Er & <- & <- & Ea & Ho & Hz) Mc Mo]. eexists. split.
  { apply (spec_map _ rid (m_vmobject r)); [by eapply related_none|by eapply related_unseen]. }
  pose proof Hre as [H1 H2 H3 H4]. split; [done|cbn| |].
  - by rewrite Er, fmap_insert, H2, <- Ea.
  - intros rid' r' k p x Hr' Hp Hx. cbn. unfold set_bytes. rewrite Er in Hr'.
    apply lookup_insert_Some in Hr' as [[<- <-]|[Hne Hr']].
    + rewrite bool_decide_true by done. apply Hz in Hp. by destruct p.
    + rewrite bool_decide_false.
      * eapply (shown_before s s' rid' rid' r' r'); try done; [by rewrite Er, lookup_insert_ne|]. intros k' p'. apply Mc.
      * intros E. eapply (related_unseen s m); try done; [by eapply related_region|done].
  - intros oid [Hold|(r' & Hr' & E)]%Mo; [|by exists rid, r']. destruct (H4 oid Hold) as (rid' & r' & Hr' & E).
    exists rid', r'. rewrite Er, lookup_insert_ne by congruence. done.
Qed.

Lemma forked_related s s' m rid r child :
  related s m -> s_regions s !! rid = Some r -> forked s r s' child -> exists m',
    spec_step m (Fork rid) (NewRegion (Some child)) m' /\ related s' m'.
Proof using.
  intros Hre Hr [K1 K2 (cid & Er & Hcid) Kc Ko]. pose proof Hre as [H1 H2 H3 H4].
  assert (forall oid, is_Some (s_objects s' !! oid) -> exists rid r, s_regions s' !! rid = Some r /\ m_vmobject r = oid) as Hshown.
  { intros oid [Hold|(r' & Hr' & E)]%Ko; [|by exists child, r']. destruct (H4 oid Hold) as (rid' & r' & Hr' & E).
    exists rid', r'. rewrite Er, lookup_insert_ne by congruence. done. }
  assert (forall rid' r' k p x, s_regions s !! rid' = Some r' -> slot s' (m_vmobject r') k = Some p -> 0 <= x < PAGE_SIZE ->
    page_byte s' p x = mem_bytes m (m_vmobject r') (PAGE_SIZE * Z.of_nat k + x)) as Hold.
  { intros rid' r' k p x Hr' Hp Hx. eapply (shown_before s s' rid' rid' r' r'); try done.
    - rewrite Er, lookup_insert_ne by congruence. done.
    - intros k' p'. apply Kc. }
  destruct (m_shared r) eqn:Hsh.
  - subst cid. eexists. split.
    { eapply (spec_fork_shared _ rid); [by eapply related_region|done|by eapply related_none]. }
    split; [done|cbn| |done].
    + rewrite Er, fmap_insert, H2. unfold view_of. cbn. by rewrite Hsh.
    + intros rid' r' k p x Hr' Hp Hx. cbn. rewrite Er in Hr'. apply lookup_insert_Some in Hr' as [[<- <-]|[Hne Hr']].
      * by apply (Hold rid r).
      * by apply (Hold rid').
  - destruct Hcid as [Hcid Hcopy]. eexists. split.
    { eapply (spec_fork_private _ rid _ _ cid); [by eapply related_region|done|by eapply related_none|by eapply related_unseen]. }
    split; [done|cbn| |done].
    + rewrite Er, fmap_insert, H2. unfold view_of. cbn. by rewrite Hsh.
    + intros rid' r' k p x Hr' Hp Hx. cbn. unfold set_bytes. pose proof Hr' as Hr2. rewrite Er in Hr'.
      apply lookup_insert_Some in Hr' as [[<- <-]|[Hne Hr']].
      * rewrite bool_decide_true by done. by eapply (shown_before s s' rid child r (with_mapped (child_of r cid) true)).
      * rewrite bool_decide_false; [by apply (Hold rid')|].
        intros E. eapply (related_unseen s m); try done; [by eapply related_region|done].
Qed.

Lemma stored_related s s' m rid r a v :
  related s m -> s_regions s !! rid = Some r -> in_region r a -> is_writable r = true -> stored s r a v s' -> exists m',
    spec_step m (Store rid a v) (Accessed (Done v)) m' /\ related s' m'.
Proof using.
  intros Hre Hr Ha Hw [S1 S2 S3 S4]. eexists. split.
  { eapply (spec_store _ rid); [by eapply related_region|done|done]. }
  pose proof Hre as [(held & promised & H1) H2 H3 H4]. split; [done|cbn; by rewrite S2| |rewrite S2; by auto]. cbn.
  destruct (address_slot s held promised rid r a H1 Hr Ha) as (_ & _ & _ & _ & _ & Hx0 & Ea).
  intros rid' r' k p x Hr' Hp Hx. rewrite S2 in Hr'. destruct S1 as (held' & promised' & S1).
  destruct (proj2 (slot_exists s held promised rid' r' k H1 Hr')) as [p0 Hp0].
  { apply (slot_exists s' held' promised' rid' r' k S1); [by rewrite S2|]. by exists p. }
  destruct (S3 _ _ _ Hp0) as (p' & Hp' & E). assert (p' = p) as -> by congruence. rewrite E by done.
  rewrite (H3 rid' r' k p0 x Hr' Hp0 Hx). unfold set_bytes, set_byte. destruct (decide (m_vmobject r' = m_vmobject r)) as [Eo|Hne].
  - rewrite (bool_decide_true (m_vmobject r' = m_vmobject r)) by done. rewrite Eo. unfold PAGE_SIZE in *.
    destruct (Z.eqb_spec (4096 * Z.of_nat k + x) (a - m_base (m_range r))) as [Ex|Hn].
    + rewrite bool_decide_true; [done|]. split; [done|]. lia.
    + rewrite bool_decide_false; [done|]. intros (_ & -> & ->). done.
  - rewrite !bool_decide_false by tauto. done.
Qed.

Lemma unmapped_related s s' m rid r :
  related s m -> s_regions s !! rid = Some r -> unmapped s rid s' -> exists m',
    spec_step m (Unmap rid) Unmapped m' /\ related s' m'.
Proof using.
  intros Hre Hr [U1 U2 U3 U4]. eexists. split; [eapply spec_unmap; by eapply related_region|].
  pose proof Hre as [H1 H2 H3 H4]. split; [done|cbn; by rewrite U2, fmap_delete, H2| |]; cbn.
  2:{ intros oid [Hold Hlast]%U4. destruct (H4 oid Hold) as (rid' & r' & Hr' & E).
      destruct (decide (rid' = rid)) as [->|Hne]; [by apply (Hlast r')|]. exists rid', r'. by rewrite U2, lookup_delete_ne. }
  intros rid' r' k p x Hr' Hp Hx. eapply (shown_before s s' rid' rid' r' r'); try done.
  - rewrite U2 in Hr'. by apply lookup_delete_Some in Hr' as [_ ?].
  - intros k' p0 Hp0. exists p0. by apply (U3 rid').
Qed.

Context (tables : positive -> Z -> bool) (Htables : forall rid i, tables rid i = true).
Context (read_bytes : positive -> Z -> option (list Z)).

(** What an operation answers is an answer of the specification. *)
Definition simulated s m op : Prop := exists s' w m',
  perform tables read_bytes s op = Ok (s', w) /\ spec_step m op w m' /\ (stops w = false -> related s' m').

Lemma access_outside s m rid r a op result :
  related s m -> s_regions s !! rid = Some r -> ~ in_region r a ->
  op = Load rid a \/ (exists x, op = Store rid a x) ->
  perform tables read_bytes s op = access_region s rid a result -> simulated s m op.
Proof using.
  intros Hre Hr Ha Hop E. exists s, (Accessed Crashed), m. rewrite E. unfold access_region. rewrite Hr.
  replace ((vaddr r <=? a) && (a <? vaddr r + region_size r)) with false by (unfold in_region in Ha; lia).
  split; [done|]. split; [|done]. destruct Hop as [->|[x ->]].
  - by eapply spec_load_denied; [eapply related_region|].
  - by eapply spec_store_denied; [eapply related_region|].
Qed.

Lemma store_simulated s m rid a v : related s m -> simulated s m (Store rid a v).
Proof using Htables.
  intros Hre. destruct (s_regions s !! rid) as [r|] eqn:Hr.
  2:{ exists s, NoRegion, m. cbn. unfold access_region. rewrite Hr. split; [done|]. split; [|done].
      eapply spec_no_region; [by eapply related_none|]. naive_solver. }
  destruct (decide (in_region r a)) as [Ha|Ha]; [|by eapply access_outside; eauto].
  pose proof (re_inv _ _ Hre) as (held & promised & Hinv).
  destruct (address_slot s held promised rid r a Hinv Hr Ha) as (o & p & Ho & Hp & _).
  unfold simulated. cbn [perform]. unfold access_region. rewrite Hr.
  replace ((vaddr r <=? a) && (a <? vaddr r + region_size r)) with true by (unfold in_region in Ha; lia).
  destruct (is_writable r) eqn:Hw.
  - destruct (write_any tables Htables read_bytes rid r a v Ha s held promised o Hinv Hr Ho Hw)
      as (s' & out & -> & [-> |[-> Hst]]); cbn [res_bind].
    + exists s', (Accessed NoMemory), m. split; [done|]. split; [|done].
      by eapply spec_store_no_memory; [eapply related_region| |].
    + destruct (stored_related s s' m rid r a v Hre Hr Ha Hw Hst) as (m' & Hstep & Hre'). by exists s', (Accessed (Done v)), m'.
  - rewrite (store_denied tables Htables read_bytes rid r a v Ha s held promised o) by done. cbn [res_bind].
    exists s, (Accessed Crashed), m. split; [done|]. split; [|done]. eapply spec_store_denied; [by eapply related_region|done].
Qed.

Lemma load_simulated s m rid a : related s m -> simulated s m (Load rid a).
Proof using Htables.
  intros Hre. destruct (s_regions s !! rid) as [r|] eqn:Hr.
  2:{ exists s, NoRegion, m. cbn. unfold access_region. rewrite Hr. split; [done|]. split; [|done].
      eapply spec_no_region; [by eapply related_none|]. naive_solver. }
  destruct (decide (in_region r a)) as [Ha|Ha]; [|by eapply access_outside; eauto].
  pose proof Hre as [(held & promised & Hinv) _ Hb _].
  destruct (address_slot s held promised rid r a Hinv Hr Ha) as (o & p & Ho & Hp & Hs & Hx & Ea).
  unfold simulated. cbn [perform]. unfold access_region. rewrite Hr.
  replace ((vaddr r <=? a) && (a <? vaddr r + region_size r)) with true by (unfold in_region in Ha; lia).
  rewrite (load_ok tables Htables read_bytes rid r a Ha s held promised o p) by done. cbn [res_bind].
  eexists s, _, m. split; [done|]. split; [|done]. destruct (is_readable r || is_writable r) eqn:Hrw.
  - rewrite (Hb rid r _ _ _ Hr Hs Hx), Ea. eapply (spec_load _ rid (view_of r)); [by eapply related_region|done|done].
  - eapply spec_load_denied; [by eapply related_region|done].
Qed.

Lemma operation_simulated s m op : related s m -> operation_ok op -> simulated s m op.
Proof using Htables.
  intros Hre Hop. pose proof Hre as [(held & promised & Hinv) _ _ _].
  destruct op as [range name prot reserve shared|rid|rid a v|rid a|rid].
  - destruct (map_anonymous_ok tables Htables s held promised range name prot reserve shared Hinv Hop) as (s' & result & E & Hr).
    unfold simulated. cbn [perform]. rewrite E. cbn [res_bind]. destruct result as [rid|].
    + destruct (mapped_related s s' m range name prot reserve shared rid Hre Hr) as (m' & ? & ?). by eexists s', _, m'.
    + eexists s', _, m. split; [done|]. split; [by apply spec_map_refused|]. intros _. by eapply handled_related.
  - unfold simulated. cbn [perform]. destruct (s_regions s !! rid) as [r|] eqn:Hr.
    2:{ exists s, NoRegion, m. split; [done|]. split; [|done]. eapply spec_no_region; [by eapply related_none|]. naive_solver. }
    destruct (m_shared r) eqn:Hsh.
    + destruct (fork_shared_ok tables Htables s held promised rid r Hinv Hr Hsh) as (s' & child & -> & Hf). cbn [res_bind].
      destruct (forked_related s s' m rid r child Hre Hr Hf) as (m' & ? & ?). by eexists s', _, m'.
    + destruct (fork_private_ok tables Htables s held promised rid r Hinv Hr Hsh) as (s' & [child|] & -> & Hf); cbn [res_bind].
      * destruct (forked_related s s' m rid r child Hre Hr Hf) as (m' & ? & ?). by eexists s', _, m'.
      * eexists s', _, m. split; [done|]. split; [|intros _; by eapply handled_related].
        eapply spec_fork_refused; [by eapply related_region|done].
  - by apply store_simulated.
  - by apply load_simulated.
  - unfold simulated. cbn [perform]. destruct (s_regions s !! rid) as [r|] eqn:Hr.
    2:{ exists s, NoRegion, m. split; [done|]. split; [|done]. eapply spec_no_region; [by eapply related_none|]. naive_solver. }
    destruct (destroy_region_ok s held promised rid r Hinv Hr) as (s' & -> & Hu). cbn [res_bind].
    destruct (unmapped_related s s' m rid r Hre Hr Hu) as (m' & ? & ?). by eexists s', _, m'.
Qed.

Lemma run_simulated ops s m : related s m -> Forall operation_ok ops ->
  exists s' ws, run tables read_bytes s ops = Ok (s', ws) /\ spec_run m ops ws.
Proof using Htables.
  revert s m. induction ops as [|op ops IH]; intros s m Hre Hops; cbn [run]; [eexists _, _; split; [done|constructor]|].
  apply Forall_cons in Hops as [Hop Hops].
  destruct (operation_simulated s m op Hre Hop) as (s' & w & m' & -> & Hstep & Hnext). cbn [res_bind].
  destruct (stops w) eqn:Hw; [eexists _, _; split; [done|by eapply spec_run_stop]|].
  destruct (IH s' m' (Hnext eq_refl) Hops) as (s2 & ws & -> & Hrun). cbn [res_bind]. eexists _, _. split; [done|]. by eapply spec_run_cons.
Qed.

Lemma empty_related p : fp_state p [] 0 -> related (empty_system p) no_memory.
Proof using.
  intros Hst. split; [|done|done|intros oid [o Ho]; cbn in Ho; by rewrite lookup_empty in Ho]. exists [], 0. split; [split; [split| | | |]|]; try done.
  intros f. split; [by intros ?%not_elem_of_nil|]. by intros (oid & k & ?).
Qed.

(** The states that runs go through. *)
Inductive reached (p : P) : System (P := P) -> Prop :=
  | reached_start : reached p (empty_system p)
  | reached_step s op s' w :
      reached p s -> operation_ok op -> perform tables read_bytes s op = Ok (s', w) -> stops w = false -> reached p s'.

Lemma run_reached p ops s s' ws :
  reached p s -> Forall operation_ok ops -> run tables read_bytes s ops = Ok (s', ws) -> forallb (negb ∘ stops) ws = true ->
  reached p s'.
Proof using.
  revert s ws. induction ops as [|op ops IH]; intros s ws Hs Hops E Hws; cbn [run] in E; [by injection E as <- <-|].
  apply Forall_cons in Hops as [Hop Hops]. destruct (perform tables read_bytes s op) as [[s1 w]|] eqn:Ep; [|done]. cbn [res_bind] in E.
  destruct (stops w) eqn:Hw; [injection E as <- <-; cbn in Hws; by rewrite Hw in Hws|].
  destruct (run tables read_bytes s1 ops) as [[s2 ws']|] eqn:Er; [|done]. injection E as <- <-. cbn in Hws. rewrite Hw in Hws.
  apply (IH s1 ws'); try done. by eapply reached_step.
Qed.

Lemma reached_related p s : fp_state p [] 0 -> reached p s -> exists m, related s m.
Proof using Htables.
  intros Hp. induction 1 as [|s op s' w Hs IH Hop E Hw]; [exists no_memory; by apply empty_related|].
  destruct IH as [m Hre]. destruct (operation_simulated s m op Hre Hop) as (s1 & w1 & m' & E1 & _ & Hnext).
  rewrite E in E1. injection E1 as <- <-. eauto.
Qed.

(** A write through a region changes only the memory that region shows. *)
Lemma store_elsewhere s m rid r rid' r' a v s' w :
  related s m -> s_regions s !! rid = Some r -> s_regions s !! rid' = Some r' -> m_vmobject r' <> m_vmobject r ->
  perform tables read_bytes s (Store rid a v) = Ok (s', w) -> stops w = false ->
  exists m', related s' m' /\ mem_regions m' = mem_regions m /\ mem_bytes m' (m_vmobject r') = mem_bytes m (m_vmobject r').
Proof using Htables.
  intros Hre Hr Hr' Hne E Hw. destruct (store_simulated s m rid a v Hre) as (s1 & w1 & m' & E1 & Hstep & Hnext).
  rewrite E in E1. injection E1 as <- <-. exists m'. split; [auto|]. inversion Hstep; subst; try done. cbn. split; [done|].
  unfold set_bytes. rewrite bool_decide_false; [done|]. rewrite (related_region s m rid r Hre Hr) in *. by simplify_eq.
Qed.

(** The answer to a read is determined by the memory. *)
Lemma load_answer s m rid r a :
  related s m -> s_regions s !! rid = Some r ->
  perform tables read_bytes s (Load rid a) = Ok (s, Accessed (
    if bool_decide (in_region r a) && (is_readable r || is_writable r)
    then Done (mem_bytes m (m_vmobject r) (a - m_base (m_range r))) else Crashed)).
Proof using Htables.
  intros Hre Hr. cbn [perform]. unfold access_region. rewrite Hr.
  pose proof Hre as [(held & promised & Hinv) _ Hb _]. case_bool_decide as Ha; cbn [andb].
  - destruct (address_slot s held promised rid r a Hinv Hr Ha) as (o & p & Ho & Hp & Hs & Hx & Ea).
    replace ((vaddr r <=? a) && (a <? vaddr r + region_size r)) with true by (unfold in_region in Ha; lia).
    rewrite (load_ok tables Htables read_bytes rid r a Ha s held promised o p) by done. cbn [res_bind].
    by rewrite (Hb rid r _ _ _ Hr Hs Hx), Ea.
  - by replace ((vaddr r <=? a) && (a <? vaddr r + region_size r)) with false by (unfold in_region in Ha; lia).
Qed.

End Simulation.
End CowRun.

Import CowRun ManagerPool.



(** C8: when no region is left no frame is in use. *)
Theorem cow_frames_returned {P} `{FP : FramePool P} `{FL : !FramePoolLaws P} tables read_bytes (p : P) s :
  (forall rid i, tables rid i = true) -> fp_state p [] 0 -> reached tables read_bytes p s -> s_regions s = ∅ ->
  exists promised, fp_state (s_frames s) [] promised.
Proof.
  intros Htables Hp Hs Hno. destruct (reached_related tables Htables read_bytes p s Hp Hs) as [m [(held & promised & [[F _ _ _ _] _]) _ _ Hshown]].
  exists promised. destruct F as [Hst Hheld _ _]. assert (held = []) as ->; [|done].
  apply elem_of_nil_inv. intros f (oid & k & Hf)%Hheld. unfold slot in Hf.
  destruct (s_objects s !! oid) as [o|] eqn:Ho; [|done]. destruct (Hshown oid) as (rid & r & Hr & _); [by exists o|].
  by rewrite Hno, lookup_empty in Hr.
Qed.

(** ** A memory manager with 64 frames *)

Import PhysicalRegion MemoryManager MemoryRun.

Definition small_manager : res MemoryManager :=
  let* (m, r, _) := finalize_capacity kmalloc_at_16 kfree_nothing small_heap (PhysicalRegion.create 0x100000 0x140000) in
  Ok (one_region r m).

#[local] Instance small_pool : FramePool MemoryManager := manager_pool 0.
#[local] Instance small_pool_laws : FramePoolLaws MemoryManager := manager_laws 0 ltac:(lia).

Lemma small_manager_state : exists mm, small_manager = Ok mm /\ fp_state mm [] 0.
Proof.
  destruct one_region_inv as (m & r & E & outs & Hinv & Hheld & Hp). exists (one_region r m). unfold small_manager.
  rewrite E. split; [done|]. by exists outs.
Qed.

Definition all_tables (rid : positive) (page_index : Z) : bool := true.
Definition no_file (inode : positive) (offset : Z) : option (list Z) := None.

(** A process maps three pages, writes, forks, and both write the same page. *)
Definition example_operations : list operation :=
  [MapAnonymous (mkRange 0x1000000 0x3000) "stack" 3 true false; Store 1 0x1000005 7; Fork 1; Store 2 0x1000005 9;
   Load 1 0x1000005; Load 2 0x1000005].

Lemma example_operations_ok : Forall operation_ok example_operations.
Proof. repeat constructor; cbn; unfold PAGE_SIZE; lia. Qed.

Definition example_answers : list answer :=
  [NewRegion (Some 1%positive); Accessed (Done 7); NewRegion (Some 2%positive); Accessed (Done 9);
   Accessed (Done 7); Accessed (Done 9)].

(** The state after some operations, with what is of interest in it. *)
Definition after {A} (ops : list operation) (look : System (P := MemoryManager) -> list answer -> A) : res A :=
  let* mm := small_manager in
  let* (s, ws) := run all_tables no_file (empty_system mm) ops in
  Ok (look s ws).

Lemma after_reached {A} ops look (x : A) :
  Forall operation_ok ops -> after ops (fun s ws => (look s, forallb (negb ∘ stops) ws)) = Ok (x, true) ->
  exists mm s, fp_state mm [] 0 /\ reached all_tables no_file mm s /\ look s = x.
Proof.
  intros Hops E. destruct small_manager_state as (mm & Em & Hmm). unfold after in E. rewrite Em in E. cbn [res_bind] in E.
  destruct (run all_tables no_file (empty_system mm) ops) as [[s ws]|] eqn:Er; [|done]. injection E as E1 E2.
  exists mm, s. split; [done|]. split; [|done]. eapply run_reached; [apply reached_start|exact Hops|exact Er|done].
Qed.



Lemma cow_frames_returned_witness : exists s promised, s_regions s = ∅ /\ fp_state (s_frames s) [] promised.
Proof.
  destruct (after_reached (example_operations ++ [Unmap 1; Unmap 2]) (fun s => bool_decide (s_regions s = ∅)) true)
    as (mm & s & Hmm & Hs & Hlook).
  - apply Forall_app. split; [apply example_operations_ok|by repeat constructor].
  - vm_compute. reflexivity.
  - apply bool_decide_eq_true in Hlook.
    destruct (cow_frames_returned all_tables no_file mm s (fun _ _ => eq_refl) Hmm Hs Hlook) as [promised Hf].
    by exists s, promised.
Defined.

(** ** Private mappings of files *)

(** A process that maps one page of a file for itself. *)
Definition file_mapping (mm : MemoryManager) : System (P := MemoryManager) :=
  mkSystem
    {[ 1%positive := mkRegion (mkRange 0x1000000 0x1000) 0 1 "data" (initial_access 3) false true false true false true ]}
    {[ 1%positive := mkObject (mkVMObject (PrivateInode 1) [NoPage] None) 0 None ]} ∅ ∅ mm.

Definition zero_file (inode : positive) (offset : Z) : option (list Z) := Some (replicate 4096 0).

(** A page of a private file mapping that a process has written is not copied when
    it forks: what the child writes there is read by the parent. *)
Theorem private_file_pages_shared :
  (let* mm := small_manager in
   let* (s, before) := run all_tables zero_file (file_mapping mm) [Store 1 0x1000005 7; Fork 1; Load 1 0x1000005] in
   let* (_, later) := run all_tables zero_file s [Store 2 0x1000005 9; Load 1 0x1000005] in
   Ok (before, later)) =
  Ok ([Accessed (Done 7); NewRegion (Some 2%positive); Accessed (Done 7)], [Accessed (Done 9); Accessed (Done 9)]).
Proof. vm_compute. reflexivity. Qed.
