(* ===== verification/Lock.v ===== *)
(** * Kernel/Lock and Kernel/WaitQueue: the kernel's blocking lock

    [WaitQueue] models the queue of blocked threads, [Lock] the four critical
    sections of the lock (the code each operation runs while it owns the flag
    [m_lock]), and [LockSystem] any number of threads that call them in any
    interleaving.  Between two steps of [LockSystem] a thread has done one access
    to the flag, one critical section or one access to the queue; each of these is
    protected by a spin lock.  [LOCK_DEBUG] is off, as in the default build. *)

From stdpp Require Import gmap.
From S2P Require Import Prelude.

Abbreviation tid := positive.

Module WaitQueue.

Record QueueBlocker := mkQueueBlocker { qb_thread : tid; m_did_unblock : bool }.

Record WaitQueue := mkWaitQueue {
  m_wake_requested : bool;
  m_should_block : bool;
  m_blockers : list QueueBlocker;
}.

Definition make : WaitQueue := mkWaitQueue false true [].

Definition should_block (q : WaitQueue) (block : bool) : WaitQueue :=
  mkWaitQueue (m_wake_requested q) block (m_blockers q).

Definition should_add_blocker (q : WaitQueue) : WaitQueue * bool :=
  if m_wake_requested q || negb (m_should_block q)
  then (mkWaitQueue false (m_should_block q) (m_blockers q), false)
  else (q, true).

(** [Thread::BlockCondition::add_blocker] *)
Definition add_blocker (q : WaitQueue) (t : tid) : WaitQueue * bool :=
  let (q, add) := should_add_blocker q in
  if add then (mkWaitQueue (m_wake_requested q) (m_should_block q) (m_blockers q ++ [mkQueueBlocker t false]), true)
  else (q, false).

(** [Vector::remove_first_matching] on the blockers of thread [t]. *)
Fixpoint remove_first (l : list QueueBlocker) (t : tid) : list QueueBlocker :=
  match l with
  | [] => []
  | b :: l => if bool_decide (qb_thread b = t) then l else b :: remove_first l t
  end.

Definition remove_blocker (q : WaitQueue) (t : tid) : WaitQueue :=
  mkWaitQueue (m_wake_requested q) (m_should_block q) (remove_first (m_blockers q) t).

(** [Thread::QueueBlocker::unblock] succeeds once. *)
Definition unblock (b : QueueBlocker) : bool := negb (m_did_unblock b).

(** [do_unblock]: [unblock_one] sees the number of threads woken so far and
    says whether to unblock and whether to stop.  The result is the threads
    unblocked and the blockers that remain. *)
Fixpoint do_unblock (unblock_one : nat -> QueueBlocker -> bool * bool) (woken : nat) (l : list QueueBlocker)
    : list tid * list QueueBlocker :=
  match l with
  | [] => ([], [])
  | b :: l =>
      let (did, stop) := unblock_one woken b in
      let rest := if stop then ([], l) else do_unblock unblock_one (if did then S woken else woken) l in
      if did then (qb_thread b :: rest.1, rest.2) else (rest.1, b :: rest.2)
  end.

Definition wake_with (unblock_one : nat -> QueueBlocker -> bool * bool) (q : WaitQueue) : WaitQueue * list tid :=
  let (woken, l) := do_unblock unblock_one 0 (m_blockers q) in
  (mkWaitQueue (bool_decide (woken = [])) (m_should_block q) l, woken).

Definition wake_one (q : WaitQueue) : WaitQueue * list tid :=
  wake_with (fun _ b => if unblock b then (true, true) else (false, false)) q.

(** [wake_n].  Its assertion that fewer than [wake_count] were woken before each
    blocker holds because the loop stops at [wake_count]. *)
Definition wake_n (wake_count : nat) (q : WaitQueue) : WaitQueue * list tid :=
  match wake_count with
  | O => (q, [])
  | _ => wake_with (fun woken b => if unblock b then (true, bool_decide (wake_count <= S woken)%nat) else (false, false)) q
  end.

Definition wake_all (q : WaitQueue) : WaitQueue * list tid :=
  wake_with (fun _ b => if unblock b then (true, false) else (false, false)) q.

End WaitQueue.

Module Lock.
Import WaitQueue.

Inductive LockMode := Unlocked | Shared | Exclusive.

#[global] Instance LockMode_eq_dec : EqDecision LockMode.
Proof. solve_decision. Defined.

Record Lock := mkLock {
  m_queue : WaitQueue;
  m_mode : LockMode;
  m_times_locked : Z;
  m_holder : option tid;
  m_shared_holders : gmap tid Z;
}.

Definition make_lock : Lock := mkLock make Unlocked 0 None ∅.

Definition is_locked (l : Lock) : bool := bool_decide (m_mode l <> Unlocked).

Definition with_queue (l : Lock) (q : WaitQueue) : Lock :=
  mkLock q (m_mode l) (m_times_locked l) (m_holder l) (m_shared_holders l).

(** [lock] with the flag owned: the lock is acquired ([true]), or the thread has
    to wait.  The argument check is the caller's. *)
Definition lock_section (l : Lock) (current_thread : tid) (mode : LockMode) : res (Lock * bool) :=
  match m_mode l with
  | Unlocked =>
      VERIFY bool_decide (m_holder l = None) ;;
      VERIFY bool_decide (m_shared_holders l = ∅) ;;
      let* (holder, shared) :=
        match mode with
        | Exclusive => Ok (Some current_thread, m_shared_holders l)
        | Shared => Ok (m_holder l, <[current_thread := 1]> (m_shared_holders l))
        | Unlocked => Fault VerifyFailed
        end in
      VERIFY m_times_locked l =? 0 ;;
      Ok (mkLock (should_block (m_queue l) true) mode (wrap U32 (m_times_locked l + 1)) holder shared, true)
  | Exclusive =>
      VERIFY bool_decide (m_holder l <> None) ;;
      if bool_decide (m_holder l <> Some current_thread) then Ok (l, false)
      else
        VERIFY bool_decide (m_shared_holders l = ∅) ;;
        VERIFY bool_decide (mode = Exclusive \/ mode = Shared) ;;
        VERIFY 0 <? m_times_locked l ;;
        Ok (mkLock (m_queue l) (m_mode l) (wrap U32 (m_times_locked l + 1)) (m_holder l) (m_shared_holders l), true)
  | Shared =>
      VERIFY bool_decide (m_holder l = None) ;;
      if bool_decide (mode <> Shared) then Ok (l, false)
      else
        VERIFY 0 <? m_times_locked l ;;
        VERIFY bool_decide (m_shared_holders l <> ∅) ;;
        let shared :=
          match m_shared_holders l !! current_thread with
          | Some value => <[current_thread := wrap U32 (value + 1)]> (m_shared_holders l)
          | None => <[current_thread := 1]> (m_shared_holders l)
          end in
        Ok (mkLock (m_queue l) (m_mode l) (wrap U32 (m_times_locked l + 1)) (m_holder l) shared, true)
  end.

(** [unlock] with the flag owned; [true] when the last hold was released, and a
    waiter is to be woken. *)
Definition unlock_section (l : Lock) (current_thread : tid) : res (Lock * bool) :=
  VERIFY bool_decide (m_mode l <> Unlocked) ;;
  VERIFY 0 <? m_times_locked l ;;
  let times_locked := wrap U32 (m_times_locked l - 1) in
  let* (holder, shared) :=
    match m_mode l with
    | Exclusive =>
        VERIFY bool_decide (m_holder l = Some current_thread) ;;
        VERIFY bool_decide (m_shared_holders l = ∅) ;;
        Ok (if times_locked =? 0 then None else m_holder l, m_shared_holders l)
    | Shared =>
        VERIFY bool_decide (m_holder l = None) ;;
        let* value := of_opt VerifyFailed (m_shared_holders l !! current_thread) in
        if 1 <? value then Ok (m_holder l, <[current_thread := wrap U32 (value - 1)]> (m_shared_holders l))
        else
          VERIFY 0 <? value ;;
          Ok (m_holder l, delete current_thread (m_shared_holders l))
    | Unlocked => Fault VerifyFailed
    end in
  if times_locked =? 0 then
    VERIFY match m_mode l with Exclusive => bool_decide (holder = None) | _ => bool_decide (shared = ∅) end ;;
    Ok (mkLock (should_block (m_queue l) false) Unlocked times_locked holder shared, true)
  else Ok (mkLock (m_queue l) (m_mode l) times_locked holder shared, false).

(** [force_unlock_if_locked] with the flag owned: the previous mode, the count to
    restore, and whether a waiter is to be woken. *)
Definition force_unlock_section (l : Lock) (current_thread : tid) : res (Lock * (LockMode * Z) * bool) :=
  match m_mode l with
  | Exclusive =>
      if bool_decide (m_holder l <> Some current_thread) then Ok (l, (Unlocked, 0), false)
      else
        VERIFY 0 <? m_times_locked l ;;
        Ok (mkLock (should_block (m_queue l) false) Unlocked 0 None (m_shared_holders l),
            (Exclusive, m_times_locked l), true)
  | Shared =>
      VERIFY bool_decide (m_holder l = None) ;;
      match m_shared_holders l !! current_thread with
      | None => Ok (l, (Unlocked, 0), false)
      | Some value =>
          VERIFY 0 <? value ;;
          VERIFY value <=? m_times_locked l ;;
          let times_locked := wrap U32 (m_times_locked l - value) in
          let shared := delete current_thread (m_shared_holders l) in
          if times_locked =? 0
          then Ok (mkLock (should_block (m_queue l) false) Unlocked times_locked (m_holder l) shared, (Shared, value), true)
          else Ok (mkLock (m_queue l) (m_mode l) times_locked (m_holder l) shared, (Shared, value), true)
      end
  | Unlocked => Ok (l, (Unlocked, 0), true)
  end.

(** [restore_lock] with the flag owned: [false] when the mode does not allow it
    yet. *)
Definition restore_section (l : Lock) (current_thread : tid) (mode : LockMode) (lock_count : Z) : res (Lock * bool) :=
  match mode with
  | Exclusive =>
      if bool_decide (m_mode l <> Unlocked) then Ok (l, false)
      else
        VERIFY m_times_locked l =? 0 ;;
        VERIFY bool_decide (m_holder l = None) ;;
        VERIFY bool_decide (m_shared_holders l = ∅) ;;
        Ok (mkLock (should_block (m_queue l) true) Exclusive lock_count (Some current_thread) (m_shared_holders l), true)
  | Shared =>
      if bool_decide (m_mode l = Exclusive) then Ok (l, false)
      else
        VERIFY bool_decide (m_mode l = Shared) || (m_times_locked l =? 0) ;;
        VERIFY bool_decide (m_holder l = None) ;;
        VERIFY bool_decide (m_mode l = Unlocked <-> m_shared_holders l = ∅) ;;
        VERIFY bool_decide (m_shared_holders l !! current_thread = None) ;;
        Ok (mkLock (should_block (m_queue l) true) Shared (wrap U32 (m_times_locked l + lock_count)) (m_holder l)
              (<[current_thread := lock_count]> (m_shared_holders l)), true)
  | Unlocked => Fault VerifyFailed
  end.

Definition clear_waiters (l : Lock) : res (Lock * list tid) :=
  VERIFY bool_decide (m_mode l <> Shared) ;;
  let (q, woken) := wake_all (m_queue l) in
  Ok (with_queue l q, woken).

End Lock.

Module LockSystem.
Import WaitQueue Lock.

(** The calls a thread makes. *)
Inductive call :=
  | CallLock (mode : LockMode)
  | CallUnlock
  | CallForceUnlock
  | CallRestore (mode : LockMode) (lock_count : Z).

(** Where a thread is: outside of the lock's code, before the exchange of the
    flag, owner of the flag, about to wait, waiting, about to wake a waiter. *)
Inductive pc :=
  | Running
  | Trying (c : call)
  | Inside (c : call)
  | Blocking (mode : LockMode)
  | Waiting (mode : LockMode)
  | Waking.

(** [s_held] and [s_saved] are what the calls promised to each thread: the holds
    it has, and those [force_unlock_if_locked] told it to restore. *)
Record sys := mkSys {
  s_lock : Lock;
  s_flag : bool;
  s_pc : tid -> pc;
  s_held : gmap tid (LockMode * Z);
  s_saved : gmap tid (LockMode * Z);
}.

Definition initial : sys := mkSys make_lock false (fun _ => Running) ∅ ∅.

Definition set (f : tid -> pc) (t : tid) (p : pc) : tid -> pc := fun u => if bool_decide (u = t) then p else f u.

Definition with_pc (s : sys) (t : tid) (p : pc) : sys :=
  mkSys (s_lock s) (s_flag s) (set (s_pc s) t p) (s_held s) (s_saved s).

(** After a critical section: the flag is released. *)
Definition leave (s : sys) (l : Lock) (t : tid) (p : pc) (held saved : gmap tid (LockMode * Z)) : sys :=
  mkSys l false (set (s_pc s) t p) held saved.

(** One more hold: a hold of an exclusive owner stays exclusive. *)
Definition acquired (held : gmap tid (LockMode * Z)) (t : tid) (mode : LockMode) : gmap tid (LockMode * Z) :=
  match held !! t with
  | Some (m, n) => <[t := (m, n + 1)]> held
  | None => <[t := (mode, 1)]> held
  end.

Definition released (held : gmap tid (LockMode * Z)) (t : tid) : gmap tid (LockMode * Z) :=
  match held !! t with
  | Some (m, n) => if n =? 1 then delete t held else <[t := (m, n - 1)]> held
  | None => held
  end.

Definition counts (m : gmap tid (LockMode * Z)) : Z := map_fold (fun _ v acc => v.2 + acc) 0 m.

(** All holds, also those to be restored. *)
Definition outstanding (s : sys) : Z := m_times_locked (s_lock s) + counts (s_saved s).

(** Which calls a thread may make: it unlocks what it holds, restores what it was
    told to, and does nothing else before. *)
Definition permitted (s : sys) (t : tid) (c : call) : bool :=
  match c with
  | CallLock mode => bool_decide (mode <> Unlocked) && bool_decide (s_saved s !! t = None)
  | CallUnlock => bool_decide (s_held s !! t <> None)
  | CallForceUnlock => bool_decide (s_saved s !! t = None)
  | CallRestore mode n => bool_decide (s_saved s !! t = Some (mode, n))
  end.

Definition section (s : sys) (t : tid) (c : call) : res sys :=
  match c with
  | CallLock mode =>
      let* (l, got) := lock_section (s_lock s) t mode in
      Ok (if got : bool then leave s l t Running (acquired (s_held s) t mode) (s_saved s)
          else leave s l t (Blocking mode) (s_held s) (s_saved s))
  | CallUnlock =>
      let* (l, last) := unlock_section (s_lock s) t in
      Ok (leave s l t (if last : bool then Waking else Running) (released (s_held s) t) (s_saved s))
  | CallForceUnlock =>
      let* (l, previous, wake) := force_unlock_section (s_lock s) t in
      let p := if wake : bool then Waking else Running in
      Ok (if bool_decide (previous.1 = Unlocked) then leave s l t p (s_held s) (s_saved s)
          else leave s l t p (delete t (s_held s)) (<[t := previous]> (s_saved s)))
  | CallRestore mode n =>
      let* (l, got) := restore_section (s_lock s) t mode n in
      Ok (if got : bool then leave s l t Running (<[t := (mode, n)]> (s_held s)) (delete t (s_saved s))
          else leave s l t (Trying c) (s_held s) (s_saved s))
  end.

Definition wake_thread (f : tid -> pc) (t : tid) : tid -> pc :=
  match f t with Waiting mode => set f t (Trying (CallLock mode)) | _ => f end.

(** A thread that is in the lock's code goes on.  The count is 32 bits wide: the
    system is one in which fewer than [2 ^ 32 - 1] holds are outstanding. *)
Definition advance (s : sys) (t : tid) : option (res sys) :=
  match s_pc s t with
  | Running | Waiting _ => None
  | Trying c =>
      Some (Ok (if s_flag s then s
                else mkSys (s_lock s) true (set (s_pc s) t (Inside c)) (s_held s) (s_saved s)))
  | Inside c => if outstanding s <? 2 ^ 32 - 1 then Some (section s t c) else None
  | Blocking mode =>
      let (q, blocked) := add_blocker (m_queue (s_lock s)) t in
      Some (Ok (mkSys (with_queue (s_lock s) q) (s_flag s)
                  (set (s_pc s) t (if blocked then Waiting mode else Trying (CallLock mode))) (s_held s) (s_saved s)))
  | Waking =>
      let (q, woken) := wake_one (m_queue (s_lock s)) in
      Some (Ok (mkSys (with_queue (s_lock s) q) (s_flag s)
                  (set (foldl wake_thread (s_pc s) woken) t Running) (s_held s) (s_saved s)))
  end.

Inductive event :=
  | Call (c : call)
  | Advance
  | Interrupt.

(** [None]: the event cannot happen.  A waiting thread can be interrupted by a
    signal at any time; it then tries again. *)
Definition exec (s : sys) (t : tid) (e : event) : option (res sys) :=
  match e with
  | Call c =>
      match s_pc s t with
      | Running => if permitted s t c then Some (Ok (with_pc s t (Trying c))) else None
      | _ => None
      end
  | Advance => advance s t
  | Interrupt =>
      match s_pc s t with
      | Waiting mode =>
          Some (Ok (mkSys (with_queue (s_lock s) (remove_blocker (m_queue (s_lock s)) t)) (s_flag s)
                      (set (s_pc s) t (Trying (CallLock mode))) (s_held s) (s_saved s)))
      | _ => None
      end
  end.

Inductive reachable : sys -> Prop :=
  | reachable_initial : reachable initial
  | reachable_step s t e s' : reachable s -> exec s t e = Some (Ok s') -> reachable s'.

(** ** Invariant *)

(** The lock's fields say what the threads hold. *)
Definition lock_ok (l : Lock) (held : gmap tid (LockMode * Z)) : Prop :=
  match m_mode l with
  | Unlocked => m_holder l = None /\ m_shared_holders l = ∅ /\ m_times_locked l = 0 /\ held = ∅
  | Exclusive =>
      exists t, m_holder l = Some t /\ m_shared_holders l = ∅ /\ 0 < m_times_locked l /\
        held = {[t := (Exclusive, m_times_locked l)]}
  | Shared =>
      m_holder l = None /\ m_shared_holders l <> ∅ /\ held = (fun n => (Shared, n)) <$> m_shared_holders l /\
      m_times_locked l = counts held /\ map_Forall (fun _ n => 0 < n) (m_shared_holders l)
  end.

(** What the place of a thread says of it. *)
Definition pc_ok (s : sys) (t : tid) : Prop :=
  match s_pc s t with
  | Trying c | Inside c => permitted s t c = true
  | Blocking m | Waiting m => permitted s t (CallLock m) = true
  | Running | Waking => True
  end.

(** A thread that will try to take the lock without being woken. *)
Definition awake (p : pc) : Prop :=
  match p with
  | Waking | Trying (CallLock _) | Inside (CallLock _) => True
  | _ => False
  end.

Definition asleep (p : pc) : Prop :=
  match p with Blocking _ | Waiting _ => True | _ => False end.

Record sys_inv (s : sys) : Prop := {
  si_lock : lock_ok (s_lock s) (s_held s);
  si_flag : forall t c, s_pc s t = Inside c -> s_flag s = true;
  si_owner : s_flag s = true -> exists t c, s_pc s t = Inside c;
  si_unique : forall t u c d, s_pc s t = Inside c -> s_pc s u = Inside d -> t = u;
  si_pc : forall t, pc_ok s t;
  si_saved : forall t m n, s_saved s !! t = Some (m, n) -> s_held s !! t = None /\ 0 < n /\ m <> Unlocked;
  si_room : outstanding s < 2 ^ 32;
  si_blockers : forall t, (exists m, s_pc s t = Waiting m) <-> mkQueueBlocker t false ∈ m_blockers (m_queue (s_lock s));
  si_queue : NoDup (m_blockers (m_queue (s_lock s))) /\ Forall (fun b => m_did_unblock b = false) (m_blockers (m_queue (s_lock s)));
  si_block : m_mode (s_lock s) = Unlocked ->
    m_should_block (m_queue (s_lock s)) = false \/ forall t, ~ asleep (s_pc s t);
  si_wake : m_mode (s_lock s) = Unlocked -> forall t m, s_pc s t = Waiting m -> exists u, awake (s_pc s u);
}.

End LockSystem.

(** ** Lemmas *)

Module LockFacts.
Import WaitQueue Lock LockSystem.

Lemma wrap_u32 z : 0 <= z < 2 ^ 32 -> wrap U32 z = z.
Proof. intros. apply wrap_id; [done|]. apply in_ty_spec. cbn. lia. Qed.

Lemma counts_insert m t v : m !! t = None -> counts (<[t := v]> m) = v.2 + counts m.
Proof. intros Ht. unfold counts. rewrite map_fold_insert_L; [done|lia|done]. Qed.

Lemma counts_delete m t v : m !! t = Some v -> counts m = v.2 + counts (delete t m).
Proof. intros Ht. unfold counts. rewrite (map_fold_delete_L _ _ t v m) by (done || lia). done. Qed.

Lemma counts_update m t v w : m !! t = Some v -> counts (<[t := w]> m) = counts m - v.2 + w.2.
Proof.
  intros Ht. rewrite (counts_delete m t v Ht), <-insert_delete_eq, counts_insert by apply lookup_delete_eq. lia.
Qed.

Lemma counts_nonneg m : map_Forall (fun _ v => 0 < v.2) m -> 0 <= counts m.
Proof.
  induction m as [|t v m Hm IH] using map_ind; [done|]. intros H.
  apply map_Forall_insert in H as [Hv H]; [|done]. rewrite counts_insert by done. specialize (IH H). lia.
Qed.

Lemma counts_lookup m t v : map_Forall (fun _ v => 0 < v.2) m -> m !! t = Some v -> v.2 <= counts m.
Proof.
  intros H Ht. rewrite (counts_delete m t v Ht).
  pose proof (counts_nonneg (delete t m) ltac:(by apply map_Forall_delete)). lia.
Qed.

Lemma counts_pos m : map_Forall (fun _ v => 0 < v.2) m -> m <> ∅ -> 0 < counts m.
Proof.
  intros H Hne. apply map_choose in Hne as (t & v & Ht). pose proof (counts_lookup m t v H Ht).
  specialize (H t v Ht). cbn in H. lia.
Qed.

Lemma shared_counts_pos (sh : gmap tid Z) :
  map_Forall (fun _ n => 0 < n) sh -> map_Forall (fun _ v => 0 < v.2) ((fun n => (Shared, n)) <$> sh).
Proof. intros H. by apply map_Forall_fmap. Qed.

Ltac verify_true := rewrite ?bool_decide_eq_true_2 by (done || lia || eauto); cbn [verify res_bind].

(** The queue changes only its [m_should_block] flag. *)
Definition same_blockers (l l' : Lock) : Prop := m_blockers (m_queue l') = m_blockers (m_queue l).

Lemma lock_times l held : lock_ok l held -> m_mode l <> Unlocked -> 0 < m_times_locked l.
Proof.
  unfold lock_ok. destruct (m_mode l); [done| |by intros (? & _ & _ & ? & _)]. intros (_ & Hne & -> & -> & Hp) _.
  apply counts_pos; [by apply shared_counts_pos|]. by rewrite fmap_empty_iff.
Qed.

Lemma lock_section_ok l held t m :
  lock_ok l held -> m <> Unlocked -> m_times_locked l < 2 ^ 32 - 1 ->
  exists l' got, lock_section l t m = Ok (l', got) /\
    if got : bool
    then lock_ok l' (acquired held t m) /\ m_times_locked l' = m_times_locked l + 1 /\ m_mode l' <> Unlocked /\ same_blockers l l'
    else l' = l /\ m_mode l <> Unlocked.
Proof.
  intros Hok Hm Hroom. pose proof (lock_times l held Hok) as Hpos. destruct l as [q mode times holder shared].
  unfold lock_ok, lock_section, same_blockers in *. cbn [m_mode m_holder m_shared_holders m_times_locked m_queue] in *.
  destruct mode.
  - destruct Hok as (-> & -> & -> & ->). verify_true. rewrite wrap_u32 by lia.
    unfold acquired. rewrite lookup_empty. destruct m; [done|..]; cbn [res_bind Z.eqb verify]; eexists _, true; (split; [done|]);
      cbn [m_mode m_holder m_shared_holders m_times_locked m_queue should_block m_blockers].
    + split; [|done]. split; [done|]. split; [apply insert_non_empty|]. rewrite fmap_insert, fmap_empty.
      split; [done|]. split; [by rewrite counts_insert by apply lookup_empty|]. by apply map_Forall_insert_2, map_Forall_empty.
    + split; [|done]. exists t. done.
  - destruct Hok as (-> & Hne & -> & Ht & Hp). specialize (Hpos ltac:(done)). verify_true.
    destruct (decide (m = Shared)) as [->|Hd].
    + rewrite bool_decide_eq_false_2 by auto. replace (0 <? times) with true by lia. verify_true.
      eexists _, true. split; [done|]. cbn [m_mode m_holder m_shared_holders m_times_locked m_queue].
      rewrite wrap_u32 by lia. split; [|done]. unfold acquired. rewrite lookup_fmap.
      destruct (shared !! t) as [n|] eqn:E; cbn.
      * assert (n <= times) by (rewrite Ht; apply (counts_lookup _ t (Shared, n)); [by apply shared_counts_pos|by rewrite lookup_fmap, E]).
        pose proof (Hp t n E) as Hn. cbn in Hn. rewrite wrap_u32 by lia. split; [done|]. split; [apply insert_non_empty|].
        rewrite fmap_insert. split; [done|]. split; [|by apply map_Forall_insert_2; [lia|]].
        rewrite (counts_update _ t (Shared, n)) by by rewrite lookup_fmap, E. cbn. lia.
      * split; [done|]. split; [apply insert_non_empty|]. rewrite fmap_insert. split; [done|].
        split; [|by apply map_Forall_insert_2]. rewrite counts_insert by by rewrite lookup_fmap, E. cbn. lia.
    + rewrite bool_decide_eq_true_2 by done. by eexists _, false.
  - destruct Hok as (u & -> & -> & Ht & ->). verify_true. destruct (decide (u = t)) as [->|Hd].
    + rewrite bool_decide_eq_false_2 by auto. verify_true.
      rewrite bool_decide_eq_true_2 by (destruct m; auto; done). replace (0 <? times) with true by lia.
      cbn [verify res_bind]. eexists _, true. split; [done|]. rewrite wrap_u32 by lia. cbn. split; [|done].
      exists t. unfold acquired. rewrite lookup_singleton_eq, insert_singleton_eq. split; [done|]. split; [done|]. split; [lia|done].
    + rewrite bool_decide_eq_true_2 by congruence. by eexists _, false.
Qed.

(** Taking [n] of the [v] holds of a shared holder away. *)
Lemma shared_take (shared : gmap tid Z) t v n :
  map_Forall (fun _ n => 0 < n) shared -> shared !! t = Some v -> 0 < n <= v ->
  let shared' := if n =? v then delete t shared else <[t := v - n]> shared in
  map_Forall (fun _ n => 0 < n) shared' /\
  counts ((fun n => (Shared, n)) <$> shared') = counts ((fun n => (Shared, n)) <$> shared) - n /\
  (shared' = ∅ <-> counts ((fun n => (Shared, n)) <$> shared') = 0).
Proof.
  intros Hp Hv Hn shared'. assert (map_Forall (fun _ n => 0 < n) shared') as Hp'.
  { subst shared'. case_if; [by apply map_Forall_delete|by apply map_Forall_insert_2; [lia|]]. }
  split; [done|]. split.
  - assert (((fun n => (Shared, n)) <$> shared) !! t = Some (Shared, v)) as Hl by by rewrite lookup_fmap, Hv.
    subst shared'. case_if.
    + rewrite fmap_delete. pose proof (counts_delete _ t _ Hl) as H'. cbn in H'. lia.
    + rewrite fmap_insert, (counts_update _ t (Shared, v)) by done. cbn. lia.
  - split; [intros ->; done|]. intros H. destruct (decide (shared' = ∅)) as [|Hne]; [done|].
    pose proof (counts_pos _ (shared_counts_pos _ Hp')) as H'. rewrite fmap_empty_iff in H'. specialize (H' Hne). lia.
Qed.

Lemma unlock_section_ok l held t :
  lock_ok l held -> held !! t <> None -> m_times_locked l < 2 ^ 32 ->
  exists l' last, unlock_section l t = Ok (l', last) /\ lock_ok l' (released held t) /\
    m_times_locked l' = m_times_locked l - 1 /\ same_blockers l l' /\
    (m_mode l' = Unlocked -> last = true /\ m_should_block (m_queue l') = false).
Proof.
  intros Hok Hh Hroom. pose proof (lock_times l held Hok) as Hpos. destruct l as [q mode times holder shared].
  unfold lock_ok, unlock_section, same_blockers in *. cbn [m_mode m_holder m_shared_holders m_times_locked m_queue] in *.
  destruct mode.
  - destruct Hok as (-> & -> & -> & ->). by rewrite lookup_empty in Hh.
  - destruct Hok as (-> & Hne & -> & Ht & Hp). specialize (Hpos ltac:(done)). verify_true.
    replace (0 <? times) with true by lia. cbn [verify res_bind]. rewrite wrap_u32 by lia.
    rewrite lookup_fmap in Hh. destruct (shared !! t) as [v|] eqn:Hv; [|done]. pose proof (Hp t v Hv) as Hv0. cbn in Hv0.
    assert (v <= times) by (rewrite Ht; apply (counts_lookup _ t (Shared, v)); [by apply shared_counts_pos|by rewrite lookup_fmap, Hv]).
    destruct (shared_take shared t v 1 Hp Hv ltac:(lia)) as (P1 & P2 & P3).
    set (shared' := if 1 =? v then _ else _) in *.
    assert (released ((fun n => (Shared, n)) <$> shared) t = (fun n => (Shared, n)) <$> shared') as Hr.
    { unfold released. rewrite lookup_fmap, Hv. cbn. subst shared'. rewrite (Z.eqb_sym 1).
      case_if; [by rewrite fmap_delete|by rewrite fmap_insert]. }
    rewrite Hr. cbn [of_opt res_bind].
    match goal with |- context [res_bind ?c _] => assert (c = Ok (None, shared')) as -> end.
    { subst shared'. destruct (Z.ltb_spec 1 v); [|by assert (v = 1) as -> by lia].
      replace (1 =? v) with false by lia. by rewrite wrap_u32 by lia. }
    cbn [res_bind]. destruct (Z.eqb_spec (times - 1) 0) as [E|E].
    + assert (shared' = ∅) as -> by (apply P3; lia). verify_true. eexists _, true. split; [done|].
      cbn. rewrite fmap_empty. done.
    + eexists _, false. split; [done|]. cbn. split; [|done]. split; [done|]. split; [rewrite P3; lia|]. split; [done|].
      split; [lia|done].
  - destruct Hok as (u & -> & -> & Ht & ->). verify_true. replace (0 <? times) with true by lia. cbn [verify res_bind].
    rewrite wrap_u32 by lia. assert (u = t) as ->.
    { destruct (decide (u = t)) as [|Hd]; [done|]. by rewrite lookup_singleton_ne in Hh. }
    verify_true. unfold released. rewrite lookup_singleton_eq.
    destruct (Z.eqb_spec (times - 1) 0) as [E|E].
    + verify_true. eexists _, true. split; [done|]. replace (times =? 1) with true by lia. cbn.
      rewrite delete_singleton_eq. split; [|done]. split; [done|]. split; [done|]. split; [lia|done].
    + eexists _, false. split; [done|]. replace (times =? 1) with false by lia. cbn.
      rewrite insert_singleton_eq. split; [|done]. exists t. split; [done|]. split; [done|]. split; [lia|done].
Qed.

Lemma force_unlock_section_ok l held t :
  lock_ok l held -> m_times_locked l < 2 ^ 32 ->
  exists l' previous wake, force_unlock_section l t = Ok (l', previous, wake) /\
    if bool_decide (previous.1 = Unlocked)
    then l' = l /\ (m_mode l = Unlocked -> wake = true)
    else held !! t = Some previous /\ 0 < previous.2 /\ lock_ok l' (delete t held) /\
      m_times_locked l' = m_times_locked l - previous.2 /\ same_blockers l l' /\
      (m_mode l' = Unlocked -> wake = true /\ m_should_block (m_queue l') = false).
Proof.
  intros Hok Hroom. pose proof (lock_times l held Hok) as Hpos. destruct l as [q mode times holder shared].
  unfold lock_ok, force_unlock_section, same_blockers in *. cbn [m_mode m_holder m_shared_holders m_times_locked m_queue] in *.
  destruct mode.
  - by eexists _, (Unlocked, 0), true.
  - destruct Hok as (-> & Hne & -> & Ht & Hp). specialize (Hpos ltac:(done)). verify_true.
    destruct (shared !! t) as [v|] eqn:Hv; [|by eexists _, (Unlocked, 0), false].
    pose proof (Hp t v Hv) as Hv0. cbn in Hv0.
    assert (v <= times) by (rewrite Ht; apply (counts_lookup _ t (Shared, v)); [by apply shared_counts_pos|by rewrite lookup_fmap, Hv]).
    replace (0 <? v) with true by lia. replace (v <=? times) with true by lia. cbn [verify res_bind].
    rewrite wrap_u32 by lia. destruct (shared_take shared t v v Hp Hv ltac:(lia)) as (P1 & P2 & P3).
    rewrite Z.eqb_refl in P1, P2, P3. cbn zeta in P1, P2, P3.
    destruct (Z.eqb_spec (times - v) 0) as [E|E]; eexists _, (Shared, v), true; (split; [done|]); cbn;
      rewrite lookup_fmap, Hv; (split; [done|]); (split; [done|]); rewrite <-fmap_delete.
    + assert (delete t shared = ∅) as -> by (apply P3; lia). rewrite fmap_empty.
      split; [|done]. split; [done|]. split; [done|]. split; [lia|done].
    + split; [|done]. split; [done|]. split; [rewrite P3; lia|]. split; [done|]. split; [lia|done].
  - destruct Hok as (u & -> & -> & Ht & ->). destruct (decide (u = t)) as [->|Hd].
    + rewrite bool_decide_eq_false_2 by auto. replace (0 <? times) with true by lia. cbn [verify res_bind].
      eexists _, (Exclusive, times), true. split; [done|]. cbn. rewrite lookup_singleton_eq, delete_singleton_eq.
      split; [done|]. split; [done|]. split; [done|]. split; [lia|done].
    + rewrite bool_decide_eq_true_2 by congruence. by eexists _, (Unlocked, 0), false.
Qed.

Lemma restore_section_ok l held t m n :
  lock_ok l held -> held !! t = None -> m <> Unlocked -> 0 < n -> m_times_locked l + n < 2 ^ 32 ->
  exists l' got, restore_section l t m n = Ok (l', got) /\
    if got : bool
    then lock_ok l' (<[t := (m, n)]> held) /\ m_times_locked l' = m_times_locked l + n /\ m_mode l' <> Unlocked /\ same_blockers l l'
    else l' = l /\ m_mode l <> Unlocked.
Proof.
  intros Hok Hh Hm Hn Hroom. pose proof (lock_times l held Hok) as Hpos. destruct l as [q mode times holder shared].
  unfold lock_ok, restore_section, same_blockers in *. cbn [m_mode m_holder m_shared_holders m_times_locked m_queue] in *.
  assert (mode = Shared -> 0 < times) as Hpos' by (intros ->; by apply Hpos). clear Hpos.
  destruct mode, m; try done.
  - destruct Hok as (-> & -> & -> & ->). repeat verify_true. cbn [orb verify res_bind Z.eqb].
    rewrite bool_decide_eq_false_2 by done. cbn [orb verify res_bind]. repeat verify_true.
    rewrite wrap_u32 by lia. eexists _, true. split; [done|]. cbn. split; [|done].
    split; [done|]. split; [apply insert_non_empty|]. rewrite fmap_insert, fmap_empty. split; [done|].
    split; [rewrite counts_insert by apply lookup_empty; change (counts ∅) with 0; cbn [snd]; lia|]. by apply map_Forall_insert_2, map_Forall_empty.
  - destruct Hok as (-> & -> & -> & ->). rewrite bool_decide_eq_false_2 by auto. repeat verify_true. cbn [Z.eqb verify res_bind].
    eexists _, true. split; [done|]. cbn. split; [|done]. by exists t.
  - destruct Hok as (-> & Hne & -> & Ht & Hp). specialize (Hpos' eq_refl).
    rewrite bool_decide_eq_false_2 by done. repeat verify_true. cbn [orb verify res_bind].
    rewrite lookup_fmap in Hh. destruct (shared !! t) eqn:E; [done|].
    repeat verify_true.
    rewrite wrap_u32 by lia. eexists _, true. split; [done|]. cbn. split; [|done].
    split; [done|]. split; [apply insert_non_empty|]. rewrite fmap_insert. split; [done|].
    split; [rewrite counts_insert by (by rewrite lookup_fmap, E); cbn [snd]; lia|]. by apply map_Forall_insert_2.
  - rewrite bool_decide_eq_true_2 by done. by eexists _, false.
  - rewrite bool_decide_eq_true_2 by done. by eexists _, false.
  - rewrite bool_decide_eq_true_2 by done. by eexists _, false.
Qed.

(** ** The system *)

Lemma set_eq f t p : set f t p t = p.
Proof. unfold set. by rewrite bool_decide_eq_true_2. Qed.

Lemma set_ne f t p u : u <> t -> set f t p u = f u.
Proof. intros. unfold set. by rewrite bool_decide_eq_false_2. Qed.

Ltac case_thread u t := destruct (decide (u = t)) as [->|]; [rewrite ?set_eq in *|rewrite ?set_ne in * by done].

Lemma pc_ok_same s s' u :
  s_pc s' u = s_pc s u -> s_held s' !! u = s_held s !! u -> s_saved s' !! u = s_saved s !! u ->
  pc_ok s u -> pc_ok s' u.
Proof.
  unfold pc_ok, permitted. intros -> -> ->. done.
Qed.

Lemma wake_one_spec q :
  Forall (fun b => m_did_unblock b = false) (m_blockers q) ->
  wake_one q = match m_blockers q with
               | [] => (mkWaitQueue true (m_should_block q) [], [])
               | b :: l => (mkWaitQueue false (m_should_block q) l, [qb_thread b])
               end.
Proof.
  intros H. unfold wake_one, wake_with. destruct (m_blockers q) as [|b l]; [done|].
  apply Forall_cons in H as [Hb _]. cbn. unfold unblock. by rewrite Hb.
Qed.

Lemma remove_first_sublist l t : remove_first l t `sublist_of` l.
Proof.
  induction l as [|b l IH]; cbn; [done|]. case_bool_decide; [by constructor|by constructor].
Qed.

Lemma remove_first_Forall (P : QueueBlocker -> Prop) l t : Forall P l -> Forall P (remove_first l t).
Proof. induction 1; cbn; [done|]. case_bool_decide; [done|by constructor]. Qed.

Lemma elem_of_remove_first l t u :
  NoDup l -> Forall (fun b => m_did_unblock b = false) l ->
  mkQueueBlocker u false ∈ remove_first l t <-> mkQueueBlocker u false ∈ l /\ u <> t.
Proof.
  induction l as [|[v d] l IH]; intros Hn Hf; cbn; [set_solver|].
  apply NoDup_cons in Hn as [Hv Hn]. apply Forall_cons in Hf as [Hd Hf]. cbn in Hd. subst d.
  case_bool_decide as E; cbn in E.
  - subst v. rewrite elem_of_cons. split; [intros H; split; [by right|intros ->; done]|].
    intros [[[= ->]|H] Hne]; done.
  - rewrite !elem_of_cons, IH by done. split; [|tauto].
    intros [[= ->]|[H1 H2]]; [split; [by left|congruence]|tauto].
Qed.

(** A thread leaves its critical section. *)
Lemma leave_inv s l t c p held saved :
  sys_inv s -> s_pc s t = Inside c -> lock_ok l held ->
  (forall u, u <> t -> held !! u = s_held s !! u /\ saved !! u = s_saved s !! u) ->
  same_blockers (s_lock s) l -> (forall d, p <> Inside d) -> (forall m, p <> Waiting m) ->
  pc_ok (leave s l t p held saved) t ->
  (forall m n, saved !! t = Some (m, n) -> held !! t = None /\ 0 < n /\ m <> Unlocked) ->
  m_times_locked l + counts saved < 2 ^ 32 ->
  (m_mode l = Unlocked -> p = Waking /\ (m_should_block (m_queue l) = false \/ l = s_lock s)) ->
  sys_inv (leave s l t p held saved).
Proof.
  intros Hinv Ht Hok Hother Hsame Hp1 Hp2 Hpc Hsaved Hroom Hunl.
  pose proof Hinv as [_ Hflag _ Huniq Hpcs Hsv _ Hbl Hq Hblk Hwk].
  assert (forall u d, u <> t -> s_pc s u <> Inside d) as Hnot.
  { intros u d Hne Hu. apply Hne. by apply (Huniq u t d c). }
  split; cbn [leave s_lock s_flag s_pc s_held s_saved].
  - done.
  - intros u d Hu. case_thread u t; [by apply Hp1 in Hu|]. exfalso. by eapply Hnot.
  - done.
  - intros u v d e Hu Hv. case_thread u t; [by apply Hp1 in Hu|]. exfalso. by eapply Hnot.
  - intros u. destruct (decide (u = t)) as [->|Hne]; [done|]. destruct (Hother u Hne).
    apply (pc_ok_same s); [cbn; by rewrite set_ne|done..].
  - intros u m n. destruct (decide (u = t)) as [->|Hne]; [by apply Hsaved|].
    destruct (Hother u Hne) as [-> ->]. apply Hsv.
  - done.
  - intros u. rewrite Hsame, <-Hbl. case_thread u t; [|done]. rewrite Ht.
    split; intros [m Hm]; [by apply Hp2 in Hm|done].
  - by rewrite Hsame.
  - intros Hm. destruct (Hunl Hm) as [-> [H| ->]]; [by left|]. destruct (Hblk Hm) as [H|H]; [by left|right].
    intros u. case_thread u t; [by intros []|apply H].
  - intros Hm _ _ _. destruct (Hunl Hm) as [-> _]. exists t. by rewrite set_eq.
Qed.

Lemma outstanding_saved s t m n : sys_inv s -> s_saved s !! t = Some (m, n) -> 0 < n <= counts (s_saved s).
Proof.
  intros Hinv Ht. destruct (si_saved s Hinv t m n Ht) as (_ & Hn & _). split; [done|].
  apply (counts_lookup _ t (m, n)); [|done]. intros u [m' n'] Hu. by apply (si_saved s Hinv u m' n').
Qed.

Lemma saved_nonneg s : sys_inv s -> 0 <= counts (s_saved s).
Proof.
  intros Hinv. apply counts_nonneg. intros u [m' n'] Hu. by apply (si_saved s Hinv u m' n').
Qed.

Lemma times_nonneg s : sys_inv s -> 0 <= m_times_locked (s_lock s).
Proof.
  intros Hinv. pose proof (si_lock s Hinv) as H. pose proof (lock_times _ _ H) as H'.
  destruct (decide (m_mode (s_lock s) = Unlocked)) as [E|E]; [|specialize (H' E); lia].
  unfold lock_ok in H. rewrite E in H. destruct H as (_ & _ & -> & _). lia.
Qed.

Lemma acquired_ne held t m u : u <> t -> acquired held t m !! u = held !! u.
Proof. intros. unfold acquired. destruct (held !! t) as [[]|]; by rewrite lookup_insert_ne by auto. Qed.

Lemma released_ne held t u : u <> t -> released held t !! u = held !! u.
Proof.
  intros. unfold released. destruct (held !! t) as [[]|]; [|done].
  case_if; [by rewrite lookup_delete_ne by auto|by rewrite lookup_insert_ne by auto].
Qed.

Lemma section_lock s t m :
  sys_inv s -> s_pc s t = Inside (CallLock m) -> outstanding s < 2 ^ 32 - 1 ->
  exists s', section s t (CallLock m) = Ok s' /\ sys_inv s'.
Proof.
  intros Hinv Ht Hroom. pose proof (si_pc s Hinv t) as Hpc. unfold pc_ok in Hpc. rewrite Ht in Hpc. cbn [permitted] in Hpc.
  apply andb_true_iff in Hpc as [Hm%bool_decide_eq_true Hs%bool_decide_eq_true].
  unfold outstanding in Hroom. pose proof (saved_nonneg s Hinv).
  destruct (lock_section_ok (s_lock s) (s_held s) t m (si_lock s Hinv) Hm ltac:(lia)) as (l' & got & E & H').
  cbn [section]. rewrite E. cbn [res_bind]. eexists. split; [done|]. destruct got.
  - destruct H' as (H1 & H2 & H3 & H4). apply (leave_inv s l' t (CallLock m)); try done.
    + intros u Hu. split; [by apply acquired_ne|done].
    + unfold pc_ok. cbn. by rewrite set_eq.
    + intros m' n' Hx. congruence.
    + lia.
  - destruct H' as [-> H1]. apply (leave_inv s _ t (CallLock m)); try done.
    + by apply si_lock.
    + unfold pc_ok. cbn. rewrite set_eq. by rewrite !bool_decide_eq_true_2.
    + intros m' n' Hx. congruence.
    + lia.
Qed.

Lemma section_unlock s t :
  sys_inv s -> s_pc s t = Inside CallUnlock -> exists s', section s t CallUnlock = Ok s' /\ sys_inv s'.
Proof.
  intros Hinv Ht. pose proof (si_pc s Hinv t) as Hpc. unfold pc_ok in Hpc. rewrite Ht in Hpc. cbn [permitted] in Hpc.
  apply bool_decide_eq_true in Hpc. pose proof (si_room s Hinv) as Hroom. unfold outstanding in Hroom.
  pose proof (saved_nonneg s Hinv).
  destruct (unlock_section_ok (s_lock s) (s_held s) t (si_lock s Hinv) Hpc ltac:(lia)) as (l' & last & E & H1 & H2 & H3 & H4).
  cbn [section]. rewrite E. cbn [res_bind]. eexists. split; [done|]. apply (leave_inv s l' t CallUnlock); try done.
  - intros u Hu. split; [by apply released_ne|done].
  - by destruct last.
  - by destruct last.
  - unfold pc_ok. cbn. rewrite set_eq. by destruct last.
  - intros m n Hx. exfalso. apply Hpc. by apply (si_saved s Hinv t m n).
  - lia.
  - intros Hm. destruct (H4 Hm) as [-> ?]. auto.
Qed.

Lemma section_force s t :
  sys_inv s -> s_pc s t = Inside CallForceUnlock -> exists s', section s t CallForceUnlock = Ok s' /\ sys_inv s'.
Proof.
  intros Hinv Ht. pose proof (si_pc s Hinv t) as Hpc. unfold pc_ok in Hpc. rewrite Ht in Hpc. cbn [permitted] in Hpc.
  apply bool_decide_eq_true in Hpc. pose proof (si_room s Hinv) as Hroom. unfold outstanding in Hroom.
  pose proof (saved_nonneg s Hinv).
  destruct (force_unlock_section_ok (s_lock s) (s_held s) t (si_lock s Hinv) ltac:(lia)) as (l' & [m n] & wake & E & H').
  cbn [section]. rewrite E. cbn [res_bind fst snd] in *. eexists. split; [done|]. destruct (decide (m = Unlocked)) as [->|Hm].
  - rewrite bool_decide_eq_true_2 in H' |- * by done. destruct H' as [-> Hw].
    apply (leave_inv s _ t CallForceUnlock); try done; try by destruct wake.
    + by apply si_lock.
    + unfold pc_ok. cbn. rewrite set_eq. by destruct wake.
    + intros m n' Hx. congruence.
    + intros Hu. rewrite (Hw Hu). auto.
  - rewrite bool_decide_eq_false_2 in H' |- * by done. destruct H' as (H1 & H2 & H3 & H4 & H5 & H6).
    apply (leave_inv s l' t CallForceUnlock); try done; try by destruct wake.
    + intros u Hu. by rewrite lookup_delete_ne, lookup_insert_ne by auto.
    + unfold pc_ok. cbn. rewrite set_eq. by destruct wake.
    + intros m' n' Hx. rewrite lookup_insert_eq in Hx. injection Hx as <- <-. rewrite lookup_delete_eq. done.
    + rewrite counts_insert by done. cbn [snd]. lia.
    + intros Hu. destruct (H6 Hu) as [-> ?]. auto.
Qed.

Lemma section_restore s t m n :
  sys_inv s -> s_pc s t = Inside (CallRestore m n) -> exists s', section s t (CallRestore m n) = Ok s' /\ sys_inv s'.
Proof.
  intros Hinv Ht. pose proof (si_pc s Hinv t) as Hpc. unfold pc_ok in Hpc. rewrite Ht in Hpc. cbn [permitted] in Hpc.
  apply bool_decide_eq_true in Hpc. destruct (si_saved s Hinv t m n Hpc) as (H1 & H2 & H3).
  pose proof (outstanding_saved s t m n Hinv Hpc). pose proof (si_room s Hinv) as Hroom. unfold outstanding in Hroom.
  destruct (restore_section_ok (s_lock s) (s_held s) t m n (si_lock s Hinv) H1 H3 H2 ltac:(lia)) as (l' & got & E & H').
  cbn [section]. rewrite E. cbn [res_bind]. eexists. split; [done|]. destruct got.
  - destruct H' as (L1 & L2 & L3 & L4). apply (leave_inv s l' t (CallRestore m n)); try done.
    + intros u Hu. by rewrite lookup_insert_ne, lookup_delete_ne by auto.
    + unfold pc_ok. cbn. by rewrite set_eq.
    + intros m' n' Hx. by rewrite lookup_delete_eq in Hx.
    + pose proof (counts_delete _ t _ Hpc) as Hc. cbn [snd] in Hc. lia.
  - destruct H' as [-> L1]. apply (leave_inv s _ t (CallRestore m n)); try done.
    + by apply si_lock.
    + unfold pc_ok. cbn. rewrite set_eq. cbn. by apply bool_decide_eq_true_2.
    + intros m' n' Hx. by apply (si_saved s Hinv t).
Qed.

Lemma section_ok s t c :
  sys_inv s -> s_pc s t = Inside c -> outstanding s < 2 ^ 32 - 1 -> exists s', section s t c = Ok s' /\ sys_inv s'.
Proof.
  intros. destruct c; [by apply section_lock|by apply section_unlock|by apply section_force|by apply section_restore].
Qed.

(** Steps that keep the lock, but for its queue. *)
Lemma move_inv s t p q flag :
  sys_inv s -> (forall c, s_pc s t <> Inside c) ->
  (flag = s_flag s /\ (forall c, p <> Inside c) \/ flag = true /\ s_flag s = false /\ exists c, p = Inside c) ->
  pc_ok (with_pc s t p) t ->
  (forall u, u <> t -> mkQueueBlocker u false ∈ m_blockers q <-> mkQueueBlocker u false ∈ m_blockers (m_queue (s_lock s))) ->
  (mkQueueBlocker t false ∈ m_blockers q <-> exists m, p = Waiting m) ->
  NoDup (m_blockers q) -> Forall (fun b => m_did_unblock b = false) (m_blockers q) ->
  m_should_block q = m_should_block (m_queue (s_lock s)) ->
  (asleep p -> asleep (s_pc s t)) ->
  (m_mode (s_lock s) = Unlocked -> m_blockers q <> [] ->
     awake p \/ (exists u, u <> t /\ awake (s_pc s u)) \/
     ~ awake (s_pc s t) /\ forall m, p = Waiting m -> m_should_block q = true) ->
  sys_inv (mkSys (with_queue (s_lock s) q) flag (set (s_pc s) t p) (s_held s) (s_saved s)).
Proof.
  intros [Hok Hflag Hown Huniq Hpcs Hsv Hroom Hbl [Hnd Hfa] Hblk Hwk] Ht Hfl Hpc Hq1 Hq2 Hq3 Hq4 Hsb Hsl Haw.
  split; cbn [s_lock s_flag s_pc s_held s_saved with_queue m_queue m_mode].
  - exact Hok.
  - intros u c Hu. case_thread u t.
    + destruct Hfl as [[_ H]|[-> _]]; [by apply H in Hu|done].
    + specialize (Hflag u c Hu). destruct Hfl as [[-> _]|[-> _]]; done.
  - intros Hf. destruct Hfl as [[-> _]|(-> & _ & c & ->)].
    + destruct (Hown Hf) as (u & c & Hu). exists u, c. rewrite set_ne; [done|]. intros ->. by apply Ht in Hu.
    + exists t, c. by rewrite set_eq.
  - assert (forall u c d, u <> t -> s_pc s u = Inside c -> p <> Inside d) as Hex.
    { intros u c d Hne Hu ->. destruct Hfl as [[_ H]|(_ & Hf & _)]; [by eapply H|]. specialize (Hflag u c Hu). congruence. }
    intros u v c d Hu Hv. case_thread u t; case_thread v t; [done|..].
    + exfalso. by eapply (Hex v d c).
    + exfalso. by eapply (Hex u c d).
    + by apply (Huniq u v c d).
  - intros u. destruct (decide (u = t)) as [->|Hne]; [exact Hpc|]. apply (pc_ok_same s); [cbn; by rewrite set_ne|done..].
  - done.
  - exact Hroom.
  - intros u. case_thread u t; [by rewrite Hq2|]. by rewrite Hq1, Hbl.
  - done.
  - intros Hm. rewrite Hsb. destruct (Hblk Hm) as [H|H]; [by left|right]. intros u Hu. case_thread u t; [|by eapply H].
    by apply (H t), Hsl.
  - intros Hm u m Hu. destruct (Haw Hm) as [H|[(v & Hv & Ha)|[Hna Hsw]]].
    + assert (mkQueueBlocker u false ∈ m_blockers q) as He; [|by intros E; rewrite E in He; apply elem_of_nil in He].
      case_thread u t; [apply Hq2; by exists m|]. apply Hq1; [done|]. apply Hbl. by exists m.
    + exists t. by rewrite set_eq.
    + exists v. by rewrite set_ne.
    + case_thread u t.
      * specialize (Hsw m Hu). rewrite Hsb in Hsw. destruct (Hblk Hm) as [H|H]; [congruence|].
        exfalso. apply (H t), Hsl. by rewrite Hu.
      * destruct (Hwk Hm u m Hu) as [v Hv]. exists v. rewrite set_ne; [done|]. by intros ->.
Qed.

Lemma with_queue_same l : with_queue l (m_queue l) = l.
Proof. by destruct l. Qed.

(** The queue and the waiting threads, for a thread that does not wait. *)
Lemma not_waiting s t : sys_inv s -> (forall m, s_pc s t <> Waiting m) ->
  mkQueueBlocker t false ∉ m_blockers (m_queue (s_lock s)).
Proof. intros Hinv Hn H. apply (si_blockers s Hinv) in H as [m Hm]. by apply Hn in Hm. Qed.

(** A step that leaves the queue alone. *)
Lemma move_keep_queue s t p flag :
  sys_inv s -> (forall c, s_pc s t <> Inside c) -> ~ asleep (s_pc s t) -> ~ asleep p ->
  (flag = s_flag s /\ (forall c, p <> Inside c) \/ flag = true /\ s_flag s = false /\ exists c, p = Inside c) ->
  pc_ok (with_pc s t p) t ->
  (m_mode (s_lock s) = Unlocked -> m_blockers (m_queue (s_lock s)) <> [] ->
    awake p \/ (exists u, u <> t /\ awake (s_pc s u)) \/ ~ awake (s_pc s t)) ->
  sys_inv (mkSys (s_lock s) flag (set (s_pc s) t p) (s_held s) (s_saved s)).
Proof.
  intros Hinv Ht Hn1 Hn2 Hfl Hpc Haw. rewrite <-(with_queue_same (s_lock s)).
  assert (forall m, s_pc s t <> Waiting m) as Hw by (intros m E; rewrite E in Hn1; by apply Hn1).
  apply move_inv; try done; try apply (si_queue s Hinv).
  - split; [intros H; by apply not_waiting in H|]. intros [m ->]. by destruct Hn2.
  - intros Hm Hb. destruct (Haw Hm Hb) as [?|[?|?]]; [by left|by right; left|]. right; right. split; [done|].
    intros m ->. by destruct Hn2.
Qed.

Lemma advance_blocking s t m :
  sys_inv s -> s_pc s t = Blocking m -> exists s', advance s t = Some (Ok s') /\ sys_inv s'.
Proof.
  intros Hinv Ht. unfold advance. rewrite Ht. unfold add_blocker, should_add_blocker.
  pose proof (si_queue s Hinv) as [Hnd Hfa]. pose proof (si_pc s Hinv t) as Hpc. unfold pc_ok in Hpc. rewrite Ht in Hpc.
  assert (mkQueueBlocker t false ∉ m_blockers (m_queue (s_lock s))) as Hnot by (apply not_waiting; [done|congruence]).
  destruct (m_wake_requested _ || _) eqn:E; eexists; (split; [done|]); apply move_inv; try done; try by rewrite Ht.
  - by left.
  - unfold pc_ok. cbn [with_pc s_pc]. by rewrite set_eq.
  - cbn. split; [done|]. by intros [? ?].
  - intros _ _. by left.
  - by left.
  - unfold pc_ok. cbn [with_pc s_pc]. by rewrite set_eq.
  - cbn. intros u Hu. rewrite elem_of_app, list_elem_of_singleton. split; [|by left]. intros [?|[= ->]]; done.
  - cbn. rewrite elem_of_app, list_elem_of_singleton. split; [by exists m|by right].
  - cbn. apply NoDup_app. split; [done|]. split; [|apply NoDup_singleton]. intros x Hx ->%list_elem_of_singleton. done.
  - cbn. rewrite Forall_app. split; [done|by constructor].
  - intros _ _. right; right. rewrite Ht. split; [by intros []|]. intros _ _. cbn.
    apply orb_false_iff in E as [_ E]. by apply negb_false_iff in E.
Qed.

Lemma advance_waking s t :
  sys_inv s -> s_pc s t = Waking -> exists s', advance s t = Some (Ok s') /\ sys_inv s'.
Proof.
  intros Hinv Ht. unfold advance. rewrite Ht. pose proof (si_queue s Hinv) as [Hnd Hfa].
  rewrite wake_one_spec by done. destruct (m_blockers (m_queue (s_lock s))) as [|[u d] l] eqn:E; cbn [foldl].
  - eexists. split; [done|]. apply move_inv; try done; try by rewrite Ht.
    + by left.
    + unfold pc_ok. cbn. by rewrite set_eq.
    + cbn. intros u Hu. by rewrite E.
    + cbn. split; [intros []%elem_of_nil|by intros [? ?]].
  - eexists. split; [done|]. apply Forall_cons in Hfa as [Hd Hfa]. cbn in Hd. subst d. apply NoDup_cons in Hnd as [Hu Hnd].
    destruct (proj2 (si_blockers s Hinv u)) as [m Hm]; [rewrite E; left|].
    assert (u <> t) as Hut by congruence. cbn [qb_thread]. unfold wake_thread. rewrite Hm.
    set (q := mkWaitQueue _ _ _).
    set (s1 := mkSys (with_queue (s_lock s) q) (s_flag s) (set (s_pc s) u (Trying (CallLock m))) (s_held s) (s_saved s)).
    assert (sys_inv s1) as Hinv1.
    { apply move_inv; try done; try by rewrite Hm.
      - by left.
      - unfold pc_ok. cbn [with_pc s_pc]. rewrite set_eq. pose proof (si_pc s Hinv u) as H. unfold pc_ok in H. by rewrite Hm in H.
      - cbn. intros v Hv. rewrite E, elem_of_cons. split; [by right|]. intros [[= ->]|?]; done.
      - cbn. split; [done|by intros [? ?]].
      - intros _ _. by left. }
    assert (s_pc s1 t = Waking) as Ht1 by (cbn; by rewrite set_ne).
    apply (move_keep_queue s1 t Running (s_flag s)); try done; try by rewrite Ht1.
    + rewrite Ht1. by intros [].
    + by intros [].
    + by left.
    + unfold pc_ok. cbn. by rewrite set_eq.
    + intros _ _. right; left. exists u. split; [done|]. cbn. by rewrite set_eq.
Qed.

(** Every event of a state that satisfies the invariant succeeds and keeps it. *)
Lemma exec_ok s t e r : sys_inv s -> exec s t e = Some r -> exists s', r = Ok s' /\ sys_inv s'.
Proof.
  intros Hinv He. destruct e as [c| |]; cbn [exec] in He.
  - destruct (s_pc s t) eqn:Ht; try done. destruct (permitted s t c) eqn:Hp; [|done]. injection He as <-.
    eexists. split; [done|]. apply move_keep_queue; try done; try by rewrite Ht.
    + rewrite Ht. by intros [].
    + by intros [].
    + by left.
    + unfold pc_ok. cbn [with_pc s_pc]. by rewrite set_eq.
    + intros _ _. right; right. rewrite Ht. by intros [].
  - destruct (s_pc s t) eqn:Ht.
    + unfold advance in He. by rewrite Ht in He.
    + unfold advance in He. rewrite Ht in He. injection He as <-. eexists. split; [done|]. destruct (s_flag s) eqn:Hf; [done|].
      apply move_keep_queue; try done; try by rewrite Ht.
      * rewrite Ht. by intros [].
      * by intros [].
      * right. split; [done|]. split; [done|]. by exists c.
      * pose proof (si_pc s Hinv t) as H. unfold pc_ok in H |- *. cbn [with_pc s_pc]. rewrite set_eq. by rewrite Ht in H.
      * intros _ _. rewrite Ht. destruct c; cbn; tauto.
    + unfold advance in He. rewrite Ht in He. destruct (Z.ltb_spec (outstanding s) (2 ^ 32 - 1)); [|done].
      destruct (section_ok s t c Hinv Ht) as (s' & E & Hs); [done|]. exists s'. split; [congruence|done].
    + destruct (advance_blocking s t mode Hinv Ht) as (s' & E & Hs). exists s'. split; [congruence|done].
    + unfold advance in He. by rewrite Ht in He.
    + destruct (advance_waking s t Hinv Ht) as (s' & E & Hs). exists s'. split; [congruence|done].
  - destruct (s_pc s t) eqn:Ht; try done. injection He as <-. eexists. split; [done|].
    pose proof (si_queue s Hinv) as [Hnd Hfa]. apply move_inv; try done; try by rewrite Ht.
    + by left.
    + pose proof (si_pc s Hinv t) as H. unfold pc_ok in H |- *. cbn [with_pc s_pc]. rewrite set_eq. by rewrite Ht in H.
    + cbn. intros u Hu. rewrite elem_of_remove_first by done. tauto.
    + cbn. rewrite elem_of_remove_first by done. split; [tauto|by intros [? ?]].
    + cbn. eapply sublist_NoDup; [done|apply remove_first_sublist].
    + cbn. by apply remove_first_Forall.
    + intros _ _. by left.
Qed.

Lemma reachable_inv s : reachable s -> sys_inv s.
Proof.
  induction 1 as [|s t e s' Hr IH He].
  - split; cbn; try done.
    + intros t. split; [by intros [? ?]|]. intros []%elem_of_nil.
    + split; constructor.
    + intros _. right. auto.
  - destruct (exec_ok s t e _ IH He) as (s'' & [= <-] & H). done.
Qed.

End LockFacts.

(** ** Properties *)

Import WaitQueue Lock LockSystem LockFacts.

(** C17: in every reachable state of any number of threads that call the lock's
    operations in any interleaving, no assertion of the lock fails; a thread with
    an exclusive hold is the only holder; and the lock's count is the sum of the
    holds the calls have granted. *)
Theorem lock_system_safe (s : sys) (Hr : reachable s) :
  (forall t e r, exec s t e = Some r -> exists s', r = Ok s') /\
  (forall t u n v, s_held s !! t = Some (Exclusive, n) -> s_held s !! u = Some v -> t = u) /\
  m_times_locked (s_lock s) = counts (s_held s).
Proof.
  pose proof (reachable_inv s Hr) as Hinv. split; [|split].
  - intros t e r He. destruct (exec_ok s t e r Hinv He) as (s' & -> & _). by exists s'.
  - intros t u n v Ht Hu. pose proof (si_lock s Hinv) as Hok. unfold lock_ok in Hok. destruct (m_mode (s_lock s)).
    + destruct Hok as (_ & _ & _ & E). by rewrite E, lookup_empty in Ht.
    + destruct Hok as (_ & _ & E & _). rewrite E, lookup_fmap in Ht. by destruct (_ !! t).
    + destruct Hok as (w & _ & _ & _ & E). rewrite E in Ht, Hu.
      apply lookup_singleton_Some in Ht as [-> _], Hu as [-> _]. done.
  - pose proof (si_lock s Hinv) as Hok. unfold lock_ok in Hok. destruct (m_mode (s_lock s)).
    + by destruct Hok as (_ & _ & -> & ->).
    + by destruct Hok as (_ & _ & _ & H & _).
    + destruct Hok as (w & _ & _ & _ & E). rewrite E. unfold counts. rewrite map_fold_singleton. cbn. lia.
Qed.

(** Running a schedule. *)
Definition run_events (s : sys) (es : list (tid * event)) : option (res sys) :=
  foldl (fun acc '(t, e) => match acc with Some (Ok s) => exec s t e | r => r end) (Some (Ok s)) es.

Lemma run_events_stuck r es : (forall s, r <> Some (Ok s)) ->
  foldl (fun acc '(t, e) => match acc with Some (Ok s) => exec s t e | r => r end) r es = r.
Proof. intros Hr. induction es as [|[t e] es IH]; [done|]. cbn. destruct r as [[s|]|]; [by specialize (Hr s)|done|done]. Qed.

Lemma run_events_reachable s es s' : reachable s -> run_events s es = Some (Ok s') -> reachable s'.
Proof.
  revert s. unfold run_events. induction es as [|[t e] es IH]; intros s Hr; cbn [foldl]; [by intros [= <-]|].
  destruct (exec s t e) as [[s1|f]|] eqn:E.
  - apply IH. by econstructor.
  - rewrite run_events_stuck by done. done.
  - rewrite run_events_stuck by done. done.
Qed.

(** Two readers, and a writer that has to wait. *)
Definition readers_and_writer : list (tid * event) :=
  [(1%positive, Call (CallLock Shared)); (2%positive, Call (CallLock Shared)); (3%positive, Call (CallLock Exclusive));
   (1%positive, Advance); (2%positive, Advance); (1%positive, Advance); (2%positive, Advance); (2%positive, Advance);
   (3%positive, Advance); (3%positive, Advance); (3%positive, Advance)].

Definition state_after (es : list (tid * event)) : sys :=
  match run_events initial es with Some (Ok s) => s | _ => initial end.

Lemma state_after_reachable es s : run_events initial es = Some (Ok s) -> state_after es = s /\ reachable (state_after es).
Proof. intros E. unfold state_after. rewrite E. split; [done|]. apply (run_events_reachable initial es); [constructor|done]. Qed.

Lemma lock_system_safe_witness :
  m_times_locked (s_lock (state_after readers_and_writer)) = 2 /\
  s_pc (state_after readers_and_writer) 3%positive = Waiting Exclusive /\
  m_times_locked (s_lock (state_after readers_and_writer)) = counts (s_held (state_after readers_and_writer)).
Proof.
  split; [vm_compute; reflexivity|]. split; [vm_compute; reflexivity|].
  refine (proj2 (proj2 (lock_system_safe (state_after readers_and_writer) _))).
  destruct (run_events initial readers_and_writer) as [[s|f]|] eqn:E; [|vm_compute in E; discriminate..].
  exact (proj2 (state_after_reachable _ _ E)).
Defined.

(** C29: no wake-up is lost: when the lock is free and a thread waits for it, some
    thread is about to wake a waiter or to try the lock itself; and whoever owns
    the flag can leave its critical section. *)
Theorem lock_no_lost_wakeup (s : sys) (Hr : reachable s) (Hroom : outstanding s < 2 ^ 32 - 1) :
  (m_mode (s_lock s) = Unlocked -> forall t m, s_pc s t = Waiting m ->
     exists u, awake (s_pc s u) /\ exists s', exec s u Advance = Some (Ok s')) /\
  (s_flag s = true -> exists t c s', s_pc s t = Inside c /\ exec s t Advance = Some (Ok s') /\ s_flag s' = false).
Proof.
  pose proof (reachable_inv s Hr) as Hinv. split.
  - intros Hm t m Ht. destruct (si_wake s Hinv Hm t m Ht) as [u Hu]. exists u. split; [done|].
    destruct (exec s u Advance) as [r|] eqn:E; [destruct (exec_ok s u Advance r Hinv E) as (s' & -> & _); by exists s'|].
    exfalso. cbn in E. unfold advance in E. destruct (s_pc s u) as [|c|c|m'|m'|]; try done.
    + by destruct (Z.ltb_spec (outstanding s) (2 ^ 32 - 1)); [|lia].
    + by destruct (wake_one _).
  - intros Hf. destruct (si_owner s Hinv Hf) as (t & c & Ht). destruct (section_ok s t c Hinv Ht Hroom) as (s' & E & _).
    exists t, c, s'. split; [done|]. cbn. unfold advance. rewrite Ht. destruct (Z.ltb_spec (outstanding s) (2 ^ 32 - 1)); [|lia].
    split; [by rewrite E|]. destruct c; cbn [section] in E; inv_res; repeat case_match; inv_res; done.
Qed.

(** The readers have unlocked; the second one has not woken the writer yet. *)
Definition before_wake : list (tid * event) :=
  readers_and_writer ++
  [(1%positive, Call CallUnlock); (1%positive, Advance); (1%positive, Advance);
   (2%positive, Call CallUnlock); (2%positive, Advance); (2%positive, Advance)].

Lemma lock_no_lost_wakeup_witness :
  s_pc (state_after before_wake) 3%positive = Waiting Exclusive /\
  m_mode (s_lock (state_after before_wake)) = Unlocked /\
  exists u, awake (s_pc (state_after before_wake) u) /\ exists s', exec (state_after before_wake) u Advance = Some (Ok s').
Proof.
  split; [vm_compute; reflexivity|]. split; [vm_compute; reflexivity|].
  refine (proj1 (lock_no_lost_wakeup (state_after before_wake) _ _) _ 3%positive Exclusive _); [|vm_compute; reflexivity..].
  destruct (run_events initial before_wake) as [[s|f]|] eqn:E; [|vm_compute in E; discriminate..].
  exact (proj2 (state_after_reachable _ _ E)).
Defined.
