(* ===== verification/Pipe.v ===== *)
(** * Pipes

    Kernel/DoubleBuffer, Kernel/FileSystem/FIFO, and the parts of
    Kernel/FileSystem/FileDescription.cpp, Kernel/ThreadBlockers.cpp and
    Kernel/Syscalls/read.cpp, write.cpp through which processes use them.  Threads
    interleave between the points where they look at the pipe, block, and copy. *)

From S2P Require Import Prelude.

(** ** User memory *)

(** A user buffer: the bytes of it, [None] where it cannot be accessed.  A copy
    stops at the first byte it cannot access. *)
Fixpoint accessible (data : list (option Z)) : list Z :=
  match data with
  | Some x :: data => x :: accessible data
  | _ => []
  end.

Definition copy_from_user (data : list (option Z)) : list Z * bool :=
  (accessible data, bool_decide (length (accessible data) = length data)).

(** ** The double buffer *)

Module DoubleBuffer.
Import Slice.

Inductive which := Buffer1 | Buffer2.

#[global] Instance which_eq_dec : EqDecision which.
Proof. solve_decision. Defined.

Record InnerBuffer := mkInner { data : Z; size : Z }.

(** The storage is null when it could not be allocated. *)
Record DoubleBuffer := mkBuffer {
  m_write_buffer : which;
  m_read_buffer : which;
  m_buffer1 : InnerBuffer;
  m_buffer2 : InnerBuffer;
  m_storage : option (list Z);
  m_capacity : Z;
  m_read_buffer_index : Z;
  m_space_for_writing : Z;
  m_empty : bool;
}.

Definition inner (b : DoubleBuffer) (w : which) : InnerBuffer :=
  match w with Buffer1 => m_buffer1 b | Buffer2 => m_buffer2 b end.

Definition set_size (b : DoubleBuffer) (w : which) (n : Z) : DoubleBuffer :=
  let i := mkInner (data (inner b w)) n in
  mkBuffer (m_write_buffer b) (m_read_buffer b)
    (match w with Buffer1 => i | Buffer2 => m_buffer1 b end) (match w with Buffer1 => m_buffer2 b | Buffer2 => i end)
    (m_storage b) (m_capacity b) (m_read_buffer_index b) (m_space_for_writing b) (m_empty b).

Definition set_index (b : DoubleBuffer) (i : Z) : DoubleBuffer :=
  mkBuffer (m_write_buffer b) (m_read_buffer b) (m_buffer1 b) (m_buffer2 b) (m_storage b) (m_capacity b) i
    (m_space_for_writing b) (m_empty b).

Definition set_storage (b : DoubleBuffer) (l : list Z) : DoubleBuffer :=
  mkBuffer (m_write_buffer b) (m_read_buffer b) (m_buffer1 b) (m_buffer2 b) (Some l) (m_capacity b)
    (m_read_buffer_index b) (m_space_for_writing b) (m_empty b).

Definition swap_buffers (b : DoubleBuffer) : DoubleBuffer :=
  mkBuffer (m_read_buffer b) (m_write_buffer b) (m_buffer1 b) (m_buffer2 b) (m_storage b) (m_capacity b)
    (m_read_buffer_index b) (m_space_for_writing b) (m_empty b).

Definition create (capacity : Z) (storage : option (list Z)) : DoubleBuffer :=
  mkBuffer Buffer1 Buffer2 (mkInner 0 0) (mkInner capacity 0) storage capacity 0 capacity true.

Definition compute_lockfree_metadata (b : DoubleBuffer) : DoubleBuffer :=
  mkBuffer (m_write_buffer b) (m_read_buffer b) (m_buffer1 b) (m_buffer2 b) (m_storage b) (m_capacity b)
    (m_read_buffer_index b) (wrap size_t (m_capacity b - size (inner b (m_write_buffer b))))
    ((size (inner b (m_read_buffer b)) <=? m_read_buffer_index b) && (size (inner b (m_write_buffer b)) =? 0)).

Definition flip (b : DoubleBuffer) : res DoubleBuffer :=
  match m_storage b with
  | None => Ok b
  | Some _ =>
      VERIFY m_read_buffer_index b =? size (inner b (m_read_buffer b)) ;;
      let b := swap_buffers b in
      let b := set_size b (m_write_buffer b) 0 in
      Ok (compute_lockfree_metadata (set_index b 0))
  end.

(** The bytes of the storage from an address on. *)
Section Errors.
Context (EFAULT : Z).

(** The result, and whether the callback is called. *)
Definition write (b : DoubleBuffer) (src : list (option Z)) (n : Z) : res (DoubleBuffer * Z * bool) :=
  match m_storage b with
  | Some l =>
      if n =? 0 then Ok (b, 0, false)
      else
        let bytes_to_write := Z.min n (m_space_for_writing b) in
        let w := inner b (m_write_buffer b) in
        let write_ptr := data w + size w in
        let b := set_size b (m_write_buffer b) (wrap size_t (size w + bytes_to_write)) in
        let b := compute_lockfree_metadata b in
        DEFINED (0 <=? write_ptr) && (write_ptr + bytes_to_write <=? Z.of_nat (length l)) ;;
        let '(bytes, ok) := copy_from_user (take (Z.to_nat bytes_to_write) src) in
        let b := set_storage b (poke l write_ptr bytes) in
        if negb ok then Ok (b, -EFAULT, false)
        else Ok (b, bytes_to_write, negb (m_empty b))
  | None => Ok (b, 0, false)
  end.

(** The bytes that are delivered come with the result; [dest_ok] says whether the
    caller's buffer can be written. *)
Definition read (b : DoubleBuffer) (dest_ok : bool) (n : Z) : res (DoubleBuffer * Z * list Z * bool) :=
  match m_storage b with
  | Some l =>
      if n =? 0 then Ok (b, 0, [], false)
      else
        let* b := if (size (inner b (m_read_buffer b)) <=? m_read_buffer_index b) &&
                     negb (size (inner b (m_write_buffer b)) =? 0)
                  then flip b else Ok b in
        let r := inner b (m_read_buffer b) in
        if size r <=? m_read_buffer_index b then Ok (b, 0, [], false)
        else
          let nread := Z.min (wrap size_t (size r - m_read_buffer_index b)) n in
          let read_ptr := data r + m_read_buffer_index b in
          DEFINED (0 <=? read_ptr) && (read_ptr + nread <=? Z.of_nat (length l)) ;;
          if negb dest_ok then Ok (b, -EFAULT, [], false)
          else
            let b := compute_lockfree_metadata (set_index b (wrap size_t (m_read_buffer_index b + nread))) in
            Ok (b, nread, peek l read_ptr nread, 0 <? m_space_for_writing b)
  | None => Ok (b, 0, [], false)
  end.

End Errors.
End DoubleBuffer.

(** ** The pipe *)

Module FIFO.
Import DoubleBuffer.

Inductive Direction := Neither | Reader | Writer.

#[global] Instance Direction_eq_dec : EqDecision Direction.
Proof. solve_decision. Defined.

Record FIFO := mkFIFO { m_writers : Z; m_readers : Z; m_buffer : DoubleBuffer }.

Definition with_buffer (f : FIFO) (b : DoubleBuffer) : FIFO := mkFIFO (m_writers f) (m_readers f) b.

Definition attach (f : FIFO) (direction : Direction) : FIFO :=
  match direction with
  | Reader => mkFIFO (m_writers f) (wrap U32 (m_readers f + 1)) (m_buffer f)
  | Writer => mkFIFO (wrap U32 (m_writers f + 1)) (m_readers f) (m_buffer f)
  | Neither => f
  end.

Definition detach (f : FIFO) (direction : Direction) : res FIFO :=
  match direction with
  | Reader =>
      VERIFY negb (m_readers f =? 0) ;;
      Ok (mkFIFO (m_writers f) (wrap U32 (m_readers f - 1)) (m_buffer f))
  | Writer =>
      VERIFY negb (m_writers f =? 0) ;;
      Ok (mkFIFO (wrap U32 (m_writers f - 1)) (m_readers f) (m_buffer f))
  | Neither => Ok f
  end.

Definition can_read (f : FIFO) : bool := negb (m_empty (m_buffer f)) || (m_writers f =? 0).
Definition can_write (f : FIFO) : bool := negb (m_space_for_writing (m_buffer f) =? 0) || (m_readers f =? 0).

Section Errors.
Context (EFAULT : Z).

(** The number that the buffer returns becomes a [size_t] value, an error too. *)
Definition fifo_read (f : FIFO) (dest_ok : bool) (n : Z) : res (FIFO * Z * list Z * bool) :=
  if (m_writers f =? 0) && m_empty (m_buffer f) then Ok (f, 0, [], false)
  else
    let* (b, v, bytes, called) := read EFAULT (m_buffer f) dest_ok n in
    Ok (with_buffer f b, wrap size_t v, bytes, called).

(** [None] is EPIPE. *)
Definition fifo_write (f : FIFO) (src : list (option Z)) (n : Z) : res (FIFO * option Z * bool) :=
  if m_readers f =? 0 then Ok (f, None, false)
  else
    let* (b, v, called) := write EFAULT (m_buffer f) src n in
    Ok (with_buffer f b, Some (wrap size_t v), called).

End Errors.
End FIFO.

(** ** Blocking *)

Module FileBlocker.

(** [FileBlocker] has a member [m_should_block], and [FileDescriptionBlocker],
    which derives from it, another of the same name. *)
Record FileDescriptionBlocker := mkBlocker {
  base_should_block : bool;
  m_should_block : bool;
  m_did_unblock : bool;
}.

(** The constructor, and whether the blocker joined the list of the condition;
    [ready] is what [should_unblock] answers. *)
Definition make_blocker (ready : bool) : FileDescriptionBlocker * bool :=
  if ready then (mkBlocker true false true, false) else (mkBlocker true true false, true).

(** [FileBlocker::should_block] *)
Definition should_block (b : FileDescriptionBlocker) : bool := base_should_block b.

End FileBlocker.

(** ** Processes that use a pipe *)

Module PipeSystem.
Import DoubleBuffer FIFO FileBlocker.

Abbreviation tid := positive (only parsing).

Record Description := mkDescription { d_direction : Direction; d_blocking : bool }.

Inductive errno := EINTR | EAGAIN | EPIPE | EBADF | EINVAL.

Inductive result := Returned (n : Z) | Failed (e : errno).

(** Where a thread is in [sys$read] or [do_write]: before it asks whether it can
    go on, before it blocks, blocked, before it copies. *)
Inductive place := Asking | Blocking | Blocked | Copying.

Inductive call :=
  | CallRead (n : Z) (dest_ok : bool)
  | CallWrite (src : list (option Z)) (total : Z)
  (** a write to a description that does not block, before its first question *)
  | CallWriteFirst (src : list (option Z)).

Inductive thread := Idle | Busy (d : positive) (c : call) (at_ : place).

(** [h_written] and [h_read] are the bytes that writers were told were written
    and that readers got, in order; [h_results] the results of calls. *)
Record System := mkSystem {
  s_fifo : FIFO;
  s_descriptions : gmap positive Description;
  s_threads : gmap tid thread;
  m_blockers : list tid;
  h_written : list Z;
  h_read : list Z;
  h_results : list (tid * result);
}.

Definition with_fifo (s : System) (f : FIFO) : System :=
  mkSystem f (s_descriptions s) (s_threads s) (m_blockers s) (h_written s) (h_read s) (h_results s).
Definition with_descriptions (s : System) (m : gmap positive Description) : System :=
  mkSystem (s_fifo s) m (s_threads s) (m_blockers s) (h_written s) (h_read s) (h_results s).
Definition set_thread (s : System) (t : tid) (x : thread) : System :=
  mkSystem (s_fifo s) (s_descriptions s) (<[t := x]> (s_threads s)) (m_blockers s) (h_written s) (h_read s) (h_results s).
Definition with_blockers (s : System) (l : list tid) : System :=
  mkSystem (s_fifo s) (s_descriptions s) (s_threads s) l (h_written s) (h_read s) (h_results s).
Definition note_written (s : System) (l : list Z) : System :=
  mkSystem (s_fifo s) (s_descriptions s) (s_threads s) (m_blockers s) (h_written s ++ l) (h_read s) (h_results s).
Definition note_read (s : System) (l : list Z) : System :=
  mkSystem (s_fifo s) (s_descriptions s) (s_threads s) (m_blockers s) (h_written s) (h_read s ++ l) (h_results s).

(** A call returns. *)
Definition finish (s : System) (t : tid) (r : result) : System :=
  mkSystem (s_fifo s) (s_descriptions s) (<[t := Idle]> (s_threads s)) (m_blockers s) (h_written s) (h_read s)
    (h_results s ++ [(t, r)]).

(** [FileDescription::should_unblock] for the blocker of a call *)
Definition should_unblock (f : FIFO) (c : call) : bool :=
  match c with CallRead _ _ => can_read f | _ => can_write f end.

Definition thread_of (s : System) (t : tid) : thread := default Idle (s_threads s !! t).

(** [FileBlockCondition::unblock]: those whose condition holds leave the list and
    run. *)
Fixpoint unblock (s : System) (l : list tid) : System * list tid :=
  match l with
  | [] => (s, [])
  | t :: l =>
      match thread_of s t with
      | Busy d c Blocked =>
          if should_unblock (s_fifo s) c
          then unblock (set_thread s t (Busy d c Copying)) l
          else let '(s, l) := unblock s l in (s, t :: l)
      | _ => let '(s, l) := unblock s l in (s, t :: l)
      end
  end.

Definition evaluate_block_conditions (s : System) : System :=
  let '(s, l) := unblock s (m_blockers s) in with_blockers s l.

(** [Thread::block] of a [ReadBlocker] or [WriteBlocker] *)
Definition block (s : System) (t : tid) (d : positive) (c : call) : System :=
  let '(b, added) := make_blocker (should_unblock (s_fifo s) c) in
  let s := if added : bool then with_blockers s (m_blockers s ++ [t]) else s in
  set_thread s t (Busy d c (if should_block b then Blocked else Copying)).

Section Errors.
Context (EFAULT : Z).

(** [FileDescription::read], and the end of [sys$read] *)
Definition do_read (s : System) (t : tid) (n : Z) (dest_ok : bool) : res System :=
  let* (f, v, bytes, called) := fifo_read EFAULT (s_fifo s) dest_ok n in
  let s := note_read (with_fifo s f) bytes in
  let s := if called : bool then evaluate_block_conditions s else s in
  Ok (finish (evaluate_block_conditions s) t (Returned (wrap I32 v))).

(** [FileDescription::write], and the rest of a turn of the loop of [do_write] *)
Definition do_write_turn (s : System) (t : tid) (d : positive) (src : list (option Z)) (total : Z) : res System :=
  let data_size := Z.of_nat (length src) in
  let chunk := drop (Z.to_nat (wrap size_t total)) src in
  let* (f, v, called) := fifo_write EFAULT (s_fifo s) chunk (wrap size_t (data_size - wrap size_t total)) in
  let s := with_fifo s f in
  match v with
  | None => Ok (finish s t (if total =? 0 then Failed EPIPE else Returned total))
  | Some v =>
      let s := if v <=? data_size then note_written s (accessible (take (Z.to_nat v) chunk)) else s in
      let s := if called : bool then evaluate_block_conditions s else s in
      let s := evaluate_block_conditions s in
      if v =? 0 then Ok (finish s t (Returned total))
      else Ok (set_thread s t (Busy d (CallWrite src (wrap I32 (wrap size_t total + v))) Asking))
  end.

(** [sys$read] asks whether it can read. *)
Definition ask_read (s : System) (t : tid) (d : positive) (c : call) (blocking : bool) : System :=
  set_thread s t (Busy d c (if blocking && negb (can_read (s_fifo s)) then Blocking else Copying)).

(** The first question of [do_write], for a description that does not block. *)
Definition ask_first (s : System) (t : tid) (d : positive) (src : list (option Z)) : System :=
  if can_write (s_fifo s) then set_thread s t (Busy d (CallWrite src 0) Asking) else finish s t (Failed EAGAIN).

(** The head of the loop of [do_write], and its question. *)
Definition ask_write (s : System) (t : tid) (d : positive) (src : list (option Z)) (total : Z) (blocking : bool)
    : res System :=
  if negb (wrap size_t total <? Z.of_nat (length src)) then Ok (finish s t (Returned total))
  else if can_write (s_fifo s) then Ok (set_thread s t (Busy d (CallWrite src total) Copying))
  else if negb blocking then
    VERIFY 0 <? total ;;
    Ok (finish s t (Returned total))
  else Ok (set_thread s t (Busy d (CallWrite src total) Blocking)).

(** What a thread does next. *)
Definition run (s : System) (t : tid) (d : positive) (c : call) (at_ : place) : res (option System) :=
  let blocking := default true (d_blocking <$> s_descriptions s !! d) in
  match at_, c with
  | Asking, CallRead _ _ => Ok (Some (ask_read s t d c blocking))
  | Asking, CallWriteFirst src => Ok (Some (ask_first s t d src))
  | Asking, CallWrite src total => let* s := ask_write s t d src total blocking in Ok (Some s)
  | Blocking, _ => Ok (Some (block s t d c))
  | Blocked, _ => Ok None
  | Copying, CallRead n dest_ok => let* s := do_read s t n dest_ok in Ok (Some s)
  | Copying, CallWrite src total => let* s := do_write_turn s t d src total in Ok (Some s)
  | Copying, CallWriteFirst _ => Ok None
  end.

(** A signal ends the waiting of a thread. *)
Definition interrupt (s : System) (t : tid) (d : positive) (c : call) : System :=
  let s := with_blockers s (filter (fun u => u <> t) (m_blockers s)) in
  match c with
  | CallWrite src total =>
      if total =? 0 then finish s t (Failed EINTR) else set_thread s t (Busy d c Copying)
  | _ => finish s t (Failed EINTR)
  end.

Inductive event :=
  | Open (d : positive) (direction : Direction) (blocking : bool)
  | Close (d : positive)
  | StartRead (t : tid) (d : positive) (n : Z) (dest_ok : bool)
  | StartWrite (t : tid) (d : positive) (src : list (option Z))
  | Run (t : tid)
  | Interrupt (t : tid).

Definition uses (d : positive) (x : thread) : bool :=
  match x with Busy d' _ _ => bool_decide (d' = d) | Idle => false end.

(** [sys$read] up to its question; only the reading end can be read. *)
Definition sys_read (s : System) (t : tid) (d : positive) (x : Description) (n : Z) (dest_ok : bool) : System :=
  if n <? 0 then finish s t (Failed EINVAL)
  else if n =? 0 then finish s t (Returned 0)
  else if negb (bool_decide (d_direction x = Reader)) then finish s t (Failed EBADF)
  else set_thread s t (Busy d (CallRead n dest_ok) Asking).

(** [sys$write] up to [do_write] *)
Definition sys_write (s : System) (t : tid) (d : positive) (x : Description) (src : list (option Z)) : System :=
  if bool_decide (src = []) then finish s t (Returned 0)
  else if negb (bool_decide (d_direction x = Writer)) then finish s t (Failed EBADF)
  else if d_blocking x then set_thread s t (Busy d (CallWrite src 0) Asking)
  else set_thread s t (Busy d (CallWriteFirst src) Asking).

(** [None]: the event cannot happen.  A description is destroyed when no thread
    uses it. *)
Definition step (s : System) (e : event) : res (option System) :=
  match e with
  | Open d direction blocking =>
      match s_descriptions s !! d with
      | Some _ => Ok None
      | None =>
          if Z.of_nat (base.size (s_descriptions s)) <? 2 ^ 31 then
            let s := with_descriptions s (<[d := mkDescription direction blocking]> (s_descriptions s)) in
            Ok (Some (evaluate_block_conditions (with_fifo s (attach (s_fifo s) direction))))
          else Ok None
      end
  | Close d =>
      match s_descriptions s !! d with
      | None => Ok None
      | Some x =>
          if bool_decide (map_Forall (fun _ y => uses d y = false) (s_threads s)) then
            let* f := detach (s_fifo s) (d_direction x) in
            Ok (Some (evaluate_block_conditions
              (with_fifo (with_descriptions s (delete d (s_descriptions s))) f)))
          else Ok None
      end
  | StartRead t d n dest_ok =>
      match thread_of s t, s_descriptions s !! d with
      | Idle, Some x => Ok (Some (sys_read s t d x n dest_ok))
      | _, _ => Ok None
      end
  | StartWrite t d src =>
      match thread_of s t, s_descriptions s !! d with
      | Idle, Some x => Ok (Some (sys_write s t d x src))
      | _, _ => Ok None
      end
  | Run t => match thread_of s t with Busy d c at_ => run s t d c at_ | Idle => Ok None end
  | Interrupt t => match thread_of s t with Busy d c Blocked => Ok (Some (interrupt s t d c)) | _ => Ok None end
  end.

End Errors.
End PipeSystem.

(** ** What a buffer holds *)

Module PipeFacts.
Import Slice DoubleBuffer FIFO FileBlocker PipeSystem.

(** The bytes not read yet, oldest first. *)
Definition contents (b : DoubleBuffer) : list Z :=
  match m_storage b with
  | None => []
  | Some l =>
      let r := inner b (m_read_buffer b) in let w := inner b (m_write_buffer b) in
      peek l (data r + m_read_buffer_index b) (size r - m_read_buffer_index b) ++ peek l (data w) (size w)
  end.

Record buffer_ok (b : DoubleBuffer) : Prop := {
  bo_apart : m_write_buffer b <> m_read_buffer b;
  bo_capacity : 0 < m_capacity b < 2 ^ 31;
  bo_data1 : data (m_buffer1 b) = 0;
  bo_data2 : data (m_buffer2 b) = m_capacity b;
  bo_size1 : 0 <= size (m_buffer1 b) <= m_capacity b;
  bo_size2 : 0 <= size (m_buffer2 b) <= m_capacity b;
  bo_storage : forall l, m_storage b = Some l -> Z.of_nat (length l) = 2 * m_capacity b;
  bo_index : 0 <= m_read_buffer_index b <= size (inner b (m_read_buffer b));
  bo_space : m_space_for_writing b = m_capacity b - size (inner b (m_write_buffer b));
  bo_empty : m_empty b = (size (inner b (m_read_buffer b)) <=? m_read_buffer_index b) &&
    (size (inner b (m_write_buffer b)) =? 0);
}.

Lemma buffer_create_ok capacity storage :
  0 < capacity < 2 ^ 31 -> (forall l, storage = Some l -> Z.of_nat (length l) = 2 * capacity) ->
  buffer_ok (create capacity storage) /\ contents (create capacity storage) = [].
Proof.
  intros Hc Hl. split; [split; cbn; try done; lia|]. unfold contents, create. cbn. by destruct storage.
Qed.

Lemma accessible_length data : (length (accessible data) <= length data)%nat.
Proof. induction data as [|[x|] data IH]; cbn; lia. Qed.

Ltac open_buffer b H :=
  destruct b as [w r [d1 s1] [d2 s2] st cap idx sp em];
  destruct H as [Ha Hc Hd1 Hd2 Hs1 Hs2 Hl Hi Hsp Hem]; destruct w, r; [done| | |done];
  cbn [m_write_buffer m_read_buffer m_buffer1 m_buffer2 m_storage m_capacity m_read_buffer_index
       m_space_for_writing m_empty data size inner] in *; subst d1 d2 sp em.

Ltac small := rewrite wrap_id by (reflexivity || (apply in_ty_spec; cbn; lia)).

(** The write buffer with bytes appended. *)
Definition pushed (b : DoubleBuffer) (l : list Z) (k : Z) (bytes : list Z) : DoubleBuffer :=
  let w := inner b (m_write_buffer b) in
  set_storage (compute_lockfree_metadata (set_size b (m_write_buffer b) (wrap size_t (size w + k)))) (poke l (data w + size w) bytes).

Ltac open_fields := cbn [pushed inner set_size set_index swap_buffers compute_lockfree_metadata data size m_write_buffer m_read_buffer
  m_buffer1 m_buffer2 m_storage m_capacity m_read_buffer_index set_storage m_empty m_space_for_writing contents] in *.

Lemma pushed_ok b l k bytes :
  buffer_ok b -> m_storage b = Some l -> 0 <= k <= m_space_for_writing b -> Z.of_nat (length bytes) <= k ->
  buffer_ok (pushed b l k bytes) /\ 0 <= data (inner b (m_write_buffer b)) + size (inner b (m_write_buffer b)) /\
  data (inner b (m_write_buffer b)) + size (inner b (m_write_buffer b)) + k <= Z.of_nat (length l) /\
  (Z.of_nat (length bytes) = k -> contents (pushed b l k bytes) = contents b ++ bytes).
Proof.
  intros Hb Est Hk Hlen. open_buffer b Hb; subst st; specialize (Hl l eq_refl); unfold pushed; open_fields.
  - small. split; [split; open_fields; try done; try lia|].
    + intros ? [= <-]. rewrite poke_length by lia. done.
    + small. done.
    + split; [lia|]. split; [lia|]. intros <-. unfold contents. open_fields. rewrite !Z.add_0_l.
      rewrite peek_poke_ne by lia. rewrite <- app_assoc. f_equal.
      rewrite (peek_split (poke _ _ _) 0 s1) by lia. rewrite peek_poke_ne by lia. f_equal.
      rewrite Z.add_0_l, Z.add_simpl_l. apply peek_poke; lia.
  - small. split; [split; open_fields; try done; try lia|].
    + intros ? [= <-]. rewrite poke_length by lia. done.
    + small. done.
    + split; [lia|]. split; [lia|]. intros <-. unfold contents. open_fields.
      rewrite (peek_poke_ne l (cap + s2)) by lia. rewrite <- app_assoc. f_equal.
      rewrite (peek_split (poke _ _ _) cap s2) by lia. rewrite peek_poke_ne by lia. f_equal.
      rewrite Z.add_simpl_l. apply peek_poke; lia.
Qed.

Section Errors.
Context (EFAULT : Z).

Lemma accessible_none data : length (accessible data) <> length data -> None ∈ data.
Proof. induction data as [|[x|] data IH]; cbn; intros H; [done| |left]. right. apply IH. lia. Qed.

Lemma space_nonneg b : buffer_ok b -> 0 <= m_space_for_writing b <= m_capacity b.
Proof. intros Hb. open_buffer b Hb; open_fields; lia. Qed.

(** A write appends what it says it wrote; it fails where a byte cannot be read,
    and may then append anything. *)
Lemma write_ok b src n :
  buffer_ok b -> 0 <= n < 2 ^ 32 -> n <= Z.of_nat (length src) ->
  exists b' v called, write EFAULT b src n = Ok (b', v, called) /\ buffer_ok b' /\
    ((v = -EFAULT /\ None ∈ src) \/
     (0 <= v <= n /\ contents b' = contents b ++ accessible (take (Z.to_nat v) src))).
Proof.
  intros Hb Hn Hsrc. unfold write. destruct (m_storage b) as [l|] eqn:Est.
  2:{ exists b, 0, false. split; [done|]. split; [done|]. right. split; [lia|by rewrite app_nil_r]. }
  destruct (Z.eqb_spec n 0) as [->|Hn0].
  { exists b, 0, false. split; [done|]. split; [done|]. right. split; [lia|by rewrite app_nil_r]. }
  pose proof (space_nonneg b Hb) as Hsp. unfold copy_from_user. set (k := Z.min n _).
  pose proof (accessible_length (take (Z.to_nat k) src)) as Hacc. rewrite length_take in Hacc.
  destruct (pushed_ok b l k (accessible (take (Z.to_nat k) src)) Hb Est) as (Hok & H1 & H2 & Hcont); [lia|lia|].
  rewrite (proj2 (Z.leb_le _ _) H1), (proj2 (Z.leb_le _ _) H2). cbn [andb defined res_bind].
  case_bool_decide as Hall; cbn [negb]; eexists _, _, _; (split; [done|]); (split; [exact Hok|]).
  - right. split; [lia|]. apply Hcont. rewrite Hall, length_take. lia.
  - left. split; [done|]. apply accessible_none in Hall. rewrite <- (take_drop (Z.to_nat k) src). apply elem_of_app. by left.
Qed.

Lemma flip_ok b :
  buffer_ok b -> m_storage b <> None -> m_read_buffer_index b = size (inner b (m_read_buffer b)) ->
  exists b', flip b = Ok b' /\ buffer_ok b' /\ contents b' = contents b /\ m_storage b' = m_storage b.
Proof.
  intros Hb Hst Hx. unfold flip. destruct (m_storage b) as [l|] eqn:Est; [|done].
  rewrite (proj2 (Z.eqb_eq _ _) Hx). cbn [verify res_bind]. eexists. split; [done|].
  open_buffer b Hb; subst st; specialize (Hl l eq_refl); open_fields; split_and!; try done;
    try (split; open_fields; try done; try small; try lia; intros ? [= <-]; lia);
    rewrite !Z.sub_0_r, !Z.add_0_r, (peek_nil _ _ 0), app_nil_r, (peek_nil _ _ (_ - _)) by lia; done.
Qed.

(** A read takes the oldest bytes, and some if there are any. *)
Lemma read_ok b dest_ok n :
  buffer_ok b -> 0 <= n < 2 ^ 32 ->
  exists b' v bytes called, read EFAULT b dest_ok n = Ok (b', v, bytes, called) /\ buffer_ok b' /\
    contents b = bytes ++ contents b' /\
    ((v = -EFAULT /\ dest_ok = false /\ bytes = []) \/
     (v = Z.of_nat (length bytes) /\ v <= n /\ (bytes = [] -> n = 0 \/ contents b = []))).
Proof.
  intros Hb Hn. unfold read. destruct (m_storage b) as [l|] eqn:Est.
  2:{ eexists _, _, _, _. split; [done|]. split; [done|]. split; [done|]. right. cbn. split; [done|]. split; [lia|].
      intros _. right. unfold contents. by rewrite Est. }
  destruct (Z.eqb_spec n 0) as [->|Hn0].
  { eexists _, _, _, _. split; [done|]. split; [done|]. split; [done|]. right. cbn. split; [done|]. split; [lia|]. auto. }
  assert (exists b1, (if (size (inner b (m_read_buffer b)) <=? m_read_buffer_index b) &&
      negb (size (inner b (m_write_buffer b)) =? 0) then flip b else Ok b) = Ok b1 /\ buffer_ok b1 /\
      contents b1 = contents b /\ m_storage b1 = Some l /\
      (size (inner b1 (m_read_buffer b1)) <= m_read_buffer_index b1 -> contents b = [])) as (b1 & -> & Hb1 & Hc1 & Hst1 & Hemp).
  { case_if.
    - destruct (flip_ok b Hb) as (b1 & E & Hb1 & Hc1 & Hst1); [congruence|pose proof (bo_index _ Hb); lia|].
      exists b1. split; [done|]. split; [done|]. split; [done|]. split; [congruence|]. intros Hle. exfalso.
      unfold flip in E. rewrite Est in E. destruct (_ =? _); [|done]. cbn [verify res_bind] in E. injection E as <-.
      clear Hb1 Hc1 Hst1. open_buffer b Hb; open_fields; lia.
    - exists b. split; [done|]. split; [done|]. split; [done|]. split; [done|]. intros Hle.
      unfold contents. rewrite Est. rewrite peek_nil by lia.
      rewrite peek_nil; [done|]. pose proof (bo_size1 _ Hb). pose proof (bo_size2 _ Hb). to_prop. lia. }
  clear Hb Est. cbn [res_bind]. destruct (Z.leb_spec (size (inner b1 (m_read_buffer b1))) (m_read_buffer_index b1)) as [Hle|Hlt].
  { eexists _, _, _, _. split; [done|]. split; [done|]. split; [by rewrite Hc1|]. right. cbn. split; [done|]. split; [lia|]. auto. }
  rewrite <- Hc1 in *. clear Hc1 Hemp b. set (k := Z.min _ n).
  assert (exists rest, contents b1 = peek l (data (inner b1 (m_read_buffer b1)) + m_read_buffer_index b1) k ++ rest /\
    0 < k <= n /\ 0 <= data (inner b1 (m_read_buffer b1)) + m_read_buffer_index b1 /\
    data (inner b1 (m_read_buffer b1)) + m_read_buffer_index b1 + k <= Z.of_nat (length l) /\
    buffer_ok (compute_lockfree_metadata (set_index b1 (wrap size_t (m_read_buffer_index b1 + k)))) /\
    contents (compute_lockfree_metadata (set_index b1 (wrap size_t (m_read_buffer_index b1 + k)))) = rest)
    as (rest & Hc & Hk & H1 & H2 & Hok & Hrest).
  { subst k. open_buffer b1 Hb1; subst st; specialize (Hl l eq_refl); open_fields; small; set (k := Z.min _ n); small; eexists;
      rewrite (peek_split l (_ + idx) k) by lia; (split; [by rewrite <- app_assoc|]); split_and!; try lia;
      try (split; open_fields; try done; try small; try lia; intros ? [= <-]; lia); f_equal; f_equal; lia. }
  rewrite (proj2 (Z.leb_le _ _) H1), (proj2 (Z.leb_le _ _) H2). cbn [andb defined res_bind]. destruct dest_ok; cbn [negb].
  - eexists _, _, _, _. split; [done|]. split; [done|]. split; [by rewrite Hrest|]. right. rewrite peek_length by lia.
    split; [done|]. split; [lia|]. intros Hnil. apply (f_equal length) in Hnil. pose proof (peek_length l _ k H1 ltac:(lia) H2). cbn in *. lia.
  - eexists _, _, _, _. split; [done|]. split; [done|]. split; [done|]. by left.
Qed.

End Errors.
End PipeFacts.
