(* ===== verification/PipeSpec.v ===== *)
(** * Pipes: what processes that use one can rely on

    The invariant of the processes around a pipe, over every interleaving, and the
    interleavings in which the code does not do what it should. *)

From S2P Require Import Prelude Pipe.
Import Slice DoubleBuffer FIFO FileBlocker PipeSystem PipeFacts.

Module PipeSpec.

Definition direction_count (direction : Direction) (m : gmap positive Description) : Z :=
  sum_of (fun x => if bool_decide (d_direction x = direction) then 1 else 0) m.

Definition call_ok (c : call) : Prop :=
  match c with
  | CallRead n _ => 0 < n < 2 ^ 31
  | CallWrite src total => 0 <= total <= Z.of_nat (length src) /\ Z.of_nat (length src) < 2 ^ 31 /\ None ∉ src
  | CallWriteFirst _ => False
  end.

(** The state but for blockers whose condition may hold. *)
Record core (s : System) : Prop := {
  co_buffer : buffer_ok (m_buffer (s_fifo s));
  co_history : h_written s = h_read s ++ contents (m_buffer (s_fifo s));
  co_readers : m_readers (s_fifo s) = direction_count Reader (s_descriptions s);
  co_writers : m_writers (s_fifo s) = direction_count Writer (s_descriptions s);
  co_few : Z.of_nat (base.size (s_descriptions s)) <= 2 ^ 31;
  co_blocking : forall d x, s_descriptions s !! d = Some x -> d_blocking x = true;
  co_calls : forall t d c p, s_threads s !! t = Some (Busy d c p) -> call_ok c /\ is_Some (s_descriptions s !! d);
  co_distinct : NoDup (m_blockers s);
  co_blocked : forall t, t ∈ m_blockers s -> exists d c, s_threads s !! t = Some (Busy d c Blocked);
}.

(** No blocker in the list could go on. *)
Definition waiting (s : System) : Prop := forall t d c,
  t ∈ m_blockers s -> s_threads s !! t = Some (Busy d c Blocked) -> should_unblock (s_fifo s) c = false.

Record inv (s : System) : Prop := { iv_core : core s; iv_waiting : waiting s }.

(** *** Unblocking *)

Definition with_threads (s : System) (m : gmap positive thread) : System :=
  mkSystem (s_fifo s) (s_descriptions s) m (m_blockers s) (h_written s) (h_read s) (h_results s).

(** What [unblock] does to threads: some of the blocked ones in the list go on. *)
Record unblocked (s : System) (l : list positive) (s' : System) (l' : list positive) : Prop := {
  ub_same : s' = with_threads s (s_threads s');
  ub_distinct : NoDup l';
  ub_left : forall t, t ∈ l' -> t ∈ l /\ s_threads s' !! t = s_threads s !! t;
  ub_waiting : forall t d c, t ∈ l' -> s_threads s !! t = Some (Busy d c Blocked) -> should_unblock (s_fifo s) c = false;
  ub_others : forall t, t ∉ l -> s_threads s' !! t = s_threads s !! t;
  ub_calls : forall t d c p, s_threads s' !! t = Some (Busy d c p) -> exists p', s_threads s !! t = Some (Busy d c p');
}.

Lemma unblock_ok l s :
  NoDup l -> (forall t, t ∈ l -> exists d c, s_threads s !! t = Some (Busy d c Blocked)) ->
  let '(s', l') := unblock s l in unblocked s l s' l'.
Proof.
  revert s. induction l as [|t l IH]; intros s Hd Hl; cbn [unblock].
  { split; [by destruct s|constructor| | |done|by eauto].
    - by intros t ?%not_elem_of_nil.
    - by intros t d c ?%not_elem_of_nil. }
  apply NoDup_cons in Hd as [Ht Hd]. destruct (Hl t) as (d & c & Htd); [left|]. unfold thread_of. rewrite Htd. cbn [default from_option id].
  destruct (should_unblock (s_fifo s) c) eqn:Eu.
  - assert (forall u, u ∈ l -> s_threads (set_thread s t (Busy d c Copying)) !! u = s_threads s !! u) as Hu.
    { intros u Hu. cbn. rewrite lookup_insert_ne; [done|]. by intros ->. }
    specialize (IH (set_thread s t (Busy d c Copying)) Hd ltac:(intros u Hin; rewrite Hu by done; apply Hl; by right)).
    destruct (unblock _ l) as [s' l'] eqn:E. destruct IH as [I1 I2 I3 I4 I5 I6].
    split; [done|done| | | |].
    + intros u Hin. destruct (I3 u Hin) as [Hin' ->]. split; [by right|by apply Hu].
    + intros u d' c' Hin Hd'. apply (I4 u d' c' Hin). rewrite Hu; [done|]. by apply I3.
    + intros u Hn. rewrite not_elem_of_cons in Hn. rewrite I5 by tauto. cbn. rewrite lookup_insert_ne; [done|]. by intros ->; tauto.
    + intros u d' c' p Hp. destruct (I6 u d' c' p Hp) as [p' Hp']. cbn in Hp'.
      apply lookup_insert_Some in Hp' as [[<- [= <- <- <-]]|[_ Hp']]; [by exists Blocked|by exists p'].
  - specialize (IH s Hd ltac:(intros u Hin; apply Hl; by right)).
    destruct (unblock s l) as [s' l'] eqn:E. destruct IH as [I1 I2 I3 I4 I5 I6].
    split; [done| | | | |done].
    + constructor; [|done]. intros Hin. destruct (I3 t Hin). done.
    + intros u [-> |Hin]%elem_of_cons; [split; [by left|by apply I5]|]. destruct (I3 u Hin). split; [by right|done].
    + intros u d' c' [-> |Hin]%elem_of_cons Hd'; [|by apply (I4 u d' c')]. rewrite Htd in Hd'. by injection Hd' as <- <-.
    + intros u Hn. rewrite not_elem_of_cons in Hn. apply I5; tauto.
Qed.

(** After the conditions were evaluated nobody waits in vain. *)
Lemma evaluate_ok s :
  core s -> exists s', evaluate_block_conditions s = s' /\ inv s' /\ s_fifo s' = s_fifo s /\ s_descriptions s' = s_descriptions s /\
    (forall t, t ∉ m_blockers s -> s_threads s' !! t = s_threads s !! t /\ t ∉ m_blockers s').
Proof.
  intros [C1 C2 C3 C4 C5 C6 C7 C8 C9]. eexists. split; [done|]. unfold evaluate_block_conditions.
  pose proof (unblock_ok (m_blockers s) s C8 C9) as Hu. destruct (unblock s (m_blockers s)) as [s' l'].
  destruct Hu as [U1 U2 U3 U4 U5 U6]. rewrite U1. cbn. split; [split|].
  - split; cbn; try done.
    + intros t d c p Hp. destruct (U6 t d c p Hp) as [p' Hp']. by apply (C7 t d c p').
    + intros t Hin. destruct (U3 t Hin) as [Hin' ->]. by apply C9.
  - intros t d c Hin. cbn in *. destruct (U3 t Hin) as [_ ->]. by apply U4.
  - split; [done|]. split; [done|]. intros t Hn. split; [by apply U5|]. by intros [? _]%U3.
Qed.

Lemma evaluate_inv s : core s -> inv (evaluate_block_conditions s).
Proof. intros Hc. by destruct (evaluate_ok s Hc) as (s' & -> & ? & _). Qed.

(** *** Counting descriptions *)

Lemma count_bound dir m : 0 <= direction_count dir m <= Z.of_nat (base.size m).
Proof.
  unfold direction_count. induction m as [|i x m Hi IH] using map_ind; [done|].
  rewrite sum_of_insert_new, map_size_insert_None by done. destruct (bool_decide _); lia.
Qed.

Lemma pipe_attach_ok f m d dir b :
  m_readers f = direction_count Reader m -> m_writers f = direction_count Writer m -> m !! d = None ->
  Z.of_nat (base.size m) < 2 ^ 31 ->
  m_readers (attach f dir) = direction_count Reader (<[d := mkDescription dir b]> m) /\
  m_writers (attach f dir) = direction_count Writer (<[d := mkDescription dir b]> m) /\ m_buffer (attach f dir) = m_buffer f.
Proof.
  intros Hr Hw Hd Hs. pose proof (count_bound Reader m). pose proof (count_bound Writer m).
  unfold direction_count in *. rewrite !sum_of_insert_new by done. cbn [d_direction].
  destruct dir; cbn [attach m_readers m_writers m_buffer]; repeat case_bool_decide; try done; try small; split_and!; try done; lia.
Qed.

Lemma detach_ok f m d x :
  m_readers f = direction_count Reader m -> m_writers f = direction_count Writer m -> m !! d = Some x ->
  Z.of_nat (base.size m) <= 2 ^ 31 ->
  exists f', detach f (d_direction x) = Ok f' /\ m_readers f' = direction_count Reader (delete d m) /\
    m_writers f' = direction_count Writer (delete d m) /\ m_buffer f' = m_buffer f.
Proof.
  intros Hr Hw Hd Hs. pose proof (count_bound Reader m). pose proof (count_bound Writer m).
  pose proof (count_bound Reader (delete d m)). pose proof (count_bound Writer (delete d m)).
  unfold direction_count in *. pose proof (sum_of_delete (fun x => if bool_decide (d_direction x = Reader) then 1 else 0) m d x Hd) as Er.
  pose proof (sum_of_delete (fun x => if bool_decide (d_direction x = Writer) then 1 else 0) m d x Hd) as Ew. cbn beta in Er, Ew.
  destruct (d_direction x); cbn [detach]; rewrite ?bool_decide_true, ?bool_decide_false in * by done.
  - eexists. split; [done|]. split_and!; lia || done.
  - rewrite (proj2 (Z.eqb_neq (m_readers f) 0)) by lia. cbn [negb verify res_bind]. eexists. split; [done|]. cbn. small.
    split_and!; lia || done.
  - rewrite (proj2 (Z.eqb_neq (m_writers f) 0)) by lia. cbn [negb verify res_bind]. eexists. split; [done|]. cbn. small.
    split_and!; lia || done.
Qed.

(** *** A thread moves on *)

Definition thread_ok (s : System) (x : thread) : Prop :=
  match x with Idle => True | Busy d c _ => call_ok c /\ is_Some (s_descriptions s !! d) end.

Lemma set_thread_ok s t x : inv s -> t ∉ m_blockers s -> thread_ok s x -> inv (set_thread s t x).
Proof.
  intros [[C1 C2 C3 C4 C5 C6 C7 C8 C9] Hw] Ht Hx. split; [split; cbn; try done|].
  - intros u d c p [[<- ->]|[_ Hu]]%lookup_insert_Some; [exact Hx|by eapply C7].
  - intros u Hu. rewrite lookup_insert_ne by (by intros ->). by apply C9.
  - intros u d c Hu. cbn in *. rewrite lookup_insert_ne by (by intros ->). by apply Hw.
Qed.

Lemma finish_ok s t r : inv s -> t ∉ m_blockers s -> inv (finish s t r).
Proof.
  intros Hi Ht. pose proof (set_thread_ok s t Idle Hi Ht I) as [[C1 C2 C3 C4 C5 C6 C7 C8 C9] Hw]. by split; [split|].
Qed.

(** A thread that is not blocked is in no list. *)
Lemma not_listed s t d c p : core s -> s_threads s !! t = Some (Busy d c p) -> p <> Blocked -> t ∉ m_blockers s.
Proof. intros Hc Ht Hp Hin. destruct (co_blocked _ Hc t Hin) as (d' & c' & E). congruence. Qed.

(** The pipe changed under a thread, the conditions are evaluated. *)
Lemma changed_ok s1 called t :
  core s1 -> t ∉ m_blockers s1 ->
  let s2 := (if called : bool then evaluate_block_conditions s1 else s1) in
  inv (evaluate_block_conditions s2) /\ (t ∉ m_blockers (evaluate_block_conditions s2)) /\
  s_descriptions (evaluate_block_conditions s2) = s_descriptions s1.
Proof.
  intros Hs1 Ht s2.
  assert (core s2 /\ (t ∉ m_blockers s2) /\ s_descriptions s2 = s_descriptions s1) as (Hs2 & Ht2 & Hd2).
  { subst s2. destruct called; [|done]. destruct (evaluate_ok s1 Hs1) as (s' & -> & [Hc _] & _ & Hd & Hn).
    split; [done|]. split; [by apply Hn|done]. }
  destruct (evaluate_ok s2 Hs2) as (s' & -> & Hi & _ & Hd & Hn). split; [done|]. split; [by apply Hn|congruence].
Qed.

Section Errors.
Context (EFAULT : Z).

Lemma do_read_ok s t d n ok :
  inv s -> s_threads s !! t = Some (Busy d (CallRead n ok) Copying) ->
  exists s', do_read EFAULT s t n ok = Ok s' /\ inv s'.
Proof.
  intros [Hc _] Ht. pose proof (not_listed s t _ _ _ Hc Ht ltac:(done)) as Hn. pose proof Hc as [C1 C2 C3 C4 C5 C6 C7 C8 C9].
  destruct (C7 _ _ _ _ Ht) as [Hcall _]. cbn in Hcall.
  assert (exists f v bytes called, fifo_read EFAULT (s_fifo s) ok n = Ok (f, v, bytes, called) /\ buffer_ok (m_buffer f) /\
    m_readers f = m_readers (s_fifo s) /\ m_writers f = m_writers (s_fifo s) /\
    contents (m_buffer (s_fifo s)) = bytes ++ contents (m_buffer f)) as (f & v & bytes & called & E & Hb & Hr & Hw & Hcont).
  { unfold fifo_read. case_if; [by eexists _, _, _, _|].
    destruct (read_ok EFAULT (m_buffer (s_fifo s)) ok n C1) as (b' & v & bytes & called & -> & Hb & Hcont & _); [lia|].
    cbn [res_bind]. by eexists _, _, _, _. }
  unfold do_read. rewrite E. cbn [res_bind]. eexists. split; [done|].
  destruct (changed_ok (note_read (with_fifo s f) bytes) called t) as (Hi & Hn' & _); [|done|by apply finish_ok].
  split; cbn; try congruence; try done. rewrite C2, Hcont. by rewrite app_assoc.
Qed.

Lemma do_write_turn_ok s t d src total :
  inv s -> s_threads s !! t = Some (Busy d (CallWrite src total) Copying) ->
  exists s', do_write_turn EFAULT s t d src total = Ok s' /\ inv s'.
Proof.
  intros [Hc Hwt] Ht. pose proof (not_listed s t _ _ _ Hc Ht ltac:(done)) as Hn. pose proof Hc as [C1 C2 C3 C4 C5 C6 C7 C8 C9].
  destruct (C7 _ _ _ _ Ht) as [(Htot & Hlen & Hacc) Hd]. unfold do_write_turn.
  assert (wrap size_t total = total) as -> by (small; done).
  assert (wrap size_t (Z.of_nat (length src) - total) = Z.of_nat (length src) - total) as -> by (small; done).
  unfold fifo_write. case_if; cbn [res_bind].
  { eexists. split; [done|]. apply finish_ok; [|done]. by split; [split|]. }
  set (chunk := drop (Z.to_nat total) src).
  destruct (write_ok EFAULT (m_buffer (s_fifo s)) chunk (Z.of_nat (length src) - total) C1)
    as (b' & v & called & -> & Hb & [[_ Hnone]|[Hv Hcont]]); [lia|subst chunk; rewrite length_drop; lia| |].
  { destruct Hacc. rewrite <- (take_drop (Z.to_nat total) src). apply elem_of_app. by right. }
  cbn [res_bind]. assert (wrap size_t v = v) as -> by (small; done). rewrite (proj2 (Z.leb_le v _)) by lia.
  destruct (changed_ok (note_written (with_fifo s (with_buffer (s_fifo s) b')) (accessible (take (Z.to_nat v) chunk))) called t)
    as (Hi & Hn' & Hd'); [|done|].
  { split; cbn; try done. rewrite C2, Hcont. by rewrite app_assoc. }
  case_if; eexists; (split; [done|]); [by apply finish_ok|].
  assert (wrap I32 (total + v) = total + v) as -> by (small; done). apply set_thread_ok; [done|done|]. cbn. rewrite Hd'. split_and!; try done; lia.
Qed.

Lemma block_ok s t d c :
  inv s -> s_threads s !! t = Some (Busy d c Blocking) -> inv (block s t d c).
Proof.
  intros Hi Ht. pose proof Hi as [Hc Hw]. pose proof (not_listed s t _ _ _ Hc Ht ltac:(done)) as Hn.
  pose proof Hc as [C1 C2 C3 C4 C5 C6 C7 C8 C9]. pose proof (C7 _ _ _ _ Ht) as Hx.
  unfold block, make_blocker. destruct (should_unblock (s_fifo s) c) eqn:Eu; cbn; [by apply set_thread_ok|].
  split; [split; cbn; try done|].
  - intros u d' c' p [[<- [= <- <- <-]]|[_ Hu]]%lookup_insert_Some; [done|by eapply C7].
  - apply NoDup_app. split; [done|]. split; [|by apply NoDup_singleton]. by intros u Hu ->%list_elem_of_singleton.
  - intros u [Hu| ->%list_elem_of_singleton]%elem_of_app; [|exists d, c; apply lookup_insert_eq].
    rewrite lookup_insert_ne by (by intros ->). by apply C9.
  - intros u d' c'. cbn. intros [Hu| ->%list_elem_of_singleton]%elem_of_app.
    + rewrite lookup_insert_ne by (by intros ->). by apply Hw.
    + rewrite lookup_insert_eq. by intros [= <- <-].
Qed.

Lemma interrupt_ok s t d c : inv s -> s_threads s !! t = Some (Busy d c Blocked) -> inv (interrupt s t d c).
Proof.
  intros [[C1 C2 C3 C4 C5 C6 C7 C8 C9] Hw] Ht. pose proof (C7 _ _ _ _ Ht) as Hx. unfold interrupt.
  set (s1 := with_blockers s _). assert (inv s1) as Hi.
  { split; [split; cbn; try done|].
    - by apply NoDup_filter.
    - intros u [_ Hu]%list_elem_of_filter. by apply C9.
    - intros u d' c'. cbn. intros [_ Hu]%list_elem_of_filter. by apply Hw. }
  assert (t ∉ m_blockers s1) as Hn by (by intros [? _]%list_elem_of_filter).
  destruct c as [n ok|src total|src]; [by apply finish_ok| |by apply finish_ok].
  case_if; [by apply finish_ok|by apply set_thread_ok].
Qed.

Lemma pipe_run_ok s t d c p :
  inv s -> s_threads s !! t = Some (Busy d c p) ->
  exists o, run EFAULT s t d c p = Ok o /\ forall s', o = Some s' -> inv s'.
Proof.
  intros Hi Ht. pose proof Hi as [Hc _]. destruct (co_calls _ Hc _ _ _ _ Ht) as [Hcall [x Hx]].
  pose proof (co_blocking _ Hc _ _ Hx) as Hb. unfold run. rewrite Hx. cbn [fmap option_fmap option_map default from_option id]. rewrite Hb.
  assert (forall r, t ∉ m_blockers s -> exists o, Ok (Some (finish s t r)) = Ok o /\ forall s', o = Some s' -> inv s') as Hfin.
  { intros r Hn. eexists. split; [done|]. intros ? [= <-]. by apply finish_ok. }
  assert (forall c' q, call_ok c' -> t ∉ m_blockers s -> exists o, Ok (Some (set_thread s t (Busy d c' q))) = Ok o /\ forall s', o = Some s' -> inv s') as Hset.
  { intros c' q Hc' Hn. eexists. split; [done|]. intros ? [= <-]. by apply set_thread_ok. }
  destruct p.
  - pose proof (not_listed s t _ _ _ Hc Ht ltac:(done)) as Hn. destruct c as [n ok|src total|src]; [by apply Hset| |done].
    unfold ask_write. cbn [negb]. repeat case_if; cbn [res_bind]; (by apply Hfin) || (by apply Hset).
  - eexists. split; [by destruct c|]. intros ? [= <-]. by apply block_ok.
  - by exists None; destruct c.
  - destruct c as [n ok|src total|src]; [| |done].
    + destruct (do_read_ok s t d n ok Hi Ht) as (s' & -> & Hs'). cbn [res_bind]. eexists. split; [done|]. by intros ? [= <-].
    + destruct (do_write_turn_ok s t d src total Hi Ht) as (s' & -> & Hs'). cbn [res_bind]. eexists. split; [done|]. by intros ? [= <-].
Qed.

(** Descriptions that block, requests of less than 2 GiB, buffers that can be read. *)
Definition event_ok (e : event) : Prop :=
  match e with
  | Open _ _ blocking => blocking = true
  | StartRead _ _ n _ => n < 2 ^ 31
  | StartWrite _ _ src => Z.of_nat (length src) < 2 ^ 31 /\ None ∉ src
  | _ => True
  end.

Lemma idle_not_listed s t : core s -> thread_of s t = Idle -> t ∉ m_blockers s.
Proof.
  intros Hc Ht Hin. destruct (co_blocked _ Hc t Hin) as (d & c & E). unfold thread_of in Ht. by rewrite E in Ht.
Qed.

Lemma start_ok s t (x : thread) (r : result) : inv s -> thread_of s t = Idle ->
  (thread_ok s x -> inv (set_thread s t x)) /\ inv (finish s t r).
Proof.
  intros Hi Ht. pose proof (idle_not_listed s t (iv_core _ Hi) Ht) as Hn.
  split; [intros Hx; by apply set_thread_ok|by apply finish_ok].
Qed.

Lemma busy_thread s t d c p : thread_of s t = Busy d c p -> s_threads s !! t = Some (Busy d c p).
Proof. unfold thread_of. destruct (s_threads s !! t) as [y|]; cbn; [by intros ->|done]. Qed.

Lemma open_ok s d dir :
  inv s -> s_descriptions s !! d = None -> Z.of_nat (base.size (s_descriptions s)) < 2 ^ 31 ->
  core (with_fifo (with_descriptions s (<[d := mkDescription dir true]> (s_descriptions s))) (attach (s_fifo s) dir)).
Proof.
  intros [[C1 C2 C3 C4 C5 C6 C7 C8 C9] _] Hd Hs. destruct (pipe_attach_ok (s_fifo s) (s_descriptions s) d dir true C3 C4 Hd Hs) as (Hr & Hw & Hb).
  split; cbn; rewrite ?Hb; try done.
  - rewrite map_size_insert_None by done. lia.
  - intros d' y [[_ <-]|[_ Hy]]%lookup_insert_Some; [done|by apply (C6 d')].
  - intros t d' c p Ht. destruct (C7 t d' c p Ht) as [? [y Hy]]. split; [done|].
    exists y. rewrite lookup_insert_ne by congruence. done.
Qed.

Lemma close_ok s d x :
  inv s -> s_descriptions s !! d = Some x -> map_Forall (fun _ y => uses d y = false) (s_threads s) ->
  exists f, detach (s_fifo s) (d_direction x) = Ok f /\ core (with_fifo (with_descriptions s (delete d (s_descriptions s))) f).
Proof.
  intros [[C1 C2 C3 C4 C5 C6 C7 C8 C9] _] Hd Hu. destruct (detach_ok (s_fifo s) (s_descriptions s) d x C3 C4 Hd C5) as (f & E & Hr & Hw & Hb).
  exists f. split; [done|]. split; cbn; rewrite ?Hb; try done.
  - rewrite map_size_delete_Some by done. lia.
  - intros d' y [_ Hy]%lookup_delete_Some. by apply (C6 d').
  - intros t d' c p Ht. destruct (C7 t d' c p Ht) as [? [y Hy]]. split; [done|]. exists y. rewrite lookup_delete_ne; [done|].
    specialize (Hu t _ Ht). cbn in Hu. by case_bool_decide.
Qed.

Lemma step_ok s e :
  inv s -> event_ok e -> exists o, step EFAULT s e = Ok o /\ forall s', o = Some s' -> inv s'.
Proof.
  intros Hi He. assert (exists o, @Ok (option System) None = Ok o /\ forall s', o = Some s' -> inv s') as Hno by (by exists None).
  assert (forall s', inv s' -> exists o, Ok (Some s') = Ok o /\ forall s'', o = Some s'' -> inv s'') as Hyes.
  { intros s' Hs'. eexists. split; [done|]. by intros ? [= <-]. }
  destruct e as [d dir b|d|t d n ok|t d src|t|t]; cbn [step event_ok] in *.
  - subst b. destruct (s_descriptions s !! d) eqn:Hd; [done|]. case_if; [|done]. apply Hyes.
    exact (evaluate_inv _ (open_ok s d dir Hi Hd ltac:(lia))).
  - destruct (s_descriptions s !! d) as [x|] eqn:Hd; [|done]. case_bool_decide as Hu; [|done].
    destruct (close_ok s d x Hi Hd Hu) as (f & -> & Hc). cbn [res_bind]. apply Hyes. exact (evaluate_inv _ Hc).
  - destruct (thread_of s t) eqn:Ht; [|done]. destruct (s_descriptions s !! d) as [x|] eqn:Hd; [|done].
    apply Hyes. unfold sys_read. repeat case_if; apply start_ok; try done; try exact Idle; try exact (Returned 0). cbn. split; [lia|by exists x].
  - destruct (thread_of s t) eqn:Ht; [|done]. destruct (s_descriptions s !! d) as [x|] eqn:Hd; [|done].
    apply Hyes. unfold sys_write. rewrite (co_blocking _ (iv_core _ Hi) _ _ Hd).
    case_bool_decide; [apply start_ok; try done; exact Idle|].
    case_if; apply start_ok; try done; try exact Idle; try exact (Returned 0). cbn.
    destruct He as [He1 He2]. split; [split_and!; lia || done|by exists x].
  - destruct (thread_of s t) as [|d c p] eqn:Ht; [done|]. apply pipe_run_ok; [done|by apply busy_thread].
  - destruct (thread_of s t) as [|d c p] eqn:Ht; [done|]. destruct p; try done. apply Hyes. apply interrupt_ok; [done|by apply busy_thread].
Qed.

(** The states of a pipe with a storage of some size. *)
Inductive reachable (s0 : System) : System -> Prop :=
  | reachable_start : reachable s0 s0
  | reachable_step s e s' :
      reachable s0 s -> event_ok e -> step EFAULT s e = Ok (Some s') -> reachable s0 s'.

Lemma pipe_reachable_inv s0 s : inv s0 -> reachable s0 s -> inv s.
Proof.
  intros H0. induction 1 as [|s e s' _ IH He E]; [done|]. destruct (step_ok s e IH He) as (o & E' & Hs').
  apply Hs'. congruence.
Qed.

End Errors.

Definition new_pipe (capacity : Z) (storage : option (list Z)) : System :=
  mkSystem (mkFIFO 0 0 (create capacity storage)) ∅ ∅ [] [] [] [].

Lemma new_pipe_inv capacity storage :
  0 < capacity < 2 ^ 31 -> (forall l, storage = Some l -> Z.of_nat (length l) = 2 * capacity) -> inv (new_pipe capacity storage).
Proof.
  intros Hc Hl. destruct (buffer_create_ok capacity storage Hc Hl) as [Hb Hcont]. split; [split; cbn; try done|].
  - constructor.
  - by intros t ?%not_elem_of_nil.
  - by intros t d c ?%not_elem_of_nil.
Qed.

(** A sequence of events, [None] when one of them cannot happen. *)
Fixpoint events (EFAULT : Z) (s : System) (l : list event) : res (option System) :=
  match l with
  | [] => Ok (Some s)
  | e :: l =>
      let* o := step EFAULT s e in
      match o with Some s => events EFAULT s l | None => Ok None end
  end.

Lemma events_reachable EFAULT s0 l s s' :
  reachable EFAULT s0 s -> Forall event_ok l -> events EFAULT s l = Ok (Some s') -> reachable EFAULT s0 s'.
Proof.
  revert s. induction l as [|e l IH]; intros s Hs Hl E; cbn [events] in E; [by injection E as <-|].
  apply Forall_cons in Hl as [He Hl]. destruct (step EFAULT s e) as [[s1|]|] eqn:Es; cbn [res_bind] in E; try done.
  apply (IH s1); [by eapply reachable_step|done|done].
Qed.

Lemma contents_length b : buffer_ok b -> Z.of_nat (length (contents b)) <= 2 * m_capacity b.
Proof.
  intros Hb. unfold contents. destruct (m_storage b) as [l|]; [|pose proof (bo_capacity _ Hb); cbn; lia].
  rewrite length_app. unfold peek. rewrite !length_take, !length_drop. pose proof (bo_index _ Hb).
  open_buffer b Hb; cbn; lia.
Qed.

End PipeSpec.
Import PipeSpec.


Definition two_ends : list event := [Open 1 Reader true; Open 2 Writer true].

Definition four_bytes : option (list Z) := Some [0; 0; 0; 0].


(** Whether a thread is blocked, whether the list of blockers is empty, and whether
    the thread could go on. *)
Definition stuck (s : System) (t : positive) : bool :=
  match thread_of s t with
  | Busy _ c Blocked => bool_decide (t ∉ m_blockers s) && should_unblock (s_fifo s) c
  | _ => false
  end.

Definition look {A} (l : list event) (f : System -> A) : res (option A) :=
  let* o := events 14 (new_pipe 2 four_bytes) l in Ok (f <$> o).

(** A reader finds the pipe empty; before it blocks, a writer writes.  The reader
    then blocks without being in the list of blockers: the pipe has data and
    nothing will wake the reader. *)
Definition missed_write : list event :=
  two_ends ++ [StartRead 1 1 1 true; Run 1; StartWrite 2 2 [Some 5]; Run 2; Run 2; Run 2; Run 1].

(** Two readers block; a writer writes one byte, which wakes both. *)
Definition two_readers : list event :=
  two_ends ++ [StartRead 1 1 1 true; Run 1; Run 1; StartRead 3 1 1 true; Run 3; Run 3;
               StartWrite 2 2 [Some 5]; Run 2; Run 2; Run 2; Run 1; Run 3].

(** A writer that does not want to block finds space, which another takes. *)
Definition two_writers : list event :=
  two_ends ++ [Open 3 Writer false; StartWrite 3 3 [Some 5]; Run 3; StartWrite 2 2 [Some 6; Some 7]; Run 2; Run 2; Run 3].

(** A writer whose buffer cannot be read after its third byte; a reader makes room
    for the second turn. *)
Definition torn_write : list event :=
  two_ends ++ [StartWrite 2 2 [Some 5; Some 6; Some 7; None]; Run 2; Run 2; StartRead 1 1 2 true; Run 1; Run 1; Run 2; Run 2; Run 2].

(** A thread may block for ever on a pipe that has data; a reader may be told that
    the pipe has ended while a writer is there; a write that must not block can
    stop the kernel; a write of which a later part fails returns the number of
    another error and leaves bytes in the pipe that nobody wrote. *)
Theorem pipe_defects :
  look missed_write (fun s => (stuck s 1, m_blockers s, h_results s, contents (m_buffer (s_fifo s)))) =
    Ok (Some (true, [], [(2%positive, Returned 1)], [5])) /\
  look two_readers (fun s => (m_writers (s_fifo s), h_results s)) =
    Ok (Some (1, [(2%positive, Returned 1); (1%positive, Returned 1); (3%positive, Returned 0)])) /\
  look two_writers h_results = Fault VerifyFailed /\
  look torn_write (fun s => (h_results s, h_written s, h_read s, contents (m_buffer (s_fifo s)))) =
    Ok (Some ([(1%positive, Returned 2); (2%positive, Returned (-12))], [5; 6], [5; 6], [7; 0])).
Proof. vm_compute. split_and!; reflexivity. Qed.
