(* ===== verification/Credentials.v ===== *)
(** * Process credentials, promises and sessions

    The fields of [ProtectedProcessBase] and [Process] (Kernel/Process.h) that the
    system calls of Kernel/Syscalls/setuid.cpp, pledge.cpp and setpgid.cpp read
    and write, and those system calls.  A system call returns
    a value or an error with the process it leaves, or the process is terminated
    because it broke a promise. *)

From Stdlib Require Import String Ascii.
From stdpp Require Import gmap.
From S2P Require Import Prelude.

Module Process.

Inductive errno := EPERM | EINVAL | ESRCH | EFAULT | ENOMEM | E2BIG.

#[global] Instance errno_eq_dec : EqDecision errno.
Proof. solve_decision. Defined.

Inductive Pledge :=
  | stdio | rpath | wpath | cpath | dpath | inet | id | proc | ptrace | exec | unix | recvfd | sendfd
  | fattr | tty | chown | chroot | thread | video | accept | settime | sigaction | setkeymap | prot_exec
  | map_fixed | getkeymap.

#[global] Instance Pledge_eq_dec : EqDecision Pledge.
Proof. solve_decision. Defined.

(** [ENUMERATE_PLEDGE_PROMISES], in order, with the names. *)
Definition promises_enum : list (Pledge * string) :=
  [(stdio, "stdio"); (rpath, "rpath"); (wpath, "wpath"); (cpath, "cpath"); (dpath, "dpath"); (inet, "inet");
   (id, "id"); (proc, "proc"); (ptrace, "ptrace"); (exec, "exec"); (unix, "unix"); (recvfd, "recvfd");
   (sendfd, "sendfd"); (fattr, "fattr"); (tty, "tty"); (chown, "chown"); (chroot, "chroot"); (thread, "thread");
   (video, "video"); (accept, "accept"); (settime, "settime"); (sigaction, "sigaction"); (setkeymap, "setkeymap");
   (prot_exec, "prot_exec"); (map_fixed, "map_fixed"); (getkeymap, "getkeymap")]%string.

(** The value of an enumerator is its position. *)
Fixpoint position (l : list (Pledge * string)) (p : Pledge) : Z :=
  match l with
  | [] => 0
  | (q, _) :: l => if bool_decide (p = q) then 0 else 1 + position l p
  end.

Definition promise_bit (p : Pledge) : Z := position promises_enum p.

Record process := mkProcess {
  m_pid : Z; m_ppid : Z; m_sid : Z;
  m_uid : Z; m_euid : Z; m_suid : Z;
  m_gid : Z; m_egid : Z; m_sgid : Z;
  m_extra_gids : list Z;
  m_dumpable : bool;
  m_has_promises : bool; m_promises : Z;
  m_has_execpromises : bool; m_execpromises : Z;
  m_umask : Z;
  m_pg : option Z;
  m_tty : bool;
  m_dead : bool;
}.

Definition with_uids (p : process) (u e s : Z) : process :=
  mkProcess (m_pid p) (m_ppid p) (m_sid p) u e s (m_gid p) (m_egid p) (m_sgid p) (m_extra_gids p) (m_dumpable p)
    (m_has_promises p) (m_promises p) (m_has_execpromises p) (m_execpromises p) (m_umask p) (m_pg p) (m_tty p) (m_dead p).
Definition with_gids (p : process) (g e s : Z) : process :=
  mkProcess (m_pid p) (m_ppid p) (m_sid p) (m_uid p) (m_euid p) (m_suid p) g e s (m_extra_gids p) (m_dumpable p)
    (m_has_promises p) (m_promises p) (m_has_execpromises p) (m_execpromises p) (m_umask p) (m_pg p) (m_tty p) (m_dead p).
Definition with_extra_gids (p : process) (l : list Z) : process :=
  mkProcess (m_pid p) (m_ppid p) (m_sid p) (m_uid p) (m_euid p) (m_suid p) (m_gid p) (m_egid p) (m_sgid p) l (m_dumpable p)
    (m_has_promises p) (m_promises p) (m_has_execpromises p) (m_execpromises p) (m_umask p) (m_pg p) (m_tty p) (m_dead p).
Definition set_dumpable (p : process) (dumpable : bool) : process :=
  mkProcess (m_pid p) (m_ppid p) (m_sid p) (m_uid p) (m_euid p) (m_suid p) (m_gid p) (m_egid p) (m_sgid p)
    (m_extra_gids p) dumpable
    (m_has_promises p) (m_promises p) (m_has_execpromises p) (m_execpromises p) (m_umask p) (m_pg p) (m_tty p) (m_dead p).
Definition with_promises (p : process) (has : bool) (v : Z) : process :=
  mkProcess (m_pid p) (m_ppid p) (m_sid p) (m_uid p) (m_euid p) (m_suid p) (m_gid p) (m_egid p) (m_sgid p)
    (m_extra_gids p) (m_dumpable p)
    has v (m_has_execpromises p) (m_execpromises p) (m_umask p) (m_pg p) (m_tty p) (m_dead p).
Definition with_execpromises (p : process) (has : bool) (v : Z) : process :=
  mkProcess (m_pid p) (m_ppid p) (m_sid p) (m_uid p) (m_euid p) (m_suid p) (m_gid p) (m_egid p) (m_sgid p)
    (m_extra_gids p) (m_dumpable p)
    (m_has_promises p) (m_promises p) has v (m_umask p) (m_pg p) (m_tty p) (m_dead p).
Definition with_umask (p : process) (v : Z) : process :=
  mkProcess (m_pid p) (m_ppid p) (m_sid p) (m_uid p) (m_euid p) (m_suid p) (m_gid p) (m_egid p) (m_sgid p)
    (m_extra_gids p) (m_dumpable p)
    (m_has_promises p) (m_promises p) (m_has_execpromises p) (m_execpromises p) v (m_pg p) (m_tty p) (m_dead p).
Definition with_session (p : process) (sid : Z) (pg : option Z) (has_tty : bool) : process :=
  mkProcess (m_pid p) (m_ppid p) sid (m_uid p) (m_euid p) (m_suid p) (m_gid p) (m_egid p) (m_sgid p)
    (m_extra_gids p) (m_dumpable p)
    (m_has_promises p) (m_promises p) (m_has_execpromises p) (m_execpromises p) (m_umask p) pg has_tty (m_dead p).

Definition is_superuser (p : process) : bool := m_euid p =? 0.
Definition has_promised (p : process) (pledge : Pledge) : bool :=
  negb (Z.land (m_promises p) (Z.shiftl 1 (promise_bit pledge)) =? 0).
Definition in_group (p : process) (g : Z) : bool := (m_gid p =? g) || existsb (Z.eqb g) (m_extra_gids p).
Definition pgid (p : process) : Z := match m_pg p with Some g => g | None => 0 end.
Definition is_session_leader (p : process) : bool := m_sid p =? m_pid p.
Definition is_group_leader (p : process) : bool := pgid p =? m_pid p.

(** What a system call does to the state [S] it runs on. *)
Inductive outcome (S A : Type) :=
  | Returned (s : S) (value : A)
  | Failed (s : S) (error : errno)
  | Crashed.
Arguments Returned {S A}.
Arguments Failed {S A}.
Arguments Crashed {S A}.

Definition REQUIRE_PROMISE {S A} (p : process) (pledge : Pledge) (k : outcome S A) : outcome S A :=
  if m_has_promises p && negb (has_promised p pledge) then Crashed else k.

End Process.

Module Setuid.
Import Process.

Definition minus_one : Z := 2 ^ 32 - 1.

Definition drop_dumpable (p : process) (changed : bool) : process := if changed then set_dumpable p false else p.

Definition sys_seteuid (p : process) (new_euid : Z) : outcome process Z :=
  REQUIRE_PROMISE p id (
  if negb (new_euid =? m_uid p) && negb (new_euid =? m_suid p) && negb (is_superuser p) then Failed p EPERM
  else
    let p' := drop_dumpable p (negb (m_euid p =? new_euid)) in
    Returned (with_uids p' (m_uid p) new_euid (m_suid p)) 0).

Definition sys_setegid (p : process) (new_egid : Z) : outcome process Z :=
  REQUIRE_PROMISE p id (
  if negb (new_egid =? m_gid p) && negb (new_egid =? m_sgid p) && negb (is_superuser p) then Failed p EPERM
  else
    let p' := drop_dumpable p (negb (m_egid p =? new_egid)) in
    Returned (with_gids p' (m_gid p) new_egid (m_sgid p)) 0).

Definition sys_setuid (p : process) (new_uid : Z) : outcome process Z :=
  REQUIRE_PROMISE p id (
  if negb (new_uid =? m_uid p) && negb (new_uid =? m_euid p) && negb (is_superuser p) then Failed p EPERM
  else
    let p' := drop_dumpable p (negb (m_euid p =? new_uid)) in
    Returned (with_uids p' new_uid new_uid new_uid) 0).

Definition sys_setgid (p : process) (new_gid : Z) : outcome process Z :=
  REQUIRE_PROMISE p id (
  if negb (new_gid =? m_gid p) && negb (new_gid =? m_egid p) && negb (is_superuser p) then Failed p EPERM
  else
    let p' := drop_dumpable p (negb (m_egid p =? new_gid)) in
    Returned (with_gids p' new_gid new_gid new_gid) 0).

Definition default_id (new old : Z) : Z := if new =? minus_one then old else new.

Definition uid_ok (p : process) (i : Z) : bool := (i =? m_uid p) || (i =? m_euid p) || (i =? m_suid p).
Definition gid_ok (p : process) (i : Z) : bool := (i =? m_gid p) || (i =? m_egid p) || (i =? m_sgid p).

Definition sys_setreuid (p : process) (new_ruid new_euid : Z) : outcome process Z :=
  REQUIRE_PROMISE p id (
  let new_ruid := default_id new_ruid (m_uid p) in
  let new_euid := default_id new_euid (m_euid p) in
  if negb (uid_ok p new_ruid) || negb (uid_ok p new_euid) then Failed p EPERM
  else if (new_ruid <? minus_one) || (new_euid <? minus_one) then Failed p EINVAL
  else
    let p' := drop_dumpable p (negb (m_euid p =? new_euid)) in
    Returned (with_uids p' new_ruid new_euid (m_suid p)) 0).

Definition sys_setresuid (p : process) (new_ruid new_euid new_suid : Z) : outcome process Z :=
  REQUIRE_PROMISE p id (
  let new_ruid := default_id new_ruid (m_uid p) in
  let new_euid := default_id new_euid (m_euid p) in
  let new_suid := default_id new_suid (m_suid p) in
  if (negb (uid_ok p new_ruid) || negb (uid_ok p new_euid) || negb (uid_ok p new_suid)) && negb (is_superuser p)
  then Failed p EPERM
  else
    let p' := drop_dumpable p (negb (m_euid p =? new_euid)) in
    Returned (with_uids p' new_ruid new_euid new_suid) 0).

Definition sys_setresgid (p : process) (new_rgid new_egid new_sgid : Z) : outcome process Z :=
  REQUIRE_PROMISE p id (
  let new_rgid := default_id new_rgid (m_gid p) in
  let new_egid := default_id new_egid (m_egid p) in
  let new_sgid := default_id new_sgid (m_sgid p) in
  if (negb (gid_ok p new_rgid) || negb (gid_ok p new_egid) || negb (gid_ok p new_sgid)) && negb (is_superuser p)
  then Failed p EPERM
  else
    let p' := drop_dumpable p (negb (m_egid p =? new_egid)) in
    Returned (with_gids p' new_rgid new_egid new_sgid) 0).

(** [Vector::try_resize] with new elements zero, and the loop that fills it. *)
Definition resized (l : list Z) (n : nat) : list Z := take n l ++ replicate (n - length l) 0.

Fixpoint fill (l : list Z) (i : nat) (gid : Z) (ids : list Z) : list Z :=
  match ids with
  | [] => l
  | extra_gid :: ids => if extra_gid =? gid then fill l i gid ids else fill (<[i := extra_gid]> l) (S i) gid ids
  end.

Section Setgroups.
(** The order in which a [HashTable] gives its elements, whether the two
    allocations succeed, and what is read from user memory. *)
Context (iterate : gset Z -> list Z).

Definition sys_setgroups (p : process) (memory1 memory2 : bool) (count : Z) (user_gids : option (list Z)) : outcome process Z :=
  REQUIRE_PROMISE p id (
  if count <? 0 then Failed p EINVAL
  else if negb (is_superuser p) then Failed p EPERM
  else if count =? 0 then Returned (with_extra_gids p []) 0
  else if negb memory1 then Failed p ENOMEM
  else
    match user_gids with
    | None => Failed p EFAULT
    | Some new_extra_gids =>
        let unique_extra_gids : gset Z := list_to_set (base.filter (fun g => g <> m_gid p) new_extra_gids) in
        if negb memory2 then Failed p ENOMEM
        else
          let l := resized (m_extra_gids p) (size unique_extra_gids) in
          Returned (with_extra_gids p (fill l 0 (m_gid p) (iterate unique_extra_gids))) 0
    end).

End Setgroups.
End Setuid.

Module PledgeCall.
Import Process.

(** [String::split_view] without empty parts; [cur] holds the characters from
    [substart] on. *)
Fixpoint split_loop (separator : ascii) (s cur : string) : list string :=
  match s with
  | EmptyString => if bool_decide (cur = EmptyString) then [] else [cur]
  | String ch s =>
      if Ascii.eqb ch separator
      then (if bool_decide (cur = EmptyString) then [] else [cur]) ++ split_loop separator s EmptyString
      else split_loop separator s (cur ++ String ch EmptyString)
  end.

Definition split_view (separator : ascii) (s : string) : list string := split_loop separator s EmptyString.

(** The chain of comparisons the macro makes. *)
Fixpoint promise_of_name (l : list (Pledge * string)) (part : string) : option Pledge :=
  match l with
  | [] => None
  | (p, name) :: l => if String.eqb part name then Some p else promise_of_name l part
  end.

Fixpoint parse_parts (parts : list string) (mask : Z) : option Z :=
  match parts with
  | [] => Some mask
  | part :: parts =>
      match promise_of_name promises_enum part with
      | Some p => parse_parts parts (Z.lor mask (Z.shiftl 1 (promise_bit p)))
      | None => None
      end
  end.

Definition parse_pledge (pledge_spec : string) : option Z := parse_parts (split_view " "%char pledge_spec) 0.

(** [Syscall::StringArgument]: [characters] is null, not readable, or what
    [copy_string_from_user] copies. *)
Record StringArgument := mkStringArgument { length : Z; characters : option (option string) }.

Definition restrict (current new : Z) : bool := negb (current =? 0) && ((new =? 0) || negb (Z.land new (wrap U32 (Z.lnot current)) =? 0)).

(** The two halves of the call; a null string leaves the value alone. *)
Definition pledge_promises (p : process) (promises : option string) : outcome process Z :=
  match promises with
  | None => Returned p 0
  | Some promises =>
      match parse_pledge promises with
      | None => Failed p EINVAL
      | Some new_promises =>
          if restrict (m_promises p) new_promises then Failed p EPERM
          else Returned (with_promises p true new_promises) 0
      end
  end.

Definition pledge_execpromises (p : process) (execpromises : option string) : outcome process Z :=
  match execpromises with
  | None => Returned p 0
  | Some execpromises =>
      match parse_pledge execpromises with
      | None => Failed p EINVAL
      | Some new_execpromises =>
          if restrict (m_execpromises p) new_execpromises then Failed p EPERM
          else Returned (with_execpromises p true new_execpromises) 0
      end
  end.

Definition sys_pledge (p : process) (user_params : option (StringArgument * StringArgument)) : outcome process Z :=
  match user_params with
  | None => Failed p EFAULT
  | Some (promises, execpromises) =>
      if (1024 <? length promises) || (1024 <? length execpromises) then Failed p E2BIG
      else
        match characters promises, characters execpromises with
        | Some None, _ => Failed p EFAULT
        | _, Some None => Failed p EFAULT
        | cp, ce =>
            match pledge_promises p (mjoin cp) with
            | Returned p _ => pledge_execpromises p (mjoin ce)
            | r => r
            end
        end
  end.

End PledgeCall.

Module Sessions.
Import Process.

(** [g_processes], in the order of the list. *)
Definition processes := list process.

Fixpoint from_pid (ps : processes) (pid : Z) : option process :=
  match ps with
  | [] => None
  | p :: ps => if m_pid p =? pid then Some p else from_pid ps pid
  end.

(** The processes [for_each_in_pgrp] visits. *)
Definition in_pgrp (ps : processes) (g : Z) : processes :=
  base.filter (fun p => negb (m_dead p) && (pgid p =? g) = true) ps.

(** Storing a process that has changed. *)
Definition store (ps : processes) (p : process) : processes :=
  map (fun q => if m_pid q =? m_pid p then p else q) ps.

Definition sys_getsid (ps : processes) (this : process) (pid : Z) : outcome processes Z :=
  REQUIRE_PROMISE this proc (
  if pid =? 0 then Returned ps (m_sid this)
  else
    match from_pid ps pid with
    | None => Failed ps ESRCH
    | Some process => if negb (m_sid this =? m_sid process) then Failed ps EPERM else Returned ps (m_sid process)
    end).

Definition sys_setsid (ps : processes) (this : process) : outcome processes Z :=
  REQUIRE_PROMISE this proc (
  match in_pgrp ps (m_pid this) with
  | _ :: _ => Failed ps EPERM
  | [] => Returned (store ps (with_session this (m_pid this) (Some (m_pid this)) false)) (m_pid this)
  end).

Definition sys_getpgid (ps : processes) (this : process) (pid : Z) : outcome processes Z :=
  REQUIRE_PROMISE this proc (
  if pid =? 0 then Returned ps (pgid this)
  else
    match from_pid ps pid with
    | None => Failed ps ESRCH
    | Some process => Returned ps (pgid process)
    end).

Definition sys_getpgrp (ps : processes) (this : process) : outcome processes Z :=
  REQUIRE_PROMISE this stdio (Returned ps (pgid this)).

Definition get_sid_from_pgid (ps : processes) (g : Z) : Z :=
  match in_pgrp ps g with p :: _ => m_sid p | [] => -1 end.

Definition sys_setpgid (ps : processes) (this : process) (specified_pid specified_pgid : Z) : outcome processes Z :=
  REQUIRE_PROMISE this proc (
  let pid := if negb (specified_pid =? 0) then specified_pid else m_pid this in
  if specified_pgid <? 0 then Failed ps EINVAL
  else
    match from_pid ps pid with
    | None => Failed ps ESRCH
    | Some process =>
        if negb (m_pid process =? m_pid this) && negb (m_ppid process =? m_pid this) then Failed ps ESRCH
        else if is_session_leader process then Failed ps EPERM
        else if (m_ppid process =? m_pid this) && negb (m_sid process =? m_sid this) then Failed ps EPERM
        else
          let new_pgid := if negb (specified_pgid =? 0) then specified_pgid else m_pid process in
          let current_sid := m_sid this in
          let new_sid := get_sid_from_pgid ps new_pgid in
          if negb (new_sid =? -1) && negb (current_sid =? new_sid) then Failed ps EPERM
          else if (new_sid =? -1) && negb (new_pgid =? m_pid process) then Failed ps EPERM
          else Returned (store ps (with_session process (m_sid process) (Some new_pgid) (m_tty process))) 0
    end).

End Sessions.

(** ** Lemmas *)

Module SetuidFacts.
Import Process Setuid.

Section Facts.
Context (iterate : gset Z -> list Z).

(** The system calls that change the identity of a process. *)
Inductive id_call :=
  | Seteuid (u : Z) | Setegid (g : Z) | Setuid (u : Z) | Setgid (g : Z)
  | Setreuid (r e : Z) | Setresuid (r e s : Z) | Setresgid (r e s : Z)
  | Setgroups (memory1 memory2 : bool) (count : Z) (gids : option (list Z)).

Definition perform (p : process) (c : id_call) : outcome process Z :=
  match c with
  | Seteuid u => sys_seteuid p u
  | Setegid g => sys_setegid p g
  | Setuid u => sys_setuid p u
  | Setgid g => sys_setgid p g
  | Setreuid r e => sys_setreuid p r e
  | Setresuid r e s => sys_setresuid p r e s
  | Setresgid r e s => sys_setresgid p r e s
  | Setgroups m1 m2 count gids => sys_setgroups iterate p m1 m2 count gids
  end.

(** [None]: the process was terminated. *)
Fixpoint perform_all (p : process) (cs : list id_call) : option process :=
  match cs with
  | [] => Some p
  | c :: cs =>
      match perform p c with
      | Returned p _ | Failed p _ => perform_all p cs
      | Crashed => None
      end
  end.

Definition uids (p : process) : list Z := [m_uid p; m_euid p; m_suid p].
Definition gids (p : process) : list Z := [m_gid p; m_egid p; m_sgid p].

(** [q] has no identity that [p] does not have. *)
Definition no_more (p q : process) : Prop :=
  uids q ⊆ uids p /\ gids q ⊆ gids p /\ m_extra_gids q = m_extra_gids p.

Lemma no_more_refl p : no_more p p.
Proof. done. Qed.

Lemma no_more_trans p q r : no_more p q -> no_more q r -> no_more p r.
Proof. intros (H1 & H2 & H3) (K1 & K2 & K3). split; [by etrans|]. split; [by etrans|congruence]. Qed.

Lemma subset3 (a b c : Z) l : a ∈ l -> b ∈ l -> c ∈ l -> [a; b; c] ⊆ l.
Proof. intros. intros x. rewrite !elem_of_cons, elem_of_nil. intros [->|[->|[->|[]]]]; done. Qed.

Lemma elem3 (x a b c : Z) : x ∈ [a; b; c] <-> x = a \/ x = b \/ x = c.
Proof. rewrite !elem_of_cons, elem_of_nil. tauto. Qed.

Lemma default_id_cases new old : default_id new old = old \/ default_id new old = new.
Proof. unfold default_id. case_if; auto. Qed.

(** The identity of a process does not depend on its other fields. *)
Lemma uids_change p d u e s :
  u ∈ uids p -> e ∈ uids p -> s ∈ uids p -> no_more p (with_uids (drop_dumpable p d) u e s).
Proof. intros. destruct d; (split; [by apply subset3|done]). Qed.

Lemma gids_change p d g e s :
  g ∈ gids p -> e ∈ gids p -> s ∈ gids p -> no_more p (with_gids (drop_dumpable p d) g e s).
Proof. intros. destruct d; (split; [done|split; [by apply subset3|done]]). Qed.

Ltac known_id := unfold uids, gids, uid_ok, gid_ok in *; apply elem3; lia.

Lemma perform_no_more p c :
  m_euid p <> 0 ->
  match perform p c with
  | Returned q _ | Failed q _ => no_more p q
  | Crashed => True
  end.
Proof.
  intros Hp. assert (is_superuser p = false) as Hs by (unfold is_superuser; lia).
  destruct c as [u|g|u|g|r e|r e s|r e s|m1 m2 n l]; cbn [perform];
    unfold sys_seteuid, sys_setegid, sys_setuid, sys_setgid, sys_setreuid, sys_setresuid, sys_setresgid, sys_setgroups, REQUIRE_PROMISE;
    rewrite ?Hs; (destruct (m_has_promises p && _); [done|]); cbn [negb].
  - rewrite andb_true_r. destruct (negb (u =? m_uid p) && _) eqn:E; [done|]. apply uids_change; known_id.
  - rewrite andb_true_r. destruct (negb (g =? m_gid p) && _) eqn:E; [done|]. apply gids_change; known_id.
  - rewrite andb_true_r. destruct (negb (u =? m_uid p) && _) eqn:E; [done|]. apply uids_change; known_id.
  - rewrite andb_true_r. destruct (negb (g =? m_gid p) && _) eqn:E; [done|]. apply gids_change; known_id.
  - cbn zeta. destruct (negb (uid_ok p (default_id r _)) || _) eqn:E; [done|]. case_if; [done|]. apply uids_change; known_id.
  - cbn zeta. rewrite andb_true_r. destruct (negb (uid_ok p (default_id r _)) || _ || _) eqn:E; [done|]. apply uids_change; known_id.
  - cbn zeta. rewrite andb_true_r. destruct (negb (gid_ok p (default_id r _)) || _ || _) eqn:E; [done|]. apply gids_change; known_id.
  - case_if; done.
Qed.

Lemma perform_all_no_more p cs q : 0 ∉ uids p -> perform_all p cs = Some q -> no_more p q.
Proof.
  revert p. induction cs as [|c cs IH]; intros p Hp; cbn [perform_all]; [intros [= <-]; apply no_more_refl|].
  assert (m_euid p <> 0) as He by (intros E; apply Hp; unfold uids; rewrite E; apply elem3; auto).
  pose proof (perform_no_more p c He) as H. intros Hq.
  destruct (perform p c) as [r v|r e|]; [| |done]; (eapply no_more_trans; [exact H|]); apply IH; try done;
    destruct H as [H _]; intros Hz; by apply Hp, H.
Qed.

(** Filling the resized vector gives the elements of the table. *)
Lemma fill_spec gid ids pre : gid ∉ ids -> forall rest, List.length rest = List.length ids ->
  fill (pre ++ rest) (List.length pre) gid ids = pre ++ ids.
Proof.
  revert pre. induction ids as [|x ids IH]; intros pre Hg rest Hl; cbn [fill].
  - destruct rest; [done|]. done.
  - apply not_elem_of_cons in Hg as [Hx Hg]. replace (x =? gid) with false by lia.
    destruct rest as [|y rest]; [done|]. rewrite insert_app_r_alt, Nat.sub_diag by lia. cbn [insert list_insert].
    replace (pre ++ x :: rest) with ((pre ++ [x]) ++ rest) by by rewrite <-app_assoc.
    replace (S (List.length pre)) with (List.length (pre ++ [x])) by (rewrite length_app; cbn; lia).
    rewrite IH by (done || (cbn in Hl; lia)). by rewrite <-app_assoc.
Qed.

End Facts.
End SetuidFacts.

Module PledgeFacts.
Import Process PledgeCall.

Lemma promise_bit_range p : 0 <= promise_bit p < 26.
Proof. destruct p; vm_compute; split; congruence. Qed.

Lemma promise_bit_inj p q : promise_bit p = promise_bit q -> p = q.
Proof. destruct p, q; vm_compute; congruence. Qed.

Lemma promise_of_name_spec part p : promise_of_name promises_enum part = Some p <-> (p, part) ∈ promises_enum.
Proof.
  rewrite list_elem_of_In. split.
  - generalize promises_enum. induction l as [|[q name] l IH]; cbn; [done|].
    destruct (String.eqb_spec part name) as [->|]; [intros [= ->]; by left|intros H; right; auto].
  - intros H. cbn in H. repeat destruct H as [H|H]; try (injection H as <- <-; reflexivity). done.
Qed.

Lemma testbit_shiftl_1 n i : 0 <= n -> Z.testbit (Z.shiftl 1 n) i = (i =? n).
Proof.
  intros Hn. rewrite Z.shiftl_1_l. destruct (Z.eqb_spec i n) as [->|Hne]; [by apply Z.pow2_bits_true|].
  apply Z.pow2_bits_false. congruence.
Qed.

(** The mask of a specification: its bits are those of the names in it. *)
Lemma parse_parts_bits parts mask r :
  parse_parts parts mask = Some r ->
  (forall part, part ∈ parts -> exists p, (p, part) ∈ promises_enum) /\
  forall i, Z.testbit r i = true <-> Z.testbit mask i = true \/ exists p part, part ∈ parts /\ (p, part) ∈ promises_enum /\ promise_bit p = i.
Proof.
  revert mask. induction parts as [|part parts IH]; intros mask; cbn [parse_parts].
  - intros [= <-]. split; [by intros ? ?%elem_of_nil|]. intros i. split; [by left|]. intros [?|(p & part & []%elem_of_nil & _)]; done.
  - destruct (promise_of_name _ part) as [p|] eqn:E; [|done]. apply promise_of_name_spec in E. intros H.
    destruct (IH _ H) as [H1 H2]. split.
    + intros q [->|Hq]%elem_of_cons; [by exists p|by apply H1].
    + intros i. rewrite H2, Z.lor_spec, testbit_shiftl_1 by apply promise_bit_range. split.
      * intros [[?|Hb]%orb_true_iff|(q & x & Hx & Hq)]; [by left| |].
        -- right. exists p, part. split; [left|]. split; [done|lia].
        -- right. exists q, x. split; [by right|done].
      * intros [?|(q & x & [->|Hx]%elem_of_cons & Hq & Hi)].
        -- left. apply orb_true_iff. by left.
        -- left. apply orb_true_iff. right. assert (q = p) as -> by
             (apply promise_of_name_spec in Hq, E; congruence). lia.
        -- right. by exists q, x.
Qed.

(** Specifications with an unknown name are refused. *)
Lemma parse_parts_some parts mask :
  (forall part, part ∈ parts -> exists p, (p, part) ∈ promises_enum) -> is_Some (parse_parts parts mask).
Proof.
  revert mask. induction parts as [|part parts IH]; intros mask H; cbn [parse_parts]; [by eexists|].
  destruct (H part) as [p Hp%promise_of_name_spec]; [left|]. rewrite Hp. apply IH. intros x Hx. apply H. by right.
Qed.

Lemma bits_range r : (forall i, Z.testbit r i = true -> 0 <= i < 26) -> 0 <= r < 2 ^ 26.
Proof.
  intros H. assert (r = Z.land r (Z.ones 26)) as ->.
  { apply Z.bits_inj'. intros i Hi. rewrite Z.land_spec, Z.testbit_ones_nonneg by lia.
    destruct (Z.testbit r i) eqn:E; [|done]. specialize (H i E). symmetry. cbn. lia. }
  rewrite Z.land_ones by lia. apply Z.mod_pos_bound. lia.
Qed.

Lemma parse_pledge_range s r : parse_pledge s = Some r -> 0 <= r < 2 ^ 26.
Proof.
  intros H. apply parse_parts_bits in H as [_ H]. apply bits_range. intros i Hi.
  apply H in Hi as [Hi|(p & part & _ & _ & <-)]; [by rewrite Z.bits_0 in Hi|apply promise_bit_range].
Qed.

Definition subset_of (a b : Z) : Prop := forall i, Z.testbit a i = true -> Z.testbit b i = true.

Lemma restrict_subset current new :
  0 < current < 2 ^ 32 -> 0 <= new < 2 ^ 32 -> restrict current new = false -> 0 < new /\ subset_of new current.
Proof.
  intros Hc Hn. unfold restrict. replace (current =? 0) with false by lia. cbn [negb andb].
  intros [H1 H2]%orb_false_iff. split; [lia|]. intros i Hi. apply negb_false_iff, Z.eqb_eq in H2.
  assert (0 <= i) as Hi0 by (destruct (Z.lt_ge_cases i 0); [by rewrite Z.testbit_neg_r in Hi by done|done]).
  assert (i < 32) as Hi1.
  { destruct (Z.lt_ge_cases i 32) as [|Hge]; [done|]. rewrite Z.bits_above_log2 in Hi; [done|lia|].
    apply Z.log2_lt_pow2; [lia|]. apply Z.lt_le_trans with (2 ^ 32); [lia|]. apply Z.pow_le_mono_r; lia. }
  assert (Z.testbit (Z.land new (wrap U32 (Z.lnot current))) i = false) as H by (rewrite H2; apply Z.bits_0).
  rewrite Z.land_spec, Hi in H. cbn [andb] in H. unfold wrap in H. cbn [tmin U32 bits is_signed] in H.
  rewrite Z.sub_0_r, Z.add_0_r, Z.mod_pow2_bits_low, Z.lnot_spec in H by lia. by apply negb_false_iff in H.
Qed.

(** Promises made, with at least one left. *)
Definition promised (p : process) : Prop := m_has_promises p = true /\ 0 < m_promises p < 2 ^ 32.

Lemma pledge_promises_shrinks p s :
  promised p ->
  match pledge_promises p s with
  | Returned q _ | Failed q _ => promised q /\ subset_of (m_promises q) (m_promises p)
  | Crashed => False
  end.
Proof.
  intros Hp. assert (promised p /\ subset_of (m_promises p) (m_promises p)) as Hsame by (split; [done|by intros i]).
  unfold pledge_promises. destruct s as [s|]; [|done]. destruct (parse_pledge s) as [r|] eqn:E; [|done].
  destruct (restrict (m_promises p) r) eqn:R; [done|]. pose proof (parse_pledge_range s r E). destruct Hp as [H1 H2].
  destruct (restrict_subset (m_promises p) r) as [R1 R2]; [lia|lia|done|]. split; [split; cbn; [done|lia]|done].
Qed.

Lemma pledge_execpromises_same p s :
  match pledge_execpromises p s with
  | Returned q _ | Failed q _ => m_has_promises q = m_has_promises p /\ m_promises q = m_promises p
  | Crashed => False
  end.
Proof.
  unfold pledge_execpromises. destruct s as [s|]; [|done]. destruct (parse_pledge s); [|done]. by destruct (restrict _ _).
Qed.

Lemma sys_pledge_shrinks p params :
  promised p ->
  match sys_pledge p params with
  | Returned q _ | Failed q _ => promised q /\ subset_of (m_promises q) (m_promises p)
  | Crashed => False
  end.
Proof.
  intros Hp. assert (promised p /\ subset_of (m_promises p) (m_promises p)) as Hsame by (split; [done|by intros i]).
  unfold sys_pledge. destruct params as [[a b]|]; [|done]. case_if; [done|].
  assert (forall cp ce, match (match pledge_promises p cp with Returned p _ => pledge_execpromises p ce | r => r end) with
    | Returned q _ | Failed q _ => promised q /\ subset_of (m_promises q) (m_promises p) | Crashed => False end) as Hboth.
  { intros cp ce. pose proof (pledge_promises_shrinks p cp Hp) as H1. destruct (pledge_promises p cp) as [q v|q e|]; [|done..].
    pose proof (pledge_execpromises_same q ce) as H2. destruct H1 as [[P1 P2] P3].
    destruct (pledge_execpromises q ce); [| |done]; (destruct H2 as [E1 E2]; unfold promised; rewrite E1, E2; done). }
  destruct (characters a) as [[s|]|]; [|done|]; (destruct (characters b) as [[s'|]|]; [apply Hboth|done|apply Hboth]).
Qed.

Fixpoint pledge_all (p : process) (calls : list (option (StringArgument * StringArgument))) : option process :=
  match calls with
  | [] => Some p
  | c :: calls => match sys_pledge p c with Returned p _ | Failed p _ => pledge_all p calls | Crashed => None end
  end.

Lemma pledge_all_shrinks p calls :
  promised p -> exists q, pledge_all p calls = Some q /\ promised q /\ subset_of (m_promises q) (m_promises p).
Proof.
  revert p. induction calls as [|c calls IH]; intros p Hp; cbn [pledge_all].
  { exists p. split; [done|]. split; [done|by intros i]. }
  pose proof (sys_pledge_shrinks p c Hp) as H.
  destruct (sys_pledge p c) as [q v|q e|]; [| |done]; destruct H as [H1 H2]; destruct (IH q H1) as (r & R1 & R2 & R3);
    exists r; (split; [done|]); (split; [done|]); intros i Hi; by apply H2, R3.
Qed.

End PledgeFacts.

Module SessionFacts.
Import Process Sessions.

(** Live processes of one group are in one session; process ids are unique and
    not the session id [-1] that stands for none. *)
Record sessions_ok (ps : processes) : Prop := {
  so_pids : NoDup (map m_pid ps);
  so_groups : forall p q g, p ∈ ps -> q ∈ ps -> m_dead p = false -> m_dead q = false ->
    m_pg p = Some g -> m_pg q = Some g -> m_sid p = m_sid q;
  so_positive : forall p, p ∈ ps -> 0 < m_pid p /\ 0 <= m_sid p;
}.

Lemma elem_of_in_pgrp ps g p : p ∈ in_pgrp ps g <-> m_dead p = false /\ pgid p = g /\ p ∈ ps.
Proof. unfold in_pgrp. rewrite list_elem_of_filter, andb_true_iff, negb_true_iff, Z.eqb_eq. tauto. Qed.

Lemma from_pid_spec ps pid p : from_pid ps pid = Some p -> p ∈ ps /\ m_pid p = pid.
Proof.
  induction ps as [|q ps IH]; cbn; [done|]. case_if; [intros [= ->]; split; [left|lia]|].
  intros H. destruct (IH H). split; [by right|done].
Qed.

Lemma pid_unique ps p q : NoDup (map m_pid ps) -> p ∈ ps -> q ∈ ps -> m_pid p = m_pid q -> p = q.
Proof.
  induction ps as [|r ps IH]; cbn; intros Hn Hp Hq E; [by apply elem_of_nil in Hp|].
  apply NoDup_cons in Hn as [Hr Hn].
  assert (forall x, x ∈ ps -> m_pid x <> m_pid r) as Hne.
  { intros x Hx Hxr. apply Hr. rewrite <-Hxr. by apply list_elem_of_fmap_2. }
  apply elem_of_cons in Hp as [->|Hp], Hq as [->|Hq]; [done| | |by apply IH].
  - exfalso. by eapply Hne.
  - exfalso. by eapply Hne.
Qed.

Lemma store_pids ps p : map m_pid (store ps p) = map m_pid ps.
Proof. unfold store. rewrite map_map. apply map_ext. intros q. case_if; lia. Qed.

Lemma elem_of_store ps p x : x ∈ store ps p -> x = p \/ x ∈ ps /\ m_pid x <> m_pid p.
Proof.
  unfold store. intros (q & -> & Hq)%list_elem_of_fmap. case_if; [by left|right]. split; [done|lia].
Qed.

(** A process enters group [g] and session [sid]. *)
Lemma store_sessions_ok ps p sid g t :
  sessions_ok ps -> p ∈ ps -> 0 <= sid ->
  (forall q, q ∈ ps -> m_pid q <> m_pid p -> m_dead q = false -> m_pg q = Some g -> m_sid q = sid) ->
  sessions_ok (store ps (with_session p sid (Some g) t)).
Proof.
  intros [H1 H2 H3] Hp Hs Hg. split.
  - by rewrite store_pids.
  - intros x y h Hx Hy Dx Dy Gx Gy. apply elem_of_store in Hx as [->|[Hx Nx]], Hy as [->|[Hy Ny]]; cbn in *.
    + done.
    + injection Gx as <-. symmetry. by apply Hg.
    + injection Gy as <-. by apply Hg.
    + by apply (H2 x y h).
  - intros x [->|[Hx _]]%elem_of_store; [split; [apply (H3 p Hp)|done]|by apply H3].
Qed.

Lemma setsid_ok ps this ps' v :
  sessions_ok ps -> this ∈ ps -> sys_setsid ps this = Returned ps' v -> sessions_ok ps'.
Proof.
  intros Hok Hin. unfold sys_setsid, REQUIRE_PROMISE. case_if; [done|].
  destruct (in_pgrp ps (m_pid this)) eqn:Eg; [|done]. intros [= <- <-].
  pose proof (so_positive ps Hok this Hin). apply store_sessions_ok; [done|done|lia|].
  intros q Hq _ Dq Gq. exfalso. assert (q ∈ in_pgrp ps (m_pid this)) as Hi.
  { apply elem_of_in_pgrp. unfold pgid. by rewrite Gq. }
  rewrite Eg in Hi. by apply elem_of_nil in Hi.
Qed.

(** The session of an existing group is that of each of its live members. *)
Lemma get_sid_from_pgid_spec ps g q :
  sessions_ok ps -> g <> 0 -> q ∈ ps -> m_dead q = false -> m_pg q = Some g -> get_sid_from_pgid ps g = m_sid q.
Proof.
  intros Hok Hg Hq Dq Gq. unfold get_sid_from_pgid.
  assert (q ∈ in_pgrp ps g) as Hi by (apply elem_of_in_pgrp; unfold pgid; by rewrite Gq).
  destruct (in_pgrp ps g) as [|h l] eqn:E; [by apply elem_of_nil in Hi|].
  assert (h ∈ in_pgrp ps g) as Hh by (rewrite E; left). apply elem_of_in_pgrp in Hh as (Dh & Gh & Hh).
  apply (so_groups ps Hok h q g); try done. unfold pgid in Gh. destruct (m_pg h); congruence.
Qed.

Lemma setpgid_ok ps this a b ps' v :
  sessions_ok ps -> this ∈ ps -> sys_setpgid ps this a b = Returned ps' v -> sessions_ok ps'.
Proof.
  intros Hok Hin. unfold sys_setpgid, REQUIRE_PROMISE. case_if; [done|]. cbn zeta. destruct (Z.ltb_spec b 0); [done|].
  destruct (from_pid ps _) as [p|] eqn:Hp; [|done]. apply from_pid_spec in Hp as [Hp _].
  destruct (negb (m_pid p =? m_pid this) && negb (m_ppid p =? m_pid this)) eqn:C1; [done|].
  destruct (is_session_leader p); [done|].
  destruct ((m_ppid p =? m_pid this) && negb (m_sid p =? m_sid this)) eqn:C2; [done|].
  set (g := if negb (b =? 0) then b else m_pid p).
  destruct (negb (get_sid_from_pgid ps g =? -1) && _) eqn:C3; [done|].
  destruct ((get_sid_from_pgid ps g =? -1) && _) eqn:C4; [done|]. intros [= <- <-].
  pose proof (so_positive ps Hok p Hp). assert (m_sid p = m_sid this) as Hsid.
  { destruct (Z.eqb_spec (m_pid p) (m_pid this)) as [Epid|Epid]; [|lia].
    by rewrite (pid_unique ps p this (so_pids ps Hok) Hp Hin Epid). }
  apply store_sessions_ok; [done|done|lia|]. intros q Hq _ Dq Gq.
  assert (g <> 0) as Hg by (subst g; destruct (Z.eqb_spec b 0); cbn; lia).
  rewrite (get_sid_from_pgid_spec ps g q) in C3 by done. pose proof (so_positive ps Hok q Hq). lia.
Qed.

(** The calls of a process, by process id. *)
Inductive session_call := Setsid | Setpgid (pid pgid : Z).

Definition session_step (ps : processes) (caller : Z) (c : session_call) : processes :=
  match from_pid ps caller with
  | None => ps
  | Some this =>
      match (match c with Setsid => sys_setsid ps this | Setpgid a b => sys_setpgid ps this a b end) with
      | Returned ps' _ => ps'
      | Failed ps' _ => ps'
      | Crashed => ps
      end
  end.

Definition session_run (ps : processes) (calls : list (Z * session_call)) : processes :=
  foldl (fun ps '(caller, c) => session_step ps caller c) ps calls.

Lemma session_failed ps this c ps' e :
  (match c with Setsid => sys_setsid ps this | Setpgid a b => sys_setpgid ps this a b end) = Failed ps' e -> ps' = ps.
Proof.
  destruct c; unfold sys_setsid, sys_setpgid, REQUIRE_PROMISE; repeat case_match; congruence.
Qed.

Lemma session_step_ok ps caller c : sessions_ok ps -> sessions_ok (session_step ps caller c).
Proof.
  intros Hok. unfold session_step. destruct (from_pid ps caller) as [this|] eqn:E; [|done].
  apply from_pid_spec in E as [Hin _]. destruct (match c with Setsid => _ | _ => _ end) as [ps' v|ps' e|] eqn:E; [| |done].
  - destruct c; [by eapply setsid_ok|by eapply setpgid_ok].
  - apply session_failed in E as ->. done.
Qed.

End SessionFacts.

(** ** Properties *)

Import Process Setuid SetuidFacts PledgeCall PledgeFacts Sessions SessionFacts.

(** C20: a process none of whose user ids is root gains no identity by any
    sequence of the identity system calls: each user and group id it ends with is
    one it had, and its extra groups are unchanged. *)
Theorem no_privilege_escalation (iterate : gset Z -> list Z) (p q : process) (cs : list id_call)
    (Hp : 0 ∉ uids p) (Hq : perform_all iterate p cs = Some q) :
  uids q ⊆ uids p /\ gids q ⊆ gids p /\ m_extra_gids q = m_extra_gids p.
Proof. by apply (perform_all_no_more iterate p cs q). Qed.

(** A process of user 100 that runs a program of user 200. *)
Definition example_process : process :=
  mkProcess 7 1 1 100 200 200 20 20 20 [5] true false 0 false 0 18 (Some 1) true false.

Lemma no_privilege_escalation_witness :
  exists q, perform_all elements example_process [Seteuid 100; Setresuid 200 minus_one 100; Setuid 0; Setgroups true true 0 None] = Some q /\
    uids q = [200; 100; 100] /\ uids q ⊆ uids example_process.
Proof.
  eexists. split; [vm_compute; reflexivity|]. split; [vm_compute; reflexivity|].
  refine (proj1 (no_privilege_escalation elements example_process _
    [Seteuid 100; Setresuid 200 minus_one 100; Setuid 0; Setgroups true true 0 None] _ _)).
  - unfold uids. rewrite elem3. vm_compute. intros [H|[H|H]]; discriminate.
  - vm_compute. reflexivity.
Defined.

(** [setgroups] by the superuser with memory and readable arguments leaves
    the given groups but the process's own, each once. *)
Theorem setgroups_correct (iterate : gset Z -> list Z) (p : process) (count : Z) (new_gids : list Z)
    (Hiter : forall s, iterate s ≡ₚ elements s)
    (Hroot : m_euid p = 0) (Hpromise : m_has_promises p = false) (Hcount : 0 < count) :
  exists q, sys_setgroups iterate p true true count (Some new_gids) = Returned q 0 /\
    NoDup (m_extra_gids q) /\ (forall g, g ∈ m_extra_gids q <-> g ∈ new_gids /\ g <> m_gid p) /\
    uids q = uids p /\ gids q = gids p.
Proof.
  unfold sys_setgroups, REQUIRE_PROMISE, is_superuser. rewrite Hroot, Hpromise.
  replace (count <? 0) with false by lia. replace (count =? 0) with false by lia. cbn [andb negb Z.eqb].
  set (u := list_to_set _ : gset Z). eexists. split; [done|]. cbn [with_extra_gids m_extra_gids].
  assert (forall g, g ∈ iterate u <-> g ∈ new_gids /\ g <> m_gid p) as Hin.
  { intros g. rewrite Hiter, elem_of_elements. subst u. rewrite elem_of_list_to_set, list_elem_of_filter. tauto. }
  assert (List.length (iterate u) = size u) as Hlen by (rewrite Hiter; done).
  change 0%nat with (List.length (@nil Z)).
  replace (resized (m_extra_gids p) (size u)) with ([] ++ resized (m_extra_gids p) (size u)) by done.
  rewrite fill_spec; [|rewrite Hin; tauto|unfold resized; rewrite length_app, length_take, length_replicate; lia].
  cbn [app]. split; [rewrite Hiter; apply NoDup_elements|]. split; [apply Hin|]. done.
Qed.

Definition root_process : process := mkProcess 2 1 1 0 0 0 0 0 0 [7; 8] true false 0 false 0 18 (Some 1) true false.

Lemma setgroups_correct_witness :
  exists q, sys_setgroups elements root_process true true 4 (Some [3; 0; 4; 3]) = Returned q 0 /\
    forall g, g ∈ m_extra_gids q <-> g ∈ [3; 0; 4; 3] /\ g <> 0.
Proof.
  destruct (setgroups_correct elements root_process 4 [3; 0; 4; 3]) as (q & H1 & _ & H2 & _);
    [intros; reflexivity|reflexivity|reflexivity|lia|]. exists q. split; [exact H1|exact H2].
Defined.

(** C21: once some promises are left, no sequence of [pledge] calls, failing ones
    included, brings one back that was given up, or leaves none. *)
Theorem pledge_never_regains (p : process) (calls : list (option (StringArgument * StringArgument)))
    (Hhas : m_has_promises p = true) (Hsome : 0 < m_promises p < 2 ^ 32) :
  exists q, pledge_all p calls = Some q /\ m_has_promises q = true /\ 0 < m_promises q /\
    forall pledge, has_promised q pledge = true -> has_promised p pledge = true.
Proof.
  destruct (pledge_all_shrinks p calls (conj Hhas Hsome)) as (q & H1 & [H2 H3] & H4). exists q.
  split; [done|]. split; [done|]. split; [lia|]. intros pledge. pose proof (promise_bit_range pledge).
  assert (forall r, has_promised r pledge = Z.testbit (m_promises r) (promise_bit pledge)) as Hb.
  { intros r. unfold has_promised. rewrite Z.shiftl_1_l. destruct (Z.testbit (m_promises r) _) eqn:E.
    - destruct (Z.eqb_spec (Z.land (m_promises r) (2 ^ promise_bit pledge)) 0) as [Z0|]; [|done].
      apply (f_equal (fun z => Z.testbit z (promise_bit pledge))) in Z0.
      rewrite Z.land_spec, E, Z.pow2_bits_true, Z.bits_0 in Z0 by lia. done.
    - rewrite (proj2 (Z.eqb_eq _ 0)); [done|]. apply Z.bits_inj'. intros i Hi. rewrite Z.land_spec, Z.bits_0.
      destruct (Z.eq_dec (promise_bit pledge) i) as [<-|Hne]; [by rewrite E|]. by rewrite Z.pow2_bits_false, andb_false_r by done. }
  rewrite !Hb. apply H4.
Qed.

Definition argument (s : string) : StringArgument := mkStringArgument (Z.of_nat (String.length s)) (Some (Some s)).
Definition null_argument : StringArgument := mkStringArgument 0 None.

Lemma pledge_never_regains_witness :
  let p := with_promises root_process true 7 in
  exists q, pledge_all p [Some (argument "stdio rpath", null_argument); Some (argument "stdio exec", null_argument)] = Some q /\
    m_promises q = 3.
Proof.
  intros p.
  destruct (pledge_never_regains p [Some (argument "stdio rpath", null_argument); Some (argument "stdio exec", null_argument)])
    as (q & H & _); [reflexivity|cbn; lia|]. exists q. split; [exact H|].
  assert (pledge_all p [Some (argument "stdio rpath", null_argument); Some (argument "stdio exec", null_argument)] =
    Some (with_promises p true 3)) as E by (vm_compute; reflexivity).
  rewrite E in H. injection H as <-. reflexivity.
Defined.

(** Parsing a promise string fails exactly when a part is not the name of a
    promise, and otherwise gives the mask of the promises named. *)
Theorem parse_pledge_correct (s : string) :
  match parse_pledge s with
  | Some mask => (forall part, part ∈ split_view " " s -> exists p, (p, part) ∈ promises_enum) /\ 0 <= mask < 2 ^ 26 /\
      forall p part, (p, part) ∈ promises_enum -> Z.testbit mask (promise_bit p) = true <-> part ∈ split_view " " s
  | None => exists part, part ∈ split_view " " s /\ forall p, (p, part) ∉ promises_enum
  end.
Proof.
  destruct (parse_pledge s) as [mask|] eqn:E.
  - pose proof (parse_pledge_range s mask E). apply parse_parts_bits in E as [H1 H2]. split; [done|]. split; [done|].
    intros p part Hp. rewrite H2, Z.bits_0. split.
    + intros [?|(q & x & Hx & Hq & Hb)]; [done|]. apply promise_bit_inj in Hb as ->.
      assert (x = part) as ->; [|done]. clear - Hp Hq. rewrite list_elem_of_In in Hp, Hq.
      cbn in Hp. repeat destruct Hp as [Hp|Hp]; try (injection Hp as <- <-; cbn in Hq;
        repeat destruct Hq as [Hq|Hq]; (by injection Hq) || done). done.
    + intros Hx. right. by exists p, part.
  - destruct (decide (Forall (fun part => promise_of_name promises_enum part <> None) (split_view " " s))) as [F|F].
    + exfalso. destruct (parse_parts_some (split_view " " s) 0) as [r Hr].
      * rewrite Forall_forall in F. intros part Hpart. specialize (F part Hpart).
        destruct (promise_of_name promises_enum part) as [p|] eqn:Ep; [|done]. exists p. by apply promise_of_name_spec.
      * unfold parse_pledge in E. congruence.
    + apply not_Forall_Exists in F; [|apply _]. apply Exists_exists in F as (part & Hpart & Hn). exists part.
      split; [done|]. intros p Hp%promise_of_name_spec. apply Hn. by rewrite Hp.
Qed.

(** A process that has given up all promises with an empty string can take
    any of them again; and a call that fails on its second string has already
    replaced the promises. *)
Theorem pledge_undone_and_partial :
  (let p := with_promises root_process true 0 in
   sys_pledge root_process (Some (argument EmptyString, null_argument)) = Returned p 0 /\
   sys_pledge p (Some (argument "stdio exec id", null_argument)) = Returned (with_promises p true 577) 0) /\
  sys_pledge root_process (Some (argument "stdio", argument "nonsense")) = Failed (with_promises root_process true 1) EINVAL.
Proof. vm_compute. auto. Qed.

(** [setreuid] changes nothing and fails, whatever the arguments, unless
    both ids end up as the reserved [(uid_t)-1]. *)
Theorem setreuid_fails (p : process) (r e : Z)
    (Hids : m_uid p < minus_one \/ m_euid p < minus_one) (Hsuid : m_suid p < minus_one)
    (Hr : 0 <= r < 2 ^ 32) (He : 0 <= e < 2 ^ 32) :
  sys_setreuid p r e = Crashed \/ sys_setreuid p r e = Failed p EPERM \/ sys_setreuid p r e = Failed p EINVAL.
Proof.
  unfold sys_setreuid, REQUIRE_PROMISE. case_if; [by left|right]. cbn zeta.
  destruct (negb (uid_ok p (default_id r (m_uid p))) || _) eqn:E1; [by left|right].
  destruct ((default_id r (m_uid p) <? minus_one) || _) eqn:E2; [done|exfalso].
  unfold default_id, minus_one, uid_ok in *. destruct (r =? 2 ^ 32 - 1) eqn:Er, (e =? 2 ^ 32 - 1) eqn:Ee; lia.
Qed.

Lemma setreuid_fails_witness :
  sys_setreuid example_process 100 200 = Failed example_process EINVAL.
Proof.
  destruct (setreuid_fails example_process 100 200) as [H|[H|H]]; [left; cbn; unfold minus_one; lia|cbn; unfold minus_one; lia|lia|lia|..].
  - vm_compute in H. discriminate.
  - vm_compute in H. discriminate.
  - exact H.
Defined.

(** C22: no sequence of [setsid] and [setpgid] calls, by any processes, puts two
    live processes of one process group into different sessions. *)
Theorem groups_stay_in_session (ps : processes) (calls : list (Z * session_call))
    (Hpids : NoDup (map m_pid ps)) (Hpos : forall p, p ∈ ps -> 0 < m_pid p /\ 0 <= m_sid p)
    (Hgroups : forall p q g, p ∈ ps -> q ∈ ps -> m_dead p = false -> m_dead q = false ->
       m_pg p = Some g -> m_pg q = Some g -> m_sid p = m_sid q) :
  forall p q g, p ∈ session_run ps calls -> q ∈ session_run ps calls -> m_dead p = false -> m_dead q = false ->
    m_pg p = Some g -> m_pg q = Some g -> m_sid p = m_sid q.
Proof.
  assert (sessions_ok ps) as Hok by by split. clear Hpids Hpos Hgroups. unfold session_run.
  revert ps Hok. induction calls as [|[caller c] calls IH]; intros ps Hok; cbn [foldl]; [apply (so_groups ps Hok)|].
  apply IH. by apply session_step_ok.
Qed.

Definition shell : process := mkProcess 10 1 10 100 100 100 20 20 20 [] true false 0 false 0 18 (Some 10) true false.
Definition job : process := mkProcess 11 10 10 100 100 100 20 20 20 [] true false 0 false 0 18 (Some 10) true false.

Lemma groups_stay_in_session_witness :
  session_run [shell; job] [(10, Setpgid 11 11); (11, Setsid)] =
    [shell; with_session job 10 (Some 11) true] /\
  forall p q g, p ∈ session_run [shell; job] [(10, Setpgid 11 11); (11, Setsid)] ->
    q ∈ session_run [shell; job] [(10, Setpgid 11 11); (11, Setsid)] -> m_dead p = false -> m_dead q = false ->
    m_pg p = Some g -> m_pg q = Some g -> m_sid p = m_sid q.
Proof.
  split; [vm_compute; reflexivity|]. apply (groups_stay_in_session [shell; job] [(10, Setpgid 11 11); (11, Setsid)]).
  - repeat constructor; cbn; rewrite ?elem_of_cons, ?elem_of_nil; lia || tauto.
  - intros p. rewrite !elem_of_cons, elem_of_nil. intros [->|[->|[]]]; cbn; lia.
  - intros p q g. rewrite !elem_of_cons, !elem_of_nil. intros [->|[->|[]]] [->|[->|[]]]; by intros.
Defined.
