(* ===== verification/Mmap.v ===== *)
(** * Kernel/Syscalls/mmap.cpp: the system calls that change an address space

    [InodeMetadata] has the permission checks of a file.  [Mmap] models mmap,
    mprotect, munmap, mremap, set_mmap_name and msyscall on the address space of
    Space.  What the calls find outside of the address space is the record
    [world]: the open files and their inodes, the random numbers, whether pages
    can be committed, and the limit on path lengths of the C library. *)

From Stdlib Require Import String.
From S2P Require Import Prelude Memory Containers RangeAllocator Region Space Credentials.

Module InodeMetadata.
Import Process.

Definition S_IRUSR : Z := 256.
Definition S_IWUSR : Z := 128.
Definition S_IXUSR : Z := 64.
Definition S_IRGRP : Z := 32.
Definition S_IWGRP : Z := 16.
Definition S_IXGRP : Z := 8.
Definition S_IROTH : Z := 4.
Definition S_IWOTH : Z := 2.
Definition S_IXOTH : Z := 1.

Record InodeMetadata := mkMetadata { mode : Z; uid : Z; gid : Z }.

Section May.
Context (md : InodeMetadata) (u g : Z) (eg : list Z).

Definition may_read : bool :=
  if u =? 0 then true
  else if uid md =? u then negb (Z.land (mode md) S_IRUSR =? 0)
  else if (gid md =? g) || existsb (Z.eqb (gid md)) eg then negb (Z.land (mode md) S_IRGRP =? 0)
  else negb (Z.land (mode md) S_IROTH =? 0).

Definition may_write : bool :=
  if u =? 0 then true
  else if uid md =? u then negb (Z.land (mode md) S_IWUSR =? 0)
  else if (gid md =? g) || existsb (Z.eqb (gid md)) eg then negb (Z.land (mode md) S_IWGRP =? 0)
  else negb (Z.land (mode md) S_IWOTH =? 0).

Definition may_execute : bool :=
  if u =? 0 then true
  else if uid md =? u then negb (Z.land (mode md) S_IXUSR =? 0)
  else if (gid md =? g) || existsb (Z.eqb (gid md)) eg then negb (Z.land (mode md) S_IXGRP =? 0)
  else negb (Z.land (mode md) S_IXOTH =? 0).

End May.

Definition process_may_read (md : InodeMetadata) (p : process) : bool :=
  may_read md (m_euid p) (m_egid p) (m_extra_gids p).
Definition process_may_write (md : InodeMetadata) (p : process) : bool :=
  may_write md (m_euid p) (m_egid p) (m_extra_gids p).
Definition process_may_execute (md : InodeMetadata) (p : process) : bool :=
  may_execute md (m_euid p) (m_egid p) (m_extra_gids p).

End InodeMetadata.

Module Mmap.
Import VirtualAddress Range RangeAllocator VMObject Region Space.

Definition MAP_SHARED : Z := 0x01.
Definition MAP_PRIVATE : Z := 0x02.
Definition MAP_FIXED : Z := 0x10.
Definition MAP_ANONYMOUS : Z := 0x20.
Definition MAP_STACK : Z := 0x40.
Definition MAP_NORESERVE : Z := 0x80.
Definition MAP_RANDOMIZED : Z := 0x100.

(** A file: its size, its permissions, and whether its header is read and is that
    of a shared object. *)
Record inode := mkInode {
  i_size : Z;
  i_metadata : InodeMetadata.InodeMetadata;
  i_elf_dynamic : bool;
}.

(** An open file; [d_inode] is set when it is a file of a file system. *)
Record description := mkDescription {
  d_directory : bool;
  d_readable : bool;
  d_writable : bool;
  d_inode : option positive;
  d_path : string;
}.

Record world := mkWorld {
  w_inode : positive -> inode;
  w_file : Z -> option description;
  w_random : nat -> Z;
  w_committed : bool;
  w_path_max : Z;
}.

(** How a call ends. *)
Inductive result :=
| Returned (value : Z)
| Failed (e : error)
| Crashed.

Definition is_user_address (a : Z) : bool := a <? 0xc0000000.

Definition is_user_range (a size_ : Z) : bool :=
  if offset a size_ <? a then false else is_user_address a && is_user_address (offset a size_).

Section Calls.
Context {M : Type} `{OrderedMap M}.
Context (ensure_pte : Z -> bool) (w : world) (p : Process.process).
Implicit Types s : Space (M := M).

(** [REQUIRE_PROMISE] *)
Definition require_promise s (pledge : Process.Pledge) (k : res (Space (M := M) * result))
    : res (Space (M := M) * result) :=
  if Process.m_has_promises p && negb (Process.has_promised p pledge) then Ok (s, Crashed) else k.

(** [string.characters], and what [copy_string_from_user] reads. *)
Record string_argument := mkString { length : Z; copied : option string }.

(** Whether some region maps the object. *)
Definition is_mapped s (vmobject : positive) : bool :=
  existsb (fun r => bool_decide (m_vmobject r = vmobject)) (map_to_list (m_objects s)).*2.

(** [Inode::shared_vmobject]: the weak pointer is null once no region maps the object. *)
Definition shared_vmobject s (i : positive) : option positive :=
  match m_shared_vmobjects s !! i with
  | Some vm => if is_mapped s vm then Some vm else None
  | None => None
  end.

Definition writable_mappings s (vmobject : positive) : nat :=
  List.length (List.filter (fun r => bool_decide (m_vmobject r = vmobject) && is_writable r)
                 (map_to_list (m_objects s)).*2).

Definition executable_mappings s (vmobject : positive) : nat :=
  List.length (List.filter (fun r => bool_decide (m_vmobject r = vmobject) && is_executable r)
                 (map_to_list (m_objects s)).*2).

(** [SharedInodeVMObject::create_with_inode] *)
Definition create_shared s (i : positive) : res (Space (M := M) * positive) :=
  let size_ := wrap size_t (i_size (w_inode w i)) in
  match shared_vmobject s i with
  | Some vm => Ok (s, vm)
  | None =>
      let* vm := new_inode (SharedInode i) size_ in
      let '(s, vm) := new_vmobject s vm in
      Ok (with_vmobjects s (m_vmobjects s) (<[i := vm]> (m_shared_vmobjects s)), vm)
  end.

(** [PrivateInodeVMObject::create_with_inode] *)
Definition create_private s (i : positive) : res (Space (M := M) * positive) :=
  let* vm := new_inode (PrivateInode i) (wrap size_t (i_size (w_inode w i))) in
  Ok (new_vmobject s vm).

Definition should_make_executable_exception_for_dynamic_loader s
    (make_readable make_writable make_executable : bool) (r : Region) : res bool :=
  if negb (is_readable r && is_writable r && negb (is_executable r)) then Ok false
  else if negb (make_readable && negb make_writable && make_executable) then Ok false
  else
    let* vm := vmobject_at s (m_vmobject r) in
    if negb (is_inode vm) then Ok false
    else if negb (is_private_inode vm) then Ok false
    else
      match inode_of vm with
      | Some i => Ok (i_elf_dynamic (w_inode w i))
      | None => Ok false
      end.

Definition validate_mmap_prot s (prot : Z) (map_stack map_anonymous : bool) (region : option Region) : res bool :=
  let make_readable := has_bit prot PROT_READ in
  let make_writable := has_bit prot PROT_WRITE in
  let make_executable := has_bit prot PROT_EXEC in
  if map_anonymous && make_executable then Ok false
  else if make_writable && make_executable then Ok false
  else if map_stack && make_executable then Ok false
  else if map_stack && (negb make_readable || negb make_writable) then Ok false
  else
    match region with
    | None => Ok true
    | Some r =>
        if make_writable && has_been_executable r then Ok false
        else if make_executable && has_been_writable r then
          should_make_executable_exception_for_dynamic_loader s make_readable make_writable make_executable r
        else Ok true
    end.

Definition validate_inode_mmap_prot s (prot : Z) (i : positive) (map_shared : bool) : bool :=
  let metadata := i_metadata (w_inode w i) in
  if has_bit prot PROT_READ && negb (InodeMetadata.process_may_read metadata p) then false
  else if negb map_shared then true
  else if has_bit prot PROT_WRITE && negb (InodeMetadata.process_may_write metadata p) then false
  else
    match shared_vmobject s i with
    | None => true
    | Some vm =>
        if has_bit prot PROT_EXEC && negb (writable_mappings s vm =? 0)%nat then false
        else if has_bit prot PROT_WRITE && negb (executable_mappings s vm =? 0)%nat then false
        else true
    end.

(** [InodeFile::mmap]; the offset of the object is a [size_t]. *)
Definition inode_file_mmap s (i : positive) (path : string) (range : Range) (off prot : Z) (shared : bool)
    : res (Space (M := M) * KResultOr positive) :=
  let* (s, vmobject) := if shared then create_shared s i else create_private s i in
  allocate_region_with_vmobject ensure_pte s range vmobject (wrap size_t off) path prot shared.

(** [FileDescription::mmap]; a file that does not say otherwise cannot be mapped. *)
Definition description_mmap s (d : description) (range : Range) (off prot : Z) (shared : bool)
    : res (Space (M := M) * KResultOr positive) :=
  match d_inode d with
  | Some i => inode_file_mmap s i (d_path d) range off prot shared
  | None => Ok (s, inr ENODEV)
  end.

Record mmap_params := mkMmapParams {
  mp_addr : Z; mp_size : Z; mp_alignment : Z; mp_prot : Z; mp_flags : Z; mp_fd : Z; mp_offset : Z;
  mp_name : option string_argument;
}.

(** The checks of the arguments up to the choice of a range: an error, or the name. *)
Definition mmap_check s (params : mmap_params) : res (KResultOr (option string)) :=
  let flags := mp_flags params in
  if negb (Z.land (mp_alignment params) 0xfff =? 0) then Ok (inr EINVAL)
  else if page_round_up_would_wrap (mp_size params) then Ok (inr EINVAL)
  else
    let* size_ := page_round_up (mp_size params) in
    if negb (is_user_range (mp_addr params) size_) then Ok (inr EFAULT)
    else
      let name :=
        match mp_name params with
        | None => inl None
        | Some n =>
            if w_path_max w <? length n then inr ENAMETOOLONG
            else match copied n with Some str => inl (Some str) | None => inr EFAULT end
        end in
      match name with
      | inr e => Ok (inr e)
      | inl name =>
          if mp_size params =? 0 then Ok (inr EINVAL)
          else if negb (Z.land (mp_addr params) 0xfff =? 0) then Ok (inr EINVAL)
          else
            let map_shared := has_bit flags MAP_SHARED in
            let map_private := has_bit flags MAP_PRIVATE in
            if map_shared && map_private then Ok (inr EINVAL)
            else if negb map_shared && negb map_private then Ok (inr EINVAL)
            else if has_bit flags MAP_FIXED && has_bit flags MAP_RANDOMIZED then Ok (inr EINVAL)
            else
              let* ok := validate_mmap_prot s (mp_prot params) (has_bit flags MAP_STACK)
                           (has_bit flags MAP_ANONYMOUS) None in
              if negb ok then Ok (inr EINVAL)
              else if has_bit flags MAP_STACK && (negb map_private || negb (has_bit flags MAP_ANONYMOUS))
              then Ok (inr EINVAL)
              else Ok (inl name)
      end.

(** The choice of a range. *)
Definition mmap_range s (params : mmap_params) : res (Space (M := M) * option Range) :=
  if has_bit (mp_flags params) MAP_RANDOMIZED then
    let* size_ := page_round_up (mp_size params) in
    let* (a, range) := allocate_randomized (w_random w) (m_range_allocator s) size_ (mp_alignment params) in
    Ok (with_allocators s a (m_identity_range_allocator s), range)
  else
    let* (s, range) := allocate_range s (mp_addr params) (mp_size params) (mp_alignment params) in
    match range with
    | Some _ => Ok (s, range)
    | None =>
        if negb (mp_addr params =? 0) && negb (has_bit (mp_flags params) MAP_FIXED) then
          allocate_range s 0 (mp_size params) (mp_alignment params)
        else Ok (s, None)
    end.

(** The mapping of a file. *)
Definition mmap_file s (params : mmap_params) (range : Range) : res (Space (M := M) * KResultOr positive) :=
  let map_shared := has_bit (mp_flags params) MAP_SHARED in
  if mp_offset params <? 0 then Ok (s, inr EINVAL)
  else if negb (Z.land (wrap size_t (mp_offset params)) 0xfff =? 0) then Ok (s, inr EINVAL)
  else
    match w_file w (mp_fd params) with
    | None => Ok (s, inr EBADF)
    | Some d =>
        if d_directory d then Ok (s, inr ENODEV)
        else if negb (d_readable d) then Ok (s, inr EACCES)
        else if map_shared && (has_bit (mp_prot params) PROT_WRITE && negb (d_writable d)) then Ok (s, inr EACCES)
        else
          let allowed :=
            match d_inode d with
            | Some i => validate_inode_mmap_prot s (mp_prot params) i map_shared
            | None => true
            end in
          if negb allowed then Ok (s, inr EACCES)
          else description_mmap s d range (mp_offset params) (mp_prot params) map_shared
    end.

Definition mmap_region s (params : mmap_params) (name : option string) (range : Range)
    : res (Space (M := M) * KResultOr positive) :=
  if has_bit (mp_flags params) MAP_ANONYMOUS then
    allocate_region ensure_pte (w_committed w) s range
      (match name with Some n => n | None => "mmap"%string end) (mp_prot params)
      (negb (has_bit (mp_flags params) MAP_NORESERVE))
  else mmap_file s params range.

(** What the call sets on the new region. *)
Definition mmap_marks (params : mmap_params) (name : option string) (r : Region) : Region :=
  let r := set_mmap r true in
  let r := if has_bit (mp_flags params) MAP_SHARED then set_shared r true else r in
  let r := if has_bit (mp_flags params) MAP_STACK then set_stack r true else r in
  match name with Some n => set_name r n | None => r end.

(** [sys$mmap]; [None] when the parameters cannot be read. *)
Definition sys_mmap s (user_params : option mmap_params) : res (Space (M := M) * result) :=
  require_promise s Process.stdio (
  match user_params with
  | None => Ok (s, Failed EFAULT)
  | Some params =>
      let prot := mp_prot params in
      let check_fixed k := if has_bit prot MAP_FIXED then require_promise s Process.map_fixed k else k in
      let check_exec k := if has_bit prot PROT_EXEC then require_promise s Process.prot_exec k else k in
      check_exec (check_fixed (
        let* checked := mmap_check s params in
        match checked with
        | inr e => Ok (s, Failed e)
        | inl name =>
            let* (s, range) := mmap_range s params in
            match range with
            | None => Ok (s, Failed ENOMEM)
            | Some range =>
                let* (s, region) := mmap_region s params name range in
                match region with
                | inr e => Ok (s, Failed e)
                | inl id =>
                    let* s := update_region s id (mmap_marks params name) in
                    let* r := region_at s id in
                    Ok (s, Returned (vaddr r))
                end
            end
        end))
  end).

Definition expand_range_to_page_boundaries (address size_ : Z) : res (KResultOr Range) :=
  if page_round_up_would_wrap size_ then Ok (inr EINVAL)
  else if wrap FlatPtr (address + size_) <? address then Ok (inr EINVAL)
  else if page_round_up_would_wrap (wrap FlatPtr (address + size_)) then Ok (inr EINVAL)
  else
    let base_ := page_base address in
    let* end_ := page_round_up (wrap FlatPtr (address + size_)) in
    Ok (inl (mkRange base_ (wrap size_t (end_ - base_)))).

(** The loops that map new regions; the results are ignored. *)
Fixpoint map_all s (ids : list positive) : res (Space (M := M)) :=
  match ids with
  | [] => Ok s
  | id :: ids => let* (s, _) := map ensure_pte s id in map_all s ids
  end.

Definition set_access (prot : Z) (r : Region) : Region :=
  set_executable (set_writable (set_readable r (has_bit prot PROT_READ)) (has_bit prot PROT_WRITE))
    (has_bit prot PROT_EXEC).

(** The checks of [sys$mprotect] on a region: how the call ends, or nothing. *)
Definition mprotect_check s (prot : Z) (r : Region) : res (option result) :=
  if negb (m_mmap r) then Ok (Some (Failed EPERM))
  else
    let* vm := vmobject_at s (m_vmobject r) in
    let* ok := validate_mmap_prot s prot (m_stack r) (is_anonymous vm) (Some r) in
    if negb ok then Ok (Some (Failed EINVAL))
    else if m_access r =? prot_to_region_access_flags prot then Ok (Some (Returned 0))
    else
      match inode_of vm with
      | Some i => Ok (if validate_inode_mmap_prot s prot i (m_shared r) then None else Some (Failed EACCES))
      | None => Ok None
      end.

(** How [sys$mprotect] and [sys$munmap] cut a range out of a region: the region is
    taken out of the container and unmapped, and new regions take the place of
    what is left of it. *)
Definition carve_out s (id : positive) (range : Range) : res (Space (M := M) * positive * list positive) :=
  let* (s, region) := take_region s id in
  let* id := of_opt VerifyFailed region in
  let* s := unmap s id false in
  let* region := region_at s id in
  let* (s, new_regions) := split_region_around_range s region range in
  Ok (s, id, new_regions).

(** The part of a region that gets a protection of its own. *)
Definition mprotect_part s (id : positive) (range : Range) (prot : Z) : res (Space (M := M)) :=
  let* (s, id, adjacent_regions) := carve_out s id range in
  let* region := region_at s id in
  let new_range_offset_in_vmobject :=
    wrap size_t (m_offset_in_vmobject region + wrap size_t (base range - base (m_range region))) in
  let* (s, new_region) := allocate_split_region s region range new_range_offset_in_vmobject in
  let* s := update_region s new_region (set_access prot) in
  let* s := map_all s adjacent_regions in
  let* (s, _) := map ensure_pte s new_region in
  destroy_region s id.

(** [sys$mprotect] *)
Definition sys_mprotect s (addr size_ prot : Z) : res (Space (M := M) * result) :=
  require_promise s Process.stdio (
  let check_exec k := if has_bit prot PROT_EXEC then require_promise s Process.prot_exec k else k in
  check_exec (
  let* range_or_error := expand_range_to_page_boundaries addr size_ in
  match range_or_error with
  | inr e => Ok (s, Failed e)
  | inl range =>
      if size range =? 0 then Ok (s, Failed EINVAL)
      else if negb (is_user_range (base range) (size range)) then Ok (s, Failed EFAULT)
      else
        let* (s, whole_region) := find_region_from_range s range in
        match whole_region with
        | Some id =>
            let* r := region_at s id in
            let* ends := mprotect_check s prot r in
            match ends with
            | Some result => Ok (s, result)
            | None =>
                let* s := update_region s id (set_access prot) in
                let* s := remap ensure_pte s id in
                Ok (s, Returned 0)
            end
        | None =>
            let* old_region := find_region_containing s range in
            match old_region with
            | Some id =>
                let* r := region_at s id in
                let* ends := mprotect_check s prot r in
                match ends with
                | Some result => Ok (s, result)
                | None => let* s := mprotect_part s id range prot in Ok (s, Returned 0)
                end
            | None => Ok (s, Failed EINVAL)
            end
        end
  end)).

(** [sys$set_mmap_name]; [None] when the parameters cannot be read. *)
Definition sys_set_mmap_name s (params : option (Z * Z * string_argument)) : res (Space (M := M) * result) :=
  require_promise s Process.stdio (
  match params with
  | None => Ok (s, Failed EFAULT)
  | Some (addr, size_, name) =>
      if w_path_max w <? length name then Ok (s, Failed ENAMETOOLONG)
      else
        match copied name with
        | None => Ok (s, Failed EFAULT)
        | Some name =>
            let* range_or_error := expand_range_to_page_boundaries addr size_ in
            match range_or_error with
            | inr e => Ok (s, Failed e)
            | inl range =>
                let* (s, region) := find_region_from_range s range in
                match region with
                | None => Ok (s, Failed EINVAL)
                | Some id =>
                    let* r := region_at s id in
                    if negb (m_mmap r) then Ok (s, Failed EPERM)
                    else let* s := update_region s id (fun r => set_name r name) in Ok (s, Returned 0)
                end
            end
        end
  end).

Definition give_back s (range : Range) : res (Space (M := M)) :=
  let* a := deallocate (m_range_allocator s) range in
  Ok (with_allocators s a (m_identity_range_allocator s)).

Fixpoint all_mmap s (ids : list positive) : res bool :=
  match ids with
  | [] => Ok true
  | id :: ids => let* r := region_at s id in if m_mmap r then all_mmap s ids else Ok false
  end.

(** The loop over the regions a range intersects.  [try_append] is true when the
    regions were appended, and the call then fails. *)
Fixpoint munmap_loop s (ids : list positive) (range : Range) : res (Space (M := M) * option error) :=
  match ids with
  | [] => Ok (s, None)
  | id :: ids =>
      let* r := region_at s id in
      let* i := intersect (m_range r) range in
      if size i =? region_size r then
        let* (s, success) := deallocate_region s id in
        VERIFY success ;;
        munmap_loop s ids range
      else
        let* (s, id, new_regions) := carve_out s id range in
        let* s := destroy_region s id in
        Ok (s, Some ENOMEM)
  end.

(** [sys$munmap] *)
Definition sys_munmap s (addr size_ : Z) : res (Space (M := M) * result) :=
  require_promise s Process.stdio (
  if size_ =? 0 then Ok (s, Failed EINVAL)
  else
    let* range_or_error := expand_range_to_page_boundaries addr size_ in
    match range_or_error with
    | inr e => Ok (s, Failed e)
    | inl range =>
        if negb (is_user_range (base range) (size range)) then Ok (s, Failed EFAULT)
        else
          let* (s, whole_region) := find_region_from_range s range in
          match whole_region with
          | Some id =>
              let* r := region_at s id in
              if negb (m_mmap r) then Ok (s, Failed EPERM)
              else
                let* (s, success) := deallocate_region s id in
                VERIFY success ;;
                Ok (s, Returned 0)
          | None =>
              let* old_region := find_region_containing s range in
              match old_region with
              | Some id =>
                  let* r := region_at s id in
                  if negb (m_mmap r) then Ok (s, Failed EPERM)
                  else
                    let* (s, id, new_regions) := carve_out s id range in
                    let* s := give_back s range in
                    let* s := map_all s new_regions in
                    let* s := destroy_region s id in
                    Ok (s, Returned 0)
              | None =>
                  let* regions := find_regions_intersecting s range in
                  let* allowed := all_mmap s regions in
                  if negb allowed then Ok (s, Failed EPERM)
                  else
                    let* (s, failed) := munmap_loop s regions range in
                    match failed with
                    | Some e => Ok (s, Failed e)
                    | None => let* s := give_back s range in Ok (s, Returned 0)
                    end
              end
          end
    end).

(** [sys$mremap]; [None] when the parameters cannot be read. *)
Definition sys_mremap s (params : option (Z * Z * Z)) : res (Space (M := M) * result) :=
  require_promise s Process.stdio (
  match params with
  | None => Ok (s, Failed EFAULT)
  | Some (old_address, old_size, flags) =>
      let* range_or_error := expand_range_to_page_boundaries old_address old_size in
      match range_or_error with
      | inr e => Ok (s, Failed e)
      | inl old_range =>
          let* (s, old_region) := find_region_from_range s old_range in
          match old_region with
          | None => Ok (s, Failed EINVAL)
          | Some id =>
              let* r := region_at s id in
              let* vm := vmobject_at s (m_vmobject r) in
              if negb (m_mmap r) then Ok (s, Failed EPERM)
              else
                match m_class vm with
                | SharedInode i =>
                    if has_bit flags MAP_PRIVATE && negb (has_bit flags (Z.lor MAP_ANONYMOUS MAP_NORESERVE)) then
                      let* s := unmap s id false in
                      let* (s, success) := deallocate_region s id in
                      VERIFY success ;;
                      let* (s, new_vmobject) := create_private s i in
                      let* (s, new_region) := allocate_region_with_vmobject ensure_pte s (m_range r) new_vmobject
                        (m_offset_in_vmobject r) (m_name r) (region_access_flags_to_prot (m_access r)) false in
                      match new_region with
                      | inr e => Ok (s, Failed e)
                      | inl id =>
                          let* s := update_region s id (fun r => set_mmap r true) in
                          let* r := region_at s id in
                          Ok (s, Returned (vaddr r))
                      end
                    else Ok (s, Failed ENOTIMPL)
                | _ => Ok (s, Failed ENOTIMPL)
                end
          end
      end
  end).

(** [sys$msyscall] *)
Definition sys_msyscall s (address : Z) : res (Space (M := M) * result) :=
  if m_enforces_syscall_regions s then Ok (s, Failed EPERM)
  else if address =? 0 then Ok (set_enforces_syscall_regions s true, Returned 0)
  else if negb (is_user_address address) then Ok (s, Failed EFAULT)
  else
    let* region := find_region_containing s (mkRange address 1) in
    match region with
    | None => Ok (s, Failed EINVAL)
    | Some id =>
        let* r := region_at s id in
        if negb (m_mmap r) then Ok (s, Failed EINVAL)
        else let* s := update_region s id (fun r => set_syscall_region r true) in Ok (s, Returned 0)
    end.

End Calls.
End Mmap.
