(* ===== verification/MmapFacts.v ===== *)
(** * What the memory system calls do to the mappings of a process

    [mapping_at] is the abstract content of an address space: the page of which
    object an address shows, and what may be done with it.  The lemmas give the
    effect of each call on it, for every answer the rest of the kernel can give. *)

From Stdlib Require Import String.
From S2P Require Import Prelude Memory Containers RangeAllocator Region Space SpaceFacts SpaceSpec Credentials Mmap.
Import VirtualAddress Range RangeAllocator RangeFacts VMObject Region RegionFacts Space PageFacts SpaceFacts SpaceSpec Mmap.

Module MmapFacts.

(** What an address shows. *)
Record mapping := mkMapping {
  mg_object : positive; mg_offset : Z; mg_access : Z;
  mg_shared : bool; mg_stack : bool; mg_mmap : bool; mg_syscall : bool; mg_name : string;
}.

Definition mapping_of (r : Region) (x : Z) : mapping :=
  mkMapping (m_vmobject r) (m_offset_in_vmobject r + (x - vaddr r)) (m_access r)
    (m_shared r) (m_stack r) (m_mmap r) (m_syscall_region r) (m_name r).

(** What [mprotect] makes of a mapping. *)
Definition protected (prot : Z) (m : mapping) : mapping :=
  mkMapping (mg_object m) (mg_offset m) (protect (mg_access m) prot)
    (mg_shared m) (mg_stack m) (mg_mmap m) (mg_syscall m) (mg_name m).

Section Facts.
Context {M : Type} `{OM : OrderedMap M} `{OL : !OrderedMapLaws M}.
Context (ensure_pte : Z -> bool) (Hpte : forall a, ensure_pte a = true).
Implicit Types s : Space (M := M).

Definition mapping_at s (c : gmap Z positive) (x : Z) (m : mapping) : Prop :=
  exists id r, owns (m_objects s) c id r /\ in_region r x /\ m = mapping_of r x.

(** An address shows one thing. *)
Lemma mapping_at_fun s c x m m' :
  layout (m_objects s) (shape (m_vmobjects s)) (m_range_allocator s) c ->
  mapping_at s c x m -> mapping_at s c x m' -> m = m'.
Proof using.
  intros L (i & r & Ho & Hx & ->) (i' & r' & Ho' & Hx' & ->). destruct (decide (i = i')) as [-> |Hne].
  - by rewrite (owns_fun _ _ _ _ _ Ho Ho').
  - by destruct (ly_disjoint _ _ _ _ L i r i' r' Ho Ho' Hne x Hx).
Qed.

Lemma mapping_of_split r rg x : mapping_of (split_of r rg) x = mapping_of r x.
Proof using. unfold mapping_of, split_of. cbn. f_equal. unfold vaddr. cbn. lia. Qed.

Lemma mapping_at_region s c id r x m :
  layout (m_objects s) (shape (m_vmobjects s)) (m_range_allocator s) c ->
  owns (m_objects s) c id r -> in_region r x -> mapping_at s c x m <-> m = mapping_of r x.
Proof using.
  intros L Ho Hx. split.
  - intros Hm. apply (mapping_at_fun s c x); [done|done|]. by exists id, r.
  - intros ->. by exists id, r.
Qed.

(** The regions that [replaced] leaves, as mappings. *)
Lemma replaced_mappings s c src ranges s' c' ids x m :
  replaced s c src ranges s' c' ids ->
  mapping_at s' c' x m <-> mapping_at s c x m \/ (Exists (fun rg => in_range rg x) ranges /\ m = mapping_of src x).
Proof using.
  intros [Hk Hn Hp _ _ _ _ _ _ _]. rewrite Exists_exists. split.
  - intros (i & q & Hq & Hx & ->). destruct (Hn i q Hq) as [?|(rg & Hrg & ->)].
    + left. by exists i, q.
    + right. rewrite mapping_of_split. eauto.
  - intros [(i & q & Hq & Hx & ->)|((rg & Hrg & Hx) & ->)].
    + exists i, q. auto.
    + destruct (Hp rg Hrg) as (i & _ & Ho). exists i, (split_of src rg). by rewrite mapping_of_split.
Qed.

(** ** Mapping the regions that were made *)

(** The regions are those of before, but for whether they are mapped. *)
Record remapped s s' (c : gmap Z positive) : Prop := {
  rm_fwd : forall i q, owns (m_objects s) c i q -> exists b, owns (m_objects s') c i (with_mapped q b);
  rm_back : forall i q, owns (m_objects s') c i q -> exists b, owns (m_objects s) c i (with_mapped q b);
  rm_loose : forall i, loose c i -> m_objects s' !! i = m_objects s !! i;
  rm_vmobjects : m_vmobjects s' = m_vmobjects s;
  rm_alloc : m_range_allocator s' = m_range_allocator s;
}.

Lemma with_mapped_id q : with_mapped q (m_mapped q) = q.
Proof using. by destruct q. Qed.

Lemma with_mapped_twice q b b' : with_mapped (with_mapped q b) b' = with_mapped q b'.
Proof using. by destruct q. Qed.

Lemma remapped_refl s c : remapped s s c.
Proof using. split; try done; intros i q Hq; exists (m_mapped q); by rewrite with_mapped_id. Qed.

Lemma remapped_trans s1 s2 s3 c : remapped s1 s2 c -> remapped s2 s3 c -> remapped s1 s3 c.
Proof using.
  intros [A1 A2 A3 A4 A5] [B1 B2 B3 B4 B5]. split; try congruence.
  - intros i q (b & Hq)%A1. destruct (B1 _ _ Hq) as (b' & Hq'). exists b'. by rewrite with_mapped_twice in Hq'.
  - intros i q (b & Hq)%B2. destruct (A2 _ _ Hq) as (b' & Hq'). exists b'. by rewrite with_mapped_twice in Hq'.
  - intros i Hi. by rewrite B3, A3.
Qed.

Lemma remapped_mappings s s' c x m : remapped s s' c -> mapping_at s' c x m <-> mapping_at s c x m.
Proof using.
  intros [A1 A2 _ _ _]. split; intros (i & q & Hq & Hx & ->).
  - destruct (A2 i q Hq) as (b & Hb). by exists i, (with_mapped q b).
  - destruct (A1 i q Hq) as (b & Hb). by exists i, (with_mapped q b).
Qed.

Lemma map_remapped s c id r pending :
  state s c (id :: pending) -> owns (m_objects s) c id r ->
  exists s', map ensure_pte s id = Ok (s', true) /\ state s' c pending /\ remapped s s' c.
Proof using OL Hpte.
  intros [I P S] Ho. destruct (map_owned_ok ensure_pte Hpte s c id r pending I Ho) as (s' & E & Hst & O & V & A);
    [by apply ptes_ok_around|done|]. exists s'. split; [done|]. split; [done|].
  assert (forall i q, owns (m_objects s') c i q <->
    (i = id /\ q = with_mapped r true) \/ (owns (m_objects s) c i q /\ i <> id)) as Hw
    by (intros i q; rewrite O; by apply owns_update with r).
  split; try done.
  - intros i q Hq. destruct (decide (i = id)) as [-> |Hne].
    + exists true. rewrite (owns_fun _ _ _ _ _ Hq Ho). apply Hw. by left.
    + exists (m_mapped q). rewrite with_mapped_id. apply Hw. by right.
  - intros i q [[-> ->] |[Hq _]]%Hw.
    + exists (m_mapped r). by rewrite with_mapped_twice, with_mapped_id.
    + exists (m_mapped q). by rewrite with_mapped_id.
  - intros i Hi. rewrite O, lookup_insert_ne; [done|]. intros ->. by apply (Hi (vaddr r)), Ho.
Qed.

Lemma map_all_ok ids s c pending :
  state s c (ids ++ pending) -> (forall i, i ∈ ids -> exists q, owns (m_objects s) c i q) ->
  exists s', map_all ensure_pte s ids = Ok s' /\ state s' c pending /\ remapped s s' c.
Proof using OL Hpte.
  revert s. induction ids as [|id ids IH]; intros s Hst Hids; cbn [map_all].
  { exists s. split; [done|]. split; [done|apply remapped_refl]. }
  destruct (Hids id ltac:(left)) as (r & Ho).
  destruct (map_remapped s c id r (ids ++ pending) Hst Ho) as (s1 & -> & Hst1 & Hrm). cbn [res_bind].
  destruct (IH s1 Hst1) as (s2 & -> & Hst2 & Hrm2).
  { intros i Hi. destruct (Hids i ltac:(by right)) as (q & Hq). destruct (rm_fwd _ _ _ Hrm i q Hq) as (b & Hb). eauto. }
  exists s2. split; [done|]. split; [done|]. by apply remapped_trans with s1.
Qed.

(** ** Cutting a region *)

(** A part of a region that is not the whole of it. *)
Definition proper_part (r : Region) (rg : Range) : Prop := inside r rg /\ rg <> m_range r.

(** What is left of a region that was cut: its object, no longer in the container
    nor mapped, and a region for every remaining range. *)
Record cut s (c : gmap Z positive) (id : positive) (r : Region) (rg : Range)
    s' (c' : gmap Z positive) (ids : list positive) : Prop := {
  cu_state : state s' c' (ids ++ [id]);
  cu_loose : loose c' id;
  cu_object : m_objects s' !! id = Some (with_mapped r false);
  cu_owned : forall i, i ∈ ids -> exists q, owns (m_objects s') c' i q;
  cu_mappings : forall x m, mapping_at s' c' x m <-> mapping_at s c x m /\ ~ in_range rg x;
  cu_vacant : vacant (m_total_range (m_range_allocator s')) s' c' rg;
  cu_shape : shape (m_vmobjects s') = shape (m_vmobjects s);
  cu_alloc : m_range_allocator s' = m_range_allocator s;
}.

Lemma retired_mappings s c id r s' x m :
  layout (m_objects s) (shape (m_vmobjects s)) (m_range_allocator s) c -> owns (m_objects s) c id r ->
  (forall i q, owns (m_objects s') (delete (vaddr r) c) i q <-> owns (m_objects s) c i q /\ i <> id) ->
  mapping_at s' (delete (vaddr r) c) x m <-> mapping_at s c x m /\ ~ in_region r x.
Proof using.
  intros L Ho Hw. split.
  - intros (i & q & [Hq Hne]%Hw & Hx & ->). split; [by exists i, q|]. intros Hr.
    by apply (ly_disjoint _ _ _ _ L i q id r Hq Ho Hne x).
  - intros [(i & q & Hq & Hx & ->) Hr]. exists i, q. split; [|done]. apply Hw. split; [done|]. intros ->.
    by rewrite (owns_fun _ _ _ _ _ Hq Ho) in Hx.
Qed.

(** The ranges that remain of a region are parts of it. *)
Lemma remaining_inside total r rg parts :
  range_ok total (m_range r) -> Forall (range_ok total) parts ->
  (forall x, Exists (fun q => in_range q x) parts <-> in_range (m_range r) x /\ ~ in_range rg x) ->
  Forall (fun q => inside r q /\ forall x, in_range rg x -> ~ in_range q x) parts.
Proof using.
  intros Hr Hok Hx. rewrite Forall_forall in *. intros q Hq. specialize (Hok q Hq).
  assert (forall x, in_range q x -> in_range (m_range r) x /\ ~ in_range rg x) as Hin
    by (intros x Hqx; apply Hx, Exists_exists; by exists q).
  pose proof (ro_size _ _ Hok) as Hpos. split.
  - destruct (Hin (m_base q)) as [H1 _]; [unfold in_range; lia|].
    destruct (Hin (m_base q + m_size q - 1)) as [H2 _]; [unfold in_range; lia|].
    unfold inside, in_range in *. lia.
  - intros x H1 H2. by apply (Hin x H2).
Qed.

Lemma carve_out_ok s c id r rg :
  state s c [] -> owns (m_objects s) c id r -> range_ok (m_total_range (m_range_allocator s)) rg -> proper_part r rg ->
  (exists s' c' ids, carve_out s id rg = Ok (s', id, ids) /\ cut s c id r rg s' c' ids) \/
  (carve_out s id rg = Fault VerifyFailed /\ shared_anonymous (shape (m_vmobjects s)) r).
Proof using OL.
  intros Hst Ho Hrg [Hin Hne]. pose proof (in_layout _ _ (st_inv _ _ _ Hst)) as L.
  destruct (retire_ok s c id r Hst Ho) as (s1 & s2 & E1 & E2 & Hst2 & Hl & O & V & A).
  set (src := with_mapped r false). set (total := m_total_range (m_range_allocator s)) in *.
  pose proof (ly_good _ _ _ _ L id r Ho) as Hgood. pose proof (ly_total _ _ _ _ L) as Ht. fold total in Hgood, Ht.
  pose proof (rg_range _ _ _ Hgood) as Hr. pose proof (ai_total _ (ly_alloc _ _ _ _ L)) as Htot.
  destruct (carve_spec total Htot (m_range r) rg Hr Hrg) as (parts & Ec & Hnil & _ & Hok & Hsep & Hx & _);
    [apply Hin|apply Hin|done|].
  pose proof (remaining_inside total r rg parts Hr Hok Hx) as Hpi.
  assert (forall i q, owns (m_objects s2) (delete (vaddr r) c) i q <-> owns (m_objects s) c i q /\ i <> id) as Hw
    by (intros i q; rewrite O, owns_loose by done; by apply owns_remove).
  unfold carve_out. rewrite E1. cbn [res_bind of_opt]. rewrite E2. cbn [res_bind].
  rewrite (region_at_ok s2 id src) by (rewrite O; apply lookup_insert_eq). cbn [res_bind].
  unfold split_region_around_range. change (m_range src) with (m_range r). rewrite Ec. cbn [res_bind].
  rewrite bool_decide_true by done. cbn [verify res_bind].
  assert (Forall (may_replace src total s2 (delete (vaddr r) c)) parts) as Hmay.
  { rewrite Forall_forall in Hpi, Hok |- *. intros q Hq. destruct (Hpi q Hq) as [Hq1 _].
    split; [|done]. apply (retired_vacant s c id r s2); auto. }
  destruct (make_replacement_ok src total Ht parts s2 _ [id] Hst2) as [(s3 & c3 & ids & -> & Hst3 & Hrep)|[-> Hsa]].
  - by rewrite A.
  - rewrite V. by apply with_mapped_good.
  - done.
  - done.
  - left. cbn [res_bind]. exists s3, c3, ids. split; [done|].
    pose proof (rp_alloc _ _ _ _ _ _ _ Hrep) as A3. pose proof (rp_shape _ _ _ _ _ _ _ Hrep) as V3.
    split; try done.
    + apply (rp_loose _ _ _ _ _ _ _ Hrep); [|done]. rewrite O, lookup_insert_eq. by eexists.
    + apply (rp_objects _ _ _ _ _ _ _ Hrep). rewrite O. apply lookup_insert_eq.
    + apply Hrep.
    + intros x m. rewrite (replaced_mappings _ _ _ _ _ _ _ x m Hrep), Hx, (retired_mappings s c id r s2 x m L Ho Hw).
      change (mapping_of src x) with (mapping_of r x). fold (in_region r x). split.
      * intros [[Hm Hnr] |[[Hr' Hnrg] ->]].
        -- split; [done|]. intros Hrx. apply Hnr. unfold in_region, in_range, inside in *. lia.
        -- split; [by exists id, r|done].
      * intros [Hm Hnrg]. destruct (decide (in_region r x)) as [Hrx|Hrx]; [right|by left].
        split; [done|]. by apply (mapping_at_region s c id r x m).
    + rewrite A3, A. eapply may_replace_next; [exact Hrep| |].
      * split; [|exact Hin]. by apply (retired_vacant s c id r s2).
      * eapply Forall_impl; [exact Hpi|]. cbv beta. tauto.
    + by rewrite V3, V.
    + by rewrite A3.
  - right. split; [done|]. rewrite V in Hsa. exact Hsa.
Qed.

(** ** Unmapping *)

(** The range shows nothing any more, its addresses are available, and the rest
    is as it was. *)
Record unmapped s (c : gmap Z positive) (rg : Range) s' (c' : gmap Z positive) : Prop := {
  um_state : state s' c' [];
  um_mappings : forall x m, mapping_at s' c' x m <-> mapping_at s c x m /\ ~ in_range rg x;
  um_free : forall x, is_free (m_range_allocator s') x <-> is_free (m_range_allocator s) x \/ in_range rg x;
  um_total : m_total_range (m_range_allocator s') = m_total_range (m_range_allocator s);
  um_shape : shape (m_vmobjects s') = shape (m_vmobjects s);
  um_shared : m_shared_vmobjects s' = m_shared_vmobjects s;
}.

Lemma map_all_shared ids s s' : map_all ensure_pte s ids = Ok s' -> m_shared_vmobjects s' = m_shared_vmobjects s.
Proof using.
  revert s. induction ids as [|id ids IH]; intros s; cbn [map_all]; [by intros [= <-]|].
  destruct (map ensure_pte s id) as [[s1 b]|] eqn:E; [|done]. cbn [res_bind]. intros H1%IH.
  apply map_shared in E. congruence.
Qed.

Lemma carve_out_shared s id rg s' id' ids :
  carve_out s id rg = Ok (s', id', ids) -> m_shared_vmobjects s' = m_shared_vmobjects s.
Proof using.
  unfold carve_out. intros. keeps_shared; repeat match goal with
    | E : take_region _ _ = Ok _ |- _ => apply take_region_shared in E
    | E : unmap _ _ _ = Ok _ |- _ => apply unmap_shared in E
    | E : split_region_around_range _ _ _ = Ok _ |- _ => apply split_region_shared in E
    end; congruence.
Qed.

(** Why a call may stop the kernel once its arguments are sound: a region that
    shares anonymous memory is split, or no address is left. *)
Definition stops s (r : Region) : Prop :=
  shared_anonymous (shape (m_vmobjects s)) r \/ m_available_ranges (m_range_allocator s) = [].

Lemma munmap_part_ok s c id r rg :
  let code := let* (s, id, ids) := carve_out s id rg in
              let* s := give_back s rg in
              let* s := map_all ensure_pte s ids in
              let* s := destroy_region s id in
              Ok (s, Returned 0) in
  state s c [] -> owns (m_objects s) c id r -> range_ok (m_total_range (m_range_allocator s)) rg -> proper_part r rg ->
  (exists s' c', code = Ok (s', Returned 0) /\ unmapped s c rg s' c') \/ (code = Fault VerifyFailed /\ stops s r).
Proof using OL Hpte.
  intros code Hst Ho Hrg Hpp. subst code.
  destruct (carve_out_ok s c id r rg Hst Ho Hrg Hpp) as [(s1 & c1 & ids & E1 & Hcut)|[-> Hsa]];
    [|right; split; [done|by left]]. rewrite E1. cbn [res_bind].
  destruct Hcut as [C1 C2 C3 C4 C5 C6 C8 C9]. unfold give_back.
  destruct (decide (m_available_ranges (m_range_allocator s) = [])) as [Hnil|Hne].
  { right. rewrite give_back_full; [split; [done|by right]|rewrite C9; apply Hst|by rewrite C9|by rewrite C9]. }
  left. destruct (give_back_state s1 c1 _ rg C1 C6) as (a' & -> & Ta & Hst2 & Hf); [by rewrite C9|].
  cbn [res_bind]. set (s2 := with_allocators _ _ _) in *.
  destruct (map_all_ok ids s2 c1 [id] Hst2 C4) as (s3 & E3 & Hst3 & Hrm). rewrite E3. cbn [res_bind].
  destruct (destroy_loose_ok s3 c1 id (with_mapped r false) [] Hst3 C2) as (s4 & E4 & Hst4 & O4 & V4 & A4);
    [by rewrite (rm_loose _ _ _ Hrm)|done|]. rewrite E4. cbn [res_bind].
  exists s4, c1. split; [done|]. rewrite C9 in Hf, Ta.
  split; rewrite ?A4, ?V4, ?(rm_alloc _ _ _ Hrm), ?(rm_vmobjects _ _ _ Hrm); try done.
  - intros x m. rewrite <- C5. transitivity (mapping_at s3 c1 x m).
    + unfold mapping_at. setoid_rewrite O4. by setoid_rewrite (fun i q => owns_drop (m_objects s3) c1 id i q C2).
    + by rewrite (remapped_mappings s2 s3 c1).
  - apply carve_out_shared in E1. apply map_all_shared in E3. apply destroy_region_shared in E4.
    subst s2. fields. congruence.
Qed.

Lemma munmap_whole_ok s c id r :
  let code := let* (s, success) := deallocate_region s id in VERIFY success ;; Ok (s, Returned 0) in
  state s c [] -> owns (m_objects s) c id r ->
  (exists s' c', code = Ok (s', Returned 0) /\ unmapped s c (m_range r) s' c') \/ (code = Fault VerifyFailed /\ stops s r).
Proof using OL.
  intros code Hst Ho. subst code. pose proof (in_layout _ _ (st_inv _ _ _ Hst)) as L.
  destruct (deallocate_region_ok s c id r Hst Ho) as [(s' & c' & E & [D1 D2 D3 D4 D5])|[-> Hn]];
    [|right; split; [done|by right]].
  left. rewrite E. cbn [res_bind verify]. exists s', c'. split; [done|]. split; try done.
  - intros x m. fold (in_region r x). split.
    + intros (i & q & [Hq Hne]%D2 & Hx & ->). split; [by exists i, q|].
      intros Hr. by apply (ly_disjoint _ _ _ _ L i q id r Hq Ho Hne x).
    + intros [(i & q & Hq & Hx & ->) Hr]. exists i, q. split; [|done]. apply D2. split; [done|]. intros ->.
      by rewrite (owns_fun _ _ _ _ _ Hq Ho) in Hx.
  - by rewrite D5.
  - by apply deallocate_region_shared in E.
Qed.

(** ** Changing the protection *)

Lemma set_access_eq prot r : set_access prot r = with_access r (protect (m_access r) prot).
Proof using. by destruct r. Qed.

Lemma mapping_of_access prot r x : mapping_of (set_access prot r) x = protected prot (mapping_of r x).
Proof using. by rewrite set_access_eq. Qed.

Lemma set_access_good shapes total prot r :
  prot_wx prot -> region_good shapes total r -> region_good shapes total (set_access prot r).
Proof using.
  intros Hwx [R1 R2 R3 R4 R5]. rewrite set_access_eq.
  split; cbn [m_range m_access m_offset_in_vmobject m_vmobject m_shared with_access]; try done.
  - by apply protect_ok.
  - unfold wx_ok. destruct (protect_bits (m_access r) prot R2) as (_ & -> & -> & _). by rewrite Hwx.
Qed.

(** The range has the new protection, and the rest is as it was. *)
Record reprotected s (c : gmap Z positive) (rg : Range) (prot : Z) s' (c' : gmap Z positive) : Prop := {
  re_state : state s' c' [];
  re_mappings : forall x m, mapping_at s' c' x m <->
    (in_range rg x /\ exists m0, mapping_at s c x m0 /\ m = protected prot m0) \/
    (~ in_range rg x /\ mapping_at s c x m);
  re_alloc : m_range_allocator s' = m_range_allocator s;
  re_shape : shape (m_vmobjects s') = shape (m_vmobjects s);
  re_shared : m_shared_vmobjects s' = m_shared_vmobjects s;
}.

(** Replacing the region [r] by what [set_access] makes of it. *)
Lemma access_mappings s c id r prot s' x m :
  layout (m_objects s) (shape (m_vmobjects s)) (m_range_allocator s) c -> owns (m_objects s) c id r ->
  (forall i q, owns (m_objects s') c i q <-> (i = id /\ q = set_access prot r) \/ (owns (m_objects s) c i q /\ i <> id)) ->
  mapping_at s' c x m <->
    (in_region r x /\ exists m0, mapping_at s c x m0 /\ m = protected prot m0) \/
    (~ in_region r x /\ mapping_at s c x m).
Proof using.
  intros L Ho Hw. split.
  - intros (i & q & [[-> ->] |[Hq Hne]]%Hw & Hx & ->).
    + left. split; [exact Hx|]. exists (mapping_of r x). split; [by exists id, r|apply mapping_of_access].
    + right. split; [|by exists i, q]. intros Hr. by apply (ly_disjoint _ _ _ _ L i q id r Hq Ho Hne x).
  - intros [(Hx & m0 & Hm0 & ->) |[Hx (i & q & Hq & Hqx & ->)]].
    + apply (mapping_at_region s c id r x m0 L Ho Hx) in Hm0 as ->. exists id, (set_access prot r).
      split; [apply Hw; by left|]. split; [exact Hx|]. by rewrite mapping_of_access.
    + exists i, q. split; [|done]. apply Hw. right. split; [done|]. intros ->.
      by rewrite (owns_fun _ _ _ _ _ Hq Ho) in Hqx.
Qed.

Lemma mprotect_whole_ok s c id r prot :
  let code := let* s := update_region s id (set_access prot) in
              let* s := remap ensure_pte s id in Ok (s, Returned 0) in
  state s c [] -> owns (m_objects s) c id r -> prot_wx prot ->
  exists s', code = Ok (s', Returned 0) /\ reprotected s c (m_range r) prot s' c.
Proof using OL Hpte.
  intros code [Hinv Hptes Hset] Ho Hwx. subst code.
  assert (m_mapped r = true) as Hm by (destruct (Hset id r (proj1 Ho)) as [?%not_elem_of_nil|[_ ?]]; done).
  destruct (update_region_inv s c [] id r (set_access prot)) as (s1 & E1 & I1 & S1 & O1 & Es & Hw); try done.
  { apply set_access_good; [done|]. by apply (inv_good s c id). }
  assert (owns (m_objects s1) c id (set_access prot r)) as Ho1 by (apply Hw; by left).
  pose proof (update_region_shared _ _ _ _ E1) as Sh1. rewrite E1. cbn [res_bind]. unfold remap.
  rewrite (region_at_ok s1 id _ (proj1 Ho1)). cbn [res_bind]. change (m_mapped (set_access prot r)) with (m_mapped r).
  rewrite Hm. cbn [verify res_bind].
  destruct (map_owned_ok ensure_pte Hpte s1 c id (set_access prot r) [] I1 Ho1) as (s2 & E2 & Hst2 & O2 & V2 & A2).
  { rewrite Es. fields. intros p e Hp. destruct (Hptes p e Hp) as (Ha & i & q & Hq & Hin & Hal). split; [done|].
    destruct (decide (i = id)) as [-> |Hne]; [left; by rewrite (owns_fun _ _ _ _ _ Hq Ho) in Hin|right].
    exists i, q. split; [apply Hw; by right|done]. }
  { intros i q Hq. destruct (S1 i q Hq) as [?%not_elem_of_nil|?]; [done|by right]. }
  rewrite E2. cbn [res_bind]. exists s2. split; [done|].
  split; rewrite ?A2, ?V2; try (rewrite Es; done); [done| |].
  - intros x m. rewrite <- (access_mappings s c id r prot s1 x m (in_layout _ _ Hinv) Ho Hw).
    unfold mapping_at. rewrite O2. split; intros (i & q & Hq & Hx & ->).
    + apply (owns_update _ _ id _ (with_mapped (set_access prot r) true) i q Ho1 eq_refl) in Hq as [[-> ->] |[Hq _]]; [|by exists i, q].
      by exists id, (set_access prot r).
    + destruct (decide (i = id)) as [-> |Hne].
      * rewrite (owns_fun _ _ _ _ _ Hq Ho1) in Hx |- *. exists id, (with_mapped (set_access prot r) true).
        split; [|done]. apply (owns_update _ _ id (set_access prot r)); [done|done|by left].
      * exists i, q. split; [|done]. apply (owns_update _ _ id (set_access prot r)); [done|done|by right].
  - apply map_shared in E2. congruence.
Qed.

Lemma mprotect_part_ok s c id r rg prot :
  let code := let* s := mprotect_part ensure_pte s id rg prot in Ok (s, Returned 0) in
  state s c [] -> owns (m_objects s) c id r -> range_ok (m_total_range (m_range_allocator s)) rg -> proper_part r rg ->
  prot_wx prot ->
  (exists s' c', code = Ok (s', Returned 0) /\ reprotected s c rg prot s' c') \/
  (code = Fault VerifyFailed /\ shared_anonymous (shape (m_vmobjects s)) r).
Proof using OL Hpte.
  intros code Hst Ho Hrg Hpp Hwx. subst code. unfold mprotect_part.
  pose proof (in_layout _ _ (st_inv _ _ _ Hst)) as L. pose proof (ly_good _ _ _ _ L id r Ho) as Hgood.
  destruct (carve_out_ok s c id r rg Hst Ho Hrg Hpp) as [(s1 & c1 & ids & E1 & Hcut)|[-> Hsa]]; [|by right].
  rewrite E1. cbn [res_bind]. destruct Hcut as [C1 C2 C3 C4 C5 C6 C8 C9]. set (src := with_mapped r false) in *.
  rewrite (region_at_ok s1 id src C3). cbn [res_bind]. rewrite C9 in C6.
  assert (region_good (shape (m_vmobjects s1)) (m_total_range (m_range_allocator s)) src) as Hsrc
    by (rewrite C8; by apply with_mapped_good).
  destruct (replacement_offset src _ (ly_total _ _ _ _ L) _ rg Hsrc Hrg (proj1 Hpp)) as [_ ->].
  destruct (split_replaced src _ (ly_total _ _ _ _ L) s1 c1 _ rg _ C1 ltac:(by rewrite C9) Hsrc
    ltac:(split; [done|apply Hpp]) eq_refl) as [(s2 & c2 & id2 & E2 & Hst2 & Hrep & Ho2)|[-> Hsa]].
  2: { right. split; [done|]. by rewrite C8 in Hsa. }
  rewrite E2. cbn [res_bind]. set (part := split_of src rg) in *.
  pose proof (rp_alloc _ _ _ _ _ _ _ Hrep) as A2. pose proof (rp_shape _ _ _ _ _ _ _ Hrep) as V2.
  destruct (update_region_ok s2 c2 _ id2 part (set_access prot) Hst2 Ho2) as (s3 & E3 & Hst3 & O3 & Es3 & Hw3);
    [done|done| | |].
  { intros p e Hp Hin. rewrite (rp_ptes _ _ _ _ _ _ _ Hrep) in Hp.
    by destruct (vacant_unmapped s1 c1 _ _ rg C1 C6 p e Hp). }
  { apply set_access_good; [done|]. rewrite V2, A2, C9. by apply good_split; [|done|apply Hpp]. }
  rewrite E3. cbn [res_bind].
  assert (state s3 c2 (ids ++ [id2; id])) as Hst3'.
  { apply (state_weaken s3 c2 _ _ Hst3). intros i. rewrite !elem_of_cons, !elem_of_app, !elem_of_cons. tauto. }
  assert (forall i q, i <> id2 -> owns (m_objects s2) c2 i q -> owns (m_objects s3) c2 i q) as Hkeep
    by (intros i q Hi Hq; apply Hw3; by right).
  assert (id2 ∉ ids) as Hid2.
  { intros Hi. destruct (C4 id2 Hi) as (q & Hq & _). rewrite (rp_distinct _ _ _ _ _ _ _ Hrep id2) in Hq; [done|by left]. }
  destruct (map_all_ok ids s3 c2 [id2; id] Hst3') as (s4 & E4 & Hst4 & Hrm4).
  { intros i Hi. destruct (C4 i Hi) as (q & Hq). exists q. apply Hkeep; [by intros ->|].
    by apply (rp_keep _ _ _ _ _ _ _ Hrep). }
  rewrite E4. cbn [res_bind].
  destruct (rm_fwd _ _ _ Hrm4 id2 (set_access prot part)) as (b & Ho4); [apply Hw3; by left|].
  destruct (map_remapped s4 c2 id2 _ [id] Hst4 Ho4) as (s5 & E5 & Hst5 & Hrm5). rewrite E5. cbn [res_bind].
  pose proof (remapped_trans _ _ _ _ Hrm4 Hrm5) as Hrm.
  assert (loose c2 id) as Hl2 by (apply (rp_loose _ _ _ _ _ _ _ Hrep); [by eexists|done]).
  assert (m_objects s5 !! id = Some src) as Hid.
  { rewrite (rm_loose _ _ _ Hrm id Hl2), O3, lookup_insert_ne.
    - by apply (rp_objects _ _ _ _ _ _ _ Hrep).
    - intros ->. by apply (Hl2 (vaddr part)), Ho2. }
  destruct (destroy_loose_ok s5 c2 id src [] Hst5 Hl2 Hid eq_refl) as (s6 & E6 & Hst6 & O6 & V6 & A6).
  rewrite E6. cbn [res_bind]. left. exists s6, c2. split; [done|].
  assert (m_range_allocator s6 = m_range_allocator s) as A
    by (rewrite A6, (rm_alloc _ _ _ Hrm), Es3; fields; congruence).
  split; [done| |done| |].
  - intros x m. transitivity (mapping_at s3 c2 x m).
    { rewrite <- (remapped_mappings s3 s5 c2 x m Hrm). unfold mapping_at. setoid_rewrite O6.
      by setoid_rewrite (fun i q => owns_drop (m_objects s5) c2 id i q Hl2). }
    rewrite (access_mappings s2 c2 id2 part prot s3 x m (in_layout _ _ (st_inv _ _ _ Hst2)) Ho2 Hw3).
    change (in_region part x) with (in_range rg x).
    assert (forall m, mapping_at s2 c2 x m <-> (mapping_at s c x m /\ ~ in_range rg x) \/ (in_range rg x /\ m = mapping_of r x)) as Hm2.
    { intros m'. rewrite (replaced_mappings _ _ _ _ _ _ _ x m' Hrep), C5, Exists_cons, Exists_nil. tauto. }
    assert (in_range rg x -> forall m, mapping_at s c x m <-> m = mapping_of r x) as Hmr.
    { intros Hx m'. apply (mapping_at_region s c id r x m' L Ho). destruct Hpp as [Hin _].
      unfold in_region, in_range, inside in *. lia. }
    setoid_rewrite Hm2. split.
    + intros [(Hx & m0 & [[_ ?] |[_ ->]] & ->) |[Hx [[Hm _] |[? _]]]]; [done| |by right|done].
      left. split; [done|]. exists (mapping_of r x). split; [by apply Hmr|done].
    + intros [(Hx & m0 & Hm0 & ->) |[Hx Hm]]; [left|right; tauto].
      split; [done|]. exists m0. split; [|done]. right. split; [done|by apply Hmr].
  - rewrite V6, (rm_vmobjects _ _ _ Hrm), Es3. fields. by rewrite V2.
  - apply carve_out_shared in E1. apply allocate_split_shared in E2. apply update_region_shared in E3.
    apply map_all_shared in E4. apply map_shared in E5. apply destroy_region_shared in E6. congruence.
Qed.

(** ** The arguments of a call *)

(** The whole pages that a range of addresses touches. *)
Definition spanned (addr size_ : Z) : Range :=
  mkRange (addr - addr mod PAGE_SIZE) (pages_of (addr + size_) - (addr - addr mod PAGE_SIZE)).

Lemma spanned_pages addr size_ :
  0 <= addr -> 0 <= size_ -> addr + size_ <= 0xfffff000 ->
  let rg := spanned addr size_ in
  0 <= m_base rg /\ m_base rg mod PAGE_SIZE = 0 /\ 0 <= m_size rg /\ m_size rg mod PAGE_SIZE = 0 /\
  m_base rg <= addr /\ addr + size_ <= m_base rg + m_size rg <= 0xfffff000.
Proof using.
  intros Ha Hs He. unfold spanned, pages_of, PAGE_SIZE. cbn [m_base m_size].
  Z.to_euclidean_division_equations. lia.
Qed.

Lemma expand_range_ok addr size_ :
  0 <= addr < 2 ^ 32 -> 0 <= size_ < 2 ^ 32 ->
  expand_range_to_page_boundaries addr size_ = Ok (inr EINVAL) \/
  (expand_range_to_page_boundaries addr size_ = Ok (inl (spanned addr size_)) /\ addr + size_ <= 0xfffff000).
Proof using.
  intros Ha Hs. unfold expand_range_to_page_boundaries, page_round_up_would_wrap.
  destruct (Z.ltb_spec 0xfffff000 size_) as [|S1]; [by left|].
  destruct (Z.lt_ge_cases (addr + size_) (2 ^ 32)) as [Hlt|Hge].
  2: { left. replace (wrap FlatPtr (addr + size_)) with (addr + size_ - 2 ^ 32).
       - replace (_ <? addr) with true by lia. done.
       - unfold wrap. cbn [tmin U32 bits is_signed]. rewrite Z.sub_0_r, Z.add_0_r. apply Z.mod_unique with 1; lia. }
  rewrite wrap32 by lia. replace (_ <? addr) with false by lia.
  destruct (Z.ltb_spec 0xfffff000 (addr + size_)) as [|S2]; [by left|]. right. split; [|lia].
  rewrite page_round_up_ok by lia. cbn [res_bind]. fold (pages_of (addr + size_)).
  pose proof (spanned_pages addr size_ ltac:(lia) ltac:(lia) S2) as B. unfold spanned in *. cbn [m_base m_size] in B.
  unfold page_base. rewrite land_page_mask by lia. rewrite wrap32 by lia. done.
Qed.

Lemma user_range_ok a n :
  0 <= a -> 0 <= n -> a + n < 2 ^ 32 -> is_user_range a n = true -> a + n < 0xc0000000.
Proof using.
  intros Ha Hn Hlt. unfold is_user_range, is_user_address, offset. rewrite wrap32 by lia.
  replace (_ <? a) with false by lia. lia.
Qed.

(** What mapped a protection change may be asked for. *)
Section Permission.
Context (w : world).

(** Text relocations: a writable private mapping of a shared object. *)
Definition loader_exception s (r : Region) : Prop :=
  is_readable r = true /\ is_writable r = true /\ is_executable r = false /\
  exists i pages, shape (m_vmobjects s) !! m_vmobject r = Some (PrivateInode i, pages) /\
    i_elf_dynamic (w_inode w i) = true.

Lemma exception_ok s r mr mw me :
  is_Some (m_vmobjects s !! m_vmobject r) ->
  exists b, should_make_executable_exception_for_dynamic_loader w s mr mw me r = Ok b /\
    (b = true -> loader_exception s r).
Proof using.
  intros [vm Hvm]. unfold should_make_executable_exception_for_dynamic_loader.
  destruct (negb (is_readable r && _ && _)) eqn:E1; [by exists false|].
  destruct (negb (mr && _ && _)) eqn:E2; [by exists false|].
  unfold vmobject_at. rewrite Hvm. cbn [of_opt res_bind].
  destruct (negb (is_inode vm)); [by exists false|]. destruct (negb (is_private_inode vm)) eqn:E3; [by exists false|].
  unfold is_private_inode, inode_of in *. destruct (m_class vm) as [| |i] eqn:Ec; try done.
  eexists. split; [done|]. intros Hd. to_prop. split; [done|]. split; [done|]. split; [done|].
  exists i, (m_physical_pages vm). split; [|done]. unfold shape. by rewrite lookup_fmap, Hvm, <- Ec.
Qed.

Record may_have s (prot : Z) (r : Region) : Prop := {
  mh_wx : prot_wx prot;
  mh_written : has_bit prot PROT_EXEC = true -> has_been_writable r = true -> loader_exception s r;
  mh_executed : has_bit prot PROT_WRITE = true -> has_been_executable r = false;
  mh_anonymous : forall pages, shape (m_vmobjects s) !! m_vmobject r = Some (Anonymous, pages) ->
    has_bit prot PROT_EXEC = false;
}.

Lemma may_have_shape s s' prot r :
  shape (m_vmobjects s') = shape (m_vmobjects s) -> may_have s' prot r -> may_have s prot r.
Proof using.
  intros E [H1 H2 H3 H4]. rewrite E in H4. split; try done. intros Hx Hw.
  destruct (H2 Hx Hw) as (L1 & L2 & L3 & i & pages & L4). rewrite E in L4. repeat split; try done. eauto.
Qed.

Lemma validate_new_ok s prot st an :
  exists b, validate_mmap_prot w s prot st an None = Ok b /\
    (b = true -> prot_wx prot /\ (an = true -> has_bit prot PROT_EXEC = false)).
Proof using.
  unfold validate_mmap_prot, prot_wx. destruct (has_bit prot PROT_READ), (has_bit prot PROT_WRITE),
    (has_bit prot PROT_EXEC), st, an; cbn; eexists; (split; [done|]); done.
Qed.

Lemma validate_region_ok s prot r vm :
  m_vmobjects s !! m_vmobject r = Some vm ->
  exists b, validate_mmap_prot w s prot (m_stack r) (is_anonymous vm) (Some r) = Ok b /\
    (b = true -> may_have s prot r).
Proof using.
  intros Hvm. destruct (exception_ok s r (has_bit prot PROT_READ) (has_bit prot PROT_WRITE) (has_bit prot PROT_EXEC))
    as (b & Hb & Hexc); [by eexists|]. unfold validate_mmap_prot. rewrite Hb. clear Hb.
  destruct (is_anonymous vm && has_bit prot PROT_EXEC) eqn:E1; [by exists false|].
  destruct (has_bit prot PROT_WRITE && has_bit prot PROT_EXEC) eqn:E2; [by exists false|].
  destruct (m_stack r && has_bit prot PROT_EXEC); [by exists false|].
  destruct (m_stack r && _); [by exists false|].
  destruct (has_bit prot PROT_WRITE && has_been_executable r) eqn:E3; [by exists false|].
  assert (forall pages, shape (m_vmobjects s) !! m_vmobject r = Some (Anonymous, pages) ->
    has_bit prot PROT_EXEC = false) as Han.
  { intros pages. unfold shape. rewrite lookup_fmap, Hvm. intros [= Hc _]. unfold is_anonymous in E1. by rewrite Hc in E1. }
  assert (has_bit prot PROT_WRITE = true -> has_been_executable r = false) as Hex
    by (intros Hp; by rewrite Hp in E3).
  destruct (has_bit prot PROT_EXEC && has_been_writable r) eqn:E4.
  - exists b. split; [done|]. intros Ht. split; auto.
  - exists true. split; [done|]. intros _. split; auto. intros H1 H2. by rewrite H1, H2 in E4.
Qed.

End Permission.

(** ** mprotect *)

(** Nothing the process can see changed. *)
Record unchanged s (c : gmap Z positive) s' : Prop := {
  un_state : state s' c [];
  un_mappings : forall x m, mapping_at s' c x m <-> mapping_at s c x m;
  un_alloc : m_range_allocator s' = m_range_allocator s;
  un_shape : shape (m_vmobjects s') = shape (m_vmobjects s);
  un_shared : m_shared_vmobjects s' = m_shared_vmobjects s;
}.

Lemma unchanged_refl s c : state s c [] -> unchanged s c s.
Proof using. by split. Qed.

Lemma unchanged_cache s c cr ci : state (with_cache s cr ci) c [] -> unchanged s c (with_cache s cr ci).
Proof using. by split. Qed.

Lemma reprotected_from s0 s c rg prot s' c' :
  unchanged s0 c s -> reprotected s c rg prot s' c' -> reprotected s0 c rg prot s' c'.
Proof using.
  intros [_ U1 U2 U3 U4] [R1 R2 R3 R4 R5]. split; try congruence.
  intros x m. rewrite R2. setoid_rewrite U1. done.
Qed.

(** The protection a region already has: nothing was ever allowed. *)
Lemma same_access a prot : access_ok a = true -> a = prot_to_region_access_flags prot -> protect a prot = a.
Proof using.
  intros Ha. rewrite prot_to_access. intros E. pose proof (land7_range prot) as Hr. rewrite <- E in Hr.
  assert (a = 0) as ->.
  { assert (a = 0 \/ a = 1 \/ a = 2 \/ a = 3 \/ a = 4 \/ a = 5 \/ a = 6 \/ a = 7) as Hin by lia.
    destruct_or! Hin; [done|rewrite Hin in Ha; vm_compute in Ha; done..]. }
  assert (forall b, b = 1 \/ b = 2 \/ b = 4 -> has_bit prot b = false) as Hb.
  { intros b Hb. unfold has_bit. replace (Z.land prot b) with (Z.land (Z.land prot 7) b); [by rewrite <- E|].
    rewrite <- Z.land_assoc. by destruct Hb as [-> |[-> | ->]]. }
  unfold protect, PROT_READ, PROT_WRITE, PROT_EXEC. rewrite !Hb by tauto. done.
Qed.

Lemma same_access_reprotected s c id r rg prot :
  state s c [] -> owns (m_objects s) c id r -> inside r rg -> m_access r = prot_to_region_access_flags prot ->
  reprotected s c rg prot s c.
Proof using.
  intros Hst Ho Hin Hacc. pose proof (in_layout _ _ (st_inv _ _ _ Hst)) as L. split; try done. intros x m.
  assert (in_range rg x -> forall m, mapping_at s c x m -> protected prot m = m) as Hp.
  { intros Hx m' Hm. apply (mapping_at_region s c id r x m' L Ho) in Hm as ->.
    - unfold protected, mapping_of. cbn. by rewrite (same_access _ prot (rg_access _ _ _ (ly_good _ _ _ _ L id r Ho)) Hacc).
    - unfold in_region, in_range, inside in *. lia. }
  destruct (decide (in_range rg x)) as [Hx|Hx].
  - split; [|intros [(_ & m0 & Hm0 & ->) |[? _]]; [by rewrite (Hp Hx)|done]].
    intros Hm. left. split; [done|]. exists m. split; [done|]. by rewrite Hp.
  - split; [by right|]. intros [[? _] |[_ ?]]; done.
Qed.

Section Mprotect.
Context (w : world) (p : Process.process).

Lemma mprotect_check_ok s c id r prot :
  state s c [] -> owns (m_objects s) c id r ->
  exists o, mprotect_check w p s prot r = Ok o /\
    match o with
    | None => m_mmap r = true /\ may_have w s prot r
    | Some (Returned v) => v = 0 /\ m_mmap r = true /\ may_have w s prot r /\ m_access r = prot_to_region_access_flags prot
    | Some (Failed _) => True
    | Some Crashed => False
    end.
Proof using.
  intros Hst Ho. pose proof (st_inv _ _ _ Hst) as Hinv.
  destruct (good_object _ _ _ (in_cow _ _ Hinv) (inv_good s c id r Hinv Ho)) as (vm & Hvm & _).
  destruct (validate_region_ok w s prot r vm Hvm) as (b & Hb & Hmay).
  unfold mprotect_check. destruct (m_mmap r); cbn [negb]; [|by eexists].
  unfold vmobject_at. rewrite Hvm. cbn [of_opt res_bind]. rewrite Hb. cbn [res_bind].
  destruct b; cbn [negb]; [|by eexists]. destruct (Z.eqb_spec (m_access r) (prot_to_region_access_flags prot)).
  { eexists. split; [done|]. split_and!; auto. }
  destruct (inode_of vm) as [i|]; [destruct (validate_inode_mmap_prot w p s prot i (m_shared r))|];
    eexists; (split; [done|]); cbv beta iota; auto.
Qed.

(** The outcome of [sys$mprotect]. *)
Definition mprotect_outcome s (c : gmap Z positive) (addr size_ prot : Z) (o : res (Space (M := M) * result)) : Prop :=
  let rg := spanned addr size_ in
  match o with
  | Ok (s', Returned v) => v = 0 /\ exists c' id r,
      owns (m_objects s) c id r /\ inside r rg /\ m_mmap r = true /\ may_have w s prot r /\
      reprotected s c rg prot s' c'
  | Ok (s', _) => unchanged s c s'
  | Fault f => f = VerifyFailed /\ exists id r,
      owns (m_objects s) c id r /\ proper_part r rg /\ shared_anonymous (shape (m_vmobjects s)) r
  end.

Lemma region_range_ok s c id r rg :
  state s c [] -> owns (m_objects s) c id r -> inside r rg -> 0 < m_size rg ->
  m_base rg mod PAGE_SIZE = 0 -> m_size rg mod PAGE_SIZE = 0 ->
  range_ok (m_total_range (m_range_allocator s)) rg.
Proof using.
  intros Hst Ho [H1 H2] Hpos P1 P2. destruct (rg_range _ _ _ (inv_good s c id r (st_inv _ _ _ Hst) Ho)).
  split; try done; lia.
Qed.

(** The lookup of a whole region by an aligned range. *)
Lemma whole_range rg r n :
  page_round_up (size rg) = Ok n -> n = region_size r -> base rg = vaddr r -> 0 <= m_size rg <= 0xfffff000 ->
  m_size rg mod PAGE_SIZE = 0 -> rg = m_range r.
Proof using.
  intros E -> Hb Hs Hm. unfold size in E. rewrite page_round_up_aligned in E by done. injection E as E.
  destruct rg as [b n]. unfold vaddr, base, region_size, size in *. destruct (m_range r). cbn in *. congruence.
Qed.

Lemma sys_mprotect_ok s c addr size_ prot :
  state s c [] -> 0 <= addr < 2 ^ 32 -> 0 <= size_ < 2 ^ 32 ->
  mprotect_outcome s c addr size_ prot (sys_mprotect ensure_pte w p s addr size_ prot).
Proof using OL Hpte.
  intros Hst Ha Hs. pose proof (unchanged_refl s c Hst) as Hun. unfold sys_mprotect, require_promise.
  destruct (_ && _); [exact Hun|]. destruct (has_bit prot PROT_EXEC && (Process.m_has_promises p && negb (Process.has_promised p Process.prot_exec))) eqn:Ex.
  { apply andb_prop in Ex as [-> ->]. exact Hun. }
  set (k := let* range_or_error := _ in _). enough (mprotect_outcome s c addr size_ prot k) as Hk.
  { destruct (has_bit prot PROT_EXEC); [|exact Hk]. cbn [andb] in Ex. by rewrite Ex. }
  subst k. clear Ex.
  destruct (expand_range_ok addr size_ Ha Hs) as [-> |[-> Hend]]; [exact Hun|]. cbn [res_bind].
  destruct (spanned_pages addr size_) as (B1 & B2 & B3 & B4 & B5 & B6); [lia..|].
  unfold mprotect_outcome. set (rg := spanned addr size_) in *. unfold size, base in *.
  destruct (Z.eqb_spec (m_size rg) 0) as [|Hnz]; [exact Hun|]. assert (0 < m_size rg) as Hpos by lia.
  destruct (negb (is_user_range (m_base rg) (m_size rg))); [exact Hun|].
  destruct (find_region_from_range_ok s c rg Hst) as (s1 & o & -> & Ho); [unfold size; lia|]. cbn [res_bind].
  destruct o as [id|].
  - destruct Ho as (r & Ho & Hb & Hsz & Hst1 & cr & ci & ->).
    assert (rg = m_range r) as Erg by (apply (whole_range rg r (region_size r)); try done; lia).
    assert (inside r rg) as Hin by (rewrite Erg; unfold inside; lia).
    pose proof (unchanged_cache s c cr ci Hst1) as Hun1. set (s1 := with_cache s cr ci) in *.
    assert (owns (m_objects s1) c id r) as Ho1 by exact Ho.
    rewrite (region_at_ok s1 id r (proj1 Ho1)). cbn [res_bind].
    destruct (mprotect_check_ok s1 c id r prot Hst1 Ho1) as (o & -> & Hc). cbn [res_bind].
    pose proof (may_have_shape w s s1 prot r eq_refl) as Hms. destruct o as [[v|e|]|].
    + destruct Hc as (-> & Hm & Hmay & Hacc). split; [done|]. exists c, id, r. do 4 (split; [by auto|]).
      apply (reprotected_from s s1); [done|]. by apply (same_access_reprotected s1 c id r).
    + done.
    + done.
    + destruct Hc as (Hm & Hmay).
      destruct (mprotect_whole_ok s1 c id r prot Hst1 Ho1 (mh_wx _ _ _ _ Hmay)) as (s2 & E & Hre).
      rewrite E. split; [done|]. exists c, id, r. do 4 (split; [by auto|]).
      apply (reprotected_from s s1); [done|]. by rewrite Erg.
  - destruct Ho as [-> Hno].
    destruct (find_region_containing_ok s c rg Hst) as (o & -> & Ho); [lia|lia|]. cbn [res_bind].
    destruct o as [id|]; [|exact Hun]. destruct Ho as (r & Ho & Hin).
    assert (proper_part r rg) as Hpp.
    { split; [done|]. intros E. apply (Hno id r Ho); [unfold base; by rewrite E|]. unfold size.
      rewrite page_round_up_aligned by (done || lia). by rewrite E. }
    rewrite (region_at_ok s id r (proj1 Ho)). cbn [res_bind].
    destruct (mprotect_check_ok s c id r prot Hst Ho) as (o & -> & Hc). cbn [res_bind].
    destruct o as [[v|e|]|].
    + destruct Hc as (-> & Hm & Hmay & Hacc). split; [done|]. exists c, id, r. do 4 (split; [done|]).
      by apply (same_access_reprotected s c id r).
    + exact Hun.
    + done.
    + destruct Hc as (Hm & Hmay).
      destruct (mprotect_part_ok s c id r rg prot Hst Ho) as [(s2 & c2 & E & Hre)|[E Hsa]];
        [by apply (region_range_ok s c id r)|done|apply Hmay| |].
      * rewrite E. split; [done|]. exists c2, id, r. done.
      * rewrite E. split; [done|]. by exists id, r.
Qed.

End Mprotect.

(** ** munmap *)

Section Munmap.
Context (p : Process.process).

(** The outcome of [sys$munmap] for a range inside a region. *)
Definition munmap_outcome s (c : gmap Z positive) (addr size_ : Z) (o : res (Space (M := M) * result)) : Prop :=
  let rg := spanned addr size_ in
  match o with
  | Ok (s', Returned v) => v = 0 /\ exists c' id r,
      owns (m_objects s) c id r /\ inside r rg /\ m_mmap r = true /\ unmapped s c rg s' c'
  | Ok (s', _) => unchanged s c s'
  | Fault f => f = VerifyFailed /\ exists id r, owns (m_objects s) c id r /\ inside r rg /\ stops s r
  end.

Lemma unmapped_from s0 s c rg s' c' : unchanged s0 c s -> unmapped s c rg s' c' -> unmapped s0 c rg s' c'.
Proof using.
  intros [_ U1 U2 U3 U4] [R1 R2 R3 R4 R5 R6]. split; try congruence.
  - intros x m. by rewrite R2, U1.
  - intros x. by rewrite R3, U2.
Qed.

Lemma sys_munmap_ok s c addr size_ :
  state s c [] -> 0 <= addr < 2 ^ 32 -> 0 <= size_ < 2 ^ 32 ->
  (exists id r, owns (m_objects s) c id r /\ inside r (spanned addr size_)) ->
  munmap_outcome s c addr size_ (sys_munmap ensure_pte p s addr size_).
Proof using OL Hpte.
  intros Hst Ha Hs Hwithin. pose proof (unchanged_refl s c Hst) as Hun. unfold sys_munmap, require_promise.
  destruct (_ && _); [exact Hun|]. destruct (Z.eqb_spec size_ 0) as [|Hsz0]; [exact Hun|].
  destruct (expand_range_ok addr size_ Ha Hs) as [-> |[-> Hend]]; [exact Hun|]. cbn [res_bind].
  destruct (spanned_pages addr size_) as (B1 & B2 & B3 & B4 & B5 & B6); [lia..|].
  unfold munmap_outcome. set (rg := spanned addr size_) in *. unfold size, base in *.
  assert (0 < m_size rg) as Hpos by lia.
  destruct (negb (is_user_range (m_base rg) (m_size rg))); [exact Hun|].
  destruct (find_region_from_range_ok s c rg Hst) as (s1 & o & -> & Ho); [unfold size; lia|]. cbn [res_bind].
  destruct o as [id|].
  - destruct Ho as (r & Ho & Hb & Hsz & Hst1 & cr & ci & ->).
    assert (rg = m_range r) as Erg by (apply (whole_range rg r (region_size r)); try done; lia).
    assert (inside r rg) as Hin by (rewrite Erg; unfold inside; lia).
    pose proof (unchanged_cache s c cr ci Hst1) as Hun1. set (s1 := with_cache s cr ci) in *.
    assert (owns (m_objects s1) c id r) as Ho1 by exact Ho.
    rewrite (region_at_ok s1 id r (proj1 Ho1)). cbn [res_bind].
    destruct (m_mmap r) eqn:Em; cbn [negb]; [|exact Hun1].
    destruct (munmap_whole_ok s1 c id r Hst1 Ho1) as [(s2 & c2 & E & Hum)|[E Hsa]]; rewrite E.
    + split; [done|]. exists c2, id, r. do 3 (split; [done|]). apply (unmapped_from s s1); [done|]. by rewrite Erg.
    + split; [done|]. by exists id, r.
  - destruct Ho as [-> Hno].
    destruct (find_region_containing_ok s c rg Hst) as (o & -> & Ho); [lia|lia|]. cbn [res_bind].
    destruct o as [id|].
    2: { destruct Hwithin as (id & r & Hor & Hin). by apply (Ho id r) in Hin. }
    destruct Ho as (r & Ho & Hin).
    assert (proper_part r rg) as Hpp.
    { split; [done|]. intros E. apply (Hno id r Ho); [unfold base; by rewrite E|]. unfold size.
      rewrite page_round_up_aligned by (done || lia). by rewrite E. }
    rewrite (region_at_ok s id r (proj1 Ho)). cbn [res_bind].
    destruct (m_mmap r) eqn:Em; cbn [negb]; [|exact Hun].
    destruct (munmap_part_ok s c id r rg Hst Ho) as [(s2 & c2 & E & Hum)|[E Hsa]];
      [by apply (region_range_ok s c id r)|done| |]; rewrite E.
    + split; [done|]. by exists c2, id, r.
    + split; [done|]. by exists id, r.
Qed.

End Munmap.

(** ** mmap *)

Section MmapCall.
Context (w : world) (p : Process.process).

(** The table of shared objects has objects of the inodes. *)
Definition shared_ok s : Prop :=
  forall i vm, m_shared_vmobjects s !! i = Some vm ->
    exists pages, shape (m_vmobjects s) !! vm = Some (SharedInode i, pages).

Lemma new_vmobject_state s c id vm sh :
  state s c [] -> m_vmobjects s !! id = None -> m_cow_map vm = None ->
  state (with_vmobjects s (<[id := vm]> (m_vmobjects s)) sh) c [] /\
  shape (m_vmobjects s) ⊆ shape (<[id := vm]> (m_vmobjects s)) /\
  shape (<[id := vm]> (m_vmobjects s)) !! id = Some (m_class vm, m_physical_pages vm).
Proof using.
  intros [[I1 I2 I3 I4] Hptes Hset] Hn Hm. destruct (shape_new (m_vmobjects s) id vm Hn) as [E Hsub].
  split; [|split; [done|rewrite E; apply lookup_insert_eq]]. split; [split|..]; fields; try done.
  - by apply layout_mono with (shape (m_vmobjects s)).
  - by apply cow_new.
Qed.

Lemma new_inode_ok cls n : exists pages, new_inode cls n = Ok (mkVMObject cls pages None).
Proof using. unfold new_inode, ceil_div. cbn [PAGE_SIZE Z.eqb negb defined res_bind]. by eexists. Qed.

(** What making an object changes. *)
Record with_object s (c : gmap Z positive) s' (vm : positive) (cls : class) : Prop := {
  wo_state : state s' c [];
  wo_objects : m_objects s' = m_objects s;
  wo_alloc : m_range_allocator s' = m_range_allocator s;
  wo_shapes : shape (m_vmobjects s) ⊆ shape (m_vmobjects s');
  wo_object : exists pages, shape (m_vmobjects s') !! vm = Some (cls, pages);
  wo_shared : shared_ok s';
}.

Lemma shared_ok_mono s sh v :
  shared_ok s -> shape (m_vmobjects s) ⊆ shape v -> sh = m_shared_vmobjects s ->
  shared_ok (with_vmobjects s v sh).
Proof using.
  intros Hs Hsub -> i vm Hi. fields. destruct (Hs i vm Hi) as (pages & Hp). exists pages. by eapply lookup_weaken.
Qed.

Lemma create_private_ok s c i :
  state s c [] -> shared_ok s ->
  exists s' vm, create_private w s i = Ok (s', vm) /\ with_object s c s' vm (PrivateInode i).
Proof using.
  intros Hst Hsh. unfold create_private.
  destruct (new_inode_ok (PrivateInode i) (wrap size_t (i_size (w_inode w i)))) as (pages & ->). cbn [res_bind].
  unfold new_vmobject. set (id := fresh (dom (m_vmobjects s))).
  assert (m_vmobjects s !! id = None) as Hid by apply not_elem_of_dom, is_fresh.
  destruct (new_vmobject_state s c id (mkVMObject (PrivateInode i) pages None) (m_shared_vmobjects s) Hst Hid eq_refl)
    as (Hst' & Hsub & Hvm).
  do 2 eexists. split; [done|]. split; fields; try done; [by exists pages|]. by apply shared_ok_mono.
Qed.

Lemma create_shared_ok s c i :
  state s c [] -> shared_ok s ->
  exists s' vm, create_shared w s i = Ok (s', vm) /\ with_object s c s' vm (SharedInode i).
Proof using.
  intros Hst Hsh. unfold create_shared, shared_vmobject.
  assert (exists s' vm, (let* vm := new_inode (SharedInode i) (wrap size_t (i_size (w_inode w i))) in
      let '(s, vm) := new_vmobject s vm in
      Ok (with_vmobjects s (m_vmobjects s) (<[i := vm]> (m_shared_vmobjects s)), vm)) = Ok (s', vm) /\
    with_object s c s' vm (SharedInode i)) as Hnew.
  { destruct (new_inode_ok (SharedInode i) (wrap size_t (i_size (w_inode w i)))) as (pages & ->). cbn [res_bind].
    unfold new_vmobject. set (id := fresh (dom (m_vmobjects s))).
    assert (m_vmobjects s !! id = None) as Hid by apply not_elem_of_dom, is_fresh. fields.
    destruct (new_vmobject_state s c id (mkVMObject (SharedInode i) pages None) (<[i := id]> (m_shared_vmobjects s)) Hst Hid eq_refl)
      as (Hst' & Hsub & Hvm).
    do 2 eexists. split; [done|]. split; fields; try done; [by exists pages|].
    intros j vm Hj. fields. apply lookup_insert_Some in Hj as [[<- <-] |[_ Hj]]; [by exists pages|].
    destruct (Hsh j vm Hj) as (pages' & Hp). exists pages'. by eapply lookup_weaken. }
  destruct (m_shared_vmobjects s !! i) as [vm|] eqn:Ei; [|exact Hnew]. destruct (is_mapped s vm); [|exact Hnew].
  exists s, vm. split; [done|]. split; try done. by apply Hsh.
Qed.

End MmapCall.

End Facts.
End MmapFacts.
