(* ===== verification/MmapSpec.v ===== *)
(** * mmap, mremap and sequences of memory system calls

    The effect of [sys$mmap] on the mappings, and what holds of the mappings of a
    process after any sequence of calls. *)

From Stdlib Require Import String.
From S2P Require Import Prelude Memory Containers RedBlackTree RangeAllocator Region Space SpaceFacts SpaceSpec Credentials Mmap MmapFacts.
Import VirtualAddress Range RangeAllocator RangeFacts VMObject Region RegionFacts Space PageFacts SpaceFacts SpaceSpec Mmap MmapFacts.

Module MmapSpec.
Section Spec.
Context {M : Type} `{OM : OrderedMap M} `{OL : !OrderedMapLaws M}.
Context (ensure_pte : Z -> bool) (Hpte : forall a, ensure_pte a = true).
Context (w : world) (p : Process.process).
Implicit Types s : Space (M := M).

(** The process sees what it saw; addresses may have been lost to the allocator. *)
Record kept s (c : gmap Z positive) s' : Prop := {
  kp_state : state s' c [];
  kp_mappings : forall x m, mapping_at s' c x m <-> mapping_at s c x m;
  kp_free : forall x, is_free (m_range_allocator s') x -> is_free (m_range_allocator s) x;
  kp_total : m_total_range (m_range_allocator s') = m_total_range (m_range_allocator s);
  kp_shapes : shape (m_vmobjects s) ⊆ shape (m_vmobjects s');
  kp_shared : shared_ok s';
}.

Lemma kept_refl s c : state s c [] -> shared_ok s -> kept s c s.
Proof using. by split. Qed.

(** ** The choice of a range *)

Definition sound_range s (params : mmap_params) (k : Z) : Prop :=
  0 < mp_size params <= 0xfffff000 /\ mp_alignment params = 2 ^ k /\ 12 <= k < 32 /\
  (mp_addr params = 0 \/
   range_ok (m_total_range (m_range_allocator s)) (mkRange (mp_addr params) (pages_of (mp_size params)))).

Lemma same_allocators s : with_allocators s (m_range_allocator s) (m_identity_range_allocator s) = s.
Proof using. by destruct s. Qed.

Lemma mmap_range_ok s c params k :
  state s c [] -> sound_range s params k ->
  exists s' o, mmap_range w s params = Ok (s', o) /\
    match o with
    | Some rg => m_size rg = pages_of (mp_size params) /\ m_base rg mod PAGE_SIZE = 0 /\
        (has_bit (mp_flags params) MAP_FIXED = true -> has_bit (mp_flags params) MAP_RANDOMIZED = false ->
          mp_addr params <> 0 -> m_base rg = mp_addr params) /\
        exists a', taken (m_range_allocator s) rg a' /\ s' = with_allocators s a' (m_identity_range_allocator s)
    | None => s' = s
    end.
Proof using.
  intros Hst (Hsz & Hal & Hk & Ha). pose proof (pages_of_bounds _ Hsz) as (P1 & P2 & P3).
  pose proof (ly_alloc _ _ _ _ (in_layout _ _ (st_inv _ _ _ Hst))) as Hinv.
  destruct (pow2_bounds k Hk) as [Hp Hd]. unfold mmap_range. rewrite Hal.
  destruct (has_bit (mp_flags params) MAP_RANDOMIZED) eqn:Er.
  - rewrite page_round_up_ok by lia. fold (pages_of (mp_size params)). cbn [res_bind]. unfold allocate_randomized.
    replace (_ =? 0) with false by lia. rewrite P2.
    assert (2 ^ k mod PAGE_SIZE = 0) as -> by (apply Z.mod_divide; [done|exact Hd]). cbn [Z.eqb verify res_bind].
    destruct (randomized_loop_ok (w_random w) (m_range_allocator s) (pages_of (mp_size params)) k
      maximum_randomization_attempts 0 Hinv Hk P3 P2) as (a' & o & -> & Ho). cbn [res_bind].
    do 2 eexists. split; [done|]. destruct o as [rg|].
    + destruct Ho as (G1 & G2 & G3). split; [done|]. split; [by apply (multiple_of_page _ k)|]. split; [done|]. by exists a'.
    + destruct Ho as [-> _]. apply same_allocators.
  - destruct (allocate_range_ok s c (mp_addr params) (mp_size params) k Hst Hsz Hk Ha) as (s1 & o & -> & Ho).
    cbn [res_bind]. destruct o as [rg|].
    { do 2 eexists. split; [done|]. destruct Ho as (G1 & G2 & a' & G3 & -> & G4). split; [done|]. split; [done|].
      split; [auto|]. by exists a'. }
    subst s1. destruct (_ && _) eqn:E; [|by exists s, None].
    destruct (allocate_range_ok s c 0 (mp_size params) k Hst Hsz Hk ltac:(by left)) as (s1 & o & -> & Ho).
    do 2 eexists. split; [done|]. destruct o as [rg|]; [|done].
    destruct Ho as (G1 & G2 & a' & G3 & -> & G4). split; [done|]. split; [done|].
    split; [|by exists a']. intros Hf. rewrite Hf in E. by rewrite andb_false_r in E.
Qed.

(** ** The new region *)

(** The object and the part of it a new mapping shows. *)
Definition new_mapping_of (params : mmap_params) (rg : Range) (vm : positive) (name : string) (x : Z) : mapping :=
  mkMapping vm
    ((if has_bit (mp_flags params) MAP_ANONYMOUS then 0 else wrap size_t (mp_offset params)) + (x - m_base rg))
    (initial_access (prot_to_region_access_flags (mp_prot params)))
    (has_bit (mp_flags params) MAP_SHARED) (has_bit (mp_flags params) MAP_STACK) true false name.

Definition offset_of (params : mmap_params) : Z :=
  if has_bit (mp_flags params) MAP_ANONYMOUS then 0 else wrap size_t (mp_offset params).

(** What an object is made from. *)
Definition made_for s (params : mmap_params) (vm : positive) : Prop :=
  exists cls pages, shape (m_vmobjects s) !! vm = Some (cls, pages) /\
    (cls = Anonymous <-> has_bit (mp_flags params) MAP_ANONYMOUS = true) /\
    ((exists i, cls = SharedInode i) -> has_bit (mp_flags params) MAP_SHARED = true).

Lemma vacant_same s s' c rg :
  m_objects s' = m_objects s -> m_range_allocator s' = m_range_allocator s ->
  vacant (m_total_range (m_range_allocator s)) s c rg -> vacant (m_total_range (m_range_allocator s')) s' c rg.
Proof using. intros O A [V1 V2 V3]. split; rewrite ?A, ?O; done. Qed.

Lemma shared_ok_added s s' vm pages :
  shared_ok s -> m_vmobjects s !! vm = None ->
  m_vmobjects s' = <[vm := mkVMObject Anonymous pages None]> (m_vmobjects s) ->
  m_shared_vmobjects s' = m_shared_vmobjects s -> shared_ok s'.
Proof using.
  intros Hs Hn V Sh i v. rewrite Sh, V. intros Hi. destruct (Hs i v Hi) as (pg & Hp). exists pg.
  eapply lookup_weaken; [done|]. by apply shape_new.
Qed.

Lemma inode_file_mmap_ok s c i path rg off prot shared :
  state s c [] -> shared_ok s -> vacant (m_total_range (m_range_allocator s)) s c rg -> prot_wx prot ->
  wrap size_t off mod PAGE_SIZE = 0 ->
  exists s' o, inode_file_mmap ensure_pte w s i path rg off prot shared = Ok (s', o) /\
    match o with
    | inl id => exists s1 c' vm, with_object s c s1 vm (if shared then SharedInode i else PrivateInode i) /\
        added s1 c s' c' id (with_mapped (mapping_region rg vm (wrap size_t off) path prot shared) true) /\
        m_vmobjects s' = m_vmobjects s1 /\ m_shared_vmobjects s' = m_shared_vmobjects s1
    | inr e => kept s c s'
    end.
Proof using OL Hpte.
  intros Hst Hsh Hvac Hwx Hoff. unfold inode_file_mmap.
  assert (exists s1 vm, (if shared then create_shared w s i else create_private w s i) = Ok (s1, vm) /\
    with_object s c s1 vm (if shared then SharedInode i else PrivateInode i)) as (s1 & vm & -> & Hwo)
    by (destruct shared; [by apply create_shared_ok|by apply create_private_ok]).
  cbn [res_bind]. destruct (wo_object _ _ _ _ _ Hwo) as (pages & Hvm).
  assert (0 <= wrap size_t off < 2 ^ 32) as Hrange.
  { pose proof (wrap_in_ty size_t off ltac:(done)) as B%in_ty_spec. cbn in B. lia. }
  destruct (allocate_region_with_vmobject_ok ensure_pte Hpte s1 c rg vm (wrap size_t off) path prot shared _ pages
    (wo_state _ _ _ _ _ Hwo) (vacant_same s s1 c rg (wo_objects _ _ _ _ _ Hwo) (wo_alloc _ _ _ _ _ Hwo) Hvac)
    Hwx Hrange Hoff Hvm) as [[_ ->] |(s' & c' & id & _ & -> & Hadd & V & Sh)].
  - destruct shared; [done|]. by intros [? ?].
  - do 2 eexists. split; [done|]. destruct Hwo as [W1 W2 W3 W4 W5 W6]. split; try done.
    + intros x m. unfold mapping_at. by rewrite W2.
    + by rewrite W3.
    + by rewrite W3.
  - do 2 eexists. split; [done|]. by exists s1, c', vm.
Qed.

(** A region for the mapping was made and mapped. *)
Record region_made s (c : gmap Z positive) (params : mmap_params) (rg : Range) s' (c' : gmap Z positive)
    (id : positive) (r : Region) : Prop := {
  md_state : state s' c' [];
  md_region : exists vm name sh, r = with_mapped (mapping_region rg vm (offset_of params) name (mp_prot params) sh) true /\
    made_for s' params vm /\ (sh = true -> has_bit (mp_flags params) MAP_SHARED = true);
  md_owns : forall i q, owns (m_objects s') c' i q <-> (i = id /\ q = r) \/ owns (m_objects s) c i q;
  md_alloc : m_range_allocator s' = m_range_allocator s;
  md_shapes : shape (m_vmobjects s) ⊆ shape (m_vmobjects s');
  md_shared : shared_ok s';
}.

Lemma mmap_region_ok s c params name rg :
  state s c [] -> shared_ok s -> vacant (m_total_range (m_range_allocator s)) s c rg -> prot_wx (mp_prot params) ->
  exists s' o, mmap_region ensure_pte w p s params name rg = Ok (s', o) /\
    match o with
    | inl id => exists c' r, region_made s c params rg s' c' id r
    | inr e => kept s c s'
    end.
Proof using OL Hpte.
  intros Hst Hsh Hvac Hwx. pose proof (kept_refl s c Hst Hsh) as Hk. unfold mmap_region.
  assert (forall e : error, exists s' o, Ok (s, inr e : KResultOr positive) = Ok (s', o) /\
    match o with inl id => exists c' r, region_made s c params rg s' c' id r | inr e => kept s c s' end) as Herr
    by (intros e; by exists s, (inr e)).
  destruct (has_bit (mp_flags params) MAP_ANONYMOUS) eqn:Ean.
  - destruct (allocate_region_ok ensure_pte Hpte (w_committed w) s c rg
      (match name with Some n => n | None => "mmap"%string end) (mp_prot params)
      (negb (has_bit (mp_flags params) MAP_NORESERVE)) Hst Hvac Hwx)
      as [[_ ->] |(s' & c' & id & vm & _ & -> & [D1 D2 D3 D4 D5] & Hn & pages & V & Sh)]; [apply Herr|].
    do 2 eexists. split; [done|]. eexists c', _. split; try done.
    + do 3 eexists. unfold offset_of. rewrite Ean. split; [done|]. split; [|done].
      exists Anonymous, pages. split; [|split; [done|by intros [? ?]]].
      rewrite V, (proj1 (shape_new _ _ _ Hn)). apply lookup_insert_eq.
    + by apply (shared_ok_added s s' vm pages).
  - unfold mmap_file. destruct (mp_offset params <? 0); [apply Herr|].
    destruct (Z.eqb_spec (Z.land (wrap size_t (mp_offset params)) 0xfff) 0) as [Eo|]; cbn [negb]; [|apply Herr].
    destruct (w_file w (mp_fd params)) as [d|]; [|apply Herr]. destruct (d_directory d); [apply Herr|].
    destruct (negb (d_readable d)); [apply Herr|]. destruct (_ && (_ && _)); [apply Herr|].
    destruct (negb _); [apply Herr|]. unfold description_mmap. destruct (d_inode d) as [i|]; [|apply Herr].
    assert (wrap size_t (mp_offset params) mod PAGE_SIZE = 0) as Hoff.
    { change 0xfff with (Z.ones 12) in Eo. by rewrite Z.land_ones in Eo by lia. }
    destruct (inode_file_mmap_ok s c i (d_path d) rg (mp_offset params) (mp_prot params)
      (has_bit (mp_flags params) MAP_SHARED) Hst Hsh Hvac Hwx Hoff) as (s' & o & -> & Ho).
    do 2 eexists. split; [done|]. destruct o as [id|]; [|done].
    destruct Ho as (s1 & c' & vm & [W1 W2 W3 W4 W5 W6] & [D1 D2 D3 D4 D5] & V & Sh). eexists c', _. split; try done.
    + do 3 eexists. unfold offset_of. rewrite Ean. split; [done|]. split; [|done]. destruct W5 as (pages & Hp).
      eexists _, pages. split; [by rewrite V|]. destruct (has_bit (mp_flags params) MAP_SHARED).
      * split; [|done]. rewrite Ean. done.
      * split; [rewrite Ean; done|]. by intros [? ?].
    + intros j q. by rewrite D3, W2.
    + by rewrite D4, W3.
    + by rewrite V.
    + intros j v. rewrite Sh, V. apply W6.
Qed.

(** ** The call *)

Record mapped_new s (c : gmap Z positive) (params : mmap_params) (rg : Range) s' (c' : gmap Z positive) : Prop := {
  mn_state : state s' c' [];
  mn_size : m_size rg = pages_of (mp_size params);
  mn_fixed : has_bit (mp_flags params) MAP_FIXED = true -> mp_addr params <> 0 -> m_base rg = mp_addr params;
  mn_was_free : forall x, in_range rg x -> is_free (m_range_allocator s) x;
  mn_free : forall x, is_free (m_range_allocator s') x <-> is_free (m_range_allocator s) x /\ ~ in_range rg x;
  mn_mappings : exists vm name, made_for s' params vm /\ forall x m,
    mapping_at s' c' x m <-> mapping_at s c x m \/ (in_range rg x /\ m = new_mapping_of params rg vm name x);
  mn_prot : prot_wx (mp_prot params) /\
    (has_bit (mp_flags params) MAP_ANONYMOUS = true -> has_bit (mp_prot params) PROT_EXEC = false);
  mn_total : m_total_range (m_range_allocator s') = m_total_range (m_range_allocator s);
  mn_shapes : shape (m_vmobjects s) ⊆ shape (m_vmobjects s');
  mn_shared : shared_ok s';
}.

Lemma mmap_check_ok s params :
  0 <= mp_size params < 2 ^ 32 ->
  exists o, mmap_check w s params = Ok o /\
    match o with
    | inl name => 0 < mp_size params <= 0xfffff000 /\ prot_wx (mp_prot params) /\
        (has_bit (mp_flags params) MAP_FIXED && has_bit (mp_flags params) MAP_RANDOMIZED = false) /\
        (has_bit (mp_flags params) MAP_ANONYMOUS = true -> has_bit (mp_prot params) PROT_EXEC = false)
    | inr e => True
    end.
Proof using.
  intros Hs. unfold mmap_check, page_round_up_would_wrap. destruct (negb _); [by eexists|].
  destruct (Z.ltb_spec 0xfffff000 (mp_size params)); [by eexists|]. rewrite page_round_up_ok by lia. cbn [res_bind].
  destruct (negb (is_user_range _ _)); [by eexists|]. match goal with |- context [match ?x with inl _ => _ | inr _ => _ end] => destruct x as [name|e] end;
    [|by eexists]. destruct (Z.eqb_spec (mp_size params) 0); [by eexists|]. destruct (negb _); [by eexists|].
  destruct (_ && _); [by eexists|]. destruct (_ && _); [by eexists|]. destruct (_ && _) eqn:Ef; [by eexists|].
  destruct (validate_new_ok w s (mp_prot params) (has_bit (mp_flags params) MAP_STACK)
    (has_bit (mp_flags params) MAP_ANONYMOUS)) as (b & -> & Hb). cbn [res_bind].
  destruct b; cbn [negb]; [|by eexists].
  destruct (has_bit (mp_flags params) MAP_STACK && _); [by eexists|]. exists (inl name). split; [done|].
  destruct (Hb eq_refl) as [H1 H2]. split; [lia|]. done.
Qed.

Lemma marks_fields params name r :
  m_range (mmap_marks params name r) = m_range r /\ m_mapped (mmap_marks params name r) = m_mapped r /\
  m_access (mmap_marks params name r) = m_access r /\ m_vmobject (mmap_marks params name r) = m_vmobject r /\
  m_offset_in_vmobject (mmap_marks params name r) = m_offset_in_vmobject r /\
  m_shared (mmap_marks params name r) = (if has_bit (mp_flags params) MAP_SHARED then true else m_shared r).
Proof using.
  unfold mmap_marks. destruct (has_bit (mp_flags params) MAP_SHARED), (has_bit (mp_flags params) MAP_STACK), name; done.
Qed.

Lemma marks_good shapes total params name r :
  region_good shapes total r -> region_good shapes total (mmap_marks params name r).
Proof using.
  intros [R1 R2 R3 R4 (cls & pages & Hvm & Hlen & Hsh)].
  destruct (marks_fields params name r) as (F1 & F2 & F3 & F4 & F5 & F6).
  split; unfold region_size; rewrite ?F1, ?F3, ?F5; try done. exists cls, pages. rewrite F4. split; [done|].
  split; [done|]. rewrite F6. intros Hi. destruct (has_bit _ MAP_SHARED); [done|auto].
Qed.

Lemma marks_mapping params name rg vm nm sh x :
  (sh = true -> has_bit (mp_flags params) MAP_SHARED = true) ->
  exists nm', mapping_of (mmap_marks params name
      (with_mapped (mapping_region rg vm (offset_of params) nm (mp_prot params) sh) true)) x
    = new_mapping_of params rg vm nm' x /\ nm' = (match name with Some n => n | None => nm end).
Proof using.
  intros Hsh. exists (match name with Some n => n | None => nm end). split; [|done].
  unfold mapping_of, new_mapping_of, offset_of, mmap_marks.
  destruct (has_bit (mp_flags params) MAP_SHARED) eqn:E1, (has_bit (mp_flags params) MAP_STACK) eqn:E2, name, sh;
    try done; by specialize (Hsh eq_refl).
Qed.

(** The outcome of [sys$mmap]. *)
Definition mmap_outcome s (c : gmap Z positive) (params : option mmap_params) (o : res (Space (M := M) * result)) : Prop :=
  match o with
  | Ok (s', Returned v) => exists ps rg c', params = Some ps /\ v = m_base rg /\ mapped_new s c ps rg s' c'
  | Ok (s', _) => kept s c s'
  | Fault _ => False
  end.

(** The last part of the call, once a range is chosen. *)
Lemma mmap_finish_ok s c params name rg a' :
  let s1 := with_allocators s a' (m_identity_range_allocator s) in
  state s c [] -> shared_ok s -> taken (m_range_allocator s) rg a' -> m_base rg mod PAGE_SIZE = 0 ->
  m_size rg = pages_of (mp_size params) -> 0 < mp_size params <= 0xfffff000 ->
  (has_bit (mp_flags params) MAP_FIXED = true -> mp_addr params <> 0 -> m_base rg = mp_addr params) ->
  prot_wx (mp_prot params) ->
  (has_bit (mp_flags params) MAP_ANONYMOUS = true -> has_bit (mp_prot params) PROT_EXEC = false) ->
  mmap_outcome s c (Some params) (
    let* (s, region) := mmap_region ensure_pte w p s1 params name rg in
    match region with
    | inr e => Ok (s, Failed e)
    | inl id =>
        let* s := update_region s id (mmap_marks params name) in
        let* r := region_at s id in
        Ok (s, Returned (vaddr r))
    end).
Proof using OL Hpte.
  intros s1 Hst Hsh Htk Hbase Hsize Hsz Hfix Hwx Han. pose proof (pages_of_bounds _ Hsz) as (P1 & P2 & P3).
  destruct (taken_state s c [] rg a' Hst Htk) as [Hst1 Hvac]; [lia|done|by rewrite Hsize|]. fold s1 in Hst1, Hvac.
  assert (shared_ok s1) as Hsh1 by exact Hsh. destruct Htk as (T1 & T2 & T3 & T4).
  destruct (mmap_region_ok s1 c params name rg Hst1 Hsh1 Hvac Hwx) as (s2 & o & -> & Ho). cbn [res_bind].
  destruct o as [id|e].
  2: { destruct Ho as [K1 K2 K3 K4 K5 K6]. split; try done.
       - intros x Hx%K3. by apply T4 in Hx as [? _].
       - by rewrite K4. }
  destruct Ho as (c2 & r & [D1 (vm & nm & sh & Er & Hmade & Hshb) D3 D4 D5 D6]).
  assert (owns (m_objects s2) c2 id r) as Ho by (apply D3; by left).
  destruct (marks_fields params name r) as (F1 & F2 & F3 & F4 & F5 & F6).
  destruct (update_region_ok s2 c2 [] id r (mmap_marks params name) D1 Ho F1 F2) as (s3 & E3 & Hst3 & O3 & Es3 & Hw3).
  { intros q e _ _. unfold allows, is_writable, is_executable. by rewrite F3. }
  { apply marks_good. by apply (inv_good s2 c2 id r); [apply D1|]. }
  pose proof (update_region_shared _ _ _ _ E3) as Sh3. rewrite E3. cbn [res_bind].
  rewrite (region_at_ok s3 id (mmap_marks params name r)) by (rewrite O3; apply lookup_insert_eq). cbn [res_bind].
  assert (m_range r = rg) as Hrg by by rewrite Er.
  assert (m_range_allocator s3 = a') as A3 by (rewrite Es3; fields; by rewrite D4).
  assert (shape (m_vmobjects s3) = shape (m_vmobjects s2)) as V3 by (rewrite Es3; done).
  exists params, rg, c2. split; [done|]. split; [unfold vaddr; by rewrite F1, Hrg|].
  split; rewrite ?A3, ?V3; try done.
  - exists vm, (match name with Some n => n | None => nm end). split; [by rewrite Es3|].
    assert (forall x, mapping_of (mmap_marks params name r) x =
      new_mapping_of params rg vm (match name with Some n => n | None => nm end) x) as Hmo.
    { intros x. destruct (marks_mapping params name rg vm nm sh x Hshb) as (n' & En & ->). by rewrite Er. }
    intros x m. split.
    + intros (i & q & [[-> ->] |[Hq Hne]]%Hw3 & Hx & ->).
      * right. unfold in_region in Hx. by rewrite F1, Hrg in Hx; rewrite Hmo.
      * apply D3 in Hq as [[-> _] |Hq]; [done|]. left. by exists i, q.
    + intros [(i & q & Hq & Hx & ->) |[Hx ->]].
      * exists i, q. split; [|done]. apply Hw3. right. split; [apply D3; by right|]. intros ->.
        destruct (proj2 (D3 id q) (or_intror Hq)) as [H1 _]. destruct Ho as [H2 _].
        assert (q = r) as -> by congruence. unfold in_region in Hx. rewrite Hrg in Hx.
        by apply (va_apart _ _ _ _ Hvac id r Hq x Hx); unfold in_region; rewrite Hrg.
      * exists id, (mmap_marks params name r). split; [apply Hw3; by left|].
        unfold in_region. rewrite F1, Hrg. by rewrite Hmo.
  - intros i v. rewrite Sh3, V3. apply D6.
Qed.

Lemma sys_mmap_ok s c params :
  state s c [] -> shared_ok s ->
  (forall ps, params = Some ps -> 0 <= mp_size ps < 2 ^ 32 /\
    exists k, 0 < mp_size ps <= 0xfffff000 -> sound_range s ps k) ->
  mmap_outcome s c params (sys_mmap ensure_pte w p s params).
Proof using OL Hpte.
  intros Hst Hsh Hps. pose proof (kept_refl s c Hst Hsh) as Hk. unfold sys_mmap, require_promise.
  destruct (_ && _); [exact Hk|]. destruct params as [ps|]; [|exact Hk].
  destruct (Hps ps eq_refl) as (Hsz & k & Hsound). cbv zeta.
  set (code := let* checked := mmap_check w s ps in _). enough (mmap_outcome s c (Some ps) code) as Hcode.
  { destruct (has_bit (mp_prot ps) PROT_EXEC); [destruct (_ && _); [exact Hk|]|];
      (destruct (has_bit (mp_prot ps) MAP_FIXED); [destruct (_ && _); [exact Hk|]|]; exact Hcode). }
  subst code. destruct (mmap_check_ok s ps Hsz) as (o & -> & Ho). cbn [res_bind].
  destruct o as [name|e]; [|exact Hk]. destruct Ho as (Hs & Hwx & Hfr & Han).
  destruct (mmap_range_ok s c ps k Hst (Hsound Hs)) as (s1 & o & -> & Ho). cbn [res_bind].
  destruct o as [rg|]; [|subst s1; exact Hk].
  destruct Ho as (G1 & G2 & G3 & a' & G4 & ->). apply mmap_finish_ok; try done.
  intros Hf. apply G3; [done|]. by rewrite Hf in Hfr.
Qed.

(** ** The other calls *)

(** Only names and marks of regions changed. *)
Record relabelled s (c : gmap Z positive) s' : Prop := {
  rl_state : state s' c [];
  rl_mappings : forall x m, mapping_at s' c x m -> exists m0, mapping_at s c x m0 /\
    mg_object m = mg_object m0 /\ mg_offset m = mg_offset m0 /\ mg_access m = mg_access m0;
  rl_alloc : m_range_allocator s' = m_range_allocator s;
  rl_shape : shape (m_vmobjects s') = shape (m_vmobjects s);
  rl_shared : m_shared_vmobjects s' = m_shared_vmobjects s;
}.

Lemma relabelled_unchanged s c s' : unchanged s c s' -> relabelled s c s'.
Proof using. intros [U1 U2 U3 U4 U5]. split; try done. intros x m Hm%U2. eauto. Qed.

Lemma relabel_ok s c id r f :
  state s c [] -> owns (m_objects s) c id r ->
  (forall r, m_range (f r) = m_range r /\ m_mapped (f r) = m_mapped r /\ m_access (f r) = m_access r /\
    m_vmobject (f r) = m_vmobject r /\ m_offset_in_vmobject (f r) = m_offset_in_vmobject r /\ m_shared (f r) = m_shared r) ->
  exists s', update_region s id f = Ok s' /\ relabelled s c s'.
Proof using.
  intros Hst Ho Hf. destruct (Hf r) as (F1 & F2 & F3 & F4 & F5 & F6).
  destruct (update_region_ok s c [] id r f Hst Ho F1 F2) as (s' & E & Hst' & O & Es & Hw).
  { intros q e _ _. unfold allows, is_writable, is_executable. by rewrite F3. }
  { destruct (inv_good s c id r (st_inv _ _ _ Hst) Ho) as [R1 R2 R3 R4 (cls & pages & R5)].
    split; unfold region_size; rewrite ?F1, ?F3, ?F5; try done. exists cls, pages. by rewrite F4, F6. }
  exists s'. split; [done|]. split; try (rewrite Es; done); [done|].
  intros x m (i & q & [[-> ->] |[Hq Hne]]%Hw & Hx & ->).
  - exists (mapping_of r x). split; [exists id, r; split; [done|]; unfold in_region in *; by rewrite <- F1|].
    unfold mapping_of, vaddr. cbn. by rewrite F1, F3, F4, F5.
  - exists (mapping_of q x). split; [by exists i, q|done].
Qed.

Definition relabel_outcome s (c : gmap Z positive) (o : res (Space (M := M) * result)) : Prop :=
  match o with Ok (s', _) => relabelled s c s' | Fault _ => False end.

Lemma sys_set_mmap_name_ok s c params :
  state s c [] -> (forall a n name, params = Some (a, n, name) -> 0 <= a < 2 ^ 32 /\ 0 <= n < 2 ^ 32) ->
  relabel_outcome s c (sys_set_mmap_name w p s params).
Proof using OL.
  intros Hst Hps. pose proof (relabelled_unchanged _ _ _ (unchanged_refl s c Hst)) as Hr.
  unfold sys_set_mmap_name, require_promise. destruct (_ && _); [exact Hr|].
  destruct params as [[[a n] name]|]; [|exact Hr]. destruct (Hps _ _ _ eq_refl) as [Ha Hn].
  destruct (_ <? _); [exact Hr|]. destruct (copied name) as [str|]; [|exact Hr].
  destruct (expand_range_ok a n Ha Hn) as [-> |[-> Hend]]; [exact Hr|]. cbn [res_bind].
  destruct (spanned_pages a n) as (B1 & B2 & B3 & B4 & B5 & B6); [lia..|].
  destruct (find_region_from_range_ok s c (spanned a n) Hst) as (s1 & o & -> & Ho); [unfold size; lia|]. cbn [res_bind].
  destruct o as [id|]; [|destruct Ho as [-> _]; exact Hr].
  destruct Ho as (r & Ho & _ & _ & Hst1 & cr & ci & ->). set (s1 := with_cache s cr ci) in *.
  pose proof (relabelled_unchanged _ _ _ (unchanged_cache s c cr ci Hst1)) as Hr1.
  rewrite (region_at_ok s1 id r (proj1 Ho)). cbn [res_bind]. destruct (negb (m_mmap r)); [exact Hr1|].
  destruct (relabel_ok s1 c id r (fun r => set_name r str) Hst1 Ho) as (s2 & -> & [L1 L2 L3 L4 L5]); [done|]. by split.
Qed.

Lemma sys_msyscall_ok s c address :
  state s c [] -> 0 <= address < 2 ^ 32 -> relabel_outcome s c (sys_msyscall s address).
Proof using OL.
  intros Hst Ha. pose proof (relabelled_unchanged _ _ _ (unchanged_refl s c Hst)) as Hr. unfold sys_msyscall.
  destruct (m_enforces_syscall_regions s); [exact Hr|].
  destruct (_ =? 0).
  { apply relabelled_unchanged. destruct Hst as [[I1 I2 I3 I4] P S]. by split. }
  destruct (negb _); [exact Hr|].
  destruct (find_region_containing_ok s c (mkRange address 1) Hst) as (o & -> & Ho); [done|done|]. cbn [res_bind].
  destruct o as [id|]; [|exact Hr]. destruct Ho as (r & Ho & _).
  rewrite (region_at_ok s id r (proj1 Ho)). cbn [res_bind]. destruct (negb (m_mmap r)); [exact Hr|].
  destruct (relabel_ok s c id r (fun r => set_syscall_region r true) Hst Ho) as (s2 & -> & Hr2); [done|]. exact Hr2.
Qed.

(** A region that was unmapped before it is dropped keeps its range. *)
Lemma unmap_drop_ok s c id r :
  state s c [] -> owns (m_objects s) c id r ->
  exists s1 s2, unmap s id false = Ok s1 /\ deallocate_region s1 id = Ok (s2, true) /\
    state s2 (delete (vaddr r) c) [] /\ loose (delete (vaddr r) c) id /\
    (forall i q, owns (m_objects s2) (delete (vaddr r) c) i q <-> owns (m_objects s) c i q /\ i <> id) /\
    m_vmobjects s2 = m_vmobjects s /\ m_range_allocator s2 = m_range_allocator s /\
    m_shared_vmobjects s2 = m_shared_vmobjects s.
Proof using OL.
  intros [Hinv Hptes Hset] Ho. pose proof (in_layout _ _ Hinv) as L. pose proof (ly_good _ _ _ _ L id r Ho) as Hgood.
  assert (m_mapped r = true) as Hm by (destruct (Hset id r (proj1 Ho)) as [?%not_elem_of_nil|[_ ?]]; done).
  destruct (layout_remove _ _ _ _ id r L Ho) as [Hl _].
  destruct (unmap_ok s id r _ _ (proj1 Ho) Hm Hgood (ly_total _ _ _ _ L)) as (P & E1 & HP).
  set (s1 := with_objects (with_ptes s P) (<[id := with_mapped r false]> (m_objects s))) in *.
  assert (forall i q, owns (m_objects s1) c i q <->
    (i = id /\ q = with_mapped r false) \/ (owns (m_objects s) c i q /\ i <> id)) as Hw
    by (intros i q; by apply owns_update with r).
  assert (inv s1 c) as I1.
  { destruct Hinv as [J1 J2 J3 J4]. split; [done| |done|].
    - apply layout_update with r; try done. by apply with_mapped_good.
    - intros rg i Hrg Hi. destruct (J4 rg i Hrg Hi) as (q & Hq & E). destruct (decide (i = id)) as [-> |Hne].
      + exists (with_mapped r false). rewrite (owns_fun _ _ _ _ _ Hq Ho) in E. split; [apply Hw; by left|done].
      + exists q. split; [apply Hw; by right|done]. }
  assert (owns (m_objects s1) c id (with_mapped r false)) as Ho1 by (apply Hw; by left).
  destruct (take_region_ok s1 c id _ I1 Ho1) as (s2 & E2 & I2 & O2 & V2 & A2 & P2).
  change (vaddr (with_mapped r false)) with (vaddr r) in I2.
  assert (state s2 (delete (vaddr r) c) [id]) as Hst2.
  { split; [done| |].
    - rewrite P2, O2. by apply (ptes_retire (m_ptes s) P _ c id r _ (shape (m_vmobjects s)) (m_total_range (m_range_allocator s))).
    - intros i q. rewrite O2. subst s1. fields. intros [[<- <-] |[Hne Hq]]%lookup_insert_Some; [left; by left|right].
      destruct (Hset i q Hq) as [?%not_elem_of_nil|[Hoi ?]]; [done|]. split; [|done].
      apply owns_loose; [done|]. apply (owns_remove _ _ id r); done. }
  destruct (destroy_loose_ok s2 _ id (with_mapped r false) [] Hst2 Hl) as (s3 & E3 & Hst3 & O3 & V3 & A3);
    [rewrite O2; apply lookup_insert_eq|done|].
  exists s1, s3. split; [done|]. split; [unfold deallocate_region; rewrite E2; cbn [res_bind]; by rewrite E3|].
  split; [done|]. split; [done|]. split; [|split; [by rewrite V3, V2|split; [by rewrite A3, A2|]]].
  - intros i q. rewrite O3, O2, owns_drop by done. unfold s1. fields. rewrite owns_loose by done. by apply owns_remove.
  - apply take_region_shared in E2. apply destroy_region_shared in E3. unfold s1 in E2. fields. congruence.
Qed.

(** ** mremap *)

Lemma prot_of_access a b : b = 1 \/ b = 2 \/ b = 4 -> has_bit (region_access_flags_to_prot a) b = has_bit a b.
Proof using.
  intros Hb. rewrite access_to_prot. unfold has_bit. rewrite <- Z.land_assoc. by destruct Hb as [-> |[-> | ->]].
Qed.

Lemma prot_of_access_wx a : wx_ok a = true -> prot_wx (region_access_flags_to_prot a).
Proof using.
  unfold wx_ok, prot_wx, PROT_WRITE, PROT_EXEC. rewrite !prot_of_access by tauto. by intros ?%negb_true_iff.
Qed.

(** The mapping of a private copy. *)
Definition private_mapping (r : Region) (vm : positive) (x : Z) : mapping :=
  mkMapping vm (m_offset_in_vmobject r + (x - vaddr r))
    (initial_access (prot_to_region_access_flags (region_access_flags_to_prot (m_access r))))
    false false true false (m_name r).

Record privatised s (c : gmap Z positive) (r : Region) s' (c' : gmap Z positive) : Prop := {
  pv_state : state s' c' [];
  pv_mappings : exists vm i pages, shape (m_vmobjects s') !! vm = Some (PrivateInode i, pages) /\ forall x m,
    mapping_at s' c' x m <-> (mapping_at s c x m /\ ~ in_region r x) \/ (in_region r x /\ m = private_mapping r vm x);
  pv_alloc : m_range_allocator s' = m_range_allocator s;
  pv_shapes : shape (m_vmobjects s) ⊆ shape (m_vmobjects s');
  pv_shared : shared_ok s';
}.

(** Mappings may be gone, and what is there was there. *)
Record reduced s (c : gmap Z positive) s' (c' : gmap Z positive) : Prop := {
  rd_state : state s' c' [];
  rd_mappings : forall x m, mapping_at s' c' x m -> mapping_at s c x m;
  rd_free : forall x, is_free (m_range_allocator s') x -> is_free (m_range_allocator s) x;
  rd_total : m_total_range (m_range_allocator s') = m_total_range (m_range_allocator s);
  rd_shapes : shape (m_vmobjects s) ⊆ shape (m_vmobjects s');
  rd_shared : shared_ok s';
}.

Lemma reduced_unchanged s c s' : unchanged s c s' -> shared_ok s -> reduced s c s' c.
Proof using.
  intros [U1 U2 U3 U4 U5] Hs. split; rewrite ?U3, ?U4; try done; [by intros x m Hm%U2|].
  intros i v. rewrite U4, U5. apply Hs.
Qed.

Definition mremap_outcome s (c : gmap Z positive) (o : res (Space (M := M) * result)) : Prop :=
  match o with
  | Ok (s', Returned v) => exists c' id r, owns (m_objects s) c id r /\ v = vaddr r /\ m_mmap r = true /\
      (exists i pages, shape (m_vmobjects s) !! m_vmobject r = Some (SharedInode i, pages)) /\
      privatised s c r s' c'
  | Ok (s', _) => exists c', reduced s c s' c'
  | Fault _ => False
  end.

Lemma mremap_private_ok s c id r i :
  state s c [] -> shared_ok s -> owns (m_objects s) c id r ->
  let code :=
    let* s := unmap s id false in
    let* (s, success) := deallocate_region s id in
    VERIFY success ;;
    let* (s, new_vmobject) := create_private w s i in
    let* (s, new_region) := allocate_region_with_vmobject ensure_pte s (m_range r) new_vmobject
      (m_offset_in_vmobject r) (m_name r) (region_access_flags_to_prot (m_access r)) false in
    match new_region with
    | inr e => Ok (s, Failed e)
    | inl id =>
        let* s := update_region s id (fun r => set_mmap r true) in
        let* r := region_at s id in
        Ok (s, Returned (vaddr r))
    end in
  (exists s' c', code = Ok (s', Returned (vaddr r)) /\ privatised s c r s' c') \/
  (exists s' c' e, code = Ok (s', Failed e) /\ reduced s c s' c').
Proof using OL Hpte.
  intros Hst Hsh Ho. cbv zeta. pose proof (in_layout _ _ (st_inv _ _ _ Hst)) as L.
  pose proof (ly_good _ _ _ _ L id r Ho) as Hgood.
  destruct (unmap_drop_ok s c id r Hst Ho) as (s1 & s2 & -> & E2 & Hst2 & Hl & Hw & V2 & A2 & Sh2). cbn [res_bind].
  rewrite E2. cbn [res_bind verify]. set (c2 := delete (vaddr r) c) in *.
  assert (shared_ok s2) as Hsh2 by (intros j v; rewrite Sh2, V2; apply Hsh).
  destruct (create_private_ok w s2 c2 i Hst2 Hsh2) as (s3 & vm & -> & [W1 W2 W3 W4 (pages & W5) W6]). cbn [res_bind].
  assert (vacant (m_total_range (m_range_allocator s3)) s3 c2 (m_range r)) as Hvac.
  { rewrite W3, A2. split; [apply Hgood| |].
    - intros j q. rewrite W2. intros [Hq Hne]%Hw. apply (ly_disjoint _ _ _ _ L id r j q); auto.
    - intros x. rewrite W3, A2. by apply (ly_taken _ _ _ _ L id r x). }
  destruct (rg_offset _ _ _ Hgood) as (O1 & O2 & O3). pose proof (rg_wx _ _ _ Hgood) as Hwx.
  pose proof (good_bounds _ _ _ (ly_total _ _ _ _ L) Hgood) as (_ & B2 & _).
  destruct (allocate_region_with_vmobject_ok ensure_pte Hpte s3 c2 (m_range r) vm (m_offset_in_vmobject r) (m_name r)
    (region_access_flags_to_prot (m_access r)) false (PrivateInode i) pages W1 Hvac (prot_of_access_wx _ Hwx)
    ltac:(lia) O2 W5 ltac:(by intros [? ?])) as [[_ ->] |(s4 & c4 & id4 & _ & -> & [D1 D2 D3 D4 D5] & V4 & Sh4)];
    cbn [res_bind].
  - right. exists s3, c2, EINVAL. split; [done|]. split; try done.
    + intros x m (j & q & Hq & Hx). rewrite W2 in Hq. apply Hw in Hq as [Hq _]. by exists j, q.
    + by rewrite W3, A2.
    + by rewrite W3, A2.
    + by rewrite <- V2.
  - left. set (new := with_mapped _ true) in *.
    assert (owns (m_objects s4) c4 id4 new) as Ho4 by (apply D3; by left).
    destruct (update_region_ok s4 c4 [] id4 new (fun r => set_mmap r true) D1 Ho4) as (s5 & E5 & Hst5 & O5 & Es5 & Hw5);
      [done|done|done| |].
    { destruct (inv_good s4 c4 id4 new (st_inv _ _ _ D1) Ho4) as [R1 R2 R3 R4 R5]. by split. }
    pose proof (update_region_shared _ _ _ _ E5) as Sh5. rewrite E5. cbn [res_bind].
    rewrite (region_at_ok s5 id4 (set_mmap new true)) by (rewrite O5; apply lookup_insert_eq). cbn [res_bind].
    exists s5, c4. split; [done|].
    assert (shape (m_vmobjects s5) = shape (m_vmobjects s4)) as V5 by by rewrite Es5.
    split; rewrite ?V5; try done.
    + exists vm, i, pages. split; [by rewrite V4|]. intros x m. split.
      * intros (j & q & [[-> ->] |[Hq Hne]]%Hw5 & Hx & ->); [by right|].
        apply D3 in Hq as [[-> _] |Hq]; [done|]. rewrite W2 in Hq. apply Hw in Hq as [Hq Hne'].
        left. split; [by exists j, q|]. intros Hr. by apply (ly_disjoint _ _ _ _ L j q id r Hq Ho Hne' x).
      * intros [[(j & q & Hq & Hx & ->) Hr] |[Hx ->]].
        -- assert (j <> id) as Hne by (intros ->; by rewrite (owns_fun _ _ _ _ _ Hq Ho) in Hx).
           assert (owns (m_objects s3) c2 j q) as Hq3 by (rewrite W2; apply Hw; done).
           exists j, q. split; [|done]. apply Hw5. right. split; [apply D3; by right|]. intros ->.
           rewrite (proj1 Hq3) in D2. done.
        -- exists id4, (set_mmap new true). split; [apply Hw5; by left|]. done.
    + rewrite Es5. fields. by rewrite D4, W3, A2.
    + rewrite V4, <- V2. done.
    + intros j v. rewrite V5, Sh5, Sh4, V4. apply W6.
Qed.

Lemma sys_mremap_ok s c params :
  state s c [] -> shared_ok s ->
  (forall a n f, params = Some (a, n, f) -> 0 <= a < 2 ^ 32 /\ 0 <= n < 2 ^ 32) ->
  mremap_outcome s c (sys_mremap ensure_pte w p s params).
Proof using OL Hpte.
  intros Hst Hsh Hps. pose proof (reduced_unchanged _ _ _ (unchanged_refl s c Hst) Hsh) as Hr.
  unfold sys_mremap, require_promise. destruct (_ && _); [by exists c|].
  destruct params as [[[a n] f]|]; [|by exists c]. destruct (Hps _ _ _ eq_refl) as [Ha Hn].
  destruct (expand_range_ok a n Ha Hn) as [-> |[-> Hend]]; [by exists c|]. cbn [res_bind].
  destruct (spanned_pages a n) as (B1 & B2 & B3 & B4 & B5 & B6); [lia..|].
  destruct (find_region_from_range_ok s c (spanned a n) Hst) as (s1 & o & -> & Ho); [unfold size; lia|]. cbn [res_bind].
  destruct o as [id|]; [|destruct Ho as [-> _]; by exists c].
  destruct Ho as (r & Ho & _ & _ & Hst1 & cr & ci & ->). set (s1 := with_cache s cr ci) in *.
  pose proof (reduced_unchanged _ _ _ (unchanged_cache s c cr ci Hst1) Hsh) as Hr1.
  assert (owns (m_objects s1) c id r) as Ho1 by exact Ho.
  destruct (good_object _ _ _ (in_cow _ _ (st_inv _ _ _ Hst1)) (inv_good s1 c id r (st_inv _ _ _ Hst1) Ho1)) as (vm & Hvm & _).
  rewrite (region_at_ok s1 id r (proj1 Ho)). cbn [res_bind]. unfold vmobject_at. rewrite Hvm. cbn [of_opt res_bind].
  destruct (m_mmap r) eqn:Em; cbn [negb]; [|by exists c].
  destruct (m_class vm) as [|i|i] eqn:Ec; try by exists c. destruct (_ && _); [|by exists c].
  destruct (mremap_private_ok s1 c id r i Hst1 Hsh Ho1) as [(s' & c' & E & Hp)|(s' & c' & e & E & Hred)]; rewrite E.
  - exists c', id, r. do 3 (split; [done|]). split.
    + exists i, (m_physical_pages vm). unfold shape. change (m_vmobjects s) with (m_vmobjects s1).
      by rewrite lookup_fmap, Hvm, <- Ec.
    + destruct Hp as [P1 P2 P3 P4 P5]. by split.
  - exists c'. destruct Hred as [R1 R2 R3 R4 R5 R6]. by split.
Qed.

End Spec.
End MmapSpec.
