(* ===== verification/MmapRun.v ===== *)
(** * Sequences of memory system calls

    [reachable] are the address spaces of a process that started with an empty one
    and made any sequence of the calls of Mmap.  The container of the regions is
    the red-black tree.  [shown] is what the process sees at an address. *)

From Stdlib Require Import String.
From S2P Require Import Prelude Memory Containers RedBlackTree RangeAllocator Region Space SpaceFacts SpaceSpec Credentials Mmap MmapFacts MmapSpec.
Import VirtualAddress Range RangeAllocator RangeFacts VMObject Region RegionFacts Space RegionTree PageFacts SpaceFacts SpaceSpec Mmap MmapFacts MmapSpec.

Module MmapRun.

Abbreviation AddressSpace := (Space (M := RedBlackTree.RedBlackTree positive)).
Implicit Types s : AddressSpace.

(** Page tables can be allocated. *)
Definition tables (a : Z) : bool := true.

Inductive call :=
| CallMmap (params : option mmap_params)
| CallMprotect (addr size_ prot : Z)
| CallMunmap (addr size_ : Z)
| CallMremap (params : option (Z * Z * Z))
| CallSetName (params : option (Z * Z * string_argument))
| CallMsyscall (address : Z).

Definition perform (w : world) (p : Process.process) s (k : call) : res (AddressSpace * result) :=
  match k with
  | CallMmap params => sys_mmap tables w p s params
  | CallMprotect addr size_ prot => sys_mprotect tables w p s addr size_ prot
  | CallMunmap addr size_ => sys_munmap tables p s addr size_
  | CallMremap params => sys_mremap tables w p s params
  | CallSetName params => sys_set_mmap_name w p s params
  | CallMsyscall address => sys_msyscall s address
  end.

Definition word (x : Z) : Prop := 0 <= x < 2 ^ 32.

(** The arguments for which the calls are written: alignments are powers of two,
    an address that is asked for lies in the address space, and what is unmapped
    is mapped. *)
Definition sound s (k : call) : Prop :=
  match k with
  | CallMmap params => forall ps, params = Some ps -> word (mp_size ps) /\ exists k,
      mp_alignment ps = 2 ^ k /\ 12 <= k < 32 /\
      (mp_addr ps = 0 \/
       (mp_addr ps mod PAGE_SIZE = 0 /\ m_base (m_total_range (m_range_allocator s)) <= mp_addr ps /\
        mp_addr ps + pages_of (mp_size ps) <=
          m_base (m_total_range (m_range_allocator s)) + m_size (m_total_range (m_range_allocator s))))
  | CallMprotect addr size_ _ => word addr /\ word size_
  | CallMunmap addr size_ => word addr /\ word size_ /\
      exists id r, m_objects s !! id = Some r /\ inside r (spanned addr size_)
  | CallMremap params => forall a n f, params = Some (a, n, f) -> word a /\ word n
  | CallSetName params => forall a n name, params = Some (a, n, name) -> word a /\ word n
  | CallMsyscall address => word address
  end.

(** When a sound call may stop the kernel. *)
Definition may_stop s (k : call) : Prop :=
  match k with
  | CallMprotect addr size_ _ => exists id r, m_objects s !! id = Some r /\
      proper_part r (spanned addr size_) /\ shared_anonymous (shape (m_vmobjects s)) r
  | CallMunmap addr size_ => exists id r, m_objects s !! id = Some r /\ inside r (spanned addr size_) /\ stops s r
  | _ => False
  end.

(** An empty address space for user programs, of at most 2 GiB. *)
Definition fresh_space (b n : Z) : AddressSpace := create (initialize_with_range RangeAllocator.make b n).

Definition user_span (b n : Z) : Prop :=
  0x00800000 <= b /\ 0 < n <= 2 ^ 31 /\ b + n <= 0xc0000000 /\ b mod PAGE_SIZE = 0 /\ n mod PAGE_SIZE = 0.

Inductive reachable (w : world) : AddressSpace -> Prop :=
| reach_fresh b n : user_span b n -> reachable w (fresh_space b n)
| reach_call s p k s' r : reachable w s -> sound s k -> perform w p s k = Ok (s', r) -> reachable w s'.

Definition shown s (x : Z) (m : mapping) : Prop :=
  exists id r, m_objects s !! id = Some r /\ in_region r x /\ m = mapping_of r x.

(** ** The invariant *)

Section Run.
Context (w : world).

(** What a mapping may allow: anonymous memory is never executable, memory that was
    executable is not writable, and memory that was writable is executable only
    as a private mapping of a shared object. *)
Record mapping_good (shapes : gmap positive (class * list page)) (m : mapping) : Prop := {
  mk_anonymous : forall pages, shapes !! mg_object m = Some (Anonymous, pages) -> has_bit (mg_access m) Execute = false;
  mk_executed : has_bit (mg_access m) Write = true -> has_bit (mg_access m) HasBeenExecutable = false;
  mk_written : has_bit (mg_access m) Execute = true -> has_bit (mg_access m) HasBeenWritable = true ->
    exists i pages, shapes !! mg_object m = Some (PrivateInode i, pages) /\ i_elf_dynamic (w_inode w i) = true;
}.

Record call_inv s (c : gmap Z positive) : Prop := {
  cv_state : state s c [];
  cv_shared : shared_ok s;
  cv_good : forall x m, mapping_at s c x m -> mapping_good (shape (m_vmobjects s)) m;
}.

Lemma shown_mapping s c x m : state s c [] -> shown s x m <-> mapping_at s c x m.
Proof using.
  intros Hst. split; intros (id & r & Hr & Hx); exists id, r.
  - destruct (st_settled _ _ _ Hst id r Hr) as [?%not_elem_of_nil|[Ho _]]; done.
  - by destruct Hr.
Qed.

(** The object of a mapping is known. *)
Lemma mapping_object s c x m :
  state s c [] -> mapping_at s c x m -> exists v, shape (m_vmobjects s) !! mg_object m = Some v.
Proof using.
  intros Hst (id & r & Ho & _ & ->). destruct (rg_vm _ _ _ (inv_good s c id r (st_inv _ _ _ Hst) Ho)) as (cls & pages & Hv & _).
  by exists (cls, pages).
Qed.

Lemma mapping_good_mono s c shapes x m :
  state s c [] -> mapping_at s c x m -> shape (m_vmobjects s) ⊆ shapes ->
  mapping_good (shape (m_vmobjects s)) m -> mapping_good shapes m.
Proof using.
  intros Hst Hm Hsub [G1 G2 G3]. destruct (mapping_object s c x m Hst Hm) as (v & Hv).
  pose proof (lookup_weaken _ _ _ _ Hv Hsub) as Hv'. split; [|done|].
  - intros pages Hp. apply (G1 pages). congruence.
  - intros H1 H2. destruct (G3 H1 H2) as (i & pages & Hp & Hd). exists i, pages. split; [|done]. by eapply lookup_weaken.
Qed.

Lemma initial_history prot :
  has_bit (initial_access (prot_to_region_access_flags prot)) HasBeenWritable = has_bit prot PROT_WRITE /\
  has_bit (initial_access (prot_to_region_access_flags prot)) HasBeenExecutable = has_bit prot PROT_EXEC.
Proof using.
  assert (forall b, b = 2 \/ b = 4 -> has_bit (Z.land prot 7) b = has_bit prot b) as Hb.
  { intros b Hb. unfold has_bit. rewrite <- Z.land_assoc. by destruct Hb as [-> | ->]. }
  unfold PROT_WRITE, PROT_EXEC. rewrite prot_to_access, <- (Hb 2), <- (Hb 4) by tauto.
  pose proof (land7_range prot) as Hr. clear Hb. generalize dependent (Z.land prot 7). intros a Hr.
  assert (a = 0 \/ a = 1 \/ a = 2 \/ a = 3 \/ a = 4 \/ a = 5 \/ a = 6 \/ a = 7) as Hin by lia.
  destruct_or! Hin; subst a; repeat split.
Qed.

(** The mapping of a sound protection has no history to answer for. *)
Lemma initial_good shapes m prot :
  mg_access m = initial_access (prot_to_region_access_flags prot) -> prot_wx prot ->
  (forall pages, shapes !! mg_object m = Some (Anonymous, pages) -> has_bit prot PROT_EXEC = false) ->
  mapping_good shapes m.
Proof using.
  intros E Hwx Han. destruct (initial_access_prot prot) as (_ & A1 & A2). destruct (initial_history prot) as [B1 B2].
  unfold prot_wx in Hwx. split; rewrite E.
  - intros pages Hp. rewrite A2. eauto.
  - rewrite A1, B2. intros Hw. by rewrite Hw in Hwx.
  - rewrite A2, B1. intros Hx Hw. by rewrite Hx, Hw in Hwx.
Qed.

(** A protection change that was let through. *)
Lemma protected_good s r prot x :
  access_ok (m_access r) = true -> may_have w s prot r ->
  mapping_good (shape (m_vmobjects s)) (mapping_of r x) ->
  mapping_good (shape (m_vmobjects s)) (protected prot (mapping_of r x)).
Proof using.
  intros Hok [M1 M2 M3 M4] [G1 G2 G3]. destruct (protect_bits (m_access r) prot Hok) as (_ & P2 & P3 & P4 & P5).
  unfold prot_wx in M1. split; cbn [mg_object mg_access protected mapping_of] in *.
  - intros pages Hp. rewrite P3. eauto.
  - rewrite P2, P5. intros Hw. unfold has_been_executable in M3. rewrite (M3 Hw). rewrite Hw in M1. by cbn in M1.
  - rewrite P3, P4. intros Hx. destruct (has_bit prot PROT_WRITE) eqn:Ew; [by rewrite Hx in M1|].
    rewrite orb_false_r. intros Hw. destruct (M2 Hx Hw) as (_ & _ & _ & i & pages & L1 & L2). by exists i, pages.
Qed.

(** ** Every call keeps the invariant *)

Lemma fresh_inv b n : user_span b n -> call_inv (fresh_space b n) ∅.
Proof using.
  intros (H1 & H2 & H3 & H4 & H5). split.
  - split; [split|..].
    + exact om_empty_law.
    + split; cbn; try done; try lia.
      * split; cbn; [lia|constructor; [|constructor]|done]. split; cbn; done || lia.
      * by intros id r [? _].
      * by intros id r id' r' [? _].
      * by intros id r x [? _].
    + by intros id vm map Hv.
    + by intros rg id Hrg.
    + by intros p e Hp.
    + by intros id r Hr.
  - by intros i vm Hi.
  - intros x m (id & r & [Hr _] & _). done.
Qed.

Lemma unchanged_inv s c s' : call_inv s c -> unchanged s c s' -> call_inv s' c.
Proof using.
  intros [V1 V2 V3] [U1 U2 U3 U4 U5]. split; [done| |].
  - intros i v. rewrite U4, U5. apply V2.
  - intros x m Hm%U2. rewrite U4. by apply (V3 x).
Qed.

Lemma relabelled_inv s c s' : call_inv s c -> relabelled s c s' -> call_inv s' c.
Proof using.
  intros [V1 V2 V3] [U1 U2 U3 U4 U5]. split; [done| |].
  - intros i v. rewrite U4, U5. apply V2.
  - intros x m Hm. destruct (U2 x m Hm) as (m0 & Hm0 & E1 & E2 & E3). rewrite U4.
    destruct (V3 x m0 Hm0) as [G1 G2 G3]. split; rewrite ?E1, ?E3; done.
Qed.

Lemma reduced_inv s c s' c' : call_inv s c -> reduced s c s' c' -> call_inv s' c'.
Proof using.
  intros [V1 V2 V3] [R1 R2 R3 R4 R5 R6]. split; [done|done|]. intros x m Hm%R2.
  apply (mapping_good_mono s c _ x); eauto.
Qed.

Lemma kept_inv s c s' : call_inv s c -> kept s c s' -> call_inv s' c.
Proof using.
  intros [V1 V2 V3] [K1 K2 K3 K4 K5 K6]. split; [done|done|]. intros x m Hm%K2.
  apply (mapping_good_mono s c _ x); eauto.
Qed.

Lemma reprotected_inv s c id r rg prot s' c' :
  call_inv s c -> owns (m_objects s) c id r -> inside r rg -> may_have w s prot r ->
  reprotected s c rg prot s' c' -> call_inv s' c'.
Proof using.
  intros [V1 V2 V3] Ho Hin Hmay [R1 R2 R3 R4 R5]. pose proof (in_layout _ _ (st_inv _ _ _ V1)) as L. split; [done| |].
  - intros i v. rewrite R4, R5. apply V2.
  - intros x m. rewrite R2, R4. intros [(Hx & m0 & Hm0 & ->) |[_ Hm]]; [|by apply (V3 x)].
    pose proof (V3 x m0 Hm0) as Hg. apply (mapping_at_region s c id r x m0 L Ho) in Hm0 as ->.
    + apply protected_good; [|done|done]. apply (ly_good _ _ _ _ L id r Ho).
    + unfold in_region, in_range, inside in *. lia.
Qed.

Lemma unmapped_inv s c rg s' c' : call_inv s c -> unmapped s c rg s' c' -> call_inv s' c'.
Proof using.
  intros [V1 V2 V3] [U1 U2 U3 U4 U5 U6]. split; [done| |].
  - intros i v. rewrite U5, U6. apply V2.
  - intros x m [Hm _]%U2. rewrite U5. by apply (V3 x).
Qed.

Lemma mapped_new_inv s c params rg s' c' : call_inv s c -> mapped_new s c params rg s' c' -> call_inv s' c'.
Proof using.
  intros [V1 V2 V3] [N1 N2 N3 N4 N5 (vm & name & Hmade & N6) [N7 N8] N9 N10 N11]. split; [done|done|].
  intros x m [Hm|[Hx ->]]%N6; [apply (mapping_good_mono s c _ x); eauto|].
  apply (initial_good _ _ (mp_prot params)); [done|done|]. intros pages Hp. apply N8.
  destruct Hmade as (cls & pg & Hv & Hcls & _). apply Hcls. cbn in Hp. congruence.
Qed.

Lemma privatised_inv s c id r s' c' :
  call_inv s c -> owns (m_objects s) c id r -> privatised s c r s' c' -> call_inv s' c'.
Proof using.
  intros [V1 V2 V3] Ho [P1 (vm & i & pages & Hvm & P2) P3 P4 P5]. split; [done|done|].
  intros x m [[Hm _] |[Hx ->]]%P2; [apply (mapping_good_mono s c _ x); eauto|].
  apply (initial_good _ _ (region_access_flags_to_prot (m_access r))); [done| |].
  - apply prot_of_access_wx. apply (inv_good s c id r (st_inv _ _ _ V1) Ho).
  - intros pg Hp. cbn in Hp. congruence.
Qed.

Lemma sound_params s c params :
  state s c [] -> sound s (CallMmap params) ->
  forall ps, params = Some ps -> 0 <= mp_size ps < 2 ^ 32 /\
    exists k, 0 < mp_size ps <= 0xfffff000 -> sound_range s ps k.
Proof using.
  intros Hst Hs ps Hps. destruct (Hs ps Hps) as (Hsz & k & Hal & Hk & Ha). split; [done|]. exists k. intros Hpos.
  split; [done|]. split; [done|]. split; [done|]. destruct Ha as [?|(A1 & A2 & A3)]; [by left|right].
  destruct (pages_of_bounds _ Hpos) as (P1 & P2 & P3). split; cbn; done || lia.
Qed.

Lemma perform_inv p s c k :
  call_inv s c -> sound s k ->
  match perform w p s k with
  | Ok (s', r) => exists c', call_inv s' c'
  | Fault f => f = VerifyFailed /\ may_stop s k
  end.
Proof using.
  intros Hv Hs. pose proof (cv_state _ _ Hv) as Hst. pose proof (cv_shared _ _ Hv) as Hsh.
  assert (forall a, tables a = true) as Ht by done. destruct k as [params|a n prot|a n|params|params|a]; cbn [perform].
  - pose proof (sys_mmap_ok tables Ht w p s c params Hst Hsh (sound_params s c params Hst Hs)) as Ho.
    destruct (sys_mmap tables w p s params) as [[s' [v|e|]]|f]; [|exists c; by apply (kept_inv s)..|done].
    destruct Ho as (ps & rg & c' & _ & _ & Hn). exists c'. by apply (mapped_new_inv s c ps rg).
  - destruct Hs as [Ha Hn]. pose proof (sys_mprotect_ok tables Ht w p s c a n prot Hst Ha Hn) as Ho.
    destruct (sys_mprotect tables w p s a n prot) as [[s' [v|e|]]|f]; [|exists c; by apply (unchanged_inv s)..|].
    + destruct Ho as (_ & c' & id & r & Hr & Hin & _ & Hmay & Hre). exists c'. by apply (reprotected_inv s c id r (spanned a n) prot).
    + destruct Ho as (-> & id & r & [Hr _] & Hrest). split; [done|]. by exists id, r.
  - destruct Hs as (Ha & Hn & id & r & Hr & Hin).
    assert (exists id r, owns (m_objects s) c id r /\ inside r (spanned a n)) as Hw.
    { exists id, r. split; [|done]. destruct (st_settled _ _ _ Hst id r Hr) as [?%not_elem_of_nil|[? _]]; done. }
    pose proof (sys_munmap_ok tables Ht p s c a n Hst Ha Hn Hw) as Ho.
    destruct (sys_munmap tables p s a n) as [[s' [v|e|]]|f]; [|exists c; by apply (unchanged_inv s)..|].
    + destruct Ho as (_ & c' & _ & _ & _ & _ & _ & Hum). exists c'. by apply (unmapped_inv s c (spanned a n)).
    + destruct Ho as (-> & i & q & [Hq _] & Hrest). split; [done|]. by exists i, q.
  - pose proof (sys_mremap_ok tables Ht w p s c params Hst Hsh Hs) as Ho.
    destruct (sys_mremap tables w p s params) as [[s' [v|e|]]|f]; [| | |done].
    + destruct Ho as (c' & id & r & Hr & _ & _ & _ & Hp). exists c'. by apply (privatised_inv s c id r).
    + destruct Ho as (c' & Hr). exists c'. by apply (reduced_inv s c).
    + destruct Ho as (c' & Hr). exists c'. by apply (reduced_inv s c).
  - pose proof (sys_set_mmap_name_ok w p s c params Hst Hs) as Ho.
    destruct (sys_set_mmap_name w p s params) as [[s' r]|f]; [|done]. exists c. by apply (relabelled_inv s).
  - pose proof (sys_msyscall_ok s c a Hst Hs) as Ho.
    destruct (sys_msyscall s a) as [[s' r]|f]; [|done]. exists c. by apply (relabelled_inv s).
Qed.

Lemma space_reachable_inv s : reachable w s -> exists c, call_inv s c.
Proof using.
  induction 1 as [b n Hb|s p k s' r _ [c Hc] Hs E].
  - exists ∅. by apply fresh_inv.
  - pose proof (perform_inv p s c k Hc Hs) as H. by rewrite E in H.
Qed.

End Run.
End MmapRun.

(** ** Properties *)

Import MmapRun.



(** C25: [mprotect] that succeeds changes the protection of the pages the range touches,
    records it, and changes nothing else; a call that fails changes nothing. *)
Theorem mprotect_changes_range w s p addr size_ prot :
  reachable w s -> word addr -> word size_ ->
  let rg := spanned addr size_ in
  match perform w p s (CallMprotect addr size_ prot) with
  | Ok (s', Returned _) => forall x m, shown s' x m <->
      (in_range rg x /\ exists m0, shown s x m0 /\ m = protected prot m0) \/ (~ in_range rg x /\ shown s x m)
  | Ok (s', _) => forall x m, shown s' x m <-> shown s x m
  | Fault _ => may_stop s (CallMprotect addr size_ prot)
  end.
Proof.
  intros [c Hc]%space_reachable_inv Ha Hn rg. pose proof (cv_state _ _ _ Hc) as Hst. cbn [perform].
  pose proof (sys_mprotect_ok tables (fun _ => eq_refl) w p s c addr size_ prot Hst Ha Hn) as Ho.
  destruct (sys_mprotect tables w p s addr size_ prot) as [[s' [v|e|]]|f].
  - destruct Ho as (_ & c' & id & r & _ & _ & _ & _ & [R1 R2 _ _ _]). intros x m.
    rewrite (shown_mapping s' c' x m R1), R2. by setoid_rewrite (fun m => shown_mapping s c x m Hst).
  - destruct Ho as [U1 U2 _ _ _]. intros x m. by rewrite (shown_mapping s' c x m U1), (shown_mapping s c x m Hst).
  - destruct Ho as [U1 U2 _ _ _]. intros x m. by rewrite (shown_mapping s' c x m U1), (shown_mapping s c x m Hst).
  - destruct Ho as (_ & id & r & [Hr _] & Hrest). by exists id, r.
Qed.

(** [munmap] of pages of a region that succeeds removes the mapping of exactly the
    pages the range touches and makes exactly their addresses available again. *)
Theorem munmap_frees_range w s p addr size_ :
  reachable w s -> sound s (CallMunmap addr size_) ->
  let rg := spanned addr size_ in
  match perform w p s (CallMunmap addr size_) with
  | Ok (s', Returned _) => (forall x m, shown s' x m <-> shown s x m /\ ~ in_range rg x) /\
      (forall x, is_free (m_range_allocator s') x <-> is_free (m_range_allocator s) x \/ in_range rg x)
  | Ok (s', _) => forall x m, shown s' x m <-> shown s x m
  | Fault _ => may_stop s (CallMunmap addr size_)
  end.
Proof.
  intros [c Hc]%space_reachable_inv (Ha & Hn & id & r & Hr & Hin) rg. pose proof (cv_state _ _ _ Hc) as Hst. cbn [perform].
  assert (exists id r, owns (m_objects s) c id r /\ inside r rg) as Hw.
  { exists id, r. split; [|done]. destruct (st_settled _ _ _ Hst id r Hr) as [?%not_elem_of_nil|[? _]]; done. }
  pose proof (sys_munmap_ok tables (fun _ => eq_refl) p s c addr size_ Hst Ha Hn Hw) as Ho.
  destruct (sys_munmap tables p s addr size_) as [[s' [v|e|]]|f].
  - destruct Ho as (_ & c' & _ & _ & _ & _ & _ & [U1 U2 U3 _ _ _]). split; [|done]. intros x m.
    by rewrite (shown_mapping s' c' x m U1), U2, (shown_mapping s c x m Hst).
  - destruct Ho as [U1 U2 _ _ _]. intros x m. by rewrite (shown_mapping s' c x m U1), (shown_mapping s c x m Hst).
  - destruct Ho as [U1 U2 _ _ _]. intros x m. by rewrite (shown_mapping s' c x m U1), (shown_mapping s c x m Hst).
  - destruct Ho as (_ & i & q & [Hq _] & Hrest). by exists i, q.
Qed.

(** [mmap] that succeeds maps a range of the asked size, at the address asked for
    when it is fixed, that was available before and is not any more; everything
    else shows what it showed.  A call that fails changes no mapping. *)
Theorem mmap_maps_fresh_range w s p params :
  reachable w s -> sound s (CallMmap params) ->
  match perform w p s (CallMmap params) with
  | Ok (s', Returned v) => exists ps rg vm name, params = Some ps /\ v = m_base rg /\
      m_size rg = pages_of (mp_size ps) /\
      (has_bit (mp_flags ps) MAP_FIXED = true -> mp_addr ps <> 0 -> v = mp_addr ps) /\
      (forall x, in_range rg x -> is_free (m_range_allocator s) x) /\
      (forall x, is_free (m_range_allocator s') x <-> is_free (m_range_allocator s) x /\ ~ in_range rg x) /\
      (forall x m, shown s' x m <-> shown s x m \/ (in_range rg x /\ m = new_mapping_of ps rg vm name x))
  | Ok (s', _) => forall x m, shown s' x m <-> shown s x m
  | Fault _ => False
  end.
Proof.
  intros [c Hc]%space_reachable_inv Hs. pose proof (cv_state _ _ _ Hc) as Hst. cbn [perform].
  pose proof (sys_mmap_ok tables (fun _ => eq_refl) w p s c params Hst (cv_shared _ _ _ Hc) (sound_params s c params Hst Hs)) as Ho.
  destruct (sys_mmap tables w p s params) as [[s' [v|e|]]|f]; [| | |done].
  - destruct Ho as (ps & rg & c' & Hp & -> & [N1 N2 N3 N4 N5 (vm & name & _ & N6) _ _ _ _]).
    exists ps, rg, vm, name. do 6 (split; [done|]). intros x m.
    by rewrite (shown_mapping s' c' x m N1), N6, (shown_mapping s c x m Hst).
  - destruct Ho as [U1 U2 _ _ _]. intros x m. by rewrite (shown_mapping s' c x m U1), (shown_mapping s c x m Hst).
  - destruct Ho as [U1 U2 _ _ _]. intros x m. by rewrite (shown_mapping s' c x m U1), (shown_mapping s c x m Hst).
Qed.

(** ** An example *)

Module MmapExample.

(** One file of two pages that anybody may use, open as file descriptor 3. *)
Definition example_inode : inode := mkInode 0x2000 (InodeMetadata.mkMetadata 438 0 0) false.
Definition example_world : world :=
  mkWorld (fun _ => example_inode)
    (fun fd => if fd =? 3 then Some (mkDescription false true true (Some 1%positive) "file") else None)
    (fun _ => 0) true 4096.

(** A process without privileges, with or without promises. *)
Definition example_process (has_promises : bool) (promises : Z) : Process.process :=
  Process.mkProcess 7 1 7 100 100 100 100 100 100 [] false has_promises promises false 0 0 None false false.
Definition anybody : Process.process := example_process false 0.

Definition anonymous (addr size_ alignment flags prot : Z) : call :=
  CallMmap (Some (mkMmapParams addr size_ alignment prot flags 0 0 None)).
Definition of_file (addr size_ flags prot off : Z) : call :=
  CallMmap (Some (mkMmapParams addr size_ 0x1000 prot flags 3 off None)).

Definition after (s : AddressSpace) (k : call) : AddressSpace :=
  match perform example_world anybody s k with Ok (s', _) => s' | Fault _ => s end.
Definition runs_on (s : AddressSpace) (k : call) : bool :=
  match perform example_world anybody s k with Ok _ => true | Fault _ => false end.

Lemma reach_after s k :
  reachable example_world s -> sound s k -> runs_on s k = true -> reachable example_world (after s k).
Proof.
  intros Hr Hs. unfold runs_on, after. destruct (perform _ _ s k) as [[s' r]|] eqn:E; [|done]. intros _.
  by apply (reach_call example_world s anybody k s' r).
Qed.

Definition empty : AddressSpace := fresh_space 0x00800000 0x100000.
Definition first_params : mmap_params := mkMmapParams 0x00810000 0x4000 0x1000 3 0x22 0 0 None.
Definition first_call : call := CallMmap (Some first_params).
Definition one_mapping : AddressSpace := after empty first_call.
Definition second_call : call := CallMprotect 0x00811000 0x1000 1.
Definition three_mappings : AddressSpace := after one_mapping second_call.

Lemma empty_reachable : reachable example_world empty.
Proof. apply reach_fresh. unfold user_span. by vm_compute. Qed.

Lemma first_sound : sound empty first_call.
Proof.
  intros ps [= <-]. cbn. unfold word. split; [lia|]. exists 12. split; [done|]. split; [lia|]. right. by vm_compute.
Qed.

Lemma one_reachable : reachable example_world one_mapping.
Proof. apply reach_after; [apply empty_reachable|apply first_sound|by vm_compute]. Qed.

Lemma three_reachable : reachable example_world three_mappings.
Proof. apply reach_after; [apply one_reachable|unfold sound, word; cbn; lia|by vm_compute]. Qed.

Definition answer (o : res (AddressSpace * result)) : option result :=
  match o with Ok (_, r) => Some r | Fault _ => None end.

Definition region_of (s : AddressSpace) (id : positive) : Region :=
  match m_objects s !! id with
  | Some r => r
  | None => mkRegion (mkRange 0 0) 0 1%positive EmptyString 0 false false false false false false
  end.

(** The page the examples change, and the region it is in. *)
Lemma example_page : in_range (spanned 0x00811000 0x1000) 0x00811000.
Proof. vm_compute. split; [discriminate|reflexivity]. Qed.

Lemma example_region :
  exists r, m_objects one_mapping !! 1%positive = Some r /\ inside r (spanned 0x00811000 0x1000) /\ in_region r 0x00811000 /\ has_bit (protect (m_access r) 1) Write = false.
Proof.
  exists (region_of one_mapping 1%positive). split; [vm_compute; reflexivity|].
  split; [vm_compute; split; discriminate|]. split; [vm_compute; split; [discriminate|reflexivity]|].
  vm_compute. reflexivity.
Qed.

Lemma part_sound : sound one_mapping (CallMunmap 0x00811000 0x1000).
Proof.
  unfold sound, word. split; [lia|]. split; [lia|]. destruct example_region as (r & Hr & Hin & _).
  exists 1%positive, r. exact (conj Hr Hin).
Qed.

End MmapExample.
Import MmapExample.



Lemma mprotect_changes_range_witness :
  exists s', perform example_world anybody one_mapping second_call = Ok (s', Returned 0) /\
  exists m, shown s' 0x00811000 m /\ has_bit (mg_access m) Write = false.
Proof.
  assert (answer (perform example_world anybody one_mapping second_call) = Some (Returned 0)) as Ha
    by (vm_compute; reflexivity).
  assert (word 0x00811000 /\ word 0x1000) as [W1 W2] by (unfold word; lia).
  pose proof (mprotect_changes_range example_world one_mapping anybody 0x00811000 0x1000 1 one_reachable W1 W2) as H.
  cbv zeta in H. fold second_call in H. revert Ha H.
  destruct (perform example_world anybody one_mapping second_call) as [[s' r]|f]; cbn [answer]; [|discriminate].
  intros [= ->] H. exists s'. split; [reflexivity|]. destruct example_region as (r & Hr & _ & Hx & Hw).
  exists (protected 1 (mapping_of r 0x00811000)). split; [|exact Hw]. apply H. left. split; [exact example_page|].
  exists (mapping_of r 0x00811000). split; [|reflexivity]. exists 1%positive, r.
  split; [exact Hr|]. split; [exact Hx|reflexivity].
Defined.

Lemma munmap_frees_range_witness :
  exists s', perform example_world anybody one_mapping (CallMunmap 0x00811000 0x1000) = Ok (s', Returned 0) /\
  is_free (m_range_allocator s') 0x00811000 /\ forall m, ~ shown s' 0x00811000 m.
Proof.
  assert (answer (perform example_world anybody one_mapping (CallMunmap 0x00811000 0x1000)) = Some (Returned 0)) as Ha
    by (vm_compute; reflexivity).
  pose proof (munmap_frees_range example_world one_mapping anybody 0x00811000 0x1000 one_reachable part_sound) as H.
  cbv zeta in H. revert Ha H.
  destruct (perform example_world anybody one_mapping (CallMunmap 0x00811000 0x1000)) as [[s' r]|f];
    cbn [answer]; [|discriminate].
  intros [= ->] [H1 H2]. exists s'. split; [reflexivity|]. split; [apply H2; right; exact example_page|].
  intros m [_ Hm]%H1. exact (Hm example_page).
Defined.

Lemma mmap_maps_fresh_range_witness :
  exists s', perform example_world anybody empty (CallMmap (Some first_params)) = Ok (s', Returned 0x00810000) /\
  ~ is_free (m_range_allocator s') 0x00813fff.
Proof.
  assert (answer (perform example_world anybody empty (CallMmap (Some first_params))) = Some (Returned 0x00810000))
    as Ha by (vm_compute; reflexivity).
  pose proof (mmap_maps_fresh_range example_world empty anybody (Some first_params) empty_reachable first_sound) as H.
  revert Ha H.
  destruct (perform example_world anybody empty (CallMmap (Some first_params))) as [[s' r]|f];
    cbn [answer]; [|discriminate].
  intros [= ->] (ps & rg & vm & name & Hps & Hb & Hsz & _ & _ & Hf & _). exists s'. split; [reflexivity|].
  intros [_ Hn]%Hf. apply Hn. unfold in_range. rewrite <- Hb, Hsz. injection Hps as <-.
  vm_compute. split; [discriminate|reflexivity].
Defined.

(** An unprivileged process stops the kernel: with an address outside of the address
    space as a hint, with an alignment of zero, and by changing the protection of,
    or unmapping, a part of anonymous memory that was mapped shared. *)
Theorem memory_calls_stop_kernel :
  perform example_world anybody empty (anonymous 0x1000 0x1000 0x1000 0x22 3) = Fault VerifyFailed /\
  perform example_world anybody empty (anonymous 0 0x1000 0 0x22 3) = Fault VerifyFailed /\
  let s := after empty (anonymous 0x00810000 0x4000 0x1000 0x21 3) in
  perform example_world anybody s (CallMprotect 0x00811000 0x1000 1) = Fault VerifyFailed /\
  perform example_world anybody s (CallMunmap 0x00811000 0x1000) = Fault VerifyFailed.
Proof. vm_compute. repeat split. Qed.

(** Unmapping memory that is not mapped makes its addresses available a second time,
    so that two fixed mappings of the same address both succeed. *)
Theorem unmapped_range_mapped_twice :
  let s := after empty (CallMunmap 0x00811000 0x1000) in
  let fixed := anonymous 0x00811000 0x1000 0x1000 0x32 3 in
  answer (perform example_world anybody s fixed) = Some (Returned 0x00811000) /\
  answer (perform example_world anybody (after s fixed) fixed) = Some (Returned 0x00811000) /\
  exists id r id' r', m_objects (after (after s fixed) fixed) !! id = Some r /\
    m_objects (after (after s fixed) fixed) !! id' = Some r' /\ id <> id' /\ m_range r = m_range r'.
Proof.
  cbv zeta. split; [vm_compute; reflexivity|]. split; [vm_compute; reflexivity|].
  match goal with |- exists id r id' r', m_objects ?s !! _ = _ /\ _ =>
    exists 1%positive, (region_of s 1), 2%positive, (region_of s 2) end.
  split; [vm_compute; reflexivity|]. split; [vm_compute; reflexivity|]. split; [discriminate|vm_compute; reflexivity].
Qed.

(** Unmapping a range that covers parts of two regions reports that there is no
    memory, after the first of them is cut and left unmapped.  A file offset of
    4 GiB maps the start of the file.  A process that promised not to map fixed
    addresses does so.  A private copy forgets that its pages were writable, and
    they become executable. *)
Theorem memory_calls_misbehave :
  (let s := after (after empty (anonymous 0x00810000 0x2000 0x1000 0x22 3)) (anonymous 0x00812000 0x2000 0x1000 0x22 3) in
   answer (perform example_world anybody s (CallMunmap 0x00811000 0x2000)) = Some (Failed ENOMEM) /\
   exists r, m_objects (after s (CallMunmap 0x00811000 0x2000)) !! 3%positive = Some r /\
     m_range r = mkRange 0x00810000 0x1000 /\ m_mapped r = false) /\
  (exists r, m_objects (after empty (of_file 0x00810000 0x1000 2 1 (2 ^ 32))) !! 1%positive = Some r /\
     m_offset_in_vmobject r = 0) /\
  answer (perform example_world (example_process true 1) empty (anonymous 0x00810000 0x1000 0x1000 0x32 3))
    = Some (Returned 0x00810000) /\
  (let s := after empty (of_file 0x00810000 0x1000 1 3 0) in
   answer (perform example_world anybody s (CallMprotect 0x00810000 0x1000 5)) = Some (Failed EINVAL) /\
   let s := after (after s (CallMprotect 0x00810000 0x1000 1)) (CallMremap (Some (0x00810000, 0x1000, 2))) in
   answer (perform example_world anybody s (CallMprotect 0x00810000 0x1000 5)) = Some (Returned 0)).
Proof.
  cbv zeta. repeat split; try (vm_compute; reflexivity).
  - match goal with |- exists r, m_objects ?s !! _ = _ /\ _ => exists (region_of s 3) end.
    repeat split; vm_compute; reflexivity.
  - match goal with |- exists r, m_objects ?s !! _ = _ /\ _ => exists (region_of s 1) end.
    repeat split; vm_compute; reflexivity.
Qed.
