(* ===== verification/Tcp.v ===== *)
(** * Kernel/Net/TCPSocket and the TCP part of Kernel/Net/NetworkTask

    The sockets live in a store; [sockets_by_tuple], [closing_sockets], the weak
    reference to the originator and the queues of a listener hold their numbers.
    [handle_tcp] is the whole packet handler.  What lies outside is a parameter:
    which addresses are local, whether a packet can be routed, whether the adapter
    accepts it, whether the receive buffer has room, the clock and the random
    numbers.  Waking the threads that poll a socket has no state and is left
    out. *)

From stdpp Require Import gmap.
From S2P Require Import Prelude AKTime.

Module Packets.

(** [TCPFlags] *)
Definition FIN : Z := 0x01.
Definition SYN : Z := 0x02.
Definition RST : Z := 0x04.
Definition PUSH : Z := 0x08.
Definition ACK : Z := 0x10.

(** [TCPPacket], with the bytes that follow the header. *)
Record Packet := mkPacket {
  source_port : Z;
  destination_port : Z;
  sequence_number : Z;
  ack_number : Z;
  m_flags_and_data_offset : Z;
  window_size : Z;
  checksum : Z;
  urgent : Z;
  payload : list Z;
}.

Definition sizeof_TCPPacket : Z := 20.

Definition flags (p : Packet) : Z := Z.land (m_flags_and_data_offset p) 0x1ff.
Definition data_offset (p : Packet) : Z := Z.shiftr (Z.land (m_flags_and_data_offset p) 0xf000) 12.
Definition header_size (p : Packet) : Z := data_offset p * 4.
Definition has_syn (p : Packet) : bool := negb (Z.land (flags p) SYN =? 0).
Definition has_ack (p : Packet) : bool := negb (Z.land (flags p) ACK =? 0).
Definition has_fin (p : Packet) : bool := negb (Z.land (flags p) FIN =? 0).
Definition has_rst (p : Packet) : bool := negb (Z.land (flags p) RST =? 0).

Definition with_checksum (p : Packet) (c : Z) : Packet :=
  mkPacket (source_port p) (destination_port p) (sequence_number p) (ack_number p) (m_flags_and_data_offset p)
    (window_size p) c (urgent p) (payload p).

(** The 16-bit words of a 32-bit value, of the header, and of the payload, with a
    last odd byte expanded. *)
Definition halves (v : Z) : list Z := [Z.shiftr v 16; Z.land v 0xffff].

Definition header_words (p : Packet) : list Z :=
  [source_port p; destination_port p] ++ halves (sequence_number p) ++ halves (ack_number p) ++
  [m_flags_and_data_offset p; window_size p; checksum p; urgent p].

Fixpoint payload_words (bytes : list Z) : list Z :=
  match bytes with
  | [] => []
  | [b] => [Z.shiftl b 8]
  | b :: c :: bytes => (Z.shiftl b 8 + c) :: payload_words bytes
  end.

(** The pseudo header; 6 is the protocol number of TCP. *)
Definition pseudo_header_words (source destination payload_size : Z) : list Z :=
  halves source ++ halves destination ++ [6; wrap U16 (sizeof_TCPPacket + payload_size)].

Definition add_word (checksum w : Z) : Z :=
  let checksum := wrap U32 (checksum + w) in
  if 0xffff <? checksum then wrap U32 (Z.shiftr checksum 16 + Z.land checksum 0xffff) else checksum.

Definition add_words (checksum : Z) (l : list Z) : Z := foldl add_word checksum l.

Definition compute_tcp_checksum (source destination : Z) (packet : Packet) (payload_size : Z) : res Z :=
  let checksum := add_words 0 (pseudo_header_words source destination payload_size) in
  let checksum := add_words checksum (header_words packet) in
  VERIFY data_offset packet * 4 =? sizeof_TCPPacket ;;
  let checksum := add_words checksum (payload_words (payload packet)) in
  Ok (wrap U16 (Z.lnot (Z.land checksum 0xffff))).

End Packets.

Module Tcp.
Import Packets.

(** Local address and port, peer address and port. *)
Abbreviation tuple := (Z * Z * Z * Z)%type.

Inductive Direction := Unspecified | Outgoing | Incoming | Passive.
Inductive State := Closed | Listen | SynSent | SynReceived | Established | CloseWait | LastAck | FinWait1 | FinWait2 | Closing | TimeWait.
Inductive Error := NoError | FINDuringConnect | RSTDuringConnect | UnexpectedFlagsDuringConnect.
Inductive Role := NoRole | Listener | Accepted | Connected | Connecting.
Inductive SetupState := Unstarted | InProgress | Completed.

#[global] Instance State_eq_dec : EqDecision State.
Proof. solve_decision. Defined.

(** [EADAPTER] stands for whatever error the adapter returns. *)
Inductive errno := EHOSTUNREACH | EADDRINUSE | EFAULT | EINPROGRESS | EISCONN | EACCES | EADDRNOTAVAIL | EADAPTER.

Record OutgoingPacket := mkOutgoingPacket {
  op_ack_number : Z;
  op_packet : Packet;
  op_tx_counter : Z;
  op_tx_time : Time.Time;
}.

Record TCPSocket := mkTCPSocket {
  m_local_address : Z;
  m_local_port : Z;
  m_peer_address : Z;
  m_peer_port : Z;
  m_originator : option nat;
  m_pending_release_for_accept : gmap tuple nat;
  m_direction : Direction;
  m_error : Error;
  m_sequence_number : Z;
  m_ack_number : Z;
  m_state : State;
  m_packets_in : Z;
  m_bytes_in : Z;
  m_packets_out : Z;
  m_bytes_out : Z;
  m_not_acked : list OutgoingPacket;
  m_role : Role;
  m_setup_state : SetupState;
  m_connected : bool;
  m_backlog : Z;
  m_pending : list nat;
  m_shut_down_for_reading : bool;
  m_shut_down_for_writing : bool;
  m_receive_log : list Packet;
}.

Definition with_local_address (v : Z) (s : TCPSocket) : TCPSocket :=
  mkTCPSocket v (m_local_port s) (m_peer_address s) (m_peer_port s) (m_originator s)
    (m_pending_release_for_accept s) (m_direction s) (m_error s) (m_sequence_number s) (m_ack_number s) (m_state s)
    (m_packets_in s) (m_bytes_in s) (m_packets_out s) (m_bytes_out s) (m_not_acked s) (m_role s) (m_setup_state s)
    (m_connected s) (m_backlog s) (m_pending s) (m_shut_down_for_reading s) (m_shut_down_for_writing s)
    (m_receive_log s).
Definition with_local_port (v : Z) (s : TCPSocket) : TCPSocket :=
  mkTCPSocket (m_local_address s) v (m_peer_address s) (m_peer_port s) (m_originator s)
    (m_pending_release_for_accept s) (m_direction s) (m_error s) (m_sequence_number s) (m_ack_number s) (m_state s)
    (m_packets_in s) (m_bytes_in s) (m_packets_out s) (m_bytes_out s) (m_not_acked s) (m_role s) (m_setup_state s)
    (m_connected s) (m_backlog s) (m_pending s) (m_shut_down_for_reading s) (m_shut_down_for_writing s)
    (m_receive_log s).
Definition with_peer_address (v : Z) (s : TCPSocket) : TCPSocket :=
  mkTCPSocket (m_local_address s) (m_local_port s) v (m_peer_port s) (m_originator s)
    (m_pending_release_for_accept s) (m_direction s) (m_error s) (m_sequence_number s) (m_ack_number s) (m_state s)
    (m_packets_in s) (m_bytes_in s) (m_packets_out s) (m_bytes_out s) (m_not_acked s) (m_role s) (m_setup_state s)
    (m_connected s) (m_backlog s) (m_pending s) (m_shut_down_for_reading s) (m_shut_down_for_writing s)
    (m_receive_log s).
Definition with_peer_port (v : Z) (s : TCPSocket) : TCPSocket :=
  mkTCPSocket (m_local_address s) (m_local_port s) (m_peer_address s) v (m_originator s)
    (m_pending_release_for_accept s) (m_direction s) (m_error s) (m_sequence_number s) (m_ack_number s) (m_state s)
    (m_packets_in s) (m_bytes_in s) (m_packets_out s) (m_bytes_out s) (m_not_acked s) (m_role s) (m_setup_state s)
    (m_connected s) (m_backlog s) (m_pending s) (m_shut_down_for_reading s) (m_shut_down_for_writing s)
    (m_receive_log s).
Definition with_originator (v : option nat) (s : TCPSocket) : TCPSocket :=
  mkTCPSocket (m_local_address s) (m_local_port s) (m_peer_address s) (m_peer_port s) v
    (m_pending_release_for_accept s) (m_direction s) (m_error s) (m_sequence_number s) (m_ack_number s) (m_state s)
    (m_packets_in s) (m_bytes_in s) (m_packets_out s) (m_bytes_out s) (m_not_acked s) (m_role s) (m_setup_state s)
    (m_connected s) (m_backlog s) (m_pending s) (m_shut_down_for_reading s) (m_shut_down_for_writing s)
    (m_receive_log s).
Definition with_pending_release_for_accept (v : gmap tuple nat) (s : TCPSocket) : TCPSocket :=
  mkTCPSocket (m_local_address s) (m_local_port s) (m_peer_address s) (m_peer_port s) (m_originator s) v
    (m_direction s) (m_error s) (m_sequence_number s) (m_ack_number s) (m_state s) (m_packets_in s) (m_bytes_in s)
    (m_packets_out s) (m_bytes_out s) (m_not_acked s) (m_role s) (m_setup_state s) (m_connected s) (m_backlog s)
    (m_pending s) (m_shut_down_for_reading s) (m_shut_down_for_writing s) (m_receive_log s).
Definition with_direction (v : Direction) (s : TCPSocket) : TCPSocket :=
  mkTCPSocket (m_local_address s) (m_local_port s) (m_peer_address s) (m_peer_port s) (m_originator s)
    (m_pending_release_for_accept s) v (m_error s) (m_sequence_number s) (m_ack_number s) (m_state s)
    (m_packets_in s) (m_bytes_in s) (m_packets_out s) (m_bytes_out s) (m_not_acked s) (m_role s) (m_setup_state s)
    (m_connected s) (m_backlog s) (m_pending s) (m_shut_down_for_reading s) (m_shut_down_for_writing s)
    (m_receive_log s).
Definition with_error (v : Error) (s : TCPSocket) : TCPSocket :=
  mkTCPSocket (m_local_address s) (m_local_port s) (m_peer_address s) (m_peer_port s) (m_originator s)
    (m_pending_release_for_accept s) (m_direction s) v (m_sequence_number s) (m_ack_number s) (m_state s)
    (m_packets_in s) (m_bytes_in s) (m_packets_out s) (m_bytes_out s) (m_not_acked s) (m_role s) (m_setup_state s)
    (m_connected s) (m_backlog s) (m_pending s) (m_shut_down_for_reading s) (m_shut_down_for_writing s)
    (m_receive_log s).
Definition with_sequence_number (v : Z) (s : TCPSocket) : TCPSocket :=
  mkTCPSocket (m_local_address s) (m_local_port s) (m_peer_address s) (m_peer_port s) (m_originator s)
    (m_pending_release_for_accept s) (m_direction s) (m_error s) v (m_ack_number s) (m_state s) (m_packets_in s)
    (m_bytes_in s) (m_packets_out s) (m_bytes_out s) (m_not_acked s) (m_role s) (m_setup_state s) (m_connected s)
    (m_backlog s) (m_pending s) (m_shut_down_for_reading s) (m_shut_down_for_writing s) (m_receive_log s).
Definition with_ack_number (v : Z) (s : TCPSocket) : TCPSocket :=
  mkTCPSocket (m_local_address s) (m_local_port s) (m_peer_address s) (m_peer_port s) (m_originator s)
    (m_pending_release_for_accept s) (m_direction s) (m_error s) (m_sequence_number s) v (m_state s)
    (m_packets_in s) (m_bytes_in s) (m_packets_out s) (m_bytes_out s) (m_not_acked s) (m_role s) (m_setup_state s)
    (m_connected s) (m_backlog s) (m_pending s) (m_shut_down_for_reading s) (m_shut_down_for_writing s)
    (m_receive_log s).
Definition with_state (v : State) (s : TCPSocket) : TCPSocket :=
  mkTCPSocket (m_local_address s) (m_local_port s) (m_peer_address s) (m_peer_port s) (m_originator s)
    (m_pending_release_for_accept s) (m_direction s) (m_error s) (m_sequence_number s) (m_ack_number s) v
    (m_packets_in s) (m_bytes_in s) (m_packets_out s) (m_bytes_out s) (m_not_acked s) (m_role s) (m_setup_state s)
    (m_connected s) (m_backlog s) (m_pending s) (m_shut_down_for_reading s) (m_shut_down_for_writing s)
    (m_receive_log s).
Definition with_packets_in (v : Z) (s : TCPSocket) : TCPSocket :=
  mkTCPSocket (m_local_address s) (m_local_port s) (m_peer_address s) (m_peer_port s) (m_originator s)
    (m_pending_release_for_accept s) (m_direction s) (m_error s) (m_sequence_number s) (m_ack_number s) (m_state s)
    v (m_bytes_in s) (m_packets_out s) (m_bytes_out s) (m_not_acked s) (m_role s) (m_setup_state s) (m_connected s)
    (m_backlog s) (m_pending s) (m_shut_down_for_reading s) (m_shut_down_for_writing s) (m_receive_log s).
Definition with_bytes_in (v : Z) (s : TCPSocket) : TCPSocket :=
  mkTCPSocket (m_local_address s) (m_local_port s) (m_peer_address s) (m_peer_port s) (m_originator s)
    (m_pending_release_for_accept s) (m_direction s) (m_error s) (m_sequence_number s) (m_ack_number s) (m_state s)
    (m_packets_in s) v (m_packets_out s) (m_bytes_out s) (m_not_acked s) (m_role s) (m_setup_state s)
    (m_connected s) (m_backlog s) (m_pending s) (m_shut_down_for_reading s) (m_shut_down_for_writing s)
    (m_receive_log s).
Definition with_packets_out (v : Z) (s : TCPSocket) : TCPSocket :=
  mkTCPSocket (m_local_address s) (m_local_port s) (m_peer_address s) (m_peer_port s) (m_originator s)
    (m_pending_release_for_accept s) (m_direction s) (m_error s) (m_sequence_number s) (m_ack_number s) (m_state s)
    (m_packets_in s) (m_bytes_in s) v (m_bytes_out s) (m_not_acked s) (m_role s) (m_setup_state s) (m_connected s)
    (m_backlog s) (m_pending s) (m_shut_down_for_reading s) (m_shut_down_for_writing s) (m_receive_log s).
Definition with_bytes_out (v : Z) (s : TCPSocket) : TCPSocket :=
  mkTCPSocket (m_local_address s) (m_local_port s) (m_peer_address s) (m_peer_port s) (m_originator s)
    (m_pending_release_for_accept s) (m_direction s) (m_error s) (m_sequence_number s) (m_ack_number s) (m_state s)
    (m_packets_in s) (m_bytes_in s) (m_packets_out s) v (m_not_acked s) (m_role s) (m_setup_state s)
    (m_connected s) (m_backlog s) (m_pending s) (m_shut_down_for_reading s) (m_shut_down_for_writing s)
    (m_receive_log s).
Definition with_not_acked (v : list OutgoingPacket) (s : TCPSocket) : TCPSocket :=
  mkTCPSocket (m_local_address s) (m_local_port s) (m_peer_address s) (m_peer_port s) (m_originator s)
    (m_pending_release_for_accept s) (m_direction s) (m_error s) (m_sequence_number s) (m_ack_number s) (m_state s)
    (m_packets_in s) (m_bytes_in s) (m_packets_out s) (m_bytes_out s) v (m_role s) (m_setup_state s)
    (m_connected s) (m_backlog s) (m_pending s) (m_shut_down_for_reading s) (m_shut_down_for_writing s)
    (m_receive_log s).
Definition with_role (v : Role) (s : TCPSocket) : TCPSocket :=
  mkTCPSocket (m_local_address s) (m_local_port s) (m_peer_address s) (m_peer_port s) (m_originator s)
    (m_pending_release_for_accept s) (m_direction s) (m_error s) (m_sequence_number s) (m_ack_number s) (m_state s)
    (m_packets_in s) (m_bytes_in s) (m_packets_out s) (m_bytes_out s) (m_not_acked s) v (m_setup_state s)
    (m_connected s) (m_backlog s) (m_pending s) (m_shut_down_for_reading s) (m_shut_down_for_writing s)
    (m_receive_log s).
Definition with_setup_state (v : SetupState) (s : TCPSocket) : TCPSocket :=
  mkTCPSocket (m_local_address s) (m_local_port s) (m_peer_address s) (m_peer_port s) (m_originator s)
    (m_pending_release_for_accept s) (m_direction s) (m_error s) (m_sequence_number s) (m_ack_number s) (m_state s)
    (m_packets_in s) (m_bytes_in s) (m_packets_out s) (m_bytes_out s) (m_not_acked s) (m_role s) v (m_connected s)
    (m_backlog s) (m_pending s) (m_shut_down_for_reading s) (m_shut_down_for_writing s) (m_receive_log s).
Definition with_connected (v : bool) (s : TCPSocket) : TCPSocket :=
  mkTCPSocket (m_local_address s) (m_local_port s) (m_peer_address s) (m_peer_port s) (m_originator s)
    (m_pending_release_for_accept s) (m_direction s) (m_error s) (m_sequence_number s) (m_ack_number s) (m_state s)
    (m_packets_in s) (m_bytes_in s) (m_packets_out s) (m_bytes_out s) (m_not_acked s) (m_role s) (m_setup_state s)
    v (m_backlog s) (m_pending s) (m_shut_down_for_reading s) (m_shut_down_for_writing s) (m_receive_log s).
Definition with_backlog (v : Z) (s : TCPSocket) : TCPSocket :=
  mkTCPSocket (m_local_address s) (m_local_port s) (m_peer_address s) (m_peer_port s) (m_originator s)
    (m_pending_release_for_accept s) (m_direction s) (m_error s) (m_sequence_number s) (m_ack_number s) (m_state s)
    (m_packets_in s) (m_bytes_in s) (m_packets_out s) (m_bytes_out s) (m_not_acked s) (m_role s) (m_setup_state s)
    (m_connected s) v (m_pending s) (m_shut_down_for_reading s) (m_shut_down_for_writing s) (m_receive_log s).
Definition with_pending (v : list nat) (s : TCPSocket) : TCPSocket :=
  mkTCPSocket (m_local_address s) (m_local_port s) (m_peer_address s) (m_peer_port s) (m_originator s)
    (m_pending_release_for_accept s) (m_direction s) (m_error s) (m_sequence_number s) (m_ack_number s) (m_state s)
    (m_packets_in s) (m_bytes_in s) (m_packets_out s) (m_bytes_out s) (m_not_acked s) (m_role s) (m_setup_state s)
    (m_connected s) (m_backlog s) v (m_shut_down_for_reading s) (m_shut_down_for_writing s) (m_receive_log s).
Definition with_shut_down_for_reading (v : bool) (s : TCPSocket) : TCPSocket :=
  mkTCPSocket (m_local_address s) (m_local_port s) (m_peer_address s) (m_peer_port s) (m_originator s)
    (m_pending_release_for_accept s) (m_direction s) (m_error s) (m_sequence_number s) (m_ack_number s) (m_state s)
    (m_packets_in s) (m_bytes_in s) (m_packets_out s) (m_bytes_out s) (m_not_acked s) (m_role s) (m_setup_state s)
    (m_connected s) (m_backlog s) (m_pending s) v (m_shut_down_for_writing s) (m_receive_log s).
Definition with_shut_down_for_writing (v : bool) (s : TCPSocket) : TCPSocket :=
  mkTCPSocket (m_local_address s) (m_local_port s) (m_peer_address s) (m_peer_port s) (m_originator s)
    (m_pending_release_for_accept s) (m_direction s) (m_error s) (m_sequence_number s) (m_ack_number s) (m_state s)
    (m_packets_in s) (m_bytes_in s) (m_packets_out s) (m_bytes_out s) (m_not_acked s) (m_role s) (m_setup_state s)
    (m_connected s) (m_backlog s) (m_pending s) (m_shut_down_for_reading s) v (m_receive_log s).
Definition with_receive_log (v : list Packet) (s : TCPSocket) : TCPSocket :=
  mkTCPSocket (m_local_address s) (m_local_port s) (m_peer_address s) (m_peer_port s) (m_originator s)
    (m_pending_release_for_accept s) (m_direction s) (m_error s) (m_sequence_number s) (m_ack_number s) (m_state s)
    (m_packets_in s) (m_bytes_in s) (m_packets_out s) (m_bytes_out s) (m_not_acked s) (m_role s) (m_setup_state s)
    (m_connected s) (m_backlog s) (m_pending s) (m_shut_down_for_reading s) (m_shut_down_for_writing s) v.

(** [TCPSocket::create] *)
Definition make_socket : TCPSocket :=
  mkTCPSocket 0 0 0 0 None ∅ Unspecified NoError 0 0 Closed 0 0 0 0 [] NoRole Unstarted false 0 [] false false [].

Definition tuple_of (s : TCPSocket) : tuple := (m_local_address s, m_local_port s, m_peer_address s, m_peer_port s).

(** The store of sockets and the two tables; [n_wire] is what the adapters were
    given to send. *)
Record net := mkNet {
  n_sockets : gmap nat TCPSocket;
  n_by_tuple : gmap tuple nat;
  n_closing : gmap tuple nat;
  n_wire : list Packet;
}.

Definition get (n : net) (i : nat) : res TCPSocket := of_opt UndefinedBehaviour (n_sockets n !! i).
Definition put (n : net) (i : nat) (s : TCPSocket) : net :=
  mkNet (<[i := s]> (n_sockets n)) (n_by_tuple n) (n_closing n) (n_wire n).
Definition modify (i : nat) (f : TCPSocket -> TCPSocket) (n : net) : res net :=
  let* s := get n i in Ok (put n i (f s)).
Definition transmit (n : net) (l : list Packet) : net :=
  mkNet (n_sockets n) (n_by_tuple n) (n_closing n) (n_wire n ++ l).
Definition register (n : net) (t : tuple) (i : nat) : net :=
  mkNet (n_sockets n) (<[t := i]> (n_by_tuple n)) (n_closing n) (n_wire n).
Definition with_closing (n : net) (c : gmap tuple nat) : net :=
  mkNet (n_sockets n) (n_by_tuple n) c (n_wire n).

Definition from_tuple (n : net) (t : tuple) : option nat :=
  let '(local_address, local_port, _, _) := t in
  match n_by_tuple n !! t with
  | Some i => Some i
  | None =>
      match n_by_tuple n !! (local_address, local_port, 0, 0) with
      | Some i => Some i
      | None => n_by_tuple n !! (0, local_port, 0, 0)
      end
  end.

(** [Socket::queue_connection_from]; an error is ignored by the caller. *)
Definition queue_connection_from (peer : nat) (s : TCPSocket) : TCPSocket :=
  if m_backlog s <=? Z.of_nat (length (m_pending s)) then s else with_pending (m_pending s ++ [peer]) s.

Definition release_for_accept (n : net) (listener socket : nat) : res net :=
  let* l := get n listener in
  let* s := get n socket in
  VERIFY bool_decide (m_pending_release_for_accept l !! tuple_of s <> None) ;;
  Ok (put n listener (queue_connection_from socket
        (with_pending_release_for_accept (delete (tuple_of s) (m_pending_release_for_accept l)) l))).

(** The weak reference is null when the originator is gone. *)
Definition originator (n : net) (s : TCPSocket) : option nat :=
  match m_originator s with
  | Some o => if bool_decide (n_sockets n !! o <> None) then Some o else None
  | None => None
  end.

Definition release_to_originator (i : nat) (n : net) : res net :=
  let* s := get n i in
  let* o := of_opt VerifyFailed (originator n s) in
  let* n := release_for_accept n o i in
  modify i (with_originator None) n.

Definition set_state (i : nat) (new_state : State) (n : net) : res net :=
  let* n := modify i (with_state new_state) n in
  let* s := get n i in
  let* n := match new_state, m_direction s with
            | Established, Outgoing => modify i (with_role Connected) n
            | _, _ => Ok n
            end in
  match new_state with
  | Closed =>
      let* s := get n i in
      let n := with_closing n (delete (tuple_of s) (n_closing n)) in
      match originator n s with
      | Some _ => release_to_originator i n
      | None => Ok n
      end
  | _ => Ok n
  end.

(** [create_client]; the new socket gets the number [fresh]. *)
Definition create_client (i : nat) (t : tuple) (fresh : nat) (n : net) : res (net * option nat) :=
  let '(local_address, local_port, peer_address, peer_port) := t in
  if bool_decide (n_by_tuple n !! t <> None) then Ok (n, None)
  else
    let client :=
      with_originator (Some i) (with_direction Incoming (with_peer_port peer_port (with_peer_address peer_address
        (with_local_port local_port (with_local_address local_address (with_setup_state InProgress make_socket)))))) in
    let n := put n fresh client in
    let* s := get n i in
    let n := put n i (with_pending_release_for_accept (<[t := fresh]> (m_pending_release_for_accept s)) s) in
    let n := register n t fresh in
    Ok (n, from_tuple n t).

Section Environment.
(** [route_to] finds an adapter; the adapter takes the packet; the clock; the
    receive buffer has room ([did_receive]); an adapter has the address. *)
Context (routed : TCPSocket -> bool) (accepts : Packet -> bool) (now : Time.Time).
Context (has_room : TCPSocket -> Packet -> bool) (is_local : Z -> bool).

Definition count_out (p : Packet) (s : TCPSocket) : TCPSocket :=
  with_bytes_out (wrap U32 (m_bytes_out s + sizeof_TCPPacket + Z.of_nat (length (payload p))))
    (with_packets_out (wrap U32 (m_packets_out s + 1)) s).

(** The loop of [send_outgoing_packets]: the packets with their new times, the
    socket with its counters, and what was sent. *)
Fixpoint resend_loop (l : list OutgoingPacket) (s : TCPSocket) : res (list OutgoingPacket * TCPSocket * list Packet) :=
  match l with
  | [] => Ok ([], s, [])
  | packet :: l =>
      let* diff := Time.op_sub now (op_tx_time packet) in
      let* limit := Time.from_nanoseconds 500000000 in
      if Time.op_le diff limit then
        let* (l, s, sent) := resend_loop l s in Ok (packet :: l, s, sent)
      else
        let packet := mkOutgoingPacket (op_ack_number packet) (op_packet packet) (wrap I32 (op_tx_counter packet + 1)) now in
        let ok := accepts (op_packet packet) in
        let* (l, s, sent) := resend_loop l (if ok then count_out (op_packet packet) s else s) in
        Ok (packet :: l, s, if ok then op_packet packet :: sent else sent)
  end.

Definition send_outgoing_packets (i : nat) (n : net) : res net :=
  let* s := get n i in
  if negb (routed s) then Ok n
  else
    let* (l, s, sent) := resend_loop (m_not_acked s) s in
    Ok (transmit (put n i (with_not_acked l s)) sent).

(** The packet [send_tcp_packet] makes, before the checksum. *)
Definition build_packet (s : TCPSocket) (packet_flags : Z) (data : list Z) : Packet :=
  mkPacket (m_local_port s) (m_peer_port s) (m_sequence_number s)
    (if negb (Z.land packet_flags ACK =? 0) then m_ack_number s else 0)
    (Z.lor (Z.land (Z.shiftl 5 12) (Z.lnot 0x1ff)) (Z.land packet_flags 0x1ff)) 1024 0 0 data.

(** [send_tcp_packet]; [readable] says whether the payload can be read. *)
Definition send_tcp_packet (i : nat) (packet_flags : Z) (data : list Z) (readable : bool) (n : net) : res (net * option errno) :=
  let* s := get n i in
  let payload_size := Z.of_nat (length data) in
  VERIFY negb (m_local_port s =? 0) ;;
  let packet := build_packet s packet_flags data in
  if negb readable then Ok (n, Some EFAULT)
  else
    let s := with_sequence_number
               (wrap U32 (m_sequence_number s + (if negb (Z.land packet_flags SYN =? 0) then 1 else payload_size))) s in
    let* c := compute_tcp_checksum (m_local_address s) (m_peer_address s) packet (wrap U16 payload_size) in
    let packet := with_checksum packet c in
    if has_syn packet || (0 <? payload_size) then
      let s := with_not_acked (m_not_acked s ++ [mkOutgoingPacket (m_sequence_number s) packet 0 Time.zero]) s in
      let* n := send_outgoing_packets i (put n i s) in
      Ok (n, None)
    else if negb (routed s) then Ok (put n i s, Some EHOSTUNREACH)
    else if negb (accepts packet) then Ok (put n i s, Some EADAPTER)
    else Ok (transmit (put n i (count_out packet s)) [packet], None).

(** A control packet whose result is ignored. *)
Definition send_control (i : nat) (packet_flags : Z) (n : net) : res net :=
  let* (n, _) := send_tcp_packet i packet_flags [] true n in Ok n.

(** Dropping the packets an acknowledgement covers. *)
Fixpoint drop_acked (ack : Z) (l : list OutgoingPacket) : list OutgoingPacket :=
  match l with
  | [] => []
  | packet :: rest => if op_ack_number packet <=? ack then drop_acked ack rest else l
  end.

Definition receive_tcp_packet (packet : Packet) (size : Z) (s : TCPSocket) : TCPSocket :=
  let s := if has_ack packet then with_not_acked (drop_acked (ack_number packet) (m_not_acked s)) s else s in
  with_bytes_in (wrap U32 (m_bytes_in s + header_size packet + size)) (with_packets_in (wrap U32 (m_packets_in s + 1)) s).

(** [IPv4Socket::did_receive], up to the room in the buffer. *)
Definition did_receive (i : nat) (packet : Packet) (n : net) : res (net * bool) :=
  let* s := get n i in
  if has_room s packet then Ok (put n i (with_receive_log (m_receive_log s ++ [packet]) s), true) else Ok (n, false).

(** An unexpected packet resets the connection. *)
Definition reset (i : nat) (n : net) : res net :=
  let* n := send_control i RST n in set_state i Closed n.

Definition set_ack_number (i : nat) (a : Z) (n : net) : res net := modify i (with_ack_number (wrap U32 a)) n.
Definition set_error (i : nat) (e : Error) (n : net) : res net := modify i (with_error e) n.
Definition set_setup_state (i : nat) (st : SetupState) (n : net) : res net := modify i (with_setup_state st) n.
Definition set_connected (i : nat) (c : bool) (n : net) : res net := modify i (with_connected c) n.

Definition new_id (n : net) : nat := fresh (dom (n_sockets n)).

Definition handle_listen (i : nat) (source destination : Z) (packet : Packet) (payload_size : Z) (n : net) : res net :=
  if flags packet =? SYN then
    let* (n, client) := create_client i (destination, destination_port packet, source, source_port packet) (new_id n) n in
    match client with
    | None => Ok n
    | Some c =>
        let* n := modify c (with_sequence_number 1000) n in
        let* n := set_ack_number c (sequence_number packet + payload_size + 1) n in
        let* n := send_control c (Z.lor SYN ACK) n in
        set_state c SynReceived n
    end
  else Ok n.

(** The end of a failed connection attempt. *)
Definition fail_connect (i : nat) (e : Error) (n : net) : res net :=
  let* n := set_state i Closed n in
  let* n := set_error i e n in
  set_setup_state i Completed n.

Definition handle_syn_sent (i : nat) (packet : Packet) (payload_size : Z) (n : net) : res net :=
  let next := sequence_number packet + payload_size in
  if flags packet =? SYN then
    let* n := set_ack_number i (next + 1) n in
    let* n := send_control i ACK n in
    set_state i SynReceived n
  else if flags packet =? Z.lor ACK SYN then
    let* n := set_ack_number i (next + 1) n in
    let* n := send_control i ACK n in
    let* n := set_state i Established n in
    let* n := set_setup_state i Completed n in
    set_connected i true n
  else if flags packet =? Z.lor ACK FIN then
    let* n := set_ack_number i (next + 1) n in
    let* n := send_control i ACK n in
    fail_connect i FINDuringConnect n
  else if flags packet =? Z.lor ACK RST then
    let* n := set_ack_number i next n in
    let* n := send_control i ACK n in
    fail_connect i RSTDuringConnect n
  else
    let* n := send_control i RST n in
    fail_connect i UnexpectedFlagsDuringConnect n.

Definition handle_syn_received (i : nat) (packet : Packet) (payload_size : Z) (n : net) : res net :=
  if flags packet =? ACK then
    let* n := set_ack_number i (sequence_number packet + payload_size) n in
    let* s := get n i in
    match m_direction s with
    | Incoming =>
        match originator n s with
        | None => reset i n
        | Some _ =>
            let* n := set_state i Established n in
            let* n := set_setup_state i Completed n in
            release_to_originator i n
        end
    | Outgoing =>
        let* n := set_state i Established n in
        let* n := set_setup_state i Completed n in
        set_connected i true n
    | _ => reset i n
    end
  else reset i n.

Definition handle_established (i : nat) (packet : Packet) (payload_size : Z) (n : net) : res net :=
  if has_rst packet then set_state i Closed n
  else if has_fin packet then
    let* n := (if negb (payload_size =? 0) then let* (n, _) := did_receive i packet n in Ok n else Ok n) in
    let* n := set_ack_number i (sequence_number packet + payload_size + 1) n in
    let* n := send_control i ACK n in
    let* n := set_state i CloseWait n in
    set_connected i false n
  else
    let* n := set_ack_number i (sequence_number packet + payload_size) n in
    if negb (payload_size =? 0) then
      let* (n, received) := did_receive i packet n in
      if received : bool then send_control i ACK n else Ok n
    else Ok n.

(** The states of a connection that is being closed. *)
Definition handle_closing (i : nat) (st : State) (packet : Packet) (payload_size : Z) (n : net) : res net :=
  let next := sequence_number packet + payload_size in
  match st with
  | LastAck =>
      if flags packet =? ACK then let* n := set_ack_number i next n in set_state i Closed n else reset i n
  | FinWait1 =>
      if flags packet =? ACK then let* n := set_ack_number i next n in set_state i FinWait2 n
      else if flags packet =? FIN then let* n := set_ack_number i (next + 1) n in set_state i Closing n
      else reset i n
  | FinWait2 =>
      if flags packet =? FIN then let* n := set_ack_number i (next + 1) n in set_state i TimeWait n
      else if flags packet =? Z.lor ACK RST then set_state i Closed n
      else reset i n
  | Closing =>
      if flags packet =? ACK then let* n := set_ack_number i next n in set_state i TimeWait n else reset i n
  | _ => reset i n
  end.

(** [handle_tcp] for a packet of an IPv4 payload of [ipv4_payload_size] bytes. *)
Definition handle_tcp (source destination ipv4_payload_size : Z) (packet : Packet) (n : net) : res net :=
  if ipv4_payload_size <? sizeof_TCPPacket then Ok n
  else if ipv4_payload_size <? header_size packet then Ok n
  else
    let payload_size := ipv4_payload_size - header_size packet in
    if negb (is_local destination) then Ok n
    else
      match from_tuple n (destination, destination_port packet, source, source_port packet) with
      | None => Ok n
      | Some i =>
          let* s := get n i in
          VERIFY m_local_port s =? destination_port packet ;;
          let* n := modify i (receive_tcp_packet packet (wrap U16 ipv4_payload_size)) n in
          let* s := get n i in
          match m_state s with
          | Closed => Ok n
          | Listen => handle_listen i source destination packet payload_size n
          | SynSent => handle_syn_sent i packet payload_size n
          | SynReceived => handle_syn_received i packet payload_size n
          | Established => handle_established i packet payload_size n
          | TimeWait | CloseWait => reset i n
          | st => handle_closing i st packet payload_size n
          end
      end.

(** ** Calls of the user of a socket *)

Definition first_ephemeral_port : Z := 32768.
Definition last_ephemeral_port : Z := 60999.

(** The scan for a free port, from [port] on; [None] when it is back at the start. *)
Fixpoint port_loop (fuel : nat) (n : net) (s : TCPSocket) (first_scan_port port : Z) : res (option Z) :=
  match fuel with
  | O => Fault OutOfFuel
  | S fuel =>
      match n_by_tuple n !! (m_local_address s, port, m_peer_address s, m_peer_port s) with
      | None => Ok (Some port)
      | Some _ =>
          let port := wrap U16 (port + 1) in
          let port := if last_ephemeral_port <? port then first_ephemeral_port else port in
          if port =? first_scan_port then Ok None else port_loop fuel n s first_scan_port port
      end
  end.

(** There are fewer than [2 ^ 15] ephemeral ports. *)
Definition protocol_allocate_local_port (random : Z) (i : nat) (n : net) : res (net * option errno) :=
  let* s := get n i in
  let first_scan_port := wrap U16 (first_ephemeral_port + random mod (last_ephemeral_port - first_ephemeral_port)) in
  let* port := port_loop (Z.to_nat (2 ^ 15)) n s first_scan_port first_scan_port in
  match port with
  | Some port =>
      Ok (register (put n i (with_local_port port s))
            (m_local_address s, port, m_peer_address s, m_peer_port s) i, None)
  | None => Ok (n, Some EADDRINUSE)
  end.

Definition allocate_local_port_if_needed (random : Z) (i : nat) (n : net) : res (net * option errno) :=
  let* s := get n i in
  if negb (m_local_port s =? 0) then Ok (n, None) else protocol_allocate_local_port random i n.

Definition protocol_listen (i : nat) (n : net) : res (net * option errno) :=
  let* s := get n i in
  if bool_decide (n_by_tuple n !! tuple_of s <> None) then Ok (n, Some EADDRINUSE)
  else
    let n := register n (tuple_of s) i in
    let* n := modify i (with_direction Passive) n in
    let* n := set_state i Listen n in
    let* n := set_setup_state i Completed n in
    Ok (n, None).

(** [IPv4Socket::bind] after the address has been read, with [protocol_bind]. *)
Definition bind (superuser : bool) (address requested_local_port : Z) (i : nat) (n : net) : res (net * option errno) :=
  let* s := get n i in
  VERIFY match m_setup_state s with Unstarted => true | _ => false end ;;
  if negb superuser && (0 <? requested_local_port) && (requested_local_port <? 1024) then Ok (n, Some EACCES)
  else
    let* n := modify i (fun s => with_local_port requested_local_port (with_local_address address s)) n in
    if negb (address =? 0) && negb (is_local address) then Ok (n, Some EADDRNOTAVAIL) else Ok (n, None).

(** [IPv4Socket::listen] *)
Definition listen (random backlog : Z) (i : nat) (n : net) : res (net * option errno) :=
  let* (n, e) := allocate_local_port_if_needed random i n in
  match e with
  | Some e => Ok (n, Some e)
  | None =>
      let* n := modify i (fun s => with_role Listener (with_backlog backlog s)) n in
      protocol_listen i n
  end.

(** The part of [protocol_connect] before a thread blocks; [adapter_address] is
    the address of the adapter [route_to] finds. *)
Definition protocol_connect (random_port random_sequence adapter_address : Z) (i : nat) (n : net) : res (net * option errno) :=
  let* s := get n i in
  if negb (routed s) then Ok (n, Some EHOSTUNREACH)
  else
    let* n := modify i (fun s => if m_local_address s =? 0 then with_local_address adapter_address s else s) n in
    let* (n, e) := allocate_local_port_if_needed random_port i n in
    match e with
    | Some e => Ok (n, Some e)
    | None =>
        let* n := modify i (fun s => with_setup_state InProgress (with_ack_number 0 (with_sequence_number (wrap U32 random_sequence) s))) n in
        let* (n, e) := send_tcp_packet i SYN [] true n in
        match e with
        | Some e => Ok (n, Some e)
        | None =>
            let* n := modify i (fun s => with_direction Outgoing (with_role Connecting (with_state SynSent s))) n in
            Ok (n, Some EINPROGRESS)
        end
    end.

(** [IPv4Socket::connect] after the address has been read. *)
Definition connect (random_port random_sequence adapter_address peer_address peer_port : Z) (i : nat) (n : net)
    : res (net * option errno) :=
  let* s := get n i in
  match m_role s with
  | Connected => Ok (n, Some EISCONN)
  | _ =>
      let* n := modify i (fun s => with_peer_port peer_port (with_peer_address peer_address s)) n in
      protocol_connect random_port random_sequence adapter_address i n
  end.

Definition protocol_send (data : list Z) (readable : bool) (i : nat) (n : net) : res (net * option errno) :=
  send_tcp_packet i (Z.lor PUSH ACK) data readable n.

(** The part of [IPv4Socket::sendto] without an address that leads to
    [protocol_send]. *)
Definition sendto (random_port adapter_address : Z) (data : list Z) (readable : bool) (i : nat) (n : net) : res (net * option errno) :=
  let* s := get n i in
  if negb (routed s) then Ok (n, Some EHOSTUNREACH)
  else
    let* n := modify i (fun s => if m_local_address s =? 0 then with_local_address adapter_address s else s) n in
    let* (n, e) := allocate_local_port_if_needed random_port i n in
    match e with
    | Some e => Ok (n, Some e)
    | None => protocol_send data readable i n
    end.

Definition shut_down_for_writing (i : nat) (n : net) : res net :=
  let* s := get n i in
  match m_state s with
  | Established => let* n := send_control i (Z.lor FIN ACK) n in set_state i FinWait1 n
  | _ => Ok n
  end.

(** [Socket::shutdown] with [SHUT_RDWR]; an error is ignored by [close]. *)
Definition shutdown (i : nat) (n : net) : res net :=
  let* s := get n i in
  if negb (m_connected s) then Ok n
  else
    match m_role s with
    | Listener => Ok n
    | _ =>
        let* n := (if m_shut_down_for_writing s then Ok n else shut_down_for_writing i n) in
        modify i (fun s => with_shut_down_for_writing true (with_shut_down_for_reading true s)) n
    end.

Definition close (i : nat) (n : net) : res net :=
  let* n := shutdown i n in
  let* s := get n i in
  let* n := match m_state s with
            | CloseWait => let* n := send_control i (Z.lor FIN ACK) n in set_state i LastAck n
            | _ => Ok n
            end in
  let* s := get n i in
  match m_state s with
  | Closed | Listen => Ok n
  | _ => Ok (with_closing n (<[tuple_of s := i]> (n_closing n)))
  end.

(** [~TCPSocket] *)
Definition destroy (i : nat) (n : net) : res net :=
  let* s := get n i in
  Ok (mkNet (delete i (n_sockets n)) (delete (tuple_of s) (n_by_tuple n)) (n_closing n) (n_wire n)).

End Environment.

End Tcp.

(** ** Lemmas *)

Module ChecksumFacts.
Import Packets.

Definition word (w : Z) : Prop := 0 <= w <= 0xffff.

(** The fields of a packet have their widths. *)
Record packet_ok (p : Packet) : Prop := {
  po_ports : word (source_port p) /\ word (destination_port p);
  po_numbers : 0 <= sequence_number p < 2 ^ 32 /\ 0 <= ack_number p < 2 ^ 32;
  po_rest : word (m_flags_and_data_offset p) /\ word (window_size p) /\ word (checksum p) /\ word (urgent p);
  po_payload : Forall (fun b => 0 <= b < 256) (payload p);
}.

Lemma halves_words v : 0 <= v < 2 ^ 32 -> Forall word (halves v).
Proof.
  intros Hv. unfold halves, word. change 0xffff with (Z.ones 16). rewrite Z.land_ones, Z.shiftr_div_pow2 by lia.
  repeat constructor; change (Z.ones 16) with 65535; change (2 ^ 16) with 65536; Z.to_euclidean_division_equations; lia.
Qed.

Lemma payload_words_words l : Forall (fun b => 0 <= b < 256) l -> Forall word (payload_words l).
Proof.
  revert l. fix IH 1. intros [|b [|c l]] H; cbn [payload_words].
  - constructor.
  - apply Forall_cons in H as [Hb _]. constructor; [|done]. unfold word. rewrite Z.shiftl_mul_pow2; lia.
  - apply Forall_cons in H as [Hb H]. apply Forall_cons in H as [Hc H]. constructor; [|by apply IH].
    unfold word. rewrite Z.shiftl_mul_pow2; lia.
Qed.

Lemma add_word_spec c w : word c -> word w -> add_word c w = if 0xffff <? c + w then c + w - 0xffff else c + w.
Proof.
  unfold word. intros Hc Hw. unfold add_word. rewrite (wrap_id U32 (c + w)) by (done || (apply in_ty_spec; cbn; lia)).
  cbn zeta. destruct (Z.ltb_spec 0xffff (c + w)); [|done]. change 0xffff with (Z.ones 16) at 1. rewrite Z.land_ones, Z.shiftr_div_pow2 by lia.
  change (2 ^ 16) with 65536. rewrite wrap_id; [|done|]; [|apply in_ty_spec; cbn]; Z.to_euclidean_division_equations; lia.
Qed.

(** The running sum: congruent to the sum of the words modulo [0xffff], and zero
    only when all of them are. *)
Lemma add_words_spec c l :
  word c -> Forall word l ->
  word (add_words c l) /\ (exists k, add_words c l = c + foldr Z.add 0 l - 0xffff * k) /\
  (add_words c l = 0 -> c = 0 /\ Forall (eq 0) l).
Proof.
  intros Hc Hl. revert c Hc. unfold add_words. induction Hl as [|w l Hw Hl IH]; intros c Hc; cbn [foldl foldr].
  - split; [done|]. split; [exists 0; lia|done].
  - pose proof (add_word_spec c w Hc Hw) as E.
    assert (word (add_word c w)) as Hcw by (rewrite E; unfold word in *; destruct (Z.ltb_spec 0xffff (c + w)); lia).
    destruct (IH _ Hcw) as (H1 & [k H2] & H3). split; [done|]. rewrite H2, E in *. unfold word in *.
    destruct (Z.ltb_spec 0xffff (c + w)).
    + split; [exists (k + 1); lia|]. intros H0. destruct (H3 H0). lia.
    + split; [exists k; lia|]. intros H0. destruct (H3 H0) as [H4 H5]. split; [lia|]. constructor; [lia|done].
Qed.

Lemma sum_app l1 l2 : foldr Z.add 0 (l1 ++ l2) = foldr Z.add 0 l1 + foldr Z.add 0 l2.
Proof. induction l1 as [|x l1 IH]; cbn; [done|]. rewrite IH. lia. Qed.

Lemma header_words_words p : packet_ok p -> Forall word (header_words p).
Proof.
  intros [[] [] (? & ? & ? & ?) _]. unfold header_words. rewrite !Forall_app.
  repeat split; try apply halves_words; try done; repeat (constructor; try done).
Qed.

Lemma pseudo_words src dst k : 0 <= src < 2 ^ 32 -> 0 <= dst < 2 ^ 32 -> Forall word (pseudo_header_words src dst k).
Proof.
  intros Hs Hd. unfold pseudo_header_words. rewrite !Forall_app.
  split; [by apply halves_words|]. split; [by apply halves_words|]. constructor; [unfold word; lia|]. constructor; [|done].
  pose proof (wrap_in_ty U16 (sizeof_TCPPacket + k) eq_refl) as [W1 W2]%in_ty_spec. unfold word. cbn in W1, W2. lia.
Qed.

(** All the words that are summed. *)
Definition all_words (src dst k : Z) (p : Packet) : list Z :=
  pseudo_header_words src dst k ++ header_words p ++ payload_words (payload p).

Lemma compute_spec src dst k p c :
  compute_tcp_checksum src dst p k = Ok c ->
  c = wrap U16 (Z.lnot (Z.land (add_words 0 (all_words src dst k p)) 0xffff)) /\ data_offset p * 4 = 20.
Proof.
  unfold compute_tcp_checksum, all_words, add_words. rewrite !foldl_app. destruct (Z.eqb_spec (data_offset p * 4) sizeof_TCPPacket); [|done].
  cbn. intros [= <-]. done.
Qed.

Lemma complement r : word r -> wrap U16 (Z.lnot (Z.land r 0xffff)) = 0xffff - r.
Proof.
  unfold word. intros Hr. change 0xffff with (Z.ones 16) at 1. rewrite Z.land_ones, Z.mod_small by lia.
  unfold wrap, Z.lnot. cbn [tmin U16 bits is_signed]. rewrite Z.sub_0_r, Z.add_0_r. Z.to_euclidean_division_equations. lia.
Qed.

Lemma all_words_words src dst k p :
  packet_ok p -> 0 <= src < 2 ^ 32 -> 0 <= dst < 2 ^ 32 -> Forall word (all_words src dst k p).
Proof.
  intros Hp Hs Hd. unfold all_words. rewrite !Forall_app. split; [by apply pseudo_words|].
  split; [by apply header_words_words|]. apply payload_words_words, Hp.
Qed.

Lemma all_words_sum src dst k p c :
  foldr Z.add 0 (all_words src dst k (with_checksum p c)) = foldr Z.add 0 (all_words src dst k p) - checksum p + c.
Proof.
  unfold all_words. rewrite !sum_app. cbn [payload with_checksum]. unfold header_words.
  rewrite !sum_app. cbn [source_port destination_port sequence_number ack_number m_flags_and_data_offset window_size checksum urgent with_checksum foldr]. lia.
Qed.

Lemma all_words_nonzero src dst k p : ~ Forall (eq 0) (all_words src dst k p).
Proof.
  intros H. unfold all_words, pseudo_header_words in H. rewrite !Forall_app in H. destruct H as [(_ & _ & H) _].
  apply Forall_cons in H as [H _]. discriminate.
Qed.

End ChecksumFacts.

Module TcpSystem.
Import Packets Tcp.

(** What surrounds the sockets during one step. *)
Record env := mkEnv {
  e_routed : TCPSocket -> bool;
  e_accepts : Packet -> bool;
  e_now : Time.Time;
  e_has_room : TCPSocket -> Packet -> bool;
  e_is_local : Z -> bool;
}.

(** What can happen: a program opens a socket, and may bind it at once; it
    listens, connects, sends and closes; a packet arrives. *)
Inductive event :=
  | Open (address : option (bool * Z * Z))
  | DoListen (i : nat) (random backlog : Z)
  | DoConnect (i : nat) (random_port random_sequence adapter_address peer_address peer_port : Z)
  | DoSend (i : nat) (random_port adapter_address : Z) (data : list Z) (readable : bool)
  | DoClose (i : nat)
  | Arrive (source destination ipv4_payload_size : Z) (packet : Packet).

(** A program has a descriptor for a socket that exists and does not wait for its
    handshake. *)
Definition owned (n : net) (i : nat) : bool :=
  match n_sockets n !! i with Some s => bool_decide (m_originator s = None) | None => false end.

Definition guarded (n : net) (i : nat) (r : res net) : option (res net) := if owned n i then Some r else None.

Definition ignore (r : res (net * option errno)) : res net := let* (n, _) := r in Ok n.

Definition step (e : env) (ev : event) (n : net) : option (res net) :=
  match ev with
  | Open None => Some (Ok (put n (new_id n) make_socket))
  | Open (Some (superuser, address, port)) =>
      Some (ignore (bind (e_is_local e) superuser address port (new_id n) (put n (new_id n) make_socket)))
  | DoListen i random backlog => guarded n i (ignore (listen random backlog i n))
  | DoConnect i rp rs aa pa pp => guarded n i (ignore (connect (e_routed e) (e_accepts e) (e_now e) rp rs aa pa pp i n))
  | DoSend i rp aa data readable => guarded n i (ignore (sendto (e_routed e) (e_accepts e) (e_now e) rp aa data readable i n))
  | DoClose i => guarded n i (close (e_routed e) (e_accepts e) (e_now e) i n)
  | Arrive source destination size packet =>
      Some (handle_tcp (e_routed e) (e_accepts e) (e_now e) (e_has_room e) (e_is_local e) source destination size packet n)
  end.

Definition empty_net : net := mkNet ∅ ∅ ∅ [].

Inductive reachable : net -> Prop :=
  | reachable_empty : reachable empty_net
  | reachable_step n e ev n' : reachable n -> Time.wf (e_now e) = true -> step e ev n = Some (Ok n') -> reachable n'.

End TcpSystem.

Module TcpFacts.
Import Packets Tcp TcpSystem.

Definition times_ok (s : TCPSocket) : Prop := Forall (fun p => Time.wf (op_tx_time p) = true) (m_not_acked s).

Definition port_of (t : tuple) : Z := t.1.1.2.

Record net_inv (n : net) : Prop := {
  ni_registered : forall t i, n_by_tuple n !! t = Some i ->
    exists s, n_sockets n !! i = Some s /\ m_local_port s = port_of t /\ port_of t <> 0;
  ni_originator : forall i s o, n_sockets n !! i = Some s -> m_originator s = Some o ->
    o <> i /\ n_by_tuple n !! tuple_of s = Some i /\
    exists l, n_sockets n !! o = Some l /\ m_pending_release_for_accept l !! tuple_of s = Some i;
  ni_times : forall i s, n_sockets n !! i = Some s -> times_ok s;
  ni_ports : forall i s, n_sockets n !! i = Some s -> m_state s <> Closed -> m_local_port s <> 0;
}.

(** Socket [i] exists and has a port. *)
Definition ready (i : nat) (n : net) : Prop :=
  net_inv n /\ exists s, n_sockets n !! i = Some s /\ m_local_port s <> 0.

(** The parts of a socket the invariant speaks of. *)
Definition same_links (s s' : TCPSocket) : Prop :=
  tuple_of s' = tuple_of s /\ m_originator s' = m_originator s /\
  m_pending_release_for_accept s' = m_pending_release_for_accept s.

Lemma same_port s s' : same_links s s' -> m_local_port s' = m_local_port s.
Proof. intros [H _]. by injection H. Qed.

Lemma put_inv n i s s' :
  net_inv n -> n_sockets n !! i = Some s -> same_links s s' -> times_ok s' ->
  (m_state s' = Closed \/ m_local_port s' <> 0) -> net_inv (put n i s').
Proof.
  intros [H1 H2 H3 H4] Hi Hl Ht Hp. pose proof (same_port s s' Hl) as Hport. destruct Hl as (L1 & L2 & L3).
  split; cbn [put n_sockets n_by_tuple].
  - intros t j Hj. destruct (H1 t j Hj) as (r & Hr & Hrp & Hne). destruct (decide (j = i)) as [->|Hd].
    + exists s'. rewrite lookup_insert_eq. split; [done|]. split; [congruence|done].
    + exists r. by rewrite lookup_insert_ne by auto.
  - intros j r o Hj Ho.
    assert (exists r', n_sockets n !! j = Some r' /\ m_originator r' = Some o /\ tuple_of r' = tuple_of r) as (r' & A & B & C).
    { destruct (decide (j = i)) as [->|Hd]; [rewrite lookup_insert_eq in Hj; injection Hj as <-; exists s; split; [done|split; congruence]|].
      rewrite lookup_insert_ne in Hj by auto. by exists r. }
    destruct (H2 j r' o A B) as (K1 & K2 & l & K3 & K4). rewrite C in K2, K4. split; [done|]. split; [done|].
    destruct (decide (o = i)) as [->|Hd].
    + exists s'. rewrite lookup_insert_eq. split; [done|]. rewrite L3. congruence.
    + exists l. by rewrite lookup_insert_ne by auto.
  - intros j r Hj. apply lookup_insert_Some in Hj as [[_ <-]|[_ Hj]]; [done|by eapply H3].
  - intros j r Hj Hs. apply lookup_insert_Some in Hj as [[_ <-]|[_ Hj]]; [by destruct Hp|by eapply H4].
Qed.

Lemma put_ready n i s s' :
  ready i n -> n_sockets n !! i = Some s -> same_links s s' -> times_ok s' -> ready i (put n i s').
Proof.
  intros [Hinv (r & Hr & Hp)] Hi Hl Ht. assert (r = s) as -> by congruence.
  split; [apply (put_inv n i s); try done; right; by rewrite (same_port s)|].
  exists s'. cbn. rewrite lookup_insert_eq. split; [done|]. by rewrite (same_port s).
Qed.

Lemma get_ready i n : ready i n -> exists s, get n i = Ok s /\ n_sockets n !! i = Some s /\ m_local_port s <> 0 /\ times_ok s.
Proof.
  intros [Hinv (s & Hs & Hp)]. exists s. unfold get. rewrite Hs. split; [done|]. split; [done|]. split; [done|].
  by eapply ni_times.
Qed.

(** A computation that succeeds with a state that satisfies [P]. *)
Definition safe (P : net -> Prop) (r : res net) : Prop := exists n, r = Ok n /\ P n.

Lemma safe_ok P n : P n -> safe P (Ok n).
Proof. intros. by exists n. Qed.

Lemma safe_bind P Q r f : safe P r -> (forall n, P n -> safe Q (f n)) -> safe Q (res_bind r f).
Proof. intros (n & -> & Hn) Hf. by apply Hf. Qed.

Lemma modify_ready i f n :
  (forall s, same_links s (f s) /\ m_not_acked (f s) = m_not_acked s) -> ready i n -> safe (ready i) (modify i f n).
Proof.
  intros Hf Hr. destruct (get_ready i n Hr) as (s & Hg & Hs & Hp & Ht). unfold modify. rewrite Hg. cbn [res_bind].
  apply safe_ok. destruct (Hf s) as [H1 H2]. apply (put_ready n i s); try done. unfold times_ok. by rewrite H2.
Qed.

Lemma transmit_inv n l : net_inv n -> net_inv (transmit n l).
Proof. by intros [H1 H2 H3 H4]. Qed.

Lemma with_closing_inv n c : net_inv n -> net_inv (with_closing n c).
Proof. by intros [H1 H2 H3 H4]. Qed.

Lemma originator_spec n i s o : net_inv n -> n_sockets n !! i = Some s -> originator n s = o -> m_originator s = o.
Proof.
  intros Hinv Hi <-. unfold originator. destruct (m_originator s) as [o|] eqn:E; [|done].
  destruct (ni_originator n Hinv i s o Hi E) as (_ & _ & l & Hl & _). rewrite bool_decide_eq_true_2; [done|congruence].
Qed.

(** ** Releasing a client to its listener *)

Lemma queue_links c s :
  tuple_of (queue_connection_from c s) = tuple_of s /\ m_originator (queue_connection_from c s) = m_originator s /\
  m_pending_release_for_accept (queue_connection_from c s) = m_pending_release_for_accept s /\
  m_not_acked (queue_connection_from c s) = m_not_acked s /\ m_state (queue_connection_from c s) = m_state s.
Proof. unfold queue_connection_from. by destruct (_ <=? _). Qed.

Lemma release_inv n i s o l l' :
  net_inv n -> n_sockets n !! i = Some s -> m_originator s = Some o -> n_sockets n !! o = Some l ->
  tuple_of l' = tuple_of l -> m_originator l' = m_originator l -> m_not_acked l' = m_not_acked l -> m_state l' = m_state l ->
  m_pending_release_for_accept l' = delete (tuple_of s) (m_pending_release_for_accept l) ->
  net_inv (put (put n o l') i (with_originator None s)).
Proof.
  intros Hinv Hi Ho Hl L1 L2 L3 L4 L5. pose proof Hinv as [H1 H2 H3 H4].
  destruct (H2 i s o Hi Ho) as (Hne & Hreg & _).
  assert (m_local_port l' = m_local_port l) as Lp by (by injection L1).
  split; cbn [put n_sockets n_by_tuple].
  - intros t j Hj. destruct (H1 t j Hj) as (r & Hr & Hrp & Hz).
    destruct (decide (j = i)) as [->|Hd]; [|destruct (decide (j = o)) as [->|Hd']].
    + exists (with_originator None s). rewrite lookup_insert_eq. split; [done|]. assert (r = s) as -> by congruence. done.
    + exists l'. rewrite lookup_insert_ne, lookup_insert_eq by auto. split; [done|]. split; [congruence|done].
    + exists r. by rewrite !lookup_insert_ne by auto.
  - intros j r o' Hj Hoj. destruct (decide (j = i)) as [->|Hd].
    { rewrite lookup_insert_eq in Hj. injection Hj as <-. done. }
    rewrite lookup_insert_ne in Hj by auto.
    assert (exists r', n_sockets n !! j = Some r' /\ m_originator r' = Some o' /\ tuple_of r' = tuple_of r) as (r' & A & B & C).
    { destruct (decide (j = o)) as [->|Hd']; [rewrite lookup_insert_eq in Hj; injection Hj as <-; exists l; split; [done|split; congruence]|].
      rewrite lookup_insert_ne in Hj by auto. by exists r. }
    destruct (H2 j r' o' A B) as (K1 & K2 & m & K3 & K4). rewrite C in K2, K4. split; [done|]. split; [done|].
    assert (tuple_of s <> tuple_of r) as Htu by (intros E; rewrite E in Hreg; congruence).
    destruct (decide (o' = i)) as [->|Ho1]; [|destruct (decide (o' = o)) as [->|Ho2]].
    + exists (with_originator None s). rewrite lookup_insert_eq. split; [done|]. assert (m = s) as -> by congruence. done.
    + exists l'. rewrite lookup_insert_ne, lookup_insert_eq by auto. split; [done|]. assert (m = l) as -> by congruence.
      rewrite L5, lookup_delete_ne by done. done.
    + exists m. by rewrite !lookup_insert_ne by auto.
  - intros j r Hj. apply lookup_insert_Some in Hj as [[_ <-]|[_ Hj]]; [by apply (H3 i s)|].
    apply lookup_insert_Some in Hj as [[_ <-]|[_ Hj]]; [unfold times_ok; rewrite L3; by apply (H3 o l)|by eapply H3].
  - intros j r Hj. apply lookup_insert_Some in Hj as [[_ <-]|[_ Hj]]; [by apply (H4 i s)|].
    apply lookup_insert_Some in Hj as [[_ <-]|[_ Hj]]; [rewrite L4, Lp; by apply (H4 o l)|by eapply H4].
Qed.

Lemma release_to_originator_ready i s o n :
  ready i n -> n_sockets n !! i = Some s -> m_originator s = Some o -> safe (ready i) (release_to_originator i n).
Proof.
  intros [Hinv (s' & Hs & Hp)] Hi Ho. assert (s' = s) as -> by congruence. clear Hs.
  destruct (ni_originator n Hinv i s o Hi Ho) as (Hne & Hreg & l & Hl & Hpend).
  unfold release_to_originator, get. rewrite Hi. cbn [of_opt res_bind].
  unfold originator. rewrite Ho, bool_decide_eq_true_2 by congruence. cbn [of_opt res_bind].
  unfold release_for_accept, get. rewrite Hl, Hi. cbn [of_opt res_bind]. rewrite bool_decide_eq_true_2 by congruence.
  cbn [verify res_bind]. unfold modify, get. cbn [put n_sockets]. rewrite lookup_insert_ne, Hi by auto. cbn [of_opt res_bind].
  set (l0 := with_pending_release_for_accept _ l).
  destruct (queue_links i l0) as (Q1 & Q2 & Q3 & Q4 & Q5).
  apply safe_ok. split.
  - apply (release_inv n i s o l); try done.
  - exists (with_originator None s). cbn. rewrite lookup_insert_eq. done.
Qed.

Lemma set_state_ready i st n : ready i n -> safe (ready i) (set_state i st n).
Proof.
  intros Hr. unfold set_state.
  apply (safe_bind (ready i)); [by apply modify_ready|]. clear n Hr. intros n Hr.
  destruct (get_ready i n Hr) as (s & -> & Hs & _). cbn [res_bind].
  apply (safe_bind (ready i)).
  { destruct st, (m_direction s); (by apply safe_ok) || by apply modify_ready. }
  clear n Hr s Hs. intros n Hr. destruct st; try by apply safe_ok.
  destruct (get_ready i n Hr) as (s & -> & Hs & _). cbn [res_bind].
  set (n' := with_closing n _). assert (ready i n') as Hr'.
  { destruct Hr as [Hinv Hex]. split; [by apply with_closing_inv|exact Hex]. }
  destruct (originator n' s) as [o|] eqn:E; [|by apply safe_ok].
  apply (release_to_originator_ready i s o); [done|done|]. by apply (originator_spec n' i s (Some o)); [apply Hr'|..].
Qed.

Create HintDb tcp.
Ltac benign := intros; split; [repeat split|]; reflexivity.

Lemma set_ack_ready i a n : ready i n -> safe (ready i) (set_ack_number i a n).
Proof. apply modify_ready. benign. Qed.
Lemma set_error_ready i e n : ready i n -> safe (ready i) (set_error i e n).
Proof. apply modify_ready. benign. Qed.
Lemma set_setup_ready i st n : ready i n -> safe (ready i) (set_setup_state i st n).
Proof. apply modify_ready. benign. Qed.
Lemma set_connected_ready i c n : ready i n -> safe (ready i) (set_connected i c n).
Proof. apply modify_ready. benign. Qed.

#[export] Hint Resolve set_ack_ready set_error_ready set_setup_ready set_connected_ready set_state_ready safe_ok : tcp.

(** ** Sending *)

Section Sending.
Context (routed : TCPSocket -> bool) (accepts : Packet -> bool) (now : Time.Time).
Context (has_room : TCPSocket -> Packet -> bool) (is_local : Z -> bool).
Context (Hnow : Time.wf now = true).

Lemma count_out_links p s : same_links s (count_out p s) /\ m_not_acked (count_out p s) = m_not_acked s.
Proof. benign. Qed.

Lemma same_links_trans s t u : same_links s t -> same_links t u -> same_links s u.
Proof. intros (A & B & C) (D & E & F). split; [congruence|split; congruence]. Qed.

Lemma resend_loop_ok l s :
  Forall (fun p => Time.wf (op_tx_time p) = true) l ->
  exists l' s' sent, resend_loop accepts now l s = Ok (l', s', sent) /\ same_links s s' /\
    Forall (fun p => Time.wf (op_tx_time p) = true) l' /\ map op_ack_number l' = map op_ack_number l.
Proof using Hnow.
  revert s. induction l as [|p l IH]; intros s Hl; cbn [resend_loop].
  { exists [], s, []. repeat split; constructor. }
  apply Forall_cons in Hl as [Hp Hl]. destruct (TimeFacts.op_sub_clamp now (op_tx_time p) Hnow Hp) as (diff & -> & _).
  cbn [res_bind]. assert (exists lim, Time.from_nanoseconds 500000000 = Ok lim) as [lim ->] by (eexists; vm_compute; reflexivity).
  cbn [res_bind]. destruct (Time.op_le diff lim).
  - destruct (IH s Hl) as (l' & s' & sent & -> & A & B & C). cbn [res_bind]. eexists _, _, _. split; [done|].
    split; [done|]. split; [by constructor|]. cbn. congruence.
  - cbn [op_packet]. set (s0 := if accepts (op_packet p) then _ else s).
    assert (same_links s s0) as H0 by (subst s0; destruct (accepts _); [apply count_out_links|done]).
    destruct (IH s0 Hl) as (l' & s' & sent & -> & A & B & C). cbn [res_bind]. eexists _, _, _. split; [done|].
    split; [by eapply same_links_trans|]. split; [by constructor|]. cbn. congruence.
Qed.

Lemma send_outgoing_ready i n : ready i n -> safe (ready i) (send_outgoing_packets routed accepts now i n).
Proof using Hnow.
  intros Hr. destruct (get_ready i n Hr) as (s & Hg & Hs & Hp & Ht). unfold send_outgoing_packets. rewrite Hg. cbn [res_bind].
  destruct (negb (routed s)); [by apply safe_ok|].
  destruct (resend_loop_ok (m_not_acked s) s Ht) as (l' & s' & sent & -> & A & B & _). cbn [res_bind]. apply safe_ok.
  assert (ready i (put n i (with_not_acked l' s'))) as [H1 H2] by (apply (put_ready n i s); done).
  split; [by apply transmit_inv|exact H2].
Qed.

Lemma built_data_offset s fl data c : data_offset (with_checksum (build_packet s fl data) c) * 4 = 20 /\
  data_offset (build_packet s fl data) * 4 = 20.
Proof.
  unfold data_offset, build_packet. cbn [m_flags_and_data_offset with_checksum].
  assert (Z.land (Z.lor (Z.land (Z.shiftl 5 12) (Z.lnot 0x1ff)) (Z.land fl 0x1ff)) 0xf000 = Z.shiftl 5 12) as ->; [|done].
  rewrite Z.land_lor_distr_l, <-(Z.land_assoc fl). change (Z.land 0x1ff 0xf000) with 0. rewrite Z.land_0_r, Z.lor_0_r. reflexivity.
Qed.

Lemma send_tcp_packet_ready i fl data readable n :
  ready i n -> exists n' e, send_tcp_packet routed accepts now i fl data readable n = Ok (n', e) /\ ready i n'.
Proof using Hnow.
  intros Hr. destruct (get_ready i n Hr) as (s & Hg & Hs & Hp & Ht). unfold send_tcp_packet. rewrite Hg. cbn [res_bind].
  replace (m_local_port s =? 0) with false by lia. cbn [negb verify res_bind].
  destruct readable; cbn [negb]; [|by eexists _, _]. unfold compute_tcp_checksum.
  rewrite (proj2 (built_data_offset s fl data 0)). cbn [Z.eqb sizeof_TCPPacket Pos.eqb verify res_bind].
  set (c := wrap U16 _). set (s1 := with_sequence_number _ s). set (p := with_checksum _ c).
  assert (same_links s s1) as L1 by done. assert (times_ok s1) as T1 by done.
  destruct (has_syn p || _).
  - set (s2 := with_not_acked _ s1). assert (ready i (put n i s2)) as Hr2.
    { apply (put_ready n i s); try done. unfold times_ok. cbn. apply Forall_app. split; [done|by constructor]. }
    destruct (send_outgoing_ready i _ Hr2) as (n' & -> & Hn'). cbn [res_bind]. by eexists _, _.
  - destruct (negb (routed s1)); [by eexists _, _; split; [done|]; apply (put_ready n i s)|].
    destruct (negb (accepts p)); [by eexists _, _; split; [done|]; apply (put_ready n i s)|].
    eexists _, _. split; [done|]. destruct (put_ready n i s (count_out p s1)) as [A B]; try done.
    split; [by apply transmit_inv|exact B].
Qed.

Lemma send_control_ready i fl n : ready i n -> safe (ready i) (send_control routed accepts now i fl n).
Proof using Hnow.
  intros Hr. unfold send_control. destruct (send_tcp_packet_ready i fl [] true n Hr) as (n' & e & -> & Hn').
  cbn. by apply safe_ok.
Qed.

(** ** The packet handler *)

Ltac tcp_step i := apply (safe_bind (ready i)); [by auto using send_control_ready with tcp|let n := fresh "n" in intros n ?].

Lemma reset_ready i n : ready i n -> safe (ready i) (reset routed accepts now i n).
Proof using Hnow. intros. unfold reset. tcp_step i. by apply set_state_ready. Qed.

Lemma did_receive_ready i p n :
  ready i n -> exists n' b, did_receive has_room i p n = Ok (n', b) /\ ready i n'.
Proof using.
  intros Hr. destruct (get_ready i n Hr) as (s & Hg & Hs & Hp & Ht). unfold did_receive. rewrite Hg. cbn [res_bind].
  destruct (has_room s p); [|by eexists _, _]. eexists _, _. split; [done|]. by apply (put_ready n i s).
Qed.

Lemma fail_connect_ready i e n : ready i n -> safe (ready i) (fail_connect i e n).
Proof using. intros. unfold fail_connect. tcp_step i. tcp_step i. auto with tcp. Qed.

Lemma handle_syn_sent_ready i p k n :
  ready i n -> safe (ready i) (handle_syn_sent routed accepts now i p k n).
Proof using Hnow.
  intros Hr. unfold handle_syn_sent. cbn zeta. repeat case_if; repeat tcp_step i; auto using fail_connect_ready with tcp.
Qed.

Lemma handle_syn_received_ready i p k n :
  ready i n -> safe (ready i) (handle_syn_received routed accepts now i p k n).
Proof using Hnow.
  intros Hr. unfold handle_syn_received. case_if; [|by apply reset_ready]. tcp_step i.
  destruct (get_ready i n0 H) as (s & -> & Hs & _). cbn [res_bind].
  destruct (m_direction s); try by apply reset_ready.
  - tcp_step i. tcp_step i. auto with tcp.
  - destruct (originator n0 s) as [o|] eqn:Eo; [|by apply reset_ready].
    apply (originator_spec n0 i s (Some o) (proj1 H) Hs) in Eo.
    pose proof (ni_times n0 (proj1 H) i s Hs) as Ts.
    (* moving to [Established] keeps the link to the originator *)
    assert (safe (fun m => ready i m /\ exists r, n_sockets m !! i = Some r /\ m_originator r = Some o)
              (set_state i Established n0)) as Hst.
    { unfold set_state, modify, get. rewrite Hs. cbn [of_opt res_bind]. cbn [put n_sockets]. rewrite lookup_insert_eq.
      cbn [of_opt res_bind].
      assert (ready i (put n0 i (with_state Established s))) as R by by apply (put_ready n0 i s).
      destruct (m_direction (with_state Established s)); cbn [res_bind]; try (apply safe_ok; split; [done|]; eexists;
        cbn [put n_sockets]; rewrite lookup_insert_eq; split; [reflexivity|exact Eo]).
      apply safe_ok. split.
      - apply (put_ready _ i (with_state Established s)); [done|cbn; by rewrite lookup_insert_eq|done|exact Ts].
      - eexists. cbn [put n_sockets]. rewrite lookup_insert_eq. split; [reflexivity|exact Eo]. }
    destruct Hst as (n1 & -> & R1 & r & Hr1 & Ho1). cbn [res_bind]. unfold set_setup_state, modify, get.
    rewrite Hr1. cbn [of_opt res_bind]. apply (release_to_originator_ready i (with_setup_state Completed r) o).
    + apply (put_ready n1 i r); try done. exact (ni_times n1 (proj1 R1) i r Hr1).
    + cbn. by rewrite lookup_insert_eq.
    + done.
Qed.

Lemma handle_established_ready i p k n :
  ready i n -> safe (ready i) (handle_established routed accepts now has_room i p k n).
Proof using Hnow.
  intros Hr. unfold handle_established. case_if; [auto with tcp|]. case_if.
  - apply (safe_bind (ready i)).
    { case_if; [|auto with tcp]. destruct (did_receive_ready i p n Hr) as (n' & b & -> & Hn'). cbn. auto with tcp. }
    clear n Hr. intros n Hr. repeat tcp_step i. auto with tcp.
  - tcp_step i. case_if; [|auto with tcp]. destruct (did_receive_ready i p n0 H) as (n' & b & -> & Hn'). cbn [res_bind].
    destruct b; auto using send_control_ready with tcp.
Qed.

Lemma handle_closing_ready i st p k n :
  ready i n -> safe (ready i) (handle_closing routed accepts now i st p k n).
Proof using Hnow.
  intros Hr. unfold handle_closing. cbn zeta.
  destruct st; repeat case_if; repeat tcp_step i; auto using reset_ready with tcp.
Qed.

(** A new client of a listener. *)
Lemma create_client_ready i t n :
  ready i n -> port_of t <> 0 ->
  exists n' c, create_client i t (new_id n) n = Ok (n', c) /\ ready i n' /\ (forall j, c = Some j -> ready j n').
Proof using.
  intros [Hinv (s & Hs & Hp)] Ht. destruct t as [[[la lp] pa] pp]. cbn in Ht. unfold create_client.
  destruct (n_by_tuple n !! (la, lp, pa, pp)) as [j|] eqn:E.
  { rewrite bool_decide_eq_true_2 by done. eexists _, _. split; [done|]. split; [split; [done|by exists s]|done]. }
  rewrite bool_decide_eq_false_2 by (intros H; by apply H).
  set (f := new_id n). assert (n_sockets n !! f = None) as Hf.
  { apply not_elem_of_dom. subst f. unfold new_id. exact (is_fresh (dom (n_sockets n))). }
  assert (f <> i) as Hfi by congruence.
  set (client := with_originator (Some i) _).
  unfold get. cbn [put n_sockets]. rewrite lookup_insert_ne, Hs by auto. cbn [of_opt res_bind].
  eexists _, _. split; [done|].
  set (s' := with_pending_release_for_accept _ s). set (n' := register _ _ _).
  assert (n_sockets n' !! f = Some client) as Lf by (cbn; by rewrite lookup_insert_ne, lookup_insert_eq by auto).
  assert (n_sockets n' !! i = Some s') as Li by (cbn; by rewrite lookup_insert_eq).
  assert (forall j, j <> f -> j <> i -> n_sockets n' !! j = n_sockets n !! j) as Lj.
  { intros j H1 H2. cbn. by rewrite !lookup_insert_ne by auto. }
  assert (net_inv n') as Hinv'.
  { pose proof Hinv as [H1 H2 H3 H4]. split.
    - intros t j Hj. cbn in Hj. apply lookup_insert_Some in Hj as [[<- <-]|[_ Hj]]; [by exists client|].
      destruct (H1 t j Hj) as (r & Hr & Hrp & Hz). destruct (decide (j = i)) as [->|].
      + exists s'. split; [done|]. assert (r = s) as -> by congruence. done.
      + exists r. rewrite Lj; [done|congruence|done].
    - intros j r o Hj Ho. destruct (decide (j = f)) as [->|Hjf].
      + assert (r = client) as -> by congruence. injection Ho as <-. split; [done|].
        split; [cbn; by rewrite lookup_insert_eq|]. exists s'. split; [done|]. cbn. by rewrite lookup_insert_eq.
      + assert (exists r', n_sockets n !! j = Some r' /\ m_originator r' = Some o /\ tuple_of r' = tuple_of r) as (r' & A & B & C).
        { destruct (decide (j = i)) as [->|Hji]; [assert (r = s') as -> by congruence; by exists s|].
          exists r. rewrite <-Lj by done. done. }
        destruct (H2 j r' o A B) as (K1 & K2 & l & K3 & K4). rewrite C in K2, K4. split; [done|].
        assert (tuple_of r <> (la, lp, pa, pp)) as Hne by (intros Et; rewrite Et in K2; congruence).
        split; [cbn; by rewrite lookup_insert_ne by auto|]. destruct (decide (o = i)) as [->|Hoi].
        * exists s'. split; [done|]. cbn. rewrite lookup_insert_ne by auto. assert (l = s) as -> by congruence. done.
        * exists l. rewrite Lj; [done|congruence|done].
    - intros j r Hj. destruct (decide (j = f)) as [->|Hjf]; [assert (r = client) as -> by congruence; constructor|].
      destruct (decide (j = i)) as [->|Hji]; [assert (r = s') as -> by congruence; by apply (H3 i s)|].
      rewrite Lj in Hj by done. by eapply H3.
    - intros j r Hj. destruct (decide (j = f)) as [->|Hjf]; [assert (r = client) as -> by congruence; done|].
      destruct (decide (j = i)) as [->|Hji]; [assert (r = s') as -> by congruence; by apply (H4 i s)|].
      rewrite Lj in Hj by done. by eapply H4. }
  split; [split; [done|by exists s']|].
  assert (from_tuple n' (la, lp, pa, pp) = Some f) as -> by (unfold from_tuple; cbn; by rewrite lookup_insert_eq).
  intros j [= <-]. split; [done|]. by exists client.
Qed.

Lemma handle_listen_ready i src dst p k n :
  ready i n -> destination_port p <> 0 -> safe net_inv (handle_listen routed accepts now i src dst p k n).
Proof using Hnow.
  intros Hr Hport. unfold handle_listen. case_if; [|by apply safe_ok, Hr].
  destruct (create_client_ready i (dst, destination_port p, src, source_port p) n Hr Hport) as (n' & c & -> & R1 & R2).
  cbn [res_bind]. destruct c as [c|]; [|by apply safe_ok, R1]. specialize (R2 c eq_refl).
  apply (safe_bind (ready c)); [by apply modify_ready|]. intros n1 H1. tcp_step c. tcp_step c.
  destruct (set_state_ready c SynReceived n2) as (n3 & -> & H3); [done|]. by apply safe_ok, H3.
Qed.

Lemma from_tuple_spec n t i :
  net_inv n -> from_tuple n t = Some i -> exists s, n_sockets n !! i = Some s /\ m_local_port s = port_of t /\ port_of t <> 0.
Proof using.
  intros Hinv. destruct t as [[[la lp] pa] pp]. unfold from_tuple.
  destruct (n_by_tuple n !! (la, lp, pa, pp)) eqn:E1; [intros [= <-]; by apply (ni_registered n Hinv) in E1|].
  destruct (n_by_tuple n !! (la, lp, 0, 0)) eqn:E2; [intros [= <-]; by apply (ni_registered n Hinv) in E2|].
  intros E3. by apply (ni_registered n Hinv) in E3.
Qed.

Lemma drop_acked_suffix a l : exists dropped, l = dropped ++ drop_acked a l.
Proof using.
  induction l as [|p l [d Hd]]; cbn; [by exists []|]. case_if; [|by exists []]. exists (p :: d). cbn. by rewrite <-Hd.
Qed.

Lemma handle_tcp_safe src dst size p n :
  net_inv n -> safe net_inv (handle_tcp routed accepts now has_room is_local src dst size p n).
Proof using Hnow.
  intros Hinv. unfold handle_tcp. case_if; [by apply safe_ok|]. case_if; [by apply safe_ok|]. cbn zeta. case_if; [by apply safe_ok|].
  destruct (from_tuple n _) as [i|] eqn:Ei; [|by apply safe_ok].
  destruct (from_tuple_spec n _ i Hinv Ei) as (s & Hs & Hp & Hz). cbn in Hp, Hz.
  assert (ready i n) as Hr by (split; [done|exists s; split; [done|congruence]]).
  unfold get at 1. rewrite Hs. cbn [of_opt res_bind]. replace (m_local_port s =? destination_port p) with true by lia.
  cbn [verify res_bind]. unfold modify, get at 1. rewrite Hs. cbn [of_opt res_bind].
  set (s1 := receive_tcp_packet _ _ s). assert (ready i (put n i s1)) as Hr1.
  { apply (put_ready n i s); try done.
    - subst s1. unfold receive_tcp_packet. by destruct (has_ack p).
    - subst s1. unfold receive_tcp_packet, times_ok. pose proof (ni_times n Hinv i s Hs) as T. unfold times_ok in T.
      destruct (has_ack p); cbn; [|done]. destruct (drop_acked_suffix (ack_number p) (m_not_acked s)) as [d Hd].
      rewrite Hd in T. by apply Forall_app in T as [_ T]. }
  unfold get. cbn [put n_sockets]. rewrite lookup_insert_eq. cbn [of_opt res_bind].
  assert (forall r, safe (ready i) r -> safe net_inv r) as Hweak by (intros r (m & -> & Hm); by apply safe_ok, Hm).
  destruct (m_state s1).
  - by apply safe_ok, Hr1.
  - by apply handle_listen_ready.
  - by apply Hweak, handle_syn_sent_ready.
  - by apply Hweak, handle_syn_received_ready.
  - by apply Hweak, handle_established_ready.
  - by apply Hweak, reset_ready.
  - by apply Hweak, handle_closing_ready.
  - by apply Hweak, handle_closing_ready.
  - by apply Hweak, handle_closing_ready.
  - by apply Hweak, handle_closing_ready.
  - by apply Hweak, reset_ready.
Qed.

End Sending.

(** ** Ports *)

Definition port_range : Z := last_ephemeral_port - first_ephemeral_port + 1.

(** The [k]th port of the scan that starts at [f]. *)
Definition scan_port (f k : Z) : Z := first_ephemeral_port + (f - first_ephemeral_port + k) mod port_range.

Definition port_taken (n : net) (s : TCPSocket) (port : Z) : Prop :=
  n_by_tuple n !! (m_local_address s, port, m_peer_address s, m_peer_port s) <> None.

Lemma scan_port_range f k : first_ephemeral_port <= scan_port f k <= last_ephemeral_port.
Proof.
  unfold scan_port. pose proof (Z.mod_pos_bound (f - first_ephemeral_port + k) port_range eq_refl).
  unfold port_range, first_ephemeral_port, last_ephemeral_port in *. lia.
Qed.

Lemma scan_port_next f k :
  let port := wrap U16 (scan_port f k + 1) in
  (if last_ephemeral_port <? port then first_ephemeral_port else port) = scan_port f (k + 1).
Proof.
  intros port. pose proof (scan_port_range f k) as Hr.
  assert (port = scan_port f k + 1) as ->.
  { apply wrap_id; [done|]. apply in_ty_spec. cbn. unfold first_ephemeral_port, last_ephemeral_port in Hr. lia. }
  unfold scan_port in *. unfold port_range, first_ephemeral_port, last_ephemeral_port in *.
  destruct (Z.ltb_spec 60999 (32768 + (f - 32768 + k) mod (60999 - 32768 + 1) + 1)); Z.to_euclidean_division_equations; lia.
Qed.

Lemma scan_port_wraps f k :
  first_ephemeral_port <= f <= last_ephemeral_port -> 0 <= k < port_range -> scan_port f (k + 1) = f <-> k + 1 = port_range.
Proof.
  unfold scan_port, port_range, first_ephemeral_port, last_ephemeral_port. intros. Z.to_euclidean_division_equations. lia.
Qed.

Lemma scan_port_covers f p :
  first_ephemeral_port <= f <= last_ephemeral_port -> first_ephemeral_port <= p <= last_ephemeral_port ->
  exists k, 0 <= k < port_range /\ scan_port f k = p.
Proof.
  intros Hf Hp. exists ((p - f) mod port_range). unfold scan_port, port_range, first_ephemeral_port, last_ephemeral_port in *.
  Z.to_euclidean_division_equations. lia.
Qed.

Lemma port_loop_spec n s f fuel k :
  first_ephemeral_port <= f <= last_ephemeral_port -> 0 <= k < port_range -> port_range <= Z.of_nat fuel + k ->
  (forall j, 0 <= j < k -> port_taken n s (scan_port f j)) ->
  exists r, port_loop fuel n s f (scan_port f k) = Ok r /\
    match r with
    | Some p => first_ephemeral_port <= p <= last_ephemeral_port /\ ~ port_taken n s p
    | None => forall j, 0 <= j < port_range -> port_taken n s (scan_port f j)
    end.
Proof.
  intros Hf. revert k. induction fuel as [|fuel IH]; intros k Hk Hfuel Htaken; [lia|]. cbn [port_loop].
  destruct (n_by_tuple n !! _) as [j|] eqn:E.
  - assert (forall j, 0 <= j < k + 1 -> port_taken n s (scan_port f j)) as Hall.
    { intros m Hm. destruct (Z.eq_dec m k) as [->|]; [unfold port_taken; congruence|apply Htaken; lia]. }
    cbn zeta. rewrite scan_port_next. destruct (Z.eqb_spec (scan_port f (k + 1)) f) as [Ew|Ew].
    + apply scan_port_wraps in Ew; [|done..]. exists None. split; [done|]. intros m Hm. apply Hall. lia.
    + assert (k + 1 <> port_range) by (intros H; apply Ew; by apply scan_port_wraps). apply IH; [lia|lia|done].
  - exists (Some (scan_port f k)). split; [done|]. split; [apply scan_port_range|]. unfold port_taken. congruence.
Qed.

(** The whole allocation. *)
Lemma allocate_port_spec random i n s :
  n_sockets n !! i = Some s ->
  (exists p, first_ephemeral_port <= p <= last_ephemeral_port /\ ~ port_taken n s p /\
     protocol_allocate_local_port random i n =
     Ok (register (put n i (with_local_port p s)) (m_local_address s, p, m_peer_address s, m_peer_port s) i, None)) \/
  (forall p, first_ephemeral_port <= p <= last_ephemeral_port -> port_taken n s p) /\
  protocol_allocate_local_port random i n = Ok (n, Some EADDRINUSE).
Proof.
  intros Hs. unfold protocol_allocate_local_port, get. rewrite Hs. cbn [of_opt res_bind].
  set (f := wrap U16 _).
  assert (first_ephemeral_port <= f <= last_ephemeral_port) as Hf.
  { pose proof (Z.mod_pos_bound random (last_ephemeral_port - first_ephemeral_port) eq_refl).
    assert (f = first_ephemeral_port + random mod (last_ephemeral_port - first_ephemeral_port)) as ->.
    { apply wrap_id; [done|]. apply in_ty_spec. cbn. unfold first_ephemeral_port, last_ephemeral_port in *. lia. }
    unfold first_ephemeral_port, last_ephemeral_port in *. lia. }
  assert (f = scan_port f 0) as E0.
  { unfold scan_port, port_range. rewrite Z.add_0_r, Z.mod_small; unfold first_ephemeral_port, last_ephemeral_port in *; lia. }
  destruct (port_loop_spec n s f (Z.to_nat (2 ^ 15)) 0) as (r & E & Hr); [done|by vm_compute|rewrite Z2Nat.id by lia; by vm_compute|intros; lia|].
  rewrite <-E0 in E. rewrite E. cbn [res_bind]. destruct r as [p|].
  - left. exists p. destruct Hr. done.
  - right. split; [|done]. intros p Hp. destruct (scan_port_covers f p Hf Hp) as (k & Hk & <-). by apply Hr.
Qed.

(** A socket without a port gets one and is registered. *)
Lemma allocate_inv random i n s :
  net_inv n -> n_sockets n !! i = Some s -> m_originator s = None ->
  exists n' e, allocate_local_port_if_needed random i n = Ok (n', e) /\ net_inv n' /\
    (exists s', n_sockets n' !! i = Some s' /\ m_originator s' = None /\ (e = None -> m_local_port s' <> 0)).
Proof.
  intros Hinv Hs Ho. unfold allocate_local_port_if_needed, get. rewrite Hs. cbn [of_opt res_bind].
  destruct (Z.eqb_spec (m_local_port s) 0) as [E|E]; cbn [negb]; [|eexists _, _; split; [done|]; split; [done|]; by exists s].
  destruct (allocate_port_spec random i n s Hs) as [(p & Hp & Hfree & ->)|[_ ->]];
    [|eexists _, _; split; [done|]; split; [done|]; by exists s].
  assert (p <> 0) as Hp0 by (unfold first_ephemeral_port in Hp; lia).
  eexists _, _. split; [done|]. split; [|exists (with_local_port p s); cbn [register put n_sockets]; rewrite lookup_insert_eq; done].
  pose proof Hinv as [H1 H2 H3 H4]. split; cbn [register put n_sockets n_by_tuple].
  - intros t j [[<- <-]|[_ Hj]]%lookup_insert_Some.
    + exists (with_local_port p s). by rewrite lookup_insert_eq.
    + destruct (H1 t j Hj) as (r & Hr & Hrp & Hz). exists r. rewrite lookup_insert_ne; [done|]. intros <-. congruence.
  - intros j r o Hj Hoj. destruct (decide (j = i)) as [->|Hd].
    { rewrite lookup_insert_eq in Hj. injection Hj as <-. cbn in Hoj. congruence. }
    rewrite lookup_insert_ne in Hj by auto. destruct (H2 j r o Hj Hoj) as (K1 & K2 & l & K3 & K4). split; [done|].
    split; [rewrite lookup_insert_ne; [done|]; intros Et; apply Hfree; unfold port_taken; rewrite Et; congruence|].
    destruct (decide (o = i)) as [->|Hoi].
    + exists (with_local_port p s). rewrite lookup_insert_eq. split; [done|]. assert (l = s) as -> by congruence. done.
    + exists l. by rewrite lookup_insert_ne by auto.
  - intros j r [[_ <-]|[_ Hj]]%lookup_insert_Some; [by apply (H3 i s)|by eapply H3].
  - intros j r [[_ <-]|[_ Hj]]%lookup_insert_Some; [done|by eapply H4].
Qed.

(** ** Calls of the user *)

(** A socket that waits for no handshake may change its addresses. *)
Lemma put_unowned_inv n i s s' :
  net_inv n -> n_sockets n !! i = Some s -> m_originator s = None ->
  m_local_port s' = m_local_port s -> m_originator s' = None ->
  m_pending_release_for_accept s' = m_pending_release_for_accept s -> m_not_acked s' = m_not_acked s -> m_state s' = m_state s ->
  net_inv (put n i s').
Proof.
  intros [H1 H2 H3 H4] Hi Ho L1 L2 L3 L4 L5. split; cbn [put n_sockets n_by_tuple].
  - intros t j Hj. destruct (H1 t j Hj) as (r & Hr & Hrp & Hne). destruct (decide (j = i)) as [->|Hd].
    + exists s'. rewrite lookup_insert_eq. split; [done|]. split; [congruence|done].
    + exists r. by rewrite lookup_insert_ne by auto.
  - intros j r o Hj Hoj. apply lookup_insert_Some in Hj as [[_ <-]|[Hd Hj]]; [congruence|].
    destruct (H2 j r o Hj Hoj) as (K1 & K2 & l & K3 & K4). split; [done|]. split; [done|].
    destruct (decide (o = i)) as [->|Hoi].
    + exists s'. rewrite lookup_insert_eq. split; [done|]. rewrite L3. congruence.
    + exists l. by rewrite lookup_insert_ne by auto.
  - intros j r [[_ <-]|[_ Hj]]%lookup_insert_Some; [unfold times_ok; rewrite L4; by apply (H3 i s)|by eapply H3].
  - intros j r [[_ <-]|[_ Hj]]%lookup_insert_Some; [rewrite L5, L1; by apply (H4 i s)|by eapply H4].
Qed.

Lemma new_id_fresh n : n_sockets n !! new_id n = None.
Proof. apply not_elem_of_dom. unfold new_id. exact (is_fresh (dom (n_sockets n))). Qed.

Lemma open_inv n s :
  net_inv n -> m_originator s = None -> m_not_acked s = [] -> m_state s = Closed -> net_inv (put n (new_id n) s).
Proof.
  intros [H1 H2 H3 H4] L1 L2 L3. pose proof (new_id_fresh n) as Hf. split; cbn [put n_sockets n_by_tuple].
  - intros t j Hj. destruct (H1 t j Hj) as (r & Hr & ?). exists r. rewrite lookup_insert_ne; [done|]. congruence.
  - intros j r o [[_ <-]|[_ Hj]]%lookup_insert_Some Hoj; [congruence|].
    destruct (H2 j r o Hj Hoj) as (K1 & K2 & l & K3 & K4). split; [done|]. split; [done|]. exists l.
    rewrite lookup_insert_ne; [done|]. congruence.
  - intros j r [[_ <-]|[_ Hj]]%lookup_insert_Some; [unfold times_ok; rewrite L2; constructor|by eapply H3].
  - intros j r [[_ <-]|[_ Hj]]%lookup_insert_Some; [done|by eapply H4].
Qed.

Lemma bind_open is_local superuser address port n :
  net_inv n -> safe net_inv (ignore (bind is_local superuser address port (new_id n) (put n (new_id n) make_socket))).
Proof.
  intros Hinv. unfold bind, modify, get. cbn [put n_sockets]. rewrite !lookup_insert_eq. cbn [of_opt res_bind m_setup_state make_socket verify].
  case_if; [by apply safe_ok, open_inv|]. set (s' := with_local_port _ _).
  assert (put (put n (new_id n) make_socket) (new_id n) s' = put n (new_id n) s') as ->.
  { unfold put. cbn. by rewrite insert_insert_eq. }
  case_if; by apply safe_ok, open_inv.
Qed.

Lemma register_inv n t i s :
  net_inv n -> n_by_tuple n !! t = None -> n_sockets n !! i = Some s -> m_local_port s = port_of t -> port_of t <> 0 ->
  net_inv (register n t i).
Proof.
  intros [H1 H2 H3 H4] Ht Hs Hp Hz. split; cbn [register n_sockets n_by_tuple]; [| |done|done].
  - intros t' j [[<- <-]|[_ Hj]]%lookup_insert_Some; [by exists s|by apply H1].
  - intros j r o Hj Ho. destruct (H2 j r o Hj Ho) as (K1 & K2 & K3). split; [done|]. split; [|done].
    rewrite lookup_insert_ne; [done|]. congruence.
Qed.

Lemma listen_safe random backlog i n :
  net_inv n -> owned n i = true -> safe net_inv (ignore (listen random backlog i n)).
Proof.
  intros Hinv Ho. unfold owned in Ho. destruct (n_sockets n !! i) as [s|] eqn:Hs; [|done]. apply bool_decide_eq_true in Ho.
  unfold listen. destruct (allocate_inv random i n s Hinv Hs Ho) as (n1 & e & -> & I1 & s1 & S1 & O1 & P1). cbn [res_bind].
  destruct e as [e|]; [by apply safe_ok|]. specialize (P1 eq_refl).
  unfold modify at 1, get. rewrite S1. cbn [of_opt res_bind]. set (s2 := with_role _ _).
  assert (net_inv (put n1 i s2)) as I2 by by apply (put_unowned_inv n1 i s1).
  unfold protocol_listen, get. cbn [put n_sockets n_by_tuple]. rewrite lookup_insert_eq. cbn [of_opt res_bind].
  case_bool_decide as Hreg; [by apply safe_ok|].
  assert (ready i (register (put n1 i s2) (tuple_of s2) i)) as R.
  { split; [|exists s2; cbn; rewrite lookup_insert_eq; done].
    apply (register_inv _ _ _ s2); try done. cbn. by rewrite lookup_insert_eq. }
  assert (safe (ready i) (let* n := modify i (with_direction Passive) (register (put n1 i s2) (tuple_of s2) i) in
    let* n := set_state i Listen n in set_setup_state i Completed n)) as (n3 & E3 & R3).
  { apply (safe_bind (ready i)); [by apply modify_ready|]. intros n2 ?. apply (safe_bind (ready i)); [by apply set_state_ready|].
    intros n3 ?. by apply set_setup_ready. }
  unfold ignore. revert E3. destruct (modify i (with_direction Passive) _) as [m1|]; cbn [res_bind]; [|done].
  destruct (set_state i Listen m1) as [m2|]; cbn [res_bind]; [|done].
  intros ->. cbn. by apply safe_ok, R3.
Qed.

Section Calls.
Context (e : env) (Hnow : Time.wf (e_now e) = true).

(** Choosing the local address and port, common to [connect] and [sendto]. *)
Lemma prepare_inv random aa i n s :
  net_inv n -> n_sockets n !! i = Some s -> m_originator s = None ->
  exists n' e', (let* n := modify i (fun s => if m_local_address s =? 0 then with_local_address aa s else s) n in
                 allocate_local_port_if_needed random i n) = Ok (n', e') /\ net_inv n' /\ (e' = None -> ready i n').
Proof using.
  intros Hinv Hs Ho. unfold modify, get. rewrite Hs. cbn [of_opt res_bind]. set (s1 := if m_local_address s =? 0 then _ else s).
  assert (net_inv (put n i s1)) as I1 by (subst s1; case_if; by apply (put_unowned_inv n i s)).
  destruct (allocate_inv random i (put n i s1) s1) as (n1 & e1 & -> & J & s2 & S2 & O2 & P2); [done|by cbn; rewrite lookup_insert_eq|subst s1; by case_if|].
  eexists _, _. split; [done|]. split; [done|]. intros ->. split; [done|]. exists s2. auto.
Qed.

Lemma connect_safe rp rs aa pa pp i n :
  net_inv n -> owned n i = true ->
  safe net_inv (ignore (connect (e_routed e) (e_accepts e) (e_now e) rp rs aa pa pp i n)).
Proof using Hnow.
  intros Hinv Ho. unfold owned in Ho. destruct (n_sockets n !! i) as [s|] eqn:Hs; [|done]. apply bool_decide_eq_true in Ho.
  unfold connect, get. rewrite Hs. cbn [of_opt res_bind].
  assert (m_role s = Connected \/ m_role s <> Connected) as [E|E] by (destruct (m_role s); auto || (right; discriminate)).
  { rewrite E. by apply safe_ok. }
  assert (forall (A B : res (net * option errno)), match m_role s with Connected => A | _ => B end = B) as -> by (intros; by destruct (m_role s)).
  unfold modify at 1, get. rewrite Hs. cbn [of_opt res_bind]. set (s1 := with_peer_port _ _).
  assert (net_inv (put n i s1)) as I1 by by apply (put_unowned_inv n i s).
  unfold protocol_connect, get. cbn [put n_sockets]. rewrite lookup_insert_eq. cbn [of_opt res_bind]. fold (put n i s1).
  destruct (negb (e_routed e s1)); [by apply safe_ok|].
  destruct (prepare_inv rp aa i (put n i s1) s1 I1) as (n2 & e2 & E2 & I2 & R2); [by cbn; rewrite lookup_insert_eq|done|].
  revert E2. destruct (modify i (fun s => if m_local_address s =? 0 then with_local_address aa s else s) (put n i s1)) as [m1|]; cbn [res_bind]; [|done].
  intros ->. cbn [res_bind]. destruct e2 as [e2|]; [by apply safe_ok|]. specialize (R2 eq_refl).
  match goal with |- context [modify i ?f n2] => destruct (modify_ready i f n2) as (n3 & -> & R3); [benign|done|] end.
  cbn [res_bind]. destruct (send_tcp_packet_ready (e_routed e) (e_accepts e) (e_now e) Hnow i SYN [] true n3 R3) as (n4 & e4 & -> & R4).
  cbn [res_bind]. destruct e4 as [e4|]; [by apply safe_ok, R4|].
  match goal with |- context [modify i ?f n4] => destruct (modify_ready i f n4) as (n5 & -> & R5); [benign|done|] end.
  cbn. by apply safe_ok, R5.
Qed.

Lemma sendto_safe rp aa data readable i n :
  net_inv n -> owned n i = true ->
  safe net_inv (ignore (sendto (e_routed e) (e_accepts e) (e_now e) rp aa data readable i n)).
Proof using Hnow.
  intros Hinv Ho. unfold owned in Ho. destruct (n_sockets n !! i) as [s|] eqn:Hs; [|done]. apply bool_decide_eq_true in Ho.
  unfold sendto, get. rewrite Hs. cbn [of_opt res_bind]. destruct (negb (e_routed e s)); [by apply safe_ok|].
  destruct (prepare_inv rp aa i n s Hinv Hs Ho) as (n2 & e2 & E2 & I2 & R2).
  revert E2. destruct (modify i _ n) as [m1|]; cbn [res_bind]; [|done]. intros ->. cbn [res_bind].
  destruct e2 as [e2|]; [by apply safe_ok|]. specialize (R2 eq_refl). unfold protocol_send.
  destruct (send_tcp_packet_ready (e_routed e) (e_accepts e) (e_now e) Hnow i (Z.lor PUSH ACK) data readable n2 R2) as (n4 & e4 & -> & R4).
  cbn. by apply safe_ok, R4.
Qed.

(** In a state other than [Closed] the socket has a port. *)
Lemma open_ready i n s : net_inv n -> n_sockets n !! i = Some s -> m_state s <> Closed -> ready i n.
Proof using. intros Hinv Hs Hst. split; [done|]. exists s. split; [done|]. by apply (ni_ports n Hinv i). Qed.

(** [i] still exists. *)
Definition kept (i : nat) (n : net) : Prop := net_inv n /\ n_sockets n !! i <> None.

Lemma ready_kept i r : safe (ready i) r -> safe (kept i) r.
Proof using. intros (n & -> & [H1 (s & Hs & _)]). apply safe_ok. split; [done|congruence]. Qed.

Lemma shutdown_safe i n : kept i n -> safe (kept i) (shutdown (e_routed e) (e_accepts e) (e_now e) i n).
Proof using Hnow.
  intros [Hinv Hk]. unfold shutdown, get. destruct (n_sockets n !! i) as [s|] eqn:Hs; [|done]. cbn [of_opt res_bind].
  assert (kept i n) as K by (split; [done|congruence]).
  case_if; [by apply safe_ok|].
  assert (safe (kept i) (let* n := (if m_shut_down_for_writing s then Ok n else shut_down_for_writing (e_routed e) (e_accepts e) (e_now e) i n) in
        modify i (fun s => with_shut_down_for_writing true (with_shut_down_for_reading true s)) n)) as Hrest.
  { apply (safe_bind (kept i)).
    - case_if; [by apply safe_ok|]. unfold shut_down_for_writing, get. rewrite Hs. cbn [of_opt res_bind].
      destruct (m_state s) eqn:Es; try by apply safe_ok. apply ready_kept.
      assert (ready i n) as R by (apply (open_ready i n s); congruence).
      apply (safe_bind (ready i)); [by apply send_control_ready|]. intros. by apply set_state_ready.
    - intros m [Im Km]. unfold modify, get. destruct (n_sockets m !! i) as [r|] eqn:Hr; [|done]. cbn [of_opt res_bind].
      apply safe_ok. split; [|cbn; by rewrite lookup_insert_eq]. apply (put_inv m i r); try done.
      + exact (ni_times m Im i r Hr).
      + destruct (decide (m_state r = Closed)) as [|Hc]; [by left|right]. exact (ni_ports m Im i r Hr Hc). }
  destruct (m_role s); (by apply safe_ok) || exact Hrest.
Qed.

Lemma close_safe i n : net_inv n -> owned n i = true -> safe net_inv (close (e_routed e) (e_accepts e) (e_now e) i n).
Proof using Hnow.
  intros Hinv Ho. unfold owned in Ho. destruct (n_sockets n !! i) as [s|] eqn:Hs; [|done].
  unfold close. apply (safe_bind (kept i)); [apply shutdown_safe; split; congruence|].
  clear n Hinv Ho s Hs. intros n [Hinv Hk]. unfold get at 1. destruct (n_sockets n !! i) as [s|] eqn:Hs; [|done]. cbn [of_opt res_bind].
  apply (safe_bind (kept i)).
  - destruct (m_state s) eqn:Es; try (apply safe_ok; split; congruence). apply ready_kept.
    assert (ready i n) as R by (apply (open_ready i n s); congruence).
    apply (safe_bind (ready i)); [by apply send_control_ready|]. intros. by apply set_state_ready.
  - clear n Hinv Hk s Hs. intros n [Hinv Hk]. unfold get. destruct (n_sockets n !! i) as [s|] eqn:Hs; [|done]. cbn [of_opt res_bind].
    destruct (m_state s); apply safe_ok; done || by apply with_closing_inv.
Qed.

(** Every step of the system. *)
Lemma step_safe ev n r : net_inv n -> step e ev n = Some r -> safe net_inv r.
Proof using Hnow.
  intros Hinv. destruct ev as [[[[su a] p]|]|i|i|i|i|]; cbn [step]; unfold guarded.
  - intros [= <-]. by apply bind_open.
  - intros [= <-]. by apply safe_ok, open_inv.
  - destruct (owned n i) eqn:Eo; [|done]. intros [= <-]. by apply listen_safe.
  - destruct (owned n i) eqn:Eo; [|done]. intros [= <-]. by apply connect_safe.
  - destruct (owned n i) eqn:Eo; [|done]. intros [= <-]. by apply sendto_safe.
  - destruct (owned n i) eqn:Eo; [|done]. intros [= <-]. by apply close_safe.
  - intros [= <-]. by apply handle_tcp_safe.
Qed.

End Calls.

Lemma reachable_net_inv n : reachable n -> net_inv n.
Proof.
  induction 1 as [|n e ev n' Hr IH Hnow Hst].
  - split; cbn; intros *; by rewrite lookup_empty.
  - destruct (step_safe e Hnow ev n _ IH Hst) as (m & [= <-] & Hm). done.
Qed.

End TcpFacts.

(** ** Properties *)

Import Packets Tcp ChecksumFacts TcpSystem TcpFacts.


Definition quiet_env : env := mkEnv (fun _ => true) (fun _ => true) (Time.make 100 0) (fun _ _ => true) (fun _ => true).

Definition run_steps (evs : list event) : option (res net) :=
  foldl (fun acc ev => match acc with Some (Ok n) => step quiet_env ev n | r => r end) (Some (Ok empty_net)) evs.

Lemma run_steps_reachable evs n : run_steps evs = Some (Ok n) -> reachable n.
Proof.
  revert n. induction evs as [|ev evs IH] using rev_ind; intros n; unfold run_steps.
  - cbn. intros [= <-]. constructor.
  - rewrite foldl_app. cbn [foldl]. fold (run_steps evs). destruct (run_steps evs) as [[m|f]|] eqn:E; [|done..].
    intros H. apply (reachable_step m quiet_env ev); [by apply IH|done|done].
Qed.

Definition packet_with (fl seq : Z) : Packet := mkPacket 4000 80 seq 0 (Z.lor (Z.shiftl 5 12) fl) 1024 0 0 [].

(** A web server with one client whose handshake has begun. *)
Definition server_events : list event := [Open (Some (true, 0, 80)); DoListen 0 0 5; Arrive 7 9 20 (packet_with SYN 500)].

Definition server : net := match run_steps server_events with Some (Ok n) => n | _ => empty_net end.


(** A receiver that sums a packet with the checksum the sender computed gets
    zero, so the checksum is accepted. *)
Theorem tcp_checksum_verifies (src dst k : Z) (p : Packet) (c : Z)
    (Hp : packet_ok p) (Hs : 0 <= src < 2 ^ 32) (Hd : 0 <= dst < 2 ^ 32) (H0 : checksum p = 0)
    (Hc : compute_tcp_checksum src dst p k = Ok c) :
  0 <= c < 2 ^ 16 /\ compute_tcp_checksum src dst (with_checksum p c) k = Ok 0.
Proof.
  apply compute_spec in Hc as [-> Hoff].
  destruct (add_words_spec 0 (all_words src dst k p)) as (W & [q E] & _); [unfold word; lia|by apply all_words_words|].
  rewrite complement by done. set (r := add_words 0 (all_words src dst k p)) in *. clearbody r.
  assert (packet_ok (with_checksum p (0xffff - r))) as Hp'.
  { destruct Hp as [P1 P2 (P3 & P4 & P5 & P6) P7]. split; cbn; try done. unfold word in *. repeat split; lia. }
  destruct (add_words_spec 0 (all_words src dst k (with_checksum p (0xffff - r)))) as (W' & [q' E'] & Z');
    [unfold word; lia|by apply all_words_words|].
  split; [unfold word in W; lia|].
  assert (add_words 0 (all_words src dst k (with_checksum p (0xffff - r))) = 0xffff) as Hfull.
  { rewrite all_words_sum, H0 in E'. unfold word in *.
    assert (add_words 0 (all_words src dst k (with_checksum p (0xffff - r))) <> 0) as Hnz.
    { intros Hz. destruct (Z' Hz) as [_ H]. by apply all_words_nonzero in H. }
    lia. }
  unfold compute_tcp_checksum. change (data_offset (with_checksum p (65535 - r))) with (data_offset p).
  rewrite Hoff. cbn [Z.eqb sizeof_TCPPacket Pos.eqb verify res_bind].
  unfold all_words in Hfull. unfold add_words in *. rewrite !foldl_app in Hfull. rewrite Hfull. reflexivity.
Qed.

Lemma tcp_checksum_verifies_witness :
  compute_tcp_checksum 0x0a000001 0x0a000002 (with_checksum (build_packet (with_local_port 80 make_socket) ACK [1; 2; 255]) 38780) 3 = Ok 0.
Proof.
  refine (proj2 (tcp_checksum_verifies 0x0a000001 0x0a000002 3 (build_packet (with_local_port 80 make_socket) ACK [1; 2; 255]) _ _ _ _ _ _)).
  - split; [vm_compute; repeat split; discriminate|vm_compute; repeat split; discriminate|vm_compute; repeat split; discriminate|].
    repeat constructor; lia.
  - lia.
  - lia.
  - reflexivity.
  - vm_compute. reflexivity.
Defined.

(** Allocating a local port registers the socket under an ephemeral port that
    was free, whatever the random number; it fails only when every ephemeral port
    is taken for the socket's addresses. *)
Theorem allocate_port_correct (random : Z) (i : nat) (n : net) (s : TCPSocket) (Hs : n_sockets n !! i = Some s) :
  (exists p, first_ephemeral_port <= p <= last_ephemeral_port /\ ~ port_taken n s p /\
     protocol_allocate_local_port random i n =
     Ok (register (put n i (with_local_port p s)) (m_local_address s, p, m_peer_address s, m_peer_port s) i, None)) \/
  (forall p, first_ephemeral_port <= p <= last_ephemeral_port -> port_taken n s p) /\
  protocol_allocate_local_port random i n = Ok (n, Some EADDRINUSE).
Proof. by apply allocate_port_spec. Qed.

Lemma allocate_port_correct_witness :
  exists p, first_ephemeral_port <= p <= last_ephemeral_port /\
    protocol_allocate_local_port 77777 0 (put empty_net 0 make_socket) =
    Ok (register (put (put empty_net 0 make_socket) 0 (with_local_port p make_socket)) (0, p, 0, 0) 0, None).
Proof.
  destruct (allocate_port_correct 77777 0 (put empty_net 0 make_socket) make_socket) as [(p & H1 & _ & H2)|[_ H]].
  - vm_compute. reflexivity.
  - exists p. split; [exact H1|exact H2].
  - vm_compute in H. discriminate.
Defined.

(** Listening on a socket that was not bound fails with [EADDRINUSE], because
    the port it has just been given counts as taken; binding it afterwards to
    another port makes the next packet for the first port fail an assertion; so
    does binding a socket that listens; destroying a socket that failed to listen
    unregisters the one that does; and an acknowledgement whose number has wrapped
    around does not clear the packets sent before. *)
Theorem tcp_call_order_defects :
  (exists n, listen 0 5 0 (put empty_net 0 make_socket) = Ok (n, Some EADDRINUSE) /\
     (exists n', bind (fun _ => true) true 0 1234 0 n = Ok (n', None) /\
        handle_tcp (fun _ => true) (fun _ => true) (Time.make 100 0) (fun _ _ => true) (fun _ => true) 7 9 20
          (mkPacket 4000 32768 0 0 (Z.lor (Z.shiftl 5 12) SYN) 1024 0 0 []) n' = Fault VerifyFailed)) /\
  (exists n, step quiet_env (DoListen 0 0 5) (put empty_net 0 (with_local_port 80 make_socket)) = Some (Ok n) /\
     bind (fun _ => true) true 0 81 0 n = Fault VerifyFailed) /\
  (exists n n' n'', listen 0 5 0 (put (put empty_net 0 (with_local_port 80 make_socket)) 1 (with_local_port 80 make_socket)) = Ok (n, None) /\
     listen 0 5 1 n = Ok (n', Some EADDRINUSE) /\ n_by_tuple n' !! (0, 80, 0, 0) = Some 0%nat /\
     destroy 1 n' = Ok n'' /\ n_by_tuple n'' !! (0, 80, 0, 0) = None) /\
  (forall p q, drop_acked 5 [mkOutgoingPacket (2 ^ 32 - 10) p 1 Time.zero; mkOutgoingPacket 5 q 1 Time.zero] =
     [mkOutgoingPacket (2 ^ 32 - 10) p 1 Time.zero; mkOutgoingPacket 5 q 1 Time.zero]).
Proof.
  split; [|split; [|split]].
  - eexists. split; [vm_compute; reflexivity|]. eexists. split; [vm_compute; reflexivity|]. vm_compute. reflexivity.
  - eexists. split; [vm_compute; reflexivity|]. vm_compute. reflexivity.
  - eexists _, _, _. repeat (split; [vm_compute; reflexivity|]). vm_compute. reflexivity.
  - reflexivity.
Qed.
