(* ===== verification/Paths.v ===== *)
(** * Strings and paths

    AK/StringView.cpp (split_view, substring_view_starting_after_substring) and
    AK/LexicalPath.cpp.  A view is the text it shows with its offset in the string
    it was cut from, so that the rest of a path after one of its parts is taken
    from the path as the code takes it. *)
From S2P Require Import Prelude.
From Stdlib Require Import Ascii String.

Open Scope Z_scope.

Module StringView.

Record View := mkView { v_offset : nat; v_text : string }.

Definition is_empty (s : string) : bool := match s with EmptyString => true | String _ _ => false end.

Fixpoint contains (s : string) (needle : ascii) : bool :=
  match s with
  | EmptyString => false
  | String c rest => Ascii.eqb c needle || contains rest needle
  end.

Section Split.
Context (separator : ascii) (keep_empty : bool).

(** [current] is the text from [substart] to the character the loop is at. *)
Fixpoint split_loop (rest : string) (substart : nat) (current : string) : list View :=
  let part := if negb (is_empty current) || keep_empty then [mkView substart current] else [] in
  match rest with
  | EmptyString => part
  | String ch rest' =>
      if Ascii.eqb ch separator
      then part ++ split_loop rest' (substart + String.length current + 1) ""
      else split_loop rest' substart (current ++ String ch "")
  end.

Definition split_view (s : string) : list View :=
  if is_empty s then [] else split_loop s 0 "".
End Split.

Fixpoint string_drop (n : nat) (s : string) : string :=
  match n, s with
  | S n', String _ s' => string_drop n' s'
  | _, _ => s
  end.

Definition substring_view_starting_after_substring (s : string) (v : View) : res string :=
  let first := (v_offset v + String.length (v_text v))%nat in
  VERIFY (first <=? String.length s)%nat ;; Ok (string_drop first s).

(** StringUtils::starts_with and contains with the needle given. *)
Fixpoint starts_with (s needle : string) : bool :=
  match needle, s with
  | EmptyString, _ => true
  | String c needle', String d s' => Ascii.eqb c d && starts_with s' needle'
  | String _ _, EmptyString => false
  end.

Fixpoint contains_string (s needle : string) : bool :=
  starts_with s needle || match s with EmptyString => false | String _ s' => contains_string s' needle end.

Definition ends_with_slash (s : string) : bool :=
  match String.get (String.length s - 1) s with
  | Some c => negb (is_empty s) && Ascii.eqb c "/"
  | None => false
  end.

(** [find_last_of] a character: its index. *)
Fixpoint find_last_of (s : string) (c : ascii) : option nat :=
  match s with
  | EmptyString => None
  | String d s' => match find_last_of s' c with
                   | Some n => Some (S n)
                   | None => if Ascii.eqb d c then Some O else None
                   end
  end.

Definition texts (l : list View) : list string := map v_text l.

End StringView.

Module LexicalPath.
Import StringView.

Record LexicalPath := mkLexicalPath {
  m_is_absolute : bool; m_parts : list string; m_string : string; m_dirname : string;
  m_basename : string; m_title : string; m_extension : string }.

Definition first_is_slash (s : string) : bool :=
  match s with String c _ => Ascii.eqb c "/" | EmptyString => false end.

(** One turn of the first loop of canonicalize. *)
Definition canonical_step (absolute : bool) (canonical_parts : list string) (part : string) : list string :=
  if (part =? ".")%string then canonical_parts
  else
    let keep := if is_empty part then canonical_parts else canonical_parts ++ [part] in
    if (part =? "..")%string then
      match last canonical_parts with
      | None => if absolute then canonical_parts else keep
      | Some l => if negb (l =? "..")%string then removelast canonical_parts else keep
      end
    else keep.

Definition canonical_parts (absolute : bool) (parts : list string) : list string :=
  foldl (canonical_step absolute) [] parts.

(** The builders: a slash before every part but the first of a relative path. *)
Fixpoint build (slash : bool) (parts : list string) : string :=
  match parts with
  | [] => ""
  | p :: rest => (if slash then "/" else "") ++ p ++ build true rest
  end%string.

Definition create (s : string) : LexicalPath :=
  if is_empty s then mkLexicalPath false [] s "" "" "" ""
  else
    let absolute := first_is_slash s in
    let canonical := canonical_parts absolute (texts (split_view "/" false s)) in
    match last canonical with
    | None => mkLexicalPath absolute [] "/" "/" "/" "" ""
    | Some base =>
        let '(title, extension) :=
          match find_last_of base "." with
          | Some last_dot => (substring 0 last_dot base, substring (last_dot + 1) (String.length base - last_dot - 1) base)
          | None => (base, ""%string)
          end in
        mkLexicalPath absolute canonical (build absolute canonical)
          (build absolute (removelast canonical)) base title extension
    end.

Definition basename (s : string) : string := m_basename (create s).
Definition parts (s : string) : list string := m_parts (create s).

Definition canonicalized_path (s : string) : string := m_string (create s).

Definition relative_path (absolute_path prefix : string) : string :=
  if negb (m_is_absolute (create absolute_path)) || negb (m_is_absolute (create prefix)) then ""
  else if negb (starts_with absolute_path prefix) then absolute_path
  else
    let prefix_length := (String.length (m_string (create prefix)) + (if (prefix =? "/")%string then 0 else 1))%nat in
    if (String.length absolute_path <=? prefix_length)%nat then ""
    else string_drop prefix_length absolute_path.

End LexicalPath.

(** ** Facts *)
Module PathFacts.
Import StringView LexicalPath.

#[local] Arguments String.append !_ _ / : simpl nomatch.
#[local] Arguments String.length !_ / : simpl nomatch.

(** A name a directory entry has: no slash, not empty, neither dot nor dot-dot. *)
Definition plain (name : string) : bool :=
  negb (contains name "/") && negb (is_empty name) && negb (name =? ".")%string && negb (name =? "..")%string.

Lemma string_app_nil (s : string) : (s ++ "")%string = s.
Proof. induction s as [|c s IH]; cbn; [done|by rewrite IH]. Qed.

Lemma string_app_assoc (a b c : string) : ((a ++ b) ++ c)%string = (a ++ (b ++ c))%string.
Proof. induction a as [|x a IH]; cbn; [done|by rewrite IH]. Qed.

Lemma string_length_app (a b : string) : String.length (a ++ b) = (String.length a + String.length b)%nat.
Proof. induction a as [|x a IH]; cbn; [done|by rewrite IH]. Qed.

Lemma is_empty_app (a b : string) : is_empty (a ++ b) = is_empty a && is_empty b.
Proof. by destruct a. Qed.

Lemma contains_app (a b : string) c : contains (a ++ b) c = contains a c || contains b c.
Proof. induction a as [|x a IH]; cbn; [done|]. by rewrite IH, orb_assoc. Qed.

Lemma plain_spec name : plain name = true <->
  contains name "/" = false /\ is_empty name = false /\ (name =? ".")%string = false /\ (name =? "..")%string = false.
Proof.
  unfold plain. rewrite !andb_true_iff, !negb_true_iff. tauto.
Qed.

Section Loop.
Context (keep : bool).
Let loop := split_loop "/" keep.

(** Characters that are not the separator join the current part. *)
Lemma split_loop_text name rest off cur : contains name "/" = false ->
  loop (name ++ rest) off cur = loop rest off (cur ++ name).
Proof using Type.
  revert cur. induction name as [|c name IH]; intros cur H; [by rewrite string_app_nil|].
  cbn in H |- *. apply orb_false_iff in H as [Hc H]. fold loop. rewrite Hc.
  rewrite IH by done. by rewrite string_app_assoc.
Qed.

(** The slash of a path of names ends a part, the last name ends the text. *)
Lemma split_loop_names names off cur :
  Forall (fun n => plain n = true) names ->
  texts (loop (build true names) off cur) = (if negb (is_empty cur) || keep then [cur] else []) ++ names.
Proof using Type.
  intros Hn. revert off cur. induction Hn as [|n names Hn' Hrest IH]; intros off cur; cbn.
  - by destruct (negb (is_empty cur) || keep).
  - apply plain_spec in Hn' as (Hs & He & _). fold loop. rewrite split_loop_text by done.
    destruct (negb (is_empty cur) || keep) eqn:E; cbn; rewrite IH; cbn; rewrite He; reflexivity.
Qed.
End Loop.

Lemma split_view_names keep names : names <> [] -> Forall (fun n => plain n = true) names ->
  texts (split_view "/" keep (build true names)) = (if keep then [""%string] else []) ++ names.
Proof.
  intros Hne Hn. unfold split_view. destruct names as [|n names]; [done|].
  replace (is_empty (build true (n :: names))) with false by done.
  rewrite split_loop_names by done. by destruct keep.
Qed.

Lemma canonical_step_plain absolute canonical name :
  plain name = true -> canonical_step absolute canonical name = canonical ++ [name].
Proof.
  intros (_ & He & Hd & Hdd)%plain_spec. unfold canonical_step. by rewrite Hd, Hdd, He.
Qed.

Lemma canonical_parts_plain absolute names : Forall (fun n => plain n = true) names ->
  canonical_parts absolute names = names.
Proof.
  intros Hn. unfold canonical_parts.
  assert (forall acc, foldl (canonical_step absolute) acc names = acc ++ names) as E; [|by rewrite E].
  induction Hn as [|n names Hn' Hrest IH]; intros acc; cbn; [by rewrite app_nil_r|].
  rewrite canonical_step_plain, IH by done. by rewrite <-app_assoc.
Qed.

(** The parts of the path of names are the names. *)
Lemma parts_names names : Forall (fun n => plain n = true) names ->
  LexicalPath.parts (if decide (names = []) then "/" else build true names) = names.
Proof.
  intros Hn. destruct (decide (names = [])) as [-> |Hne]; [reflexivity|].
  unfold LexicalPath.parts, create. destruct names as [|n names]; [done|].
  replace (is_empty (build true (n :: names))) with false by done.
  rewrite split_view_names by done. cbn [app]. rewrite canonical_parts_plain by done.
  change (first_is_slash _) with true.
  destruct (last (n :: names)) as [b|] eqn:E; [|by apply last_None in E].
  by destruct (find_last_of b ".").
Qed.

(** The base name of a path whose last part is a name is that part. *)
Lemma basename_plain s pre name : texts (split_view "/" false s) = pre ++ [name] -> plain name = true ->
  basename s = name.
Proof.
  intros Hs Hp. unfold basename, create.
  destruct (is_empty s) eqn:He; [unfold split_view in Hs; rewrite He in Hs; by destruct pre|].
  rewrite Hs. unfold canonical_parts. rewrite foldl_app. cbn. rewrite canonical_step_plain by done.
  rewrite last_snoc. by destruct (find_last_of name ".").
Qed.

(** Dropping the empty parts gives the other way of splitting. *)
Lemma split_loop_keep rest off cur :
  texts (split_loop "/" false rest off cur) = List.filter (fun p => negb (is_empty p)) (texts (split_loop "/" true rest off cur)).
Proof.
  revert off cur. induction rest as [|c rest IH]; intros off cur; cbn [split_loop].
  - rewrite orb_true_r, orb_false_r. cbn. by destruct (is_empty cur).
  - rewrite orb_true_r, orb_false_r. destruct (Ascii.eqb c "/"); [|apply IH]. unfold texts. rewrite !map_app.
    change (map v_text ?l) with (texts l). rewrite List.filter_app, IH. f_equal. cbn. by destruct (is_empty cur).
Qed.

Lemma split_view_keep s :
  texts (split_view "/" false s) = List.filter (fun p => negb (is_empty p)) (texts (split_view "/" true s)).
Proof. unfold split_view. case_if; [done|apply split_loop_keep]. Qed.

(** Every part of a split string lies inside the string and has no separator. *)
Lemma elem_of_part (b : bool) (v w : View) : v ∈ (if b then [w] else []) -> v = w.
Proof. destruct b; [apply list_elem_of_singleton|by intros ?%elem_of_nil]. Qed.

Lemma split_loop_inside keep rest off cur v : v ∈ split_loop "/" keep rest off cur ->
  (v_offset v + String.length (v_text v) <= off + String.length cur + String.length rest)%nat.
Proof.
  revert off cur. induction rest as [|c rest IH]; intros off cur; cbn [split_loop].
  - intros ->%elem_of_part. cbn. lia.
  - destruct (Ascii.eqb c "/").
    + intros [->%elem_of_part|H%IH]%elem_of_app; [cbn; lia|]. cbn in H |- *. lia.
    + intros H%IH. rewrite string_length_app in H. cbn in H |- *. lia.
Qed.

Lemma split_loop_no_slash keep rest off cur v : contains cur "/" = false ->
  v ∈ split_loop "/" keep rest off cur -> contains (v_text v) "/" = false.
Proof.
  revert off cur. induction rest as [|c rest IH]; intros off cur Hc; cbn [split_loop].
  - by intros ->%elem_of_part.
  - destruct (Ascii.eqb c "/") eqn:Ec.
    + intros [->%elem_of_part|H]%elem_of_app; [done|by apply (IH _ ""%string) in H].
    + apply IH. rewrite contains_app, Hc. cbn. by rewrite Ec.
Qed.

Lemma split_view_inside keep s v : v ∈ split_view "/" keep s ->
  (v_offset v + String.length (v_text v) <= String.length s)%nat /\ contains (v_text v) "/" = false.
Proof.
  unfold split_view. case_if; [by intros ?%elem_of_nil|]. intros H. split; [by apply split_loop_inside in H|by apply split_loop_no_slash in H].
Qed.

Lemma starting_after_ok keep s v : v ∈ split_view "/" keep s ->
  exists rest, substring_view_starting_after_substring s v = Ok rest.
Proof.
  intros [H _]%split_view_inside. unfold substring_view_starting_after_substring.
  rewrite (proj2 (Nat.leb_le _ _)) by done. by eexists.
Qed.

(** What follows a part of a path is a slash and the parts after it. *)
Lemma texts_offset keep rest off off' cur : texts (split_loop "/" keep rest off cur) = texts (split_loop "/" keep rest off' cur).
Proof.
  revert off off' cur. induction rest as [|c rest IH]; intros off off' cur; cbn [split_loop].
  - by destruct (negb (is_empty cur) || keep).
  - destruct (Ascii.eqb c "/"); [|apply IH]. unfold texts. rewrite !map_app. f_equal; [by destruct (negb (is_empty cur) || keep)|apply IH].
Qed.

Lemma split_loop_offset keep rest off cur v : v ∈ split_loop "/" keep rest off cur -> (off <= v_offset v)%nat.
Proof.
  revert off cur. induction rest as [|c rest IH]; intros off cur; cbn [split_loop].
  - intros ->%elem_of_part. cbn. lia.
  - destruct (Ascii.eqb c "/").
    + intros [->%elem_of_part|H%IH]%elem_of_app; [cbn; lia|]. lia.
    + apply IH.
Qed.

Lemma split_loop_cons rest off cur : exists v l, split_loop "/" true rest off cur = v :: l.
Proof.
  revert off cur. induction rest as [|c rest IH]; intros off cur; cbn [split_loop]; rewrite orb_true_r; [by eexists _, _|].
  destruct (Ascii.eqb c "/"); [by eexists _, _|apply IH].
Qed.

Lemma string_drop_app a b n : (String.length a <= n)%nat -> string_drop n (a ++ b) = string_drop (n - String.length a) b.
Proof.
  revert n. induction a as [|c a IH]; intros n Hn; cbn; [by rewrite Nat.sub_0_r|].
  cbn in Hn. destruct n as [|n]; [lia|]. cbn. apply IH. lia.
Qed.

Lemma split_loop_after r off cur pre v rest : split_loop "/" true r off cur = pre ++ v :: rest -> rest <> [] ->
  exists t off', string_drop (v_offset v + String.length (v_text v) - off) (cur ++ r) = String "/" t /\
    split_loop "/" true t off' "" = rest.
Proof.
  revert off cur pre. induction r as [|c r IH]; intros off cur pre; cbn [split_loop]; rewrite orb_true_r.
  - intros Hl Hr. destruct pre as [|x [|y pre]]; [by injection Hl as _ <-|done|done].
  - destruct (Ascii.eqb_spec c "/") as [-> |Hc].
    + destruct pre as [|x pre]; cbn [app]; intros Hl Hr.
      * injection Hl as <- <-. cbn [v_offset v_text]. exists r, (off + String.length cur + 1)%nat. split; [|done].
        rewrite string_drop_app by lia. by replace (off + String.length cur - off - String.length cur)%nat with 0%nat by lia.
      * injection Hl as <- Hl. assert (off + String.length cur + 1 <= v_offset v)%nat as Hoff.
        { eapply split_loop_offset. rewrite Hl. apply elem_of_app. right. by apply elem_of_cons; left. }
        destruct (IH _ _ _ Hl Hr) as (t & off' & Ht & Hs). exists t, off'. split; [|done].
        rewrite string_drop_app by lia. rewrite <- Ht.
        replace (v_offset v + String.length (v_text v) - off - String.length cur)%nat
          with (S (v_offset v + String.length (v_text v) - (off + String.length cur + 1)))%nat by lia. done.
    + intros Hl Hr. destruct (IH _ _ _ Hl Hr) as (t & off' & Ht & Hs). exists t, off'. split; [|done].
      rewrite <- Ht. by rewrite string_app_assoc.
Qed.

Lemma split_after s pre v rest : split_view "/" true s = pre ++ v :: rest -> rest <> [] ->
  exists t, substring_view_starting_after_substring s v = Ok t /\
    texts (split_view "/" true (String "." t)) = "."%string :: texts rest.
Proof.
  intros Hs Hr. destruct (starting_after_ok true s v) as [t Ht]; [rewrite Hs; apply elem_of_app; right; by apply elem_of_cons; left|].
  exists t. split; [done|]. unfold split_view in Hs. destruct (is_empty s) eqn:Ee; [by destruct pre|].
  destruct (split_loop_after s 0 "" pre v rest Hs Hr) as (t' & off' & Hd & Hs').
  unfold substring_view_starting_after_substring in Ht. apply res_bind_Ok in Ht as (u & _ & [= <-]).
  rewrite Nat.sub_0_r in Hd. cbn [String.append] in Hd. rewrite Hd.
  unfold split_view. cbn. rewrite (texts_offset _ _ _ off'). by rewrite Hs'.
Qed.

End PathFacts.
