(* ===== verification/KBuffer.v ===== *)
(** * Kernel buffers

    Kernel/KBuffer.h and the part of Kernel/KBufferBuilder that Inode::read_entire
    uses.  A buffer is the bytes of its region, which may be more than its size.
    Whether the memory manager has a region of a size is [can_allocate]; a region it
    hands out reads as zeroes. *)
From S2P Require Import Prelude Memory.

Module KBuffer.
Import Slice.

Record KBuffer := mkKBuffer { m_region : list Z; m_size : Z }.

Definition capacity (b : KBuffer) : Z := Z.of_nat (length (m_region b)).

Section Allocation.
Context (can_allocate : Z -> bool).

Definition try_create_with_size (size : Z) : res (option KBuffer) :=
  let* region := page_round_up size in
  Ok (if can_allocate region then Some (mkKBuffer (replicate (Z.to_nat region) 0) size) else None).
End Allocation.

Definition set_size (b : KBuffer) (size : Z) : res KBuffer :=
  VERIFY size <=? capacity b ;; Ok (mkKBuffer (m_region b) size).

(** [n] bytes from [at_] on, which have to be in the region. *)
Definition load (b : KBuffer) (at_ n : Z) : res (list Z) :=
  DEFINED (0 <=? at_) && (0 <=? n) && (at_ + n <=? capacity b) ;; Ok (peek (m_region b) at_ n).

Definition store (b : KBuffer) (at_ : Z) (bytes : list Z) : res KBuffer :=
  DEFINED (0 <=? at_) && (at_ + Z.of_nat (length bytes) <=? capacity b) ;;
  Ok (mkKBuffer (poke (m_region b) at_ bytes) (m_size b)).

End KBuffer.

(** The builder: what was appended is the first [m_size] bytes of its buffer. *)
Module KBufferBuilder.

Record KBufferBuilder := mkBuilder { m_buffer : option Z; m_bytes : list Z }.

Definition MiB : Z := 1024 * 1024.

Section Allocation.
Context (can_allocate : Z -> bool).

Definition create : KBufferBuilder :=
  mkBuilder (if can_allocate (4 * MiB) then Some (4 * MiB) else None) [].

(** check_expand of a builder that may not expand. *)
Definition check_expand (b : KBufferBuilder) (size : Z) : bool :=
  match m_buffer b with
  | None => false
  | Some capacity => Z.of_nat (length (m_bytes b)) + size <? capacity
  end.

Definition append (b : KBufferBuilder) (bytes : list Z) : KBufferBuilder :=
  if (Z.of_nat (length bytes) =? 0) || negb (check_expand b (Z.of_nat (length bytes))) then b
  else mkBuilder (m_buffer b) (m_bytes b ++ bytes).

Definition build (b : KBufferBuilder) : option (list Z) :=
  match m_buffer b with None => None | Some _ => Some (m_bytes b) end.
End Allocation.

End KBufferBuilder.

(** ** Facts *)
Module KBufferFacts.
Import Slice KBuffer.

Lemma kbuffer_load_ok b a n : 0 <= a -> 0 <= n -> a + n <= capacity b -> load b a n = Ok (peek (m_region b) a n).
Proof.
  intros. unfold load. by rewrite (proj2 (Z.leb_le 0 a)), (proj2 (Z.leb_le 0 n)), (proj2 (Z.leb_le (a + n) _)) by lia.
Qed.

Lemma kbuffer_store_ok b a bytes : 0 <= a -> a + Z.of_nat (length bytes) <= capacity b ->
  store b a bytes = Ok (mkKBuffer (poke (m_region b) a bytes) (m_size b)).
Proof.
  intros. unfold store. by rewrite (proj2 (Z.leb_le 0 a)), (proj2 (Z.leb_le (a + _) _)) by lia.
Qed.

Lemma kbuffer_set_size_ok b n : n <= capacity b -> set_size b n = Ok (mkKBuffer (m_region b) n).
Proof. intros. unfold set_size. by rewrite (proj2 (Z.leb_le n _)) by lia. Qed.

(** A buffer that was created is large enough for its size, and zero. *)
Lemma kbuffer_create_ok can_allocate size : 0 <= size <= 0xfffff000 ->
  exists region, size <= region < 2 ^ 32 /\ try_create_with_size can_allocate size =
    Ok (if can_allocate region then Some (mkKBuffer (replicate (Z.to_nat region) 0) size) else None).
Proof.
  intros Hs. destruct (Z.eq_dec size 0) as [-> |Hne].
  { exists 0. split; [lia|]. reflexivity. }
  exists (PAGE_SIZE * ((size + PAGE_SIZE - 1) / PAGE_SIZE)). split.
  { unfold PAGE_SIZE. Z.to_euclidean_division_equations. lia. }
  unfold try_create_with_size. by rewrite page_round_up_ok.
Qed.

End KBufferFacts.
