(* ===== verification/FileSystem.v ===== *)
(** * What the kernel asks of a file system

    Kernel/FileSystem/InodeMetadata.h, InodeIdentifier.h and the virtual functions of
    Inode.h as a class.  [Inodes] holds the operations on the inodes of all mounted
    file systems, with [view], what they stand for: a map from inode identifiers to
    nodes.  [InodeLaws] says what each operation does to that map; [TmpFS] has an
    instance, and the virtual file system is proved against the class. *)
From S2P Require Import Prelude KBuffer Credentials Mmap Paths.

Module Errno.

Inductive errno :=
| EPERM | ENOENT | EACCES | EEXIST | ENOTDIR | EISDIR | EINVAL | EROFS | ELOOP | EXDEV | EDIRINTOSELF
| ENOTEMPTY | EBUSY | ENODEV | ENAMETOOLONG | ENOTSUP | ENOMEM | EFAULT | EOVERFLOW | ESPIPE | EIO
| EBADF.

#[global] Instance errno_eq_dec : EqDecision errno.
Proof. solve_decision. Defined.

End Errno.

(** An inode identifier: the number of the file system and the index in it. *)
Definition InodeIdentifier : Type := Z * Z.

Abbreviation fsid := (fst : InodeIdentifier -> Z).
Abbreviation index := (snd : InodeIdentifier -> Z).

Module Metadata.
Import Credentials.Process Mmap.InodeMetadata.

Definition S_IFMT : Z := 0xF000.
Definition S_IFDIR : Z := 0x4000.
Definition S_IFCHR : Z := 0x2000.
Definition S_IFBLK : Z := 0x6000.
Definition S_IFREG : Z := 0x8000.
Definition S_IFIFO : Z := 0x1000.
Definition S_IFLNK : Z := 0xA000.
Definition S_IFSOCK : Z := 0xC000.
Definition S_ISUID : Z := 0x800.
Definition S_ISGID : Z := 0x400.
Definition S_ISVTX : Z := 0x200.

Definition is_type (t mode : Z) : bool := Z.land mode S_IFMT =? t.
Definition is_directory : Z -> bool := is_type S_IFDIR.
Definition is_character_device : Z -> bool := is_type S_IFCHR.
Definition is_block_device : Z -> bool := is_type S_IFBLK.
Definition is_regular_file : Z -> bool := is_type S_IFREG.
Definition is_fifo : Z -> bool := is_type S_IFIFO.
Definition is_symlink : Z -> bool := is_type S_IFLNK.
Definition is_socket : Z -> bool := is_type S_IFSOCK.
Definition is_sticky (mode : Z) : bool := negb (Z.land mode S_ISVTX =? 0).
Definition is_setuid (mode : Z) : bool := negb (Z.land mode S_ISUID =? 0).
Definition is_setgid (mode : Z) : bool := negb (Z.land mode S_ISGID =? 0).

(** [access] holds the mode and the owners, which decide who may do what. *)
Record Metadata := mkMetadata {
  access : InodeMetadata; size : Z; atime : Z; ctime : Z; mtime : Z;
  major_device : Z; minor_device : Z }.

Definition mode (m : Metadata) : Z := InodeMetadata.mode (access m).
Definition uid (m : Metadata) : Z := InodeMetadata.uid (access m).
Definition gid (m : Metadata) : Z := InodeMetadata.gid (access m).

Definition directory (m : Metadata) : bool := is_directory (mode m).
Definition symlink (m : Metadata) : bool := is_symlink (mode m).
Definition device (m : Metadata) : bool := is_character_device (mode m) || is_block_device (mode m).

Definition may_read (m : Metadata) (p : process) : bool := process_may_read (access m) p.
Definition may_write (m : Metadata) (p : process) : bool := process_may_write (access m) p.
Definition may_execute (m : Metadata) (p : process) : bool := process_may_execute (access m) p.

Definition with_mode (m : Metadata) (mode : Z) : Metadata :=
  mkMetadata (InodeMetadata.mkMetadata mode (uid m) (gid m)) (size m) (atime m) (ctime m) (mtime m)
    (major_device m) (minor_device m).
Definition with_owner (m : Metadata) (u g : Z) : Metadata :=
  mkMetadata (InodeMetadata.mkMetadata (mode m) u g) (size m) (atime m) (ctime m) (mtime m)
    (major_device m) (minor_device m).
Definition with_size (m : Metadata) (n : Z) : Metadata :=
  mkMetadata (access m) n (atime m) (ctime m) (mtime m) (major_device m) (minor_device m).
Definition with_atime (m : Metadata) (t : Z) : Metadata :=
  mkMetadata (access m) (size m) t (ctime m) (mtime m) (major_device m) (minor_device m).
Definition with_mtime (m : Metadata) (t : Z) : Metadata :=
  mkMetadata (access m) (size m) (atime m) (ctime m) t (major_device m) (minor_device m).

(** What create_child of the file systems starts from. *)
Definition fresh_metadata (mode u g now : Z) : Metadata :=
  mkMetadata (InodeMetadata.mkMetadata mode u g) 0 now now now 0 0.

End Metadata.

Module Inode.
Import Errno Slice StringView.

Record Node := mkNode {
  n_metadata : Metadata.Metadata;
  n_children : gmap string InodeIdentifier;
  n_content : list Z;
}.

Definition set_children (f : gmap string InodeIdentifier -> gmap string InodeIdentifier) (n : Node) : Node :=
  mkNode (n_metadata n) (f (n_children n)) (n_content n).
Definition set_metadata (f : Metadata.Metadata -> Metadata.Metadata) (n : Node) : Node :=
  mkNode (f (n_metadata n)) (n_children n) (n_content n).
Definition set_content (l : list Z) (n : Node) : Node :=
  mkNode (Metadata.with_size (n_metadata n) (Z.of_nat (length l))) (n_children n) l.

Definition node_directory (n : Node) : bool := Metadata.directory (n_metadata n).

(** The names every directory has for itself and its parent. *)
Definition dots (name : string) : bool := (name =? ".")%string || (name =? "..")%string.

(** The virtual functions of Inode.h and FileSystem.h that VFS calls.  The first
    argument of [create_child] after the file systems is the clock.  [room] says
    that the file system has an inode index that was never used. *)
Class Inodes (F : Type) := {
  view : F -> InodeIdentifier -> option Node;
  room : F -> Z -> bool;
  metadata : F -> InodeIdentifier -> res Metadata.Metadata;
  lookup : F -> InodeIdentifier -> string -> res (option InodeIdentifier);
  read_bytes : F -> InodeIdentifier -> Z -> Z -> res (errno + list Z);
  directory_entry_count : F -> InodeIdentifier -> res Z;
  traverse_as_directory : F -> InodeIdentifier -> res (errno + list (string * InodeIdentifier));
  preopen_fd : F -> InodeIdentifier -> option Z;
  create_child : F -> Z -> InodeIdentifier -> string -> Z -> Z -> Z -> Z -> res (F * (errno + InodeIdentifier));
  add_child : F -> InodeIdentifier -> InodeIdentifier -> string -> res (F * option errno);
  remove_child : F -> InodeIdentifier -> string -> res (F * option errno);
  chmod : F -> InodeIdentifier -> Z -> res (F * option errno);
  chown : F -> InodeIdentifier -> Z -> Z -> res (F * option errno);
  truncate : F -> InodeIdentifier -> Z -> res (F * option errno);
  write_bytes : F -> InodeIdentifier -> Z -> list Z -> res (F * (errno + Z));
  set_atime : F -> InodeIdentifier -> Z -> res (F * option errno);
  set_mtime : F -> InodeIdentifier -> Z -> res (F * option errno);
  is_readonly : F -> Z -> bool;
  root_inode : F -> Z -> option InodeIdentifier;
}.

(** Inode::read_entire.  Each turn but the last reads 4096 bytes, so the size of
    the inode bounds the turns. *)
Section ReadEntire.
Context {F : Type} `{Inodes F} (can_allocate : Z -> bool).

Fixpoint read_loop (turns : nat) (fs : F) (i : InodeIdentifier) (offset : Z) (builder : KBufferBuilder.KBufferBuilder)
    : res (errno + list Z) :=
  match turns with
  | O => Fault OutOfFuel
  | S turns =>
      let* r := read_bytes fs i offset 4096 in
      match r with
      | inl e => Ok (inl e)
      | inr bytes =>
          let nread := Z.of_nat (length bytes) in
          VERIFY nread <=? 4096 ;;
          let builder := if nread <=? 0 then builder else KBufferBuilder.append builder bytes in
          if (nread <=? 0) || (nread <? 4096) then
            Ok (match KBufferBuilder.build builder with None => inl ENOMEM | Some l => inr l end)
          else read_loop turns fs i (offset + nread) builder
      end
  end.

Definition read_entire (fs : F) (i : InodeIdentifier) : res (errno + list Z) :=
  let* md := metadata fs i in
  read_loop (S (S (Z.to_nat (Metadata.size md / 4096)))) fs i 0 (KBufferBuilder.create can_allocate).
End ReadEntire.

(** What the operations do to the map of nodes. *)
Section Effects.
Context {F : Type} `{Inodes F}.

Definition same (fs fs' : F) : Prop := forall j, view fs' j = view fs j.

Definition changed (i : InodeIdentifier) (f : Node -> Node) (fs fs' : F) : Prop :=
  forall j, view fs' j = if decide (j = i) then f <$> view fs j else view fs j.

Definition changed_or_same (r : option errno) (i : InodeIdentifier) (f : Node -> Node) (fs fs' : F) : Prop :=
  match r with None => changed i f fs fs' | Some _ => same fs fs' end.

Definition created (d i : InodeIdentifier) (name : string) (n : Node) (fs fs' : F) : Prop :=
  forall j, view fs' j =
    if decide (j = i) then Some n
    else if decide (j = d) then set_children <[name := i]> <$> view fs j else view fs j.
End Effects.

Class InodeLaws (F : Type) `{Inodes F} := {
  wf : F -> Prop;
  (* what the map of nodes is like *)
  children_wf fs d n name c : wf fs -> view fs d = Some n -> n_children n !! name = Some c ->
    fsid c = fsid d /\ is_Some (view fs c);
  files_wf fs i n : wf fs -> view fs i = Some n -> node_directory n = false -> n_children n = ∅;
  sizes_wf fs i n : wf fs -> view fs i = Some n -> Metadata.size (n_metadata n) = Z.of_nat (length (n_content n));
  root_wf fs f r : wf fs -> root_inode fs f = Some r ->
    fsid r = f /\ exists n, view fs r = Some n /\ node_directory n = true;
  (* reading *)
  metadata_view fs i m : metadata fs i = Ok m <-> exists n, view fs i = Some n /\ n_metadata n = m;
  lookup_view fs d n name : wf fs -> view fs d = Some n -> node_directory n = true -> dots name = false ->
    lookup fs d name = Ok (n_children n !! name);
  lookup_directory fs d name r : lookup fs d name = Ok r -> exists n, view fs d = Some n /\ node_directory n = true;
  read_bytes_view fs i n offset size : wf fs -> view fs i = Some n -> node_directory n = false ->
    0 <= offset -> 0 <= size < 2 ^ 31 -> read_bytes fs i offset size = Ok (inr (peek (n_content n) offset size));
  entry_count_view fs d n : wf fs -> view fs d = Some n -> node_directory n = true ->
    directory_entry_count fs d = Ok (2 + Z.of_nat (base.size (n_children n)));
  traverse_view fs d n : wf fs -> view fs d = Some n -> node_directory n = true ->
    exists parent l, traverse_as_directory fs d = Ok (inr ((".", d) :: ("..", parent) :: l)%string) /\
      l ≡ₚ map_to_list (n_children n);
  (* writing: what changes *)
  create_child_view fs now d name mode dev u g fs' r : wf fs -> room fs (fsid d) = true -> is_Some (view fs d) ->
    create_child fs now d name mode dev u g = Ok (fs', r) ->
    match r with
    | inl _ => same fs fs'
    | inr i => view fs i = None /\ fsid i = fsid d /\ (exists n, view fs d = Some n /\ node_directory n = true) /\
        created d i name (mkNode (Metadata.fresh_metadata mode u g now) ∅ []) fs fs'
    end;
  add_child_view fs d c name fs' r : add_child fs d c name = Ok (fs', r) ->
    (exists n, view fs d = Some n /\ node_directory n = true) /\
    changed_or_same r d (set_children <[name := c]>) fs fs';
  remove_child_view fs d name fs' r : remove_child fs d name = Ok (fs', r) ->
    (exists n, view fs d = Some n /\ node_directory n = true /\
      (dots name = false -> r = None <-> is_Some (n_children n !! name))) /\
    changed_or_same r d (set_children (if dots name then id else delete name)) fs fs';
  chmod_view fs i m fs' r : chmod fs i m = Ok (fs', r) ->
    changed_or_same r i (set_metadata (fun md => Metadata.with_mode md m)) fs fs';
  chown_view fs i u g fs' r : chown fs i u g = Ok (fs', r) ->
    changed_or_same r i (set_metadata (fun md => Metadata.with_owner md u g)) fs fs';
  set_atime_view fs i t fs' r : set_atime fs i t = Ok (fs', r) ->
    changed_or_same r i (set_metadata (fun md => Metadata.with_atime md t)) fs fs';
  set_mtime_view fs i t fs' r : set_mtime fs i t = Ok (fs', r) ->
    changed_or_same r i (set_metadata (fun md => Metadata.with_mtime md t)) fs fs';
  truncate_view fs i fs' r : truncate fs i 0 = Ok (fs', r) -> changed_or_same r i (set_content []) fs fs';
  write_frame fs i offset bytes fs' r : write_bytes fs i offset bytes = Ok (fs', r) ->
    forall j, j <> i -> view fs' j = view fs j;
  write_keeps fs i n offset bytes fs' r : write_bytes fs i offset bytes = Ok (fs', r) -> view fs i = Some n ->
    exists n', view fs' i = Some n' /\ n_children n' = n_children n /\
      Metadata.uid (n_metadata n') = Metadata.uid (n_metadata n) /\ Metadata.gid (n_metadata n') = Metadata.gid (n_metadata n);
  (* writing: that the operations answer, and keep the map in order *)
  create_child_ok fs now d n name mode dev u g : wf fs -> view fs d = Some n -> node_directory n = true ->
    room fs (fsid d) = true -> exists fs' r, create_child fs now d name mode dev u g = Ok (fs', r) /\ wf fs';
  add_child_ok fs d n c name : wf fs -> view fs d = Some n -> node_directory n = true ->
    is_Some (view fs c) -> fsid c = fsid d -> exists fs' r, add_child fs d c name = Ok (fs', r) /\ wf fs';
  remove_child_ok fs d n name : wf fs -> view fs d = Some n -> node_directory n = true ->
    exists fs' r, remove_child fs d name = Ok (fs', r) /\ wf fs';
  chmod_ok fs i n m : wf fs -> view fs i = Some n ->
    Metadata.is_directory m = node_directory n -> exists fs' r, chmod fs i m = Ok (fs', r) /\ wf fs';
  chown_ok fs i n u g : wf fs -> view fs i = Some n -> exists fs' r, chown fs i u g = Ok (fs', r) /\ wf fs';
  set_atime_ok fs i n t : wf fs -> view fs i = Some n -> exists fs' r, set_atime fs i t = Ok (fs', r) /\ wf fs';
  set_mtime_ok fs i n t : wf fs -> view fs i = Some n -> exists fs' r, set_mtime fs i t = Ok (fs', r) /\ wf fs';
  truncate_ok fs i n : wf fs -> view fs i = Some n -> node_directory n = false ->
    exists fs' r, truncate fs i 0 = Ok (fs', r) /\ wf fs';
  write_ok fs i n bytes : wf fs -> view fs i = Some n -> node_directory n = false -> n_content n = [] ->
    0 < Z.of_nat (length bytes) < 2 ^ 30 ->
    exists fs' r, write_bytes fs i 0 bytes = Ok (fs', r) /\ wf fs' /\
      exists n', view fs' i = Some n' /\ node_directory n' = false /\ n_children n' = n_children n /\
        forall k, r = inr k -> n_content n' = bytes;
}.

End Inode.
