(* ===== verification/TmpFS.v ===== *)
(** * The in-memory file system

    Kernel/FileSystem/TmpFS.cpp with Inode::prepare_to_write_data.  An inode is a
    record with its metadata, its content in a kernel buffer and its directory
    entries; a TmpFS is its inodes by index with the next index; [World] holds the
    TmpFSes by number.  NAME_MAX comes from LibC/limits.h.  Watchers, the dirty flag
    and the lifetime of inodes that nothing names are left out: an inode that was
    unlinked stays in the map. *)
From S2P Require Import Prelude Memory KBuffer Pipe Credentials Mmap Paths FileSystem.

Module TmpFS.
Import Errno Slice Inode.

Record TmpFSInode := mkInode {
  m_metadata : Metadata.Metadata;
  m_parent : InodeIdentifier;
  m_content : option KBuffer.KBuffer;
  m_children : gmap string InodeIdentifier;
}.

Definition with_metadata (i : TmpFSInode) (md : Metadata.Metadata) : TmpFSInode :=
  mkInode md (m_parent i) (m_content i) (m_children i).
Definition with_content (i : TmpFSInode) (c : option KBuffer.KBuffer) : TmpFSInode :=
  mkInode (m_metadata i) (m_parent i) c (m_children i).
Definition with_children (i : TmpFSInode) (c : gmap string InodeIdentifier) : TmpFSInode :=
  mkInode (m_metadata i) (m_parent i) (m_content i) c.

Record TmpFS := mkTmpFS {
  m_root_inode : option Z;
  m_inodes : gmap Z TmpFSInode;
  m_next_inode_index : Z;
}.

Definition with_inodes (t : TmpFS) (m : gmap Z TmpFSInode) : TmpFS :=
  mkTmpFS (m_root_inode t) m (m_next_inode_index t).

Abbreviation World := (gmap Z TmpFS).

Definition is_directory (i : TmpFSInode) : bool := Metadata.directory (m_metadata i).

(** The object behind a reference, which keeps it alive. *)
Definition find_inode (w : World) (i : InodeIdentifier) : option TmpFSInode :=
  match w !! fsid i with None => None | Some t => m_inodes t !! index i end.

Definition get (w : World) (i : InodeIdentifier) : res TmpFSInode := of_opt UndefinedBehaviour (find_inode w i).

Definition put (w : World) (i : InodeIdentifier) (ino : TmpFSInode) : World :=
  match w !! fsid i with
  | None => w
  | Some t => <[fsid i := with_inodes t (<[index i := ino]> (m_inodes t))]> w
  end.

(** ** Content *)
Section Content.
Context (can_allocate : Z -> bool).

(** A read with the bytes it delivers; [writable] says whether the buffer of the
    caller can be written. *)
Definition inode_read_bytes (i : TmpFSInode) (offset size : Z) (writable : bool) : res (errno + list Z) :=
  VERIFY negb (is_directory i) ;;
  VERIFY 0 <=? size ;;
  VERIFY 0 <=? offset ;;
  match m_content i with
  | None => Ok (inr [])
  | Some content =>
      let file_size := Metadata.size (m_metadata i) in
      if file_size <=? offset then Ok (inr [])
      else
        let size := if file_size - offset <? size then wrap I32 (file_size - offset) else size in
        let* bytes := KBuffer.load content offset size in
        Ok (if writable then inr bytes else inl EFAULT)
  end.

(** Inode::prepare_to_write_data on a file system that is not read-only. *)
Definition prepare_to_write_data (i : TmpFSInode) : TmpFSInode :=
  let md := m_metadata i in
  if Metadata.is_setuid (Metadata.mode md) || Metadata.is_setgid (Metadata.mode md)
  then with_metadata i (Metadata.with_mode md (Z.land (Metadata.mode md) (Z.lnot 0xC00)))
  else i.

(** Makes the content buffer hold [new_size] bytes, of which [old_size] are used. *)
Definition grow (i : TmpFSInode) (old_size new_size : Z) : res (TmpFSInode * bool) :=
  let replace :=
    let* doubled := exact I64 (new_size * 2) in
    let* tmp := KBuffer.try_create_with_size can_allocate (wrap size_t doubled) in
    match tmp with
    | None => Ok (i, false)
    | Some tmp =>
        let* tmp := KBuffer.set_size tmp (wrap size_t new_size) in
        match m_content i with
        | None => Ok (with_content i (Some tmp), true)
        | Some content =>
            let* old := KBuffer.load content 0 (wrap size_t old_size) in
            let* tmp := KBuffer.store tmp 0 old in
            Ok (with_content i (Some tmp), true)
        end
    end in
  match m_content i with
  | Some content =>
      if wrap size_t new_size <=? KBuffer.capacity content then
        let* content := KBuffer.set_size content (wrap size_t new_size) in
        Ok (with_content i (Some content), true)
      else replace
  | None => replace
  end.

(** [data] is what reading the caller's buffer gives: a byte, or nothing where it is
    not accessible. *)
Definition inode_write_bytes (i : TmpFSInode) (offset : Z) (data : list (option Z)) : res (TmpFSInode * (errno + Z)) :=
  let size := Z.of_nat (length data) in
  VERIFY negb (is_directory i) ;;
  VERIFY 0 <=? offset ;;
  let i := prepare_to_write_data i in
  let old_size := Metadata.size (m_metadata i) in
  let* last := exact I64 (offset + size) in
  let new_size := if old_size <? last then last else old_size in
  let* (i, grown) :=
    if old_size <? new_size then
      let* (i, ok) := grow i old_size new_size in
      Ok (if ok then with_metadata i (Metadata.with_size (m_metadata i) new_size) else i, ok)
    else Ok (i, true) in
  if negb grown then Ok (i, inl ENOMEM)
  else
    match m_content i with
    | None => Fault VerifyFailed
    | Some content =>
        let '(bytes, ok) := copy_from_user data in
        DEFINED offset + size <=? KBuffer.capacity content ;;
        let* content := KBuffer.store content offset bytes in
        Ok (with_content i (Some content), if ok then inr size else inl EFAULT)
    end.

Definition inode_truncate (i : TmpFSInode) (size : Z) : res (TmpFSInode * option errno) :=
  VERIFY negb (is_directory i) ;;
  let finish i := Ok (with_metadata i (Metadata.with_size (m_metadata i) (wrap I64 size)), None) in
  if size =? 0 then finish (with_content i None)
  else
    match m_content i with
    | None =>
        let* b := KBuffer.try_create_with_size can_allocate (wrap size_t size) in
        match b with
        | None => Ok (i, Some ENOMEM)
        | Some b => finish (with_content i (Some b))
        end
    | Some content =>
        let prev_size := wrap size_t (Metadata.size (m_metadata i)) in
        if wrap size_t size <? KBuffer.capacity content then
          let* content := KBuffer.set_size content (wrap size_t size) in
          let* content :=
            if prev_size <? wrap size_t size
            then KBuffer.store content prev_size (replicate (Z.to_nat (wrap size_t (size - prev_size))) 0)
            else Ok content in
          finish (with_content i (Some content))
        else
          let* tmp := KBuffer.try_create_with_size can_allocate (wrap size_t size) in
          match tmp with
          | None => Ok (i, Some ENOMEM)
          | Some tmp =>
              let* old := KBuffer.load content 0 prev_size in
              let* tmp := KBuffer.store tmp 0 old in
              finish (with_content i (Some tmp))
          end
    end.
End Content.

(** ** Inodes and directories *)

Definition next_inode_index (t : TmpFS) : Z * TmpFS :=
  (m_next_inode_index t, mkTmpFS (m_root_inode t) (m_inodes t) (wrap U32 (m_next_inode_index t + 1))).

(** TmpFSInode::create: a number, and the inode in the table. *)
Definition create (w : World) (f : Z) (md : Metadata.Metadata) (parent : InodeIdentifier) : res (World * InodeIdentifier) :=
  match w !! f with
  | None => Fault UndefinedBehaviour
  | Some t =>
      let '(n, t) := next_inode_index t in
      Ok (<[f := with_inodes t (<[n := mkInode md parent None ∅]> (m_inodes t))]> w, (f, n))
  end.

Definition unregister_inode (w : World) (i : InodeIdentifier) : World :=
  match w !! fsid i with
  | None => w
  | Some t => <[fsid i := with_inodes t (delete (index i) (m_inodes t))]> w
  end.

(** TmpFS::create and initialize: a file system with its root directory. *)
Definition create_root (w : World) (f now : Z) : res World :=
  let w := <[f := mkTmpFS None ∅ 1]> w in
  let* (w, root) := create w f (Metadata.fresh_metadata (Z.lor (Z.lor Metadata.S_IFDIR Metadata.S_ISVTX) 0x1FF) 0 0 now) (f, 1) in
  match w !! f with
  | None => Fault UndefinedBehaviour
  | Some t => Ok (<[f := mkTmpFS (Some (index root)) (m_inodes t) (m_next_inode_index t)]> w)
  end.

Definition tmpfs_lookup (w : World) (d : InodeIdentifier) (name : string) : res (option InodeIdentifier) :=
  let* i := get w d in
  VERIFY is_directory i ;;
  let registered id := match find_inode w id with Some _ => Some id | None => None end in
  if (name =? ".")%string then Ok (Some d)
  else if (name =? "..")%string then Ok (registered (m_parent i))
  else Ok (match m_children i !! name with None => None | Some c => registered c end).

Definition tmpfs_directory_entry_count (w : World) (d : InodeIdentifier) : res Z :=
  let* i := get w d in
  VERIFY is_directory i ;; Ok (2 + Z.of_nat (base.size (m_children i))).

Definition tmpfs_traverse_as_directory (w : World) (d : InodeIdentifier) : res (errno + list (string * InodeIdentifier)) :=
  let* i := get w d in
  Ok (if negb (is_directory i) then inl ENOTDIR
      else inr ([("."%string, d); (".."%string, m_parent i)] ++ map_to_list (m_children i))).

Section Directories.
Context (NAME_MAX : Z).

Definition tmpfs_add_child (w : World) (d c : InodeIdentifier) (name : string) : res (World * option errno) :=
  let* i := get w d in
  VERIFY is_directory i ;;
  VERIFY fsid c =? fsid d ;;
  if NAME_MAX <? Z.of_nat (String.length name) then Ok (w, Some ENAMETOOLONG)
  else Ok (put w d (with_children i (<[name := c]> (m_children i))), None).

Definition tmpfs_create_child (w : World) (now : Z) (d : InodeIdentifier) (name : string) (mode dev u g : Z)
    : res (World * (errno + InodeIdentifier)) :=
  if negb (dev =? 0) then Ok (w, inl ENOTSUP)
  else
    let* (w, child) := create w (fsid d) (Metadata.fresh_metadata mode u g now) d in
    let* (w, result) := tmpfs_add_child w d child name in
    match result with
    | Some e => Ok (unregister_inode w child, inl e)
    | None => Ok (w, inr child)
    end.
End Directories.

Definition tmpfs_remove_child (w : World) (d : InodeIdentifier) (name : string) : res (World * option errno) :=
  let* i := get w d in
  VERIFY is_directory i ;;
  if dots name then Ok (w, None)
  else
    match m_children i !! name with
    | None => Ok (w, Some ENOENT)
    | Some _ => Ok (put w d (with_children i (delete name (m_children i))), None)
    end.

Definition set_inode_metadata (w : World) (i : InodeIdentifier) (f : Metadata.Metadata -> Metadata.Metadata)
    : res (World * option errno) :=
  let* ino := get w i in Ok (put w i (with_metadata ino (f (m_metadata ino))), None).

Definition tmpfs_chmod (w : World) (i : InodeIdentifier) (mode : Z) : res (World * option errno) :=
  set_inode_metadata w i (fun md => Metadata.with_mode md mode).
Definition tmpfs_chown (w : World) (i : InodeIdentifier) (u g : Z) : res (World * option errno) :=
  set_inode_metadata w i (fun md => Metadata.with_owner md u g).
Definition tmpfs_set_atime (w : World) (i : InodeIdentifier) (t : Z) : res (World * option errno) :=
  set_inode_metadata w i (fun md => Metadata.with_atime md t).
Definition tmpfs_set_mtime (w : World) (i : InodeIdentifier) (t : Z) : res (World * option errno) :=
  set_inode_metadata w i (fun md => Metadata.with_mtime md t).

Definition tmpfs_root_inode (w : World) (f : Z) : option InodeIdentifier :=
  match w !! f with
  | None => None
  | Some t => match m_root_inode t with None => None | Some n => Some (f, n) end
  end.

(** The node an inode stands for. *)
Definition node_of (i : TmpFSInode) : Node :=
  mkNode (m_metadata i) (m_children i)
    (match m_content i with
     | None => []
     | Some b => take (Z.to_nat (Metadata.size (m_metadata i))) (KBuffer.m_region b)
     end).

Definition tmpfs_view (w : World) (i : InodeIdentifier) : option Node := node_of <$> find_inode w i.

Definition tmpfs_room (w : World) (f : Z) : bool :=
  match w !! f with None => false | Some t => m_next_inode_index t <? 2 ^ 32 - 1 end.

Section Instance_.
Context (can_allocate : Z -> bool) (NAME_MAX : Z).

#[export] Instance tmpfs_inodes : Inodes World := {|
  view := tmpfs_view;
  room := tmpfs_room;
  metadata w i := let* ino := get w i in Ok (m_metadata ino);
  lookup := tmpfs_lookup;
  read_bytes w i offset size := let* ino := get w i in inode_read_bytes ino offset size true;
  directory_entry_count := tmpfs_directory_entry_count;
  traverse_as_directory := tmpfs_traverse_as_directory;
  preopen_fd _ _ := None;
  create_child := tmpfs_create_child NAME_MAX;
  add_child := tmpfs_add_child NAME_MAX;
  remove_child := tmpfs_remove_child;
  chmod := tmpfs_chmod;
  chown := tmpfs_chown;
  truncate w i size := let* ino := get w i in let* (ino, r) := inode_truncate can_allocate ino size in Ok (put w i ino, r);
  write_bytes w i offset bytes :=
    let* ino := get w i in let* (ino, r) := inode_write_bytes can_allocate ino offset (Some <$> bytes) in Ok (put w i ino, r);
  set_atime := tmpfs_set_atime;
  set_mtime := tmpfs_set_mtime;
  is_readonly _ _ := false;
  root_inode := tmpfs_root_inode;
|}.
End Instance_.

End TmpFS.

(** ** Facts about content *)
Module TmpFSContent.
Import Errno Slice Inode KBufferFacts TmpFS.

Ltac small := rewrite wrap_id by (reflexivity || (apply in_ty_spec; cbn; lia)).

Definition file_size (i : TmpFSInode) : Z := Metadata.size (m_metadata i).

Definition content (i : TmpFSInode) : list Z := n_content (node_of i).
#[global] Arguments content : simpl never.
#[global] Arguments file_size : simpl never.

Record inode_ok (i : TmpFSInode) : Prop := {
  io_size : 0 <= file_size i;
  io_none : m_content i = None -> file_size i = 0;
  io_some b : m_content i = Some b -> KBuffer.m_size b = file_size i /\ file_size i <= KBuffer.capacity b < 2 ^ 32;
  io_directory : is_directory i = true -> m_content i = None;
  io_file : is_directory i = false -> m_children i = ∅;
}.

(** The largest size whose double the buffer allocation can round up. *)
Definition MAX_SIZE : Z := 0x7ffff800.

Lemma content_length i : inode_ok i -> Z.of_nat (length (content i)) = file_size i.
Proof.
  intros Hi. unfold content, node_of. cbn. pose proof (io_size i Hi). destruct (m_content i) as [b|] eqn:E.
  - destruct (io_some i Hi b E) as [_ H']. unfold KBuffer.capacity in H'. rewrite length_take. unfold file_size in *. lia.
  - by rewrite (io_none i Hi E).
Qed.

Lemma inode_read_ok i offset size writable : inode_ok i -> is_directory i = false -> 0 <= offset -> 0 <= size < 2 ^ 31 ->
  inode_read_bytes i offset size writable =
    Ok (if writable || (file_size i <=? offset) then inr (peek (content i) offset size) else inl EFAULT).
Proof.
  intros Hi Hd Ho Hs. unfold inode_read_bytes. rewrite Hd, (proj2 (Z.leb_le 0 size)), (proj2 (Z.leb_le 0 offset)) by lia. cbn [negb verify res_bind].
  pose proof (content_length i Hi) as Hl. fold (file_size i).
  assert (file_size i <= offset -> peek (content i) offset size = []) as Hnil.
  { intros. unfold peek. rewrite drop_ge by lia. apply take_nil. }
  destruct (m_content i) as [b|] eqn:E.
  2:{ pose proof (io_none i Hi E). rewrite Hnil by lia. rewrite (proj2 (Z.leb_le (file_size i) offset)) by lia. by rewrite orb_true_r. }
  destruct (io_some i Hi b E) as [_ Hb]. destruct (Z.leb_spec (file_size i) offset) as [H|H]; [by rewrite Hnil, orb_true_r by lia|].
  assert (forall n, 0 <= n -> offset + n <= file_size i -> peek (KBuffer.m_region b) offset n = peek (content i) offset n) as Hp.
  { intros n Hn Hn'. unfold peek, content, node_of. cbn. rewrite E. fold (file_size i). rewrite skipn_firstn_comm, take_take. f_equal. lia. }
  rewrite orb_false_r. destruct (Z.ltb_spec (file_size i - offset) size) as [Hlt|Hge].
  - assert (wrap I32 (file_size i - offset) = file_size i - offset) as -> by (apply wrap_id; [done|apply in_ty_spec; cbn; lia]).
    rewrite kbuffer_load_ok by lia. cbn. rewrite Hp by lia. f_equal. destruct writable; [|done]. f_equal.
    unfold peek. rewrite (take_ge _ (Z.to_nat (file_size i - offset))), (take_ge _ (Z.to_nat size)); [done|rewrite length_drop; lia..].
  - rewrite kbuffer_load_ok by lia. cbn. rewrite Hp by lia. by destruct writable.
Qed.

(** ** Writing *)

(** Whatever a write does, the entries and the owners stay. *)
Definition same_owner (i i' : TmpFSInode) : Prop :=
  m_children i' = m_children i /\ Metadata.uid (m_metadata i') = Metadata.uid (m_metadata i) /\
  Metadata.gid (m_metadata i') = Metadata.gid (m_metadata i).

Lemma grow_same_owner can_allocate i old new i' ok : grow can_allocate i old new = Ok (i', ok) -> same_owner i i'.
Proof.
  unfold grow. set (replace := res_bind (exact I64 (new * 2)) _).
  assert (replace = Ok (i', ok) -> same_owner i i') as Hr.
  { unfold replace. intros (d & _ & (tmp & _ & H)%res_bind_Ok)%res_bind_Ok. destruct tmp as [tmp|]; [|by injection H as <- _].
    apply res_bind_Ok in H as (t & _ & H). destruct (m_content i); [|by injection H as <- _].
    apply res_bind_Ok in H as (l & _ & (t' & _ & H)%res_bind_Ok). by injection H as <- _. }
  destruct (m_content i); [|done]. case_if; [|done]. intros (c & _ & [= <- _])%res_bind_Ok. done.
Qed.

Lemma write_same_owner can_allocate i offset data i' r :
  inode_write_bytes can_allocate i offset data = Ok (i', r) -> same_owner i i'.
Proof.
  unfold inode_write_bytes. intros (u & _ & (u' & _ & (l & _ & ([j ok] & Hg & H)%res_bind_Ok)%res_bind_Ok)%res_bind_Ok)%res_bind_Ok.
  assert (same_owner i j) as Hj.
  { assert (same_owner i (prepare_to_write_data i)) as Hp by (unfold prepare_to_write_data; by case_if).
    match type of Hg with (if ?b then _ else _) = _ => destruct b end; [|injection Hg as <- _; done].
    apply res_bind_Ok in Hg as ([k b] & Hk & [= <- _]). apply grow_same_owner in Hk.
    destruct Hp as (P1 & P2 & P3), Hk as (K1 & K2 & K3).
    destruct b; exact (conj (eq_trans K1 P1) (conj (eq_trans K2 P2) (eq_trans K3 P3))). }
  destruct (negb ok); [by injection H as <- _|]. destruct (m_content j); [|done].
  apply res_bind_Ok in H as (w & _ & (c & _ & [= <- _])%res_bind_Ok). done.
Qed.

Lemma take_poke (R : list Z) (old : nat) off bytes :
  0 <= off <= Z.of_nat old ->
  take (Nat.max old (Z.to_nat off + length bytes)) (poke R off bytes) = poke (take old R) off bytes \/ (length R < old)%nat.
Proof.
  intros Ho. destruct (decide (length R < old)%nat) as [|Hl]; [by right|left]. unfold poke.
  rewrite !take_app. rewrite !take_take, length_take.
  replace (Nat.min (Nat.max old (Z.to_nat off + length bytes)) (Z.to_nat off)) with (Z.to_nat off) by lia.
  replace (Nat.min (Z.to_nat off) old) with (Z.to_nat off) by lia. f_equal.
  rewrite (take_ge bytes) by lia. f_equal.
  rewrite skipn_firstn_comm. f_equal. lia.
Qed.

Lemma prepare_ok i : inode_ok i ->
  inode_ok (prepare_to_write_data i) /\ is_directory (prepare_to_write_data i) = is_directory i /\
  m_children (prepare_to_write_data i) = m_children i /\ content (prepare_to_write_data i) = content i /\
  file_size (prepare_to_write_data i) = file_size i /\ m_content (prepare_to_write_data i) = m_content i.
Proof.
  intros Hi. unfold prepare_to_write_data. case_if; [|by split_and!].
  assert (is_directory (with_metadata i (Metadata.with_mode (m_metadata i)
    (Z.land (Metadata.mode (m_metadata i)) (Z.lnot 0xC00)))) = is_directory i) as Hd.
  { unfold is_directory, Metadata.directory, Metadata.is_directory, Metadata.is_type. cbn. f_equal.
    rewrite <- Z.land_assoc. f_equal. }
  split_and!; try done. destruct Hi as [H1 H2 H3 H4 H5]. split; try done; rewrite Hd; done.
Qed.

Section Writing.
Context (can_allocate : Z -> bool).

(** Growing keeps the bytes that are used. *)
Lemma grow_ok i old new : inode_ok i -> old = file_size i -> old < new <= MAX_SIZE ->
  exists i' ok, grow can_allocate i old new = Ok (i', ok) /\
    m_metadata i' = m_metadata i /\ m_children i' = m_children i /\ m_parent i' = m_parent i /\
    if ok then exists b, m_content i' = Some b /\ KBuffer.m_size b = new /\ new <= KBuffer.capacity b < 2 ^ 32 /\
      take (Z.to_nat old) (KBuffer.m_region b) = content i
    else i' = i.
Proof using Type.
  intros Hi -> Hn. unfold MAX_SIZE in Hn. pose proof (io_size i Hi) as H0. unfold grow.
  set (replace := res_bind (exact I64 (new * 2)) _).
  assert (exists i' ok, replace = Ok (i', ok) /\
    m_metadata i' = m_metadata i /\ m_children i' = m_children i /\ m_parent i' = m_parent i /\
    if ok then exists b, m_content i' = Some b /\ KBuffer.m_size b = new /\ new <= KBuffer.capacity b < 2 ^ 32 /\
      take (Z.to_nat (file_size i)) (KBuffer.m_region b) = content i
    else i' = i) as Hr.
  { unfold replace, exact. rewrite (proj2 (in_ty_spec I64 (new * 2))) by (cbn; lia). cbn [res_bind].
    assert (wrap size_t (new * 2) = new * 2) as -> by (apply wrap_id; [done|apply in_ty_spec; cbn; lia]).
    destruct (kbuffer_create_ok can_allocate (new * 2) ltac:(lia)) as (region & Hreg & ->). cbn [res_bind].
    destruct (can_allocate region); [|by exists i, false].
    assert (wrap size_t new = new) as -> by (apply wrap_id; [done|apply in_ty_spec; cbn; lia]).
    assert (wrap size_t (file_size i) = file_size i) as -> by (apply wrap_id; [done|apply in_ty_spec; cbn; lia]).
    rewrite kbuffer_set_size_ok by (unfold KBuffer.capacity; cbn; rewrite length_replicate; lia). cbn [res_bind].
    destruct (m_content i) as [b|] eqn:E.
    - destruct (io_some i Hi b E) as [_ Hb].
      rewrite kbuffer_load_ok by lia. cbn [res_bind]. pose proof (peek_length (KBuffer.m_region b) 0 (file_size i) ltac:(lia) ltac:(lia) ltac:(unfold KBuffer.capacity in Hb; lia)) as Hpl.
      assert (0 + Z.of_nat (length (peek (KBuffer.m_region b) 0 (file_size i))) <= Z.of_nat (length (replicate (Z.to_nat region) 0))) as Hfit
        by (rewrite length_replicate; lia).
      rewrite kbuffer_store_ok by (unfold KBuffer.capacity; cbn [KBuffer.m_region]; lia). cbn [res_bind].
      eexists _, true. split; [done|]. split_and!; try done. eexists. split; [done|]. cbn.
      unfold KBuffer.capacity. cbn. rewrite poke_length by lia. rewrite length_replicate. split_and!; try lia.
      unfold poke. change (take (Z.to_nat 0) ?l) with (@nil Z). rewrite app_nil_l, take_app_length' by lia.
      unfold peek, content, node_of. cbn. by rewrite E.
    - eexists _, true. split; [done|]. split_and!; try done. eexists. split; [done|]. cbn. unfold KBuffer.capacity. cbn.
      rewrite length_replicate. split_and!; try lia. rewrite (io_none i Hi E). unfold content, node_of. cbn. by rewrite E. }
  destruct (m_content i) as [b|] eqn:E; [|done]. destruct (io_some i Hi b E) as [Hsz Hb].
  assert (wrap size_t new = new) as -> by (apply wrap_id; [done|apply in_ty_spec; cbn; lia]).
  destruct (Z.leb_spec new (KBuffer.capacity b)) as [Hcap|Hcap]; [|done].
  rewrite kbuffer_set_size_ok by lia. eexists _, true. split; [done|]. split_and!; try done. eexists. split; [done|].
  change (KBuffer.capacity (KBuffer.mkKBuffer (KBuffer.m_region b) new)) with (KBuffer.capacity b).
  split_and!; try done; try lia. unfold content, node_of. cbn. by rewrite E.
Qed.

(** The part of a write before the bytes are copied: the buffer has room for them. *)
Lemma make_room_ok i offset len : inode_ok i -> is_directory i = false -> 0 <= offset <= file_size i -> 0 <= len ->
  Z.max (file_size i) (offset + len) <= MAX_SIZE ->
  let new_size := if file_size i <? offset + len then offset + len else file_size i in
  exists i' ok,
    (if file_size i <? new_size then
       let* (i, ok) := grow can_allocate i (file_size i) new_size in
       Ok (if ok then with_metadata i (Metadata.with_size (m_metadata i) new_size) else i, ok)
     else Ok (i, true)) = Ok (i', ok) /\
    inode_ok i' /\ is_directory i' = false /\ m_children i' = m_children i /\ (ok = false -> content i' = content i) /\
    (ok = true -> file_size i' = Z.max (file_size i) (offset + len) /\
      (0 < len \/ m_content i <> None -> exists b, m_content i' = Some b) /\
      forall b, m_content i' = Some b -> take (Z.to_nat (file_size i)) (KBuffer.m_region b) = content i).
Proof using Type.
  intros Hi Hd Ho Hlen Hmax new_size. unfold MAX_SIZE in *. pose proof (io_size i Hi) as H0.
  destruct (Z.ltb_spec (file_size i) (offset + len)) as [Hlt|Hge]; subst new_size.
  2:{ rewrite Z.ltb_irrefl. exists i, true. split_and!; try done. intros _. split; [lia|]. split.
      - destruct (m_content i) as [b|] eqn:E; [by exists b|]. intros [H|H]; [|done]. pose proof (io_none i Hi E). lia.
      - intros b E. unfold content, node_of. cbn. by rewrite E. }
  rewrite (proj2 (Z.ltb_lt _ _) Hlt).
  destruct (grow_ok i (file_size i) (offset + len) Hi eq_refl ltac:(unfold MAX_SIZE; lia)) as (i' & ok & -> & Hm & Hc & Hp & Hok).
  cbn [res_bind]. destruct ok.
  - destruct Hok as (b & Eb & Hsz & Hcap & Htake). eexists _, true. split; [done|].
    assert (is_directory (with_metadata i' (Metadata.with_size (m_metadata i') (offset + len))) = false) as Hd'.
    { unfold is_directory, Metadata.directory, Metadata.mode in *. cbn. by rewrite Hm. }
    assert (m_children i = ∅) as He by (by apply Hi).
    split_and!; try done; [|intros _; split; [change (offset + len = Z.max (file_size i) (offset + len)); lia|]].
    + split; unfold file_size; cbn; rewrite ?Hd', ?Eb; try done; try lia. { by intros b' [= <-]. } by rewrite Hc.
    + split; [by exists b|]. cbn. rewrite Eb. by intros b' [= <-].
  - subst i'. exists i, false. by split_and!.
Qed.

(** A write of accessible bytes that starts inside the file or at its end puts them
    there; otherwise it fails with an error, without memory for nothing. *)
Lemma inode_write_ok i offset data : inode_ok i -> is_directory i = false -> 0 <= offset <= file_size i ->
  Z.max (file_size i) (offset + Z.of_nat (length data)) <= MAX_SIZE -> data <> [] \/ m_content i <> None ->
  exists i' r, inode_write_bytes can_allocate i offset data = Ok (i', r) /\
    inode_ok i' /\ is_directory i' = false /\ m_children i' = m_children i /\
    match r with
    | inr n => n = Z.of_nat (length data) /\ length (accessible data) = length data /\
        content i' = poke (content i) offset (accessible data)
    | inl e => (e = ENOMEM /\ content i' = content i) \/ (e = EFAULT /\ None ∈ data)
    end.
Proof using Type.
  intros Hi Hd Ho Hmax Hne. unfold inode_write_bytes.
  rewrite Hd, (proj2 (Z.leb_le 0 offset)) by lia. cbn [negb verify res_bind].
  destruct (prepare_ok i Hi) as (Hi1 & Hd1 & Hc1 & Hcont1 & Hs1 & Hm1). rewrite <- Hd1 in Hd.
  set (j := prepare_to_write_data i) in *. fold (file_size j).
  unfold exact. rewrite (proj2 (in_ty_spec I64 _)) by (unfold MAX_SIZE in Hmax; cbn; lia). cbn [res_bind].
  destruct (make_room_ok j offset (Z.of_nat (length data)) Hi1 Hd) as (i' & ok & E & Hi' & Hd' & Hc' & Hno & Hyes);
    [lia|lia|lia|]. cbn zeta in E. rewrite E. cbn [res_bind]. destruct ok; cbn [negb].
  2:{ eexists _, _. split; [done|]. split_and!; try done; [congruence|]. left. split; [done|]. rewrite Hno by done. done. }
  destruct (Hyes eq_refl) as (Hsz & Hsome & Htake). destruct Hsome as (b & Eb).
  { destruct Hne as [H|H]; [|right; congruence]. left. destruct data; [done|]. cbn. lia. }
  rewrite Eb. unfold copy_from_user. destruct (io_some i' Hi' b Eb) as [Hbs Hbc].
  rewrite (proj2 (Z.leb_le (offset + _) _)) by lia. cbn [defined res_bind].
  pose proof (PipeFacts.accessible_length data) as Hacc.
  rewrite kbuffer_store_ok by lia. cbn [res_bind]. eexists _, _. split; [done|].
  assert (length (poke (KBuffer.m_region b) offset (accessible data)) = length (KBuffer.m_region b)) as Hpl
    by (apply poke_length; unfold KBuffer.capacity in Hbc; lia).
  split; [|split; [done|split; [cbn; congruence|]]].
  { destruct Hi' as [A1 A2 A3 A4 A5]. split; try done; cbn.
    - intros b' [= <-]. unfold KBuffer.capacity in *. cbn. rewrite Hpl. done.
    - intros H. change (is_directory i' = true) in H. congruence. }
  case_bool_decide as Hall; [|right; split; [done|by apply PipeFacts.accessible_none]].
  split; [done|]. split; [done|]. unfold content at 1, node_of. cbn. fold (file_size i'). rewrite Hsz.
  destruct (take_poke (KBuffer.m_region b) (Z.to_nat (file_size j)) offset (accessible data)) as [Hp|Hp];
    [lia| |unfold KBuffer.capacity in Hbc; lia].
  rewrite (Htake b Eb), Hcont1 in Hp. rewrite <- Hp. f_equal. rewrite Hall. lia.
Qed.

(** What is left of the content of the given size, filled up with zeroes. *)
Definition resized (l : list Z) (size : Z) : list Z := take (Z.to_nat size) (l ++ replicate (Z.to_nat size) 0).

Lemma resized_shrink l size : 0 <= size <= Z.of_nat (length l) -> resized l size = take (Z.to_nat size) l.
Proof using Type. intros. unfold resized. by rewrite take_app_le by lia. Qed.

Lemma resized_grow l size : Z.of_nat (length l) <= size ->
  resized l size = l ++ replicate (Z.to_nat size - length l) 0.
Proof using Type.
  intros. unfold resized. rewrite take_app, (take_ge l) by lia. f_equal. rewrite take_replicate. f_equal. lia.
Qed.

(** An inode with another buffer of another size. *)
Definition resize_inode (i : TmpFSInode) (b : option KBuffer.KBuffer) (size : Z) : TmpFSInode :=
  with_metadata (with_content i b) (Metadata.with_size (m_metadata i) size).

Lemma resize_inode_ok i b size : inode_ok i -> is_directory i = false -> 0 <= size ->
  match b with
  | None => size = 0
  | Some b => KBuffer.m_size b = size /\ size <= KBuffer.capacity b < 2 ^ 32 /\
      take (Z.to_nat size) (KBuffer.m_region b) = resized (content i) size
  end ->
  inode_ok (resize_inode i b size) /\ is_directory (resize_inode i b size) = false /\
  content (resize_inode i b size) = resized (content i) size.
Proof using Type.
  intros Hi Hd Hs Hb. split; [|split; [done|]].
  - split; try done; cbn.
    + intros ->. done.
    + intros b' ->. by split; apply Hb.
    + intros H. change (is_directory i = true) in H. congruence.
    + intros _. by apply Hi.
  - unfold content at 1, node_of, resize_inode. cbn. destruct b as [b|]; [apply Hb|]. by subst size.
Qed.

Lemma inode_truncate_ok i size : inode_ok i -> is_directory i = false -> 0 <= size <= 0xfffff000 ->
  exists i' r, inode_truncate can_allocate i size = Ok (i', r) /\
    match r with
    | None => exists b, i' = resize_inode i b size /\ inode_ok i' /\ is_directory i' = false /\
        content i' = resized (content i) size
    | Some e => e = ENOMEM /\ i' = i
    end.
Proof using Type.
  intros Hi Hd Hs. unfold inode_truncate. rewrite Hd. cbn [negb verify res_bind].
  assert (wrap I64 size = size) as -> by (apply wrap_id; [done|apply in_ty_spec; cbn; lia]).
  assert (wrap size_t size = size) as -> by (apply wrap_id; [done|apply in_ty_spec; cbn; lia]).
  pose proof (content_length i Hi) as Hl. pose proof (io_size i Hi) as H0.
  assert (forall b : option KBuffer.KBuffer, match b with
    | None => size = 0
    | Some b => KBuffer.m_size b = size /\ size <= KBuffer.capacity b < 2 ^ 32 /\
      take (Z.to_nat size) (KBuffer.m_region b) = resized (content i) size
    end -> exists b', resize_inode i b size = resize_inode i b' size /\ inode_ok (resize_inode i b size) /\
      is_directory (resize_inode i b size) = false /\ content (resize_inode i b size) = resized (content i) size) as Hfin.
  { intros b Hb. exists b. split; [done|]. apply resize_inode_ok; [done..|lia|done]. }
  destruct (Z.eqb_spec size 0) as [Hz|Hz].
  { eexists _, None. split; [done|]. by apply (Hfin None). }
  destruct (kbuffer_create_ok can_allocate size Hs) as (region & Hreg & Hcr).
  destruct (m_content i) as [b|] eqn:E.
  - destruct (io_some i Hi b E) as [Hbs Hbc]. fold (file_size i).
    assert (wrap size_t (file_size i) = file_size i) as -> by (apply wrap_id; [done|apply in_ty_spec; cbn; lia]).
    assert (content i = take (Z.to_nat (file_size i)) (KBuffer.m_region b)) as Hcont by (unfold content, node_of; cbn; by rewrite E).
    destruct (Z.ltb_spec size (KBuffer.capacity b)) as [Hlt|Hge].
    + rewrite kbuffer_set_size_ok by lia. cbn [res_bind].
      destruct (Z.ltb_spec (file_size i) size) as [Hg|Hg].
      * rewrite wrap_id by (done || (apply in_ty_spec; cbn; lia)).
        rewrite kbuffer_store_ok by (rewrite ?length_replicate; unfold KBuffer.capacity in *; cbn; lia). cbn [res_bind].
        eexists _, None. split; [done|]. apply (Hfin (Some _)). cbn. unfold KBuffer.capacity in *. cbn [KBuffer.m_region].
        rewrite poke_length by (rewrite ?length_replicate; lia). split; [done|]. split; [lia|].
        rewrite resized_grow, Hcont by lia.
        destruct (take_poke (KBuffer.m_region b) (Z.to_nat (file_size i)) (file_size i) (replicate (Z.to_nat (size - file_size i)) 0)) as [Hp|Hp]; [lia| |lia].
        rewrite length_replicate in Hp. replace (Nat.max _ _) with (Z.to_nat size) in Hp by lia. rewrite Hp. unfold poke.
        rewrite take_take, length_replicate, Nat.min_id. f_equal. rewrite drop_ge by (rewrite length_take; lia).
        rewrite app_nil_r. f_equal. rewrite length_take. lia.
      * cbn [res_bind]. eexists _, None. split; [done|]. apply (Hfin (Some _)). cbn. change (KBuffer.capacity (KBuffer.mkKBuffer _ _)) with (KBuffer.capacity b).
        split; [done|]. split; [lia|]. rewrite resized_shrink, Hcont, take_take by lia. f_equal. lia.
    + rewrite Hcr. cbn [res_bind]. destruct (can_allocate region); [|by eexists _, (Some ENOMEM)].
      pose proof (peek_length (KBuffer.m_region b) 0 (file_size i) ltac:(lia) ltac:(lia) ltac:(unfold KBuffer.capacity in *; lia)) as Hpl.
      rewrite kbuffer_load_ok by lia. cbn [res_bind].
      rewrite kbuffer_store_ok by (unfold KBuffer.capacity in *; cbn [KBuffer.m_region]; rewrite ?length_replicate; lia). cbn [res_bind].
      eexists _, None. split; [done|]. apply (Hfin (Some _)). cbn. unfold KBuffer.capacity in *. cbn [KBuffer.m_region].
      rewrite poke_length by (rewrite ?length_replicate; lia). rewrite length_replicate. split; [done|]. split; [lia|].
      rewrite resized_grow by lia. unfold poke. change (take (Z.to_nat 0) ?l) with (@nil Z).
      change (peek (KBuffer.m_region b) 0 (file_size i)) with (take (Z.to_nat (file_size i)) (KBuffer.m_region b)) in *.
      rewrite app_nil_l, take_app, <- Hcont, (take_ge (content i)) by lia. f_equal.
      rewrite drop_replicate, take_replicate. f_equal. lia.
  - rewrite Hcr. cbn [res_bind]. destruct (can_allocate region); [|by eexists _, (Some ENOMEM)].
    eexists _, None. split; [done|]. apply (Hfin (Some _)). cbn. unfold KBuffer.capacity. cbn. rewrite length_replicate.
    pose proof (io_none i Hi E). split; [done|]. split; [lia|]. rewrite resized_grow by lia.
    rewrite take_replicate. assert (content i = []) as -> by (destruct (content i); [done|cbn in Hl; lia]). cbn. f_equal. lia.
Qed.
End Writing.

End TmpFSContent.
