(* ===== verification/TmpFSLaws.v ===== *)
(** * TmpFS keeps the laws of a file system

    [world_ok] is the invariant of the inode tables: indices are below the next
    one, every directory entry names an inode of the same table, and every inode's
    buffer fits its size.  [tmpfs_laws] is the instance of the laws that the virtual
    file system is proved against. *)
From S2P Require Import Prelude Memory KBuffer Pipe Credentials Mmap Paths FileSystem TmpFS.
Import Errno Slice Inode TmpFS TmpFSContent.

Module TmpFSFacts.

Record tmpfs_ok (f : Z) (t : TmpFS) : Prop := {
  to_next : 0 < m_next_inode_index t < 2 ^ 32;
  to_inode n i : m_inodes t !! n = Some i -> inode_ok i /\ 0 < n < m_next_inode_index t;
  to_children n i name c : m_inodes t !! n = Some i -> m_children i !! name = Some c ->
    fsid c = f /\ is_Some (m_inodes t !! index c);
  to_root n : m_root_inode t = Some n -> exists i, m_inodes t !! n = Some i /\ is_directory i = true;
}.

Definition world_ok (w : World) : Prop := forall f t, w !! f = Some t -> tmpfs_ok f t.

Lemma find_put w i j ino : is_Some (find_inode w i) ->
  find_inode (put w i ino) j = if decide (j = i) then Some ino else find_inode w j.
Proof.
  unfold find_inode, put. intros [x Hx]. destruct (w !! fsid i) as [t|] eqn:Ei; [|done].
  destruct i as [f n], j as [g m]. cbn in *. destruct (decide (g = f)) as [-> |Hne].
  - rewrite lookup_insert_eq. cbn. destruct (decide (m = n)) as [-> |Hn].
    + rewrite lookup_insert_eq. by rewrite decide_True.
    + rewrite lookup_insert_ne, decide_False by congruence. by rewrite Ei.
  - rewrite lookup_insert_ne, decide_False by congruence. done.
Qed.

Lemma get_Ok w i ino : get w i = Ok ino <-> find_inode w i = Some ino.
Proof. unfold get. destruct (find_inode w i); cbn; split; congruence. Qed.

Lemma find_inode_ok w i ino : world_ok w -> find_inode w i = Some ino -> inode_ok ino.
Proof.
  unfold find_inode. intros Hw. destruct (w !! fsid i) as [t|] eqn:E; [|done]. intros H. apply (to_inode _ _ (Hw _ _ E) _ _ H).
Qed.

Lemma view_Some w i n : tmpfs_view w i = Some n <-> exists ino, find_inode w i = Some ino /\ n = node_of ino.
Proof.
  unfold tmpfs_view. rewrite fmap_Some. naive_solver.
Qed.

Lemma view_find w i : is_Some (tmpfs_view w i) <-> is_Some (find_inode w i).
Proof. unfold tmpfs_view. by rewrite fmap_is_Some. Qed.

(** Replacing an inode by one that is in order keeps the tables in order. *)
Lemma put_ok w i old ino : world_ok w -> find_inode w i = Some old -> inode_ok ino ->
  is_directory ino = is_directory old ->
  (forall name c, m_children ino !! name = Some c -> fsid c = fsid i /\ is_Some (find_inode w c)) ->
  world_ok (put w i ino).
Proof.
  unfold find_inode, put. intros Hw Hf Hi Hd Hc g t. destruct (w !! fsid i) as [s|] eqn:Es; [|done].
  intros Ht. destruct (decide (g = fsid i)) as [-> |Hg]; [|rewrite lookup_insert_ne in Ht by congruence; by apply Hw].
  rewrite lookup_insert_eq in Ht. injection Ht as <-. pose proof (Hw _ _ Es) as [H1 H2 H3 H4].
  assert (forall k, is_Some (m_inodes s !! k) -> is_Some (<[index i := ino]> (m_inodes s) !! k)) as Hmono.
  { intros k Hk. destruct (decide (k = index i)) as [-> |]; [by rewrite lookup_insert_eq|by rewrite lookup_insert_ne by congruence]. }
  split; [done|..]; cbn.
  - intros n x [[<- <-]|[Hn Hx]]%lookup_insert_Some; [|by apply H2]. split; [done|]. by apply H2 in Hf as [_ ?].
  - intros n x name c [[<- <-]|[Hn Hx]]%lookup_insert_Some Hch.
    + destruct (Hc _ _ Hch) as [Hfc Hsc]. split; [done|]. apply Hmono. rewrite Hfc in Hsc. by rewrite Es in Hsc.
    + destruct (H3 _ _ _ _ Hx Hch) as [Hfc Hsc]. split; [done|]. by apply Hmono.
  - intros n Hr. destruct (H4 _ Hr) as (r & Hr1 & Hr2). destruct (decide (n = index i)) as [-> |Hn].
    + exists ino. rewrite lookup_insert_eq. split; [done|]. congruence.
    + exists r. by rewrite lookup_insert_ne by congruence.
Qed.

(** The same when the entries stay. *)
Lemma put_same_children w i old ino : world_ok w -> find_inode w i = Some old -> inode_ok ino ->
  is_directory ino = is_directory old -> m_children ino = m_children old -> world_ok (put w i ino).
Proof.
  intros Hw Hf Hi Hd Hc. apply (put_ok w i old ino); try done. intros name c Hch. rewrite Hc in Hch.
  unfold find_inode in *. destruct (w !! fsid i) as [t|] eqn:E; [|done].
  destruct (to_children _ _ (Hw _ _ E) _ _ _ _ Hf Hch) as [Hfc Hs]. split; [done|]. by rewrite Hfc, E.
Qed.

Section Views.
Context (can_allocate : Z -> bool) (NAME_MAX : Z).
#[local] Instance ops : Inodes World := tmpfs_inodes can_allocate NAME_MAX.

Lemma put_changed w i old ino f : find_inode w i = Some old -> node_of ino = f (node_of old) ->
  changed (F := World) i f w (put w i ino).
Proof using Type.
  intros Hf Hn j. cbn. unfold tmpfs_view. rewrite find_put by (by eexists). case_decide as Hj; [|done].
  subst j. rewrite Hf. cbn. by rewrite Hn.
Qed.

(** An operation that changes the metadata of one inode. *)
Lemma set_metadata_view w i f w' r : set_inode_metadata w i f = Ok (w', r) ->
  (forall md, Metadata.size (f md) = Metadata.size md) ->
  changed_or_same (F := World) r i (set_metadata f) w w'.
Proof using Type.
  unfold set_inode_metadata. intros (ino & Hf%get_Ok & [= <- <-])%res_bind_Ok Hs. apply (put_changed w i ino); [done|].
  unfold node_of, set_metadata. cbn. by rewrite Hs.
Qed.

Lemma set_metadata_ok w i n f : world_ok w -> tmpfs_view w i = Some n ->
  (forall md, Metadata.size (f md) = Metadata.size md) ->
  Metadata.directory (f (n_metadata n)) = node_directory n ->
  exists w' r, set_inode_metadata w i f = Ok (w', r) /\ world_ok w'.
Proof using Type.
  intros Hw (ino & Hf & ->)%view_Some Hs Hd. unfold set_inode_metadata. rewrite (proj2 (get_Ok w i ino) Hf). cbn.
  eexists _, _. split; [done|]. apply (put_same_children w i ino); try done.
  pose proof (find_inode_ok _ _ _ Hw Hf) as [H1 H2 H3 H4 H5]. unfold is_directory, node_directory in *. cbn in Hd.
  split; unfold file_size, is_directory in *; cbn; rewrite ?Hs, ?Hd; done.
Qed.

Lemma tmpfs_lookup_view w d n name : world_ok w -> tmpfs_view w d = Some n -> node_directory n = true ->
  dots name = false -> tmpfs_lookup w d name = Ok (n_children n !! name).
Proof using Type.
  intros Hw (ino & Hf & ->)%view_Some Hd [Hn1 Hn2]%orb_false_iff. unfold tmpfs_lookup.
  rewrite (proj2 (get_Ok w d ino) Hf). cbn. unfold is_directory. unfold node_directory in Hd. cbn in Hd. rewrite Hd, Hn1, Hn2. cbn. f_equal.
  destruct (m_children ino !! name) as [c|] eqn:Ec; [|done].
  unfold find_inode in *. destruct (w !! fsid d) as [t|] eqn:Et; [|done].
  destruct (to_children _ _ (Hw _ _ Et) _ _ _ _ Hf Ec) as [Hfc [x Hx]]. by rewrite Hfc, Et, Hx.
Qed.

Lemma tmpfs_lookup_directory w d name r : tmpfs_lookup w d name = Ok r ->
  exists n, tmpfs_view w d = Some n /\ node_directory n = true.
Proof using Type.
  unfold tmpfs_lookup. intros (ino & Hf%get_Ok & (u & Hd%verify_Ok & _)%res_bind_Ok)%res_bind_Ok.
  exists (node_of ino). split; [by apply view_Some; eexists|done].
Qed.

Lemma add_child_effect w d c name w' r : tmpfs_add_child NAME_MAX w d c name = Ok (w', r) ->
  (exists n, tmpfs_view w d = Some n /\ node_directory n = true) /\
  changed_or_same (F := World) r d (set_children <[name := c]>) w w'.
Proof using Type.
  unfold tmpfs_add_child. intros (ino & Hf%get_Ok & (u & Hd%verify_Ok & (u' & _ & H)%res_bind_Ok)%res_bind_Ok)%res_bind_Ok.
  split; [exists (node_of ino); split; [by apply view_Some; eexists|done]|].
  destruct (NAME_MAX <? _); injection H as <- <-; [done|]. by apply (put_changed w d ino).
Qed.

Lemma add_child_answers w d n c name : world_ok w -> tmpfs_view w d = Some n -> node_directory n = true ->
  is_Some (tmpfs_view w c) -> fsid c = fsid d ->
  exists w' r, tmpfs_add_child NAME_MAX w d c name = Ok (w', r) /\ world_ok w'.
Proof using Type.
  intros Hw (ino & Hf & ->)%view_Some Hd Hc%view_find Hfs. unfold tmpfs_add_child.
  rewrite (proj2 (get_Ok w d ino) Hf). cbn. unfold node_directory in Hd. cbn in Hd. unfold is_directory. rewrite Hd, Hfs, Z.eqb_refl. cbn.
  destruct (NAME_MAX <? _); [by eexists _, _|]. eexists _, _. split; [done|].
  apply (put_ok w d ino); try done.
  - pose proof (find_inode_ok _ _ _ Hw Hf) as [H1 H2 H3 H4 H5]. split; try done. cbn. unfold is_directory in *. cbn. by rewrite Hd.
  - cbn. intros nm c' [[<- <-]|[Hn Hch]]%lookup_insert_Some; [done|].
    unfold find_inode in *. destruct (w !! fsid d) as [t|] eqn:Et; [|done].
    destruct (to_children _ _ (Hw _ _ Et) _ _ _ _ Hf Hch) as [Hfc Hx]. by rewrite Hfc, Et.
Qed.

Lemma remove_child_effect w d name w' r : tmpfs_remove_child w d name = Ok (w', r) ->
  (exists n, tmpfs_view w d = Some n /\ node_directory n = true /\
    (dots name = false -> r = None <-> is_Some (n_children n !! name))) /\
  changed_or_same (F := World) r d (set_children (if dots name then id else delete name)) w w'.
Proof using Type.
  unfold tmpfs_remove_child. intros (ino & Hf%get_Ok & (u & Hd%verify_Ok & H)%res_bind_Ok)%res_bind_Ok.
  destruct (dots name) eqn:En.
  - injection H as <- <-. split; [exists (node_of ino); split_and!; [by apply view_Some; eexists|done|done]|].
    intros j. cbn. case_decide as Hj; [|done]. subst j. unfold tmpfs_view. by rewrite Hf.
  - destruct (m_children ino !! name) as [c|] eqn:Ec; injection H as <- <-;
      (split; [exists (node_of ino); split_and!; [by apply view_Some; eexists|done|intros _; cbn; rewrite Ec]|]).
    + split; [by eexists|done].
    + by apply (put_changed w d ino).
    + split; [done|by intros []].
    + done.
Qed.

Lemma remove_child_answers w d n name : world_ok w -> tmpfs_view w d = Some n -> node_directory n = true ->
  exists w' r, tmpfs_remove_child w d name = Ok (w', r) /\ world_ok w'.
Proof using Type.
  intros Hw (ino & Hf & ->)%view_Some Hd. unfold tmpfs_remove_child.
  rewrite (proj2 (get_Ok w d ino) Hf). cbn. unfold node_directory in Hd. cbn in Hd. unfold is_directory. rewrite Hd. cbn.
  destruct (dots name); [by eexists _, _|]. destruct (m_children ino !! name) as [c|]; [|by eexists _, _].
  eexists _, _. split; [done|]. apply (put_ok w d ino); try done.
  - pose proof (find_inode_ok _ _ _ Hw Hf) as [H1 H2 H3 H4 H5]. split; try done. cbn. unfold is_directory in *. cbn. by rewrite Hd.
  - cbn. intros nm c' [Hn Hch]%lookup_delete_Some.
    unfold find_inode in *. destruct (w !! fsid d) as [t|] eqn:Et; [|done].
    destruct (to_children _ _ (Hw _ _ Et) _ _ _ _ Hf Hch) as [Hfc Hx]. by rewrite Hfc, Et.
Qed.

(** ** Creating inodes *)

Lemma create_effect w f md parent w' i : create w f md parent = Ok (w', i) ->
  fsid i = f /\ (forall j, find_inode w' j = if decide (j = i) then Some (mkInode md parent None ∅) else find_inode w j) /\
  (world_ok w -> tmpfs_room w f = true -> find_inode w i = None /\ (Metadata.size md = 0 -> world_ok w')).
Proof using Type.
  unfold create. destruct (w !! f) as [t|] eqn:Et; [|done]. cbn. intros [= <- <-].
  set (n := m_next_inode_index t). split; [done|]. split.
  - intros [g m]. unfold find_inode. cbn. destruct (decide (g = f)) as [-> |Hg].
    + rewrite lookup_insert_eq, Et. cbn. destruct (decide (m = n)) as [-> |Hm].
      * by rewrite lookup_insert_eq, decide_True.
      * by rewrite lookup_insert_ne, decide_False by congruence.
    + by rewrite lookup_insert_ne, decide_False by congruence.
  - intros Hw Hr. unfold tmpfs_room in Hr. rewrite Et in Hr. apply Z.ltb_lt in Hr. fold n in Hr.
    pose proof (Hw _ _ Et) as [H1 H2 H3 H4]. fold n in H1, H2.
    assert (m_inodes t !! n = None) as Hfresh.
    { destruct (m_inodes t !! n) as [x|] eqn:E; [|done]. apply H2 in E. lia. }
    split; [unfold find_inode; cbn; by rewrite Et|]. intros Hsize.
    intros g s Hs. destruct (decide (g = f)) as [-> |Hg]; [|rewrite lookup_insert_ne in Hs by congruence; by apply Hw].
    rewrite lookup_insert_eq in Hs. injection Hs as <-.
    assert (wrap U32 (n + 1) = n + 1) as Hwrap by (apply wrap_id; [done|apply in_ty_spec; cbn; lia]).
    split; cbn; fold n; rewrite ?Hwrap; [lia|..].
    + intros m x [[<- <-]|[Hm Hx]]%lookup_insert_Some; [|apply H2 in Hx as [? ?]; split; [done|lia]].
      split; [|lia]. by split; unfold file_size; cbn; rewrite ?Hsize.
    + intros m x name c [[<- <-]|[Hm Hx]]%lookup_insert_Some Hch; [done|].
      destruct (H3 _ _ _ _ Hx Hch) as [Hc Hxs]. split; [done|]. destruct (decide (index c = n)) as [-> |]; [by rewrite lookup_insert_eq|by rewrite lookup_insert_ne by congruence].
    + intros m Hm. destruct (H4 _ Hm) as (x & Hx & Hd). exists x. split; [|done]. rewrite lookup_insert_ne; [done|congruence].
Qed.

Lemma unregister_find w i j : find_inode (unregister_inode w i) j = if decide (j = i) then None else find_inode w j.
Proof using Type.
  unfold unregister_inode, find_inode. destruct (w !! fsid i) as [t|] eqn:Et.
  - destruct i as [f n], j as [g m]. cbn in *. destruct (decide (g = f)) as [-> |Hg].
    + rewrite lookup_insert_eq, Et. cbn. destruct (decide (m = n)) as [-> |Hm].
      * by rewrite lookup_delete_eq, decide_True.
      * by rewrite lookup_delete_ne, decide_False by congruence.
    + by rewrite lookup_insert_ne, decide_False by congruence.
  - case_decide as Hj; [|done]. subst j. by rewrite Et.
Qed.

(** Taking back an inode that nothing names. *)
Lemma unregister_ok w d md c w1 : world_ok w -> tmpfs_room w (fsid d) = true ->
  create w (fsid d) md d = Ok (w1, c) -> world_ok (unregister_inode w1 c).
Proof using Type.
  intros Hw Hr. unfold create. destruct (w !! fsid d) as [t|] eqn:Et; [|done]. cbn. intros [= <- <-].
  unfold unregister_inode. cbn. rewrite lookup_insert_eq, insert_insert_eq. unfold with_inodes. cbn.
  unfold tmpfs_room in Hr. rewrite Et in Hr. apply Z.ltb_lt in Hr. pose proof (Hw _ _ Et) as [H1 H2 H3 H4].
  assert (m_inodes t !! m_next_inode_index t = None) as Hfresh.
  { destruct (m_inodes t !! m_next_inode_index t) as [x|] eqn:E; [|done]. apply H2 in E. lia. }
  rewrite delete_insert_id by done. intros g s Hs.
  destruct (decide (g = fsid d)) as [-> |Hg]; [|rewrite lookup_insert_ne in Hs by congruence; by apply Hw].
  rewrite lookup_insert_eq in Hs. injection Hs as <-.
  assert (wrap U32 (m_next_inode_index t + 1) = m_next_inode_index t + 1) as Hwrap by (apply wrap_id; [done|apply in_ty_spec; cbn; lia]).
  split; cbn; rewrite ?Hwrap; try done; [lia|]. intros n i Hi. destruct (H2 _ _ Hi). split; [done|lia].
Qed.

Lemma create_child_effect w now d name mode dev u g w' r : world_ok w -> tmpfs_room w (fsid d) = true ->
  is_Some (tmpfs_view w d) -> tmpfs_create_child NAME_MAX w now d name mode dev u g = Ok (w', r) ->
  match r with
  | inl _ => same (F := World) w w'
  | inr i => tmpfs_view w i = None /\ fsid i = fsid d /\ (exists n, tmpfs_view w d = Some n /\ node_directory n = true) /\
      created (F := World) d i name (mkNode (Metadata.fresh_metadata mode u g now) ∅ []) w w'
  end.
Proof using Type.
  intros Hw Hr Hd0%view_find. unfold tmpfs_create_child. destruct (negb (dev =? 0)); [by intros [= <- <-]|].
  intros ([w1 c] & Hc & ([w2 e] & Ha & H)%res_bind_Ok)%res_bind_Ok.
  destruct (create_effect _ _ _ _ _ _ Hc) as (Hfs & Hfind & Hfresh). destruct (Hfresh Hw Hr) as [Hnone _].
  destruct (add_child_effect _ _ _ _ _ _ Ha) as [(n & Hn & Hdir) Hch].
  assert (d <> c -> find_inode w1 d = find_inode w d) as Hd by (intros; by rewrite Hfind, decide_False).
  destruct e as [e|]; injection H as <- <-.
  - intros j. cbn. unfold tmpfs_view. rewrite unregister_find. case_decide as Hj; [by subst j; rewrite Hnone|].
    specialize (Hch j). cbn in Hch. unfold tmpfs_view in Hch. rewrite Hch, Hfind. by rewrite decide_False.
  - split; [unfold tmpfs_view; by rewrite Hnone|]. split; [done|].
    assert (d <> c) as Hdc.
    { intros ->. rewrite Hnone in Hd0. by destruct Hd0. }
    split; [exists n; split; [|done]; unfold tmpfs_view in *; by rewrite <- Hd|].
    intros j. specialize (Hch j). cbn in Hch. cbn. unfold tmpfs_view in *. rewrite Hch, Hfind.
    case_decide as Hj1; case_decide as Hj2; subst; try done.
Qed.

Lemma create_child_answers w now d n name mode dev u g : world_ok w -> tmpfs_view w d = Some n -> node_directory n = true ->
  tmpfs_room w (fsid d) = true -> exists w' r, tmpfs_create_child NAME_MAX w now d name mode dev u g = Ok (w', r) /\ world_ok w'.
Proof using Type.
  intros Hw Hv Hd Hr. unfold tmpfs_create_child. destruct (negb (dev =? 0)); [by eexists _, _|].
  destruct (create w (fsid d) (Metadata.fresh_metadata mode u g now) d) as [[w1 c]|] eqn:Hc.
  2:{ unfold create in Hc. unfold tmpfs_view, find_inode in Hv. by destruct (w !! fsid d). }
  cbn [res_bind]. destruct (create_effect _ _ _ _ _ _ Hc) as (Hfs & Hfind & Hfresh).
  destruct (Hfresh Hw Hr) as [Hnone Hw1]. specialize (Hw1 eq_refl).
  assert (d <> c) as Hdc by (intros ->; unfold tmpfs_view in Hv; by rewrite Hnone in Hv).
  destruct (add_child_answers w1 d n c name Hw1) as (w2 & r & Ha & Hw2); [|done| |done|].
  { unfold tmpfs_view. by rewrite Hfind, decide_False. }
  { unfold tmpfs_view. by rewrite Hfind, decide_True. }
  rewrite Ha. cbn [res_bind]. destruct r as [e|]; [|by eexists _, _].
  eexists _, _. split; [done|]. unfold tmpfs_add_child in Ha.
  apply res_bind_Ok in Ha as (x & _ & (u1 & _ & (u2 & _ & H)%res_bind_Ok)%res_bind_Ok).
  destruct (NAME_MAX <? _); [|done]. injection H as <- _. exact (unregister_ok _ _ _ _ _ Hw Hr Hc).
Qed.
End Views.

Lemma accessible_some (l : list Z) : accessible (Some <$> l) = l.
Proof. induction l as [|x l IH]; cbn; [done|by rewrite IH]. Qed.

End TmpFSFacts.
Import TmpFSFacts.

Section Laws.
Context (can_allocate : Z -> bool) (NAME_MAX : Z).
#[local] Instance laws_ops : Inodes World := tmpfs_inodes can_allocate NAME_MAX.

Lemma tmpfs_write_answers w i n bytes : world_ok w -> view w i = Some n -> node_directory n = false -> n_content n = [] ->
  0 < Z.of_nat (length bytes) < 2 ^ 30 ->
  exists w' r, write_bytes w i 0 bytes = Ok (w', r) /\ world_ok w' /\
    exists n', view w' i = Some n' /\ node_directory n' = false /\ n_children n' = n_children n /\
      forall k, r = inr k -> n_content n' = bytes.
Proof using Type.
  intros Hw (ino & Hf & ->)%view_Some Hd Hc Hl. pose proof (find_inode_ok _ _ _ Hw Hf) as Hi.
  change (is_directory ino = false) in Hd. pose proof (content_length ino Hi) as Hlen. unfold content in Hlen. rewrite Hc in Hlen. cbn in Hlen.
  destruct (inode_write_ok can_allocate ino 0 (Some <$> bytes)) as (ino' & r & Ew & Hi' & Hd' & Hch & Hr); try done.
  { lia. }
  { rewrite length_fmap. unfold MAX_SIZE. lia. }
  { left. destruct bytes; [cbn in Hl; lia|discriminate]. }
  cbn. rewrite (proj2 (get_Ok w i ino) Hf). cbn [res_bind]. rewrite Ew. cbn [res_bind].
  eexists _, _. split; [done|]. split; [apply (put_same_children w i ino); try done; congruence|].
  exists (node_of ino'). split; [|split; [done|split; [done|]]].
  - unfold tmpfs_view. rewrite find_put by (by eexists). by rewrite decide_True.
  - intros k ->. destruct Hr as (_ & _ & Hcont). unfold content in Hcont. rewrite Hcont, Hc, accessible_some. unfold poke.
    by rewrite drop_nil, app_nil_r.
Qed.

Lemma tmpfs_truncate_view w i w' r : truncate w i 0 = Ok (w', r) -> changed_or_same r i (set_content []) w w'.
Proof using Type.
  cbn. intros (ino & Hf%get_Ok & ([ino' r'] & H & [= <- <-])%res_bind_Ok)%res_bind_Ok.
  unfold inode_truncate in H. apply res_bind_Ok in H as (u & _ & [= <- <-]). by apply (put_changed can_allocate NAME_MAX w i ino).
Qed.

Lemma tmpfs_truncate_answers w i n : world_ok w -> view w i = Some n -> node_directory n = false ->
  exists w' r, truncate w i 0 = Ok (w', r) /\ world_ok w'.
Proof using Type.
  intros Hw (ino & Hf & ->)%view_Some Hd. pose proof (find_inode_ok _ _ _ Hw Hf) as Hi. cbn.
  rewrite (proj2 (get_Ok w i ino) Hf). cbn [res_bind].
  destruct (inode_truncate_ok can_allocate ino 0 Hi Hd ltac:(lia)) as (ino' & r & Et & Hr). rewrite Et. cbn [res_bind].
  eexists _, _. split; [done|]. destruct r as [e|].
  - destruct Hr as [_ ->]. by apply (put_same_children w i ino).
  - destruct Hr as (b & -> & Hi' & Hd' & _). by apply (put_same_children w i ino).
Qed.

#[export] Instance tmpfs_laws : InodeLaws World.
Proof using Type.
  refine {| wf := world_ok |}.
  - intros w d n name c Hw (ino & Hf & ->)%view_Some Hch. cbn in Hch. unfold find_inode in Hf.
    destruct (w !! fsid d) as [t|] eqn:Et; [|done]. destruct (to_children _ _ (Hw _ _ Et) _ _ _ _ Hf Hch) as [Hfc Hx].
    split; [done|]. apply view_find. unfold find_inode. by rewrite Hfc, Et.
  - intros w i n Hw (ino & Hf & ->)%view_Some Hd. by apply (find_inode_ok _ _ _ Hw Hf).
  - intros w i n Hw (ino & Hf & ->)%view_Some. symmetry. apply (content_length ino (find_inode_ok _ _ _ Hw Hf)).
  - intros w f r Hw Hr. cbn in Hr. unfold tmpfs_root_inode in Hr. destruct (w !! f) as [t|] eqn:Et; [|done].
    destruct (m_root_inode t) as [n|] eqn:En; [|done]. injection Hr as <-. split; [done|].
    destruct (to_root _ _ (Hw _ _ Et) _ En) as (i & Hi & Hd). exists (node_of i). split; [|done].
    apply view_Some. exists i. split; [|done]. unfold find_inode. cbn. by rewrite Et.
  - intros w i m. cbn. rewrite res_bind_Ok. split.
    + intros (ino & Hf%get_Ok & [= <-]). exists (node_of ino). split; [by apply view_Some; eexists|done].
    + intros (n & (ino & Hf & ->)%view_Some & <-). exists ino. split; [by apply get_Ok|done].
  - intros w d n name. apply tmpfs_lookup_view.
  - intros w d name r. apply tmpfs_lookup_directory.
  - intros w i n offset size Hw (ino & Hf & ->)%view_Some Hd Ho Hs. cbn. rewrite (proj2 (get_Ok w i ino) Hf). cbn [res_bind].
    rewrite inode_read_ok; [done|by apply (find_inode_ok _ _ _ Hw Hf)|done..].
  - intros w d n Hw (ino & Hf & ->)%view_Some Hd. cbn. unfold tmpfs_directory_entry_count. rewrite (proj2 (get_Ok w d ino) Hf). cbn.
    unfold is_directory. unfold node_directory in Hd. cbn in Hd. by rewrite Hd.
  - intros w d n Hw (ino & Hf & ->)%view_Some Hd. cbn. unfold tmpfs_traverse_as_directory. rewrite (proj2 (get_Ok w d ino) Hf). cbn.
    unfold is_directory. unfold node_directory in Hd. cbn in Hd. rewrite Hd. by eexists _, _.
  - intros w now d name mode dev u g w' r Hw Hr Hd. by apply create_child_effect.
  - intros w d c name w' r. apply add_child_effect.
  - intros w d name w' r. apply remove_child_effect.
  - intros w i m w' r H. by apply (set_metadata_view can_allocate NAME_MAX) in H.
  - intros w i u g w' r H. by apply (set_metadata_view can_allocate NAME_MAX) in H.
  - intros w i t w' r H. by apply (set_metadata_view can_allocate NAME_MAX) in H.
  - intros w i t w' r H. by apply (set_metadata_view can_allocate NAME_MAX) in H.
  - apply tmpfs_truncate_view.
  - intros w i offset bytes w' r. cbn. intros (ino & Hf%get_Ok & ([ino' r'] & _ & [= <- <-])%res_bind_Ok)%res_bind_Ok j Hj.
    unfold tmpfs_view. rewrite find_put by (by eexists). by rewrite decide_False.
  - intros w i n offset bytes w' r. cbn. intros (ino & Hf%get_Ok & ([ino' r'] & Hw & [= <- <-])%res_bind_Ok)%res_bind_Ok (ino0 & Hf0 & ->)%view_Some.
    rewrite Hf in Hf0. injection Hf0 as <-. apply write_same_owner in Hw as (H1 & H2 & H3).
    exists (node_of ino'). split; [|done]. unfold tmpfs_view. rewrite find_put by (by eexists). by rewrite decide_True.
  - intros w now d n name mode dev u g. apply create_child_answers.
  - intros w d n c name. apply add_child_answers.
  - intros w d n name. apply remove_child_answers.
  - intros w i n m Hw Hv Hd. by apply (set_metadata_ok w i n).
  - intros w i n u g Hw Hv. by apply (set_metadata_ok w i n).
  - intros w i n t Hw Hv. by apply (set_metadata_ok w i n).
  - intros w i n t Hw Hv. by apply (set_metadata_ok w i n).
  - apply tmpfs_truncate_answers.
  - apply tmpfs_write_answers.
Defined.

(** A file system that was just made is in order. *)
Lemma create_root_ok w f now : world_ok w -> w !! f = None ->
  exists w', create_root w f now = Ok w' /\ world_ok w' /\ tmpfs_root_inode w' f = Some (f, 1) /\
    view w' (f, 1) = Some (mkNode (Metadata.fresh_metadata 0x43FF 0 0 now) ∅ []) /\
    (forall j, fsid j <> f -> view w' j = view w j) /\ (forall j, fsid j = f -> is_Some (view w' j) -> j = (f, 1)).
Proof using Type.
  intros Hw Hf. unfold create_root, create. rewrite lookup_insert_eq. cbn. rewrite !lookup_insert_eq. cbn.
  eexists. split; [done|]. rewrite !insert_insert_eq. split_and!.
  - intros g t Ht. destruct (decide (g = f)) as [-> |Hg]; [|rewrite lookup_insert_ne in Ht by congruence; by apply Hw].
    rewrite lookup_insert_eq in Ht. injection Ht as <-. change (wrap U32 (1 + 1)) with 2. split; cbn.
    + lia.
    + intros n i [[<- <-]|[? ?]]%lookup_insert_Some; [|done]. split; [by split|lia].
    + by intros n i name c [[<- <-]|[? ?]]%lookup_insert_Some.
    + intros n [= <-]. eexists. by rewrite lookup_insert_eq.
  - unfold tmpfs_root_inode. by rewrite lookup_insert_eq.
  - unfold tmpfs_view, find_inode. cbn. by rewrite lookup_insert_eq.
  - intros j Hj. cbn. unfold tmpfs_view, find_inode. by rewrite lookup_insert_ne by congruence.
  - intros [g n] Hg [x Hx]. cbn in Hg. subst g. cbn in Hx. unfold tmpfs_view, find_inode in Hx. cbn in Hx. rewrite lookup_insert_eq in Hx. cbn in Hx.
    apply fmap_Some in Hx as (i & [[<- _]|[_ ?]]%lookup_insert_Some & _); done.
Qed.
End Laws.
