(* ===== verification/Unveil.v ===== *)
(** * The trie of unveiled paths

    AK/Trie.h as Kernel/UnveilNode.h uses it, and what Kernel/FileSystem/
    VirtualFileSystem.cpp checks against it.  A node of the trie is its metadata
    and its children by the next part of the path; every node is made with
    metadata, so the optional of the code is always full.  [granted] relates the
    trie to the calls of unveil that made it. *)
From Stdlib Require Import Ascii.
From S2P Require Import Prelude Paths FileSystem.

Module Trie.

Inductive Trie (M : Type) : Type :=
| mkTrie (m_metadata : M) (m_children : gmap string (Trie M)).
Arguments mkTrie {M} m_metadata m_children.

Section Trie.
Context {M : Type}.

Definition metadata (t : Trie M) : M := let '(mkTrie m _) := t in m.
Definition m_children (t : Trie M) : gmap string (Trie M) := let '(mkTrie _ c) := t in c.

Definition set_metadata (t : Trie M) (m : M) : Trie M := mkTrie m (m_children t).
Definition set_child (t : Trie M) (part : string) (child : Trie M) : Trie M :=
  mkTrie (metadata t) (<[part := child]> (m_children t)).

Definition is_empty (t : Trie M) : bool := bool_decide (m_children t = ∅).
Definition clear (t : Trie M) : Trie M := mkTrie (metadata t) ∅.

(** The last node on the path, with the parts that are left. *)
Fixpoint traverse_until_last_accessible_node (t : Trie M) (path : list string) : Trie M * list string :=
  match path with
  | [] => (t, [])
  | part :: rest =>
      match m_children t !! part with
      | None => (t, path)
      | Some child => traverse_until_last_accessible_node child rest
      end
  end.

(** Acts through the reference to that node. *)
Fixpoint at_last_accessible_node (f : Trie M -> list string -> Trie M) (t : Trie M) (path : list string) : Trie M :=
  match path with
  | [] => f t []
  | part :: rest =>
      match m_children t !! part with
      | None => f t path
      | Some child => set_child t part (at_last_accessible_node f child rest)
      end
  end.

Definition ensure_child (t : Trie M) (value : string) (m : M) : Trie M :=
  match m_children t !! value with
  | None => mkTrie m ∅
  | Some child => set_metadata child m
  end.

(** The loop of insert from a node on: the parts that are left become nodes. *)
Fixpoint insert_rest (provide : Trie M -> string -> M) (m : M) (t : Trie M) (path : list string) : Trie M :=
  match path with
  | [] => set_metadata t m
  | part :: rest => set_child t part (insert_rest provide m (ensure_child t part (provide t part)) rest)
  end.

Definition insert (provide : Trie M -> string -> M) (m : M) (t : Trie M) (path : list string) : Trie M :=
  at_last_accessible_node (insert_rest provide m) t path.
End Trie.

End Trie.

Module Unveil.
Import Trie Errno.

Definition Read : Z := 1.
Definition Write : Z := 2.
Definition Execute : Z := 4.
Definition CreateOrRemove : Z := 8.
Definition Browse : Z := 16.

Record UnveilMetadata := mkUnveil {
  full_path : string; permissions : Z; explicitly_unveiled : bool; unveil_inherited_from_root : bool }.

Abbreviation UnveilNode := (Trie UnveilMetadata).

Inductive VeilState := VeilNone | Dropped | Locked.

#[global] Instance VeilState_eq_dec : EqDecision VeilState.
Proof. solve_decision. Defined.

(** What a process starts with. *)
Definition unveil_root : UnveilNode := mkTrie (mkUnveil "/" 0 false true) ∅.

Definition O_RDONLY : Z := 1.
Definition O_WRONLY : Z := 2.
Definition O_EXEC : Z := 4.
Definition O_CREAT : Z := 8.
Definition O_EXCL : Z := 16.
Definition O_TRUNC : Z := 64.
Definition O_APPEND : Z := 128.
Definition O_NONBLOCK : Z := 256.
Definition O_DIRECTORY : Z := 512.
Definition O_NOFOLLOW : Z := 1024.
Definition O_CLOEXEC : Z := 2048.
Definition O_NOFOLLOW_NOERROR : Z := 2 ^ 29.
Definition O_UNLINK_INTERNAL : Z := 2 ^ 30.

Definition has (options flag : Z) : bool := negb (Z.land options flag =? 0).

Definition find_matching_unveiled_path (unveiled : UnveilNode) (path : string) : option UnveilMetadata :=
  if Trie.is_empty unveiled then None
  else Some (metadata (fst (traverse_until_last_accessible_node unveiled (LexicalPath.parts path)))).

Definition validate_path_against_process_veil (state : VeilState) (unveiled : UnveilNode) (path : string) (options : Z)
    : option errno :=
  if decide (state = VeilNone) then None
  else if (path =? "/usr/lib/Loader.so")%string then None
  else if StringView.contains_string path "/.." then Some EINVAL
  else
    match find_matching_unveiled_path unveiled path with
    | None => Some ENOENT
    | Some node =>
        let allows p := has (permissions node) p in
        if has options O_CREAT && negb (allows CreateOrRemove) then Some EACCES
        else if has options O_UNLINK_INTERNAL then (if allows CreateOrRemove then None else Some EACCES)
        else if has options O_RDONLY &&
                negb (if has options O_DIRECTORY then allows (Z.lor Read Browse) else allows Read) then Some EACCES
        else if has options O_WRONLY && negb (allows Write) then Some EACCES
        else if has options O_EXEC && negb (allows Execute) then Some EACCES
        else None
    end.

(** The loop over the letters of the permissions. *)
Fixpoint parse_permissions (s : string) (acc : Z) : option Z :=
  match s with
  | EmptyString => Some acc
  | String c rest =>
      if Ascii.eqb c "r"%char then parse_permissions rest (Z.lor acc Read)
      else if Ascii.eqb c "w"%char then parse_permissions rest (Z.lor acc Write)
      else if Ascii.eqb c "x"%char then parse_permissions rest (Z.lor acc Execute)
      else if Ascii.eqb c "c"%char then parse_permissions rest (Z.lor acc CreateOrRemove)
      else if Ascii.eqb c "b"%char then parse_permissions rest (Z.lor acc Browse)
      else None
  end.

(** The part of sys$unveil after the path is known. *)
Definition unveil_path (unveiled : UnveilNode) (state : VeilState) (new_unveiled_path : string) (new_permissions : Z)
    : UnveilNode * VeilState * option errno :=
  let parts := LexicalPath.parts new_unveiled_path in
  let '(matching_node, rest) := traverse_until_last_accessible_node unveiled parts in
  match rest with
  | [] =>
      let old := metadata matching_node in
      if (negb (permissions old =? 0) || negb (unveil_inherited_from_root old)) &&
         has new_permissions (Z.lnot (permissions old))
      then (unveiled, state, Some EPERM)
      else (at_last_accessible_node (fun t _ => Trie.set_metadata t (mkUnveil (full_path old) new_permissions true false)) unveiled parts,
            state, None)
  | _ =>
      let provide (parent : UnveilNode) (part : string) :=
        let m := metadata parent in
        mkUnveil (full_path m ++ "/" ++ part)%string (permissions m) false (unveil_inherited_from_root m) in
      (Trie.insert provide (mkUnveil new_unveiled_path new_permissions true false) unveiled parts, Dropped, None)
  end.

End Unveil.

(** ** Facts *)
Module UnveilFacts.
Import Trie Unveil Errno.

(** The node a path leads to. *)
Fixpoint node_at {M} (t : Trie M) (path : list string) : option (Trie M) :=
  match path with
  | [] => Some t
  | part :: rest => match m_children t !! part with None => None | Some child => node_at child rest end
  end.

Lemma traverse_spec {M} (t : Trie M) path n rest :
  traverse_until_last_accessible_node t path = (n, rest) ->
  exists pre, path = pre ++ rest /\ node_at t pre = Some n.
Proof.
  revert t. induction path as [|part path IH]; intros t; cbn.
  - intros [= <- <-]. by exists [].
  - destruct (m_children t !! part) as [child|] eqn:E.
    + intros (pre & -> & H)%IH. exists (part :: pre). split; [done|]. cbn. by rewrite E.
    + intros [= <- <-]. by exists [].
Qed.

(** What acting on the last accessible node does to the other paths. *)
Lemma at_last_spec {M} f (t : Trie M) path q :
  exists pre rest n, path = pre ++ rest /\ node_at t pre = Some n /\
    traverse_until_last_accessible_node t path = (n, rest) /\
    (forall q', q = pre ++ q' -> node_at (at_last_accessible_node f t path) q = node_at (f n rest) q') /\
    (~ pre `prefix_of` q -> forall m, metadata <$> node_at (at_last_accessible_node f t path) q = Some m ->
      metadata <$> node_at t q = Some m).
Proof.
  revert t q. induction path as [|part path IH]; intros t q; cbn.
  - exists [], [], t. split_and!; try done. { by intros q' ->. } intros H. destruct H. apply prefix_nil.
  - destruct (m_children t !! part) as [child|] eqn:E.
    2:{ exists [], (part :: path), t. split_and!; try done. { by intros q' ->. } intros H. destruct H. apply prefix_nil. }
    destruct (IH child (tail q)) as (pre & rest & n & -> & Hn & Ht & H1 & H2).
    exists (part :: pre), rest, n. split_and!; try done.
    + cbn. by rewrite E.
    + intros q' ->. cbn. rewrite lookup_insert_eq. by apply H1.
    + intros Hq m. destruct q as [|a q]; cbn in *; [done|].
      destruct (decide (a = part)) as [-> |Hne].
      * rewrite lookup_insert_eq, E. apply H2. intros Hp. destruct Hq. by apply prefix_cons.
      * by rewrite lookup_insert_ne by congruence.
Qed.

(** The calls that had an effect, with the parts of the path and the permissions. *)
Abbreviation History := (list (list string * Z)).

Definition covers (h : History) (path : list string) (p : Z) : Prop :=
  exists parts perms, (parts, perms) ∈ h /\ parts `prefix_of` path /\ has perms p = true.

(** Every permission in the trie was given by a call, for the path or above it. *)
Definition granted (h : History) (t : UnveilNode) : Prop :=
  forall path n p, node_at t path = Some n -> has (permissions (metadata n)) p = true -> covers h path p.

Lemma covers_cons h c path p : covers h path p -> covers (c :: h) path p.
Proof. intros (parts & perms & Hin & H). exists parts, perms. split; [by apply elem_of_cons; right|done]. Qed.

Lemma covers_prefix h a b p : a `prefix_of` b -> covers h a p -> covers h b p.
Proof. intros Hab (parts & perms & Hin & Hp & H). exists parts, perms. split_and!; [done|by etrans|done]. Qed.

Lemma granted_root : granted [] unveil_root.
Proof.
  intros path n p. destruct path as [|a path]; cbn; [|by rewrite lookup_empty]. intros [= <-]. cbn. unfold has. by rewrite Z.land_0_l.
Qed.

(** The nodes that insert makes below a node: the last has the permissions given,
    the others those of the node. *)
Lemma insert_rest_spec provide m (t : UnveilNode) rest q n :
  (forall u part, permissions (provide u part) = permissions (metadata u)) ->
  (forall part, rest !! 0%nat = Some part -> m_children t !! part = None) ->
  node_at (insert_rest provide m t rest) q = Some n ->
  (q = rest /\ metadata n = m) \/ permissions (metadata n) = permissions (metadata t) \/
  (exists n0, node_at t q = Some n0 /\ metadata n0 = metadata n).
Proof.
  intros Hp. revert t q n. induction rest as [|part rest IH]; intros t q n Hfirst; cbn.
  - destruct q as [|a q]; cbn; [intros [= <-]; by left|]. intros H. right. right. by exists n.
  - destruct q as [|a q]; cbn; [intros [= <-]; by right; left|].
    destruct (decide (a = part)) as [-> |Hne].
    2:{ rewrite lookup_insert_ne by congruence. intros H. right. right. by exists n. }
    rewrite lookup_insert_eq. unfold ensure_child. rewrite (Hfirst part eq_refl). intros H.
    destruct (IH (mkTrie (provide t part) ∅) q n) as [[-> ?]|[H'|(n0 & H' & H'')]]; [|done|by left|right; left|].
    + intros x _. apply lookup_empty.
    + rewrite H'. apply Hp.
    + right. left. destruct q as [|b q]; cbn in H'; [|by rewrite lookup_empty in H'].
      injection H' as <-. cbn in H''. rewrite <- H''. apply Hp.
Qed.

Lemma traverse_stops {M} (t : Trie M) path n part rest :
  traverse_until_last_accessible_node t path = (n, part :: rest) -> m_children n !! part = None.
Proof.
  revert t. induction path as [|a path IH]; intros t; cbn; [done|].
  destruct (m_children t !! a) as [c|] eqn:E; [apply IH|]. by intros [= <- <- _].
Qed.

(** unveil keeps the trie within what was granted, and only adds its own grant. *)
Lemma unveil_path_granted h t state path perms t' state' r : granted h t ->
  unveil_path t state path perms = (t', state', r) ->
  match r with
  | Some _ => t' = t /\ state' = state
  | None => granted ((LexicalPath.parts path, perms) :: h) t'
  end.
Proof.
  intros Hg. unfold unveil_path. set (parts := LexicalPath.parts path).
  destruct (traverse_until_last_accessible_node t parts) as [node rest] eqn:Et.
  destruct rest as [|part rest].
  - case_if; [by intros [= <- <- <-]|]. intros [= <- <- <-]. intros q n p Hn Hh.
    destruct (at_last_spec (fun t _ => Trie.set_metadata t (mkUnveil (full_path (metadata node)) perms true false)) t parts q)
      as (pre & rest' & n' & Hparts & Hn' & Et' & H1 & H2).
    rewrite Et in Et'. injection Et' as <- <-. rewrite app_nil_r in Hparts. subst pre.
    destruct (decide (parts `prefix_of` q)) as [[q' ->]|Hq].
    + rewrite (H1 q' eq_refl) in Hn. destruct q' as [|a q']; cbn in Hn.
      * injection Hn as <-. cbn in Hh. exists parts, perms. split_and!; [by apply elem_of_cons; left|by rewrite app_nil_r|done].
      * apply covers_cons. apply (Hg _ n p); [|done]. clear -Hn Hn'.
        revert t Hn'. induction parts as [|x parts IH]; intros t; cbn; [intros [= ->]; by cbn|].
        destruct (m_children t !! x); [apply IH|done].
    + specialize (H2 Hq (metadata n)). rewrite Hn in H2. cbn in H2. specialize (H2 eq_refl).
      apply fmap_Some in H2 as (n0 & Hn0 & Hm). apply covers_cons. apply (Hg _ n0 p Hn0). by rewrite <- Hm.
  - intros [= <- <- <-]. intros q n p Hn Hh. unfold Trie.insert in Hn.
    match type of Hn with node_at (at_last_accessible_node ?f _ _) _ = _ => destruct (at_last_spec f t parts q)
      as (pre & rest' & n' & Hparts & Hn' & Et' & H1 & H2) end.
    rewrite Et in Et'. injection Et' as <- <-.
    destruct (decide (pre `prefix_of` q)) as [[q' ->]|Hq].
    + rewrite (H1 q' eq_refl) in Hn. apply insert_rest_spec in Hn; [|done|].
      2:{ intros x [= <-]. by apply traverse_stops in Et. }
      destruct Hn as [[-> Hm]|[Hm|(n0 & Hn0 & Hm)]].
      * exists parts, perms. split_and!; [by apply elem_of_cons; left|by rewrite Hparts|]. by rewrite Hm in Hh.
      * apply covers_cons. apply (covers_prefix _ pre); [by apply prefix_app_r|]. apply (Hg _ node p Hn'). by rewrite <- Hm.
      * apply covers_cons. apply (Hg _ n0 p); [|by rewrite Hm]. clear -Hn0 Hn'.
        revert t Hn'. induction pre as [|x pre IH]; intros t; cbn; [intros [= ->]; by cbn|].
        destruct (m_children t !! x); [apply IH|done].
    + specialize (H2 Hq (metadata n)). rewrite Hn in H2. specialize (H2 eq_refl).
      apply fmap_Some in H2 as (n0 & Hn0 & Hm). apply covers_cons. apply (Hg _ n0 p Hn0). by rewrite <- Hm.
Qed.

(** A path that passes the check is covered for what the options ask. *)
Lemma validate_covers h state t path options : granted h t -> state <> VeilNone ->
  path <> "/usr/lib/Loader.so"%string -> validate_path_against_process_veil state t path options = None ->
  let covered := covers h (LexicalPath.parts path) in
  (has options O_CREAT = true -> covered CreateOrRemove) /\
  (has options O_UNLINK_INTERNAL = true -> covered CreateOrRemove) /\
  (has options O_UNLINK_INTERNAL = false ->
    (has options O_RDONLY = true -> covered (if has options O_DIRECTORY then Z.lor Read Browse else Read)) /\
    (has options O_WRONLY = true -> covered Write) /\
    (has options O_EXEC = true -> covered Execute)).
Proof.
  intros Hg Hs Hp. unfold validate_path_against_process_veil. rewrite decide_False by done.
  rewrite (proj2 (String.eqb_neq _ _) Hp). case_if; [done|]. unfold find_matching_unveiled_path. case_if; [done|].
  destruct (traverse_until_last_accessible_node t (LexicalPath.parts path)) as [n rest] eqn:Et. cbn [fst].
  apply traverse_spec in Et as (pre & Hparts & Hn).
  assert (forall p, has (permissions (metadata n)) p = true -> covers h (LexicalPath.parts path) p) as Hcov.
  { intros p Hh. apply (covers_prefix _ pre); [rewrite Hparts; by apply prefix_app_r|by apply (Hg _ n)]. }
  cbn zeta. intros H.
  assert (forall (a b : bool) (x : option errno), (if a && negb b then Some EACCES else x) = None -> (a = true -> b = true) /\ x = None) as Hif
    by (intros [] [] x; cbn; naive_solver).
  apply Hif in H as [H1 H]. split; [auto|]. destruct (has options O_UNLINK_INTERNAL).
  { split; [intros _; apply Hcov; by destruct (has (permissions _) CreateOrRemove)|done]. }
  apply Hif in H as [H2 H]. apply Hif in H as [H3 H]. apply Hif in H as [H4 _].
  split; [done|]. intros _. split_and!; [|auto..]. intros Hr. apply Hcov. destruct (has options O_DIRECTORY); auto.
Qed.

End UnveilFacts.
