(* ===== verification/Vfs.v ===== *)
(** * The virtual file system

    Kernel/FileSystem/VirtualFileSystem.cpp and Custody.cpp, Inode::resolve_as_link,
    and Kernel/Syscalls/unveil.cpp.  A custody is the way a path was resolved: an
    inode with its name, and the custody of the directory it was found in.  The
    operations take the mounts, the process that calls, and the inodes of all file
    systems through the class [Inodes].  A null pointer that the code follows is
    [VerifyFailed], as RefPtr checks it. *)
From Stdlib Require Import Ascii String.
From S2P Require Import Prelude KBuffer Credentials Mmap Paths FileSystem Unveil.
Import Errno.

Module Custody.

Inductive Custody :=
| mkCustody (m_parent : option Custody) (m_name : string) (m_inode : InodeIdentifier) (m_mount_flags : Z).

Definition parent (c : Custody) : option Custody := let '(mkCustody p _ _ _) := c in p.
Definition name (c : Custody) : string := let '(mkCustody _ n _ _) := c in n.
Definition inode (c : Custody) : InodeIdentifier := let '(mkCustody _ _ i _) := c in i.
Definition mount_flags (c : Custody) : Z := let '(mkCustody _ _ _ f) := c in f.

(** The custody, its parent, and so on. *)
Fixpoint chain (c : Custody) : list Custody :=
  match c with
  | mkCustody (Some p) _ _ _ => c :: chain p
  | mkCustody None _ _ _ => [c]
  end.

(** String::characters() up to the null character that ends it. *)
Fixpoint c_string (s : string) : string :=
  match s with
  | EmptyString => EmptyString
  | String c rest => if Ascii.eqb c zero then EmptyString else String c (c_string rest)
  end.

Definition absolute_path (c : Custody) : string :=
  match parent c with
  | None => "/"
  | Some _ => LexicalPath.build true (c_string <$> rev (removelast (name <$> chain c)))
  end.

End Custody.

Module VFS.
Import Custody Credentials.Process Inode Unveil StringView Errno.

Definition MS_NODEV : Z := 1.
Definition MS_NOEXEC : Z := 2.
Definition MS_NOSUID : Z := 4.
Definition MS_RDONLY : Z := 16.

Definition symlink_recursion_limit : nat := 5.
Definition root_mount_flags : Z := Z.lor (Z.lor MS_NODEV MS_NOSUID) MS_RDONLY.

Record Mount := mkMount { m_guest : InodeIdentifier; m_host_custody : option Custody; m_flags : Z }.

Record VFS := mkVFS { m_root_inode : option InodeIdentifier; m_mounts : list Mount }.

Definition host (m : Mount) : option InodeIdentifier := inode <$> m_host_custody m.

Definition find_mount_for_host (v : VFS) (i : InodeIdentifier) : option Mount :=
  List.find (fun m => bool_decide (host m = Some i)) (m_mounts v).

Definition find_mount_for_guest (v : VFS) (i : InodeIdentifier) : option Mount :=
  List.find (fun m => bool_decide (m_guest m = i)) (m_mounts v).

Definition root_custody (v : VFS) : res Custody :=
  let* i := of_opt VerifyFailed (m_root_inode v) in Ok (mkCustody None "" i root_mount_flags).

(** The process that calls: its identity, its root directory and its veil. *)
Record Caller := mkCaller {
  c_process : process;
  root_directory : Custody;
  veil_state : VeilState;
  unveiled_paths : UnveilNode;
}.

Definition euid (p : Caller) : Z := m_euid (c_process p).
Definition egid (p : Caller) : Z := m_egid (c_process p).
Definition is_superuser (p : Caller) : bool := euid p =? 0.
Definition in_group (p : Caller) (g : Z) : bool :=
  (m_gid (c_process p) =? g) || existsb (Z.eqb g) (m_extra_gids (c_process p)).

Definition may_read (md : Metadata.Metadata) (p : Caller) : bool := Metadata.may_read md (c_process p).
Definition may_write (md : Metadata.Metadata) (p : Caller) : bool := Metadata.may_write md (c_process p).
Definition may_execute (md : Metadata.Metadata) (p : Caller) : bool := Metadata.may_execute md (c_process p).

Definition validate (p : Caller) (path : string) (options : Z) : option errno :=
  validate_path_against_process_veil (veil_state p) (unveiled_paths p) path options.

(** Bytes of a file as text, and back. *)
Definition string_of_bytes (l : list Z) : string :=
  fold_right (fun b s => String (ascii_of_N (Z.to_N b)) s) "" l.
Fixpoint bytes_of_string (s : string) : list Z :=
  match s with
  | EmptyString => []
  | String c rest => Z.of_N (N_of_ascii c) :: bytes_of_string rest
  end.

Definition safe_to_follow_symlink (p : Caller) (md parent_md : Metadata.Metadata) : bool :=
  if euid p =? Metadata.uid md then true
  else if negb (Metadata.is_sticky (Metadata.mode parent_md) && has (Metadata.mode parent_md) InodeMetadata.S_IWOTH) then true
  else Metadata.uid md =? Metadata.uid parent_md.

Section Resolve.
Context {F : Type} `{Inodes F} (can_allocate : Z -> bool).
Context (v : VFS) (p : Caller) (fs : F) (options : Z).

(** A resolution answers with what it left in [out_parent], and a custody or an
    error. *)
Abbreviation answer := (res (option Custody * (errno + Custody))).

(** resolve_path, for a way to resolve without the veil. *)
Definition resolve_with (resolve : string -> Custody -> option Custody -> answer)
    (path : string) (base : Custody) (out : option Custody) : answer :=
  let* (out, r) := resolve path base out in
  match r with
  | inl e => Ok (out, inl e)
  | inr custody =>
      match validate p (absolute_path custody) options with
      | Some e => Ok (out, inl e)
      | None => Ok (out, inr custody)
      end
  end.

(** Inode::resolve_as_link *)
Definition resolve_as_link (resolve : string -> Custody -> option Custody -> answer)
    (i : InodeIdentifier) (base : Custody) (out : option Custody) : answer :=
  let* contents := read_entire can_allocate fs i in
  match contents with
  | inl e => Ok (out, inl e)
  | inr bytes => resolve_with resolve (string_of_bytes bytes) base out
  end.

(** The loop over the parts of [path]; [resolve] is the recursive call, one level
    of symbolic links deeper. *)
Fixpoint walk (resolve : string -> Custody -> option Custody -> answer) (path : string)
    (parts : list View) (custody : Custody) (out : option Custody) : answer :=
  match parts with
  | [] => Ok (parent custody, inr custody)
  | part :: rest =>
      let* parent_metadata := metadata fs (inode custody) in
      if negb (Metadata.directory parent_metadata) then Ok (out, inl ENOTDIR)
      else if negb (may_execute parent_metadata p) then Ok (out, inl EACCES)
      else
        let have_more_parts := match rest with [] => false | _ => true end in
        let text := v_text part in
        if (text =? "..")%string then
          walk resolve path rest (match parent custody with Some q => q | None => custody end) out
        else if (text =? ".")%string || StringView.is_empty text then walk resolve path rest custody out
        else
          let* child := lookup fs (inode custody) text in
          match child with
          | None => Ok (if have_more_parts then None else Some custody, inl ENOENT)
          | Some child =>
              let '(child_inode, flags) :=
                match find_mount_for_host v child with
                | Some m => (m_guest m, m_flags m)
                | None => (child, mount_flags custody)
                end in
              let next := mkCustody (Some custody) text child_inode flags in
              let* child_metadata := metadata fs child_inode in
              if negb (Metadata.symlink child_metadata) then walk resolve path rest next out
              else if negb have_more_parts && has options O_NOFOLLOW then Ok (out, inl ELOOP)
              else if negb have_more_parts && has options O_NOFOLLOW_NOERROR then Ok (parent next, inr next)
              else if negb (safe_to_follow_symlink p child_metadata parent_metadata) then Ok (out, inl EACCES)
              else
                match validate p (absolute_path next) options with
                | Some e => Ok (out, inl e)
                | None =>
                    let* (out, symlink_target) := resolve_as_link resolve child_inode custody out in
                    match symlink_target with
                    | inl e => Ok (out, inl e)
                    | inr target =>
                        if negb have_more_parts then Ok (out, inr target)
                        else
                          let* remaining := substring_view_starting_after_substring path part in
                          resolve (String "." remaining) target out
                    end
                end
          end
  end.

(** [levels] is how many levels of symbolic links are left: the limit less
    symlink_recursion_level. *)
Fixpoint resolve_path_without_veil (levels : nat) (path : string) (base : Custody) (out : option Custody) : answer :=
  match levels with
  | O => Ok (out, inl ELOOP)
  | S levels =>
      if StringView.is_empty path then Ok (out, inl EINVAL)
      else
        walk (resolve_path_without_veil levels) path (split_view "/" true path)
          (if LexicalPath.first_is_slash path then root_directory p else base) out
  end.

Definition resolve_path : string -> Custody -> answer :=
  fun path base => resolve_with (resolve_path_without_veil symlink_recursion_limit) path base None.
End Resolve.

(** What opening a path leads to: an inode through its custody, a description that
    was open before, one end of a FIFO, or a device. *)
Inductive Opened :=
| OpenedInode (custody : Custody) (options : Z)
| OpenedBefore (description : Z)
| OpenedFifo (i : InodeIdentifier) (writer : bool) (options : Z)
| OpenedDevice (i : InodeIdentifier) (major minor : Z) (options : Z).

(** The while loop at the start of mkdir; the length of the path bounds its turns. *)
Fixpoint trim_trailing_slashes (turns : nat) (path : string) : string :=
  match turns with
  | O => path
  | S turns =>
      if (1 <? String.length path)%nat && ends_with_slash path
      then trim_trailing_slashes turns (substring 0 (String.length path - 1) path)
      else path
  end.

Section Operations.
Context {F : Type} `{Inodes F} (can_allocate : Z -> bool) (get_device : Z -> Z -> bool) (now : Z).
Context (v : VFS) (p : Caller).

Definition resolve (fs : F) (path : string) (base : Custody) (options : Z) : res (option Custody * (errno + Custody)) :=
  resolve_path can_allocate v p fs options path base.

Definition custody_readonly (fs : F) (c : Custody) : bool :=
  if has (mount_flags c) MS_RDONLY then true else is_readonly fs (fsid (inode c)).

(** An operation that fails without having done anything. *)
Definition fail {A} (fs : F) (e : errno) : res (F * (errno + A)) := Ok (fs, inl e).

(** The result of an inode's operation as that of the whole operation. *)
Definition finish (r : res (F * option errno)) : res (F * (errno + unit)) :=
  let* (fs, e) := r in Ok (fs, match e with None => inr tt | Some e => inl e end).

Definition utime (fs : F) (path : string) (base : Custody) (atime mtime : Z) : res (F * (errno + unit)) :=
  let* (_, r) := resolve fs path base 0 in
  match r with
  | inl e => fail fs e
  | inr custody =>
      let* md := metadata fs (inode custody) in
      if negb (is_superuser p) && negb (Metadata.uid md =? euid p) then fail fs EACCES
      else if custody_readonly fs custody then fail fs EROFS
      else
        let* (fs, e) := set_atime fs (inode custody) atime in
        match e with
        | Some e => fail fs e
        | None => finish (set_mtime fs (inode custody) mtime)
        end
  end.

Definition lookup_metadata (fs : F) (path : string) (base : Custody) (options : Z) : res (errno + Metadata.Metadata) :=
  let* (_, r) := resolve fs path base options in
  match r with
  | inl e => Ok (inl e)
  | inr custody => let* md := metadata fs (inode custody) in Ok (inr md)
  end.

Definition create (fs : F) (path : string) (options mode : Z) (parent_custody : Custody) (owner : option (Z * Z))
    : res (F * (errno + Opened)) :=
  let base := LexicalPath.basename path in
  match validate p (absolute_path parent_custody ++ "/" ++ base)%string options with
  | Some e => fail fs e
  | None =>
      let mode := if negb (Metadata.is_socket mode) && negb (Metadata.is_fifo mode) &&
                     negb (Metadata.is_block_device mode) && negb (Metadata.is_character_device mode)
                  then Z.lor mode Metadata.S_IFREG else mode in
      let* md := metadata fs (inode parent_custody) in
      if negb (may_write md p) then fail fs EACCES
      else if custody_readonly fs parent_custody then fail fs EROFS
      else
        let uid := match owner with Some (u, _) => u | None => euid p end in
        let gid := match owner with Some (_, g) => g | None => egid p end in
        let* (fs, r) := create_child fs now (inode parent_custody) base mode 0 uid gid in
        match r with
        | inl e => fail fs e
        | inr i => Ok (fs, inr (OpenedInode (mkCustody (Some parent_custody) base i (mount_flags parent_custody)) options))
        end
  end.

(** The part of open after the path was resolved. *)
Definition open_custody (fs : F) (options : Z) (custody : Custody) : res (F * (errno + Opened)) :=
  let i := inode custody in
  let* md := metadata fs i in
  let mode := Metadata.mode md in
  if has options O_DIRECTORY && negb (Metadata.directory md) then fail fs ENOTDIR
  else if has options O_RDONLY && negb (may_read md p) then fail fs EACCES
  else if has options O_WRONLY && negb (may_write md p) then fail fs EACCES
  else if has options O_WRONLY && Metadata.directory md then fail fs EISDIR
  else if has options O_EXEC && (negb (may_execute md p) || has (mount_flags custody) MS_NOEXEC) then fail fs EACCES
  else
    match preopen_fd fs i with
    | Some description => Ok (fs, inr (OpenedBefore description))
    | None =>
        if Metadata.is_fifo mode then
          if has options O_WRONLY then Ok (fs, inr (OpenedFifo i true options))
          else if has options O_RDONLY then Ok (fs, inr (OpenedFifo i false options))
          else fail fs EINVAL
        else if Metadata.device md then
          if has (mount_flags custody) MS_NODEV then fail fs EACCES
          else if negb (get_device (Metadata.major_device md) (Metadata.minor_device md)) then fail fs ENODEV
          else Ok (fs, inr (OpenedDevice i (Metadata.major_device md) (Metadata.minor_device md) options))
        else if has options O_WRONLY && custody_readonly fs custody then fail fs EROFS
        else if has options O_WRONLY && has options O_TRUNC then
          let* (fs, e) := truncate fs i 0 in
          match e with
          | Some e => fail fs e
          | None => let* (fs, _) := set_mtime fs i now in Ok (fs, inr (OpenedInode custody options))
          end
        else Ok (fs, inr (OpenedInode custody options))
    end.

Definition open (fs : F) (path : string) (options mode : Z) (base : Custody) (owner : option (Z * Z))
    : res (F * (errno + Opened)) :=
  if has options O_CREAT && has options O_DIRECTORY then fail fs EINVAL
  else
    let* (parent_custody, r) := resolve fs path base options in
    if has options O_CREAT then
      match parent_custody with
      | None => fail fs ENOENT
      | Some parent_custody =>
          match r with
          | inl ENOENT => create fs path options mode parent_custody owner
          | inl e => fail fs e
          | inr custody => if has options O_EXCL then fail fs EEXIST else open_custody fs options custody
          end
      end
    else
      match r with
      | inl e => fail fs e
      | inr custody => open_custody fs options custody
      end.

(** The common start of mknod, mkdir and symlink: the path must not exist, and its
    parent is the directory to create it in. *)
Definition missing (fs : F) (path : string) (base : Custody) : res (errno + Custody) :=
  let* (parent_custody, r) := resolve fs path base 0 in
  match r with
  | inr _ => Ok (inl EEXIST)
  | inl e =>
      match parent_custody with
      | None => Ok (inl ENOENT)
      | Some parent_custody => if decide (e = ENOENT) then Ok (inr parent_custody) else Ok (inl e)
      end
  end.

(** The checks on the directory that follow it in all three. *)
Definition may_create_in (fs : F) (parent_custody : Custody) : res (option errno) :=
  let* md := metadata fs (inode parent_custody) in
  Ok (if negb (may_write md p) then Some EACCES
      else if custody_readonly fs parent_custody then Some EROFS else None).

Definition create_missing (fs : F) (path : string) (base : Custody) (mode dev : Z)
    : res (F * (errno + InodeIdentifier)) :=
  let* r := missing fs path base in
  match r with
  | inl e => fail fs e
  | inr parent_custody =>
      let* e := may_create_in fs parent_custody in
      match e with
      | Some e => fail fs e
      | None => create_child fs now (inode parent_custody) (LexicalPath.basename path) mode dev (euid p) (egid p)
      end
  end.

Definition drop_value {A} (r : res (F * (errno + A))) : res (F * (errno + unit)) :=
  let* (fs, x) := r in Ok (fs, match x with inl e => inl e | inr _ => inr tt end).

Definition mknod (fs : F) (path : string) (mode dev : Z) (base : Custody) : res (F * (errno + unit)) :=
  if negb (Metadata.is_regular_file mode) && negb (Metadata.is_block_device mode) &&
     negb (Metadata.is_character_device mode) && negb (Metadata.is_fifo mode) && negb (Metadata.is_socket mode)
  then fail fs EINVAL
  else drop_value (create_missing fs path base mode dev).

Definition mkdir (fs : F) (path : string) (mode : Z) (base : Custody) : res (F * (errno + unit)) :=
  let path := trim_trailing_slashes (String.length path) path in
  drop_value (create_missing fs path base (Z.lor Metadata.S_IFDIR mode) 0).

Definition symlink (fs : F) (target linkpath : string) (base : Custody) : res (F * (errno + unit)) :=
  let* (fs, r) := create_missing fs linkpath base (Z.lor Metadata.S_IFLNK 0x1A4) 0 in
  match r with
  | inl e => fail fs e
  | inr i => drop_value (write_bytes fs i 0 (bytes_of_string target))
  end.

Definition access (fs : F) (path : string) (mode : Z) (base : Custody) : res (errno + unit) :=
  let* (_, r) := resolve fs path base 0 in
  match r with
  | inl e => Ok (inl e)
  | inr custody =>
      let* md := metadata fs (inode custody) in
      Ok (if has mode 4 && negb (may_read md p) then inl EACCES
          else if has mode 2 && negb (may_write md p) then inl EACCES
          else if has mode 2 && custody_readonly fs custody then inl EROFS
          else if has mode 1 && negb (may_execute md p) then inl EACCES
          else inr tt)
  end.

Definition open_directory (fs : F) (path : string) (base : Custody) : res (errno + Custody) :=
  let* (_, r) := resolve fs path base 0 in
  match r with
  | inl e => Ok (inl e)
  | inr custody =>
      let* md := metadata fs (inode custody) in
      Ok (if negb (Metadata.directory md) then inl ENOTDIR
          else if negb (may_execute md p) then inl EACCES
          else inr custody)
  end.

Definition chmod_custody (fs : F) (custody : Custody) (mode : Z) : res (F * (errno + unit)) :=
  let* md := metadata fs (inode custody) in
  if negb (euid p =? Metadata.uid md) && negb (is_superuser p) then fail fs EPERM
  else if custody_readonly fs custody then fail fs EROFS
  else finish (Inode.chmod fs (inode custody) (Z.lor (Z.land (Metadata.mode md) (Z.lnot 0xFFF)) (Z.land mode 0xFFF))).

Definition chmod (fs : F) (path : string) (mode : Z) (base : Custody) : res (F * (errno + unit)) :=
  let* (_, r) := resolve fs path base 0 in
  match r with
  | inl e => fail fs e
  | inr custody => chmod_custody fs custody mode
  end.

Definition chown_custody (fs : F) (custody : Custody) (a_uid a_gid : Z) : res (F * (errno + unit)) :=
  let i := inode custody in
  let* md := metadata fs i in
  if negb (euid p =? Metadata.uid md) && negb (is_superuser p) then fail fs EPERM
  else if negb (a_uid =? wrap U32 (-1)) && negb (euid p =? a_uid) && negb (is_superuser p) then fail fs EPERM
  else if negb (a_gid =? wrap U32 (-1)) && negb (in_group p a_gid) && negb (is_superuser p) then fail fs EPERM
  else
    let new_uid := if a_uid =? wrap U32 (-1) then Metadata.uid md else a_uid in
    let new_gid := if a_gid =? wrap U32 (-1) then Metadata.gid md else a_gid in
    if custody_readonly fs custody then fail fs EROFS
    else
      let* (fs, e) :=
        if Metadata.is_setuid (Metadata.mode md) || Metadata.is_setgid (Metadata.mode md)
        then Inode.chmod fs i (Z.land (Metadata.mode md) (Z.lnot 0xC00)) else Ok (fs, None) in
      match e with
      | Some e => fail fs e
      | None => finish (Inode.chown fs i new_uid new_gid)
      end.

Definition chown (fs : F) (path : string) (a_uid a_gid : Z) (base : Custody) : res (F * (errno + unit)) :=
  let* (_, r) := resolve fs path base 0 in
  match r with
  | inl e => fail fs e
  | inr custody => chown_custody fs custody a_uid a_gid
  end.

(** The rule of a sticky directory: only the owner of an entry may take it away. *)
Definition sticky_refuses (directory child : Metadata.Metadata) : bool :=
  Metadata.is_sticky (Metadata.mode directory) && negb (is_superuser p) && negb (Metadata.uid child =? euid p).

Definition rename (fs : F) (old_path new_path : string) (base : Custody) : res (F * (errno + unit)) :=
  let* (old_parent_custody, old) := resolve fs old_path base O_NOFOLLOW_NOERROR in
  match old with
  | inl e => fail fs e
  | inr old_custody =>
      let old_inode := inode old_custody in
      let* (new_parent_custody, new) := resolve fs new_path base 0 in
      match (match new with
             | inl e => if decide (e <> ENOENT \/ new_parent_custody = None) then Some e else None
             | inr _ => None
             end) with
      | Some e => fail fs e
      | None =>
          let* old_parent_custody := of_opt VerifyFailed old_parent_custody in
          let* new_parent_custody := of_opt VerifyFailed new_parent_custody in
          let old_parent := inode old_parent_custody in
          let new_parent := inode new_parent_custody in
          if negb (fsid old_parent =? fsid new_parent) then fail fs EXDEV
          else if bool_decide (old_inode ∈ inode <$> chain new_parent_custody) then fail fs EDIRINTOSELF
          else
            let* new_parent_md := metadata fs new_parent in
            let* old_parent_md := metadata fs old_parent in
            let* old_md := metadata fs old_inode in
            if negb (may_write new_parent_md p) then fail fs EACCES
            else if negb (may_write old_parent_md p) then fail fs EACCES
            else if sticky_refuses old_parent_md old_md then fail fs EACCES
            else if custody_readonly fs old_parent_custody || custody_readonly fs new_parent_custody then fail fs EROFS
            else
              let new_basename := LexicalPath.basename new_path in
              let move_ (fs : F) : res (F * (errno + unit)) :=
                let* (fs, e) := add_child fs new_parent old_inode new_basename in
                match e with
                | Some e => fail fs e
                | None => finish (remove_child fs old_parent (LexicalPath.basename old_path))
                end in
              match new with
              | inl _ => move_ fs
              | inr new_custody =>
                  let new_inode := inode new_custody in
                  if decide (new_inode = old_inode) then Ok (fs, inr tt)
                  else
                    let* new_md := metadata fs new_inode in
                    if sticky_refuses new_parent_md new_md then fail fs EACCES
                    else if Metadata.directory new_md && negb (Metadata.directory old_md) then fail fs EISDIR
                    else
                      let* (fs, e) := remove_child fs new_parent new_basename in
                      match e with
                      | Some e => fail fs e
                      | None => move_ fs
                      end
              end
      end
  end.

Definition hard_link_allowed (md : Metadata.Metadata) : bool :=
  let mode := Metadata.mode md in
  (euid p =? Metadata.uid md) ||
  (Metadata.is_regular_file mode && negb (Metadata.is_setuid mode) &&
   negb (Metadata.is_setgid mode && has mode InodeMetadata.S_IXGRP) && may_write md p).

Definition link (fs : F) (old_path new_path : string) (base : Custody) : res (F * (errno + unit)) :=
  let* (_, old) := resolve fs old_path base 0 in
  match old with
  | inl e => fail fs e
  | inr old_custody =>
      let old_inode := inode old_custody in
      let* (parent_custody, new) := resolve fs new_path base 0 in
      match new with
      | inr _ => fail fs EEXIST
      | inl _ =>
          match parent_custody with
          | None => fail fs ENOENT
          | Some parent_custody =>
              let d := inode parent_custody in
              if negb (fsid d =? fsid old_inode) then fail fs EXDEV
              else
                let* parent_md := metadata fs d in
                let* old_md := metadata fs old_inode in
                if negb (may_write parent_md p) then fail fs EACCES
                else if Metadata.directory old_md then fail fs EPERM
                else if custody_readonly fs parent_custody then fail fs EROFS
                else if negb (hard_link_allowed old_md) then fail fs EPERM
                else finish (add_child fs d old_inode (LexicalPath.basename new_path))
          end
      end
  end.

Definition unlink (fs : F) (path : string) (base : Custody) : res (F * (errno + unit)) :=
  let* (parent_custody, r) := resolve fs path base (Z.lor O_NOFOLLOW_NOERROR O_UNLINK_INTERNAL) in
  match r with
  | inl e => fail fs e
  | inr custody =>
      let* md := metadata fs (inode custody) in
      if Metadata.directory md then fail fs EISDIR
      else
        let* parent_custody := of_opt VerifyFailed parent_custody in
        let d := inode parent_custody in
        let* parent_md := metadata fs d in
        if negb (may_write parent_md p) then fail fs EACCES
        else if sticky_refuses parent_md md then fail fs EACCES
        else if custody_readonly fs parent_custody then fail fs EROFS
        else finish (remove_child fs d (LexicalPath.basename path))
  end.

Definition rmdir (fs : F) (path : string) (base : Custody) : res (F * (errno + unit)) :=
  let* (parent_custody, r) := resolve fs path base 0 in
  match r with
  | inl e => fail fs e
  | inr custody =>
      let i := inode custody in
      let* md := metadata fs i in
      if negb (Metadata.directory md) then fail fs ENOTDIR
      else
        match parent_custody with
        | None => fail fs EBUSY
        | Some parent_custody =>
            let d := inode parent_custody in
            let* parent_md := metadata fs d in
            if negb (may_write parent_md p) then fail fs EACCES
            else if sticky_refuses parent_md md then fail fs EACCES
            else
              let* count := directory_entry_count fs i in
              if negb (count =? 2) then fail fs ENOTEMPTY
              else if custody_readonly fs custody then fail fs EROFS
              else
                let* (fs, e) := remove_child fs i "." in
                match e with
                | Some e => fail fs e
                | None =>
                    let* (fs, e) := remove_child fs i ".." in
                    match e with
                    | Some e => fail fs e
                    | None => finish (remove_child fs d (LexicalPath.basename path))
                    end
                end
        end
  end.

(** VFS::traverse_directory_inode: the entries with what is mounted on them. *)
Definition traverse_directory_inode (fs : F) (d : InodeIdentifier) : res (errno + list (string * InodeIdentifier)) :=
  let* r := traverse_as_directory fs d in
  match r with
  | inl e => Ok (inl e)
  | inr entries =>
      let* root := of_opt VerifyFailed (root_inode fs (fsid d)) in
      let* vfs_root := of_opt VerifyFailed (m_root_inode v) in
      let* parent_of_root :=
        if bool_decide (d = root) && negb (bool_decide (d = vfs_root)) then
          let* mount := of_opt VerifyFailed (find_mount_for_guest v d) in
          let* h := of_opt VerifyFailed (host mount) in Ok (Some h)
        else Ok None in
      Ok (inr ((fun '(name, i) =>
        let resolved := match find_mount_for_host v i with Some m => m_guest m | None => i end in
        match parent_of_root with
        | Some h => if (name =? "..")%string then (name, h) else (name, resolved)
        | None => (name, resolved)
        end) <$> entries))
  end.
End Operations.

(** ** Mounting *)

Definition mount (v : VFS) (guest_root : InodeIdentifier) (mount_point : Custody) (flags : Z) : VFS :=
  mkVFS (m_root_inode v) (m_mounts v ++ [mkMount guest_root (Some mount_point) flags]).

Definition bind_mount (v : VFS) (source mount_point : Custody) (flags : Z) : VFS :=
  mkVFS (m_root_inode v) (m_mounts v ++ [mkMount (inode source) (Some mount_point) flags]).

(** Changes the first mount with the guest. *)
Fixpoint set_flags_of (l : list Mount) (guest : InodeIdentifier) (flags : Z) : option (list Mount) :=
  match l with
  | [] => None
  | m :: l =>
      if bool_decide (m_guest m = guest) then Some (mkMount (m_guest m) (m_host_custody m) flags :: l)
      else (m ::.) <$> set_flags_of l guest flags
  end.

Definition remount (v : VFS) (mount_point : Custody) (new_flags : Z) : VFS * option errno :=
  match set_flags_of (m_mounts v) (inode mount_point) new_flags with
  | None => (v, Some ENODEV)
  | Some l => (mkVFS (m_root_inode v) l, None)
  end.

(** Vector::unstable_take: the last element takes the place of the one at [i]. *)
Definition unstable_take (l : list Mount) (i : nat) : list Mount :=
  match last l with
  | None => l
  | Some m => removelast (<[i := m]> l)
  end.

(** [busy] is the answer of prepare_to_unmount of the guest's file system. *)
Fixpoint index_of_guest (l : list Mount) (guest : InodeIdentifier) (i : nat) : option nat :=
  match l with
  | [] => None
  | m :: l => if bool_decide (m_guest m = guest) then Some i else index_of_guest l guest (S i)
  end.

Definition unmount (v : VFS) (busy : option errno) (guest : InodeIdentifier) : VFS * option errno :=
  match index_of_guest (m_mounts v) guest 0 with
  | None => (v, Some ENODEV)
  | Some i =>
      match busy with
      | Some e => (v, Some e)
      | None => (mkVFS (m_root_inode v) (unstable_take (m_mounts v) i), None)
      end
  end.

Definition mount_root {F} `{Inodes F} (fs : F) (v : VFS) (f : Z) : res (VFS * bool) :=
  match m_root_inode v with
  | Some _ => Ok (v, false)
  | None =>
      let* root := of_opt VerifyFailed (root_inode fs f) in
      let* md := metadata fs root in
      if negb (Metadata.directory md) then Ok (v, false)
      else Ok (mkVFS (Some root) (m_mounts v ++ [mkMount root None root_mount_flags]), true)
  end.

(** ** sys$unveil *)

(** A string argument of a system call: a null pointer, memory that cannot be read,
    or text; with the length that is passed. *)
Inductive UserString :=
| NullString
| BadString (length : Z)
| UserText (s : string).

Definition user_length (s : UserString) : Z :=
  match s with NullString => 0 | BadString n => n | UserText s => Z.of_nat (String.length s) end.

Definition is_null (s : UserString) : bool := match s with NullString => true | _ => false end.

Section SysUnveil.
Context {F : Type} `{Inodes F} (can_allocate : Z -> bool) (PATH_MAX : Z).

Definition get_syscall_path_argument (s : UserString) : errno + string :=
  if user_length s =? 0 then inl EINVAL
  else if PATH_MAX <? user_length s then inl ENAMETOOLONG
  else match s with UserText s => inr s | _ => inl EFAULT end.

Definition with_veil (p : Caller) (state : VeilState) (t : UnveilNode) : Caller :=
  mkCaller (c_process p) (root_directory p) state t.

Definition sys_unveil (v : VFS) (fs : F) (p : Caller) (path permissions : UserString) : res (Caller * option errno) :=
  if is_null path && is_null permissions then Ok (with_veil p Locked (unveiled_paths p), None)
  else if decide (veil_state p = Locked) then Ok (p, Some EPERM)
  else if is_null path || is_null permissions then Ok (p, Some EINVAL)
  else if 5 <? user_length permissions then Ok (p, Some EINVAL)
  else
    match get_syscall_path_argument path with
    | inl e => Ok (p, Some e)
    | inr path =>
        if StringView.is_empty path || negb (LexicalPath.first_is_slash path) then Ok (p, Some EINVAL)
        else
          match permissions with
          | NullString | BadString _ => Ok (p, Some EFAULT)
          | UserText letters =>
              match parse_permissions letters 0 with
              | None => Ok (p, Some EINVAL)
              | Some new_permissions =>
                  let* (parent_custody, r) :=
                    resolve_path_without_veil can_allocate v p fs 0 symlink_recursion_limit path (root_directory p) None in
                  let new_unveiled_path :=
                    match r with
                    | inr custody => inr (absolute_path custody)
                    | inl e =>
                        match parent_custody with
                        | Some parent_custody =>
                            if bool_decide (e = ENOENT) && has new_permissions CreateOrRemove
                            then inr (absolute_path parent_custody ++ "/" ++ LexicalPath.basename path)%string
                            else inl e
                        | None => inl e
                        end
                    end in
                  match new_unveiled_path with
                  | inl e => Ok (p, Some e)
                  | inr new_unveiled_path =>
                      let '(t, state, e) := unveil_path (unveiled_paths p) (veil_state p) new_unveiled_path new_permissions in
                      Ok (with_veil p state t, e)
                  end
              end
          end
    end.
End SysUnveil.

End VFS.
