(* ===== verification/VfsFacts.v ===== *)
(** * What resolving a path gives

    [resolve_sound] is the induction over a resolution, for any property of
    custodies that the root directory and the base have, and that a step to the
    parent or to an entry of a directory keeps; [resolve_total] says that a
    resolution always answers. *)
From Stdlib Require Import Ascii.
From S2P Require Import Prelude KBuffer Credentials Mmap Paths FileSystem Unveil Vfs.
Import Custody Inode VFS Unveil StringView Errno Slice.

Module VfsFacts.

Lemma custody_ind (P : Custody -> Prop) :
  (forall name i f, P (mkCustody None name i f)) ->
  (forall q name i f, P q -> P (mkCustody (Some q) name i f)) -> forall c, P c.
Proof.
  intros H0 H1. fix IH 1. intros [[q|] name i f]; [apply H1, IH|apply H0].
Qed.

Section Facts.
Context {F : Type} {I : Inodes F} {IL : InodeLaws F}.

(** The inode of a custody is a directory. *)
Definition directory_at (fs : F) (i : InodeIdentifier) : Prop :=
  exists n, view fs i = Some n /\ node_directory n = true.

Lemma metadata_Ok fs i n : view fs i = Some n -> metadata fs i = Ok (n_metadata n).
Proof using IL. intros H. apply metadata_view. by exists n. Qed.

(** The inode an entry leads to, with the flags of the mount. *)
Definition mounted (v : VFS) (child : InodeIdentifier) (flags : Z) : InodeIdentifier * Z :=
  match find_mount_for_host v child with
  | Some m => (m_guest m, m_flags m)
  | None => (child, flags)
  end.

(** ** Reading a link *)

Lemma peek_short l a n : (length (peek l a n) <= Z.to_nat n)%nat.
Proof using Type. unfold peek. rewrite length_take. lia. Qed.

Lemma read_loop_ok fs i n turns offset builder : wf fs -> view fs i = Some n -> node_directory n = false ->
  0 <= offset <= Z.of_nat (length (n_content n)) -> Z.of_nat (length (n_content n)) - offset < 4096 * Z.of_nat turns ->
  exists r, read_loop (F := F) turns fs i offset builder = Ok r.
Proof using IL.
  intros Hw Hv Hd. revert offset builder. induction turns as [|turns IH]; intros offset builder Ho Hl; [lia|].
  cbn [read_loop]. rewrite (read_bytes_view fs i n) by (done || lia). cbn [res_bind].
  pose proof (peek_short (n_content n) offset 4096) as Hp. set (bytes := peek _ _ _) in *.
  rewrite (proj2 (Z.leb_le _ 4096)) by lia. cbn [verify res_bind].
  destruct (Z.leb_spec (Z.of_nat (length bytes)) 0) as [H0|H0]; cbn [orb]; [by eexists|].
  destruct (Z.ltb_spec (Z.of_nat (length bytes)) 4096) as [H1|H1]; [by eexists|].
  apply IH; [|lia]. unfold bytes, peek in H1. rewrite length_take, length_drop in H1. lia.
Qed.

Lemma read_entire_ok can_allocate fs i n : wf fs -> view fs i = Some n -> node_directory n = false ->
  exists r, read_entire can_allocate fs i = Ok r.
Proof using IL.
  intros Hw Hv Hd. unfold read_entire. rewrite (metadata_Ok fs i n Hv). cbn [res_bind].
  apply (read_loop_ok fs i n); [done..|lia|]. rewrite (sizes_wf fs i n Hw Hv). Z.to_euclidean_division_equations. lia.
Qed.

Lemma symlink_not_directory md : Metadata.symlink md = true -> Metadata.directory md = false.
Proof using Type.
  unfold Metadata.symlink, Metadata.directory, Metadata.is_symlink, Metadata.is_directory, Metadata.is_type.
  intros ->%Z.eqb_eq. reflexivity.
Qed.

(** ** Resolving *)

Section Resolving.
Context (can_allocate : Z -> bool) (v : VFS) (p : Caller) (fs : F) (options : Z) (Hwf : wf fs).
Context (P Q : Custody -> Prop).
Context (Hroot : P (root_directory p)).
Context (Hparent : forall c q, P c -> parent c = Some q -> P q).
(** The step the walk may take from [c] to [i]. *)
Definition leads c text i flags : Prop :=
  exists n child, view fs (inode c) = Some n /\ node_directory n = true /\ may_execute (n_metadata n) p = true /\
    PathFacts.plain text = true /\ n_children n !! text = Some child /\ mounted v child (mount_flags c) = (i, flags).

Context (Hchild : forall c text i flags, P c -> leads c text i flags ->
  (forall m, view fs i = Some m -> Metadata.symlink (n_metadata m) = true -> has options O_NOFOLLOW_NOERROR = true) ->
  P (mkCustody (Some c) text i flags)).
Context (Hdir : forall c, P c -> directory_at fs (inode c) -> Q c).
Context (Hup : forall c q, P c -> parent c = Some q -> Q q).

Definition sound (out : option Custody) (r : errno + Custody) : Prop :=
  (forall q, out = Some q -> Q q) /\ (forall c, r = inr c -> P c /\ out = parent c).

(** What is assumed of the recursive call. *)
Definition sound_call (resolve : string -> Custody -> option Custody -> res (option Custody * (errno + Custody))) : Prop :=
  forall path base out out' r, P base -> (forall q, out = Some q -> Q q) ->
    resolve path base out = Ok (out', r) -> sound out' r.

Lemma sound_error (out : option Custody) e : (forall q, out = Some q -> Q q) -> sound out (inl e).
Proof using Type. intros H. by split. Qed.

Lemma sound_custody c : P c -> sound (parent c) (inr c).
Proof using Hup. intros H. split; [intros q Hq; by apply (Hup c)|by intros ? [= <-]]. Qed.

Lemma resolve_with_sound resolve : sound_call resolve -> sound_call (resolve_with p options resolve).
Proof using Type.
  intros Hr path base out out' r Hb Ho. unfold resolve_with.
  intros ([o x] & Hx & H)%res_bind_Ok. destruct (Hr _ _ _ _ _ Hb Ho Hx) as [H1 H2].
  destruct x as [e|c]; [injection H as <- <-; by apply sound_error|].
  destruct (validate p (absolute_path c) options); injection H as <- <-; [by apply sound_error|by split].
Qed.

Lemma resolve_as_link_sound resolve i base out out' r : sound_call resolve -> P base -> (forall q, out = Some q -> Q q) ->
  resolve_as_link can_allocate p fs options resolve i base out = Ok (out', r) -> sound out' r.
Proof using Type.
  intros Hr Hb Ho. unfold resolve_as_link. intros (x & _ & H)%res_bind_Ok. destruct x as [e|bytes].
  - injection H as <- <-. by apply sound_error.
  - by apply (resolve_with_sound _ Hr) in H.
Qed.

Lemma walk_sound resolve path parts custody out out' r : sound_call resolve ->
  (forall part, part ∈ parts -> contains (v_text part) "/"%char = false) -> P custody -> (forall q, out = Some q -> Q q) ->
  walk can_allocate v p fs options resolve path parts custody out = Ok (out', r) -> sound out' r.
Proof using Hchild Hdir Hparent Hup Hwf IL.
  intros Hr. revert custody. induction parts as [|part rest IH]; intros custody Hs Hc Ho; cbn [walk].
  { intros [= <- <-]. by apply sound_custody. }
  assert (forall x, x ∈ rest -> contains (v_text x) "/"%char = false) as Hs' by (intros x Hx; apply Hs; by apply elem_of_cons; right).
  intros (md & (n & Hn & <-)%metadata_view & H)%res_bind_Ok.
  destruct (Metadata.directory (n_metadata n)) eqn:Ed; cbn [negb] in H; [|injection H as <- <-; by apply sound_error].
  destruct (may_execute _ _) eqn:Ex; cbn [negb] in H; [|injection H as <- <-; by apply sound_error].
  destruct (v_text part =? "..")%string eqn:E1.
  { apply IH in H; [done..| |done]. destruct (parent custody) as [q|] eqn:Eq; [by apply (Hparent custody)|done]. }
  destruct (v_text part =? ".")%string eqn:E2; [by apply IH in H|].
  destruct (is_empty (v_text part)) eqn:E3; [by apply IH in H|]. cbn [orb] in H.
  assert (PathFacts.plain (v_text part) = true) as Hplain.
  { apply PathFacts.plain_spec. split_and!; try done. apply Hs. by apply elem_of_cons; left. }
  apply res_bind_Ok in H as (child & Hl & H).
  rewrite (lookup_view fs (inode custody) n) in Hl by (done || (unfold dots; by rewrite E2, E1)). injection Hl as <-.
  destruct (n_children n !! v_text part) as [child|] eqn:Ech.
  2:{ injection H as <- <-. apply sound_error. destruct rest; [|done]. intros q [= <-]. apply Hdir; [done|by exists n]. }
  fold (mounted v child (mount_flags custody)) in H. destruct (mounted v child (mount_flags custody)) as [i flags] eqn:Em.
  assert (leads custody (v_text part) i flags) as Hl by (by exists n, child).
  set (next := mkCustody (Some custody) (v_text part) i flags) in *.
  apply res_bind_Ok in H as (cmd & (m & Hm & <-)%metadata_view & H).
  destruct (Metadata.symlink (n_metadata m)) eqn:El; cbn [negb] in H.
  2:{ apply IH in H; [done..| |done]. apply Hchild; [done..|]. intros m' Hm'. rewrite Hm in Hm'. injection Hm' as <-. congruence. }
  destruct (negb _ && has options O_NOFOLLOW); [injection H as <- <-; by apply sound_error|].
  destruct (negb _ && has options O_NOFOLLOW_NOERROR) eqn:Enf.
  { apply andb_true_iff in Enf as [_ Enf]. injection H as <- <-. apply (sound_custody next). by apply Hchild. }
  destruct (negb (safe_to_follow_symlink _ _ _)); [injection H as <- <-; by apply sound_error|].
  destruct (validate p (absolute_path next) options); [injection H as <- <-; by apply sound_error|].
  apply res_bind_Ok in H as ([o t] & Hlink & H). apply (resolve_as_link_sound _ _ _ _ _ _ Hr Hc Ho) in Hlink as [Ho' Ht].
  destruct t as [e|target]; [injection H as <- <-; by apply sound_error|]. destruct (Ht target eq_refl) as [Hpt _].
  destruct (negb _); [injection H as <- <-; by split|]. apply res_bind_Ok in H as (rem & _ & H). by apply Hr in H.
Qed.

Lemma without_veil_sound levels : sound_call (resolve_path_without_veil can_allocate v p fs options levels).
Proof using Hchild Hdir Hparent Hroot Hup Hwf IL.
  induction levels as [|levels IH]; intros path base out out' r Hb Ho; cbn [resolve_path_without_veil].
  - intros [= <- <-]. by apply sound_error.
  - destruct (is_empty path); [intros [= <- <-]; by apply sound_error|].
    apply walk_sound; [done| |by destruct (LexicalPath.first_is_slash path)|done].
    intros part Hp. by apply PathFacts.split_view_inside in Hp as [_ ?].
Qed.

(** The resolution of a path: the parent it leaves has [Q], the custody has [P]. *)
Lemma resolve_sound path base out r : P base -> resolve_path can_allocate v p fs options path base = Ok (out, r) -> sound out r.
Proof using Hchild Hdir Hparent Hroot Hup Hwf IL.
  intros Hb. apply (resolve_with_sound _ (without_veil_sound _)); done.
Qed.

(** ** Every resolution answers *)
Context (Hvalid : forall c, P c -> is_Some (view fs (inode c))).
Context (Hthere : forall c text i flags, P c -> leads c text i flags -> is_Some (view fs i)).

Definition total_call (resolve : string -> Custody -> option Custody -> res (option Custody * (errno + Custody))) : Prop :=
  forall path base out, P base -> exists out' r, resolve path base out = Ok (out', r) /\ forall c, r = inr c -> P c.

Lemma resolve_with_total resolve : total_call resolve -> total_call (resolve_with p options resolve).
Proof using Type.
  intros Hr path base out Hb. unfold resolve_with. destruct (Hr path base out Hb) as (o & x & -> & Hx). cbn [res_bind].
  destruct x as [e|c]; [by eexists _, _|]. destruct (validate p (absolute_path c) options); eexists _, _; split; try done; naive_solver.
Qed.

Lemma walk_total resolve path parts custody out pre : total_call resolve ->
  split_view "/" true path = pre ++ parts -> P custody ->
  exists out' r, walk can_allocate v p fs options resolve path parts custody out = Ok (out', r) /\ forall c, r = inr c -> P c.
Proof using Hchild Hparent Hthere Hvalid Hwf IL.
  intros Hr. revert custody pre. induction parts as [|part rest IH]; intros custody pre Hs Hc; cbn [walk].
  { eexists _, _. split; [done|]. by intros c [= <-]. }
  assert (part ∈ split_view "/" true path) as Hin by (rewrite Hs; apply elem_of_app; right; by apply elem_of_cons; left).
  assert (split_view "/" true path = (pre ++ [part]) ++ rest) as Hs' by (by rewrite <- app_assoc).
  destruct (Hvalid custody Hc) as [n Hn]. rewrite (metadata_Ok _ _ _ Hn). cbn [res_bind].
  destruct (Metadata.directory (n_metadata n)) eqn:Ed; cbn [negb]; [|by eexists _, _].
  destruct (may_execute _ _) eqn:Ex; cbn [negb]; [|by eexists _, _].
  destruct (v_text part =? "..")%string eqn:E1.
  { apply (IH _ _ Hs'). destruct (parent custody) as [q|] eqn:Eq; [by apply (Hparent custody)|done]. }
  destruct (v_text part =? ".")%string eqn:E2; [by apply (IH _ _ Hs')|].
  destruct (is_empty (v_text part)) eqn:E3; [by apply (IH _ _ Hs')|]. cbn [orb].
  assert (PathFacts.plain (v_text part) = true) as Hplain.
  { apply PathFacts.plain_spec. split_and!; try done. by apply PathFacts.split_view_inside in Hin as [_ ?]. }
  rewrite (lookup_view fs (inode custody) n) by (done || (unfold dots; by rewrite E2, E1)). cbn [res_bind].
  destruct (n_children n !! v_text part) as [child|] eqn:Ech; [|by eexists _, _].
  fold (mounted v child (mount_flags custody)). destruct (mounted v child (mount_flags custody)) as [i flags] eqn:Em.
  assert (leads custody (v_text part) i flags) as Hl by (by exists n, child).
  destruct (Hthere _ _ _ _ Hc Hl) as [m Hm]. rewrite (metadata_Ok _ _ _ Hm). cbn [res_bind].
  destruct (Metadata.symlink (n_metadata m)) eqn:El; cbn [negb].
  2:{ apply (IH _ _ Hs'). apply Hchild; [done..|]. intros m' Hm'. rewrite Hm in Hm'. injection Hm' as <-. congruence. }
  destruct (negb _ && has options O_NOFOLLOW); [by eexists _, _|].
  destruct (negb _ && has options O_NOFOLLOW_NOERROR) eqn:Enf.
  { apply andb_true_iff in Enf as [_ Enf]. eexists _, _. split; [done|]. intros c [= <-]. by apply Hchild. }
  destruct (negb (safe_to_follow_symlink _ _ _)); [by eexists _, _|].
  destruct (validate p _ options); [by eexists _, _|]. unfold resolve_as_link.
  destruct (read_entire_ok can_allocate fs i m Hwf Hm (symlink_not_directory _ El)) as [contents ->]. cbn [res_bind].
  destruct contents as [e|bytes]; cbn [res_bind]; [by eexists _, _|].
  destruct (resolve_with_total _ Hr (string_of_bytes bytes) custody out Hc) as (o & t & -> & Ht). cbn [res_bind].
  destruct t as [e|target]; [by eexists _, _|]. destruct (negb _); [by eexists _, _|].
  destruct (PathFacts.starting_after_ok true path part Hin) as [rem ->]. cbn [res_bind]. by apply Hr, Ht.
Qed.

Lemma without_veil_total levels : total_call (resolve_path_without_veil can_allocate v p fs options levels).
Proof using Hchild Hparent Hroot Hthere Hvalid Hwf IL.
  induction levels as [|levels IH]; intros path base out Hb; cbn [resolve_path_without_veil]; [by eexists _, _|].
  destruct (is_empty path); [by eexists _, _|].
  apply (walk_total _ _ _ _ _ []); [done..|by destruct (LexicalPath.first_is_slash path)].
Qed.

Lemma resolve_total path base : P base -> exists out r, resolve_path can_allocate v p fs options path base = Ok (out, r).
Proof using Hchild Hparent Hroot Hthere Hvalid Hwf IL.
  intros Hb. destruct (resolve_with_total _ (without_veil_total symlink_recursion_limit) path base None Hb) as (o & r & E & _). by eexists _, _.
Qed.
End Resolving.

(** ** The name of what is found

    A resolution that does not follow the last link finds the last part of the
    path, when that is a name. *)
Section Names.
Context (can_allocate : Z -> bool) (v : VFS) (p : Caller) (fs : F) (options : Z).
Context (Hnofollow : has options O_NOFOLLOW_NOERROR = true).

Definition named_call (resolve : string -> Custody -> option Custody -> res (option Custody * (errno + Custody))) : Prop :=
  forall path base out out' c pre last, resolve path base out = Ok (out', inr c) ->
    texts (split_view "/" true path) = pre ++ [last] -> PathFacts.plain last = true -> name c = last.

Lemma walk_named resolve path parts custody out out' c done_ before last : named_call resolve ->
  split_view "/" true path = done_ ++ parts -> texts parts = before ++ [last] -> PathFacts.plain last = true ->
  walk can_allocate v p fs options resolve path parts custody out = Ok (out', inr c) -> name c = last.
Proof using Hnofollow.
  intros Hr. revert custody out done_ before. induction parts as [|part rest IH]; intros custody out done_ before Hs Ht Hp; cbn [walk].
  { by destruct before. }
  assert (split_view "/" true path = (done_ ++ [part]) ++ rest) as Hs' by (by rewrite <- app_assoc).
  intros (md & _ & H)%res_bind_Ok. destruct (negb (Metadata.directory md)); [done|]. destruct (negb (may_execute _ _)); [done|].
  destruct before as [|b before]; cbn in Ht.
  - injection Ht as <- Hrest. assert (rest = []) as -> by (by destruct rest).
    apply PathFacts.plain_spec in Hp as (_ & He & Hd & Hdd). rewrite Hdd, Hd, He in H. cbn [orb] in H.
    apply res_bind_Ok in H as (child & _ & H). destruct child as [child|]; [|done].
    destruct (match find_mount_for_host v child with Some m => _ | None => _ end) as [i flags].
    apply res_bind_Ok in H as (cmd & _ & H). cbn [negb andb] in H.
    destruct (Metadata.symlink cmd); cbn [negb] in H; [|by injection H as _ <-].
    destruct (has options O_NOFOLLOW); [done|]. rewrite Hnofollow in H. by injection H as _ <-.
  - injection Ht as <- Hrest.
    destruct (v_text part =? "..")%string; [by eapply IH|].
    destruct ((v_text part =? ".")%string || is_empty (v_text part)); [by eapply IH|].
    apply res_bind_Ok in H as (child & _ & H). destruct child as [child|]; [|done].
    destruct (match find_mount_for_host v child with Some m => _ | None => _ end) as [i flags].
    apply res_bind_Ok in H as (cmd & _ & H). destruct rest as [|x rest]; [by destruct before|]. cbn [negb andb] in H.
    destruct (Metadata.symlink cmd); cbn [negb] in H; [|by eapply IH].
    destruct (negb (safe_to_follow_symlink _ _ _)); [done|]. destruct (validate p _ options); [done|].
    apply res_bind_Ok in H as ([o t] & _ & H). destruct t as [e|target]; [done|].
    destruct (PathFacts.split_after path done_ part (x :: rest) Hs ltac:(done)) as (rem & Erem & Hrem).
    rewrite Erem in H. cbn [res_bind] in H. eapply (Hr _ _ _ _ _ ("."%string :: before)); [exact H| |done].
    rewrite Hrem. cbn [app]. f_equal. exact Hrest.
Qed.

Lemma without_veil_named levels : named_call (resolve_path_without_veil can_allocate v p fs options levels).
Proof using Hnofollow.
  induction levels as [|levels IH]; intros path base out out' c pre last; cbn [resolve_path_without_veil]; [done|].
  destruct (is_empty path); [done|]. intros H Hs Hp. eapply (walk_named _ _ _ _ _ _ _ []); [exact IH|done|exact Hs|done|exact H].
Qed.

Lemma resolve_named path base out c pre last : resolve_path can_allocate v p fs options path base = Ok (out, inr c) ->
  texts (split_view "/" true path) = pre ++ [last] -> PathFacts.plain last = true -> name c = last.
Proof using Hnofollow.
  unfold resolve_path, resolve_with. intros ([o r] & Hr & H)%res_bind_Ok. destruct r as [e|c']; [done|].
  destruct (validate p (absolute_path c') options); [done|]. injection H as <- <-. by eapply without_veil_named.
Qed.
End Names.
End Facts.

End VfsFacts.
