(* ===== verification/VfsAccess.v ===== *)
(** * Who may change what

    Every call of the virtual file system, whatever its path, leads to changes that
    the permissions of the inodes allow to the process that makes it; and mounts
    that are read-only stay as they are. *)
From S2P Require Import Prelude KBuffer Credentials Mmap Paths FileSystem Unveil Vfs VfsFacts.
Import Custody Inode VFS VfsFacts Unveil StringView Errno Slice.

Module VfsAccess.

(** The calls of the virtual file system that may change an inode. *)
Inductive Call :=
| Open (path : string) (options mode : Z)
| Mknod (path : string) (mode dev : Z)
| Mkdir (path : string) (mode : Z)
| Symlink (target linkpath : string)
| Chmod (path : string) (mode : Z)
| Chown (path : string) (uid gid : Z)
| Utime (path : string) (atime mtime : Z)
| Rename (old_path new_path : string)
| Link (old_path new_path : string)
| Unlink (path : string)
| Rmdir (path : string).

Section Perform.
Context {F : Type} {I : Inodes F} (can_allocate : Z -> bool) (get_device : Z -> Z -> bool) (now : Z) (v : VFS) (p : Caller).

Definition perform (fs : F) (base : Custody) (call : Call) : res (F * (errno + unit)) :=
  match call with
  | Open path options mode => drop_value (open can_allocate get_device now v p fs path options mode base None)
  | Mknod path mode dev => mknod can_allocate now v p fs path mode dev base
  | Mkdir path mode => mkdir can_allocate now v p fs path mode base
  | Symlink target linkpath => symlink can_allocate now v p fs target linkpath base
  | Chmod path mode => chmod can_allocate v p fs path mode base
  | Chown path u g => chown can_allocate v p fs path u g base
  | Utime path atime mtime => utime can_allocate v p fs path base atime mtime
  | Rename old_path new_path => rename can_allocate v p fs old_path new_path base
  | Link old_path new_path => link can_allocate v p fs old_path new_path base
  | Unlink path => unlink can_allocate v p fs path base
  | Rmdir path => rmdir can_allocate v p fs path base
  end.
End Perform.

(** ** What a process is allowed to do to a node *)

Definition owns (p : Caller) (md : Metadata.Metadata) : bool := is_superuser p || (Metadata.uid md =? euid p).

Record allowed (p : Caller) (n n' : Node) : Prop := {
  al_entries : n_children n' = n_children n \/ (node_directory n = true /\ may_write (n_metadata n) p = true);
  al_access : Metadata.access (n_metadata n') = Metadata.access (n_metadata n) \/ owns p (n_metadata n) = true;
  al_content : n_content n' = n_content n \/ may_write (n_metadata n) p = true;
  al_metadata : n_metadata n' = n_metadata n \/ owns p (n_metadata n) = true \/ may_write (n_metadata n) p = true;
}.

Section Authorised.
Context {F : Type} {I : Inodes F} {IL : InodeLaws F} (p : Caller).

(** Nothing is lost, every change is allowed, and what is new belongs to the process. *)
Definition authorised (fs fs' : F) : Prop :=
  (forall i n, view fs i = Some n -> exists n', view fs' i = Some n' /\ allowed p n n') /\
  (forall i n', view fs i = None -> view fs' i = Some n' ->
    Metadata.uid (n_metadata n') = euid p /\ Metadata.gid (n_metadata n') = egid p).

Lemma allowed_refl n : allowed p n n.
Proof using Type. split; by left. Qed.

Lemma authorised_same fs fs' : same fs fs' -> authorised fs fs'.
Proof using Type.
  intros Hs. split.
  - intros i n Hn. exists n. rewrite Hs. split; [done|apply allowed_refl].
  - intros i n' H1 H2. rewrite Hs in H2. congruence.
Qed.

Lemma authorised_refl fs : authorised fs fs.
Proof using Type. by apply authorised_same. Qed.

(** A change of one node that is allowed. *)
Lemma authorised_changed fs fs' i n f : view fs i = Some n -> changed i f fs fs' -> allowed p n (f n) -> authorised fs fs'.
Proof using Type.
  intros Hn Hc Ha. split.
  - intros j m Hm. rewrite Hc. case_decide as Hj; [|exists m; split; [done|apply allowed_refl]].
    subst j. rewrite Hn in Hm |- *. injection Hm as <-. by eexists.
  - intros j m Hm Hm'. rewrite Hc in Hm'. case_decide as Hj; [subst j|]; congruence.
Qed.

(** Changes after changes that left the rights as they were. *)
Lemma authorised_trans fs fs1 fs2 : authorised fs fs1 ->
  (forall i n n1, view fs i = Some n -> view fs1 i = Some n1 -> Metadata.access (n_metadata n1) = Metadata.access (n_metadata n)) ->
  (forall i, view fs i = None -> view fs1 i = None) -> authorised fs1 fs2 -> authorised fs fs2.
Proof using Type.
  intros [A1 B1] Hacc Hnew [A2 B2]. split; [|by intros i n' H%Hnew; apply B2].
  intros i n Hn. destruct (A1 i n Hn) as (n1 & Hn1 & Ha1). destruct (A2 i n1 Hn1) as (n2 & Hn2 & Ha2).
  exists n2. split; [done|]. pose proof (Hacc i n n1 Hn Hn1) as He.
  assert (may_write (n_metadata n1) p = may_write (n_metadata n) p) as Hw
    by (unfold may_write, Metadata.may_write; by rewrite He).
  assert (owns p (n_metadata n1) = owns p (n_metadata n)) as Ho by (unfold owns, Metadata.uid; by rewrite He).
  assert (node_directory n1 = node_directory n) as Hd
    by (unfold node_directory, Metadata.directory, Metadata.mode; by rewrite He).
  destruct Ha1 as [a1 a2 a3 a4], Ha2 as [b1 b2 b3 b4]. rewrite Hw, ?Ho, ?Hd in *.
  split; [destruct b1 as [->|]|destruct b2 as [->|]|destruct b3 as [->|]|destruct b4 as [->|]]; auto.
Qed.

(** Entries of a directory that the process may write. *)
Lemma authorised_entries fs fs' r d n f : view fs d = Some n -> node_directory n = true -> may_write (n_metadata n) p = true ->
  changed_or_same r d (set_children f) fs fs' ->
  authorised fs fs' /\
  (forall j, view fs j = None -> view fs' j = None) /\
  (forall j m, view fs j = Some m -> exists m', view fs' j = Some m' /\ n_metadata m' = n_metadata m).
Proof using Type.
  intros Hn Hd Hw Hc. destruct r as [e|]; cbn in Hc.
  - split; [by apply authorised_same|]. split; intros j; rewrite Hc; [done|]. intros m Hm. by exists m.
  - split; [|split].
    + eapply authorised_changed; [done..|]. split; cbn; auto.
    + intros j Hj. rewrite Hc, Hj. by case_decide.
    + intros j m Hm. rewrite Hc, Hm. case_decide; by eexists.
Qed.

(** A new inode in a directory that the process may write. *)
Lemma authorised_created fs fs' d n i name mode now : view fs d = Some n -> node_directory n = true ->
  may_write (n_metadata n) p = true -> view fs i = None ->
  created d i name (mkNode (Metadata.fresh_metadata mode (euid p) (egid p) now) ∅ []) fs fs' -> authorised fs fs'.
Proof using Type.
  intros Hn Hd Hw Hi Hc. split.
  - intros j m Hm. rewrite Hc. rewrite decide_False by congruence. case_decide as Hj.
    + subst j. rewrite Hn in Hm |- *. injection Hm as <-. eexists. split; [done|]. split; cbn; auto.
    + exists m. split; [done|apply allowed_refl].
  - intros j m Hm Hm'. rewrite Hc in Hm'. case_decide as Hj; [by injection Hm' as <-|].
    case_decide as Hj'; [subst j|]; congruence.
Qed.

(** The owner may change the metadata, and a writer the content. *)
Lemma authorised_owner fs fs' i n f : view fs i = Some n -> owns p (n_metadata n) = true ->
  changed i (set_metadata f) fs fs' -> authorised fs fs'.
Proof using Type. intros Hn Ho Hc. eapply authorised_changed; [done..|]. split; cbn; auto. Qed.

Lemma authorised_one fs fs' i n n' : view fs i = Some n -> view fs' i = Some n' -> (forall j, j <> i -> view fs' j = view fs j) ->
  allowed p n n' -> authorised fs fs'.
Proof using Type.
  intros Hn Hn' Hj Ha. apply (authorised_changed fs fs' i n (fun _ => n')); [done| |done].
  intros j. case_decide as E; [subst j; by rewrite Hn|by apply Hj].
Qed.
End Authorised.

(** ** Each call *)
Section Calls.
Context {F : Type} {I : Inodes F} {IL : InodeLaws F}.
Context (can_allocate : Z -> bool) (get_device : Z -> Z -> bool) (now : Z) (v : VFS) (p : Caller) (base : Custody).

(** Every file system has an inode index left. *)
Definition all_room (fs : F) : Prop := forall d, is_Some (view fs d) -> room fs (fsid d) = true.

Implicit Types fs : F.

(** Inverts the steps of an operation, leaving the cases where it did something. *)
Ltac op :=
  repeat match goal with
  | H : Ok _ = Ok _ |- _ => discriminate H
  | H : Ok _ = Ok _ |- _ => injection H; clear H; intros; subst; try apply authorised_refl
  | H : fail _ _ = Ok _ |- _ => unfold fail in H
  | H : res_bind _ _ = Ok _ |- _ => apply res_bind_Ok in H as (? & ? & H)
  | x : (_ * (_ + _))%type |- _ => destruct x
  | x : (_ * option _)%type |- _ => destruct x
  | H : metadata _ _ = Ok _ |- _ => apply metadata_view in H as (? & ? & <-)
  | H : of_opt _ ?o = Ok _ |- _ => destruct o eqn:?; [|discriminate H]; injection H as <-
  | H : (match ?x with inl _ => _ | inr _ => _ end) = Ok _ |- _ => destruct x
  | H : (match ?x with Some _ => _ | None => _ end) = Ok _ |- _ => destruct x eqn:?
  | H : (if ?x then _ else _) = Ok _ |- _ => destruct x eqn:?
  end.

Lemma finish_Ok r fs' x : finish (F := F) r = Ok (fs', x) -> exists e, r = Ok (fs', e).
Proof using Type. unfold finish. intros ([fs e] & -> & [= <- _])%res_bind_Ok. by exists e. Qed.

Lemma drop_value_Ok {A} (r : res (F * (errno + A))) fs' x : drop_value r = Ok (fs', x) -> exists y, r = Ok (fs', y).
Proof using Type. unfold drop_value. intros ([fs e] & -> & [= <- _])%res_bind_Ok. by exists e. Qed.

Lemma owner_check md : negb (euid p =? Metadata.uid md) && negb (is_superuser p) = false -> owns p md = true.
Proof using Type. unfold owns. rewrite Z.eqb_sym. by destruct (is_superuser p), (Metadata.uid md =? euid p). Qed.

Lemma chmod_authorised fs c mode fs' r : chmod_custody p fs c mode = Ok (fs', r) -> authorised p fs fs'.
Proof using IL.
  unfold chmod_custody. intros H. op. apply finish_Ok in H as (e & H). apply chmod_view in H.
  destruct e; [by apply authorised_same|]. eapply authorised_owner; [done| |done]. by apply owner_check.
Qed.

(** Two changes of the metadata by the owner. *)
Lemma authorised_owner2 fs fs1 fs2 e i n f g : view fs i = Some n -> owns p (n_metadata n) = true ->
  changed i (set_metadata f) fs fs1 -> changed_or_same e i (set_metadata g) fs1 fs2 -> authorised p fs fs2.
Proof using Type.
  intros Hn Ho H1 H2. assert (view fs1 i = Some (set_metadata f n)) as Hn1 by (rewrite H1, decide_True by done; by rewrite Hn).
  assert (exists m, view fs2 i = Some m /\ n_children m = n_children n /\ n_content m = n_content n) as (m & Hm & Hc & Hct).
  { destruct e; cbn in H2; rewrite H2, ?decide_True, Hn1 by done; by eexists. }
  eapply authorised_one; [done..| |split; auto].
  intros j Hj. destruct e; cbn in H2; rewrite H2, ?decide_False by done; by rewrite H1, decide_False.
Qed.

Lemma chown_authorised fs c u g fs' r : chown_custody p fs c u g = Ok (fs', r) -> authorised p fs fs'.
Proof using IL.
  unfold chown_custody. intros H. op; try match goal with Hc : Inode.chmod _ _ _ = Ok _ |- _ => apply chmod_view in Hc end.
  - by apply authorised_same.
  - apply finish_Ok in H as (e & H). apply chown_view in H.
    eapply authorised_owner2; [done| |done|done]. by apply owner_check.
  - apply finish_Ok in H as (e & H). apply chown_view in H.
    destruct e; [by apply authorised_same|]. eapply authorised_owner; [done| |done]. by apply owner_check.
Qed.

Lemma utime_authorised fs path a m fs' r : utime can_allocate v p fs path base a m = Ok (fs', r) -> authorised p fs fs'.
Proof using IL.
  unfold utime. intros H. op; match goal with Hc : set_atime _ _ _ = Ok _ |- _ => apply set_atime_view in Hc end.
  - by apply authorised_same.
  - apply finish_Ok in H as (e & H). apply set_mtime_view in H. eapply authorised_owner2; [done| |done|done].
    unfold owns. destruct (is_superuser p), (Metadata.uid _ =? euid p); done.
Qed.

(** Creating an inode in a directory after the checks. *)
Lemma create_child_authorised fs d n name mode dev fs' r : wf fs -> all_room fs -> view fs d = Some n ->
  may_write (n_metadata n) p = true -> create_child fs now d name mode dev (euid p) (egid p) = Ok (fs', r) ->
  authorised p fs fs' /\ forall i, r = inr i -> view fs i = None /\ is_Some (view fs' i).
Proof using IL.
  intros Hw Hr Hn Hm H. apply create_child_view in H; [|done|apply Hr; by eexists|by eexists].
  destruct r as [e|i]; [split; [by apply authorised_same|done]|].
  destruct H as (Hi & _ & (n' & Hn' & Hd) & Hc). rewrite Hn in Hn'. injection Hn' as <-.
  split; [by eapply authorised_created|]. intros ? [= <-]. split; [done|]. rewrite Hc, decide_True by done. by eexists.
Qed.

Lemma create_missing_authorised fs path mode dev fs' r : wf fs -> all_room fs ->
  create_missing can_allocate now v p fs path base mode dev = Ok (fs', r) ->
  authorised p fs fs' /\ forall i, r = inr i -> view fs i = None /\ is_Some (view fs' i).
Proof using IL.
  intros Hw Hr. unfold create_missing. intros (x & _ & H)%res_bind_Ok.
  destruct x as [e|c]; [injection H as <- <-; split; [apply authorised_refl|done]|].
  apply res_bind_Ok in H as (e & Hc & H). destruct e as [e|]; [injection H as <- <-; split; [apply authorised_refl|done]|].
  unfold may_create_in in Hc. apply res_bind_Ok in Hc as (md & (n & Hn & <-)%metadata_view & Hc).
  destruct (may_write (n_metadata n) p) eqn:Em; [|done]. by eapply create_child_authorised.
Qed.

Lemma symlink_authorised fs target path fs' r : wf fs -> all_room fs ->
  symlink can_allocate now v p fs target path base = Ok (fs', r) -> authorised p fs fs'.
Proof using IL.
  intros Hw Hr. unfold symlink. intros ([fs1 x] & Hc & H)%res_bind_Ok. pose proof Hc as Hc'.
  apply create_missing_authorised in Hc as [Ha Hnew]; [|done..]. destruct x as [e|i]; [by injection H as <- <-|].
  apply drop_value_Ok in H as (y & H). pose proof (write_frame _ _ _ _ _ _ H) as Hf. destruct (Hnew i eq_refl) as [Hi [n1 E1]].
  destruct Ha as [A B]. split.
  - intros j n Hn. rewrite Hf by congruence. by apply A.
  - intros j n' Hn Hn'. destruct (decide (j = i)) as [-> |Hj]; [|rewrite Hf in Hn' by done; by apply (B j)].
    destruct (write_keeps _ _ _ _ _ _ _ H E1) as (n2 & Hn2 & _ & H1 & H2). rewrite Hn' in Hn2. injection Hn2 as <-.
    rewrite H1, H2. by apply (B i).
Qed.

(** Emptying a file and setting its time. *)
Lemma truncated_authorised fs fs1 fs2 e i n : view fs i = Some n -> may_write (n_metadata n) p = true ->
  changed i (set_content []) fs fs1 -> changed_or_same e i (set_metadata (fun md => Metadata.with_mtime md now)) fs1 fs2 ->
  authorised p fs fs2.
Proof using Type.
  intros Hn Hm H1 H2. assert (view fs1 i = Some (set_content [] n)) as Hn1 by (rewrite H1, decide_True by done; by rewrite Hn).
  assert (exists m, view fs2 i = Some m /\ n_children m = n_children n /\
    Metadata.access (n_metadata m) = Metadata.access (n_metadata n)) as (m & Hv & Hc & Ha).
  { destruct e; cbn in H2; rewrite H2, ?decide_True, Hn1 by done; by eexists. }
  eapply authorised_one; [done..| |split; auto].
  intros j Hj. destruct e; cbn in H2; rewrite H2, ?decide_False by done; by rewrite H1, decide_False.
Qed.

Lemma open_custody_authorised fs options c fs' r : open_custody get_device now p fs options c = Ok (fs', r) -> authorised p fs fs'.
Proof using IL.
  unfold open_custody. intros H. op; match goal with Hc : truncate _ _ _ = Ok _ |- _ => apply truncate_view in Hc end.
  - by apply authorised_same.
  - match goal with Hm : set_mtime _ _ _ = Ok _ |- _ => apply set_mtime_view in Hm end.
    match goal with Ht : has options O_WRONLY && has options O_TRUNC = true |- _ => apply andb_true_iff in Ht as [Hwr _] end.
    match goal with Hp : has options O_WRONLY && negb (may_write _ _) = false |- _ => rewrite Hwr in Hp; apply negb_false_iff in Hp end.
    by eapply truncated_authorised.
Qed.

Lemma open_authorised fs path options mode fs' r : wf fs -> all_room fs ->
  open can_allocate get_device now v p fs path options mode base None = Ok (fs', r) -> authorised p fs fs'.
Proof using IL.
  intros Hw Hr. unfold open. destruct (has options O_CREAT && has options O_DIRECTORY); [intros [= <- <-]; apply authorised_refl|].
  intros ([out x] & _ & H)%res_bind_Ok. destruct (has options O_CREAT).
  2:{ destruct x as [e|c]; [injection H as <- <-; apply authorised_refl|by eapply open_custody_authorised]. }
  destruct out as [q|]; [|injection H as <- <-; apply authorised_refl].
  destruct x as [e|c].
  - destruct e; try (injection H as <- <-; apply authorised_refl). unfold create in H.
    destruct (validate p _ options); [injection H as <- <-; apply authorised_refl|].
    apply res_bind_Ok in H as (md & (n & Hn & <-)%metadata_view & H).
    destruct (may_write (n_metadata n) p) eqn:Em; cbn [negb] in H; [|injection H as <- <-; apply authorised_refl].
    destruct (custody_readonly fs q); [injection H as <- <-; apply authorised_refl|].
    apply res_bind_Ok in H as ([fs1 y] & Hc & H). eapply create_child_authorised in Hc as [Ha _]; [|done..].
    destruct y; by injection H as <- <-.
  - destruct (has options O_EXCL); [injection H as <- <-; apply authorised_refl|by eapply open_custody_authorised].
Qed.

(** Adding and removing entries. *)
Lemma add_authorised fs d n c name fs' e : view fs d = Some n -> may_write (n_metadata n) p = true ->
  add_child fs d c name = Ok (fs', e) -> authorised p fs fs' /\ (forall j, view fs j = None -> view fs' j = None) /\
  (forall j m, view fs j = Some m -> exists m', view fs' j = Some m' /\ n_metadata m' = n_metadata m).
Proof using IL.
  intros Hn Hm H. apply add_child_view in H as [(n' & Hn' & Hd) Hc]. rewrite Hn in Hn'. injection Hn' as <-.
  by eapply authorised_entries.
Qed.

Lemma remove_authorised fs d n name fs' e : view fs d = Some n -> may_write (n_metadata n) p = true ->
  remove_child fs d name = Ok (fs', e) -> authorised p fs fs' /\ (forall j, view fs j = None -> view fs' j = None) /\
  (forall j m, view fs j = Some m -> exists m', view fs' j = Some m' /\ n_metadata m' = n_metadata m).
Proof using IL.
  intros Hn Hm H. apply remove_child_view in H as [(n' & Hn' & Hd & _) Hc]. rewrite Hn in Hn'. injection Hn' as <-.
  by eapply authorised_entries.
Qed.

(** A change of entries, and then what is authorised after it. *)
Lemma authorised_then fs fs1 fs2 : authorised p fs fs1 ->
  (forall j, view fs j = None -> view fs1 j = None) ->
  (forall j m, view fs j = Some m -> exists m', view fs1 j = Some m' /\ n_metadata m' = n_metadata m) ->
  authorised p fs1 fs2 -> authorised p fs fs2.
Proof using Type.
  intros Ha Hnew Hk Hb. eapply authorised_trans; [done| |done|done].
  intros i n n1 Hn Hn1. destruct (Hk i n Hn) as (m & Hm & He). congruence.
Qed.

Lemma link_authorised fs old new fs' r : link can_allocate v p fs old new base = Ok (fs', r) -> authorised p fs fs'.
Proof using IL.
  unfold link. intros H. op. apply finish_Ok in H as (e' & H).
  match goal with Hm : negb (may_write _ _) = false |- _ => apply negb_false_iff in Hm end.
  by eapply add_authorised in H as [? _].
Qed.

Lemma unlink_authorised fs path fs' r : unlink can_allocate v p fs path base = Ok (fs', r) -> authorised p fs fs'.
Proof using IL.
  unfold unlink. intros H. op. apply finish_Ok in H as (e' & H).
  match goal with Hm : negb (may_write _ _) = false |- _ => apply negb_false_iff in Hm end.
  by eapply remove_authorised in H as [? _].
Qed.

(** rename after its checks: perhaps remove, then add, then remove. *)
Lemma move_authorised fs old_parent new_parent o n old_inode new_name old_name fs' r :
  view fs old_parent = Some o -> may_write (n_metadata o) p = true ->
  view fs new_parent = Some n -> may_write (n_metadata n) p = true ->
  (let* (fs, e) := add_child fs new_parent old_inode new_name in
   match e with
   | Some e => fail fs e
   | None => finish (remove_child fs old_parent old_name)
   end) = Ok (fs', r) -> authorised p fs fs'.
Proof using IL.
  intros Ho Hmo Hn Hmn ([fs1 e] & Ha & H)%res_bind_Ok. eapply add_authorised in Ha as (A & B & C); [|done..].
  destruct e as [e|]; [by injection H as <- <-|]. apply finish_Ok in H as (e & H).
  destruct (C _ _ Ho) as (o1 & Ho1 & He). eapply remove_authorised in H as [? _]; [|done|by rewrite He].
  by eapply authorised_then.
Qed.

Lemma rename_authorised fs old new fs' r : rename can_allocate v p fs old new base = Ok (fs', r) -> authorised p fs fs'.
Proof using IL.
  unfold rename. intros ([oq ox] & _ & H)%res_bind_Ok. destruct ox as [e|oc]; [injection H as <- <-; apply authorised_refl|].
  apply res_bind_Ok in H as ([nq nx] & _ & H).
  match type of H with (match ?x with Some _ => _ | None => _ end) = _ => destruct x end; [injection H as <- <-; apply authorised_refl|].
  apply res_bind_Ok in H as (q1 & _ & (q2 & _ & H)%res_bind_Ok).
  destruct (negb (fsid (inode q1) =? fsid (inode q2))); [injection H as <- <-; apply authorised_refl|].
  destruct (bool_decide _); [injection H as <- <-; apply authorised_refl|].
  apply res_bind_Ok in H as (md2 & (n2 & Hn2 & <-)%metadata_view & (md1 & (n1 & Hn1 & <-)%metadata_view & (md & _ & H)%res_bind_Ok)%res_bind_Ok).
  destruct (may_write (n_metadata n2) p) eqn:E2; cbn [negb] in H; [|injection H as <- <-; apply authorised_refl].
  destruct (may_write (n_metadata n1) p) eqn:E1; cbn [negb] in H; [|injection H as <- <-; apply authorised_refl].
  destruct (sticky_refuses p (n_metadata n1) md); [injection H as <- <-; apply authorised_refl|].
  destruct (_ || _); [injection H as <- <-; apply authorised_refl|].
  destruct nx as [e|nc]; [by eapply (move_authorised fs (inode q1) (inode q2))|].
  destruct (decide (inode nc = inode oc)); [injection H as <- <-; apply authorised_refl|].
  apply res_bind_Ok in H as (nmd & _ & H).
  destruct (sticky_refuses p (n_metadata n2) nmd); [injection H as <- <-; apply authorised_refl|].
  destruct (_ && _); [injection H as <- <-; apply authorised_refl|].
  apply res_bind_Ok in H as ([fs1 e] & Hr & H). eapply remove_authorised in Hr as (A & B & C); [|done..].
  destruct e as [e|]; [by injection H as <- <-|].
  destruct (C _ _ Hn1) as (m1 & Hm1 & He1). destruct (C _ _ Hn2) as (m2 & Hm2 & He2).
  eapply (move_authorised fs1 (inode q1) (inode q2)) in H; [|done|by rewrite He1|done|by rewrite He2]. by eapply authorised_then.
Qed.

(** Removing the entries for the directory itself and its parent. *)
Lemma remove_dots_same fs d name fs' e : dots name = true -> remove_child fs d name = Ok (fs', e) -> same fs fs'.
Proof using IL.
  intros Hd H. apply remove_child_view in H as [_ H]. rewrite Hd in H. destruct e; [done|]. intros j. rewrite H.
  case_decide; [|done]. destruct (view fs j) as [[? ? ?]|]; done.
Qed.

Lemma rmdir_authorised fs path fs' r : rmdir can_allocate v p fs path base = Ok (fs', r) -> authorised p fs fs'.
Proof using IL.
  unfold rmdir. intros H. op; repeat match goal with Hr : remove_child _ _ _ = Ok _ |- _ => apply remove_dots_same in Hr; [|done] end.
  - by apply authorised_same.
  - apply authorised_same. intros j. by match goal with H1 : same fs ?f, H2 : same ?f _ |- _ => rewrite H2, H1 end.
  - apply finish_Ok in H as (e' & H). match goal with Hm : negb (may_write _ _) = false |- _ => apply negb_false_iff in Hm end.
    match goal with H1 : same fs ?f, H2 : same ?f ?g |- _ => assert (same fs g) as Hs by (intros j; by rewrite H2, H1) end.
    eapply remove_authorised in H as [Ha _]; [|by rewrite Hs|done]. destruct Ha as [A B]. split.
    + intros i n Hn. apply A. by rewrite Hs.
    + intros i n' Hn. apply B. by rewrite Hs.
Qed.

Lemma perform_authorised fs call fs' r : wf fs -> all_room fs ->
  perform can_allocate get_device now v p fs base call = Ok (fs', r) -> authorised p fs fs'.
Proof using IL.
  intros Hw Hr. destruct call; cbn [perform].
  - intros (y & H)%drop_value_Ok. by apply open_authorised in H.
  - unfold mknod. case_if; [intros [= <- <-]; apply authorised_refl|]. intros (y & H)%drop_value_Ok. by apply create_missing_authorised in H as [? _].
  - unfold mkdir. intros (y & H)%drop_value_Ok. by apply create_missing_authorised in H as [? _].
  - by apply symlink_authorised.
  - unfold chmod. intros ([q x] & _ & H)%res_bind_Ok. destruct x; [injection H as <- <-; apply authorised_refl|by eapply chmod_authorised].
  - unfold chown. intros ([q x] & _ & H)%res_bind_Ok. destruct x; [injection H as <- <-; apply authorised_refl|by eapply chown_authorised].
  - apply utime_authorised.
  - apply rename_authorised.
  - apply link_authorised.
  - apply unlink_authorised.
  - apply rmdir_authorised.
Qed.

(** ** Read-only mounts *)

Definition readonly_chain (c : Custody) : Prop := Forall (fun q => has (mount_flags q) MS_RDONLY = true) (chain c).

Lemma readonly_head c : readonly_chain c -> has (mount_flags c) MS_RDONLY = true.
Proof using Type. unfold readonly_chain. by destruct c as [[q|] n i f]; cbn; intros [? _]%Forall_cons. Qed.

Lemma readonly_parent c q : readonly_chain c -> parent c = Some q -> readonly_chain q.
Proof using Type. unfold readonly_chain. destruct c as [[x|] n i f]; cbn; [|done]. by intros [_ ?]%Forall_cons [= <-]. Qed.

Section ReadOnly.
Context (Hmounts : Forall (fun m => has (m_flags m) MS_RDONLY = true) (m_mounts v)).
Context (Hroot : readonly_chain (root_directory p)) (Hbase : readonly_chain base).

Lemma readonly_child fs c text i flags : readonly_chain c -> leads v p fs c text i flags -> readonly_chain (mkCustody (Some c) text i flags).
Proof using Hmounts Type.
  intros Hc (n & child & _ & _ & _ & _ & _ & Hm). unfold readonly_chain. cbn. apply Forall_cons. split; [|done]. cbn. unfold mounted in Hm.
  destruct (find_mount_for_host v child) as [m|] eqn:E; injection Hm as _ <-; [|by apply readonly_head].
  unfold find_mount_for_host in E. apply find_some in E as [E _]. rewrite Forall_forall in Hmounts. apply Hmounts.
  by apply list_elem_of_In.
Qed.

Lemma resolve_readonly fs options path b out r : wf fs -> readonly_chain b -> resolve can_allocate v p fs path b options = Ok (out, r) ->
  (forall q, out = Some q -> custody_readonly fs q = true) /\ (forall c, r = inr c -> custody_readonly fs c = true).
Proof using Hmounts Hroot IL.
  intros Hw Hb H. unfold resolve in H.
  destruct (resolve_sound can_allocate v p fs options Hw readonly_chain readonly_chain Hroot readonly_parent
    (fun c text i flags H Hl _ => readonly_child fs c text i flags H Hl) (fun c H _ => H) readonly_parent path b out r Hb H) as [Ho Hc].
  unfold custody_readonly. split; [intros q Hq; by rewrite (readonly_head q) by (by apply Ho)|].
  intros c Hr. destruct (Hc c Hr) as [Hc' _]. by rewrite (readonly_head c).
Qed.

(** Uses what the checks for read-only custodies found. *)
Ltac refuse Hw :=
  repeat match goal with
  | H : resolve _ _ _ _ _ _ _ = Ok _ |- _ => apply (resolve_readonly _ _ _ _ _ _ Hw Hbase) in H as [? ?]
  | H : forall q, Some ?c = Some q -> _ |- _ => specialize (H c eq_refl)
  | H : forall q, inr ?c = inr q -> _ |- _ => specialize (H c eq_refl)
  end; subst; try congruence.

Lemma create_missing_readonly fs path mode dev fs' r : wf fs ->
  create_missing can_allocate now v p fs path base mode dev = Ok (fs', r) -> fs' = fs /\ exists e, r = inl e.
Proof using Hbase Hmounts Hroot IL.
  intros Hw. unfold create_missing, missing. intros (x & Hx & H)%res_bind_Ok. apply res_bind_Ok in Hx as ([out y] & Hy & Hx).
  destruct x as [e|c]; [injection H as <- <-; split; [done|by eexists]|].
  destruct y as [e|c']; [|done]. destruct out as [q|]; [|done]. case_decide; [|done]. injection Hx as <-.
  refuse Hw. apply res_bind_Ok in H as (e' & Hc & H). unfold may_create_in in Hc.
  apply res_bind_Ok in Hc as (md & _ & Hc). destruct e' as [e'|]; [injection H as <- <-; split; [done|by eexists]|].
  destruct (negb (may_write md p)); [done|]. by match goal with Hq : custody_readonly fs q = true |- _ => rewrite Hq in Hc end.
Qed.

Lemma open_readonly fs path options mode fs' r : wf fs ->
  open can_allocate get_device now v p fs path options mode base None = Ok (fs', r) -> fs' = fs.
Proof using Hbase Hmounts Hroot IL.
  intros Hw. assert (forall c, custody_readonly fs c = true -> open_custody get_device now p fs options c = Ok (fs', r) -> fs' = fs) as Hc.
  { intros c Hc. unfold open_custody. intros H. op; try done;
      match goal with Hx : has options O_WRONLY && custody_readonly fs c = false, Hy : has options O_WRONLY && has options O_TRUNC = true |- _ =>
        rewrite Hc, andb_true_r in Hx; by rewrite Hx in Hy end. }
  unfold open. destruct (has options O_CREAT && has options O_DIRECTORY); [by intros [= <- <-]|].
  intros ([out x] & Hr & H)%res_bind_Ok. refuse Hw. destruct (has options O_CREAT).
  2:{ destruct x as [e|c]; [by injection H as <- <-|]. refuse Hw. by apply (Hc c). }
  destruct out as [q|]; [|by injection H as <- <-]. destruct x as [e|c].
  - destruct e; try by injection H as <- <-. refuse Hw. unfold create in H.
    destruct (validate p _ options); [by injection H as <- <-|]. apply res_bind_Ok in H as (md & _ & H).
    destruct (negb (may_write md p)); [by injection H as <- <-|].
    match goal with Hq : custody_readonly fs q = true |- _ => rewrite Hq in H end. by injection H as <- <-.
  - refuse Hw. destruct (has options O_EXCL); [by injection H as <- <-|by apply (Hc c)].
Qed.

Lemma perform_readonly fs call fs' r : wf fs ->
  perform can_allocate get_device now v p fs base call = Ok (fs', r) -> fs' = fs.
Proof using Hbase Hmounts Hroot IL.
  intros Hw. destruct call; cbn [perform].
  - intros (y & H)%drop_value_Ok. by apply open_readonly in H.
  - unfold mknod. case_if; [by intros [= <- <-]|]. intros (y & H)%drop_value_Ok. by apply create_missing_readonly in H as [? _].
  - unfold mkdir. intros (y & H)%drop_value_Ok. by apply create_missing_readonly in H as [? _].
  - unfold symlink. intros ([fs1 x] & Hc & H)%res_bind_Ok. apply create_missing_readonly in Hc as [-> [e ->]]; [|done]. by injection H as <- <-.
  - unfold chmod, chmod_custody. intros H. op; refuse Hw.
  - unfold chown, chown_custody. intros H. op; refuse Hw.
  - unfold utime. intros H. op; refuse Hw.
  - unfold rename. intros H. op; refuse Hw; to_prop; congruence.
  - unfold link. intros H. op; refuse Hw.
  - unfold unlink. intros H. op; refuse Hw.
  - unfold rmdir. intros H. op; refuse Hw.
Qed.
End ReadOnly.
End Calls.

End VfsAccess.
