(* ===== verification/VfsTree.v ===== *)
(** * Directories form trees

    [tree] says that every directory has at most one name, that the roots of file
    systems have none, and that no directory is inside itself.  A custody is
    [coherent] when every step of it is still an entry of the directory above.
    Every call whose custodies are coherent answers, and keeps the tree. *)
From Stdlib Require Import Ascii.
From S2P Require Import Prelude KBuffer Credentials Mmap Paths FileSystem Unveil Vfs VfsFacts VfsAccess.
Import Custody Inode VFS VfsFacts VfsAccess Unveil StringView Errno Slice.

Module VfsTree.

(** ** Relations with one edge more *)
Section Edge.
Context {A : Type} (R R' : A -> A -> Prop).

(** An edge into a node that leads nowhere makes no cycle. *)
Lemma acyclic_leaf c : (forall x y, R' x y -> R x y \/ y = c) -> (forall y, ~ R' c y) ->
  (forall x, ~ tc R x x) -> forall x, ~ tc R' x x.
Proof using Type.
  intros Hsub Hleaf Hac x Hx. apply (Hac x).
  assert (forall a y, tc R' a y -> y <> c -> tc R a y) as Hind.
  { intros z y Hy. induction Hy as [a b Hab|a b d Hab Hbd IH]; intros Hne.
    - apply tc_once. by destruct (Hsub _ _ Hab).
    - destruct (Hsub _ _ Hab) as [H| ->].
      + eapply tc_l; [done|]. by apply IH.
      + exfalso. inversion Hbd; subst; by eapply Hleaf. }
  apply Hind; [done|]. intros ->. inversion Hx; subst; by eapply Hleaf.
Qed.

(** Nor does an edge to a node from which its start cannot be reached. *)
Lemma acyclic_move P D : (forall x y, R' x y -> R x y \/ (x = P /\ y = D)) -> ~ rtc R D P ->
  (forall x, ~ tc R x x) -> forall x, ~ tc R' x x.
Proof using Type.
  intros Hsub Hno Hac x Hx.
  assert (forall a, rtc R' a P -> rtc R a P) as Hto.
  { intros a Ha. remember P as z. induction Ha as [a|a b d Hab Hbd IH]; [done|]. subst.
    destruct (Hsub _ _ Hab) as [H|[-> ->]]; [eapply rtc_l; [done|by apply IH]|done]. }
  assert (forall a b, tc R' a b -> tc R a b \/ (rtc R' a P /\ rtc R' D b)) as Hdec.
  { intros a b Hab. induction Hab as [a b Hab|a b d Hab Hbd IH].
    - destruct (Hsub _ _ Hab) as [H|[-> ->]]; [left; by apply tc_once|by right].
    - destruct (Hsub _ _ Hab) as [H|[-> ->]].
      + destruct IH as [IH|[IH1 IH2]]; [left; by eapply tc_l|right]. split; [by eapply rtc_l|done].
      + right. split; [done|]. by apply tc_rtc. }
  destruct (Hdec x x Hx) as [H|[H1 H2]]; [by apply (Hac x)|]. apply Hno, Hto. by etrans.
Qed.
End Edge.

Section Tree.
Context {F : Type} {I : Inodes F} {IL : InodeLaws F}.
Implicit Types fs : F.

Definition entry fs (d : InodeIdentifier) (name : string) (c : InodeIdentifier) : Prop :=
  exists n, view fs d = Some n /\ n_children n !! name = Some c.

Definition contains fs (d c : InodeIdentifier) : Prop := exists name, entry fs d name c.

(** The inodes where file systems start: the root, and what is mounted. *)
Definition is_root (v : VFS) (i : InodeIdentifier) : Prop :=
  m_root_inode v = Some i \/ exists m, m ∈ m_mounts v /\ m_guest m = i.

Record tree (v : VFS) fs : Prop := {
  tree_root : exists r, m_root_inode v = Some r;
  tree_roots i : is_root v i -> directory_at fs i /\ forall d, ~ contains fs d i;
  tree_once d1 name1 d2 name2 c : directory_at fs c -> entry fs d1 name1 c -> entry fs d2 name2 c -> d1 = d2 /\ name1 = name2;
  tree_acyclic i : ~ tc (contains fs) i i;
}.

Inductive coherent (v : VFS) fs : Custody -> Prop :=
| coherent_root name r flags : m_root_inode v = Some r -> coherent v fs (mkCustody None name r flags)
| coherent_child q name child i flags f : coherent v fs q -> directory_at fs (inode q) -> entry fs (inode q) name child ->
    mounted v child f = (i, flags) -> coherent v fs (mkCustody (Some q) name i flags).

Lemma mounted_cases v child f i flags : mounted v child f = (i, flags) ->
  i = child \/ exists m, m ∈ m_mounts v /\ m_guest m = i.
Proof using Type.
  unfold mounted. destruct (find_mount_for_host v child) as [m|] eqn:E; intros [= <- _]; [|by left].
  right. exists m. split; [|done]. unfold find_mount_for_host in E. apply find_some in E as [E _]. by apply list_elem_of_In.
Qed.

(** What contains the inode of a coherent custody is in its chain. *)
Lemma coherent_ancestors v fs c D : tree v fs -> coherent v fs c -> directory_at fs (inode c) ->
  rtc (contains fs) D (inode c) -> D ∈ inode <$> chain c.
Proof using Type.
  intros Ht Hc. revert D. induction Hc as [name r flags Hr|q name child i flags f Hq IH Hdq He Hm]; intros D Hd HD.
  - cbn in *. apply rtc_inv_r in HD as [->|(y & _ & Hy)]; [by apply list_elem_of_singleton|].
    exfalso. destruct (tree_roots v fs Ht r) as [_ Hn]; [by left|]. by apply (Hn y).
  - cbn in *. apply elem_of_cons. apply rtc_inv_r in HD as [->|(y & HDy & Hy)]; [by left|right].
    destruct (mounted_cases _ _ _ _ _ Hm) as [-> |Hg].
    + destruct Hy as [name' Hy]. destruct (tree_once v fs Ht _ _ _ _ _ Hd Hy He) as [-> _]. by apply IH.
    + exfalso. destruct (tree_roots v fs Ht i) as [_ Hn]; [by right|]. by apply (Hn y).
Qed.

Lemma coherent_parent v fs c q : coherent v fs c -> parent c = Some q -> coherent v fs q /\ directory_at fs (inode q).
Proof using Type. intros Hc. destruct Hc; [done|]. by intros [= <-]. Qed.

(** The inode of a coherent custody is there. *)
Lemma coherent_valid v fs c : wf fs -> tree v fs -> coherent v fs c -> is_Some (view fs (inode c)).
Proof using IL.
  intros Hw Ht Hc. destruct Hc as [name r flags Hr|q name child i flags f Hq Hdq (n & Hn & He) Hm]; cbn.
  - destruct (tree_roots v fs Ht r) as [(n & Hn & _) _]; [by left|by eexists].
  - destruct (mounted_cases _ _ _ _ _ Hm) as [-> |Hg].
    + by apply (children_wf fs (inode q) n name child).
    + destruct (tree_roots v fs Ht i) as [(m & Hm' & _) _]; [by right|by eexists].
Qed.

(** ** Changes that keep the tree *)

(** Fewer entries. *)
Lemma tree_subset v fs fs' : tree v fs -> (forall d name c, entry fs' d name c -> entry fs d name c) ->
  (forall i, directory_at fs' i <-> directory_at fs i) -> tree v fs'.
Proof using Type.
  intros [H1 H2 H3 H4] Hsub Hdir. assert (forall d c, contains fs' d c -> contains fs d c) as Hc by (intros d c [name He]; by exists name; apply Hsub).
  split; [done|..].
  - intros i Hi. destruct (H2 i Hi) as [Hd Hn]. split; [by apply Hdir|]. intros d Hdc. by apply (Hn d), Hc.
  - intros d1 n1 d2 n2 c Hd%Hdir He1%Hsub He2%Hsub. by apply (H3 d1 n1 d2 n2 c).
  - assert (forall a b, tc (contains fs') a b -> tc (contains fs) a b) as Htc.
    { intros a b Hab. induction Hab; [by apply tc_once, Hc|eapply tc_l; [by apply Hc|done]]. }
    intros i Hi%Htc. by apply (H4 i).
Qed.

(** One more entry, to an inode that has no entries itself. *)
Lemma tree_leaf v fs fs' d0 name0 c0 : tree v fs ->
  (forall d name c, entry fs' d name c -> entry fs d name c \/ (d = d0 /\ name = name0 /\ c = c0)) ->
  (forall i, i <> c0 -> directory_at fs' i <-> directory_at fs i) ->
  (forall y, ~ contains fs' c0 y) -> ~ is_root v c0 ->
  ~ directory_at fs' c0 \/ (forall d, ~ contains fs d c0) -> tree v fs'.
Proof using Type.
  intros [H1 H2 H3 H4] Hsub Hdir Hleaf Hroot Hnew. split; [done|..].
  - intros i Hi. assert (i <> c0) as Hne by (intros ->; done). destruct (H2 i Hi) as [Hd Hn]. split; [by apply Hdir|].
    intros d [name He]. destruct (Hsub _ _ _ He) as [He'|(_ & _ & ->)]; [apply (Hn d); by exists name|done].
  - intros d1 n1 d2 n2 c Hd He1 He2. destruct (decide (c = c0)) as [-> |Hne].
    + destruct Hnew as [Hnd|Hnew]; [done|]. destruct (Hsub _ _ _ He1) as [H|(-> & -> & _)]; [exfalso; apply (Hnew d1); by eexists|].
      destruct (Hsub _ _ _ He2) as [H|(-> & -> & _)]; [exfalso; apply (Hnew d2); by eexists|done].
    + apply Hdir in Hd; [|done]. destruct (Hsub _ _ _ He1) as [He1'|(_ & _ & ->)]; [|done].
      destruct (Hsub _ _ _ He2) as [He2'|(_ & _ & ->)]; [|done]. by apply (H3 d1 n1 d2 n2 c).
  - apply (acyclic_leaf (contains fs) (contains fs') c0); [|done|done].
    intros x y [name He]. destruct (Hsub _ _ _ He) as [He'|(_ & _ & ->)]; [left; by exists name|by right].
Qed.

(** A directory that gets another name, and loses the one it had. *)
Lemma tree_move v fs fs' P new D : tree v fs -> directory_at fs D -> ~ is_root v D -> ~ rtc (contains fs) D P ->
  (forall d name c, entry fs' d name c -> (d = P /\ name = new /\ c = D) \/ (entry fs d name c /\ c <> D)) ->
  (forall i, directory_at fs' i <-> directory_at fs i) -> tree v fs'.
Proof using Type.
  intros [H1 H2 H3 H4] HD Hroot Hno Hsub Hdir. split; [done|..].
  - intros i Hi. assert (i <> D) as Hne by (intros ->; done). destruct (H2 i Hi) as [Hd Hn]. split; [by apply Hdir|].
    intros d [name He]. destruct (Hsub _ _ _ He) as [(_ & _ & ->)|[He' _]]; [done|apply (Hn d); by exists name].
  - intros d1 n1 d2 n2 c Hd%Hdir He1 He2.
    destruct (Hsub _ _ _ He1) as [(? & ? & ?)|[He1' Hne1]], (Hsub _ _ _ He2) as [(? & ? & ?)|[He2' Hne2]]; subst; try done.
    by apply (H3 d1 n1 d2 n2 c).
  - apply (acyclic_move (contains fs) (contains fs') P D); [|done|done].
    intros x y [name He]. destruct (Hsub _ _ _ He) as [(-> & _ & ->)|[He' _]]; [by right|left; by exists name].
Qed.

(** ** The operations on inodes *)

(** The directories and the entries stay. *)
Lemma changed_entries fs fs' e i f : changed_or_same e i f fs fs' ->
  (forall n, view fs i = Some n -> n_children (f n) = n_children n /\ node_directory (f n) = node_directory n) ->
  (forall d name c, entry fs' d name c <-> entry fs d name c) /\ (forall j, directory_at fs' j <-> directory_at fs j).
Proof using Type.
  intros Hc Hf. destruct e as [e|]; cbn in Hc.
  { unfold entry, directory_at. split; intros; by rewrite Hc. }
  unfold entry, directory_at. split; intros; rewrite Hc; case_decide as Hj; try done; subst.
  - split; intros (n & Hn & H).
    + apply fmap_Some in Hn as (m & Hm & ->). exists m. destruct (Hf m Hm) as [<- _]. done.
    + exists (f n). rewrite Hn. destruct (Hf n Hn) as [-> _]. done.
  - split; intros (n & Hn & H).
    + apply fmap_Some in Hn as (m & Hm & ->). exists m. destruct (Hf m Hm) as [_ <-]. done.
    + exists (f n). rewrite Hn. destruct (Hf n Hn) as [_ ->]. done.
Qed.

Lemma tree_changed v fs fs' e i f : tree v fs -> changed_or_same e i f fs fs' ->
  (forall n, view fs i = Some n -> n_children (f n) = n_children n /\ node_directory (f n) = node_directory n) -> tree v fs'.
Proof using Type.
  intros Ht Hc Hf. destruct (changed_entries _ _ _ _ _ Hc Hf) as [He Hd]. apply (tree_subset v fs); [done| |done]. intros d name c. by apply He.
Qed.

(** Entries of a directory change, the directories stay. *)
Lemma children_directories fs fs' e d g : changed_or_same e d (set_children g) fs fs' ->
  forall i, directory_at fs' i <-> directory_at fs i.
Proof using Type.
  intros Hc i. unfold directory_at. destruct e as [e|]; cbn in Hc; rewrite Hc; [done|]. case_decide as Hi; [|done]. subst i.
  destruct (view fs d) as [n|]; cbn; [|done]. split; intros (m & [= <-] & H); by eexists.
Qed.

Lemma removed_entries fs fs' e d name : remove_child fs d name = Ok (fs', e) ->
  forall d' name' c, entry fs' d' name' c -> entry fs d' name' c /\ (e = None -> dots name = false -> d' = d -> name' <> name).
Proof using IL.
  intros H. apply remove_child_view in H as [_ Hc]. intros d' name' c (n & Hn & Hch). destruct e as [e|]; cbn in Hc; rewrite Hc in Hn.
  - split; [by exists n|done].
  - case_decide as Hd; [|split; [by exists n|done]]. subst d'. apply fmap_Some in Hn as (m & Hm & ->). cbn in Hch.
    destruct (dots name) eqn:Ed; [split; [by exists m|done]|].
    apply lookup_delete_Some in Hch as [Hne Hch]. split; [by exists m|]. intros. congruence.
Qed.

Lemma remove_tree v fs d name : wf fs -> tree v fs -> directory_at fs d ->
  exists fs' e, remove_child fs d name = Ok (fs', e) /\ wf fs' /\ tree v fs' /\ (forall i, directory_at fs' i <-> directory_at fs i).
Proof using IL.
  intros Hw Ht (n & Hn & Hd). destruct (remove_child_ok fs d n name Hw Hn Hd) as (fs' & e & E & Hw').
  exists fs', e. assert (forall i, directory_at fs' i <-> directory_at fs i) as Hdir.
  { apply remove_child_view in E as [_ E]. by eapply children_directories. }
  split_and!; try done. apply (tree_subset v fs); [done| |done]. intros d' name' c He. by eapply removed_entries in He as [? _].
Qed.

Lemma added_entries fs fs' e d c name : add_child fs d c name = Ok (fs', e) ->
  forall d' name' c', entry fs' d' name' c' ->
    (entry fs d' name' c' /\ (e = None -> ~ (d' = d /\ name' = name))) \/ (e = None /\ d' = d /\ name' = name /\ c' = c).
Proof using IL.
  intros H. apply add_child_view in H as [_ Hc]. intros d' name' c' (n & Hn & Hch). destruct e as [e|]; cbn in Hc; rewrite Hc in Hn.
  - left. split; [by exists n|done].
  - case_decide as Hd.
    + subst d'. apply fmap_Some in Hn as (m & Hm & ->). cbn in Hch.
      apply lookup_insert_Some in Hch as [[<- <-]|[Hne Hch]]; [by right|left]. split; [by exists m|]. intros _ [_ ->]. done.
    + left. split; [by exists n|]. intros _ [? _]. done.
Qed.

(** A new name for an inode that is not a directory. *)
Lemma add_file_tree v fs d c n name : wf fs -> tree v fs -> directory_at fs d -> view fs c = Some n -> node_directory n = false ->
  fsid c = fsid d -> exists fs' e, add_child fs d c name = Ok (fs', e) /\ wf fs' /\ tree v fs' /\
    (forall i, directory_at fs' i <-> directory_at fs i).
Proof using IL.
  intros Hw Ht (m & Hm & Hd) Hn Hf Hfs. destruct (add_child_ok fs d m c name Hw Hm Hd ltac:(by eexists) Hfs) as (fs' & e & E & Hw').
  exists fs', e. assert (forall i, directory_at fs' i <-> directory_at fs i) as Hdir.
  { pose proof E as E'. apply add_child_view in E' as [_ E']. by eapply children_directories. }
  assert (~ directory_at fs c) as Hnd by (intros (n' & Hn' & Hd'); congruence).
  split_and!; try done. apply (tree_leaf v fs fs' d name c); try done.
  - intros d' name' c' He. destruct (added_entries _ _ _ _ _ _ E _ _ _ He) as [[? _]|(_ & -> & -> & ->)]; [by left|by right].
  - intros y [ny He]. destruct (added_entries _ _ _ _ _ _ E _ _ _ He) as [[(x & Hx & Hch) _]|(_ & -> & _)]; [|apply Hnd; by exists m].
    rewrite Hn in Hx. injection Hx as <-. by rewrite (files_wf fs c n Hw Hn Hf) in Hch.
  - intros Hr. by destruct (tree_roots v fs Ht c Hr).
  - left. by rewrite Hdir.
Qed.

(** A new inode. *)
Lemma create_tree v fs now d name mode dev u g : wf fs -> tree v fs -> directory_at fs d -> room fs (fsid d) = true ->
  exists fs' r, create_child fs now d name mode dev u g = Ok (fs', r) /\ wf fs' /\ tree v fs' /\
    forall i, r = inr i -> view fs' i = Some (mkNode (Metadata.fresh_metadata mode u g now) ∅ []).
Proof using IL.
  intros Hw Ht (n & Hn & Hd) Hr. destruct (create_child_ok fs now d n name mode dev u g Hw Hn Hd Hr) as (fs' & r & E & Hw').
  exists fs', r. split; [done|]. split; [done|]. apply create_child_view in E; [|done|done|by eexists].
  destruct r as [e|i].
  { split; [|done]. apply (tree_changed v fs fs' (Some e) d id); [done..|by intros]. }
  destruct E as (Hi & _ & _ & Hc). split; [|intros ? [= <-]; by rewrite Hc, decide_True].
  assert (forall d', ~ contains fs d' i) as Hun.
  { intros d' (nm & x & Hx & Hch). destruct (children_wf _ _ _ _ _ Hw Hx Hch) as [_ [y Hy]]. congruence. }
  apply (tree_leaf v fs fs' d name i); [done|..|by right].
  - intros d' name' c (x & Hx & Hch). rewrite Hc in Hx. case_decide as Hd1.
    { injection Hx as <-. cbn in Hch. by rewrite lookup_empty in Hch. }
    case_decide as Hd2; [|left; by exists x]. subst d'. apply fmap_Some in Hx as (y & Hy & ->). cbn in Hch.
    apply lookup_insert_Some in Hch as [[<- <-]|[_ Hch]]; [by right|left; by exists y].
  - intros j Hj. unfold directory_at. rewrite Hc, decide_False by done. case_decide as Hd2; [|done]. subst j. rewrite Hn. cbn.
    split; intros (x & [= <-] & H); by eexists.
  - intros y (nm & x & Hx & Hch). rewrite Hc, decide_True in Hx by done. injection Hx as <-. cbn in Hch. by rewrite lookup_empty in Hch.
  - intros Hroot. destruct (tree_roots v fs Ht i Hroot) as [(x & Hx & _) _]. congruence.
Qed.

(** The inode of an operation on entries is still there. *)
Lemma children_there fs fs' e d g : changed_or_same e d (set_children g) fs fs' -> forall i, is_Some (view fs i) -> is_Some (view fs' i).
Proof using Type.
  intros Hc i [n Hn]. destruct e as [e|]; cbn in Hc; rewrite Hc, ?Hn; [by eexists|]. case_decide; by eexists.
Qed.

(** The entry to take away is there after the other one was added. *)
Lemma added_before fs fs' d c name d' name' c' : add_child fs d c name = Ok (fs', None) ->
  entry fs d' name' c' \/ (d' = d /\ name' = name) -> exists x, entry fs' d' name' x.
Proof using IL.
  intros H He. apply add_child_view in H as [(n & Hn & _) Hc]. cbn in Hc. unfold entry. rewrite Hc. destruct He as [(m & Hm & Hch)|[-> ->]].
  - case_decide as Hd; [|by exists c', m]. subst d'. rewrite Hm. cbn. destruct (decide (name' = name)) as [->|Hne].
    + exists c, (set_children <[name := c]> m). split; [done|]. cbn. apply lookup_insert_eq.
    + exists c', (set_children <[name := c]> m). split; [done|]. cbn. by rewrite lookup_insert_ne.
  - rewrite decide_True, Hn by done. exists c, (set_children <[name := c]> n). split; [done|]. cbn. apply lookup_insert_eq.
Qed.

(** Moving an entry: the new one is added, the old one is removed.  [fs1] is [fs]
    with perhaps fewer entries. *)
Section Move.
Context (v : VFS) (fs fs1 : F) (oldP newP D : InodeIdentifier) (old new : string).
Context (Hw1 : wf fs1) (Ht : tree v fs) (Ht1 : tree v fs1).
Context (Hsub : forall d name c, entry fs1 d name c -> entry fs d name c) (Hsame : forall i, directory_at fs1 i <-> directory_at fs i).
Context (HoldP : directory_at fs1 oldP) (HnewP : directory_at fs1 newP) (HD : is_Some (view fs1 D)) (Hfs : fsid D = fsid newP).
Context (He : entry fs oldP old D) (He1 : entry fs1 oldP old D \/ (oldP = newP /\ old = new)) (Hold : dots old = false).
Context (Hroot : ~ is_root v D) (Hno : directory_at fs D -> ~ rtc (contains fs) D newP).

Definition move_ : res (F * (errno + unit)) :=
  let* (fs, e) := add_child fs1 newP D new in
  match e with Some e => fail fs e | None => finish (remove_child fs oldP old) end.

Lemma move_file n : view fs1 D = Some n -> node_directory n = false -> exists fs' r, move_ = Ok (fs', r) /\ wf fs' /\ tree v fs'.
Proof using HnewP HoldP Hfs Ht1 Hw1 IL.
  intros Hn Hf. destruct (add_file_tree v fs1 newP D n new Hw1 Ht1 HnewP Hn Hf Hfs) as (fs2 & e & E & Hw2 & Ht2 & Hd2).
  unfold move_. rewrite E. cbn. destruct e as [e|]; [by eexists _, _|].
  destruct (remove_tree v fs2 oldP old Hw2 Ht2) as (fs3 & e & E3 & Hw3 & Ht3 & _); [by apply Hd2|].
  rewrite E3. cbn. by eexists _, _.
Qed.

Lemma move_directory : directory_at fs D -> exists fs' r, move_ = Ok (fs', r) /\ wf fs' /\ tree v fs'.
Proof using HD He He1 HnewP Hno Hold HoldP Hroot Hfs Hsame Hsub Ht Ht1 Hw1 IL.
  intros Hd. destruct HnewP as (m & Hm & Hmd). destruct (add_child_ok fs1 newP m D new Hw1 Hm Hmd HD Hfs) as (fs2 & e & E & Hw2).
  unfold move_. rewrite E. cbn [res_bind]. pose proof E as E'. apply add_child_view in E' as [_ E'].
  pose proof (children_directories _ _ _ _ _ E') as Hd2. destruct e as [e|].
  { eexists _, _. split_and!; [done|done|]. apply (tree_changed v fs1 fs2 (Some e) newP id); [done..|by intros]. }
  assert (directory_at fs2 oldP) as (k & Hk & Hkd) by (by apply Hd2).
  destruct (remove_child_ok fs2 oldP k old Hw2 Hk Hkd) as (fs3 & e & E3 & Hw3). rewrite E3. cbn.
  eexists _, _. split_and!; [done|done|]. pose proof E3 as E3'. apply remove_child_view in E3' as [(k' & Hk' & _ & Hfound) E3'].
  assert (e = None) as ->.
  { apply Hfound; [done|]. destruct (added_before _ _ _ _ _ _ _ _ E He1) as (x & k2 & Hk2 & Hx). rewrite Hk' in Hk2. injection Hk2 as <-. by exists x. }
  apply (tree_move v fs fs3 newP new D); [done|done|done|by apply Hno|..].
  - intros d name c Hc. destruct (removed_entries _ _ _ _ _ E3 _ _ _ Hc) as [Hc2 Hgone].
    destruct (added_entries _ _ _ _ _ _ E _ _ _ Hc2) as [[Hc1 _]|(_ & -> & -> & ->)]; [right|by left].
    apply Hsub in Hc1. split; [done|]. intros ->. destruct (tree_once v fs Ht _ _ _ _ _ Hd Hc1 He) as [-> ->]. by apply Hgone.
  - intros i. rewrite (children_directories _ _ _ _ _ E3'), Hd2. apply Hsame.
Qed.

Lemma move_good : exists fs' r, move_ = Ok (fs', r) /\ wf fs' /\ tree v fs'.
Proof using HD He He1 HnewP Hno Hold HoldP Hroot Hfs Hsame Hsub Ht Ht1 Hw1 IL.
  destruct HD as [n Hn]. destruct (node_directory n) eqn:Hd; [|by apply (move_file n)].
  apply move_directory. apply Hsame. by exists n.
Qed.
End Move.

(** ** The calls *)
Section Calls.
Context (can_allocate : Z -> bool) (get_device : Z -> Z -> bool) (now : Z) (v : VFS) (p : Caller) (base : Custody) (fs : F).
Context (Hw : wf fs) (Ht : tree v fs) (Hroom : all_room fs).
Context (Hroot : coherent v fs (root_directory p)) (Hbase : coherent v fs base).

(** The operation answers, and the file systems are in order after it. *)
Definition good {A} (r : res (F * A)) : Prop := exists fs' x, r = Ok (fs', x) /\ wf fs' /\ tree v fs'.

Lemma good_here {A} (x : A) : good (Ok (fs, x)).
Proof using Hw Ht. by exists fs, x. Qed.

Lemma resolve_tree options path : exists out r, resolve can_allocate v p fs path base options = Ok (out, r) /\
  (forall q, out = Some q -> coherent v fs q /\ directory_at fs (inode q)) /\
  (forall c, r = inr c -> coherent v fs c /\ out = parent c).
Proof using Hbase Hroot Ht Hw IL.
  assert (forall c text i flags, coherent v fs c -> leads v p fs c text i flags -> coherent v fs (mkCustody (Some c) text i flags)) as Hnext.
  { intros c text i flags Hc (n & child & Hn & Hd & _ & _ & Hch & Hm). eapply coherent_child; [done|by exists n|by exists n|done]. }
  assert (forall c q, coherent v fs c -> parent c = Some q -> coherent v fs q) as Hpar by (intros c q Hc Hq; by apply (coherent_parent v fs c q)).
  destruct (resolve_total can_allocate v p fs options Hw (coherent v fs) Hroot Hpar
    (fun c text i flags Hc Hl _ => Hnext c text i flags Hc Hl) (fun c => coherent_valid v fs c Hw Ht)
    (fun c text i flags Hc Hl => coherent_valid v fs _ Hw Ht (Hnext c text i flags Hc Hl)) path base Hbase) as (out & r & E). exists out, r. split; [done|].
  apply (resolve_sound can_allocate v p fs options Hw (coherent v fs) (fun q => coherent v fs q /\ directory_at fs (inode q))
    Hroot Hpar (fun c text i flags Hc Hl _ => Hnext c text i flags Hc Hl) (fun c Hc Hd => conj Hc Hd) (coherent_parent v fs) path base out r Hbase E).
Qed.

(** Follows a resolution, with what is known of its results. *)
Ltac resolving out r E :=
  let Ho := fresh "Ho" in let Hc := fresh "Hc" in
  match goal with |- context [resolve _ _ _ _ ?path _ ?options] =>
    destruct (resolve_tree options path) as (out & r & E & Ho & Hc); rewrite E; cbn [res_bind] end.

(** A check of the code that ends the call. *)
Ltac refused := match goal with |- good (if ?b then _ else _) => destruct b; [apply good_here|] end.

Lemma custody_node c : coherent v fs c -> exists n, view fs (inode c) = Some n /\ metadata fs (inode c) = Ok (n_metadata n).
Proof using Ht Hw IL. intros Hc. destruct (coherent_valid v fs c Hw Ht Hc) as [n Hn]. exists n. split; [done|by apply metadata_Ok]. Qed.

Lemma finish_good r : good r -> good (finish (F := F) r).
Proof using Type. intros (fs' & x & -> & H). cbn. by eexists _, _. Qed.

Lemma drop_value_good {A} (r : res (F * (errno + A))) : good r -> good (drop_value r).
Proof using Type. intros (fs' & x & -> & H). cbn. by eexists _, _. Qed.

(** ** Metadata *)

Lemma permission_bits mode m : Metadata.is_directory (Z.lor (Z.land mode (Z.lnot 0xFFF)) (Z.land m 0xFFF)) = Metadata.is_directory mode.
Proof using Type.
  unfold Metadata.is_directory, Metadata.is_type, Metadata.S_IFMT. f_equal. rewrite Z.land_lor_distr_l, <- !Z.land_assoc.
  change (Z.land (Z.lnot 0xFFF) 0xF000) with 0xF000. change (Z.land 0xFFF 0xF000) with 0. by rewrite Z.land_0_r, Z.lor_0_r.
Qed.

Lemma suid_bits mode : Metadata.is_directory (Z.land mode (Z.lnot 0xC00)) = Metadata.is_directory mode.
Proof using Type. unfold Metadata.is_directory, Metadata.is_type. f_equal. rewrite <- Z.land_assoc. f_equal. Qed.

Lemma chmod_good c mode : coherent v fs c -> good (chmod_custody p fs c mode).
Proof using Ht Hw IL.
  intros Hc. unfold chmod_custody. destruct (custody_node c Hc) as (n & Hn & ->). cbn [res_bind].
  refused. refused. apply finish_good.
  destruct (chmod_ok fs (inode c) n (Z.lor (Z.land (Metadata.mode (n_metadata n)) (Z.lnot 0xFFF)) (Z.land mode 0xFFF)) Hw Hn) as (fs' & e & E & Hw').
  { by rewrite permission_bits. }
  exists fs', e. split_and!; try done. apply chmod_view in E. eapply tree_changed; [done..|]. intros n' Hn'.
  rewrite Hn in Hn'. injection Hn' as <-. split; [done|]. unfold node_directory, Metadata.directory. cbn. apply permission_bits.
Qed.

Lemma chown_good c u g : coherent v fs c -> good (chown_custody p fs c u g).
Proof using Ht Hw IL.
  intros Hc. unfold chown_custody. destruct (custody_node c Hc) as (n & Hn & ->). cbn [res_bind].
  do 3 refused. refused.
  assert (forall fs1 u g, wf fs1 -> tree v fs1 -> is_Some (view fs1 (inode c)) -> good (finish (Inode.chown fs1 (inode c) u g))) as Hown.
  { intros fs1 u' g' Hw1 Ht1 [n1 Hn1]. apply finish_good. destruct (chown_ok fs1 (inode c) n1 u' g' Hw1 Hn1) as (fs2 & e & E & Hw2).
    exists fs2, e. split_and!; try done. apply chown_view in E. eapply tree_changed; [done..|]. by intros n' _. }
  destruct (_ || _); cbn [res_bind]; [|by apply Hown; [| |eexists]].
  destruct (chmod_ok fs (inode c) n (Z.land (Metadata.mode (n_metadata n)) (Z.lnot 0xC00)) Hw Hn) as (fs1 & e & E & Hw1); [by rewrite suid_bits|].
  rewrite E. cbn [res_bind]. apply chmod_view in E.
  assert (tree v fs1) as Ht1.
  { eapply tree_changed; [done..|]. intros n' Hn'. rewrite Hn in Hn'. injection Hn' as <-. split; [done|].
    unfold node_directory, Metadata.directory. cbn. apply suid_bits. }
  destruct e as [e|]; [by eexists _, _|]. apply Hown; [done..|]. rewrite E, decide_True, Hn by done. by eexists.
Qed.

Lemma utime_good path atime mtime : good (utime can_allocate v p fs path base atime mtime).
Proof using Hbase Hroot Ht Hw IL.
  unfold utime. resolving out r E. destruct r as [e|c]; [apply good_here|]. destruct (Hc c eq_refl) as [Hcc _].
  destruct (custody_node c Hcc) as (n & Hn & ->). cbn [res_bind].
  refused. refused.
  destruct (set_atime_ok fs (inode c) n atime Hw Hn) as (fs1 & e & E1 & Hw1). rewrite E1. cbn [res_bind]. apply set_atime_view in E1.
  assert (tree v fs1) as Ht1 by (eapply tree_changed; [done..|]; by intros n' _).
  destruct e as [e|]; [by eexists _, _|]. apply finish_good.
  destruct (set_mtime_ok fs1 (inode c) (set_metadata (fun md => Metadata.with_atime md atime) n) mtime Hw1) as (fs2 & e & E2 & Hw2).
  { by rewrite E1, decide_True, Hn. }
  exists fs2, e. split_and!; try done. apply set_mtime_view in E2. eapply tree_changed; [done..|]. by intros n' _.
Qed.

(** ** New inodes *)

Lemma create_missing_good path mode dev : exists fs' r, create_missing can_allocate now v p fs path base mode dev = Ok (fs', r) /\
  wf fs' /\ tree v fs' /\
  forall i, r = inr i -> view fs' i = Some (mkNode (Metadata.fresh_metadata mode (euid p) (egid p) now) ∅ []).
Proof using Hbase Hroom Hroot Ht Hw IL.
  unfold create_missing, missing. resolving out r E. destruct r as [e|c]; cbn [res_bind]; [|by eexists _, _].
  destruct out as [q|]; [|by eexists _, _]. destruct (decide (e = ENOENT)); cbn [res_bind]; [|by eexists _, _].
  destruct (Ho q eq_refl) as [Hq Hd]. unfold may_create_in. destruct (custody_node q Hq) as (n & Hn & ->). cbn [res_bind].
  destruct (negb _); [by eexists _, _|]. destruct (custody_readonly fs q); [by eexists _, _|].
  apply create_tree; [done..|]. apply Hroom. by eexists.
Qed.

Lemma create_missing_good' path mode dev : good (drop_value (create_missing can_allocate now v p fs path base mode dev)).
Proof using Hbase Hroom Hroot Ht Hw IL.
  apply drop_value_good. destruct (create_missing_good path mode dev) as (fs' & r & E & Hw' & Ht' & _). by exists fs', r.
Qed.

Lemma write_tree fs1 fs2 i n n' bytes r : tree v fs1 -> write_bytes fs1 i 0 bytes = Ok (fs2, r) -> view fs1 i = Some n ->
  view fs2 i = Some n' -> node_directory n' = node_directory n -> n_children n' = n_children n -> tree v fs2.
Proof using IL.
  intros Ht1 E Hn Hn' Hd Hch. pose proof (write_frame _ _ _ _ _ _ E) as Hf.
  apply (tree_changed v fs1 fs2 None i (fun _ => n')); [done| |].
  - intros j. destruct (decide (j = i)) as [->|Hj]; [by rewrite Hn', Hn|by apply Hf].
  - intros m Hm. rewrite Hn in Hm. by injection Hm as <-.
Qed.

Lemma bytes_length (s : string) : length (bytes_of_string s) = String.length s.
Proof using Type. induction s as [|a s IH]; cbn; [done|by rewrite IH]. Qed.

Lemma symlink_good target linkpath : 0 < Z.of_nat (String.length target) < 2 ^ 30 ->
  good (symlink can_allocate now v p fs target linkpath base).
Proof using Hbase Hroom Hroot Ht Hw IL.
  intros Hlen. unfold symlink.
  destruct (create_missing_good linkpath (Z.lor Metadata.S_IFLNK 0x1A4) 0) as (fs1 & r & -> & Hw1 & Ht1 & Hi). cbn [res_bind].
  destruct r as [e|i]; [by eexists _, _|]. specialize (Hi i eq_refl). apply drop_value_good.
  destruct (write_ok fs1 i _ (bytes_of_string target) Hw1 Hi) as (fs2 & k & E & Hw2 & n' & Hn' & Hd' & Hc' & _); [done|done| |].
  { by rewrite bytes_length. }
  exists fs2, k. split_and!; try done. by eapply write_tree.
Qed.

Lemma open_custody_good options c : coherent v fs c -> good (open_custody get_device now p fs options c).
Proof using Ht Hw IL.
  intros Hc. unfold open_custody. destruct (custody_node c Hc) as (n & Hn & ->). cbn [res_bind].
  do 3 refused. destruct (has options O_WRONLY && Metadata.directory (n_metadata n)) eqn:Hwd; [apply good_here|]. refused.
  destruct (preopen_fd fs (inode c)); [apply good_here|].
  destruct (Metadata.is_fifo _); [repeat case_if; apply good_here|].
  destruct (Metadata.device _); [repeat case_if; apply good_here|].
  refused. destruct (has options O_WRONLY && has options O_TRUNC) eqn:Ht'; [|apply good_here].
  apply andb_true_iff in Ht' as [Hwo _]. rewrite Hwo in Hwd. cbn in Hwd.
  destruct (truncate_ok fs (inode c) n Hw Hn Hwd) as (fs1 & e & E & Hw1). rewrite E. cbn [res_bind]. apply truncate_view in E.
  assert (tree v fs1) as Ht1 by (eapply tree_changed; [done..|]; by intros n' _).
  destruct e as [e|]; [by eexists _, _|]. cbn in E.
  destruct (set_mtime_ok fs1 (inode c) (set_content [] n) now Hw1) as (fs2 & e & E2 & Hw2); [by rewrite E, decide_True, Hn|].
  rewrite E2. cbn [res_bind]. eexists _, _. split_and!; [done..|]. apply set_mtime_view in E2. eapply tree_changed; [done..|]. by intros n' _.
Qed.

Lemma open_good path options mode owner : good (open can_allocate get_device now v p fs path options mode base owner).
Proof using Hbase Hroom Hroot Ht Hw IL.
  unfold open. refused. resolving out r E.
  destruct (has options O_CREAT); [|destruct r as [e|c]; [apply good_here|apply open_custody_good; by apply Hc]].
  destruct out as [q|]; [|apply good_here]. destruct (Ho q eq_refl) as [Hq Hd].
  destruct r as [e|c]; [|destruct (has options O_EXCL); [apply good_here|apply open_custody_good; by apply Hc]].
  destruct e; try apply good_here. unfold create. destruct (validate _ _ _); [apply good_here|].
  destruct (custody_node q Hq) as (n & Hn & ->). cbn [res_bind].
  refused. refused.
  match goal with |- context [create_child fs now (inode q) ?nm ?m ?dv ?u ?g] =>
    destruct (create_tree v fs now (inode q) nm m dv u g Hw Ht Hd) as (fs' & r & -> & Hw' & Ht' & _); [apply Hroom; by eexists|] end.
  cbn [res_bind]. destruct r; by eexists _, _.
Qed.

(** ** Entries *)

Lemma root_parent c : coherent v fs c -> parent c = None -> m_root_inode v = Some (inode c).
Proof using Type. by intros [|]. Qed.

Lemma remove_good d name : directory_at fs d -> good (finish (remove_child fs d name)).
Proof using Ht Hw IL.
  intros Hd. apply finish_good. destruct (remove_tree v fs d name Hw Ht Hd) as (fs' & e & E & Hw' & Ht' & _). by exists fs', e.
Qed.

Lemma unlink_good path : good (unlink can_allocate v p fs path base).
Proof using Hbase Hroot Ht Hw IL.
  unfold unlink. resolving out r E. destruct r as [e|c]; [apply good_here|]. destruct (Hc c eq_refl) as [Hcc ->].
  destruct (custody_node c Hcc) as (n & Hn & ->). cbn [res_bind]. destruct (Metadata.directory (n_metadata n)) eqn:Hnd; [apply good_here|].
  destruct (parent c) as [q|] eqn:Hq; cbn [of_opt res_bind].
  - destruct (Ho q eq_refl) as [Hqc Hqd]. destruct (custody_node q Hqc) as (m & Hm & ->). cbn [res_bind].
    refused. refused.
    refused. by apply remove_good.
  - exfalso. destruct (tree_roots v fs Ht (inode c)) as [(m & Hm & Hd) _]; [left; by apply root_parent|]. unfold node_directory in Hd. congruence.
Qed.

Lemma link_good old_path new_path : good (link can_allocate v p fs old_path new_path base).
Proof using Hbase Hroot Ht Hw IL.
  unfold link. resolving out r E. destruct r as [e|c]; [apply good_here|]. destruct (Hc c eq_refl) as [Hcc _].
  resolving out' r' E'. destruct r' as [e|c']; [|apply good_here]. destruct out' as [q|]; [|apply good_here].
  destruct (Ho0 q eq_refl) as [Hqc Hqd]. destruct (negb (fsid _ =? fsid _)) eqn:Hf; [apply good_here|].
  destruct (custody_node q Hqc) as (m & Hm & ->). destruct (custody_node c Hcc) as (n & Hn & ->). cbn [res_bind].
  refused. destruct (Metadata.directory (n_metadata n)) eqn:Hnd; [apply good_here|].
  refused. refused. apply finish_good.
  destruct (add_file_tree v fs (inode q) (inode c) n (LexicalPath.basename new_path) Hw Ht Hqd Hn Hnd) as (fs' & e' & E2 & Hw' & Ht' & _).
  { apply negb_false_iff, Z.eqb_eq in Hf. done. }
  by exists fs', e'.
Qed.

Lemma rmdir_good path : good (rmdir can_allocate v p fs path base).
Proof using Hbase Hroot Ht Hw IL.
  unfold rmdir. resolving out r E. destruct r as [e|c]; [apply good_here|]. destruct (Hc c eq_refl) as [Hcc ->].
  destruct (custody_node c Hcc) as (n & Hn & ->). cbn [res_bind]. destruct (Metadata.directory (n_metadata n)) eqn:Hnd; [|apply good_here].
  cbn [negb]. destruct (parent c) as [q|] eqn:Hq; [|apply good_here]. destruct (Ho q eq_refl) as [Hqc Hqd].
  destruct (custody_node q Hqc) as (m & Hm & ->). cbn [res_bind]. refused. refused.
  rewrite (entry_count_view fs (inode c) n Hw Hn Hnd). cbn [res_bind]. refused.
  refused.
  destruct (remove_tree v fs (inode c) "." Hw Ht) as (fs1 & e & -> & Hw1 & Ht1 & Hd1); [by exists n|]. cbn [res_bind].
  destruct e as [e|]; [by eexists _, _|].
  destruct (remove_tree v fs1 (inode c) ".." Hw1 Ht1) as (fs2 & e & -> & Hw2 & Ht2 & Hd2); [apply Hd1; by exists n|]. cbn [res_bind].
  destruct e as [e|]; [by eexists _, _|]. apply finish_good.
  destruct (remove_tree v fs2 (inode q) (LexicalPath.basename path) Hw2 Ht2) as (fs3 & e & E3 & Hw3 & Ht3 & _); [by apply Hd2, Hd1|].
  by exists fs3, e.
Qed.

(** ** Renaming

    The old path ends in a name, and neither it nor the new path leads to a place where
    the code cannot handle: the old one to no root, the new one not to the root. *)
Definition rename_ok (old_path new_path : string) : Prop :=
  (exists pre last, texts (split_view "/"%char true old_path) = pre ++ [last] /\ PathFacts.plain last = true) /\
  (forall out c, resolve can_allocate v p fs old_path base O_NOFOLLOW_NOERROR = Ok (out, inr c) -> ~ is_root v (inode c)) /\
  (forall out c, resolve can_allocate v p fs new_path base 0 = Ok (out, inr c) -> m_root_inode v <> Some (inode c)).

(** The entry the old path names. *)
Lemma old_entry old_path out c pre last : resolve can_allocate v p fs old_path base O_NOFOLLOW_NOERROR = Ok (out, inr c) ->
  coherent v fs c -> texts (split_view "/"%char true old_path) = pre ++ [last] -> PathFacts.plain last = true -> ~ is_root v (inode c) ->
  exists q, parent c = Some q /\ entry fs (inode q) (LexicalPath.basename old_path) (inode c) /\ dots (LexicalPath.basename old_path) = false.
Proof using Type.
  intros E Hc Hs Hp Hr. assert (LexicalPath.basename old_path = last) as ->.
  { apply (PathFacts.basename_plain _ (List.filter (fun s => negb (is_empty s)) pre)); [|done]. rewrite PathFacts.split_view_keep, Hs.
    rewrite List.filter_app. cbn. apply PathFacts.plain_spec in Hp as (_ & -> & _). done. }
  assert (name c = last) as Hn by (eapply (resolve_named can_allocate v p fs O_NOFOLLOW_NOERROR); [done|exact E|exact Hs|done]).
  destruct Hc as [nm r flags Hr0|q nm child i flags f Hq Hd He Hm]; cbn in *; [exfalso; apply Hr; by left|]. subst nm.
  exists q. split; [done|]. apply PathFacts.plain_spec in Hp as (_ & _ & Hd1 & Hd2). split; [|unfold dots; by rewrite Hd1, Hd2].
  destruct (mounted_cases _ _ _ _ _ Hm) as [-> |Hg]; [done|]. exfalso. apply Hr. by right.
Qed.

(** Taking the entry away that has the new name. *)
Lemma removed_first d name d' name' c fs1 e : dots name' = false -> entry fs d' name' c ->
  remove_child fs d name = Ok (fs1, e) -> entry fs1 d' name' c \/ (d' = d /\ name' = name).
Proof using IL.
  intros Hdots (n & Hn & Hch) E. apply remove_child_view in E as [_ Hc]. unfold entry. destruct e as [e|]; cbn in Hc; rewrite Hc.
  { left. by exists n. }
  case_decide as Hd; [|left; by exists n]. subst d'. rewrite Hn. cbn. destruct (dots name); [left; by eexists|].
  destruct (decide (name' = name)) as [->|Hne]; [by right|left]. eexists. split; [done|]. cbn. by rewrite lookup_delete_ne.
Qed.

Lemma rename_good old_path new_path : rename_ok old_path new_path -> good (rename can_allocate v p fs old_path new_path base).
Proof using Hbase Hroot Ht Hw IL.
  intros ((pre & last & Hs & Hp) & Hold & Hnew). unfold rename. resolving out r E. destruct r as [e|c]; [apply good_here|].
  destruct (Hc c eq_refl) as [Hcc ->]. destruct (old_entry _ _ _ _ _ E Hcc Hs Hp (Hold _ _ E)) as (q & Hq & He & Hdots). rewrite Hq in *.
  destruct (Ho q eq_refl) as [Hqc Hqd]. clear Ho Hc. resolving out' r' E'. rename Ho into Ho', Hc into Hc'.
  destruct (match r' with inl e => _ | inr _ => None end) as [e|] eqn:Hne; [apply good_here|].
  assert (exists q', out' = Some q') as [q' ->].
  { destruct r' as [e|c']; [case_decide as Hcase; [done|]; destruct out'; [by eexists|exfalso; apply Hcase; by right]|].
    destruct (Hc' c' eq_refl) as [Hcc' ->]. destruct (parent c') eqn:Hpc; [by eexists|]. by apply root_parent in Hpc; [apply Hnew in E'|]. }
  destruct (Ho' q' eq_refl) as [Hqc' Hqd']. cbn [of_opt res_bind].
  destruct (negb (fsid (inode q) =? fsid (inode q'))) eqn:Hf; [apply good_here|]. apply negb_false_iff, Z.eqb_eq in Hf.
  destruct (bool_decide (inode c ∈ _)) eqn:Hin; [apply good_here|]. apply bool_decide_eq_false in Hin.
  destruct (custody_node q' Hqc') as (nq' & Hnq' & ->), (custody_node q Hqc) as (nq & Hnq & ->), (custody_node c Hcc) as (n & Hn & ->).
  cbn [res_bind]. do 4 refused.
  assert (fsid (inode c) = fsid (inode q')) as Hfs.
  { destruct He as (m & Hm & Hch). rewrite <- Hf. destruct (children_wf fs _ m _ _ Hw Hm Hch). done. }
  assert (~ is_root v (inode c)) as Hnr by (by apply (Hold _ _ E)).
  assert (forall fs1, wf fs1 -> tree v fs1 -> (forall d name x, entry fs1 d name x -> entry fs d name x) ->
    (forall i, directory_at fs1 i <-> directory_at fs i) -> is_Some (view fs1 (inode c)) ->
    entry fs1 (inode q) (LexicalPath.basename old_path) (inode c) \/ (inode q = inode q' /\ LexicalPath.basename old_path = LexicalPath.basename new_path) ->
    good (move_ fs1 (inode q) (inode q') (inode c) (LexicalPath.basename old_path) (LexicalPath.basename new_path))) as Hmove.
  { intros fs1 Hw1 Ht1 Hsub Hsame Hv He1. apply (move_good v fs fs1); try done; [by apply Hsame..|].
    intros _ Hrtc. apply Hin. by apply (coherent_ancestors v fs). }
  clear Hne. destruct r' as [e|c']; [apply Hmove; try done; by left|].
  destruct (decide _); [apply good_here|]. destruct (Hc' c' eq_refl) as [Hcc' _]. destruct (custody_node c' Hcc') as (n' & Hn' & ->). cbn [res_bind].
  do 2 refused. destruct (remove_tree v fs (inode q') (LexicalPath.basename new_path) Hw Ht Hqd') as (fs1 & e & E1 & Hw1 & Ht1 & Hd1).
  rewrite E1. cbn [res_bind]. destruct e as [e|]; [by eexists _, _|]. apply Hmove; try done.
  - intros d name x Hx. by destruct (removed_entries _ _ _ _ _ E1 _ _ _ Hx).
  - pose proof E1 as E1'. apply remove_child_view in E1' as [_ E1']. eapply children_there; [exact E1'|by eexists].
  - by apply (removed_first (inode q') (LexicalPath.basename new_path) _ _ _ fs1 None).
Qed.

(** ** All of them *)
Definition call_ok (call : Call) : Prop :=
  match call with
  | Symlink target _ => 0 < Z.of_nat (String.length target) < 2 ^ 30
  | Rename old_path new_path => rename_ok old_path new_path
  | _ => True
  end.

Lemma perform_good call : call_ok call -> good (perform can_allocate get_device now v p fs base call).
Proof using Hbase Hroom Hroot Ht Hw IL.
  destruct call as [path options mode|path mode dev|path mode|target linkpath|path mode|path u g|path atime mtime|old new|old new|path|path];
    cbn [perform call_ok]; intros Hok.
  - apply drop_value_good, open_good.
  - unfold mknod. refused. apply create_missing_good'.
  - apply create_missing_good'.
  - by apply symlink_good.
  - unfold chmod. resolving out r E. destruct r as [e|c]; [apply good_here|]. apply chmod_good. by apply Hc.
  - unfold chown. resolving out r E. destruct r as [e|c]; [apply good_here|]. apply chown_good. by apply Hc.
  - apply utime_good.
  - by apply rename_good.
  - apply link_good.
  - apply unlink_good.
  - apply rmdir_good.
Qed.
End Calls.

(** ** Mounts *)
Lemma tree_mounts v v' fs : tree v fs -> m_root_inode v' = m_root_inode v ->
  (forall m, m ∈ m_mounts v' -> is_root v (m_guest m) \/ (directory_at fs (m_guest m) /\ forall d, ~ contains fs d (m_guest m))) -> tree v' fs.
Proof using Type.
  intros [H1 H2 H3 H4] Hr Hm. split; [by rewrite Hr| |done|done]. intros i [Hi|(m & Hin & <-)].
  - apply H2. left. by rewrite <- Hr.
  - destruct (Hm m Hin) as [Hg|Hg]; [by apply H2|done].
Qed.

Lemma set_flags_guests l guest flags l' m : set_flags_of l guest flags = Some l' -> m ∈ l' -> exists m', m' ∈ l /\ m_guest m' = m_guest m.
Proof using Type.
  revert l'. induction l as [|x l IH]; intros l'; cbn; [done|]. case_if.
  - intros [= <-] [->|Hm]%elem_of_cons; [exists x; split; [by left|done]|exists m; split; [by right|done]].
  - intros (k & Hk & ->)%fmap_Some [->|Hm]%elem_of_cons; [exists x; split; [by left|done]|].
    destruct (IH k Hk Hm) as (m' & ? & ?). exists m'. split; [by right|done].
Qed.

Lemma unstable_take_elem l i m : m ∈ unstable_take l i -> m ∈ l.
Proof using Type.
  unfold unstable_take. destruct (last l) as [k|] eqn:Hk; [|done]. intros Hm.
  assert (m ∈ <[i := k]> l) as Hm'.
  { apply list_elem_of_In. apply list_elem_of_In in Hm. revert Hm. generalize (<[i:=k]> l). intros l'. induction l' as [|x l' IH]; [done|].
    cbn. destruct l'; [done|]. intros [->|H]; [by left|right; by apply IH]. }
  apply list_elem_of_lookup in Hm' as [j Hj]. apply list_lookup_insert_Some in Hj as [(_ & -> & _)|[_ Hj]]; [|by eapply list_elem_of_lookup_2].
  rewrite last_lookup in Hk. by eapply list_elem_of_lookup_2.
Qed.

(** ** Every state that can be reached

    A step is a call of a process with coherent custodies, or a change of the mounts:
    only directories without a name are mounted, as the roots of file systems are. *)
Inductive step (can_allocate : Z -> bool) (get_device : Z -> Z -> bool) : VFS * F -> VFS * F -> Prop :=
| step_call v fs fs' now p base call r : coherent v fs (root_directory p) -> coherent v fs base -> all_room fs ->
    call_ok can_allocate v p base fs call -> perform can_allocate get_device now v p fs base call = Ok (fs', r) ->
    step can_allocate get_device (v, fs) (v, fs')
| step_mount v fs guest mount_point flags : directory_at fs guest -> (forall d, ~ contains fs d guest) ->
    step can_allocate get_device (v, fs) (mount v guest mount_point flags, fs)
| step_remount v fs mount_point flags v' e : remount v mount_point flags = (v', e) -> step can_allocate get_device (v, fs) (v', fs)
| step_unmount v fs busy guest v' e : unmount v busy guest = (v', e) -> step can_allocate get_device (v, fs) (v', fs).

Lemma step_tree can_allocate get_device v fs v' fs' : step can_allocate get_device (v, fs) (v', fs') -> wf fs -> tree v fs -> wf fs' /\ tree v' fs'.
Proof using IL.
  intros Hs Hw Ht. inversion Hs as [? ? ? now p base call r Hr Hb Hroom Hok Hp|? ? guest mp flags Hd Hno|? ? mp flags ? e E|? ? busy guest ? e E]; subst.
  - destruct (perform_good can_allocate get_device now v' p base fs Hw Ht Hroom Hr Hb call Hok) as (fs2 & x & E & H). rewrite Hp in E. by injection E as <- _.
  - split; [done|]. apply (tree_mounts v); [done..|]. intros m [Hm|Hm]%elem_of_app.
    + left. right. by exists m.
    + apply list_elem_of_singleton in Hm as ->. by right.
  - split; [done|]. unfold remount in E. destruct (set_flags_of _ _ _) as [l|] eqn:El; injection E as <- _; [|done].
    apply (tree_mounts v); [done..|]. cbn. intros m Hm. destruct (set_flags_guests _ _ _ _ _ El Hm) as (m' & Hm' & Hg). left. right. by exists m'.
  - split; [done|]. unfold unmount in E. destruct (index_of_guest _ _ _) as [i|]; [|by injection E as <- _].
    destruct busy; injection E as <- _; [done|]. apply (tree_mounts v); [done..|]. cbn. intros m Hm%unstable_take_elem. left. right. by exists m.
Qed.

Lemma steps_tree can_allocate get_device s s' : rtc (step can_allocate get_device) s s' -> wf (snd s) -> tree (fst s) (snd s) ->
  wf (snd s') /\ tree (fst s') (snd s').
Proof using IL.
  induction 1 as [|[v1 fs1] [v2 fs2] s3 Hs _ IH]; [done|]. intros Hw Ht. destruct (step_tree _ _ _ _ _ _ Hs Hw Ht) as [Hw' Ht']. by apply IH.
Qed.
End Tree.

End VfsTree.
