(* ===== verification/VfsPaths.v ===== *)
(** * The path of a custody

    [walkable] says how a custody was reached: every step of it is one the walk of
    VFS::resolve_path_without_veil may take.  Every custody a path resolves to is
    walkable, and the absolute path of a walkable custody resolves to it. *)
From Stdlib Require Import Ascii.
From S2P Require Import Prelude KBuffer Credentials Mmap Paths FileSystem Unveil Vfs VfsFacts.
Import Custody Inode VFS VfsFacts Unveil StringView Errno Slice.

Module VfsPaths.

Section Walkable.
Context {F : Type} {I : Inodes F} {IL : InodeLaws F}.
Context (can_allocate : Z -> bool) (v : VFS) (p : Caller) (fs : F).

(** Reached from the root directory of the process, without symbolic links. *)
Inductive walkable : Custody -> Prop :=
| walkable_root : walkable (root_directory p)
| walkable_child c text i flags m : walkable c -> leads v p fs c text i flags -> view fs i = Some m ->
    Metadata.symlink (n_metadata m) = false -> walkable (mkCustody (Some c) text i flags).

Definition names (c : Custody) : list string := rev (removelast (name <$> chain c)).

Definition names_without_null (c : Custody) : Prop := Forall (fun n => c_string n = n) (names c).

Lemma chain_nonempty c : name <$> chain c <> [].
Proof using Type. by destruct c as [[q|] n i f]. Qed.

Lemma names_child c text i flags : names (mkCustody (Some c) text i flags) = names c ++ [text].
Proof using Type.
  unfold names. cbn [chain]. rewrite fmap_cons. cbn [name]. destruct (name <$> chain c) eqn:E; [by apply chain_nonempty in E|]. done.
Qed.

Context (Hw : wf fs) (Htop : parent (root_directory p) = None).

Lemma names_root : names (root_directory p) = [].
Proof using Htop. destruct (root_directory p) as [q n i f]. cbn in Htop. by subst q. Qed.

Lemma walkable_names c : walkable c -> Forall (fun n => PathFacts.plain n = true) (names c).
Proof using Htop.
  induction 1 as [|c text i flags m Hc IH (n & child & _ & _ & _ & Hp & _) Hm Hs]; [by rewrite names_root|].
  rewrite names_child. apply Forall_app. split; [done|]. by apply Forall_singleton.
Qed.

Lemma absolute_path_names c : walkable c -> names_without_null c ->
  absolute_path c = if decide (names c = []) then "/"%string else LexicalPath.build true (names c).
Proof using Htop.
  intros Hc Hn. unfold absolute_path. destruct Hc as [|c text i flags m Hc Hl Hm Hs].
  - by rewrite Htop, names_root.
  - cbn [parent]. rewrite decide_False by (rewrite names_child; by destruct (names c)). f_equal. fold (names (mkCustody (Some c) text i flags)).
    clear -Hn. unfold names_without_null in Hn. induction Hn as [|x l Hx _ IH]; [done|]. cbn. by rewrite Hx, IH.
Qed.

(** The walk along the names of a walkable custody, as far as [c]. *)
Lemma walk_names options resolve path pre c rest out : walkable c -> texts pre = names c ->
  walk can_allocate v p fs options resolve path (pre ++ rest) (root_directory p) out = walk can_allocate v p fs options resolve path rest c out.
Proof using Hw Htop IL.
  intros Hc. revert pre rest. induction Hc as [|c text i flags m Hc IH (n & child & Hn & Hd & Hx & Hp & Hch & Hmt) Hm Hs]; intros pre rest.
  - rewrite names_root. by destruct pre.
  - rewrite names_child. intros Hpre. unfold texts in Hpre. apply fmap_app_inv in Hpre as (pre1 & pre2 & H1 & Ht & ->).
    destruct pre2 as [|part [|? ?]]; try done. cbn in Ht. injection Ht as ->.
    rewrite <- app_assoc. rewrite (IH pre1 ([part] ++ rest) (eq_sym H1)). cbn [app walk]. rewrite (metadata_Ok _ _ _ Hn). cbn [res_bind].
    unfold node_directory in Hd. rewrite Hd, Hx. cbn [negb].
    apply PathFacts.plain_spec in Hp as (_ & He & Hdot & Hdd). rewrite Hdd, Hdot, He. cbn [orb].
    rewrite (lookup_view fs (inode c) n) by (done || (unfold dots; by rewrite Hdot, Hdd)). cbn [res_bind]. rewrite Hch.
    fold (mounted v child (mount_flags c)). rewrite Hmt. rewrite (metadata_Ok _ _ _ Hm). cbn [res_bind]. by rewrite Hs.
Qed.

Context (Hopen : exists n, view fs (inode (root_directory p)) = Some n /\ node_directory n = true /\ may_execute (n_metadata n) p = true).

(** An empty part stays where it is. *)
Lemma walk_empty options resolve path part rest out : v_text part = ""%string ->
  walk can_allocate v p fs options resolve path (part :: rest) (root_directory p) out =
  walk can_allocate v p fs options resolve path rest (root_directory p) out.
Proof using Hopen IL.
  destruct Hopen as (n & Hn & Hd & Hx). intros Hp. cbn [walk]. rewrite (metadata_Ok _ _ _ Hn). cbn [res_bind].
  unfold node_directory in Hd. by rewrite Hd, Hx, Hp.
Qed.

(** The absolute path leads back. *)
Lemma absolute_path_walk options levels base out c : walkable c -> names_without_null c ->
  resolve_path_without_veil can_allocate v p fs options (S levels) (absolute_path c) base out = Ok (parent c, inr c).
Proof using Hopen Htop Hw IL.
  intros Hc Hn. rewrite (absolute_path_names c Hc Hn). cbn [resolve_path_without_veil]. pose proof (walkable_names c Hc) as Hplain.
  destruct (decide (names c = [])) as [E|E].
  - change (is_empty "/") with false. change (LexicalPath.first_is_slash "/") with true. cbn match.
    change (split_view "/" true "/") with [mkView 0 ""; mkView 1 ""]. rewrite !walk_empty by done. cbn [walk].
    pose proof (walk_names options (resolve_path_without_veil can_allocate v p fs options levels) "/" [] c [] out Hc (eq_sym E)) as H.
    cbn [app walk] in H. done.
  - assert (is_empty (LexicalPath.build true (names c)) = false) as -> by (by destruct (names c)).
    assert (LexicalPath.first_is_slash (LexicalPath.build true (names c)) = true) as -> by (by destruct (names c)).
    pose proof (PathFacts.split_view_names true (names c) E Hplain) as Hs.
    destruct (split_view "/" true (LexicalPath.build true (names c))) as [|part rest]; [done|]. cbn in Hs. injection Hs as Hpart Hrest.
    rewrite walk_empty by done. rewrite <- (app_nil_r rest). rewrite (walk_names _ _ _ rest c [] out Hc Hrest). done.
Qed.

Lemma walkable_parent c q : walkable c -> parent c = Some q -> walkable q.
Proof using Htop. intros [|c' text i flags m Hc Hl Hm Hs]; [by rewrite Htop|]. by intros [= <-]. Qed.

Lemma leads_there c text i flags : Forall (fun m => is_Some (view fs (m_guest m))) (m_mounts v) ->
  leads v p fs c text i flags -> is_Some (view fs i).
Proof using Hw IL.
  intros Hg (n & child & Hn & _ & _ & _ & Hch & Hm). unfold mounted in Hm. destruct (find_mount_for_host v child) as [m|] eqn:E; injection Hm as <- _.
  - unfold find_mount_for_host in E. apply find_some in E as [E _]. rewrite Forall_forall in Hg. by apply Hg, list_elem_of_In.
  - by destruct (children_wf fs _ n _ _ Hw Hn Hch).
Qed.

(** What a path resolves to is walkable, unless it may be a symbolic link itself. *)
Lemma resolve_walkable options path base out c : has options O_NOFOLLOW_NOERROR = false ->
  Forall (fun m => is_Some (view fs (m_guest m))) (m_mounts v) -> walkable base ->
  resolve can_allocate v p fs path base options = Ok (out, inr c) -> walkable c /\ out = parent c.
Proof using Htop Hw IL.
  intros Ho Hguests Hb E. unfold resolve in E.
  destruct (resolve_sound can_allocate v p fs options Hw walkable (fun _ => True) walkable_root walkable_parent) with (path := path) (base := base) (out := out) (r := inr c : errno + Custody)
    as [_ H]; [|done|done|done|done|by apply H].
  intros c' text i flags Hc Hl Hs. destruct (leads_there _ _ _ _ Hguests Hl) as [m Hm]. eapply walkable_child; [done|done|exact Hm|].
  destruct (Metadata.symlink (n_metadata m)) eqn:El; [|done]. specialize (Hs m Hm El). congruence.
Qed.
End Walkable.

End VfsPaths.
