(* ===== verification/VfsVeil.v ===== *)
(** * What a veiled process can open

    [unveiled h p]: the process [p] started without a veil and made calls of
    sys$unveil, whatever the file systems were at each; [h] has the path and the
    permissions of every call that was accepted.  What the process can open or remove
    afterwards is covered by a call in [h]. *)
From Stdlib Require Import Ascii.
From S2P Require Import Prelude KBuffer Credentials Mmap Paths FileSystem Unveil Vfs.
Import Custody Inode VFS Unveil UnveilFacts StringView Errno Slice.

Module VfsVeil.

Section Veil.
Context {F : Type} {I : Inodes F} (can_allocate : Z -> bool) (PATH_MAX : Z).

(** What a call that is accepted unveils: the path the name resolves to, or would have
    when it does not exist yet and may be created. *)
Definition unveils (v : VFS) (fs : F) (p : Caller) (path letters : string) (parts : list string) (perms : Z) : Prop :=
  parse_permissions letters 0 = Some perms /\
  exists out r, resolve_path_without_veil can_allocate v p fs 0 symlink_recursion_limit path (root_directory p) None = Ok (out, r) /\
    ((exists c, r = inr c /\ parts = LexicalPath.parts (absolute_path c)) \/
     (exists q, r = inl ENOENT /\ out = Some q /\ has perms CreateOrRemove = true /\
        parts = LexicalPath.parts (absolute_path q ++ "/" ++ LexicalPath.basename path)%string)).

Inductive unveiled : History -> Caller -> Prop :=
| unveiled_start p : veil_state p = VeilNone -> unveiled_paths p = unveil_root -> unveiled [] p
| unveiled_lock h p p' v fs r : unveiled h p -> sys_unveil can_allocate PATH_MAX v fs p NullString NullString = Ok (p', r) -> unveiled h p'
| unveiled_error h p p' v fs path permissions e : unveiled h p ->
    sys_unveil can_allocate PATH_MAX v fs p path permissions = Ok (p', Some e) -> unveiled h p'
| unveiled_path h p p' v fs path letters parts perms : unveiled h p ->
    sys_unveil can_allocate PATH_MAX v fs p (UserText path) (UserText letters) = Ok (p', None) ->
    unveils v fs p path letters parts perms -> unveiled ((parts, perms) :: h) p'.

(** The cases of the system call. *)
Lemma sys_unveil_cases h v fs p path permissions p' r : granted h (unveiled_paths p) ->
  sys_unveil can_allocate PATH_MAX v fs p path permissions = Ok (p', r) ->
  (p' = with_veil p Locked (unveiled_paths p) /\ r = None /\ path = NullString /\ permissions = NullString) \/
  (unveiled_paths p' = unveiled_paths p /\ veil_state p' = veil_state p /\ is_Some r) \/
  (exists s letters parts perms, path = UserText s /\ permissions = UserText letters /\ r = None /\ veil_state p <> Locked /\
     unveils v fs p s letters parts perms /\ granted ((parts, perms) :: h) (unveiled_paths p')).
Proof using Type.
  intros Hg. unfold sys_unveil. destruct (is_null path && is_null permissions) eqn:E0.
  { intros [= <- <-]. left. split_and!; [done..| |]; by destruct path, permissions. }
  destruct (decide (veil_state p = Locked)) as [Hl|Hl]; [intros [= <- <-]; right; left; split_and!; [done|done|by eexists]|].
  assert (forall e, Ok (p, Some e) = Ok (p', r) -> (unveiled_paths p' = unveiled_paths p /\ veil_state p' = veil_state p /\ is_Some r)) as He
    by (intros e [= <- <-]; split_and!; [done|done|by eexists]).
  destruct (is_null path || is_null permissions); [intros ?%He; by right; left|].
  destruct (5 <? user_length permissions); [intros ?%He; by right; left|].
  unfold get_syscall_path_argument. destruct (user_length path =? 0); [intros ?%He; by right; left|].
  destruct (PATH_MAX <? user_length path); [intros ?%He; by right; left|].
  destruct path as [| |s]; [intros ?%He; by right; left..|]. destruct (_ || _); [intros ?%He; by right; left|].
  destruct permissions as [| |letters]; [intros ?%He; by right; left..|].
  destruct (parse_permissions letters 0) as [perms|] eqn:Ep; [|intros ?%He; by right; left].
  intros ([out x] & Ex & H)%res_bind_Ok. destruct (match x with inl _ => _ | inr _ => _ end) as [e|np] eqn:En; [apply He in H; by right; left|].
  destruct (unveil_path (unveiled_paths p) (veil_state p) np perms) as [[t state] e] eqn:Eu. injection H as <- <-.
  pose proof (unveil_path_granted h _ _ _ _ _ _ _ Hg Eu) as Hu. destruct e as [e|]; [destruct Hu as [-> ->]; right; left; split_and!; [done|done|by eexists]|].
  right; right. exists s, letters, (LexicalPath.parts np), perms. split_and!; try done. split; [done|]. exists out, x. split; [done|].
  destruct x as [e|c]; [|left; exists c; split; [done|]; by injection En as <-].
  destruct out as [q|]; [|done]. destruct (bool_decide (e = ENOENT)) eqn:Ee; [|done]. apply bool_decide_eq_true in Ee as ->.
  destruct (has perms CreateOrRemove) eqn:Hc; [|done]. right. exists q. split_and!; try done. by injection En as <-.
Qed.

Lemma unveils_fun v fs p path letters parts perms parts' perms' : unveils v fs p path letters parts perms ->
  unveils v fs p path letters parts' perms' -> parts = parts' /\ perms = perms'.
Proof using Type.
  intros [Hp (out & r & E & H)] [Hp' (out' & r' & E' & H')]. rewrite Hp in Hp'. injection Hp' as <-. rewrite E in E'. injection E' as <- <-.
  destruct H as [(c & -> & ->)|(q & -> & -> & _ & ->)], H' as [(c' & E2 & ->)|(q' & E2 & E3 & _ & ->)]; try discriminate E2;
    (injection E2 as <- || injection E3 as <-); done.
Qed.

(** The trie of the process says no more than the calls did. *)
Lemma unveiled_granted h p : unveiled h p -> granted h (unveiled_paths p).
Proof using Type.
  induction 1 as [p _ Hp|h p p' v fs r Hu IH E|h p p' v fs path permissions e Hu IH E|h p p' v fs path letters parts perms Hu IH E Hup].
  - rewrite Hp. apply granted_root.
  - destruct (sys_unveil_cases h _ _ _ _ _ _ _ IH E) as [(-> & _)|[(-> & _)|(? & ? & ? & ? & ? & _)]]; [done..|discriminate].
  - destruct (sys_unveil_cases h _ _ _ _ _ _ _ IH E) as [(_ & ? & _)|[(-> & _)|(? & ? & ? & ? & _ & _ & ? & _)]]; [discriminate|done|discriminate].
  - destruct (sys_unveil_cases h _ _ _ _ _ _ _ IH E) as [(_ & _ & ? & _)|[(_ & _ & [? ?])|(s & l & parts' & perms' & Es & El & _ & _ & Hup' & Hg)]];
      [discriminate..|]. injection Es as <-. injection El as <-. by destruct (unveils_fun _ _ _ _ _ _ _ _ _ Hup Hup') as [-> ->].
Qed.

(** The permissions opening a path needs. *)
Definition needed (h : History) (path : string) (options : Z) : Prop :=
  let covered := covers h (LexicalPath.parts path) in
  (has options O_CREAT = true -> covered CreateOrRemove) /\
  (has options O_RDONLY = true -> covered (if has options O_DIRECTORY then Z.lor Read Browse else Read)) /\
  (has options O_WRONLY = true -> covered Write) /\
  (has options O_EXEC = true -> covered Execute).

Definition loader : string := "/usr/lib/Loader.so".

Lemma validate_needed h p path options : granted h (unveiled_paths p) -> veil_state p <> VeilNone -> has options O_UNLINK_INTERNAL = false ->
  path <> loader -> validate p path options = None -> needed h path options.
Proof using Type.
  intros Hg Hs Ho Hl H. destruct (validate_covers h _ _ _ _ Hg Hs Hl H) as (H1 & _ & H2). destruct (H2 Ho) as (H3 & H4 & H5). done.
Qed.

Lemma resolve_validated v p fs path base options out c : resolve can_allocate v p fs path base options = Ok (out, inr c) ->
  validate p (absolute_path c) options = None.
Proof using Type.
  unfold resolve, resolve_path, resolve_with. intros ([o r] & _ & H)%res_bind_Ok. destruct r as [e|c']; [done|].
  destruct (validate p (absolute_path c') options) eqn:E; [done|]. by injection H as _ <-.
Qed.

(** The custody an open leads to, and the path that was checked for it. *)
Lemma open_custody_inode get_device now p fs options c fs' c' o : open_custody get_device now p fs options c = Ok (fs', inr (OpenedInode c' o)) -> c' = c.
Proof using Type.
  unfold open_custody. intros (md & _ & H)%res_bind_Ok. unfold fail in H. cbn zeta in H.
  repeat match type of H with
  | (if ?b then _ else _) = _ => destruct b; [discriminate H|]
  | (match ?x with Some _ => _ | None => _ end) = _ => destruct x; [discriminate H|]
  | (if Metadata.is_fifo _ then _ else _) = _ => destruct (Metadata.is_fifo _); [repeat case_if; discriminate H|]
  end; repeat match type of H with (if ?b then _ else _) = _ => destruct b; try discriminate H end;
    try (injection H; intros; by subst).
  apply res_bind_Ok in H as ([f e] & _ & H). destruct e; [discriminate H|]. apply res_bind_Ok in H as ([f2 e2] & _ & H). by injection H.
Qed.

Lemma open_validated get_device now v p fs path options mode base owner fs' c o :
  open can_allocate get_device now v p fs path options mode base owner = Ok (fs', inr (OpenedInode c o)) ->
  validate p (absolute_path c) options = None \/
  exists q, parent c = Some q /\ validate p (absolute_path q ++ "/" ++ name c)%string options = None.
Proof using Type.
  unfold open. destruct (_ && _); [done|]. intros ([out r] & E & H)%res_bind_Ok.
  assert (forall c', r = inr c' -> open_custody get_device now p fs options c' = Ok (fs', inr (OpenedInode c o)) -> validate p (absolute_path c) options = None) as Hfound.
  { intros c' -> Hc. apply open_custody_inode in Hc as ->. by eapply resolve_validated. }
  destruct (has options O_CREAT); [|destruct r as [e|c']; [done|left; by eapply Hfound]].
  destruct out as [q|]; [|done]. destruct r as [e|c'].
  - right. exists q. destruct e; try done. unfold create in H. destruct (validate p _ options) eqn:Ev; [done|].
    apply res_bind_Ok in H as (md & _ & H). destruct (negb _); [done|]. destruct (custody_readonly fs q); [done|].
    apply res_bind_Ok in H as ([f i] & _ & H). destruct i; [done|]. by injection H as _ <- _.
  - left. destruct (has options O_EXCL); [done|]. by eapply Hfound.
Qed.

(** An unlink checks for the permission to remove. *)
Lemma unlink_covered h v p fs path base fs' : granted h (unveiled_paths p) -> veil_state p <> VeilNone ->
  unlink can_allocate v p fs path base = Ok (fs', inr tt) ->
  exists out c, resolve can_allocate v p fs path base (Z.lor O_NOFOLLOW_NOERROR O_UNLINK_INTERNAL) = Ok (out, inr c) /\
    (absolute_path c <> loader -> covers h (LexicalPath.parts (absolute_path c)) CreateOrRemove).
Proof using Type.
  intros Hg Hs. unfold unlink. intros ([out r] & E & H)%res_bind_Ok. destruct r as [e|c]; [done|]. exists out, c. split; [done|].
  intros Hl. apply resolve_validated in E. by destruct (validate_covers h _ _ _ _ Hg Hs Hl E) as (_ & H2 & _); apply H2.
Qed.
End Veil.

End VfsVeil.
