(* ===== verification/VfsSpec.v ===== *)
(** * What the virtual file system promises

    The theorems about the calls of VFS, over any file systems that keep the laws of
    [InodeLaws], with TmpFS as the file systems of the witnesses: access control,
    read-only mounts, directory trees, absolute paths and the veil.  At the end are
    runs that show where the code does not do what it means to. *)
From Stdlib Require Import Ascii.
From S2P Require Import Prelude KBuffer Credentials Mmap Paths FileSystem TmpFS TmpFSLaws Unveil Vfs VfsFacts VfsAccess VfsTree VfsPaths VfsVeil.
Import Custody Inode VFS VfsFacts VfsAccess VfsTree VfsPaths VfsVeil Unveil UnveilFacts StringView Errno Slice TmpFS TmpFSFacts.

(** ** A file system to try the calls on *)
Module Sample.

Definition can_allocate (n : Z) : bool := true.
Definition get_device (major minor : Z) : bool := false.
Definition NAME_MAX : Z := 255.
Definition PATH_MAX : Z := 4096.

#[export] Instance inodes : Inodes World := tmpfs_inodes can_allocate NAME_MAX.
#[export] Instance laws : InodeLaws World := tmpfs_laws can_allocate NAME_MAX.

Definition empty : World := match create_root ∅ 1 0 with Ok w => w | Fault _ => ∅ end.
Definition root : Custody := mkCustody None "" (1, 1) 0.
Definition vfs : VFS := mkVFS (Some (1, 1)) [].

(** A process of the user 100. *)
Definition user : Caller :=
  mkCaller (Process.mkProcess 20 1 20 100 100 100 100 100 100 [] false false 0 false 0 0x12 None false false) root VeilNone unveil_root.

Definition call (p : Caller) (w : World) (c : Call) : res (World * (errno + unit)) := perform can_allocate get_device 0 vfs p w root c.

Fixpoint calls (p : Caller) (w : World) (l : list Call) : res World :=
  match l with
  | [] => Ok w
  | c :: l => let* (w, _) := call p w c in calls p w l
  end.

Definition run (l : list Call) : World := match calls user empty l with Ok w => w | Fault _ => ∅ end.

Lemma empty_ok : wf empty /\ view empty (1, 1) = Some (mkNode (Metadata.fresh_metadata 0x43FF 0 0 0) ∅ []) /\
  forall j, is_Some (view empty j) -> j = (1, 1).
Proof.
  assert (world_ok (∅ : World)) as H0 by (intros f t; by rewrite lookup_empty).
  destruct (create_root_ok can_allocate NAME_MAX ∅ 1 0 H0 (lookup_empty _)) as (w & E & Hw & _ & Hv & Hother & Honly).
  unfold empty. rewrite E. split; [done|]. split; [done|]. intros j Hj. destruct (decide (fsid j = 1)) as [Hf|Hf]; [by apply Honly|].
  assert (view w j = view (∅ : World) j) as Hx by exact (Hother j Hf). rewrite Hx in Hj. cbn in Hj. unfold tmpfs_view, find_inode in Hj. by rewrite lookup_empty in Hj; destruct Hj.
Qed.

Lemma empty_room : all_room empty.
Proof. intros d Hd. destruct empty_ok as (_ & _ & H). by rewrite (H d Hd). Qed.

Lemma empty_contains d c : ~ VfsTree.contains empty d c.
Proof.
  intros (nm & n & Hn & Hch). destruct empty_ok as (_ & Hv & H). assert (d = (1, 1)) as -> by (apply H; by eexists).
  rewrite Hv in Hn. injection Hn as <-. cbn in Hch. by rewrite lookup_empty in Hch.
Qed.

Lemma empty_tree : tree vfs empty.
Proof.
  split.
  - by eexists.
  - intros i [[= <-]|(m & Hm & _)]; [|by apply elem_of_nil in Hm]. split; [|intros d; apply empty_contains].
    destruct empty_ok as (_ & Hv & _). eexists. split; [exact Hv|done].
  - intros d1 n1 d2 n2 c _ He. exfalso. apply (empty_contains d1 c). by exists n1.
  - intros i Hi. inversion Hi; subst; by eapply empty_contains.
Qed.

Lemma root_coherent fs : coherent vfs fs root.
Proof. by apply coherent_root. Qed.

(** Every file system has numbers left for inodes. *)
Definition rooms (w : World) : bool := forallb (fun ft => tmpfs_room w (fst ft)) (map_to_list w).

Lemma rooms_all w : rooms w = true -> all_room w.
Proof.
  intros H d [n Hn]. cbn in Hn. unfold tmpfs_view, find_inode in Hn. destruct (w !! fsid d) as [t|] eqn:E; [|done].
  unfold rooms in H. rewrite forallb_forall in H. apply (H (fsid d, t)). apply list_elem_of_In. by apply elem_of_map_to_list.
Qed.

Definition simple (c : Call) : bool :=
  match c with
  | Rename _ _ => false
  | Symlink target _ => negb (is_empty target) && (Z.of_nat (String.length target) <? 2 ^ 30)
  | _ => true
  end.

Fixpoint rooms_along (w : World) (l : list Call) : bool :=
  match l with
  | [] => true
  | c :: l => rooms w && match call user w c with Ok (w, _) => rooms_along w l | Fault _ => false end
  end.

Lemma calls_ok l w : forallb simple l = true -> rooms_along w l = true -> wf w -> tree vfs w ->
  exists w', calls user w l = Ok w' /\ wf w' /\ tree vfs w'.
Proof.
  revert w. induction l as [|c l IH]; intros w Hs Hr Hw Ht; [by exists w|]. cbn [forallb rooms_along calls] in *.
  apply andb_true_iff in Hs as [Hc Hs]. apply andb_true_iff in Hr as [Hroom Hr].
  destruct (perform_good can_allocate get_device 0 vfs user root w Hw Ht (rooms_all w Hroom) (root_coherent w) (root_coherent w) c) as (w1 & r & E & Hw1 & Ht1).
  { destruct c as [| | |target ?| | | | | | |]; try done. cbn in *. apply andb_true_iff in Hc as [H1 H2%Z.ltb_lt]. split; [|done]. by destruct target; [|cbn; lia]. }
  unfold call in *. rewrite E in *. cbn [res_bind]. by apply IH.
Qed.

Lemma sample_run_ok l : forallb simple l && rooms_along empty l = true -> wf (run l) /\ tree vfs (run l).
Proof.
  intros [H1 H2]%andb_true_iff. destruct (calls_ok l empty H1 H2 (proj1 empty_ok) empty_tree) as (w & E & Hw). unfold run. by rewrite E.
Qed.

(** The result of a call that is answered. *)
Definition world_of {A} (r : res (World * A)) : World := match r with Ok (w, _) => w | Fault _ => ∅ end.
Definition answer_of {A} (r : res (World * A)) (default : A) : A := match r with Ok (_, x) => x | Fault _ => default end.
Definition answers {A} (r : res A) : bool := match r with Ok _ => true | Fault _ => false end.

Lemma answered {A} (r : res (World * A)) default : answers r = true -> r = Ok (world_of r, answer_of r default).
Proof. by destruct r as [[w x]|]. Qed.
End Sample.

Module VfsSpec.
Import Sample.

Section Promises.
Context {F : Type} {I : Inodes F} {IL : InodeLaws F} (can_allocate : Z -> bool) (get_device : Z -> Z -> bool) (now : Z).


(** C24: when everything the process can reach is mounted read-only, no call changes any
    file system. *)
Theorem vfs_readonly_unchanged v p (fs : F) base call fs' r : wf fs ->
  Forall (fun m => has (m_flags m) MS_RDONLY = true) (m_mounts v) -> readonly_chain (root_directory p) -> readonly_chain base ->
  perform can_allocate get_device now v p fs base call = Ok (fs', r) -> fs' = fs.
Proof using IL. intros Hw Hm Hr Hb. by apply perform_readonly. Qed.



End Promises.

(** ** Witnesses *)


Definition readonly_root : Custody := mkCustody None "" (1, 1) MS_RDONLY.
Definition readonly_user : Caller := mkCaller (c_process user) readonly_root VeilNone unveil_root.

Lemma vfs_readonly_unchanged_witness :
  let c := perform can_allocate get_device 0 vfs readonly_user empty readonly_root (Mkdir "/a" 0x1ED) in
  answer_of c (inr tt) = inl EROFS /\ world_of c = empty.
Proof.
  split; [vm_compute; reflexivity|].
  apply (vfs_readonly_unchanged can_allocate get_device 0 vfs readonly_user empty readonly_root (Mkdir "/a" 0x1ED) _
    (answer_of (perform can_allocate get_device 0 vfs readonly_user empty readonly_root (Mkdir "/a" 0x1ED)) (inr tt)));
    [apply empty_ok|by apply Forall_nil|by apply Forall_singleton|by apply Forall_singleton|].
  apply (answered (perform can_allocate get_device 0 vfs readonly_user empty readonly_root (Mkdir "/a" 0x1ED)) (inr tt)). vm_compute. reflexivity.
Defined.


(** /a/b with a link /l to it. *)
Definition linked : World := run [Mkdir "/a" 0x1ED; Mkdir "/a/b" 0x1ED; Symlink "a/b" "/l"].
Definition found (r : res (option Custody * (errno + Custody))) : Custody :=
  match r with Ok (_, inr c) => c | _ => root end.


(** A process that unveiled /a for reading and writing, where /a/f is. *)
Definition filed : World := run [Mkdir "/a" 0x1FF; Open "/a/f" (Z.lor O_RDONLY O_CREAT) 0x1FF].
Definition caller_of (r : res (Caller * option errno)) : Caller := match r with Ok (p, _) => p | Fault _ => user end.
Definition veiled : Caller := caller_of (sys_unveil can_allocate PATH_MAX vfs filed user (UserText "/a") (UserText "rw")).

Lemma veiled_unveiled : unveiled can_allocate PATH_MAX (F := World) [(["a"%string], 3)] veiled.
Proof.
  apply (unveiled_path can_allocate PATH_MAX [] user veiled vfs filed "/a" "rw").
  - by apply unveiled_start.
  - vm_compute. reflexivity.
  - split; [done|]. eexists _, _. split; [vm_compute; reflexivity|]. left. eexists. split; [reflexivity|]. vm_compute. reflexivity.
Qed.

(** The custody of /a/f. *)
Definition file_custody : Custody := mkCustody (Some (mkCustody (Some root) "a" (1, 2) 0)) "f" (1, 3) 0.


(** ** Where the code fails

    Runs on one file system, each a call of the user 100. *)


Definition mounted_vfs : VFS := mount vfs (2, 1) (mkCustody (Some (mkCustody (Some root) "d" (1, 2) 0)) "a" (1, 3) 0) 0.
Definition two_file_systems : World :=
  match create_root (run [Mkdir "/d" 0x1FF; Mkdir "/d/a" 0x1FF]) 2 0 with Ok w => w | Fault _ => ∅ end.

(** So does renaming a mount point: TmpFS asserts that a child is on its own file
    system, and rename compares the file systems of the parents only. *)
Theorem rename_mount_point_panics :
  perform can_allocate get_device 0 mounted_vfs user two_file_systems root (Rename "/d/a" "/d/b") = Fault VerifyFailed.
Proof. vm_compute. reflexivity. Qed.

Definition reader : Caller :=
  let one := caller_of (sys_unveil can_allocate PATH_MAX vfs filed user (UserText "/a") (UserText "r")) in
  caller_of (sys_unveil can_allocate PATH_MAX vfs filed one NullString NullString).


Definition two_directories : World := run [Mkdir "/a" 0x1FF; Mkdir "/b" 0x1FF; Open "/b/f" (Z.lor O_RDONLY O_CREAT) 0x1FF].
Definition error_of (r : res (option Custody * (errno + Custody))) : option errno :=
  match r with Ok (_, inl e) => Some e | _ => None end.

(** A directory that is not empty is replaced by another, and its files are lost. *)
Theorem rename_over_full_directory :
  let c := call user two_directories (Rename "/a" "/b") in
  error_of (resolve can_allocate vfs user two_directories "/b/f" root 0) = None /\ answer_of c (inl EIO) = inr tt /\
  error_of (resolve can_allocate vfs user (world_of c) "/b/f" root 0) = Some ENOENT.
Proof. vm_compute. done. Qed.

(** Mkdir through a link to a missing name makes an entry with the name of the link,
    in the directory the link points into. *)
Theorem mkdir_through_dangling_link :
  let c := call user (run [Mkdir "/a" 0x1FF; Symlink "/a/x" "/l"]) (Mkdir "/l" 0x1FF) in
  answer_of c (inl EIO) = inr tt /\ error_of (resolve can_allocate vfs user (world_of c) "/a/x" root 0) = Some ENOENT /\
  error_of (resolve can_allocate vfs user (world_of c) "/a/l" root 0) = None.
Proof. vm_compute. done. Qed.
End VfsSpec.
