(* ===== verification/OpenFile.v ===== *)
(** * Open files

    FileDescription and InodeFile (Kernel/FileSystem) and the system calls on file
    descriptors (Kernel/Syscalls: read, write, lseek, ftruncate, dup2, close), for
    descriptions of inodes of TmpFS.  Descriptions are shared: descriptors name them by
    a number in a store, so dup2 makes two descriptors of one offset. *)
From S2P Require Import Prelude Checked KBuffer Pipe Credentials Mmap FileSystem TmpFS Unveil.
Import Errno Slice Inode TmpFS.

Module OpenFile.

(** FileDescription, with an InodeFile as its file. *)
Record Description := mkDescription {
  d_inode : InodeIdentifier;
  m_current_offset : Z;
  m_readable : bool;
  m_writable : bool;
  m_should_append : bool;
  m_is_blocking : bool;
  m_is_directory : bool;
}.

Definition with_offset (d : Description) (offset : Z) : Description :=
  mkDescription (d_inode d) offset (m_readable d) (m_writable d) (m_should_append d) (m_is_blocking d) (m_is_directory d).

(** FileDescription::create of a custody, set_rw_mode and set_file_flags, as at the end
    of VFS::open. *)
Definition create (i : InodeIdentifier) (md : Metadata.Metadata) (options : Z) : Description :=
  mkDescription i 0 (Unveil.has options Unveil.O_RDONLY) (Unveil.has options Unveil.O_WRONLY)
    (Unveil.has options Unveil.O_APPEND) (negb (Unveil.has options Unveil.O_NONBLOCK)) (Metadata.directory md).

(** A process's descriptors, the descriptions, and the file systems. *)
Record Files := mkFiles {
  m_fds : list (option (nat * Z));
  descriptions : gmap nat Description;
  world : World;
}.

Inductive result :=
| Crashed
| Error (e : errno)
| Value (v : Z) (bytes : list Z).

Definition SEEK_SET : Z := 0.
Definition SEEK_CUR : Z := 1.
Definition SEEK_END : Z := 2.

(** The buffers of the caller: [None] when UserOrKernelBuffer::for_user_buffer refuses
    the range. *)
Abbreviation Destination := (option bool).
Abbreviation Source := (option (list (option Z))).

Section Calls.
Context (can_allocate : Z -> bool) (now : Z) (p : Process.process).
Implicit Types (w : World) (d : Description) (s : Files).

(** ** FileDescription and InodeFile *)

Definition overflows (offset count : Z) : bool := Checked.addition_would_overflow I64 offset count.

Definition valid (i : InodeIdentifier) : bool := negb (fsid i =? 0) && negb (index i =? 0).

Definition seek w d (offset whence : Z) : res (Description * (errno + Z)) :=
  let finish new_offset :=
    if new_offset <? 0 then Ok (d, inl EINVAL) else Ok (with_offset d new_offset, inr new_offset) in
  if whence =? SEEK_SET then finish offset
  else if whence =? SEEK_CUR then
    if overflows (m_current_offset d) offset then Ok (d, inl EOVERFLOW) else finish (m_current_offset d + offset)
  else if whence =? SEEK_END then
    let* ino := get w (d_inode d) in
    if negb (valid (d_inode d)) then Ok (d, inl EIO) else finish (Metadata.size (m_metadata ino))
  else Ok (d, inl EINVAL).

Definition inode_file_read w d (offset : Z) (writable : bool) (count : Z) : res (errno + list Z) :=
  if overflows offset count then Ok (inl EOVERFLOW)
  else let* ino := get w (d_inode d) in inode_read_bytes ino offset (wrap I32 count) writable.

Definition read w d (writable : bool) (count : Z) : res (Description * (errno + list Z)) :=
  if overflows (m_current_offset d) count then Ok (d, inl EOVERFLOW)
  else
    let* r := inode_file_read w d (wrap U64 (m_current_offset d)) writable count in
    match r with
    | inl e => Ok (d, inl e)
    | inr bytes =>
        let* offset := exact I64 (m_current_offset d + Z.of_nat (length bytes)) in
        Ok (with_offset d offset, inr bytes)
    end.

Definition inode_file_write w d (offset : Z) (data : list (option Z)) : res (World * (errno + Z)) :=
  if overflows offset (Z.of_nat (length data)) then Ok (w, inl EOVERFLOW)
  else
    let* ino := get w (d_inode d) in
    let* (ino, r) := inode_write_bytes can_allocate ino offset data in
    let w := put w (d_inode d) ino in
    match r with
    | inl e => Ok (w, inl e)
    | inr nwritten =>
        if 0 <? nwritten then let* (w, _) := tmpfs_set_mtime w (d_inode d) now in Ok (w, inr nwritten)
        else Ok (w, inr nwritten)
    end.

Definition write w d (data : list (option Z)) : res (World * Description * (errno + Z)) :=
  if overflows (m_current_offset d) (Z.of_nat (length data)) then Ok (w, d, inl EOVERFLOW)
  else
    let* (w, r) := inode_file_write w d (wrap U64 (m_current_offset d)) data in
    match r with
    | inl e => Ok (w, d, inl e)
    | inr nwritten =>
        let* offset := exact I64 (m_current_offset d + nwritten) in
        Ok (w, with_offset d offset, inr nwritten)
    end.

Definition truncate w d (length : Z) : res (World * option errno) :=
  let* ino := get w (d_inode d) in
  let* (ino, r) := inode_truncate can_allocate ino length in
  let w := put w (d_inode d) ino in
  match r with
  | Some e => Ok (w, Some e)
  | None => tmpfs_set_mtime w (d_inode d) now
  end.

(** ** Process::do_write

    An inode can always be written, so the loop never blocks; every turn writes
    something, so the length of the data bounds the turns. *)
Fixpoint write_loop (turns : nat) w d (data : list (option Z)) (total : Z) : res (World * Description * (errno + Z)) :=
  match turns with
  | O => Fault OutOfFuel
  | S turns =>
      if total <? Z.of_nat (length data) then
        let* (wd, r) := write w d (drop (Z.to_nat total) data) in
        let '(w, d) := wd in
        match r with
        | inl e => Ok (w, d, if total =? 0 then inl e else inr total)
        | inr 0 => Ok (w, d, inr total)
        | inr n => let* total := exact I32 (total + n) in write_loop turns w d data total
        end
      else Ok (w, d, inr total)
  end.

Definition do_write w d (data : list (option Z)) : res (World * Description * (errno + Z)) :=
  let* (d, r) := if m_should_append d then seek w d 0 SEEK_END else Ok (d, inr 0) in
  match r with
  | inl e => Ok (w, d, inl e)
  | inr _ => write_loop (S (length data)) w d data 0
  end.

(** ** System calls *)

Definition require_stdio s (k : res (Files * result)) : res (Files * result) :=
  if Process.m_has_promises p && negb (Process.has_promised p Process.stdio) then Ok (s, Crashed) else k.

Definition file_description s (fd : Z) : option nat :=
  if fd <? 0 then None else match m_fds s !! Z.to_nat fd with Some (Some (n, _)) => Some n | _ => None end.

Definition set_description s (n : nat) d : Files := mkFiles (m_fds s) (<[n := d]> (descriptions s)) (world s).
Definition set_world s w : Files := mkFiles (m_fds s) (descriptions s) w.

(** The description of a descriptor, which keeps it alive. *)
Definition with_description s (fd : Z) (k : nat -> Description -> res (Files * result)) : res (Files * result) :=
  match file_description s fd with
  | None => Ok (s, Error EBADF)
  | Some n => let* d := of_opt UndefinedBehaviour (descriptions s !! n) in k n d
  end.

Definition sys_read s (fd : Z) (buffer : Destination) (size : Z) : res (Files * result) :=
  require_stdio s (
  if size <? 0 then Ok (s, Error EINVAL)
  else if size =? 0 then Ok (s, Value 0 [])
  else with_description s fd (fun n d =>
    if negb (m_readable d) then Ok (s, Error EBADF)
    else if m_is_directory d then Ok (s, Error EISDIR)
    else
      match buffer with
      | None => Ok (s, Error EFAULT)
      | Some writable =>
          let* (d, r) := read (world s) d writable size in
          Ok (set_description s n d, match r with inl e => Error e | inr bytes => Value (Z.of_nat (length bytes)) bytes end)
      end)).

(** [size] is the length of [data] when the buffer is accepted. *)
Definition sys_write s (fd : Z) (data : Source) (size : Z) : res (Files * result) :=
  require_stdio s (
  if size <? 0 then Ok (s, Error EINVAL)
  else if size =? 0 then Ok (s, Value 0 [])
  else with_description s fd (fun n d =>
    if negb (m_writable d) then Ok (s, Error EBADF)
    else
      match data with
      | None => Ok (s, Error EFAULT)
      | Some data =>
          let* (wd, r) := do_write (world s) d data in
          Ok (set_world (set_description s n (snd wd)) (fst wd), match r with inl e => Error e | inr v => Value v [] end)
      end)).

(** [offset] is what copy_from_user reads, [writable] whether copy_to_user succeeds. *)
Definition sys_lseek s (fd : Z) (offset : option Z) (writable : bool) (whence : Z) : res (Files * result) :=
  require_stdio s (with_description s fd (fun n d =>
    match offset with
    | None => Ok (s, Error EFAULT)
    | Some offset =>
        let* (d, r) := seek (world s) d offset whence in
        Ok (set_description s n d,
            match r with inl e => Error e | inr v => if writable then Value 0 [v] else Error EFAULT end)
    end)).

Definition sys_ftruncate s (fd : Z) (length : option Z) : res (Files * result) :=
  require_stdio s (
  match length with
  | None => Ok (s, Error EFAULT)
  | Some length =>
      if length <? 0 then Ok (s, Error EINVAL)
      else with_description s fd (fun n d =>
        if negb (m_writable d) then Ok (s, Error EBADF)
        else
          let* (w, e) := truncate (world s) d (wrap U64 length) in
          Ok (set_world s w, match e with Some e => Error e | None => Value 0 [] end))
  end).

Definition sys_dup2 s (old_fd new_fd : Z) : res (Files * result) :=
  require_stdio s (with_description s old_fd (fun n _ =>
    if old_fd =? new_fd then Ok (s, Value 0 [])
    else if (new_fd <? 0) || (Z.of_nat (length (m_fds s)) <=? new_fd) then Ok (s, Error EINVAL)
    else Ok (mkFiles (<[Z.to_nat new_fd := Some (n, 0)]> (m_fds s)) (descriptions s) (world s), Value new_fd []))).

Definition sys_close s (fd : Z) : res (Files * result) :=
  require_stdio s (with_description s fd (fun _ _ =>
    Ok (mkFiles (<[Z.to_nat fd := None]> (m_fds s)) (descriptions s) (world s), Value 0 []))).
End Calls.

End OpenFile.
