(* ===== verification/OpenFileSpec.v ===== *)
(** * Open files are bytes with an offset

    The specification: a file is a list of bytes, a description an offset into it, and
    read, write, lseek and ftruncate are the operations on lists.  [file_run_refines]:
    every run of the system calls on files of TmpFS answers what the specification
    answers, except that a call that needs memory may fail and change nothing. *)
From S2P Require Import Prelude Checked KBuffer Pipe Credentials Mmap FileSystem TmpFS TmpFSLaws Unveil OpenFile.
Import Errno Slice Inode TmpFS TmpFSContent TmpFSFacts OpenFile.

Module OpenFileSpec.

Inductive FileCall :=
| Read (fd : Z) (buffer : Destination) (size : Z)
| Write (fd : Z) (data : Source) (size : Z)
| Lseek (fd : Z) (offset : option Z) (writable : bool) (whence : Z)
| Ftruncate (fd : Z) (length : option Z)
| Dup2 (old_fd new_fd : Z)
| Close (fd : Z).

Section Spec.
Context (can_allocate : Z -> bool) (now : Z) (p : Process.process).

Definition file_call (s : Files) (c : FileCall) : res (Files * result) :=
  match c with
  | Read fd buffer size => sys_read p s fd buffer size
  | Write fd data size => sys_write can_allocate now p s fd data size
  | Lseek fd offset writable whence => sys_lseek p s fd offset writable whence
  | Ftruncate fd length => sys_ftruncate can_allocate now p s fd length
  | Dup2 old_fd new_fd => sys_dup2 p s old_fd new_fd
  | Close fd => sys_close p s fd
  end.

Fixpoint file_run (s : Files) (l : list FileCall) : res (Files * list result) :=
  match l with
  | [] => Ok (s, [])
  | c :: l => let* (s, r) := file_call s c in let* (s, rs) := file_run s l in Ok (s, r :: rs)
  end.

(** ** The specification *)

Record Abstract := mkAbstract {
  a_fds : list (option (nat * Z));
  a_descriptions : gmap nat Description;
  a_contents : InodeIdentifier -> option (list Z);
}.

Implicit Types a : Abstract.

Definition a_description a (fd : Z) : option (nat * Description * list Z) :=
  if fd <? 0 then None
  else
    match a_fds a !! Z.to_nat fd with
    | Some (Some (n, _)) =>
        match a_descriptions a !! n with
        | Some d => match a_contents a (d_inode d) with Some l => Some (n, d, l) | None => None end
        | None => None
        end
    | _ => None
    end.

Definition a_seek a n d (offset : Z) : Abstract := mkAbstract (a_fds a) (<[n := with_offset d offset]> (a_descriptions a)) (a_contents a).
Definition a_store a (i : InodeIdentifier) (l : list Z) : Abstract :=
  mkAbstract (a_fds a) (a_descriptions a) (fun j => if decide (j = i) then Some l else a_contents a j).

Definition size_of (l : list Z) : Z := Z.of_nat (length l).

Definition spec_read a n d l (writable : bool) (size : Z) : Abstract * result :=
  let offset := m_current_offset d in
  let bytes := peek l offset size in
  if 2 ^ 63 <=? offset + size then (a, Error EOVERFLOW)
  else if writable || (size_of l <=? offset) then (a_seek a n d (offset + size_of bytes), Value (size_of bytes) bytes)
  else (a, Error EFAULT).

Definition write_offset d l : Z := if m_should_append d then size_of l else m_current_offset d.

Definition spec_write (memory : bool) a n d l (data : list (option Z)) : Abstract * result :=
  let offset := write_offset d l in
  let bytes := accessible data in
  if memory then (a_store (a_seek a n d (offset + size_of bytes)) (d_inode d) (poke l offset bytes), Value (size_of bytes) [])
  else (a_seek a n d offset, Error ENOMEM).

Definition spec_seek a n d l (offset whence : Z) (writable : bool) : Abstract * result :=
  let finish new := if new <? 0 then (a, Error EINVAL) else (a_seek a n d new, if writable then Value 0 [new] else Error EFAULT) in
  if whence =? SEEK_SET then finish offset
  else if whence =? SEEK_CUR then
    if in_ty I64 (m_current_offset d + offset) then finish (m_current_offset d + offset) else (a, Error EOVERFLOW)
  else if whence =? SEEK_END then finish (size_of l)
  else (a, Error EINVAL).

Definition promised : bool := negb (Process.m_has_promises p && negb (Process.has_promised p Process.stdio)).

(** [memory]: whether the call gets the memory it needs. *)
Definition spec_call (memory : bool) a (c : FileCall) : Abstract * result :=
  if negb promised then (a, Crashed)
  else
    let described fd k := match a_description a fd with None => (a, Error EBADF) | Some (n, d, l) => k n d l end in
    match c with
    | Read fd buffer size =>
        if size <? 0 then (a, Error EINVAL)
        else if size =? 0 then (a, Value 0 [])
        else described fd (fun n d l =>
          if negb (m_readable d) then (a, Error EBADF)
          else match buffer with None => (a, Error EFAULT) | Some writable => spec_read a n d l writable size end)
    | Write fd data size =>
        if size <? 0 then (a, Error EINVAL)
        else if size =? 0 then (a, Value 0 [])
        else described fd (fun n d l =>
          if negb (m_writable d) then (a, Error EBADF)
          else match data with None => (a, Error EFAULT) | Some data => spec_write memory a n d l data end)
    | Lseek fd offset writable whence =>
        described fd (fun n d l =>
          match offset with None => (a, Error EFAULT) | Some offset => spec_seek a n d l offset whence writable end)
    | Ftruncate fd None => (a, Error EFAULT)
    | Ftruncate fd (Some length) =>
        if length <? 0 then (a, Error EINVAL)
        else described fd (fun n d l =>
          if negb (m_writable d) then (a, Error EBADF)
          else if memory then (a_store a (d_inode d) (resized l length), Value 0 []) else (a, Error ENOMEM))
    | Dup2 old_fd new_fd =>
        described old_fd (fun n _ _ =>
          if old_fd =? new_fd then (a, Value 0 [])
          else if (new_fd <? 0) || (Z.of_nat (length (a_fds a)) <=? new_fd) then (a, Error EINVAL)
          else (mkAbstract (<[Z.to_nat new_fd := Some (n, 0)]> (a_fds a)) (a_descriptions a) (a_contents a), Value new_fd []))
    | Close fd =>
        described fd (fun _ _ _ =>
          (mkAbstract (<[Z.to_nat fd := None]> (a_fds a)) (a_descriptions a) (a_contents a), Value 0 []))
    end.

(** What is asked of a call: arguments of their types, accessible data, and writes that
    start inside the file or at its end and keep it below [MAX_SIZE]. *)
Definition call_ok a (c : FileCall) : Prop :=
  match c with
  | Read _ _ size => size < 2 ^ 31
  | Write fd data size =>
      size < 2 ^ 31 /\
      forall bytes, data = Some bytes -> size = Z.of_nat (length bytes) /\ length (accessible bytes) = length bytes /\
        forall n d l, a_description a fd = Some (n, d, l) -> m_writable d = true ->
          write_offset d l <= size_of l /\ Z.max (size_of l) (write_offset d l + size) <= MAX_SIZE
  | Lseek _ offset _ _ => forall x, offset = Some x -> in_ty I64 x = true
  | Ftruncate _ length => forall x, length = Some x -> x <= 0xfffff000
  | _ => True
  end.

Fixpoint calls_ok a (l : list FileCall) : Prop :=
  match l with
  | [] => True
  | c :: l => call_ok a c /\ forall memory, calls_ok (fst (spec_call memory a c)) l
  end.

(** The answers of the specification, with the memory there is at each call. *)
Fixpoint spec_run (memory : list bool) a (l : list FileCall) : list result :=
  match l, memory with
  | c :: l, m :: memory => snd (spec_call m a c) :: spec_run memory (fst (spec_call m a c)) l
  | _, _ => []
  end.

(** ** The simulation *)

Definition content_of (w : World) (i : InodeIdentifier) : option (list Z) :=
  match find_inode w i with
  | Some ino => if is_directory ino then None else Some (content ino)
  | None => None
  end.

Definition description_ok (w : World) (d : Description) : Prop :=
  m_is_directory d = false /\ valid (d_inode d) = true /\ 0 <= m_current_offset d < 2 ^ 63 /\ is_Some (content_of w (d_inode d)).

Record files_ok (s : Files) : Prop := {
  fo_world : world_ok (world s);
  fo_fds k n f : m_fds s !! k = Some (Some (n, f)) -> is_Some (descriptions s !! n);
  fo_descriptions n d : descriptions s !! n = Some d -> description_ok (world s) d;
}.

Record related (s : Files) a : Prop := {
  re_ok : files_ok s;
  re_fds : m_fds s = a_fds a;
  re_descriptions : descriptions s = a_descriptions a;
  re_contents i : content_of (world s) i = a_contents a i;
}.

Lemma content_of_Some w i l : content_of w i = Some l <-> exists ino, find_inode w i = Some ino /\ is_directory ino = false /\ content ino = l.
Proof using Type.
  unfold content_of. split.
  - destruct (find_inode w i) as [ino|]; [|done]. destruct (is_directory ino) eqn:E; [done|]. intros [= <-]. by exists ino.
  - by intros (ino & -> & -> & ->).
Qed.

Lemma content_put w i old ino j : find_inode w i = Some old -> is_directory ino = false ->
  content_of (put w i ino) j = if decide (j = i) then Some (content ino) else content_of w j.
Proof using Type. intros Hf Hd. unfold content_of. rewrite find_put by (by eexists). case_decide; [by rewrite Hd|done]. Qed.

(** Another file in place of one keeps everything in order. *)
Lemma put_file w i old ino : world_ok w -> find_inode w i = Some old -> is_directory old = false -> inode_ok ino -> is_directory ino = false ->
  m_children ino = m_children old ->
  world_ok (put w i ino) /\ find_inode (put w i ino) i = Some ino /\
  forall j, content_of (put w i ino) j = if decide (j = i) then Some (content ino) else content_of w j.
Proof using Type.
  intros Hw Hf Hd Hi Hd' Hc. split_and!.
  - apply (put_same_children w i old); try done. congruence.
  - rewrite find_put by (by eexists). by rewrite decide_True.
  - intros j. by apply (content_put w i old).
Qed.

Lemma mtime_file ino t : inode_ok ino -> is_directory ino = false ->
  let ino' := with_metadata ino (Metadata.with_mtime (m_metadata ino) t) in
  inode_ok ino' /\ is_directory ino' = false /\ content ino' = content ino /\ m_children ino' = m_children ino.
Proof using Type. intros [H1 H2 H3 H4 H5] Hd. cbn zeta. split_and!; [by split|done|done|done]. Qed.

(** set_mtime after an operation. *)
Lemma set_mtime_file w i ino : world_ok w -> find_inode w i = Some ino -> is_directory ino = false ->
  exists w', tmpfs_set_mtime w i now = Ok (w', None) /\ world_ok w' /\ forall j, content_of w' j = content_of w j.
Proof using Type.
  intros Hw Hf Hd. unfold tmpfs_set_mtime, set_inode_metadata, get. rewrite Hf. cbn [of_opt res_bind]. eexists. split; [done|].
  destruct (mtime_file ino now (find_inode_ok _ _ _ Hw Hf) Hd) as (Hi & Hd' & Hc & Hch).
  destruct (put_file w i ino _ Hw Hf Hd Hi Hd' Hch) as (Hw' & _ & Hcont). split; [done|]. intros j. rewrite Hcont, Hc.
  case_decide as Hj; [|done]. subst j. symmetry. apply content_of_Some. by exists ino.
Qed.

Lemma size_content w i ino : world_ok w -> find_inode w i = Some ino -> size_of (content ino) = file_size ino.
Proof using Type. intros Hw Hf. apply content_length. by apply (find_inode_ok w i). Qed.

Lemma content_small w i l : world_ok w -> content_of w i = Some l -> size_of l < 2 ^ 32.
Proof using Type.
  intros Hw (ino & Hf & _ & <-)%content_of_Some. rewrite (size_content w i) by done. pose proof (find_inode_ok _ _ _ Hw Hf) as [H1 H2 H3 _ _].
  destruct (m_content ino) as [b|] eqn:E; [destruct (H3 b eq_refl); lia|rewrite H2 by done; lia].
Qed.

Lemma overflows_false offset count : 0 <= offset -> 0 <= count -> offset + count < 2 ^ 63 -> overflows offset count = false.
Proof using Type. intros. unfold overflows, Checked.addition_would_overflow. apply negb_false_iff, in_ty_spec. cbn. lia. Qed.

Lemma overflows_true offset count : 0 <= offset -> 0 <= count -> 2 ^ 63 <= offset + count -> overflows offset count = true.
Proof using Type.
  intros. unfold overflows, Checked.addition_would_overflow. apply negb_true_iff. destruct (in_ty I64 (offset + count)) eqn:E; [|done].
  apply in_ty_spec in E. cbn in E. lia.
Qed.

(** ** The operations of a description *)

Lemma description_read_ok w d l writable size : world_ok w -> 0 <= m_current_offset d < 2 ^ 63 -> content_of w (d_inode d) = Some l -> 0 <= size < 2 ^ 31 ->
  let offset := m_current_offset d in
  read w d writable size =
    if 2 ^ 63 <=? offset + size then Ok (d, inl EOVERFLOW)
    else if writable || (size_of l <=? offset)
    then Ok (with_offset d (offset + size_of (peek l offset size)), inr (peek l offset size))
    else Ok (d, inl EFAULT).
Proof using Type.
  intros Hw Ho Hl Hs offset. apply content_of_Some in Hl as (ino & Hf & Hd & <-). unfold read. fold offset in Ho |- *.
  destruct (Z.leb_spec (2 ^ 63) (offset + size)) as [H|H]; [by rewrite overflows_true by lia|]. rewrite overflows_false by lia.
  assert (wrap U64 offset = offset) as -> by (apply wrap_id; [done|apply in_ty_spec; cbn; lia]).
  unfold inode_file_read. rewrite overflows_false by lia. unfold get. rewrite Hf. cbn [of_opt res_bind].
  assert (wrap I32 size = size) as -> by (apply wrap_id; [done|apply in_ty_spec; cbn; lia]).
  rewrite inode_read_ok by (done || lia || by apply (find_inode_ok w (d_inode d))). cbn [res_bind]. rewrite (size_content w (d_inode d)) by done.
  destruct (writable || (file_size ino <=? offset)); [|done]. unfold exact.
  assert (0 <= size_of (peek (content ino) offset size) <= size) as Hp by (unfold size_of, peek; rewrite length_take; lia).
  unfold size_of in *. rewrite (proj2 (in_ty_spec I64 _)) by (cbn; lia). done.
Qed.

Lemma write_once w d l data : world_ok w -> content_of w (d_inode d) = Some l -> 0 <= m_current_offset d <= size_of l ->
  Z.max (size_of l) (m_current_offset d + Z.of_nat (length data)) <= MAX_SIZE -> data <> [] -> length (accessible data) = length data ->
  exists memory w', write can_allocate now w d data =
    Ok (if memory : bool then (w', with_offset d (m_current_offset d + Z.of_nat (length data)), inr (Z.of_nat (length data))) else (w', d, inl ENOMEM)) /\
    world_ok w' /\
    forall j, content_of w' j = if memory then if decide (j = d_inode d) then Some (poke l (m_current_offset d) (accessible data)) else content_of w j
                                else content_of w j.
Proof using Type.
  intros Hw (ino & Hf & Hd & <-)%content_of_Some Ho Hmax Hne Hacc. rewrite (size_content w (d_inode d)) in Ho, Hmax by done.
  pose proof (find_inode_ok _ _ _ Hw Hf) as Hi. unfold MAX_SIZE in Hmax. set (offset := m_current_offset d) in *. unfold write. fold offset.
  rewrite overflows_false by lia. assert (wrap U64 offset = offset) as -> by (apply wrap_id; [done|apply in_ty_spec; cbn; lia]).
  unfold inode_file_write. rewrite overflows_false by lia. unfold get. rewrite Hf. cbn [of_opt res_bind].
  destruct (inode_write_ok can_allocate ino offset data Hi Hd Ho ltac:(unfold MAX_SIZE; lia) ltac:(by left)) as (ino' & r & -> & Hi' & Hd' & Hch & Hr).
  cbn [res_bind]. destruct (put_file w (d_inode d) ino ino' Hw Hf Hd Hi' Hd' Hch) as (Hw' & Hf' & Hc').
  destruct r as [e|n].
  - destruct Hr as [[-> Hsame]|[_ Hbad]].
    + exists false. eexists. split; [done|]. split; [done|]. intros j. rewrite Hc', Hsame. case_decide as Hj; [|done]. subst j. symmetry. apply content_of_Some. by exists ino.
    + exfalso. clear -Hacc Hbad. induction data as [|[x|] data IH]; [by apply elem_of_nil in Hbad| |done].
      apply elem_of_cons in Hbad as [?|Hbad]; [done|]. cbn in Hacc. apply IH; [lia|done].
  - destruct Hr as (-> & _ & Hpoke). rewrite (proj2 (Z.ltb_lt 0 _)) by (destruct data; [done|cbn; lia]).
    destruct (set_mtime_file _ _ _ Hw' Hf' Hd') as (w2 & -> & Hw2 & Hc2). cbn [res_bind]. unfold exact.
    rewrite (proj2 (in_ty_spec I64 _)) by (cbn; lia). cbn [res_bind]. exists true. eexists. split; [done|]. split; [done|].
    intros j. by rewrite Hc2, Hc', Hpoke.
Qed.

Lemma seek_ok w d l offset whence : world_ok w -> valid (d_inode d) = true -> content_of w (d_inode d) = Some l ->
  let finish new := if new <? 0 then (d, inl EINVAL) else (with_offset d new, inr new) in
  seek w d offset whence = Ok (
    if whence =? SEEK_SET then finish offset
    else if whence =? SEEK_CUR then
      if in_ty I64 (m_current_offset d + offset) then finish (m_current_offset d + offset) else (d, inl EOVERFLOW)
    else if whence =? SEEK_END then finish (size_of l)
    else (d, inl EINVAL)).
Proof using Type.
  intros Hw Hv (ino & Hf & Hd & <-)%content_of_Some. cbn zeta. unfold seek, overflows, Checked.addition_would_overflow.
  destruct (whence =? SEEK_SET); [by case_if|]. destruct (whence =? SEEK_CUR); [destruct (in_ty _ _); cbn [negb]; by repeat case_if|].
  destruct (whence =? SEEK_END); [|done]. unfold get. rewrite Hf. cbn [of_opt res_bind]. rewrite Hv. cbn [negb].
  rewrite (size_content w (d_inode d)) by done. unfold file_size. by case_if.
Qed.

Lemma do_write_ok w d l data : world_ok w -> valid (d_inode d) = true -> 0 <= m_current_offset d -> content_of w (d_inode d) = Some l ->
  write_offset d l <= size_of l -> Z.max (size_of l) (write_offset d l + Z.of_nat (length data)) <= MAX_SIZE -> data <> [] ->
  length (accessible data) = length data ->
  exists memory w', do_write can_allocate now w d data =
    Ok (if memory : bool then (w', with_offset d (write_offset d l + Z.of_nat (length data)), inr (Z.of_nat (length data)))
        else (w', with_offset d (write_offset d l), inl ENOMEM)) /\
    world_ok w' /\
    forall j, content_of w' j = if memory then if decide (j = d_inode d) then Some (poke l (write_offset d l) (accessible data)) else content_of w j
                                else content_of w j.
Proof using Type.
  intros Hw Hv H0 Hl Ho Hmax Hne Hacc. unfold do_write.
  set (d1 := with_offset d (write_offset d l)).
  assert ((if m_should_append d then seek w d 0 SEEK_END else Ok (d, inr 0)) = Ok (d1, inr (if m_should_append d then size_of l else 0))) as ->.
  { subst d1. unfold write_offset. destruct (m_should_append d) eqn:Ea.
    - rewrite (seek_ok w d l) by done. cbn. by rewrite (proj2 (Z.ltb_ge (size_of l) 0)) by (unfold size_of; lia).
    - destruct d. cbn in Ea. by subst. }
  cbn [res_bind write_loop]. rewrite (proj2 (Z.ltb_lt 0 _)) by (destruct data; [done|cbn; lia]). change (drop (Z.to_nat 0) data) with data.
  destruct (write_once w d1 l data Hw Hl) as (memory & w' & -> & Hw' & Hc'); [|done|done|done|].
  { change (m_current_offset d1) with (write_offset d l). split; [|done]. unfold write_offset, size_of. destruct (m_should_append d); lia. }
  exists memory, w'. split; [|done]. destruct memory; cbn [res_bind fst snd]; [|done]. unfold MAX_SIZE in Hmax.
  assert (0 < Z.of_nat (length data)) as Hpos by (destruct data; [done|cbn; lia]).
  assert (0 <= write_offset d l) as Hwo by (unfold write_offset, size_of; destruct (m_should_append d); lia).
  destruct (Z.of_nat (length data)) as [|k|k] eqn:Ek; try lia. unfold exact. rewrite (proj2 (in_ty_spec I32 _)) by (cbn; lia). cbn [res_bind].
  destruct data as [|x data]; [done|]. cbn [length write_loop] in *. rewrite Ek. cbn [Z.add]. by rewrite Z.ltb_irrefl.
Qed.

Lemma truncate_file w d l size : world_ok w -> content_of w (d_inode d) = Some l -> 0 <= size <= 0xfffff000 ->
  exists memory w', truncate can_allocate now w d size = Ok (w', if memory : bool then None else Some ENOMEM) /\ world_ok w' /\
    forall j, content_of w' j = if memory then if decide (j = d_inode d) then Some (resized l size) else content_of w j else content_of w j.
Proof using Type.
  intros Hw (ino & Hf & Hd & <-)%content_of_Some Hs. unfold truncate, get. rewrite Hf. cbn [of_opt res_bind].
  pose proof (find_inode_ok _ _ _ Hw Hf) as Hi.
  destruct (inode_truncate_ok can_allocate ino size Hi Hd Hs) as (ino' & r & -> & Hr). cbn [res_bind]. destruct r as [e|].
  - destruct Hr as [-> ->]. exists false. eexists. split; [done|]. destruct (put_file w (d_inode d) ino ino Hw Hf Hd Hi Hd eq_refl) as (Hw' & _ & Hc').
    split; [done|]. intros j. rewrite Hc'. case_decide as Hj; [|done]. subst j. symmetry. apply content_of_Some. by exists ino.
  - destruct Hr as (b & Eb & Hi' & Hd' & Hcont). destruct (put_file w (d_inode d) ino ino' Hw Hf Hd Hi' Hd') as (Hw' & Hf' & Hc'); [by subst ino'|].
    destruct (set_mtime_file _ _ _ Hw' Hf' Hd') as (w2 & -> & Hw2 & Hc2). exists true, w2. split; [done|]. split; [done|]. intros j. by rewrite Hc2, Hc', Hcont.
Qed.

(** ** Keeping the relation *)

Lemma related_description s a fd : related s a ->
  match a_description a fd with
  | None => file_description s fd = None
  | Some (n, d, l) => file_description s fd = Some n /\ descriptions s !! n = Some d /\ description_ok (world s) d /\ content_of (world s) (d_inode d) = Some l
  end.
Proof using Type.
  intros [[Hw Hfds Hds] Hf Hd Hc]. unfold a_description, file_description. rewrite <- Hf. destruct (fd <? 0); [done|].
  destruct (m_fds s !! Z.to_nat fd) as [[[n f]|]|] eqn:E; [|done..]. destruct (Hfds _ _ _ E) as [d Hn]. rewrite <- Hd, Hn.
  pose proof (Hds n d Hn) as Hok. destruct Hok as (_ & _ & _ & [l Hl]). rewrite <- Hc, Hl. split_and!; try done. by apply Hds in Hn.
Qed.

(** A description gets another offset, files other contents. *)
Lemma related_update s a n d offset w' c' : related s a -> descriptions s !! n = Some d -> 0 <= offset < 2 ^ 63 -> world_ok w' ->
  (forall j, content_of w' j = c' j) -> (forall j, is_Some (content_of (world s) j) -> is_Some (c' j)) ->
  related (mkFiles (m_fds s) (<[n := with_offset d offset]> (descriptions s)) w')
    (mkAbstract (a_fds a) (<[n := with_offset d offset]> (a_descriptions a)) c').
Proof using Type.
  intros [[Hw Hfds Hds] Hf Hd Hc] Hn Ho Hw' Hc' Hkeep. split; [split|..]; cbn; try done; [| |by rewrite Hd].
  - intros k m f Hk. destruct (decide (m = n)) as [->|Hne]; [by rewrite lookup_insert_eq|]. rewrite lookup_insert_ne by done. by eapply Hfds.
  - assert (forall x, description_ok (world s) x -> description_ok w' x) as Hmono.
    { intros x (H1 & H2 & H3 & H4). split_and!; try done; [lia|lia|]. rewrite Hc'. by apply Hkeep. }
    intros m x [[<- <-]|[_ Hx]]%lookup_insert_Some; [|by apply Hmono, (Hds m)]. destruct (Hmono d (Hds n d Hn)) as (H1 & H2 & _ & H4).
    split_and!; try done; cbn; lia.
Qed.

Lemma with_offset_same s n d : descriptions s !! n = Some d -> <[n := with_offset d (m_current_offset d)]> (descriptions s) = descriptions s.
Proof using Type. intros H. apply insert_id. rewrite H. by destruct d. Qed.

(** The descriptors change. *)
Lemma related_fds s a fds : related s a -> (forall k n f, fds !! k = Some (Some (n, f)) -> is_Some (descriptions s !! n)) ->
  related (mkFiles fds (descriptions s) (world s)) (mkAbstract fds (a_descriptions a) (a_contents a)).
Proof using Type. intros [[Hw Hfds Hds] Hf Hd Hc] Hn. by split; [split|..]. Qed.

(** ** The calls *)

Definition refines a (r : res (Files * result)) (c : FileCall) : Prop :=
  exists memory s', r = Ok (s', snd (spec_call memory a c)) /\ related s' (fst (spec_call memory a c)).

Lemma refines_here s a x c : related s a -> spec_call true a c = (a, x) -> refines a (Ok (s, x)) c.
Proof using Type. intros Hr E. exists true, s. by rewrite E. Qed.

Lemma require_stdio_refines s a k c : related s a -> (promised = true -> refines a k c) -> refines a (require_stdio p s k) c.
Proof using Type.
  intros Hr Hk. unfold require_stdio. destruct (_ && _) eqn:E.
  - apply refines_here; [done|]. unfold spec_call, promised. by rewrite E.
  - apply Hk. unfold promised. by rewrite E.
Qed.

(** Looks up the descriptor on both sides. *)
Ltac described Hr fd n d l :=
  let H := fresh in pose proof (related_description _ _ fd Hr) as H; unfold with_description;
  destruct (a_description _ fd) as [[[n d] l]|] eqn:?;
    [destruct H as (-> & Hn & (Hdir & Hv & Ho & _) & Hl); rewrite Hn; cbn [of_opt res_bind] |
     rewrite H; apply refines_here; [done|]].

(** Evaluates the specification. *)
Ltac spec Hp := unfold spec_call; rewrite Hp; cbn [negb].

Lemma read_refines s a fd buffer size : related s a -> size < 2 ^ 31 -> refines a (file_call s (Read fd buffer size)) (Read fd buffer size).
Proof using Type.
  intros Hr Hs. cbn [file_call]. unfold sys_read. apply require_stdio_refines; [done|]. intros Hp.
  destruct (size <? 0) eqn:E0; [apply refines_here; [done|]; spec Hp; by rewrite E0|].
  destruct (size =? 0) eqn:E1; [apply refines_here; [done|]; spec Hp; by rewrite E0, E1|].
  described Hr fd n d l; [|spec Hp; by rewrite E0, E1, Heqo].
  destruct (m_readable d) eqn:Er; cbn [negb]; [|apply refines_here; [done|]; spec Hp; by rewrite E0, E1, Heqo, Er].
  rewrite Hdir. destruct buffer as [writable|]; [|apply refines_here; [done|]; spec Hp; by rewrite E0, E1, Heqo, Er].
  apply Z.ltb_ge in E0. exists true. spec Hp. rewrite (proj2 (Z.ltb_ge size 0)), E1, Heqo, Er by lia. cbn [negb]. unfold spec_read.
  rewrite (description_read_ok (world s) d l) by (apply Hr || done). pose proof (content_small _ _ _ (fo_world _ (re_ok _ _ Hr)) Hl) as Hsmall.
  assert (related (set_description s n d) a) as Hsame.
  { unfold set_description. rewrite insert_id by done. destruct s. apply Hr. }
  destruct (Z.leb_spec (2 ^ 63) (m_current_offset d + size)) as [H|H]; [eexists; by split|].
  destruct (writable || _); cbn [res_bind]; [|eexists; by split]. eexists. split; [done|]. cbn [fst].
  unfold a_seek, set_description. apply related_update; [done..| |apply Hr|apply Hr|].
  - unfold size_of, peek. rewrite length_take. lia.
  - intros j Hj. by rewrite <- (re_contents _ _ Hr).
Qed.

Lemma write_refines s a fd data size : related s a -> call_ok a (Write fd data size) ->
  refines a (file_call s (Write fd data size)) (Write fd data size).
Proof using Type.
  intros Hr [Hs Hok]. cbn [file_call]. unfold sys_write. apply require_stdio_refines; [done|]. intros Hp.
  destruct (size <? 0) eqn:E0; [apply refines_here; [done|]; spec Hp; by rewrite E0|].
  destruct (size =? 0) eqn:E1; [apply refines_here; [done|]; spec Hp; by rewrite E0, E1|].
  described Hr fd n d l; [|spec Hp; by rewrite E0, E1, Heqo].
  destruct (m_writable d) eqn:Er; cbn [negb]; [|apply refines_here; [done|]; spec Hp; by rewrite E0, E1, Heqo, Er].
  destruct data as [data|]; [|apply refines_here; [done|]; spec Hp; by rewrite E0, E1, Heqo, Er].
  destruct (Hok data eq_refl) as (-> & Hacc & Hmax). destruct (Hmax n d l eq_refl Er) as [Hwo Hmax'].
  destruct (do_write_ok (world s) d l data) as (memory & w' & -> & Hw' & Hc'); try done; [apply Hr|lia|by intros ->|].
  exists memory. spec Hp. rewrite E0, E1, Heqo, Er. cbn [negb]. unfold spec_write, a_seek, a_store, size_of. rewrite Hacc.
  assert (0 <= write_offset d l) as Hw0 by (unfold write_offset, size_of; destruct (m_should_append d); lia).
  unfold MAX_SIZE in Hmax'. cbn [res_bind fst snd].
  destruct memory; cbn [res_bind fst snd]; (eexists; split; [done|]); unfold set_world, set_description; cbn [m_fds descriptions world a_fds a_descriptions a_contents];
    (apply related_update; [done..|lia|done| |]).
  - intros j. rewrite Hc'. case_decide; [done|]. apply Hr.
  - intros j Hj. case_decide; [by eexists|]. by rewrite <- (re_contents _ _ Hr).
  - intros j. rewrite Hc'. apply Hr.
  - intros j Hj. by rewrite <- (re_contents _ _ Hr).
Qed.

Lemma seek_refines s a fd offset writable whence : related s a -> (forall x, offset = Some x -> in_ty I64 x = true) ->
  refines a (file_call s (Lseek fd offset writable whence)) (Lseek fd offset writable whence).
Proof using Type.
  intros Hr Hx. cbn [file_call]. unfold sys_lseek. apply require_stdio_refines; [done|]. intros Hp.
  described Hr fd n d l; [|spec Hp; by rewrite Heqo]. destruct offset as [x|]; [|apply refines_here; [done|]; spec Hp; by rewrite Heqo].
  specialize (Hx x eq_refl). apply in_ty_spec in Hx. cbn in Hx.
  rewrite (seek_ok (world s) d l) by (apply Hr || done). cbn [res_bind]. pose proof (content_small _ _ _ (fo_world _ (re_ok _ _ Hr)) Hl) as Hsmall.
  exists true. spec Hp. rewrite Heqo. unfold spec_seek.
  assert (forall e, exists s', Ok (set_description s n d, Error e) = Ok (s', snd (a, Error e)) /\ related s' (fst (a, Error e))) as Hsame.
  { intros e. eexists. split; [done|]. unfold set_description. rewrite insert_id by done. destruct s. apply Hr. }
  assert (forall new, new < 2 ^ 63 ->
    exists s', (let '(d', r) := if new <? 0 then (d, inl EINVAL) else (with_offset d new, inr new) in
      Ok (set_description s n d', match r with inl e => Error e | inr v => if writable then Value 0 [v] else Error EFAULT end)) =
      Ok (s', snd (if new <? 0 then (a, Error EINVAL) else (a_seek a n d new, if writable then Value 0 [new] else Error EFAULT))) /\
      related s' (fst (if new <? 0 then (a, Error EINVAL) else (a_seek a n d new, if writable then Value 0 [new] else Error EFAULT)))) as Hfinish.
  { intros new Hnew. destruct (Z.ltb_spec new 0) as [H|H]; [apply Hsame|]. eexists. split; [done|]. cbn [fst]. unfold a_seek, set_description.
    apply related_update; [done..|lia|apply Hr|apply Hr|]. intros j Hj. by rewrite <- (re_contents _ _ Hr). }
  destruct (whence =? SEEK_SET); [apply Hfinish; lia|]. destruct (whence =? SEEK_CUR).
  - destruct (in_ty I64 (m_current_offset d + x)) eqn:E; [|apply Hsame]. apply Hfinish. apply in_ty_spec in E. cbn in E. lia.
  - destruct (whence =? SEEK_END); [apply Hfinish; lia|apply Hsame].
Qed.

Lemma truncate_refines s a fd size : related s a -> (forall x, size = Some x -> x <= 0xfffff000) ->
  refines a (file_call s (Ftruncate fd size)) (Ftruncate fd size).
Proof using Type.
  intros Hr Hx. cbn [file_call]. unfold sys_ftruncate. apply require_stdio_refines; [done|]. intros Hp.
  destruct size as [x|]; [|apply refines_here; [done|]; spec Hp; done]. specialize (Hx x eq_refl).
  destruct (x <? 0) eqn:E0; [apply refines_here; [done|]; spec Hp; by rewrite E0|].
  described Hr fd n d l; [|spec Hp; by rewrite E0, Heqo].
  destruct (m_writable d) eqn:Er; cbn [negb]; [|apply refines_here; [done|]; spec Hp; by rewrite E0, Heqo, Er].
  pose proof E0 as E0'. apply Z.ltb_ge in E0'. assert (wrap U64 x = x) as -> by (apply wrap_id; [done|apply in_ty_spec; cbn; lia]).
  destruct (truncate_file (world s) d l x) as (memory & w' & -> & Hw' & Hc'); [apply Hr|done|lia|]. cbn [res_bind].
  exists memory. spec Hp. rewrite E0, Heqo, Er. cbn [negb]. unfold set_world.
  pose proof (related_update s a n d (m_current_offset d) w') as Hup. rewrite !with_offset_same in Hup by done.
  assert (<[n := with_offset d (m_current_offset d)]> (a_descriptions a) = a_descriptions a) as Ha by (rewrite <- (re_descriptions _ _ Hr); by apply with_offset_same).
  rewrite Ha in Hup. destruct memory; (eexists; split; [done|]); cbn [fst]; unfold a_store.
  - apply Hup; try done.
    + intros j. rewrite Hc'. case_decide; [done|]. apply Hr.
    + intros j Hj. case_decide; [by eexists|]. by rewrite <- (re_contents _ _ Hr).
  - destruct a. cbn in *. apply Hup; try done.
    + intros j. rewrite Hc'. apply Hr.
    + intros j Hj. by rewrite <- (re_contents _ _ Hr).
Qed.

Lemma fds_refine s a c : related s a -> match c with Dup2 _ _ | Close _ => True | _ => False end -> refines a (file_call s c) c.
Proof using Type.
  intros Hr Hc. destruct c as [| | | |old new|fd]; try done; cbn [file_call]; [unfold sys_dup2|unfold sys_close];
    (apply require_stdio_refines; [done|]); intros Hp.
  - described Hr old n d l; [|spec Hp; by rewrite Heqo].
    destruct (old =? new) eqn:E; [apply refines_here; [done|]; spec Hp; by rewrite Heqo, E|]. destruct (_ || _) eqn:E2.
    { apply refines_here; [done|]. spec Hp. by rewrite Heqo, E, <- (re_fds _ _ Hr), E2. }
    exists true. spec Hp. rewrite Heqo, E, <- (re_fds _ _ Hr), E2. eexists. split; [done|]. apply related_fds; [done|].
    intros k m f [(_ & [= <- _] & _)|[_ Hk]]%list_lookup_insert_Some; [by exists d|by eapply Hr].
  - described Hr fd n d l; [|spec Hp; by rewrite Heqo]. exists true. spec Hp. rewrite Heqo, <- (re_fds _ _ Hr). eexists. split; [done|].
    apply related_fds; [done|]. intros k m f [(_ & ? & _)|[_ Hk]]%list_lookup_insert_Some; [done|by eapply Hr].
Qed.

Lemma file_call_refines s a c : related s a -> call_ok a c -> refines a (file_call s c) c.
Proof using Type.
  intros Hr Hok. destruct c; [by apply read_refines|by apply write_refines|by apply seek_refines|by apply truncate_refines|by apply fds_refine..].
Qed.

End Spec.

End OpenFileSpec.
