(* ===== verification/OpenFileRun.v ===== *)
(** * Runs of the system calls on files

    The witness of the refinement of open files, on a file made through the virtual
    file system, and runs that show where the code does not do what it means to. *)
From S2P Require Import Prelude Checked KBuffer Pipe Credentials Mmap FileSystem TmpFS TmpFSLaws Unveil Vfs VfsAccess VfsSpec OpenFile OpenFileSpec.
Import Errno Slice Inode TmpFS TmpFSContent TmpFSFacts OpenFile OpenFileSpec Sample.

Module OpenFileRun.

(** The descriptors 0 and 3 are of one description of the file /a/f. *)
Definition node : Description := create (1, 3) (Metadata.fresh_metadata 0x81FF 100 100 0) (Z.lor Unveil.O_RDONLY Unveil.O_WRONLY).
Definition start : Files := mkFiles [Some (0%nat, 0); None; None; Some (0%nat, 0)] {[ 0%nat := node ]} VfsSpec.filed.
Definition spec_start : Abstract := mkAbstract (m_fds start) (descriptions start) (content_of VfsSpec.filed).

Definition file_calls : list FileCall := [Write 0 (Some [Some 7; Some 8; Some 9]) 3; Lseek 3 (Some (-2)) true SEEK_CUR; Read 0 (Some true) 10].

Definition process : Process.process := VFS.c_process user.
Definition go (l : list FileCall) : res (Files * list result) := file_run can_allocate 0 process start l.
Definition results (r : res (Files * list result)) : list result := match r with Ok (_, rs) => rs | Fault _ => [] end.

Lemma start_related : related start spec_start.
Proof.
  split; [split|done..].
  - apply (Sample.sample_run_ok [VfsAccess.Mkdir "/a" 0x1FF; VfsAccess.Open "/a/f" (Z.lor Unveil.O_RDONLY Unveil.O_CREAT) 0x1FF]). vm_compute. reflexivity.
  - intros k n f Hk. assert (n = 0%nat) as ->; [|by eexists]. do 4 (destruct k as [|k]; [by injection Hk|]). done.
  - intros n d Hd. cbn [descriptions start] in Hd. apply lookup_singleton_Some in Hd as [<- <-]. split_and!; try done.
Qed.


(** A hole in a file shows what a shorter file had there before: the bytes 2 and 3 come
    back after the file was truncated to one byte. *)
Theorem truncated_bytes_return :
  results (go [Write 0 (Some [Some 1; Some 2; Some 3; Some 4]) 4; Ftruncate 0 (Some 1); Lseek 0 (Some 3) true SEEK_SET;
               Write 0 (Some [Some 9]) 1; Lseek 0 (Some 0) true SEEK_SET; Read 0 (Some true) 10]) =
  [Value 4 []; Value 0 []; Value 0 [3]; Value 1 []; Value 0 [0]; Value 4 [1; 2; 3; 9]].
Proof. vm_compute. reflexivity. Qed.

(** Sizes that stop the kernel: truncating to within a page of 4 GiB, and writing at an
    offset of 2 GiB. *)
Theorem file_sizes_panic :
  go [Ftruncate 0 (Some 0xfffff001)] = Fault VerifyFailed /\
  go [Lseek 0 (Some 0x80000000) true SEEK_SET; Write 0 (Some [Some 1]) 1] = Fault VerifyFailed.
Proof. vm_compute. done. Qed.

(** Lseek from the end ignores the offset, and dup2 of a descriptor to itself answers
    zero. *)
Theorem seek_end_and_dup2 :
  results (go [Write 0 (Some [Some 1; Some 2]) 2; Lseek 0 (Some (-1)) true SEEK_END; Dup2 3 3]) = [Value 2 []; Value 0 [2]; Value 0 []].
Proof. vm_compute. reflexivity. Qed.

End OpenFileRun.
